(* ===== verification/_CoqProject ===== *)
-Q . S2P
Prelude.v
GoMap.v
GoFloat.v
FloatInt.v
FloatRound.v
FloatError.v
ShareLedger.v
FixedDecimal.v
SyncStore.v
SyncQueue.v
SyncProps.v
ExprSyntax.v
ExprParser.v
ExprGrammar.v
ExprIndex.v
Indicator.v
ExprEval.v
ExprProps.v
Domain.v
GoSlice.v
ExitRules.v
MarketRules.v
MarketProps.v
RiskManager.v
RiskProps.v
ExecCost.v
MockTrader.v
MockProps.v
StockState.v
StockProps.v
Tracker.v
TrackerProps.v
TrackerLedger.v
TrackerValue.v
PaperParity.v
Margin.v
MarginProps.v
LiveEngine.v
LiveProps.v
LiveThreads.v
ExecSchedule.v
ExecDispatch.v
ExecProps.v
ExecQty.v
EventBus.v
BusProps.v
Kernel.v
KernelProps.v
BacktestEngine.v
EngineProps.v
BacktestJob.v
JobProps.v
AbnormalTrade.v
Divestment.v
Suitability.v
LargeTrades.v
ReportProps.v
ComplianceProps.v
Reconciliation.v
ReconProps.v
CorpAction.v
CorpProps.v
Auction.v
AuctionProps.v
PaperSession.v
SessionProps.v
Metrics.v
MetricProps.v
MarketBars.v
BarProps.v
