(* ===== verification/Prelude.v ===== *)
(** * Quant Lab: a verification library

    Quant Lab (src/) is an A-share research and trading system in Go. Data
    jobs fill the databases; factor expressions are written as formulas,
    parsed, checked and evaluated over price series; strategies run against a
    back-test portfolio; the same orders can be traded on paper, on margin or
    live; and a kernel starts the modules and records what they publish. This
    library models the parts that decide money, shares, orders and records,
    and proves what makes them correct. Every definition is executable and
    keeps the name of the Go function it translates where Rocq allows it.

    ** Parts, files and sources

    - Foundations. [Prelude] (this file): errors as [res], int64 wrap-around,
      byte strings and the string functions the sources call, tactics and
      hints. [GoMap]: Go maps as [gmap], sorted keys, and the iteration order
      of [range] as the class [MapOrder]. [GoSlice]: sort.Slice as the class
      [SliceSort], maps of slices, calendar dates. [GoFloat], [FloatInt], [FloatRound],
      [FloatError]: float64 and what its operations give on whole numbers, in
      order and in error.
    - Fixed-point decimals (pkg/decimal): [FixedDecimal].
    - Sync jobs (pkg/sync, pkg/storage/sync_jobs.go): [SyncStore] has the job
      record, the store interface as a class with laws and PostgreSQL's table
      as an instance; [SyncQueue] has the queue, the job service and the
      worker pool as programs over atomic effects, interleaved by [pstep];
      [SyncProps] has the theorems.
    - Factor expressions (pkg/expression, pkg/indicator, Pearson of
      pkg/statistics): [ExprSyntax] (AST, registry, gate, look-back),
      [ExprParser] and [ExprGrammar] (tokenizer, parser, documented grammar),
      [ExprIndex] (the parser over the token slice and its position),
      [Indicator] (RMA, EWMA, Kalman), [ExprEval] (operators, evaluator),
      [ExprProps].
    - Market rules: [Domain] (pkg/domain), [MarketRules] (pkg/marketdata
      board.go and riskwarning.go, pkg/fees, pkg/portfolio, pkg/settlement,
      pkg/risk/lot.go, pkg/backtest/pricelimit.go, pkg/live/price_cage.go),
      [MarketProps].
    - Risk (pkg/risk, with the moments, Slope and Percentile of
      pkg/statistics): [ExitRules] (stop losses, take-profit rules),
      [RiskManager] (volatility, regime, sizing, value at risk), [RiskProps].
    - Costs and paper trading: [ExecCost] (pkg/execution, pkg/marketimpact,
      pkg/backtest/execution, pkg/live/paper_cost.go), [MockTrader]
      (pkg/live/mock_trader.go, trader.go), [MockProps]. [StockState] has the
      registry of stock states and the forced liquidation
      (pkg/live/stockstate) over the class [LiveTrader], which the paper
      trader instantiates; [StockProps].
    - Back-test portfolio (pkg/backtest/tracker): [Tracker], [TrackerProps],
      [TrackerLedger], [TrackerValue]; [PaperParity] composes it with the
      paper trader.
    - Margin account (pkg/live/margin): [Margin], [MarginProps].
    - Live engine (pkg/live engine.go, order_manager.go, position_manager.go,
      simulated_broker.go): [LiveEngine], [LiveProps]; [LiveThreads] cuts the
      operations at their locks and interleaves goroutines task by task.
    - Execution algorithms (pkg/execalgo): [ExecSchedule], [ExecDispatch],
      [ExecProps], [ExecQty].
    - Clock, event store, message bus (pkg/clock, pkg/eventstore, pkg/msgbus):
      [EventBus], [BusProps].
    - Kernel (pkg/kernel): [Kernel], [KernelProps], the latter also on top of
      the modelled bus and event store.
    - Back-test engine (pkg/backtest engine.go, engine_daily.go, exec_algo.go):
      [BacktestEngine] composes the tracker, the risk manager, the execution
      service and the dispatcher into the trading day and the run;
      [EngineProps].
    - Back-test jobs (pkg/backtest/job, pkg/backtest/contracts,
      pkg/storage/backtest_jobs.go): [BacktestJob] has the job service and its
      goroutines as programs over atomic effects, interleaved by [pool_step];
      [JobProps].
    - Compliance (pkg/compliance): [AbnormalTrade] (the detectors of
      abnormal trading), [Divestment] (reduction plans), [Suitability]
      (board requirements), [ComplianceProps]; [LargeTrades] (the daily
      report of large transactions), [ReportProps].
    - Reconciliation with the broker (pkg/live/reconciliation):
      [Reconciliation], [ReconProps].
    - Corporate actions (pkg/domain/corporate_action.go): [CorpAction],
      [CorpProps].
    - Call auction (pkg/backtest/auction): [Auction], [AuctionProps].
    - Figures of a run (pkg/backtest/metrics): [Metrics], [MetricProps].
    - Bars of several frequencies (pkg/domain/market, pkg/marketdata
      aggregate.go and router.go): [MarketBars], [BarProps].
    - Paper session (pkg/live paper_session.go, paper_exec_algo.go and
      bar_replay_feed.go, pkg/backtest/execution/live_bridge.go):
      [PaperSession] replays bars through the class [SessionTrader], which the
      paper trader instantiates, and through the dispatcher; [SessionProps].

    ** How the code is modelled

    A struct is a record, an enum an inductive type, a map a [gmap], an
    operation a function from the state (and its arguments) to its result and
    the state it leaves. A pair of value and error is [res]; the texts of
    error messages are constructors with their arguments. Operations that
    hold one lock for their whole body are atomic, and concurrent runs are
    sequences of operations; where the code lets go of the lock in between
    ([SyncQueue], [BacktestJob], [ShortSell] of [Margin], [LiveThreads]) the
    pieces are separate steps. Message handlers are functions of the world
    they change and do not publish in turn. Clock readings, random
    identifiers and answers of callbacks are arguments.

    Integers are [Z] with wrap-around written out at their width. float64 is
    IEEE binary64 ([SpecFloat]), rounding to nearest even after every single
    operation, as the amd64 compiler generates it; results on hardware that
    fuses multiply and add may differ in the last bit. Share counts are
    float64 in the code; theorems that speak of integers assume whole shares
    below 2^53, where the arithmetic is exact. The metadata map a position
    shares with the exit rules is a cell of a heap ([ExitRules]), since a rule
    writes to it.

    Loops are structural where they follow a list. The parser and the
    decimal loops take fuel: the parser's is computed from the number of
    tokens, and [parser_stays_in_the_slice] proves that it never runs out and
    that no index leaves the token slice; the decimal loops run at most once
    per digit of scale. Formatting takes 20 digits, which hold every 64-bit
    value.

    ** Parameters

    Code outside the repository is a parameter with what the sources rely on
    as a class or a hypothesis: the Unicode tables of the tokenizer, the
    transcendental functions of [math] and the order of [sort.Slice] among
    equals in [ExprEval], [ExitRules], [StockState] and (as [SliceSort])
    [AbnormalTrade], [Divestment], [LargeTrades], [CorpAction], [Auction],
    [Metrics] and [MarketBars], the JSON encoder and PostgreSQL's treatment of times and documents in
    [EventBus], the outcomes of database statements (scripts in [EventBus],
    faults in [SyncQueue]), the two books of a reconciliation, the
    rows of the bar tables, message handlers, kernel modules,
    the order store of the paper trader, the broker of the live engine (class
    [Broker] with the laws [BrokerLaws], discharged by the simulated broker),
    price and bar providers, the trader of a paper session, the strategy, the
    market data and the risk service of the back-test engine, the engines a job may name and their
    answers, and the iteration order of maps.

    ** What the theorems show

    - Refinement: the tracker and the paper trader refine one integer T+1
      ledger ([ShareLedger]), hence mirror each other; the dispatcher's fill
      book refines integer bookkeeping; the ring buffer of reconciliation
      reports is the list of the newest ones.
    - Safety and invariants under any sequence of operations: settled jobs
      stay settled and claims are exclusive under every interleaving and
      fault; subscribers see only recorded messages; modules start and stop
      as a stack; cancelled parents stay silent; positions never linger flat;
      however the goroutines of the live engine interleave, the position book
      is exactly the reported trades, each of a submitted order at an allowed
      price, and an order trades at most once when quotes do not overlap;
      margin trading conserves net assets; a price-limited symbol is neither
      traded nor handed to an algorithm on a signal; only back-test jobs on
      record run; delisting is one way; profit tiers fire in order, once; every
      compliance alert rests on records of its window; an allowed reduction
      of a holding is lawful; a replay never looks ahead; a corporate action
      applies at most once; no finding of a reconciliation is lost; nobody
      trades past a limit or a quantity in an auction.
    - Progress: every planned child is released once; an accepted live order
      trades on the first quote that triggers it; an undisturbed back-test
      job settles; a run ends with a value for every trading day; a target is
      bought once; the parser terminates inside its token slice.
    - Equivalence and round trips: parser and grammar, batch and incremental
      indicators, paper and back-test fills, batch and single position
      sizing, the decimal comparisons; strings, JSON, formulas, job requests
      and the audit log read back; the report of large transactions is the
      one its thresholds describe; the cancellation detectors and the
      suitability check decide exactly their conditions; the paper session,
      the live bridge and the back-test ask for the same orders, run ids and the
      back-test's sizing apart; a report is healthy when the books agree; an auction clears at a price no other
      price beats; the maximum drawdown is the worst fall from a peak;
      an aggregated bar sums up exactly the minute bars of its bucket.
    - Errors: what refused operations leave alone, and the behaviours of the
      code that contradict its comments or its purpose (a repaid margin loan
      creates money, overlapping quotes fill twice, rows lost at the end of
      the audit log go unnoticed, a cancelled back-test job stays running until
      the next clean-up, a director who mixes methods passes the yearly limit, a
      short target is ordered again every day, a rising market is never a bull
      market, a reduction is rounded up above the holding, thin trading is
      never tested for manipulation, a corporate action seen before the stock
      is held is lost, split shares cannot be sold, an aggregated bar
      shows a closing print or a late print early, and others stated next to
      their component).

    ** Not modelled

    SQL, Redis and HTTP adapters, logging and metrics, the Python sidecar,
    generated code and the web services: they consist of calls to code that
    is not here. Of pkg/live the broker adapters and order stores, and of
    pkg/backtest the caches, the state store and the batch and parity tools,
    which read what the modelled parts record. The strategies of pkg/strategy
    and the estimators of pkg/mining are many independent numerical rules over the modelled primitives; the
    theorems on the engine and on the paper session hold for any strategy. *)
From stdpp Require Import base list strings gmap.
From Stdlib Require Import ZArith Lia Ascii.

Open Scope Z_scope.

(** ** Results: Go's [(value, error)] pairs *)

(** A Go function returning [(T, error)]: the value on a nil error, else
    the error. *)
Inductive res (E A : Type) : Type :=
| Ok (a : A)
| Err (e : E).
Arguments Ok {E A} a.
Arguments Err {E A} e.

Definition res_bind {E A B} (r : res E A) (f : A -> res E B) : res E B :=
  match r with Ok a => f a | Err e => Err e end.

Declare Scope res_scope.
Delimit Scope res_scope with res.
Notation "'let?' x ':=' c 'in' k" := (res_bind c (fun x => k))
  (at level 10, x pattern, c at level 100, k at level 200) : res_scope.
Open Scope res_scope.

Definition is_ok {E A} (r : res E A) : bool :=
  match r with Ok _ => true | Err _ => false end.

Lemma res_bind_ok {E A B} (r : res E A) (f : A -> res E B) b :
  res_bind r f = Ok b <-> exists a, r = Ok a /\ f a = Ok b.
Proof. destruct r; simpl; naive_solver. Qed.

(** ** Machine integers

    A w-bit signed integer is a [Z] in range; every arithmetic result is
    wrapped the way Go's two's-complement arithmetic does. [int] is 64 bits
    on the platforms the services are built for. *)

Definition two63 : Z := 9223372036854775808.
Definition two64 : Z := 18446744073709551616.
Definition max_int64 : Z := 9223372036854775807.
Definition min_int64 : Z := -9223372036854775808.

Definition wrap64 (z : Z) : Z := (z + two63) mod two64 - two63.
Definition wrap8 (z : Z) : Z := (z + 128) mod 256 - 128.

Definition in_int64 (z : Z) : Prop := min_int64 <= z <= max_int64.
Definition in_int64b (z : Z) : bool := (min_int64 <=? z) && (z <=? max_int64).

#[global] Instance in_int64_dec z : Decision (in_int64 z).
Proof. unfold in_int64. apply _. Defined.

(** Go's [/] and [%] truncate toward zero; [MinInt64 / -1] wraps. *)
Definition quot64 (a b : Z) : Z := wrap64 (Z.quot a b).
Definition rem64 (a b : Z) : Z := Z.rem a b.

Create HintDb go_int.
Create Rewrite HintDb go_int.

Ltac int64_unfold :=
  unfold in_int64, min_int64, max_int64, two63, two64 in *.

Lemma wrap64_id z : in_int64 z -> wrap64 z = z.
Proof.
  unfold wrap64; int64_unfold; intros H.
  rewrite Z.mod_small; lia.
Qed.

Lemma wrap64_range z : in_int64 (wrap64 z).
Proof.
  unfold wrap64; int64_unfold.
  pose proof (Z.mod_pos_bound (z + 9223372036854775808) 18446744073709551616
                ltac:(lia)); lia.
Qed.

Lemma wrap8_id z : -128 <= z <= 127 -> wrap8 z = z.
Proof. unfold wrap8; intros; rewrite Z.mod_small; lia. Qed.

Lemma in_int64b_spec z : in_int64b z = true <-> in_int64 z.
Proof. unfold in_int64b, in_int64. rewrite andb_true_iff; lia. Qed.

#[export] Hint Resolve wrap64_range : go_int.
#[export] Hint Rewrite wrap64_id using (int64_unfold; lia) : go_int.

Lemma quot_abs_le a b : b <> 0 -> Z.abs (Z.quot a b) <= Z.abs a.
Proof.
  intros Hb. rewrite <- Z.quot_abs by done.
  rewrite Z.quot_div_nonneg by lia.
  apply Z.div_le_upper_bound; [lia|]. nia.
Qed.

Lemma quot64_pos a b : 0 < b -> in_int64 a -> quot64 a b = Z.quot a b.
Proof.
  intros Hb Ha. unfold quot64. apply wrap64_id.
  destruct (Z.eq_dec b 1) as [->|]; [by rewrite Z.quot_1_r|].
  pose proof (quot_abs_le a b ltac:(lia)). pose proof (Z.quot_pos a b).
  destruct (Z.le_gt_cases 0 a); int64_unfold; [lia|].
  pose proof (Z.quot_opp_l a b ltac:(lia)).
  pose proof (Z.quot_pos (-a) b ltac:(lia) ltac:(lia)). lia.
Qed.

Lemma quot64_small a b : b <> 0 -> Z.abs a <= max_int64 -> quot64 a b = Z.quot a b.
Proof.
  intros Hb Ha. unfold quot64. apply wrap64_id.
  pose proof (quot_abs_le a b Hb). int64_unfold; lia.
Qed.

Lemma quot64_range a b : in_int64 (quot64 a b).
Proof. apply wrap64_range. Qed.
#[export] Hint Resolve quot64_range : go_int.

Lemma pow10_pos n : 0 <= n -> 0 < 10 ^ n.
Proof. intros; apply Z.pow_pos_nonneg; lia. Qed.
#[export] Hint Resolve pow10_pos : go_int.

(** Split on the boolean tests of a goal and its hypotheses, as the
    propositions they decide. *)
Ltac bool_to_prop :=
  repeat match goal with
  | H : (_ && _)%bool = true |- _ => apply andb_true_iff in H as [??]
  | H : (_ || _)%bool = false |- _ => apply orb_false_iff in H as [??]
  | H : negb _ = true |- _ => apply negb_true_iff in H
  | H : negb _ = false |- _ => apply negb_false_iff in H
  | H : (_ <=? _) = true |- _ => apply Z.leb_le in H
  | H : (_ <=? _) = false |- _ => apply Z.leb_gt in H
  | H : (_ <? _) = true |- _ => apply Z.ltb_lt in H
  | H : (_ <? _) = false |- _ => apply Z.ltb_ge in H
  | H : (_ >? _) = _ |- _ => rewrite Z.gtb_ltb in H
  | H : (_ >=? _) = _ |- _ => rewrite Z.geb_leb in H
  | H : (_ =? _) = true |- _ => apply Z.eqb_eq in H
  | H : (_ =? _) = false |- _ => apply Z.eqb_neq in H
  end.

Ltac case_if :=
  match goal with
  | |- context [if ?b then _ else _] => destruct b eqn:?; bool_to_prop
  | H : context [if ?b then _ else _] |- _ => destruct b eqn:?; bool_to_prop
  end.

(** ** Byte strings: Go's [string] and [byte] slices *)

Abbreviation bytes := (list ascii).

Definition lit (s : string) : bytes := String.list_ascii_of_string s.

Definition byteZ (c : ascii) : Z := Z.of_N (N_of_ascii c).

(** A digit byte and its value. *)
Definition is_digit (c : ascii) : bool :=
  (48 <=? byteZ c) && (byteZ c <=? 57).
Definition digit_val (c : ascii) : Z := byteZ c - 48.
Definition digit_byte (z : Z) : ascii := ascii_of_N (Z.to_N (z + 48)).

Lemma byteZ_digit_byte z : 0 <= z <= 9 -> byteZ (digit_byte z) = z + 48.
Proof.
  intros H. unfold byteZ, digit_byte. rewrite N_ascii_embedding; lia.
Qed.

Lemma is_digit_digit_byte z : 0 <= z <= 9 -> is_digit (digit_byte z) = true.
Proof. intros H. unfold is_digit. rewrite byteZ_digit_byte; lia. Qed.

Lemma digit_val_digit_byte z : 0 <= z <= 9 -> digit_val (digit_byte z) = z.
Proof. intros H. unfold digit_val. rewrite byteZ_digit_byte; lia. Qed.

(** [strings.TrimLeft]/[TrimRight] over a byte predicate. *)
Fixpoint trim_left (p : ascii -> bool) (s : bytes) : bytes :=
  match s with
  | [] => []
  | c :: s' => if p c then trim_left p s' else s
  end.

Definition trim_right (p : ascii -> bool) (s : bytes) : bytes :=
  rev (trim_left p (rev s)).

Definition trim_both (p : ascii -> bool) (s : bytes) : bytes :=
  trim_right p (trim_left p s).

(** The UTF-8 encodings of the code points [unicode.IsSpace] accepts. *)
Definition bytesZ (l : list Z) : bytes := map (fun z => ascii_of_N (Z.to_N z)) l.

Definition space_seqs : list bytes :=
  map bytesZ
    ([[9]; [10]; [11]; [12]; [13]; [32]; [194; 133]; [194; 160]; [225; 154; 128];
      [226; 128; 168]; [226; 128; 169]; [226; 128; 175]; [226; 129; 159];
      [227; 128; 128]]
     ++ map (fun i => [226; 128; 128 + i]) (seqZ 0 11)).

Fixpoint strip_prefix (p s : bytes) : option bytes :=
  match p, s with
  | [], _ => Some s
  | a :: p', b :: s' => if Ascii.eqb a b then strip_prefix p' s' else None
  | _ :: _, [] => None
  end.

Fixpoint first_strip (ps : list bytes) (s : bytes) : option bytes :=
  match ps with
  | [] => None
  | p :: ps' => match strip_prefix p s with
                | Some s' => Some s'
                | None => first_strip ps' s
                end
  end.

Fixpoint strip_all (fuel : nat) (ps : list bytes) (s : bytes) : bytes :=
  match fuel with
  | O => s
  | S fuel' => match first_strip ps s with
               | Some s' => strip_all fuel' ps s'
               | None => s
               end
  end.

(** [strings.TrimSpace]: strip white-space encodings at both ends. Each step
    removes at least one byte, so the length is enough fuel. *)
Definition TrimSpace (s : bytes) : bytes :=
  let l := strip_all (length s) space_seqs s in
  rev (strip_all (length l) (map (@rev ascii) space_seqs) (rev l)).

(** [strings.IndexByte] as a split: the bytes before and after the first
    occurrence. *)
Fixpoint split_byte (c : ascii) (s : bytes) : option (bytes * bytes) :=
  match s with
  | [] => None
  | b :: s' => if Ascii.eqb b c then Some ([], s')
               else match split_byte c s' with
                    | Some (l, r) => Some (b :: l, r)
                    | None => None
                    end
  end.

(** [strconv.FormatUint(n, 10)]; 20 digits hold every 64-bit value. *)
Fixpoint format_digits (fuel : nat) (n : Z) (acc : bytes) : bytes :=
  match fuel with
  | O => acc
  | S fuel' =>
      let acc' := digit_byte (n mod 10) :: acc in
      if n <? 10 then acc' else format_digits fuel' (n / 10) acc'
  end.

Definition FormatUint (n : Z) : bytes := format_digits 20 n [].

Definition FormatInt (n : Z) : bytes :=
  if n <? 0 then "-"%char :: FormatUint (- n) else FormatUint n.

Fixpoint digits_val (acc : Z) (s : bytes) : Z :=
  match s with
  | [] => acc
  | c :: s' => digits_val (10 * acc + digit_val c) s'
  end.

(** [strconv.ParseInt(s, 10, 64)]: [None] is a syntax or a range error. *)
Definition ParseInt (s : bytes) : option Z :=
  let parse_abs (neg : bool) (ds : bytes) :=
    if (match ds with [] => true | _ => false end) then None
    else if negb (forallb is_digit ds) then None
    else let v := digits_val 0 ds in
         let v' := if neg then - v else v in
         if in_int64b v' then Some v' else None in
  match s with
  | [] => None
  | c :: s' => if Ascii.eqb c "-"%char then parse_abs true s'
               else if Ascii.eqb c "+"%char then parse_abs false s'
               else parse_abs false s
  end.

(** [string(r)] for a rune: its UTF-8 encoding. *)
Definition utf8_encode (r : Z) : bytes :=
  if (r <? 0) || (1114111 <? r) || ((55296 <=? r) && (r <=? 57343))
  then bytesZ [239; 191; 189]
  else if r <? 128 then bytesZ [r]
  else if r <? 2048 then bytesZ [192 + r / 64; 128 + r mod 64]
  else if r <? 65536
  then bytesZ [224 + r / 4096; 128 + (r / 64) mod 64; 128 + r mod 64]
  else bytesZ [240 + r / 262144; 128 + (r / 4096) mod 64;
               128 + (r / 64) mod 64; 128 + r mod 64].

Definition in_rng (lo hi x : Z) : bool := (lo <=? x) && (x <=? hi).

Definition is_cont (c : ascii) : bool := in_rng 128 191 (byteZ c).

(** [[]rune(s)]: UTF-8 decoding; an invalid byte is U+FFFD of width one. *)
Fixpoint runes_of (s : bytes) : list Z :=
  match s with
  | [] => []
  | b0 :: s1 =>
      let x0 := byteZ b0 in
      if x0 <? 128 then x0 :: runes_of s1
      else if in_rng 194 223 x0 then
        match s1 with
        | b1 :: s2 =>
            if is_cont b1 then ((x0 - 192) * 64 + (byteZ b1 - 128)) :: runes_of s2
            else 65533 :: runes_of s1
        | [] => [65533]
        end
      else if in_rng 224 239 x0 then
        match s1 with
        | b1 :: (b2 :: s3) =>
            let lo := if x0 =? 224 then 160 else 128 in
            let hi := if x0 =? 237 then 159 else 191 in
            if in_rng lo hi (byteZ b1) && is_cont b2
            then ((x0 - 224) * 4096 + (byteZ b1 - 128) * 64 + (byteZ b2 - 128)) :: runes_of s3
            else 65533 :: runes_of s1
        | _ => 65533 :: runes_of s1
        end
      else if in_rng 240 244 x0 then
        match s1 with
        | b1 :: (b2 :: (b3 :: s4)) =>
            let lo := if x0 =? 240 then 144 else 128 in
            let hi := if x0 =? 244 then 143 else 191 in
            if in_rng lo hi (byteZ b1) && is_cont b2 && is_cont b3
            then ((x0 - 240) * 262144 + (byteZ b1 - 128) * 4096
                  + (byteZ b2 - 128) * 64 + (byteZ b3 - 128)) :: runes_of s4
            else 65533 :: runes_of s1
        | _ => 65533 :: runes_of s1
        end
      else 65533 :: runes_of s1
  end.

(** ** Lemmas on the byte helpers *)

Lemma digits_val_app acc s t :
  digits_val acc (s ++ t) = digits_val (digits_val acc s) t.
Proof. revert acc; induction s as [|c s IH]; intros acc; simpl; auto. Qed.

Lemma format_digits_spec fuel n acc :
  0 <= n < 10 ^ Z.of_nat fuel ->
  exists ds, format_digits fuel n acc = ds ++ acc
    /\ forallb is_digit ds = true
    /\ (fuel <> O -> ds <> [])
    /\ (forall a, digits_val a ds = a * 10 ^ Z.of_nat (length ds) + n).
Proof.
  revert n acc; induction fuel as [|fuel IH]; intros n acc Hn.
  - exists []. simpl in *. split; [done|]. split; [done|]. split; [done|].
    intros a. simpl. lia.
  - cbn [format_digits]. pose proof (Z.mod_pos_bound n 10 ltac:(lia)) as Hm.
    case_if.
    + exists [digit_byte (n mod 10)]. split; [done|]. split.
      { simpl. rewrite is_digit_digit_byte by lia. done. }
      split; [done|]. intros a. simpl. rewrite digit_val_digit_byte by lia.
      rewrite Z.mod_small by lia. lia.
    + destruct (IH (n / 10) (digit_byte (n mod 10) :: acc)) as (ds & E & Hd & _ & Hv).
      { rewrite Nat2Z.inj_succ, Z.pow_succ_r in Hn by lia.
        split; [apply Z.div_pos; lia|]. apply Z.div_lt_upper_bound; lia. }
      exists (ds ++ [digit_byte (n mod 10)]). rewrite E, <- app_assoc.
      split; [done|]. split.
      { rewrite forallb_app, Hd. simpl. by rewrite is_digit_digit_byte by lia. }
      split; [by destruct ds|]. intros a. rewrite digits_val_app, Hv. simpl.
      rewrite digit_val_digit_byte by lia.
      rewrite length_app, Nat2Z.inj_add. simpl (Z.of_nat (length [_])).
      rewrite Z.pow_add_r by lia.
      pose proof (Z.div_mod n 10 ltac:(lia)). lia.
Qed.

Lemma FormatUint_spec n :
  0 <= n < 10 ^ 20 ->
  forallb is_digit (FormatUint n) = true /\ FormatUint n <> []
  /\ digits_val 0 (FormatUint n) = n.
Proof.
  intros Hn. unfold FormatUint.
  destruct (format_digits_spec 20 n [] Hn) as (ds & E & Hd & Hne & Hv).
  rewrite E, app_nil_r. specialize (Hne ltac:(lia)). specialize (Hv 0).
  split; [done|]. split; [done|]. lia.
Qed.

Lemma digits_val_replicate0 k s acc :
  acc = 0 -> digits_val acc (replicate k "0"%char ++ s) = digits_val 0 s.
Proof.
  intros ->. induction k as [|k IH]; simpl; [done|].
  unfold digit_val. simpl. apply IH.
Qed.

Lemma forallb_replicate {A} (p : A -> bool) x k :
  p x = true -> forallb p (replicate k x) = true.
Proof. intros H. induction k; simpl; [done|]. by rewrite H. Qed.

Lemma split_byte_None c s :
  forallb (fun b => negb (Ascii.eqb b c)) s = true -> split_byte c s = None.
Proof.
  induction s as [|b s IH]; simpl; [done|]. intros H; bool_to_prop.
  rewrite H. by rewrite IH.
Qed.

Lemma split_byte_app c l r :
  forallb (fun b => negb (Ascii.eqb b c)) l = true ->
  split_byte c (l ++ c :: r) = Some (l, r).
Proof.
  induction l as [|b l IH]; simpl.
  - intros _. by rewrite Ascii.eqb_refl.
  - intros H; bool_to_prop. rewrite H. by rewrite IH.
Qed.

Lemma forallb_impl {A} (p q : A -> bool) l :
  (forall x, p x = true -> q x = true) -> forallb p l = true -> forallb q l = true.
Proof.
  intros Hpq. induction l as [|x l IH]; simpl; [done|].
  intros H; bool_to_prop. rewrite Hpq, IH; done.
Qed.

(** ** Lists *)

Lemma omap_insert_None {A B} (f : A -> option B) (l : list A) (i : nat) x y :
  l !! i = Some x -> f x = None -> f y = None -> omap f (<[i := y]> l) = omap f l.
Proof.
  revert i. induction l as [|a l IH]; intros [|i] Hi Hx Hy; simplify_eq/=.
  - by rewrite Hx, Hy.
  - destruct (f a); [f_equal|]; eauto.
Qed.

Lemma omap_insert_Some {A B} (f : A -> option B) (l : list A) (i : nat) x y b :
  l !! i = Some x -> f x = None -> f y = Some b ->
  omap f (<[i := y]> l) ≡ₚ b :: omap f l.
Proof.
  revert i. induction l as [|a l IH]; intros [|i] Hi Hx Hy; simplify_eq/=.
  - by rewrite Hx, Hy.
  - destruct (f a) as [b'|]; [|eauto].
    rewrite (IH i) by done. apply Permutation_swap.
Qed.
