(* ===== verification/GoMap.v ===== *)
(** * GoMap: Go maps in a fixed order

    A Go map is iterated in an order the runtime chooses; the code sorts the
    keys wherever the order matters. Here is [sort.Strings]'s bytewise order,
    the sorted keys of a map, and what a fold over them may assume. *)

From stdpp Require Import base list strings gmap sorting.
From Stdlib Require Import ZArith Lia Ascii.
From S2P Require Import Prelude.

Open Scope Z_scope.

(** [sort.Strings]: bytewise order. *)
Fixpoint bytes_leb (a b : bytes) : bool :=
  match a, b with
  | [], _ => true
  | _ :: _, [] => false
  | x :: a', y :: b' =>
      if byteZ x <? byteZ y then true
      else if byteZ y <? byteZ x then false
      else bytes_leb a' b'
  end.

Definition bytes_le (a b : bytes) : Prop := bytes_leb a b = true.

#[global] Instance bytes_le_dec : RelDecision bytes_le.
Proof. intros a b. unfold bytes_le. apply _. Defined.

Definition sortedKeys {V} (m : gmap bytes V) : list bytes :=
  merge_sort bytes_le (map_to_list m).*1.

(** ** Facts *)

Lemma byteZ_inj a b : byteZ a = byteZ b -> a = b.
Proof.
  unfold byteZ. intros H. apply N2Z.inj in H.
  by rewrite <- (ascii_N_embedding a), H, ascii_N_embedding.
Qed.

#[global] Instance bytes_le_total : base.Total bytes_le.
Proof.
  unfold bytes_le. intros a. induction a as [|x a IH]; intros [|y b]; cbn; auto.
  destruct (byteZ x <? byteZ y) eqn:E1, (byteZ y <? byteZ x) eqn:E2; auto.
Qed.

#[global] Instance bytes_le_trans : Transitive bytes_le.
Proof.
  unfold bytes_le. intros a. induction a as [|x a IH]; intros [|y b] [|z c]; cbn; try done.
  destruct (byteZ x <? byteZ y) eqn:E1, (byteZ y <? byteZ x) eqn:E2,
    (byteZ y <? byteZ z) eqn:E3, (byteZ z <? byteZ y) eqn:E4,
    (byteZ x <? byteZ z) eqn:E5, (byteZ z <? byteZ x) eqn:E6; bool_to_prop; try done; try lia.
  apply IH.
Qed.

#[global] Instance bytes_le_antisymm : AntiSymm (=) bytes_le.
Proof.
  unfold bytes_le. intros a. induction a as [|x a IH]; intros [|y b]; cbn; try done.
  destruct (byteZ x <? byteZ y) eqn:E1, (byteZ y <? byteZ x) eqn:E2; bool_to_prop; try done; try lia.
  intros H1 H2. f_equal; [apply byteZ_inj; lia|exact (IH b H1 H2)].
Qed.

Lemma StronglySorted_filter {A} (R : relation A) (P : A -> Prop) `{!forall x, Decision (P x)} l :
  StronglySorted R l -> StronglySorted R (filter P l).
Proof.
  induction 1 as [|x l Hl IH Hx]; [constructor|]. rewrite filter_cons. case_decide; [|done].
  constructor; [done|]. rewrite Forall_forall in *. intros y [_ Hy]%list_elem_of_filter. auto.
Qed.

(** The keys of a sub-map in the order of the keys of the map. *)
Lemma sortedKeys_filter {V W : Type} (m : gmap bytes V) (m' : gmap bytes W) (P : bytes -> Prop)
    `{!forall s, Decision (P s)} :
  (forall s, is_Some (m' !! s) <-> is_Some (m !! s) /\ P s) ->
  sortedKeys m' = filter P (sortedKeys m).
Proof.
  intros Hm. unfold sortedKeys.
  apply (StronglySorted_unique bytes_le); [apply (StronglySorted_merge_sort bytes_le)| |].
  - apply StronglySorted_filter, (StronglySorted_merge_sort bytes_le).
  - rewrite merge_sort_Permutation.
    apply NoDup_Permutation.
    + apply NoDup_fst_map_to_list.
    + apply NoDup_filter. rewrite merge_sort_Permutation. apply NoDup_fst_map_to_list.
    + intros s. rewrite list_elem_of_filter, merge_sort_Permutation.
      assert (Hk : forall {X} (n : gmap bytes X), s ∈ (map_to_list n).*1 <-> is_Some (n !! s)).
      { intros X n. rewrite list_elem_of_fmap. split.
        - intros ([k v] & -> & Hkv). apply elem_of_map_to_list in Hkv. by exists v.
        - intros [v Hv]. exists (s, v). by rewrite elem_of_map_to_list. }
      rewrite !Hk, Hm. tauto.
Qed.

Lemma elem_of_sortedKeys_iff {V} (m : gmap bytes V) s : s ∈ sortedKeys m <-> is_Some (m !! s).
Proof.
  unfold sortedKeys. rewrite merge_sort_Permutation, list_elem_of_fmap. split.
  - intros ([k v] & -> & Hkv%elem_of_map_to_list). by exists v.
  - intros [v Hv]. exists (s, v). by rewrite elem_of_map_to_list.
Qed.

Lemma elem_of_sortedKeys {V} (m : gmap bytes V) s : s ∈ sortedKeys m -> is_Some (m !! s).
Proof. apply elem_of_sortedKeys_iff. Qed.

Lemma NoDup_sortedKeys {V} (m : gmap bytes V) : NoDup (sortedKeys m).
Proof. unfold sortedKeys. rewrite merge_sort_Permutation. apply NoDup_fst_map_to_list. Qed.

Lemma sortedKeys_sorted {V} (m : gmap bytes V) : StronglySorted bytes_le (sortedKeys m).
Proof. apply (StronglySorted_merge_sort bytes_le). Qed.

(** The sorted keys depend on the domain only. *)
Lemma sortedKeys_dom {V W : Type} (m : gmap bytes V) (m' : gmap bytes W) :
  (forall s, is_Some (m' !! s) <-> is_Some (m !! s)) -> sortedKeys m' = sortedKeys m.
Proof.
  intros H. rewrite (sortedKeys_filter m m' (fun _ => True)).
  - induction (sortedKeys m) as [|x l IH]; [done|]. rewrite filter_cons, decide_True by done. by f_equal.
  - intros s. rewrite H. tauto.
Qed.

Lemma foldl_filter_skip {A B} (f g : A -> B -> A) (P : B -> Prop) `{!forall x, Decision (P x)} l :
  (forall a x, x ∈ l -> P x -> g a x = f a x) -> (forall a x, ~ P x -> f a x = a) ->
  forall a, foldl g a (filter P l) = foldl f a l.
Proof.
  induction l as [|x l IH]; intros Hg Hf a; [done|]. rewrite filter_cons. cbn [foldl].
  destruct (decide (P x)) as [HP|HP]; cbn [foldl].
  - rewrite Hg by (set_solver || done). apply IH; [|done]. intros. apply Hg; [by right|done].
  - rewrite (Hf a x HP). apply IH; [|done]. intros. apply Hg; [by right|done].
Qed.

(** ** Iteration over a map

    [range] visits every entry once in an order that Go leaves open and that
    may differ between two loops: the k-th loop of an operation visits the
    keys in an order of its own. *)

Class MapOrder := {
  visit : nat -> list bytes -> list bytes;
  visit_perm k l : visit k l ≡ₚ l
}.

Definition range `{!MapOrder} {V} (k : nat) (m : gmap bytes V) : list (bytes * V) :=
  omap (fun s => (fun v => (s, v)) <$> m !! s) (visit k (sortedKeys m)).

(** Sorted order is one of them. *)
Definition sorted_order : MapOrder := {| visit := fun _ l => l; visit_perm := fun _ l => reflexivity l |}.

Lemma range_elem `{!MapOrder} {V} (k : nat) (m : gmap bytes V) s v : (s, v) ∈ range k m <-> m !! s = Some v.
Proof.
  unfold range. rewrite list_elem_of_omap. split.
  - intros (s' & _ & Hs). destruct (m !! s') as [w|] eqn:E; [|done]. cbn in Hs. by injection Hs as -> ->.
  - intros Hs. exists s. rewrite Hs. split; [|done]. rewrite visit_perm. by apply elem_of_sortedKeys_iff.
Qed.

Lemma range_NoDup `{!MapOrder} {V} (k : nat) (m : gmap bytes V) : NoDup (range k m).
Proof.
  unfold range. assert (Hnd : NoDup (visit k (sortedKeys m))) by (rewrite visit_perm; apply NoDup_sortedKeys).
  revert Hnd. generalize (visit k (sortedKeys m)) as l. induction l as [|s l IH]; intros Hnd; cbn; [constructor|].
  apply NoDup_cons in Hnd as [Hs Hnd]. destruct (m !! s) as [v|]; cbn; [|by apply IH].
  apply NoDup_cons. split; [|by apply IH].
  rewrite list_elem_of_omap. intros (s' & Hin & Hv). destruct (m !! s'); [|done]. by injection Hv as -> _.
Qed.

Lemma range_perm `{!MapOrder} {V} (k : nat) (m : gmap bytes V) : range k m ≡ₚ map_to_list m.
Proof.
  apply NoDup_Permutation; [apply range_NoDup|apply NoDup_map_to_list|].
  intros [s v]. by rewrite range_elem, elem_of_map_to_list.
Qed.
