(* ===== verification/GoFloat.v ===== *)
(** * GoFloat: Go's [float64]

    IEEE-754 binary64 as the axiom-free executable specification of the
    Standard Library ([SpecFloat] at precision 53, exponent bound 1024),
    with round-to-nearest-even, signed zeros, infinities and NaN. Every
    operation rounds once: products are not fused into following sums (the
    amd64 code generation). Includes the [math] functions the sources call
    and the facts on comparison and sign the components rely on. *)

From Stdlib Require Import SpecFloat.
From stdpp Require Import base list.
From Stdlib Require Import ZArith Lia.
From S2P Require Import Prelude.

Abbreviation float64 := spec_float.

Definition fadd : float64 -> float64 -> float64 := SFadd 53 1024.
Definition fsub : float64 -> float64 -> float64 := SFsub 53 1024.
Definition fmul : float64 -> float64 -> float64 := SFmul 53 1024.
Definition fdiv : float64 -> float64 -> float64 := SFdiv 53 1024.
Definition fneg : float64 -> float64 := SFopp.
Definition flt : float64 -> float64 -> bool := SFltb.
Definition fle : float64 -> float64 -> bool := SFleb.
Definition feq : float64 -> float64 -> bool := SFeqb.

Declare Scope go_float_scope.
Delimit Scope go_float_scope with f64.
Infix "+" := fadd : go_float_scope.
Infix "-" := fsub : go_float_scope.
Infix "*" := fmul : go_float_scope.
Infix "/" := fdiv : go_float_scope.
Notation "x <? y" := (flt x y) : go_float_scope.
Notation "x <=? y" := (fle x y) : go_float_scope.
Notation "x >? y" := (flt y x) (only parsing) : go_float_scope.
Notation "x >=? y" := (fle y x) (only parsing) : go_float_scope.
Notation "x =? y" := (feq x y) : go_float_scope.
Bind Scope go_float_scope with spec_float.

(** [float64(n)] for an integer n. *)
Definition f64_of_Z (n : Z) : float64 := binary_normalize 53 1024 n 0 false.

(** A decimal constant [n / 10^k] of the source: the nearest float64. Exact
    operands (|n| < 2^53, k <= 22) make the single division the correctly
    rounded constant. *)
Definition flit (n : Z) (k : Z) : float64 := fdiv (f64_of_Z n) (f64_of_Z (10 ^ k)).

Definition f0 : float64 := S754_zero false.
Definition f1 : float64 := f64_of_Z 1.

(** The validity predicate of binary64 values: canonical mantissa, exponent
    in range. Every constant and every result satisfies it. *)
Definition fvalid (x : float64) : bool := valid_binary 53 1024 x.

(** [int64(f)]: truncation toward zero; out of range, NaN and infinities
    give the amd64 indefinite value. *)
Definition f64_to_int64 (f : float64) : Z :=
  match f with
  | S754_zero _ => 0
  | S754_finite s m e =>
      let z := (if 0 <=? e then Zpos m * 2 ^ e else Zpos m / 2 ^ (- e))%Z in
      let z := if s then (- z)%Z else z in
      if in_int64b z then z else min_int64
  | _ => min_int64
  end.

(** [math.Pow10(n)] and [math.Pow(10, n)] for 0 <= n: the float64 of 10^n
    (exact up to 10^22). *)
Definition Pow10 (n : Z) : float64 := f64_of_Z (10 ^ n).

(** [math.Round]: half away from zero. *)
Definition Round (f : float64) : float64 :=
  match f with
  | S754_finite s m e =>
      if (0 <=? e)%Z then f
      else let q := ((Zpos m + 2 ^ (- e - 1)) / 2 ^ (- e))%Z in
           match q with
           | Zpos p => binary_normalize 53 1024 (if s then Zneg p else Zpos p) 0 false
           | _ => S754_zero s
           end
  | _ => f
  end.

(** [math.Floor]. *)
Definition Floor (f : float64) : float64 :=
  match f with
  | S754_finite s m e =>
      if (0 <=? e)%Z then f
      else let q := ((if s then Zneg m else Zpos m) / 2 ^ (- e))%Z in
           match q with
           | Z0 => S754_zero s
           | _ => binary_normalize 53 1024 q 0 false
           end
  | _ => f
  end.

(** [math.Ceil]. *)
Definition Ceil (f : float64) : float64 := SFopp (Floor (SFopp f)).

(** [math.Trunc]: toward zero. *)
Definition Trunc (f : float64) : float64 := if SFltb f (S754_zero false) then Ceil f else Floor f.

(** [math.Mod]: the exact remainder, with the sign of the dividend; a zero or
    NaN divisor and a NaN or infinite dividend give NaN. *)
Definition Mod (x y : float64) : float64 :=
  match x, y with
  | S754_nan, _ | _, S754_nan | S754_infinity _, _ | _, S754_zero _ => S754_nan
  | S754_zero _, _ | _, S754_infinity _ => x
  | S754_finite s mx ex, S754_finite _ my ey =>
      let e := Z.min ex ey in
      match (Zpos mx * 2 ^ (ex - e)) mod (Zpos my * 2 ^ (ey - e)) with
      | Zpos r => binary_normalize 53 1024 (if s then Zneg r else Zpos r) e false
      | _ => S754_zero s
      end
  end.

(** [math.Sqrt]: correctly rounded. *)
Definition Sqrt (f : float64) : float64 := SFsqrt 53 1024 f.

(** [math.Log], [math.Exp] and [math.Pow]: the results of the transcendental
    functions are the library's; the components use no fact about them. *)
Class GoMath := {
  Log : float64 -> float64;
  Exp : float64 -> float64;
  Pow : float64 -> float64 -> float64
}.

(** [math.Abs]. *)
Definition Abs (f : float64) : float64 := SFabs f.

(** Go's built-in [min]/[max] on float64: a NaN argument gives NaN, and -0
    is below +0. *)
Definition is_nan (x : float64) : bool :=
  match x with S754_nan => true | _ => false end.
Definition signbit (x : float64) : bool :=
  match x with
  | S754_zero s | S754_infinity s | S754_finite s _ _ => s
  | S754_nan => false
  end.

Definition is_inf (x : float64) : bool :=
  match x with S754_infinity _ => true | _ => false end.

(** Neither NaN nor an infinity. *)
Definition isFinite (x : float64) : bool := negb (is_nan x) && negb (is_inf x).

Definition fNaN : float64 := S754_nan.

(** [math.Max]: +Inf wins over NaN, and +0 over -0. *)
Definition MathMax (x y : float64) : float64 :=
  if (is_inf x && negb (signbit x)) || (is_inf y && negb (signbit y)) then S754_infinity false
  else if is_nan x || is_nan y then fNaN
  else if feq x f0 && feq x y then (if signbit x then y else x)
  else if flt y x then x else y.

(** [math.Min]: -Inf wins over NaN, and -0 over +0. *)
Definition MathMin (x y : float64) : float64 :=
  if (is_inf x && signbit x) || (is_inf y && signbit y) then S754_infinity true
  else if is_nan x || is_nan y then fNaN
  else if feq x f0 && feq x y then (if signbit x then x else y)
  else if flt x y then x else y.

Definition fmin (x y : float64) : float64 :=
  if is_nan x then x else if is_nan y then y
  else if flt x y then x else if flt y x then y
  else if signbit x then x else y.

Definition fmax (x y : float64) : float64 :=
  if is_nan x then x else if is_nan y then y
  else if flt x y then y else if flt y x then x
  else if signbit x then y else x.

(** ** Facts on comparison *)

Create HintDb go_float.

Lemma fcompare_swap x y :
  SFcompare x y = match SFcompare y x with
                  | Some c => Some (CompOpp c)
                  | None => None
                  end.
Proof.
  destruct x as [sx|sx| |sx mx ex], y as [sy|sy| |sy my ey]; try reflexivity;
    try (destruct sx, sy; reflexivity); try (destruct sx; reflexivity);
    try (destruct sy; reflexivity).
  cbn. rewrite (Z.compare_antisym ey ex), !Pos.compare_cont_spec.
  rewrite (Pos.compare_antisym my mx).
  destruct sx, sy; destruct (ey ?= ex)%Z, (my ?= mx)%positive; reflexivity.
Qed.

Lemma fle_lt_or_eq x y : fle x y = (flt x y || feq x y)%bool.
Proof.
  unfold fle, flt, feq, SFleb, SFltb, SFeqb.
  destruct (SFcompare x y) as [[]|]; reflexivity.
Qed.

Lemma feq_comm x y : feq x y = feq y x.
Proof. unfold feq, SFeqb. rewrite (fcompare_swap x y). by destruct (SFcompare y x) as [[]|]. Qed.

Lemma flt_fle x y : flt x y = true -> fle x y = true.
Proof. rewrite fle_lt_or_eq. by intros ->. Qed.

Lemma flt_irrefl x : flt x x = false.
Proof.
  unfold flt, SFltb. pose proof (fcompare_swap x x) as H.
  destruct (SFcompare x x) as [[]|]; simpl in H; congruence.
Qed.

Lemma flt_asym x y : flt x y = true -> flt y x = false.
Proof.
  unfold flt, SFltb. rewrite (fcompare_swap x y).
  destruct (SFcompare y x) as [[]|]; simpl; congruence.
Qed.

(** On ordered operands (no NaN) the negation of [>] is [<=]. *)
Lemma fnot_gt_le x y :
  is_nan x = false -> is_nan y = false -> flt y x = false -> fle x y = true.
Proof.
  unfold flt, fle, SFltb, SFleb. intros Hx Hy.
  rewrite (fcompare_swap x y).
  destruct x as [sx|sx| |sx mx ex], y as [sy|sy| |sy my ey]; try discriminate; cbn;
    try (destruct sx); try (destruct sy); cbn; try done;
    destruct (ey ?= ex)%Z; cbn; try done;
    rewrite ?Pos.compare_cont_spec; cbn; destruct (my ?= mx)%positive; cbn; done.
Qed.

Lemma fle_not_gt x y : fle x y = true -> flt y x = false.
Proof.
  unfold flt, fle, SFltb, SFleb. rewrite (fcompare_swap x y).
  destruct (SFcompare y x) as [[]|]; simpl; congruence.
Qed.

#[export] Hint Resolve flt_fle flt_irrefl flt_asym fle_not_gt : go_float.

(** The exact conversions used for powers of ten. *)
Lemma Pow10_int64 n : 0 <= n <= 18 -> f64_to_int64 (Pow10 n) = 10 ^ n.
Proof.
  intros Hn.
  assert (Hall : forallb (fun k => f64_to_int64 (Pow10 k) =? 10 ^ k)%Z (seqZ 0 19) = true)
    by (vm_compute; reflexivity).
  rewrite forallb_forall in Hall. apply Z.eqb_eq, Hall.
  apply list_elem_of_In, elem_of_seqZ. lia.
Qed.

(** ** The order of the ordered values

    Comparison is lexicographic on a key (class, exponent, mantissa), so away
    from NaN it is a total preorder. *)
Definition order_key (x : float64) : Z * Z * Z :=
  match x with
  | S754_infinity true => (-2, 0, 0)
  | S754_finite true m e => (-1, - e, Zneg m)
  | S754_zero _ | S754_nan => (0, 0, 0)
  | S754_finite false m e => (1, e, Zpos m)
  | S754_infinity false => (2, 0, 0)
  end%Z.

Definition key_lt (a b : Z * Z * Z) : Prop :=
  let '(a1, a2, a3) := a in let '(b1, b2, b3) := b in
  (a1 < b1 \/ (a1 = b1 /\ (a2 < b2 \/ (a2 = b2 /\ a3 < b3))))%Z.

Lemma flt_key x y :
  is_nan x = false -> is_nan y = false -> flt x y = true <-> key_lt (order_key x) (order_key y).
Proof.
  intros Hx Hy. unfold flt, SFltb.
  destruct x as [sx|[]| |[] mx ex], y as [sy|[]| |[] my ey]; try discriminate; cbn;
    try (split; [discriminate || lia|discriminate || lia]; fail);
    try (destruct sx); try (destruct sy); cbn; try (split; [discriminate || lia|discriminate || lia]; fail);
    try lia;
    destruct (Z.compare_spec ex ey); cbn; rewrite ?Pos.compare_cont_spec; cbn;
    try (destruct (Pos.compare_spec mx my); cbn);
    (split; [try discriminate; intros; lia|intros; try reflexivity; exfalso; lia]).
Qed.

Lemma fle_trans_nan x y z :
  is_nan x = false -> is_nan y = false -> is_nan z = false ->
  flt y x = false -> flt z y = false -> flt z x = false.
Proof.
  intros Hx Hy Hz H1 H2. apply not_true_iff_false. intros H3.
  apply not_true_iff_false in H1, H2.
  rewrite flt_key in H1, H2, H3 by done. revert H1 H2 H3.
  destruct (order_key x) as [[??]?], (order_key y) as [[??]?], (order_key z) as [[??]?].
  unfold key_lt. lia.
Qed.

Lemma flt_not_nan x y : flt x y = true -> is_nan x = false /\ is_nan y = false.
Proof. by destruct x as [|[]| |[]], y as [|[]| |[]]. Qed.

(** [a < b <= x]. *)
Lemma flt_le_trans a b x :
  is_nan x = false -> flt a b = true -> flt x b = false -> flt a x = true.
Proof.
  intros Hx Hab Hxb. destruct (flt_not_nan a b Hab) as [Ha Hb].
  apply not_true_iff_false in Hxb. rewrite flt_key in * by done. revert Hab Hxb.
  destruct (order_key a) as [[??]?], (order_key b) as [[??]?], (order_key x) as [[??]?].
  unfold key_lt. lia.
Qed.
