(* ===== verification/FloatInt.v ===== *)
(** * FloatInt: whole numbers in float64

    Share counts are float64 values in the sources. Up to 2^53 the whole
    numbers are represented exactly and added, subtracted, multiplied and
    compared exactly; this file proves it for the binary64 model, so that
    statements about share counts can be made in integers. *)

From stdpp Require Import base list.
From Stdlib Require Import ZArith Lia SpecFloat.
From S2P Require Import Prelude GoFloat.

Open Scope Z_scope.

(** ** Digits *)

Lemma digits2_log2 p : Zpos (digits2_pos p) = Z.log2 (Zpos p) + 1.
Proof.
  induction p as [p IH|p IH|]; cbn [digits2_pos]; [| |done].
  - rewrite Pos2Z.inj_succ, IH. change (Zpos p~1) with (2 * Zpos p + 1).
    rewrite Z.log2_succ_double by lia. lia.
  - rewrite Pos2Z.inj_succ, IH. change (Zpos p~0) with (2 * Zpos p).
    rewrite Z.log2_double by lia. lia.
Qed.

Definition digits (p : positive) : Z := Zpos (digits2_pos p).

Lemma digits_pos p : 1 <= digits p.
Proof. unfold digits. lia. Qed.

Lemma digits_bounds p : 2 ^ (digits p - 1) <= Zpos p < 2 ^ digits p.
Proof.
  unfold digits. rewrite digits2_log2. pose proof (Z.log2_spec (Zpos p) ltac:(lia)).
  replace (Z.log2 (Zpos p) + 1 - 1) with (Z.log2 (Zpos p)) by lia.
  replace (Z.log2 (Zpos p) + 1) with (Z.succ (Z.log2 (Zpos p))) by lia. lia.
Qed.

Lemma digits_shift p k (q : positive) :
  0 <= k -> Zpos q = Zpos p * 2 ^ k -> digits q = digits p + k.
Proof.
  intros Hk Hq. unfold digits. rewrite !digits2_log2, Hq, Z.log2_mul_pow2 by lia. lia.
Qed.

Lemma digits_le p n : 0 <= n -> Zpos p < 2 ^ n -> digits p <= n.
Proof.
  intros Hn Hp. pose proof (digits_bounds p) as [Hb _].
  destruct (Z.le_gt_cases (digits p) n); [done|].
  pose proof (Z.pow_le_mono_r 2 n (digits p - 1)). lia.
Qed.

(** ** Shifts *)

Lemma shr_exact k : forall q : positive,
  iter_pos shr_1 k (Build_shr_record (Zpos (q * 2 ^ k)) false false)
  = Build_shr_record (Zpos q) false false.
Proof.
  induction k as [k IH|k IH|]; intros q; cbn [iter_pos].
  - replace (q * 2 ^ k~1)%positive with ((q * 2 ^ k * 2 ^ k)~0)%positive
      by (apply Pos2Z.inj; rewrite Pos2Z.inj_xO, !Pos2Z.inj_mul, !Pos2Z.inj_pow;
          replace (Zpos k~1) with (Zpos k + Zpos k + 1) by lia;
          rewrite !Z.pow_add_r by lia; change (2 ^ 1) with 2; ring).
    cbn [shr_1 orb]. by rewrite !IH.
  - replace (q * 2 ^ k~0)%positive with (q * 2 ^ k * 2 ^ k)%positive
      by (apply Pos2Z.inj; rewrite !Pos2Z.inj_mul, !Pos2Z.inj_pow;
          replace (Zpos k~0) with (Zpos k + Zpos k) by lia;
          rewrite !Z.pow_add_r by lia; ring).
    by rewrite !IH.
  - replace (q * 2 ^ 1)%positive with (q~0)%positive by lia. done.
Qed.

Lemma shift_left_pos m d : Zpos (Pos.iter xO m d) = Zpos m * 2 ^ Zpos d.
Proof.
  revert m. induction d as [|d IH] using Pos.peano_ind; intros m.
  - cbn. lia.
  - rewrite Pos.iter_succ, Pos2Z.inj_xO, IH, Pos2Z.inj_succ, Z.pow_succ_r by lia. ring.
Qed.

(** ** The canonical form of a whole number below 2^53 *)

Definition canon (p : positive) : positive := Z.to_pos (Zpos p * 2 ^ (53 - digits p)).

Definition fwhole (s : bool) (p : positive) : float64 := S754_finite s (canon p) (digits p - 53).

Lemma canon_val p : digits p <= 53 -> Zpos (canon p) = Zpos p * 2 ^ (53 - digits p).
Proof.
  intros Hd. unfold canon. rewrite Z2Pos.id; [done|].
  pose proof (Z.pow_pos_nonneg 2 (53 - digits p)). lia.
Qed.

Lemma digits_canon p : digits p <= 53 -> digits (canon p) = 53.
Proof.
  intros Hd. rewrite (digits_shift p (53 - digits p)); [lia|lia|by apply canon_val].
Qed.

Lemma fexp_digits p : digits p <= 53 -> fexp 53 1024 (digits p) = digits p - 53.
Proof. intros Hd. pose proof (digits_pos p). unfold fexp, emin. lia. Qed.

Lemma shr_fexp_canon p :
  digits p <= 53 ->
  shr_fexp 53 1024 (Zpos (canon p)) (digits p - 53) loc_Exact
  = (Build_shr_record (Zpos (canon p)) false false, digits p - 53).
Proof.
  intros Hd. unfold shr_fexp. cbn [Zdigits2 shr_record_of_loc].
  change (Zpos (digits2_pos (canon p))) with (digits (canon p)). rewrite digits_canon by done.
  replace (53 + (digits p - 53)) with (digits p) by lia. rewrite fexp_digits by done.
  by rewrite Z.sub_diag.
Qed.

(** Rounding a mantissa that stands exactly for the whole number. *)
Lemma round_aux_whole s m e p :
  digits p <= 53 -> e <= digits p - 53 -> Zpos m = Zpos p * 2 ^ (- e) ->
  binary_round_aux 53 1024 s (Zpos m) e loc_Exact = fwhole s p.
Proof.
  intros Hd He Hm. pose proof (digits_pos p) as H1.
  assert (Hshr : shr_fexp 53 1024 (Zpos m) e loc_Exact
                 = (Build_shr_record (Zpos (canon p)) false false, digits p - 53)).
  { unfold shr_fexp. cbn [Zdigits2 shr_record_of_loc].
    change (Zpos (digits2_pos m)) with (digits m).
    rewrite (digits_shift p (- e) m) by (done || lia).
    replace (digits p + - e + e) with (digits p) by lia. rewrite fexp_digits by done.
    destruct (digits p - 53 - e) as [|k|k] eqn:Ek; [| |lia].
    - cbn [shr]. assert (m = canon p) as -> by
        (apply Pos2Z.inj; rewrite canon_val, Hm by done; f_equal; f_equal; lia).
      f_equal. lia.
    - cbn [shr]. assert (m = canon p * 2 ^ k)%positive as ->.
      { apply Pos2Z.inj. rewrite Pos2Z.inj_mul, Pos2Z.inj_pow, canon_val, Hm by done.
        replace (- e) with (53 - digits p + Zpos k) by lia.
        rewrite Z.pow_add_r by lia. ring. }
      rewrite shr_exact. f_equal. lia. }
  unfold binary_round_aux. rewrite Hshr. cbn [shr_m loc_of_shr_record round_nearest_even].
  rewrite shr_fexp_canon by done. cbn [shr_m].
  replace (digits p - 53 <=? 1024 - 53) with true by lia. done.
Qed.

(** Normalizing a mantissa and exponent whose value is the whole number. *)
Lemma round_whole s m e p :
  digits p <= 53 ->
  (0 <= e -> Zpos p = Zpos m * 2 ^ e) -> (e < 0 -> Zpos m = Zpos p * 2 ^ (- e)) ->
  binary_round 53 1024 s m e = fwhole s p.
Proof.
  intros Hd Hpos Hneg. pose proof (digits_pos p) as H1. unfold binary_round.
  assert (Hdm : digits m + e = digits p).
  { destruct (Z.le_gt_cases 0 e) as [He|He].
    - pose proof (digits_shift m e p He (Hpos He)). lia.
    - pose proof (digits_shift p (- e) m ltac:(lia) (Hneg He)). lia. }
  change (Zpos (digits2_pos m)) with (digits m). rewrite Hdm, fexp_digits by done.
  unfold shl_align. destruct (digits p - 53 - e) as [|k|k] eqn:Ek.
  - apply round_aux_whole; [done|lia|].
    destruct (Z.le_gt_cases 0 e) as [He|He]; [|by apply Hneg].
    assert (e = 0) as -> by lia. specialize (Hpos He). cbn in *. lia.
  - apply round_aux_whole; [done|lia|]. apply Hneg. lia.
  - apply round_aux_whole; [done|lia|]. rewrite shift_left_pos.
    replace (Zpos k) with (e - (digits p - 53)) by lia.
    destruct (Z.le_gt_cases 0 e) as [He|He].
    + rewrite (Hpos He), <- Z.mul_assoc, <- Z.pow_add_r by lia. f_equal; f_equal; lia.
    + rewrite (Hneg He), <- Z.mul_assoc, <- Z.pow_add_r by lia. f_equal; f_equal; lia.
Qed.

(** ** Whole numbers as float64 *)

Definition whole_range (z : Z) : Prop := - 2 ^ 53 < z < 2 ^ 53.

Lemma whole_digits p : Zpos p < 2 ^ 53 -> digits p <= 53.
Proof. apply digits_le. lia. Qed.

Lemma f64_of_Z_pos p : Zpos p < 2 ^ 53 -> f64_of_Z (Zpos p) = fwhole false p.
Proof.
  intros Hp. unfold f64_of_Z, binary_normalize. apply round_whole; [by apply whole_digits|lia|lia].
Qed.

Lemma f64_of_Z_neg p : Zpos p < 2 ^ 53 -> f64_of_Z (Zneg p) = fwhole true p.
Proof.
  intros Hp. unfold f64_of_Z, binary_normalize. apply round_whole; [by apply whole_digits|lia|lia].
Qed.

(** A normalized sum at an exponent below zero. *)
Lemma normalize_whole z e :
  whole_range z -> e <= 0 -> binary_normalize 53 1024 (z * 2 ^ (- e)) e false = f64_of_Z z.
Proof.
  unfold whole_range. intros Hz He. pose proof (Z.pow_pos_nonneg 2 (- e) ltac:(lia) ltac:(lia)) as Hp.
  destruct z as [|p|p]; [done| |].
  - rewrite f64_of_Z_pos by lia. destruct (Zpos p * 2 ^ (- e)) as [|m|m] eqn:E; [lia| |lia].
    cbn [binary_normalize]. apply round_whole; [apply whole_digits; lia| |by intros].
    intros. assert (e = 0) as -> by lia. cbn in *. lia.
  - rewrite f64_of_Z_neg by lia. destruct (Zneg p * 2 ^ (- e)) as [|m|m] eqn:E; [lia|lia|].
    cbn [binary_normalize]. apply round_whole; [apply whole_digits; lia| |].
    + intros. assert (e = 0) as -> by lia. cbn in *. lia.
    + intros. lia.
Qed.

(** The aligned mantissa of a whole number. *)
Lemma align_whole s p ez :
  digits p <= 53 -> ez <= digits p - 53 ->
  cond_Zopp s (Zpos (fst (shl_align (canon p) (digits p - 53) ez)))
  = cond_Zopp s (Zpos p) * 2 ^ (- ez).
Proof.
  intros Hd He. unfold shl_align.
  assert (Hv : Zpos (fst (match ez - (digits p - 53) with
                          | Zneg d => (Pos.iter xO (canon p) d, ez)
                          | _ => (canon p, digits p - 53)
                          end)) = Zpos p * 2 ^ (- ez)).
  { destruct (ez - (digits p - 53)) as [|k|k] eqn:E; [| lia |]; cbn [fst].
    - rewrite canon_val by done. f_equal; f_equal; lia.
    - rewrite shift_left_pos, canon_val, <- Z.mul_assoc, <- Z.pow_add_r by lia.
      f_equal; f_equal; lia. }
  rewrite Hv. destruct s; cbn [cond_Zopp]; lia.
Qed.

Lemma whole_cases z :
  whole_range z ->
  (z = 0 /\ f64_of_Z z = S754_zero false)
  \/ exists s p, z = cond_Zopp s (Zpos p) /\ digits p <= 53 /\ Zpos p < 2 ^ 53
                 /\ f64_of_Z z = fwhole s p.
Proof.
  unfold whole_range. intros Hz. destruct z as [|p|p]; [by left| |]; right.
  - exists false, p. rewrite f64_of_Z_pos by lia.
    pose proof (whole_digits p ltac:(lia)). split; [done|]. split; [done|]. split; [lia|done].
  - exists true, p. rewrite f64_of_Z_neg by lia.
    pose proof (whole_digits p ltac:(lia)). split; [done|]. split; [done|]. split; [lia|done].
Qed.

Lemma fadd_whole a b :
  whole_range a -> whole_range b -> whole_range (a + b) ->
  fadd (f64_of_Z a) (f64_of_Z b) = f64_of_Z (a + b).
Proof.
  intros Ha Hb Hab.
  destruct (whole_cases a Ha) as [[-> ->]|(s & p & -> & Hd & Hp & ->)].
  - rewrite Z.add_0_l.
    destruct (whole_cases b Hb) as [[-> ->]|(s & p & -> & Hd & Hp & ->)]; done.
  - destruct (whole_cases b Hb) as [[-> ->]|(t & q & -> & Hdq & Hq & ->)].
    + rewrite Z.add_0_r.
      destruct (whole_cases _ Ha) as [[E _]|(s' & p' & E & _ & _ & ->)];
        [destruct s; cbn in E; lia|].
      destruct s, s'; cbn in E; try lia; by injection E as ->.
    + unfold fadd, fwhole, SFadd.
      rewrite !align_whole by (done || lia). rewrite <- Z.mul_add_distr_r.
      apply normalize_whole; [done|lia].
Qed.

Lemma fsub_whole a b :
  whole_range a -> whole_range b -> whole_range (a - b) ->
  fsub (f64_of_Z a) (f64_of_Z b) = f64_of_Z (a - b).
Proof.
  intros Ha Hb Hab.
  destruct (whole_cases b Hb) as [[-> ->]|(t & q & -> & Hdq & Hq & ->)].
  - rewrite Z.sub_0_r.
    destruct (whole_cases a Ha) as [[-> ->]|(s & p & -> & Hd & Hp & ->)]; done.
  - destruct (whole_cases a Ha) as [[-> ->]|(s & p & -> & Hd & Hp & ->)].
    + destruct (whole_cases _ Hab) as [[E _]|(s' & p' & E & _ & _ & ->)];
        [destruct t; cbn in E; lia|].
      destruct t, s'; cbn in E; try lia; by injection E as ->.
    + unfold fsub, fwhole, SFsub.
      rewrite !align_whole by (done || lia). rewrite <- Z.mul_sub_distr_r.
      apply normalize_whole; [done|lia].
Qed.

Lemma fmul_whole a b :
  0 < a -> 0 < b -> whole_range a -> whole_range b -> whole_range (a * b) ->
  fmul (f64_of_Z a) (f64_of_Z b) = f64_of_Z (a * b).
Proof.
  unfold whole_range. intros Ha0 Hb0 Ha Hb Hab.
  destruct a as [|p|]; try lia. destruct b as [|q|]; try lia.
  rewrite (f64_of_Z_pos p), (f64_of_Z_pos q) by lia.
  change (Zpos p * Zpos q) with (Zpos (p * q)) in *. rewrite f64_of_Z_pos by lia.
  pose proof (whole_digits p ltac:(lia)) as Hp. pose proof (whole_digits q ltac:(lia)) as Hq.
  unfold fmul, fwhole at 1 2, SFmul. cbn [xorb].
  apply round_aux_whole.
  - apply whole_digits. lia.
  - pose proof (Z.log2_mul_below (Zpos p) (Zpos q) ltac:(lia) ltac:(lia)) as Hlog.
    pose proof (digits2_log2 p). pose proof (digits2_log2 q). pose proof (digits2_log2 (p * q)).
    rewrite Pos2Z.inj_mul in *. unfold digits in *. lia.
  - rewrite Pos2Z.inj_mul, !canon_val by done.
    replace (- (digits p - 53 + (digits q - 53))) with ((53 - digits p) + (53 - digits q)) by lia.
    rewrite Z.pow_add_r by lia. rewrite Pos2Z.inj_mul. ring.
Qed.

(** ** Comparison *)

Lemma whole_key_pos p q :
  digits p <= 53 -> digits q <= 53 ->
  (digits p < digits q \/ (digits p = digits q /\ Zpos (canon p) < Zpos (canon q)))
  <-> Zpos p < Zpos q.
Proof.
  intros Hp Hq. rewrite !canon_val by done.
  pose proof (digits_bounds p) as Bp. pose proof (digits_bounds q) as Bq.
  pose proof (digits_pos p). pose proof (digits_pos q).
  destruct (Z.lt_trichotomy (digits p) (digits q)) as [Hlt|[Heq|Hgt]].
  - pose proof (Z.pow_le_mono_r 2 (digits p) (digits q - 1)). lia.
  - rewrite Heq. pose proof (Z.pow_pos_nonneg 2 (53 - digits q) ltac:(lia) ltac:(lia)). nia.
  - pose proof (Z.pow_le_mono_r 2 (digits q) (digits p - 1)). lia.
Qed.

Lemma flt_whole a b :
  whole_range a -> whole_range b -> flt (f64_of_Z a) (f64_of_Z b) = (a <? b).
Proof.
  intros Ha Hb.
  assert (Hiff : flt (f64_of_Z a) (f64_of_Z b) = true <-> a < b).
  { destruct (whole_cases a Ha) as [[-> ->]|(s & p & -> & Hdp & _ & ->)];
      destruct (whole_cases b Hb) as [[-> ->]|(t & q & -> & Hdq & _ & ->)];
      rewrite flt_key by done; unfold order_key, fwhole, key_lt, cond_Zopp;
      repeat match goal with |- context [match ?s with true => _ | false => _ end] => destruct s end;
      try lia.
    - pose proof (whole_key_pos q p Hdq Hdp). lia.
    - pose proof (whole_key_pos p q Hdp Hdq). lia. }
  destruct (flt _ _), (a <? b) eqn:E; bool_to_prop; try done; exfalso; lia || naive_solver lia.
Qed.

Lemma whole_not_nan a : whole_range a -> is_nan (f64_of_Z a) = false.
Proof. intros Ha. by destruct (whole_cases a Ha) as [[_ ->]|(s & p & _ & _ & _ & ->)]. Qed.

Lemma fle_whole a b :
  whole_range a -> whole_range b -> fle (f64_of_Z a) (f64_of_Z b) = (a <=? b).
Proof.
  intros Ha Hb. destruct (a <=? b) eqn:E; bool_to_prop.
  - apply fnot_gt_le; [by apply whole_not_nan..|]. rewrite flt_whole by done. lia.
  - apply not_true_iff_false. intros Hle%fle_not_gt. rewrite flt_whole in Hle by done. lia.
Qed.

Lemma feq_whole a b :
  whole_range a -> whole_range b -> feq (f64_of_Z a) (f64_of_Z b) = (a =? b).
Proof.
  intros Ha Hb. pose proof (fle_lt_or_eq (f64_of_Z a) (f64_of_Z b)) as H.
  rewrite fle_whole, flt_whole in H by done.
  destruct (feq _ _) eqn:E.
  - unfold feq, SFeqb in E. destruct (SFcompare _ _) as [[]|] eqn:Ec; try done.
    assert (flt (f64_of_Z a) (f64_of_Z b) = false) by (unfold flt, SFltb; by rewrite Ec).
    assert (flt (f64_of_Z b) (f64_of_Z a) = false)
      by (unfold flt, SFltb; by rewrite fcompare_swap, Ec).
    rewrite flt_whole in * by done. lia.
  - rewrite orb_false_r in H. lia.
Qed.

Create Rewrite HintDb whole.
#[export] Hint Rewrite fadd_whole fsub_whole flt_whole fle_whole feq_whole
  using (unfold whole_range in *; lia) : whole.

(** ** Conversion back *)

Lemma int64_of_whole n : 0 <= n < 2 ^ 53 -> f64_to_int64 (f64_of_Z n) = n.
Proof.
  intros Hn. destruct n as [|p|p]; [done| |lia]. rewrite f64_of_Z_pos by lia.
  unfold fwhole, f64_to_int64. pose proof (whole_digits p ltac:(lia)) as Hd.
  rewrite canon_val by done.
  assert (Hz : (if 0 <=? digits p - 53 then Zpos p * 2 ^ (53 - digits p) * 2 ^ (digits p - 53)
                else Zpos p * 2 ^ (53 - digits p) / 2 ^ (- (digits p - 53))) = Zpos p).
  { destruct (0 <=? digits p - 53) eqn:E; bool_to_prop.
    - replace (digits p) with 53 by lia. cbn. lia.
    - replace (- (digits p - 53)) with (53 - digits p) by lia. apply Z.div_mul.
      apply Z.pow_nonzero; lia. }
  rewrite Hz. assert (in_int64b (Zpos p) = true) as ->; [|done].
  apply in_int64b_spec. int64_unfold. lia.
Qed.

Lemma Abs_whole z : 0 <= z -> whole_range z -> Abs (f64_of_Z z) = f64_of_Z z.
Proof.
  intros H0 Hz. destruct (whole_cases z Hz) as [[-> ->]|(s & p & -> & _ & _ & ->)]; [done|].
  by destruct s.
Qed.
