(* ===== verification/FloatRound.v ===== *)
(** * FloatRound: facts on rounding in binary64

    The result of a rounding is one of the two neighbouring mantissas at the
    exponent of the format; results are valid floats, valid floats are
    ordered by value, and rounding does not cross a representable bound.
    These give the order facts on sums, differences and quotients the
    components use on share counts and cash. *)

From stdpp Require Import base list.
From Stdlib Require Import ZArith Lia SpecFloat.
From S2P Require Import Prelude GoFloat FloatInt.

Open Scope Z_scope.

(** ** Shifting a mantissa right *)

Lemma Zdigits2_bounds m : 0 < m -> 2 ^ (Zdigits2 m - 1) <= m < 2 ^ Zdigits2 m.
Proof. destruct m as [|p|p]; [lia| |lia]. intros _. apply digits_bounds. Qed.

Lemma Zdigits2_nonneg m : 0 <= m -> 0 <= Zdigits2 m.
Proof. destruct m; simpl; lia. Qed.

Lemma Zdigits2_le m n : 0 <= n -> 0 <= m < 2 ^ n -> Zdigits2 m <= n.
Proof. destruct m as [|p|p]; simpl; [lia| |lia]. intros Hn [_ Hp]. by apply digits_le. Qed.

Lemma Zdigits2_ge m n : 0 < m -> 2 ^ n <= m -> n < Zdigits2 m.
Proof.
  intros Hm Hn. pose proof (Zdigits2_bounds m Hm) as [_ Hb].
  apply Z.nle_gt. intros Hle. pose proof (Z.pow_le_mono_r 2 (Zdigits2 m) n). lia.
Qed.

Lemma shr_1_m r : 0 <= shr_m r -> shr_m (shr_1 r) = shr_m r / 2.
Proof.
  destruct r as [m r s]. cbn [shr_m shr_1]. intros Hm.
  destruct m as [|[p|p|]|p]; cbn [shr_m]; try reflexivity; [| |lia].
  - apply Z.div_unique with 1; lia.
  - apply Z.div_unique with 0; lia.
Qed.

Lemma shr_iter_m k : forall r,
  0 <= shr_m r -> shr_m (iter_pos shr_1 k r) = shr_m r / 2 ^ Zpos k.
Proof.
  assert (Hnn : forall a b, 0 <= a -> 0 <= b -> 0 <= a / 2 ^ b)
    by (intros; apply Z.div_pos; [done|apply Z.pow_pos_nonneg; lia]).
  induction k as [k IH|k IH|]; intros r Hr; cbn [iter_pos].
  - assert (Hs : 0 <= shr_m (shr_1 r)) by (rewrite shr_1_m by done; apply Z.div_pos; lia).
    rewrite IH by (rewrite IH by done; apply Hnn; lia). rewrite IH, shr_1_m by done.
    rewrite !Z.div_div by (try apply Z.pow_nonzero; try apply Z.pow_pos_nonneg; lia).
    f_equal. replace (Zpos k~1) with (1 + (Zpos k + Zpos k)) by lia.
    rewrite !Z.pow_add_r by lia. lia.
  - rewrite IH by (rewrite IH by done; apply Hnn; lia). rewrite IH by done.
    rewrite Z.div_div by (try apply Z.pow_nonzero; try apply Z.pow_pos_nonneg; lia).
    f_equal. replace (Zpos k~0) with (Zpos k + Zpos k) by lia. by rewrite Z.pow_add_r by lia.
  - by apply shr_1_m.
Qed.

Lemma shr_record_m m l : shr_m (shr_record_of_loc m l) = m.
Proof. by destruct l as [|[]]. Qed.

(** ** Rounding to one of two neighbours *)

(** The float of a rounded mantissa at a format exponent. *)
Definition enc (s : bool) (m e : Z) : float64 :=
  match m with
  | Z0 => S754_zero s
  | Zpos p =>
      if m =? 2 ^ 53
      then (if e + 1 <=? 971 then S754_finite s (2 ^ 52) (e + 1) else S754_infinity s)
      else if e <=? 971 then S754_finite s p e else S754_infinity s
  | Zneg _ => S754_nan
  end.

(** A mantissa as a rounding leaves it: at most 2^53, and normal above the
    least exponent. *)
Definition rounded (m e : Z) : Prop :=
  0 <= m <= 2 ^ 53 /\ -1074 <= e /\ (e = -1074 \/ 2 ^ 52 <= m).

Lemma fexp_le a : fexp 53 1024 a = Z.max (a - 53) (-1074).
Proof. done. Qed.

Lemma round_again s m e :
  rounded m e ->
  (let '(mrs, e') := shr_fexp 53 1024 m e loc_Exact in
   match shr_m mrs with
   | Z0 => S754_zero s
   | Zpos p => if e' <=? 1024 - 53 then S754_finite s p e' else S754_infinity s
   | _ => S754_nan
   end) = enc s m e.
Proof.
  intros ([Hm0 Hm] & He & Hn). unfold shr_fexp. cbn [shr_record_of_loc].
  destruct (Z.eq_dec m (2 ^ 53)) as [->|Hne].
  - replace (fexp 53 1024 (Zdigits2 (2 ^ 53) + e) - e) with 1
      by (rewrite fexp_le; change (Zdigits2 (2 ^ 53)) with 54; lia). reflexivity.
  - assert (Hd : Zdigits2 m <= 53) by (apply Zdigits2_le; lia).
    assert (Hk : fexp 53 1024 (Zdigits2 m + e) - e <= 0) by (rewrite fexp_le; lia).
    unfold shr. destruct (fexp 53 1024 (Zdigits2 m + e) - e) as [|k|k]; [|lia|]; cbn [shr_m];
      unfold enc; destruct m as [|p|p]; try lia; try done;
      by replace (Zpos p =? 2 ^ 53) with false by lia.
Qed.

Lemma round_nearest_cases m l : round_nearest_even m l = m \/ round_nearest_even m l = m + 1.
Proof. destruct l as [|[]]; cbn; auto. destruct (Z.even m); auto. Qed.

(** Every rounding: the truncated mantissa at the format exponent, or the
    next one. *)
Lemma round_aux_enc s m e l :
  0 <= m -> e <= fexp 53 1024 (Zdigits2 m + e) ->
  let e1 := fexp 53 1024 (Zdigits2 m + e) in
  exists m2, (m2 = m / 2 ^ (e1 - e) \/ m2 = m / 2 ^ (e1 - e) + 1)
    /\ rounded m2 e1 /\ binary_round_aux 53 1024 s m e l = enc s m2 e1.
Proof.
  intros Hm He e1. fold e1 in He.
  assert (Hshr : exists mrs, shr_fexp 53 1024 m e l = (mrs, e1) /\ shr_m mrs = m / 2 ^ (e1 - e)).
  { unfold shr_fexp. fold e1. destruct (e1 - e) as [|k|k] eqn:Ek; [| |lia]; cbn [shr].
    - eexists. rewrite shr_record_m, Z.div_1_r. split; [f_equal; lia|done].
    - eexists. rewrite shr_iter_m by (by rewrite shr_record_m). rewrite shr_record_m.
      split; [f_equal; lia|done]. }
  destruct Hshr as (mrs & Hshr & Hmm).
  set (m1 := m / 2 ^ (e1 - e)) in *.
  assert (H1 : 0 <= m1) by (apply Z.div_pos; [done|apply Z.pow_pos_nonneg; lia]).
  assert (He1 : e1 = Z.max (Zdigits2 m + e - 53) (-1074)) by apply fexp_le.
  assert (Hlt : m1 < 2 ^ 53).
  { apply Z.div_lt_upper_bound; [apply Z.pow_pos_nonneg; lia|]. rewrite <- Z.pow_add_r by lia.
    destruct (Z.eq_dec m 0) as [->|]; [apply Z.pow_pos_nonneg; lia|].
    pose proof (Zdigits2_bounds m ltac:(lia)) as [_ Hb].
    pose proof (Z.pow_le_mono_r 2 (Zdigits2 m) (e1 - e + 53)). lia. }
  assert (Hn : e1 = -1074 \/ 2 ^ 52 <= m1).
  { destruct (Z.eq_dec e1 (-1074)) as [|Hne]; [by left|right].
    assert (m <> 0) by (intros ->; simpl in He1; lia).
    pose proof (Zdigits2_bounds m ltac:(lia)) as [Hb _].
    apply Z.div_le_lower_bound; [apply Z.pow_pos_nonneg; lia|]. rewrite <- Z.pow_add_r by lia.
    replace (e1 - e + 52) with (Zdigits2 m - 1) by lia. done. }
  exists (round_nearest_even m1 (loc_of_shr_record mrs)).
  destruct (round_nearest_cases m1 (loc_of_shr_record mrs)) as [E|E]; rewrite E;
    (split; [auto|]; split; [unfold rounded; lia|]);
    unfold binary_round_aux; rewrite Hshr, Hmm, E; apply round_again; unfold rounded; lia.
Qed.

(** ** Validity *)

Lemma valid_finite s m e :
  fvalid (S754_finite s m e) = true <->
  e = Z.max (digits m + e - 53) (-1074) /\ e <= 971.
Proof.
  unfold fvalid, valid_binary, bounded, canonical_mantissa. rewrite fexp_le.
  change (Zpos (digits2_pos m)) with (digits m). rewrite andb_true_iff. lia.
Qed.

Lemma enc_valid s m e : rounded m e -> fvalid (enc s m e) = true.
Proof.
  intros ([Hm0 Hm] & He & Hn). unfold enc. destruct m as [|p|p]; [done| |lia].
  destruct (_ =? _) eqn:E; bool_to_prop.
  - destruct (_ <=? _) eqn:E1; [|done]. bool_to_prop. apply valid_finite.
    change (digits (2 ^ 52)) with 53. lia.
  - destruct (_ <=? _) eqn:E1; [|done]. bool_to_prop. apply valid_finite.
    assert (digits p <= 53) by (apply digits_le; lia).
    destruct Hn as [->|Hn]; [lia|].
    pose proof (Zdigits2_ge (Zpos p) 52 ltac:(lia) Hn) as Hd. cbn [Zdigits2] in Hd.
    unfold digits in *. lia.
Qed.

Lemma round_aux_valid s m e l :
  0 <= m -> e <= fexp 53 1024 (Zdigits2 m + e) -> fvalid (binary_round_aux 53 1024 s m e l) = true.
Proof.
  intros Hm He. destruct (round_aux_enc s m e l Hm He) as (m2 & _ & Hr & ->). by apply enc_valid.
Qed.

(** The mantissa aligned for a rounding. *)
Lemma shl_align_spec m e e' :
  let '(m', e1) := shl_align m e e' in
  e1 = Z.min e e' /\ Zpos m' = Zpos m * 2 ^ (e - e1).
Proof.
  unfold shl_align. destruct (e' - e) as [|k|k] eqn:E.
  - split; [lia|]. rewrite Z.sub_diag. lia.
  - split; [lia|]. rewrite Z.sub_diag. lia.
  - rewrite shift_left_pos. split; [lia|]. f_equal; f_equal; lia.
Qed.

(** Rounding a mantissa and exponent of any size. *)
Lemma round_enc s p e :
  exists m' e' m2, e' <= fexp 53 1024 (Zdigits2 (Zpos m') + e') /\ Z.min e (-1074) <= e' <= e
    /\ Zpos m' = Zpos p * 2 ^ (e - e')
    /\ let e1 := fexp 53 1024 (Zdigits2 (Zpos m') + e') in
       (m2 = Zpos m' / 2 ^ (e1 - e') \/ m2 = Zpos m' / 2 ^ (e1 - e') + 1)
       /\ rounded m2 e1 /\ binary_round 53 1024 s p e = enc s m2 e1.
Proof.
  unfold binary_round.
  pose proof (shl_align_spec p e (fexp 53 1024 (Zpos (digits2_pos p) + e))) as Ha.
  destruct (shl_align p e _) as [m' e'] eqn:Es. destruct Ha as [He' Hm'].
  assert (Hd : digits m' = digits p + (e - e')) by (apply digits_shift; [lia|done]).
  assert (Hpre : e' <= fexp 53 1024 (Zdigits2 (Zpos m') + e')).
  { cbn [Zdigits2]. change (Zpos (digits2_pos m')) with (digits m'). rewrite Hd.
    replace (digits p + (e - e') + e') with (digits p + e) by lia. unfold digits. lia. }
  destruct (round_aux_enc s (Zpos m') e' loc_Exact ltac:(lia) Hpre) as (m2 & H2 & Hr & Heq).
  exists m', e', m2. split; [done|]. split; [rewrite fexp_le in He'; lia|]. split; [done|]. auto.
Qed.

Lemma round_valid s p e : fvalid (binary_round 53 1024 s p e) = true.
Proof.
  destruct (round_enc s p e) as (m' & e' & m2 & _ & _ & _ & _ & Hr & ->). by apply enc_valid.
Qed.

Lemma normalize_valid m e sz : fvalid (binary_normalize 53 1024 m e sz) = true.
Proof. destruct m as [|p|p]; [done|apply round_valid..]. Qed.

Lemma fvalid_add x y : fvalid x = true -> fvalid y = true -> fvalid (fadd x y) = true.
Proof.
  intros Hx Hy. destruct x as [[]|[]| |sx mx ex], y as [[]|[]| |sy my ey]; try done.
  apply normalize_valid.
Qed.

Lemma fvalid_sub x y : fvalid x = true -> fvalid y = true -> fvalid (fsub x y) = true.
Proof.
  intros Hx Hy. destruct x as [[]|[]| |sx mx ex], y as [[]|[]| |sy my ey]; try done;
    apply normalize_valid.
Qed.

Lemma fvalid_neg x : fvalid (fneg x) = fvalid x.
Proof. by destruct x. Qed.

(** The exponent of a product of valid mantissas is at most the format's. *)
Lemma mul_exponent mx ex my ey :
  ex = Z.max (digits mx + ex - 53) (-1074) /\ ex <= 971 ->
  ey = Z.max (digits my + ey - 53) (-1074) /\ ey <= 971 ->
  ex + ey <= Z.max (Zdigits2 (Zpos (mx * my)) + (ex + ey) - 53) (-1074).
Proof.
  intros Hx Hy. cbn [Zdigits2]. change (Zpos (digits2_pos ?x)) with (digits x).
  pose proof (digits_bounds mx) as Bx. pose proof (digits_bounds my) as By.
  pose proof (digits_pos mx). pose proof (digits_pos my).
  assert (digits mx + digits my - 2 < digits (mx * my)).
  { apply (Zdigits2_ge (Zpos (mx * my))); [lia|]. rewrite Pos2Z.inj_mul.
    replace (digits mx + digits my - 2) with ((digits mx - 1) + (digits my - 1)) by lia.
    rewrite Z.pow_add_r by lia. apply Z.mul_le_mono_nonneg; lia. }
  lia.
Qed.

Lemma fvalid_mul x y : fvalid x = true -> fvalid y = true -> fvalid (fmul x y) = true.
Proof.
  intros Hx Hy. destruct x as [[]|[]| |sx mx ex], y as [[]|[]| |sy my ey]; try done.
  apply valid_finite in Hx, Hy. unfold fmul, SFmul. apply round_aux_valid; [lia|].
  rewrite fexp_le. by apply mul_exponent.
Qed.

(** The quotient a division rounds: its exponent is at most the format's and
    it is the exact quotient truncated. *)
Lemma div_core_spec mx ex my ey :
  let '(q, e, l) := SFdiv_core_binary 53 1024 (Zpos mx) ex (Zpos my) ey in
  0 <= q /\ e <= ex - ey /\ q = (Zpos mx * 2 ^ (ex - ey - e)) / Zpos my
  /\ e <= fexp 53 1024 (Zdigits2 q + e).
Proof.
  unfold SFdiv_core_binary. cbn [Zdigits2].
  change (Zpos (digits2_pos ?x)) with (digits x). rewrite fexp_le.
  set (e := Z.min (Z.max _ _) _). set (s := ex - ey - e).
  assert (Hs : 0 <= s) by lia.
  assert (Hm : match s with Z0 => Zpos mx | Zpos _ => Z.shiftl (Zpos mx) s | Zneg _ => 0 end
               = Zpos mx * 2 ^ s).
  { destruct s as [|k|k] eqn:E; [lia| |lia]. by rewrite Z.shiftl_mul_pow2 by lia. }
  rewrite Hm. destruct (Z.div_eucl _ _) as [q r] eqn:Ed.
  assert (Hq : q = Zpos mx * 2 ^ s / Zpos my) by (unfold Z.div; by rewrite Ed).
  clear Ed Hm. assert (Hq0 : 0 <= q) by (subst q; apply Z.div_pos; lia).
  split; [done|]. split; [lia|]. split; [done|]. rewrite fexp_le.
  destruct (Z.eq_dec q 0) as [Hz|Hnz].
  - assert (Hsmall : Zpos mx * 2 ^ s < Zpos my).
    { apply Z.nle_gt. intros Hle. pose proof (Z.div_le_mono _ _ (Zpos my) ltac:(lia) Hle) as Hd.
      rewrite Z.div_same in Hd by lia. lia. }
    assert (digits mx - 1 + s < digits my).
    { apply (Z.pow_lt_mono_r_iff 2); [lia|pose proof (digits_pos my); lia|].
      rewrite Z.pow_add_r by (pose proof (digits_pos mx); lia).
      pose proof (digits_bounds mx) as [Bx _]. pose proof (digits_bounds my) as [_ By].
      pose proof (Z.mul_le_mono_nonneg_r _ _ (2 ^ s) ltac:(lia) Bx). lia. }
    rewrite Hz. cbn [Zdigits2]. lia.
  - assert (digits mx + s - digits my <= Zdigits2 q).
    { pose proof (Zdigits2_bounds q ltac:(lia)) as [_ Bq].
      assert (Hup : Zpos mx * 2 ^ s < 2 ^ (Zdigits2 q + digits my)).
      { rewrite Z.pow_add_r by (pose proof (digits_pos my); pose proof (Zdigits2_nonneg q); lia).
        pose proof (digits_bounds my) as [_ By].
        pose proof (Z.mul_succ_div_gt (Zpos mx * 2 ^ s) (Zpos my) ltac:(lia)) as Hgt.
        rewrite <- Hq in Hgt. nia. }
      pose proof (digits_bounds mx) as [Bx _]. pose proof (digits_pos mx).
      assert (Hpow : 2 ^ (digits mx - 1 + s) < 2 ^ (Zdigits2 q + digits my)).
      { rewrite Z.pow_add_r by lia.
        pose proof (Z.mul_le_mono_nonneg_r _ _ (2 ^ s) ltac:(lia) Bx). lia. }
      pose proof (Zdigits2_nonneg q Hq0). pose proof (digits_pos my).
      rewrite <- Z.pow_lt_mono_r_iff in Hpow by lia. lia. }
    lia.
Qed.

Lemma fvalid_div x y : fvalid x = true -> fvalid y = true -> fvalid (fdiv x y) = true.
Proof.
  intros Hx Hy. destruct x as [[]|[]| |sx mx ex], y as [[]|[]| |sy my ey]; try done.
  unfold fdiv, SFdiv. pose proof (div_core_spec mx ex my ey) as Hd.
  destruct (SFdiv_core_binary _ _ _ _ _ _) as [[q e] l].
  destruct Hd as (? & _ & _ & ?). by apply round_aux_valid.
Qed.

Lemma fvalid_of_Z z : fvalid (f64_of_Z z) = true.
Proof. apply normalize_valid. Qed.

Lemma fvalid_lit n k : fvalid (flit n k) = true.
Proof. apply fvalid_div; apply fvalid_of_Z. Qed.

#[export] Hint Resolve fvalid_add fvalid_sub fvalid_mul fvalid_div fvalid_of_Z fvalid_lit : go_float.

(** ** Order by value *)

(** The value of a valid float in units of the least subnormal. *)
Definition fmag (x : float64) : Z :=
  match x with
  | S754_finite s m e => cond_Zopp s (Zpos m * 2 ^ (e + 1074))
  | _ => 0
  end.

Definition ffinite (x : float64) : bool :=
  match x with S754_zero _ | S754_finite _ _ _ => true | _ => false end.

(** Between positive valid floats the pair (exponent, mantissa) orders by
    value. *)
Lemma key_value m1 e1 m2 e2 :
  e1 = Z.max (digits m1 + e1 - 53) (-1074) -> e2 = Z.max (digits m2 + e2 - 53) (-1074) ->
  (e1 < e2 \/ (e1 = e2 /\ Zpos m1 < Zpos m2))
  <-> Zpos m1 * 2 ^ (e1 + 1074) < Zpos m2 * 2 ^ (e2 + 1074).
Proof.
  revert m1 e1 m2 e2.
  assert (Hlt : forall m1 e1 m2 e2,
    e1 = Z.max (digits m1 + e1 - 53) (-1074) -> e2 = Z.max (digits m2 + e2 - 53) (-1074) ->
    e1 < e2 -> Zpos m1 * 2 ^ (e1 + 1074) < Zpos m2 * 2 ^ (e2 + 1074)).
  { intros m1 e1 m2 e2 H1 H2 Hlt. pose proof (digits_bounds m1) as [_ B1].
    pose proof (digits_bounds m2) as [B2 _]. pose proof (digits_pos m1).
    pose proof (Z.pow_pos_nonneg 2 (e1 + 1074) ltac:(lia) ltac:(lia)).
    pose proof (Z.pow_pos_nonneg 2 (e2 + 1074) ltac:(lia) ltac:(lia)).
    assert (A1 : Zpos m1 * 2 ^ (e1 + 1074) < 2 ^ (digits m1 + (e1 + 1074)))
      by (rewrite (Z.pow_add_r 2 (digits m1)) by lia; by apply Z.mul_lt_mono_pos_r).
    assert (A2 : 2 ^ (digits m2 - 1 + (e2 + 1074)) <= Zpos m2 * 2 ^ (e2 + 1074))
      by (rewrite (Z.pow_add_r 2 (digits m2 - 1)) by (pose proof (digits_pos m2); lia);
          apply Z.mul_le_mono_nonneg_r; [lia|done]).
    assert (2 ^ (digits m1 + (e1 + 1074)) <= 2 ^ (digits m2 - 1 + (e2 + 1074)))
      by (apply Z.pow_le_mono_r; lia).
    lia. }
  intros m1 e1 m2 e2 H1 H2.
  destruct (Z.lt_trichotomy e1 e2) as [L|[->|L]].
  - specialize (Hlt _ _ _ _ H1 H2 L). lia.
  - pose proof (Z.pow_pos_nonneg 2 (e2 + 1074) ltac:(lia) ltac:(lia)) as Hp.
    rewrite <- Z.mul_lt_mono_pos_r by done. lia.
  - specialize (Hlt _ _ _ _ H2 H1 L). lia.
Qed.

Lemma flt_fmag x y :
  fvalid x = true -> fvalid y = true -> ffinite x = true -> ffinite y = true ->
  flt x y = true <-> fmag x < fmag y.
Proof.
  intros Hx Hy Fx Fy.
  assert (Hp : forall m e, -1074 <= e -> 0 < Zpos m * 2 ^ (e + 1074)).
  { intros m e He. pose proof (Z.pow_pos_nonneg 2 (e + 1074)). lia. }
  destruct x as [sx|sx| |sx mx ex], y as [sy|sy| |sy my ey]; try discriminate Fx; try discriminate Fy;
    rewrite flt_key by done; unfold order_key, fmag, cond_Zopp, key_lt;
    try apply valid_finite in Hx; try apply valid_finite in Hy.
  - lia.
  - pose proof (Hp my ey). destruct sy; lia.
  - pose proof (Hp mx ex). destruct sx; lia.
  - pose proof (Hp mx ex). pose proof (Hp my ey).
    pose proof (key_value mx ex my ey). pose proof (key_value my ey mx ex).
    destruct sx, sy; lia.
Qed.

(** ** Rounding against a representable bound *)

Lemma enc_fmag s m e :
  rounded m e -> ffinite (enc s m e) = true -> fmag (enc s m e) = cond_Zopp s (m * 2 ^ (e + 1074)).
Proof.
  intros ([Hm0 Hm] & He & Hn). unfold enc. destruct m as [|p|p]; [by destruct s| |lia].
  destruct (_ =? _) eqn:E; bool_to_prop.
  - destruct (_ <=? _) eqn:E1; [|done]. intros _. cbn [fmag]. f_equal. rewrite E.
    replace (e + 1 + 1074) with (1 + (e + 1074)) by lia. rewrite Z.pow_add_r by lia.
    change (Zpos (2 ^ 52)) with (2 ^ 52). lia.
  - by destruct (_ <=? _) eqn:E1.
Qed.

Lemma enc_pos_not_below m e z :
  rounded m e -> fvalid z = true -> ffinite z = true -> fmag z <= m * 2 ^ (e + 1074) ->
  flt (enc false m e) z = false.
Proof.
  intros Hr Hv Hf Hle. destruct (ffinite (enc false m e)) eqn:Ff.
  - apply not_true_iff_false. rewrite flt_fmag by (done || by apply enc_valid).
    rewrite enc_fmag by done. cbn [cond_Zopp]. lia.
  - unfold enc in *. destruct m as [|p|p]; [done| |by destruct Hr; lia].
    destruct (_ =? _), (_ <=? _); try discriminate Ff; by destruct z as [| | |[]].
Qed.

(** Rounding an exact value does not go below a representable one. *)
Lemma round_lower p e z :
  -1074 <= e -> fvalid z = true -> ffinite z = true -> fmag z <= Zpos p * 2 ^ (e + 1074) ->
  flt (binary_round 53 1024 false p e) z = false.
Proof.
  intros He Hv Hf Hle.
  destruct (round_enc false p e) as (m' & e' & m2 & Hpre & He' & Hm' & H2 & Hr & ->).
  set (e1 := fexp 53 1024 (Zdigits2 (Zpos m') + e')) in *.
  apply enc_pos_not_below; try done.
  assert (Hval : Zpos p * 2 ^ (e + 1074) = Zpos m' * 2 ^ (e' + 1074)).
  { rewrite Hm', <- Z.mul_assoc, <- Z.pow_add_r by lia. f_equal; f_equal; lia. }
  rewrite Hval in Hle. clear Hval Hm'. destruct Hr as ([H20 H2m] & He1 & Hn).
  assert (Hpos : forall a, 0 <= a -> 0 < 2 ^ a) by (intros; apply Z.pow_pos_nonneg; lia).
  destruct z as [sz|?| |sz mz ez]; try done; cbn [fmag] in *.
  { pose proof (Hpos (e1 + 1074)). nia. }
  apply valid_finite in Hv. destruct sz; cbn [cond_Zopp] in *.
  { pose proof (Hpos (e1 + 1074)). pose proof (Hpos (ez + 1074)). nia. }
  destruct (Z.le_gt_cases e1 ez) as [Hge|Hlt].
  - assert (Hdiv : Zpos mz * 2 ^ (ez - e1) <= Zpos m' / 2 ^ (e1 - e')).
    { apply Z.div_le_lower_bound; [apply Hpos; lia|].
      apply (Z.mul_le_mono_pos_r _ _ (2 ^ (e' + 1074))); [apply Hpos; lia|].
      replace (2 ^ (e1 - e') * (Zpos mz * 2 ^ (ez - e1)) * 2 ^ (e' + 1074))
        with (Zpos mz * (2 ^ (e1 - e') * 2 ^ (ez - e1) * 2 ^ (e' + 1074))) by ring.
      rewrite <- !Z.pow_add_r by lia.
      replace (e1 - e' + (ez - e1) + (e' + 1074)) with (ez + 1074) by lia. done. }
    replace (ez + 1074) with ((ez - e1) + (e1 + 1074)) by lia.
    rewrite Z.pow_add_r, Z.mul_assoc by lia.
    apply Z.mul_le_mono_nonneg_r; [specialize (Hpos (e1 + 1074)); lia|]. lia.
  - assert (H52 : 2 ^ 52 <= m2) by lia.
    pose proof (digits_bounds mz) as [_ Bz]. pose proof (digits_pos mz).
    assert (Zpos mz < 2 ^ 53) by (pose proof (Z.pow_le_mono_r 2 (digits mz) 53); lia).
    apply Z.le_trans with (2 ^ 53 * 2 ^ (ez + 1074)).
    { apply Z.mul_le_mono_nonneg_r; [specialize (Hpos (ez + 1074)); lia|lia]. }
    apply Z.le_trans with (2 ^ 52 * 2 ^ (e1 + 1074)).
    { rewrite <- !Z.pow_add_r by lia. apply Z.pow_le_mono_r; lia. }
    apply Z.mul_le_mono_nonneg_r; [specialize (Hpos (e1 + 1074)); lia|done].
Qed.

(** The aligned mantissa has the value of its float. *)
Lemma align_fmag s m e ez :
  -1074 <= ez <= e ->
  cond_Zopp s (Zpos (fst (shl_align m e ez))) * 2 ^ (ez + 1074) = fmag (S754_finite s m e).
Proof.
  intros He. pose proof (shl_align_spec m e ez) as Hs.
  destruct (shl_align m e ez) as [m' e']. destruct Hs as [-> Hm]. cbn [fst fmag].
  rewrite Z.min_r in Hm by lia. rewrite Hm.
  assert (Hv : Zpos m * 2 ^ (e - ez) * 2 ^ (ez + 1074) = Zpos m * 2 ^ (e + 1074)).
  { rewrite <- Z.mul_assoc, <- Z.pow_add_r by lia. f_equal; f_equal; lia. }
  destruct s; cbn [cond_Zopp]; lia.
Qed.

(** ** Sums and differences *)

(** Adding a value that is not negative never goes below the first operand. *)
Lemma fadd_ge x y :
  fvalid x = true -> fvalid y = true -> flt f0 x = true -> fle f0 y = true ->
  is_nan (fadd x y) = false /\ flt (fadd x y) x = false.
Proof.
  intros Hx Hy H0x H0y.
  destruct x as [sx|[]| |[] mx ex], y as [sy|[]| |[] my ey]; try discriminate H0x; try discriminate H0y;
    try (by split); try (split; [done|apply flt_irrefl]).
  pose proof Hx as Hx'. apply valid_finite in Hx', Hy.
  unfold fadd, SFadd. set (ez := Z.min ex ey).
  pose proof (align_fmag false mx ex ez ltac:(lia)) as Ax.
  pose proof (align_fmag false my ey ez ltac:(lia)) as Ay.
  destruct (shl_align mx ex ez) as [ax ?], (shl_align my ey ez) as [ay ?].
  cbn [fst cond_Zopp] in *. rewrite <- Pos2Z.inj_add. cbn [binary_normalize].
  assert (Hp : 0 < Zpos ay * 2 ^ (ez + 1074)) by (pose proof (Z.pow_pos_nonneg 2 (ez + 1074)); lia).
  split; [|apply round_lower; [lia|done|done|lia]].
  destruct (round_enc false (ax + ay) ez) as (m' & e' & m2 & _ & _ & _ & _ & Hr & ->).
  unfold enc. destruct m2; [done| |by destruct Hr; lia]. by destruct (_ =? _), (_ <=? _).
Qed.

Lemma round_sign s p e : flt (binary_round 53 1024 false p e) f0 = false /\
  signbit (binary_round 53 1024 s p e) = s.
Proof.
  split.
  - destruct (round_enc false p e) as (m' & e' & m2 & _ & _ & _ & _ & Hr & ->).
    apply enc_pos_not_below; try done. cbn [fmag f0]. destruct Hr as ([? _] & ? & _).
    pose proof (Z.pow_pos_nonneg 2 (fexp 53 1024 (Zdigits2 (Zpos m') + e') + 1074)). nia.
  - destruct (round_enc s p e) as (m' & e' & m2 & _ & _ & _ & _ & Hr & ->).
    unfold enc. destruct m2; [done| |by destruct Hr; lia]. by destruct (_ =? _), (_ <=? _).
Qed.

(** A subtraction that passed the test [y > x] is not negative. *)
Lemma fsub_not_negative x y :
  fvalid x = true -> fvalid y = true -> flt x y = false -> flt (fsub x y) f0 = false.
Proof.
  intros Hx Hy Hlt.
  destruct (ffinite x) eqn:Fx; destruct (ffinite y) eqn:Fy;
    [|destruct x as [[]|[]| |[]], y as [[]|[]| |[]]; try discriminate; done..].
  apply not_true_iff_false in Hlt. rewrite flt_fmag in Hlt by done.
  destruct x as [[]|[]| |sx mx ex], y as [[]|[]| |sy my ey]; try discriminate; try done;
    try (apply valid_finite in Hy; destruct sy; [done|]; cbn [fmag cond_Zopp] in Hlt;
         pose proof (Z.pow_pos_nonneg 2 (ey + 1074)); lia);
    try (apply valid_finite in Hx; destruct sx; [|done]; cbn [fmag cond_Zopp] in Hlt;
         pose proof (Z.pow_pos_nonneg 2 (ex + 1074)); lia).
  apply valid_finite in Hx, Hy. unfold fsub, SFsub. set (ez := Z.min ex ey).
  pose proof (align_fmag sx mx ex ez ltac:(lia)) as Ax.
  pose proof (align_fmag sy my ey ez ltac:(lia)) as Ay.
  set (a := cond_Zopp sx _) in *. set (b := cond_Zopp sy _) in *.
  pose proof (Z.pow_pos_nonneg 2 (ez + 1074) ltac:(lia) ltac:(lia)) as Hp.
  destruct (a - b) as [|p|p] eqn:E; [done|by apply (round_sign false)|nia].
Qed.

(** ** Floors and remainders of whole numbers *)

Lemma fwhole_neg_or_exact p :
  Zpos p < 2 ^ 53 ->
  (digits p = 53 /\ canon p = p) \/ digits p < 53.
Proof.
  intros Hp. pose proof (whole_digits p Hp) as Hd.
  destruct (Z.eq_dec (digits p) 53) as [E|]; [left|right; lia]. split; [done|].
  apply Pos2Z.inj. rewrite canon_val by done. rewrite E. cbn. lia.
Qed.

(** The floor of a positive float below 2^53 is a whole number, not above
    it and less than one below. *)
Lemma Floor_whole x :
  fvalid x = true -> flt f0 x = true -> flt x (f64_of_Z (2 ^ 53)) = true ->
  exists q, Floor x = f64_of_Z q /\ 0 <= q < 2 ^ 53
    /\ q * 2 ^ 1074 <= fmag x < (q + 1) * 2 ^ 1074.
Proof.
  intros Hv H0 Hlt. destruct x as [|[]| |[] m e]; try done.
  rewrite flt_fmag in Hlt by done. apply valid_finite in Hv.
  change (fmag (f64_of_Z (2 ^ 53))) with (2 ^ 53 * 2 ^ 1074) in Hlt.
  cbn [fmag cond_Zopp] in *. pose proof (digits_bounds m) as [B1 B2]. pose proof (digits_pos m).
  assert (Hm : Zpos m < 2 ^ 53) by (pose proof (Z.pow_le_mono_r 2 (digits m) 53); lia).
  cbn [Floor]. destruct (0 <=? e) eqn:He; bool_to_prop.
  - assert (e = 0) as ->.
    { destruct (Z.eq_dec e 0); [done|exfalso].
      assert (Hbig : 2 ^ 52 * 2 ^ (1 + 1074) <= Zpos m * 2 ^ (e + 1074)).
      { apply Z.mul_le_mono_nonneg; [lia| |apply Z.pow_nonneg; lia|apply Z.pow_le_mono_r; lia].
        replace (digits m - 1) with 52 in B1 by lia. done. }
      rewrite (Z.pow_add_r 2 1 1074) in Hbig by lia. lia. }
    exists (Zpos m). rewrite f64_of_Z_pos by done. unfold fwhole.
    destruct (fwhole_neg_or_exact m Hm) as [[-> ->]|]; [|lia]. split; [done|]. lia.
  - set (q := Zpos m / 2 ^ (- e)).
    assert (Hp : 0 < 2 ^ (- e)) by (apply Z.pow_pos_nonneg; lia).
    assert (Hq : 0 <= q) by (apply Z.div_pos; lia).
    assert (Hqm : q <= Zpos m) by (apply Z.div_le_upper_bound; nia).
    exists q. split; [by destruct q; [|done|lia]|]. split; [lia|].
    assert (Hs : 2 ^ 1074 = 2 ^ (- e) * 2 ^ (e + 1074))
      by (rewrite <- Z.pow_add_r by lia; f_equal; lia).
    pose proof (Z.mul_div_le (Zpos m) (2 ^ (- e)) Hp) as L1.
    pose proof (Z.mul_succ_div_gt (Zpos m) (2 ^ (- e)) Hp) as L2. fold q in L1, L2.
    pose proof (Z.pow_pos_nonneg 2 (e + 1074) ltac:(lia) ltac:(lia)) as Hp2.
    rewrite Hs. nia.
Qed.

Lemma ffinite_whole z : whole_range z -> ffinite (f64_of_Z z) = true.
Proof.
  intros Hz. by destruct (whole_cases z Hz) as [[-> ->]|(s & p & -> & _ & _ & ->)].
Qed.

Lemma fmag_whole z : whole_range z -> fmag (f64_of_Z z) = z * 2 ^ 1074.
Proof.
  intros Hz. destruct (whole_cases z Hz) as [[-> ->]|(s & p & -> & Hd & Hp & ->)]; [done|].
  unfold fwhole, fmag. rewrite canon_val by done. pose proof (digits_pos p).
  assert (Zpos p * 2 ^ (53 - digits p) * 2 ^ (digits p - 53 + 1074) = Zpos p * 2 ^ 1074).
  { rewrite <- Z.mul_assoc, <- Z.pow_add_r by lia. f_equal; f_equal; lia. }
  destruct s; cbn [cond_Zopp]; lia.
Qed.

Lemma Floor_of_Z q : 0 <= q < 2 ^ 53 -> Floor (f64_of_Z q) = f64_of_Z q.
Proof.
  intros Hq. destruct q as [|p|p]; [done| |lia]. rewrite f64_of_Z_pos by lia.
  unfold fwhole at 1. cbn [Floor]. pose proof (whole_digits p ltac:(lia)) as Hd.
  destruct (0 <=? digits p - 53) eqn:E; bool_to_prop; [done|].
  rewrite canon_val by done. replace (- (digits p - 53)) with (53 - digits p) by lia.
  rewrite Z.div_mul by (apply Z.pow_nonzero; lia). by rewrite <- f64_of_Z_pos by lia.
Qed.

Lemma Trunc_of_Z q : 0 <= q < 2 ^ 53 -> Trunc (f64_of_Z q) = f64_of_Z q.
Proof.
  intros Hq. unfold Trunc. change (S754_zero false) with (f64_of_Z 0).
  fold (flt (f64_of_Z q) (f64_of_Z 0)). rewrite flt_whole by (unfold whole_range; lia).
  destruct (_ <? _) eqn:E; bool_to_prop; [lia|]. by apply Floor_of_Z.
Qed.

(** A multiple leaves no remainder. *)
Lemma Mod_multiple k b :
  0 < k -> 0 < b -> k * b < 2 ^ 53 -> Mod (f64_of_Z (k * b)) (f64_of_Z b) = S754_zero false.
Proof.
  intros Hk Hb Hkb. assert (b < 2 ^ 53) by nia.
  destruct k as [|k|]; try lia. destruct b as [|b|]; try lia.
  change (Zpos k * Zpos b) with (Zpos (k * b)) in *.
  rewrite !f64_of_Z_pos by lia. unfold fwhole, Mod.
  pose proof (whole_digits (k * b) ltac:(lia)). pose proof (whole_digits b ltac:(lia)).
  set (e := Z.min _ _).
  assert (He : forall p, digits p <= 53 -> e <= digits p - 53 ->
               Zpos (canon p) * 2 ^ (digits p - 53 - e) = Zpos p * 2 ^ (- e)).
  { intros p Hp Hpe. rewrite canon_val, <- Z.mul_assoc, <- Z.pow_add_r by lia.
    f_equal; f_equal; lia. }
  rewrite !He by lia. rewrite Pos2Z.inj_mul, <- Z.mul_assoc, Z.mod_mul; [done|].
  pose proof (Z.pow_pos_nonneg 2 (- e)). lia.
Qed.

(** ** A bound on a division by a hundred *)

Lemma fdiv_hundred x :
  fvalid x = true -> flt f0 x = true -> flt x (f64_of_Z (2 ^ 46)) = true ->
  fvalid (fdiv x (f64_of_Z 100)) = true /\ flt (fdiv x (f64_of_Z 100)) f0 = false
  /\ ffinite (fdiv x (f64_of_Z 100)) = true
  /\ fmag (fdiv x (f64_of_Z 100)) <= 2 ^ 46 * 2 ^ 1074.
Proof.
  intros Hv H0 Hlt. destruct x as [|[]| |[] m e]; try done.
  split; [by apply fvalid_div|].
  rewrite flt_fmag in Hlt by done. apply valid_finite in Hv.
  change (fmag (f64_of_Z (2 ^ 46))) with (2 ^ 46 * 2 ^ 1074) in Hlt.
  cbn [fmag cond_Zopp] in Hlt. pose proof (digits_bounds m) as [B1 B2]. pose proof (digits_pos m).
  assert (He : digits m + e <= 46).
  { apply Z.nlt_ge. intros Hgt.
    assert (2 ^ (digits m - 1 + (e + 1074)) <= Zpos m * 2 ^ (e + 1074))
      by (rewrite (Z.pow_add_r 2 (digits m - 1)) by lia;
          apply Z.mul_le_mono_nonneg_r; [apply Z.pow_nonneg; lia|done]).
    pose proof (Z.pow_le_mono_r 2 (46 + 1074) (digits m - 1 + (e + 1074)) ltac:(lia) ltac:(lia)) as Hmono.
    rewrite (Z.pow_add_r 2 46 1074) in Hmono by lia. lia. }
  change (f64_of_Z 100) with (S754_finite false 7036874417766400 (-46)).
  unfold fdiv, SFdiv. pose proof (div_core_spec m e 7036874417766400 (-46)) as Hd.
  destruct (SFdiv_core_binary _ _ _ _ _ _) as [[q e'] l]. destruct Hd as (Hq & He' & Hqe & Hpre).
  destruct (round_aux_enc (xorb false false) q e' l Hq Hpre) as (m2 & _ & Hr & ->).
  set (e1 := fexp 53 1024 (Zdigits2 q + e')) in *. cbn [xorb].
  assert (Hdq : Zdigits2 q <= 46 - e').
  { apply Zdigits2_le; [lia|]. split; [done|]. rewrite Hqe.
    apply Z.div_lt_upper_bound; [lia|].
    apply Z.lt_le_trans with (2 ^ (digits m) * 2 ^ (e - -46 - e')).
    { apply Z.mul_lt_mono_pos_r; [apply Z.pow_pos_nonneg; lia|done]. }
    apply Z.le_trans with (2 ^ 46 * 2 ^ (46 - e')).
    - rewrite <- !Z.pow_add_r by lia. apply Z.pow_le_mono_r; lia.
    - apply Z.mul_le_mono_nonneg_r; [apply Z.pow_nonneg; lia|lia]. }
  assert (He1 : e1 <= -7) by (unfold e1; rewrite fexp_le; lia).
  pose proof Hr as ([Hm0 Hm53] & Hemin & _).
  assert (Hf : ffinite (enc false m2 e1) = true).
  { unfold enc. destruct m2; [done| |lia]. destruct (_ =? _).
    - by replace (e1 + 1 <=? 971) with true by lia.
    - by replace (e1 <=? 971) with true by lia. }
  split; [apply enc_pos_not_below; try done; cbn [fmag f0]; pose proof (Z.pow_nonneg 2 (e1 + 1074)); nia|].
  split; [done|]. rewrite enc_fmag by done. cbn [cond_Zopp].
  apply Z.le_trans with (2 ^ 53 * 2 ^ (-7 + 1074)).
  - apply Z.mul_le_mono_nonneg; [done|lia|apply Z.pow_nonneg; lia|apply Z.pow_le_mono_r; lia].
  - rewrite <- !Z.pow_add_r by lia. apply Z.pow_le_mono_r; lia.
Qed.
