(* ===== verification/FloatError.v ===== *)
(** * FloatError: how far products, quotients and rounded shares are off

    In the normal range a product or a quotient is off by at most 2^-52 of
    its value; [math.Round] gives a whole number at most one half off. Values
    are compared in units of the least subnormal ([fmag]). *)

From stdpp Require Import base list strings.
From Stdlib Require Import ZArith Lia SpecFloat.
From S2P Require Import Prelude GoFloat FloatInt FloatRound.

Open Scope Z_scope.

(** One in units of the least subnormal. *)
Definition ulp1 : Z := 2 ^ 1074.

Lemma ulp1_pos : 0 < ulp1.
Proof. done. Qed.

Lemma digits_scaled m e : 0 <= e -> 2 ^ (digits m - 1 + e) <= Zpos m * 2 ^ e < 2 ^ (digits m + e).
Proof.
  intros He. pose proof (digits_bounds m) as B. pose proof (digits_pos m).
  pose proof (Z.pow_pos_nonneg 2 e ltac:(lia) He).
  rewrite (Z.pow_add_r 2 (digits m - 1)), (Z.pow_add_r 2 (digits m)) by lia. nia.
Qed.

Lemma fmag_pos_shape x :
  fvalid x = true -> ffinite x = true -> 0 < fmag x -> exists m e, x = S754_finite false m e.
Proof.
  intros Hv Hf Hp. destruct x as [?|?| |[] m e]; try done; [|by eexists _, _].
  apply valid_finite in Hv. cbn [fmag cond_Zopp] in Hp.
  pose proof (Z.pow_pos_nonneg 2 (e + 1074)). nia.
Qed.

(** ** A rounding in the normal range *)

Lemma round_aux_near m e l :
  let e1 := fexp 53 1024 (Zdigits2 m + e) in
  let r := binary_round_aux 53 1024 false m e l in
  0 < m -> e <= e1 -> -1074 < e1 <= 970 ->
  exists m2, fvalid r = true /\ ffinite r = true /\ fmag r = m2 * 2 ^ (e1 + 1074) /\ 0 < m2
    /\ 2 ^ 52 * 2 ^ (e1 - e) <= m
    /\ (m2 * 2 ^ (e1 - e) <= m < (m2 + 1) * 2 ^ (e1 - e)
        \/ m < m2 * 2 ^ (e1 - e) <= m + 2 ^ (e1 - e)).
Proof.
  intros e1 r Hm He Hn. unfold r.
  destruct (round_aux_enc false m e l ltac:(lia) He) as (m2 & H2 & Hr & ->). fold e1 in H2, Hr |- *.
  pose proof (Z.pow_pos_nonneg 2 (e1 - e) ltac:(lia) ltac:(lia)) as Hp.
  pose proof (Z.mul_div_le m _ Hp) as L1. pose proof (Z.mul_succ_div_gt m _ Hp) as L2.
  assert (Hf : ffinite (enc false m2 e1) = true).
  { unfold enc. destruct m2; [done| |by destruct Hr as [[? ?] _]; lia]. destruct (_ =? _).
    - by replace (e1 + 1 <=? 971) with true by lia.
    - by replace (e1 <=? 971) with true by lia. }
  exists m2. split; [by apply enc_valid|]. split; [done|]. split; [by rewrite enc_fmag|].
  assert (Hdm : 2 ^ 52 * 2 ^ (e1 - e) <= m).
  { pose proof (Zdigits2_bounds m Hm) as [Hb _]. unfold e1 in *. rewrite fexp_le in *.
    rewrite <- Z.pow_add_r by lia. by replace (52 + _) with (Zdigits2 m - 1) by lia. }
  destruct Hr as ([? ?] & _ & [?|?]); [lia|]. split; [lia|]. split; [done|].
  destruct H2 as [->| ->]; [left|right]; nia.
Qed.

(** The distance of the rounded mantissa from any exact value between the
    truncated mantissa and the next. *)
Lemma near_relative m2 k m v d :
  0 < d -> 2 ^ 52 * k <= m -> 0 < k -> m * d <= v < (m + 1) * d ->
  (m2 * k <= m < (m2 + 1) * k \/ m < m2 * k <= m + k) ->
  Z.abs (m2 * k * d - v) * 2 ^ 52 <= v.
Proof. intros Hd Hk Hk0 Hv H. assert (Z.abs (m2 * k * d - v) <= k * d) by nia. nia. Qed.

(** ** Products *)

Lemma fmul_near x y :
  fvalid x = true -> fvalid y = true -> ffinite x = true -> ffinite y = true ->
  0 < fmag x -> 0 < fmag y -> 2 ^ 1200 <= fmag x * fmag y < 2 ^ 3100 ->
  fvalid (fmul x y) = true /\ ffinite (fmul x y) = true /\ 0 < fmag (fmul x y)
  /\ Z.abs (fmag (fmul x y) * ulp1 - fmag x * fmag y) * 2 ^ 52 <= fmag x * fmag y.
Proof.
  intros Hx Hy Fx Fy Px Py Hxy.
  destruct (fmag_pos_shape x Hx Fx Px) as (mx & ex & ->).
  destruct (fmag_pos_shape y Hy Fy Py) as (my & ey & ->).
  apply valid_finite in Hx, Hy. cbn [fmag cond_Zopp] in *.
  unfold fmul, SFmul. cbn [xorb].
  set (m := Zpos (mx * my)). set (e := ex + ey).
  set (e1 := fexp 53 1024 (Zdigits2 m + e)).
  assert (He : e <= e1) by (unfold e1; rewrite fexp_le; by apply mul_exponent).
  assert (Hval : Zpos mx * 2 ^ (ex + 1074) * (Zpos my * 2 ^ (ey + 1074)) = m * 2 ^ (e + 2148)).
  { unfold m, e. rewrite Pos2Z.inj_mul. replace (ex + ey + 2148) with ((ex + 1074) + (ey + 1074)) by lia.
    rewrite (Z.pow_add_r 2 (ex + 1074) (ey + 1074)) by lia. ring. }
  rewrite Hval in *. pose proof (Zdigits2_bounds m ltac:(lia)) as [B1 B2].
  pose proof (Zdigits2_nonneg m ltac:(lia)) as Hd0.
  assert (Hlo : 1200 < Zdigits2 m + (e + 2148)).
  { apply (Z.pow_lt_mono_r_iff 2); [lia|lia|]. rewrite Z.pow_add_r by lia.
    apply Z.le_lt_trans with (m * 2 ^ (e + 2148)); [lia|]. apply Z.mul_lt_mono_pos_r; [|lia].
    apply Z.pow_pos_nonneg; lia. }
  assert (Hhi : Zdigits2 m - 1 + (e + 2148) < 3100).
  { assert (1 <= Zdigits2 m) by (unfold m; cbn [Zdigits2]; lia).
    apply (Z.pow_lt_mono_r_iff 2); [lia|lia|]. rewrite Z.pow_add_r by lia.
    apply Z.le_lt_trans with (m * 2 ^ (e + 2148)); [|lia].
    apply Z.mul_le_mono_nonneg_r; [apply Z.pow_nonneg; lia|lia]. }
  clear Hxy.
  assert (Hn : -1074 < e1 <= 970) by (unfold e1; rewrite fexp_le; lia).
  destruct (round_aux_near m e loc_Exact ltac:(lia) He Hn) as (m2 & V & F & Hmag & P2 & Hk & Hc).
  fold e1 in Hmag, Hk, Hc. split; [done|]. split; [done|]. rewrite Hmag.
  pose proof (Z.pow_pos_nonneg 2 (e1 + 1074) ltac:(lia) ltac:(lia)). split; [by apply Z.mul_pos_pos|].
  replace (m2 * 2 ^ (e1 + 1074) * ulp1) with (m2 * 2 ^ (e1 - e) * 2 ^ (e + 2148)).
  - apply (near_relative m2 (2 ^ (e1 - e)) m); try done; try (apply Z.pow_pos_nonneg; lia).
    pose proof (Z.pow_pos_nonneg 2 (e + 2148)). lia.
  - unfold ulp1. rewrite <- !Z.mul_assoc, <- !Z.pow_add_r by lia. f_equal; f_equal; lia.
Qed.

(** ** Quotients *)

Lemma fdiv_near x y :
  fvalid x = true -> fvalid y = true -> ffinite x = true -> ffinite y = true ->
  0 < fmag x -> 0 < fmag y ->
  fmag y <= fmag x * 2 ^ 900 -> fmag x <= fmag y * 2 ^ 900 ->
  fvalid (fdiv x y) = true /\ ffinite (fdiv x y) = true /\ 0 < fmag (fdiv x y)
  /\ Z.abs (fmag (fdiv x y) * fmag y - fmag x * ulp1) * 2 ^ 52 <= fmag x * ulp1.
Proof.
  intros Hx Hy Fx Fy Px Py Hlo Hhi.
  destruct (fmag_pos_shape x Hx Fx Px) as (mx & ex & ->).
  destruct (fmag_pos_shape y Hy Fy Py) as (my & ey & ->).
  apply valid_finite in Hx, Hy. cbn [fmag cond_Zopp] in *.
  unfold fdiv, SFdiv. pose proof (div_core_spec mx ex my ey) as Hd.
  pose proof (eq_refl (SFdiv_core_binary 53 1024 (Zpos mx) ex (Zpos my) ey)) as Hcore.
  unfold SFdiv_core_binary in Hcore at 2. cbn [Zdigits2] in Hcore.
  change (Zpos (digits2_pos ?p)) with (digits p) in Hcore. rewrite fexp_le in Hcore.
  destruct (SFdiv_core_binary _ _ _ _ _ _) as [[q e] l]. destruct Hd as (Hq0 & He' & Hq & Hpre).
  destruct (Z.div_eucl _ _) as [q' r'] in Hcore. injection Hcore as _ He _. cbn [xorb].
  set (s := ex - ey - e) in *. set (e1 := fexp 53 1024 (Zdigits2 q + e)) in *.
  pose proof (digits_bounds mx) as Bx. pose proof (digits_bounds my) as By.
  pose proof (digits_pos mx). pose proof (digits_pos my).
  (* the quotient is far from the ends of the range *)
  assert (Hrange : -902 <= digits mx + ex - (digits my + ey) <= 902).
  { pose proof (digits_scaled mx (ex + 1074) ltac:(lia)) as Sx.
    pose proof (digits_scaled my (ey + 1074) ltac:(lia)) as Sy.
    split.
    - assert (Hp : 2 ^ (digits my - 1 + (ey + 1074)) < 2 ^ ((digits mx + (ex + 1074)) + 900)).
      { rewrite (Z.pow_add_r 2 (digits mx + (ex + 1074)) 900) by lia.
        eapply Z.le_lt_trans; [apply Sy|]. eapply Z.le_lt_trans; [exact Hlo|].
        apply Z.mul_lt_mono_pos_r; [done|lia]. }
      rewrite <- Z.pow_lt_mono_r_iff in Hp by lia. lia.
    - assert (Hp : 2 ^ (digits mx - 1 + (ex + 1074)) < 2 ^ ((digits my + (ey + 1074)) + 900)).
      { rewrite (Z.pow_add_r 2 (digits my + (ey + 1074)) 900) by lia.
        eapply Z.le_lt_trans; [apply Sx|]. eapply Z.le_lt_trans; [exact Hhi|].
        apply Z.mul_lt_mono_pos_r; [done|lia]. }
      rewrite <- Z.pow_lt_mono_r_iff in Hp by lia. lia. }
  clear Hlo Hhi.
  assert (Hs : 0 <= s) by lia.
  assert (Hbig : 2 ^ 52 <= q).
  { rewrite Hq. apply Z.div_le_lower_bound; [lia|].
    apply Z.le_trans with (2 ^ (digits my) * 2 ^ 52); [apply Z.mul_le_mono_nonneg_r; lia|].
    apply Z.le_trans with (2 ^ (digits mx - 1) * 2 ^ s); [|apply Z.mul_le_mono_nonneg_r; [apply Z.pow_nonneg; lia|lia]].
    rewrite <- !Z.pow_add_r by lia. apply Z.pow_le_mono_r; lia. }
  assert (Hqhi : Zdigits2 q <= digits mx + s - digits my + 1).
  { apply Zdigits2_le; [|split; [lia|]].
    - pose proof (Zdigits2_ge q 52 ltac:(lia) Hbig). lia.
    - rewrite Hq. apply Z.div_lt_upper_bound; [lia|].
      apply Z.lt_le_trans with (2 ^ digits mx * 2 ^ s); [apply Z.mul_lt_mono_pos_r; [apply Z.pow_pos_nonneg; lia|lia]|].
      apply Z.le_trans with (2 ^ (digits my - 1) * 2 ^ (digits mx + s - digits my + 1)).
      + rewrite <- !Z.pow_add_r by lia. apply Z.pow_le_mono_r; lia.
      + apply Z.mul_le_mono_nonneg_r; [apply Z.pow_nonneg; lia|lia]. }
  pose proof (Zdigits2_ge q 52 ltac:(lia) Hbig) as Hqlo.
  assert (Hn : -1074 < e1 <= 970) by (unfold e1; rewrite fexp_le; lia).
  destruct (round_aux_near q e l ltac:(lia) Hpre Hn) as (m2 & V & F & Hmag & P2 & Hk & Hc).
  fold e1 in Hmag, Hk, Hc, Hpre. split; [done|]. split; [done|]. rewrite Hmag.
  pose proof (Z.pow_pos_nonneg 2 (e1 + 1074) ltac:(lia) ltac:(lia)). split; [by apply Z.mul_pos_pos|].
  set (t := e + ey + 2148). assert (Ht : 0 <= t) by lia.
  replace (m2 * 2 ^ (e1 + 1074) * (Zpos my * 2 ^ (ey + 1074)))
    with (m2 * 2 ^ (e1 - e) * (Zpos my * 2 ^ t)).
  2:{ replace (m2 * 2 ^ (e1 - e) * (Zpos my * 2 ^ t)) with (m2 * (Zpos my * (2 ^ (e1 - e) * 2 ^ t))) by ring.
      replace (m2 * 2 ^ (e1 + 1074) * (Zpos my * 2 ^ (ey + 1074)))
        with (m2 * (Zpos my * (2 ^ (e1 + 1074) * 2 ^ (ey + 1074)))) by ring.
      rewrite <- !Z.pow_add_r by lia. do 3 f_equal. lia. }
  replace (Zpos mx * 2 ^ (ex + 1074) * ulp1) with (Zpos mx * 2 ^ s * 2 ^ t).
  2:{ unfold ulp1. rewrite <- !Z.mul_assoc, <- !Z.pow_add_r by lia. do 2 f_equal. lia. }
  pose proof (Z.pow_pos_nonneg 2 t ltac:(lia) Ht) as Hpt.
  apply (near_relative m2 (2 ^ (e1 - e)) q); try done; [lia|apply Z.pow_pos_nonneg; lia|].
  pose proof (Z.mul_div_le (Zpos mx * 2 ^ s) (Zpos my) ltac:(lia)) as L1.
  pose proof (Z.mul_succ_div_gt (Zpos mx * 2 ^ s) (Zpos my) ltac:(lia)) as L2.
  rewrite <- Hq in L1, L2. clear - L1 L2 Hpt.
  replace (q * (Zpos my * 2 ^ t)) with (Zpos my * q * 2 ^ t) by ring.
  replace ((q + 1) * (Zpos my * 2 ^ t)) with (Zpos my * Z.succ q * 2 ^ t) by ring.
  split; [by apply Z.mul_le_mono_pos_r|by apply Z.mul_lt_mono_pos_r].
Qed.

(** ** Rounding to a whole number *)

Lemma Round_near y :
  fvalid y = true -> ffinite y = true -> 0 < fmag y < 2 ^ 52 * ulp1 ->
  exists z, Round y = f64_of_Z z /\ 0 <= z <= 2 ^ 52 /\ 2 * Z.abs (z * ulp1 - fmag y) <= ulp1.
Proof.
  intros Hv Hf [Hp Hlt]. destruct (fmag_pos_shape y Hv Hf Hp) as (m & e & ->).
  apply valid_finite in Hv. cbn [fmag cond_Zopp Round] in *. clear Hf.
  pose proof (digits_scaled m (e + 1074) ltac:(lia)) as [S1 _]. pose proof (digits_pos m).
  assert (He : e < 0).
  { assert (Hpow : 2 ^ (digits m - 1 + (e + 1074)) < 2 ^ (52 + 1074)).
    { rewrite (Z.pow_add_r 2 52 1074) by lia. fold ulp1. lia. }
    rewrite <- Z.pow_lt_mono_r_iff in Hpow by lia. lia. }
  replace (0 <=? e) with false by lia.
  set (q := (Zpos m + 2 ^ (- e - 1)) / 2 ^ (- e)). set (h := 2 ^ (- e - 1)) in *.
  assert (Hh : 2 ^ (- e) = 2 * h).
  { unfold h. rewrite <- Z.pow_succ_r by lia. f_equal. lia. }
  assert (Hh0 : 0 < h) by (apply Z.pow_pos_nonneg; lia).
  assert (Hu : ulp1 = 2 * h * 2 ^ (e + 1074)).
  { rewrite <- Hh, <- Z.pow_add_r by lia. unfold ulp1. f_equal. lia. }
  pose proof (Z.pow_pos_nonneg 2 (e + 1074) ltac:(lia) ltac:(lia)) as Hk.
  set (k := 2 ^ (e + 1074)) in *. rewrite Hu in *. clearbody h k.
  assert (Hm : Zpos m < 2 ^ 52 * (2 * h)).
  { apply (Z.mul_lt_mono_pos_r k); [done|]. by rewrite <- Z.mul_assoc. }
  unfold q. rewrite Hh.
  pose proof (Z.mul_div_le (Zpos m + h) (2 * h) ltac:(lia)) as L1.
  pose proof (Z.mul_succ_div_gt (Zpos m + h) (2 * h) ltac:(lia)) as L2.
  assert (Hq0 : 0 <= (Zpos m + h) / (2 * h)) by (apply Z.div_pos; lia).
  assert (Hq1 : (Zpos m + h) / (2 * h) <= 2 ^ 52)
    by (apply Z.lt_succ_r, Z.div_lt_upper_bound; lia).
  clear q Hu Hlt S1. set (q := (Zpos m + h) / (2 * h)) in *. clearbody q.
  exists q. split; [by destruct q as [|p|p]; [|done|lia]|]. split; [lia|].
  replace (q * (2 * h * k) - Zpos m * k) with ((2 * h * q - Zpos m) * k) by ring.
  rewrite Z.abs_mul, (Z.abs_eq k), Z.mul_assoc by lia. apply Z.mul_le_mono_nonneg_r; lia.
Qed.

(** ** An equal share of a whole quantity *)

Lemma share_arith u Q n W Y z :
  0 < u -> 1 <= Q < 2 ^ 49 -> 1 <= n -> Z.abs (W * n - u) * 2 ^ 52 <= u ->
  Z.abs (Y - Q * W) * 2 ^ 52 <= Q * W -> 2 * Z.abs (z * u - Y) <= u -> 2 * Z.abs (z * n - Q) <= n.
Proof.
  intros Hu HQ Hn HC HB HA.
  set (A := z * u - Y) in *. set (B := Y - Q * W) in *. set (C := W * n - u) in *.
  assert (Heq : (z * n - Q) * u = n * A + (n * B + Q * C)) by (unfold A, B, C; ring).
  assert (HnA : 2 * Z.abs (n * A) <= n * u) by (rewrite Z.abs_mul, (Z.abs_eq n) by lia; nia).
  assert (HnB : Z.abs (n * B) * 2 ^ 52 <= Q * (u + C)).
  { rewrite Z.abs_mul, (Z.abs_eq n) by lia. replace (u + C) with (W * n) by (unfold C; ring).
    replace (Q * (W * n)) with (n * (Q * W)) by ring. rewrite <- Z.mul_assoc.
    apply Z.mul_le_mono_nonneg_l; lia. }
  assert (HQC : Z.abs (Q * C) * 2 ^ 52 <= Q * u) by (rewrite Z.abs_mul, (Z.abs_eq Q), <- Z.mul_assoc by lia; apply Z.mul_le_mono_nonneg_l; lia).
  assert (HCu : Q * C <= Q * u) by (apply Z.mul_le_mono_nonneg_l; lia).
  assert (HQu : Q * u <= (2 ^ 49 - 1) * u) by (apply Z.mul_le_mono_nonneg_r; lia).
  assert (Hrest : 2 * Z.abs (n * B + Q * C) < u) by lia.
  clear HA HB HC HnB HQC HCu.
  assert (Hlt : 2 * Z.abs (z * n - Q) * u < (n + 1) * u).
  { rewrite <- Z.mul_assoc, <- (Z.abs_eq u) at 1 by lia. rewrite <- Z.abs_mul, Heq. lia. }
  apply Z.mul_lt_mono_pos_r in Hlt; lia.
Qed.

(** The product of [Q] with the float 1/n, rounded, is a whole number
    nearest to the exact share Q/n. *)
Lemma share_near Q n :
  1 <= Q < 2 ^ 49 -> 1 <= n < 2 ^ 49 ->
  exists z, Round (f64_of_Z Q * (f1 / f64_of_Z n))%f64 = f64_of_Z z
    /\ 0 <= z <= 2 ^ 52 /\ 2 * Z.abs (z * n - Q) <= n.
Proof.
  intros HQ Hn. pose proof ulp1_pos as Hu.
  assert (WQ : whole_range Q) by (unfold whole_range; lia).
  assert (Wn : whole_range n) by (unfold whole_range; lia).
  pose proof (fmag_whole Q WQ) as MQ. pose proof (fmag_whole n Wn) as Mn. fold ulp1 in MQ, Mn.
  assert (M1 : fmag f1 = ulp1) by reflexivity.
  destruct (fdiv_near f1 (f64_of_Z n)) as (Vw & Fw & Pw & Ew); try done;
    try (by apply fvalid_of_Z); try (by apply ffinite_whole); rewrite ?M1, ?Mn; try done.
  { by apply Z.mul_pos_pos; lia. }
  { rewrite (Z.mul_comm ulp1). apply Z.mul_le_mono_nonneg_r; [lia|]. apply Z.lt_le_incl.
    apply Z.lt_le_trans with (2 ^ 49); [lia|by apply Z.pow_le_mono_r]. }
  { apply Z.le_trans with (n * ulp1 * 1); [nia|]. apply Z.mul_le_mono_nonneg_l; [nia|done]. }
  set (w := (f1 / f64_of_Z n)%f64) in *. rewrite M1, Mn in Ew.
  assert (Ew' : Z.abs (fmag w * n - ulp1) * 2 ^ 52 <= ulp1).
  { apply (Z.mul_le_mono_pos_r _ _ ulp1); [done|].
    replace (fmag w * (n * ulp1) - ulp1 * ulp1) with ((fmag w * n - ulp1) * ulp1) in Ew by ring.
    rewrite Z.abs_mul, (Z.abs_eq ulp1) in Ew by lia. lia. }
  clear Ew. assert (Hwlo : 2 ^ 1024 <= fmag w).
  { apply (Z.mul_le_mono_pos_r _ _ (2 ^ 49)); [done|].
    assert (ulp1 <= 2 * (fmag w * n)) by lia. assert (fmag w * n <= fmag w * 2 ^ 49) by nia.
    change ulp1 with (2 * (2 ^ 1024 * 2 ^ 49)) in *. lia. }
  assert (Hwhi : fmag w <= 2 ^ 1075) by (change (2 ^ 1075) with (2 * ulp1); nia).
  destruct (fmul_near (f64_of_Z Q) w) as (Vy & Fy & Py & Ey);
    try done; try (by apply fvalid_of_Z); try (by apply ffinite_whole); rewrite ?MQ; try done.
  { by apply Z.mul_pos_pos; lia. }
  { split.
    - apply Z.le_trans with (ulp1 * 2 ^ 1024); [done|]. apply Z.mul_le_mono_nonneg; [lia|nia|done|done].
    - apply Z.le_lt_trans with (2 ^ 49 * ulp1 * 2 ^ 1075); [|done].
      apply Z.mul_le_mono_nonneg; [nia|nia|lia|done]. }
  set (y := (f64_of_Z Q * w)%f64) in *. rewrite MQ in Ey. clear Hwlo Hwhi.
  assert (Ey' : Z.abs (fmag y - Q * fmag w) * 2 ^ 52 <= Q * fmag w).
  { apply (Z.mul_le_mono_pos_r _ _ ulp1); [done|].
    replace (fmag y * ulp1 - Q * ulp1 * fmag w) with ((fmag y - Q * fmag w) * ulp1) in Ey by ring.
    rewrite Z.abs_mul, (Z.abs_eq ulp1) in Ey by lia. lia. }
  clear Ey. generalize dependent (fmag w). intros W HW1 HW2 HY.
  assert (HQW : Q * W <= 2 ^ 51 * ulp1) by nia.
  destruct (Round_near y Vy Fy ltac:(lia)) as (z & Hz & Hz01 & Hzy).
  exists z. split; [done|]. split; [done|].
  by apply (share_arith ulp1 Q n W (fmag y) z); try lia.
Qed.
