(* ===== verification/ShareLedger.v ===== *)
(** * ShareLedger: the T+1 rule as an abstract ledger

    Per symbol the whole shares that may be sold and those bought today. The
    back-test tracker ([TrackerLedger]) and the paper trader ([MockProps])
    both refine it. Also the whole-number facts on float64 the two
    refinements share. *)

From stdpp Require Import base list gmap.
From Stdlib Require Import ZArith Lia.
From S2P Require Import Prelude GoFloat FloatInt.

Open Scope Z_scope.

(** ** The abstract ledger *)

(** Sellable shares and shares bought today. *)
Record holding := MkHolding { settled : Z; today : Z }.

Abbreviation ledger := (gmap bytes holding).

Definition held (s : bytes) (L : ledger) : holding := default (MkHolding 0 0) (L !! s).

(** An empty holding is no holding. *)
Definition put_holding (s : bytes) (h : holding) (L : ledger) : ledger :=
  if settled h + today h =? 0 then delete s L else <[s := h]> L.

Definition lbuy (s : bytes) (n : Z) (L : ledger) : ledger :=
  let h := held s L in put_holding s (MkHolding (settled h) (today h + n)) L.

(** A sale takes what is asked, up to the sellable shares. *)
Definition sellable (s : bytes) (n : Z) (L : ledger) : Z := Z.min (settled (held s L)) n.

Definition lsell (s : bytes) (n : Z) (L : ledger) : ledger :=
  let h := held s L in
  put_holding s (MkHolding (settled h - sellable s n L) (today h)) L.

Definition ladvance (L : ledger) : ledger :=
  (fun h => MkHolding (settled h + today h) 0) <$> L.

(** ** Position maps that represent a ledger *)

(** The same symbols, related position by position. *)
Definition shares_rep {P} (R : P -> holding -> Prop) (m : gmap bytes P) (L : ledger) : Prop :=
  forall s, option_relation R (fun _ => False) (fun _ => False) (m !! s) (L !! s).

Lemma shares_rep_empty {P} (R : P -> holding -> Prop) : shares_rep R ∅ ∅.
Proof. intros s. by rewrite !lookup_empty. Qed.

Lemma shares_rep_mono {P} (R R' : P -> holding -> Prop) m L :
  (forall p h, R p h -> R' p h) -> shares_rep R m L -> shares_rep R' m L.
Proof. intros HR Hr s. specialize (Hr s). destruct (m !! s), (L !! s); cbn in *; auto. Qed.

(** Replacing one position and one holding. *)
Lemma shares_rep_put {P} (R : P -> holding -> Prop) m L s p h :
  shares_rep R m L ->
  (if settled h + today h =? 0 then p = None else exists q, p = Some q /\ R q h) ->
  shares_rep R (partial_alter (fun _ => p) s m) (put_holding s h L).
Proof.
  intros Hr Hp s'. unfold put_holding. destruct (decide (s' = s)) as [->|Hne].
  - rewrite lookup_partial_alter_eq. destruct (_ =? 0).
    + subst p. by rewrite lookup_delete_eq.
    + destruct Hp as (q & -> & Hq). by rewrite lookup_insert_eq.
  - rewrite lookup_partial_alter_ne by done. destruct (_ =? 0);
      [rewrite lookup_delete_ne by done|rewrite lookup_insert_ne by done]; apply Hr.
Qed.

Lemma shares_rep_delete {P} (R : P -> holding -> Prop) m L s :
  shares_rep R m L -> shares_rep R (delete s m) (delete s L).
Proof.
  intros Hr s'. destruct (decide (s' = s)) as [->|]; [by rewrite !lookup_delete_eq|].
  rewrite !lookup_delete_ne by done. apply Hr.
Qed.

Lemma shares_rep_fmap {P Q} (R : P -> holding -> Prop) (R' : Q -> holding -> Prop) (f : P -> Q) g m L :
  (forall p h, R p h -> R' (f p) (g h)) -> shares_rep R m L -> shares_rep R' (f <$> m) (g <$> L).
Proof.
  intros HR Hr s. rewrite !lookup_fmap. specialize (Hr s). destruct (m !! s), (L !! s); cbn in *; auto.
Qed.

Lemma shares_rep_held {P} (R : P -> holding -> Prop) m L s :
  shares_rep R m L ->
  (m !! s = None /\ held s L = MkHolding 0 0) \/ exists p, m !! s = Some p /\ R p (held s L).
Proof.
  intros Hr. specialize (Hr s). unfold held. destruct (m !! s) as [p|], (L !! s) as [h|]; cbn in *; try done;
    [right; by exists p|by left].
Qed.

Lemma shares_rep_None {P} (R : P -> holding -> Prop) m L s :
  shares_rep R m L -> m !! s = None <-> L !! s = None.
Proof. intros Hr. specialize (Hr s). destruct (m !! s), (L !! s); cbn in Hr; naive_solver. Qed.

(** ** Whole share counts in float64 *)

Ltac whole := unfold whole_range in *; lia.

Lemma fmin_whole a b : whole_range a -> whole_range b ->
  fmin (f64_of_Z a) (f64_of_Z b) = f64_of_Z (Z.min a b).
Proof.
  intros Ha Hb. unfold fmin. rewrite !whole_not_nan, !flt_whole by done.
  destruct (a <? b) eqn:E1; bool_to_prop; [f_equal; lia|].
  destruct (b <? a) eqn:E2; bool_to_prop; [f_equal; lia|].
  case_match; f_equal; lia.
Qed.
