(* ===== verification/FixedDecimal.v ===== *)
(** * FixedDecimal: the fixed-point decimal type (pkg/decimal/decimal.go)

    A [Decimal] is an int64 unscaled value and a scale in [0, 18]. The
    operations are written with Go's wrap-around; the theorems relate them to
    exact rational arithmetic on [to_Q] where nothing overflows, and pin what
    happens where the source's overflow handling does not hold. *)

From stdpp Require Import base list strings.
From Stdlib Require Import ZArith Lia Ascii QArith Qround.
From S2P Require Import Prelude GoFloat.

Open Scope Z_scope.

(** ** The data type *)

Definition MaxScale : Z := 18.

Record Decimal := MkDecimal { value : Z; scale : Z }.

Inductive dec_error := ErrDivisionByZero | ErrInvalidFormat.

Definition Zero : Decimal := MkDecimal 0 0.
Definition One : Decimal := MkDecimal 1 0.

#[global] Instance Decimal_eq_dec : EqDecision Decimal.
Proof. solve_decision. Defined.

(** [New(unscaled, scale)]: the scale is clamped to [0, MaxScale]. *)
Definition New (unscaled sc : Z) : Decimal :=
  let sc := if sc <? 0 then 0 else sc in
  let sc := if sc >? MaxScale then MaxScale else sc in
  MkDecimal unscaled (wrap8 sc).

Definition FromInt (i : Z) : Decimal := MkDecimal i 0.

Definition FromFloat (f : float64) (precision : Z) : Decimal :=
  let precision := if precision <? 0 then 0 else precision in
  let precision := if precision >? MaxScale then MaxScale else precision in
  let pow := Pow10 precision in
  let scaled := GoFloat.Round (fmul f pow) in
  MkDecimal (f64_to_int64 scaled) (wrap8 precision).

(** ** Parsing and printing *)

Definition allDigits (s : bytes) : bool :=
  match s with [] => false | _ => forallb is_digit s end.

Definition isEmpty (s : bytes) : bool := match s with [] => true | _ => false end.

(** The split at the first dot: the integer and fractional digits, [None] on
    a second dot. *)
Definition split_parts (s : bytes) : option (bytes * bytes) :=
  match split_byte "."%char s with
  | Some (intPart, fracPart) =>
      let intPart := if isEmpty intPart then lit "0" else intPart in
      if existsb (fun b => Ascii.eqb b "."%char) fracPart then None
      else Some (intPart, fracPart)
  | None => Some (s, [])
  end.

(** The rest of [FromString] once the sign is read. *)
Definition parse_unsigned (neg : bool) (s : bytes) : res dec_error Decimal :=
  if isEmpty s then Err ErrInvalidFormat else
  match split_parts s with
  | None => Err ErrInvalidFormat
  | Some (intPart, fracPart) =>
      if (isEmpty intPart || negb (allDigits intPart))%bool then Err ErrInvalidFormat
      else if (negb (isEmpty fracPart) && negb (allDigits fracPart))%bool
      then Err ErrInvalidFormat
      else
        let sc := Z.of_nat (length fracPart) in
        let '(fracPart, sc) :=
          if sc >? MaxScale then (take (Z.to_nat MaxScale) fracPart, MaxScale)
          else (fracPart, sc) in
        match ParseInt (intPart ++ fracPart) with
        | None => Err ErrInvalidFormat
        | Some iv =>
            let iv := if neg then wrap64 (- iv) else iv in
            Ok (MkDecimal iv (wrap8 sc))
        end
  end.

Definition FromString (s0 : bytes) : res dec_error Decimal :=
  let s := TrimSpace s0 in
  match s with
  | [] => Err ErrInvalidFormat
  | c :: rest =>
      if Ascii.eqb c "-"%char then parse_unsigned true rest
      else if Ascii.eqb c "+"%char then parse_unsigned false rest
      else parse_unsigned false s
  end.

(** [MustFromString]: [None] is the panic. *)
Definition MustFromString (s : bytes) : option Decimal :=
  match FromString s with Ok d => Some d | Err _ => None end.

Definition ToFloat (d : Decimal) : float64 :=
  fdiv (f64_of_Z (value d)) (Pow10 (scale d)).

(** The loop [for len(digits) <= scale { digits = "0" + digits }]; it runs at
    most scale + 1 times. *)
Fixpoint pad_zeros (fuel : nat) (sc : Z) (digits : bytes) : bytes :=
  match fuel with
  | O => digits
  | S fuel' => if Z.of_nat (length digits) <=? sc
               then pad_zeros fuel' sc ("0"%char :: digits)
               else digits
  end.

Definition ToString (d : Decimal) : bytes :=
  if value d =? 0 then
    if scale d =? 0 then lit "0"
    else lit "0." ++ replicate (Z.to_nat (scale d)) "0"%char
  else
    let neg := value d <? 0 in
    let v := if neg then wrap64 (- value d) else value d in
    let digits := FormatInt v in
    if scale d =? 0 then (if neg then "-"%char :: digits else digits)
    else
      let digits := pad_zeros (S (Z.to_nat (scale d))) (scale d) digits in
      let dotPos := (length digits - Z.to_nat (scale d))%nat in
      let intPart := take dotPos digits in
      let fracPart := drop dotPos digits in
      let out := intPart ++ lit "." ++ fracPart in
      if neg then "-"%char :: out else out.

(** [Format]: the bytes written for a verb. *)
Definition Format (d : Decimal) (verb : Z) : bytes :=
  if (verb =? 115) || (verb =? 118) || (verb =? 102) then ToString d
  else if verb =? 100 then FormatInt (value d)
  else lit "%!" ++ utf8_encode verb ++ lit "(decimal.Decimal=" ++ ToString d ++ lit ")".

Definition dquote : ascii := ascii_of_nat 34.

Definition MarshalJSON (d : Decimal) : bytes := dquote :: ToString d ++ [dquote].

Definition UnmarshalJSON (data : bytes) : res dec_error Decimal :=
  let s := trim_both (Ascii.eqb dquote) data in
  if (isEmpty s || bool_decide (s = lit "null"))%bool then Ok Zero
  else FromString s.

(** ** Accessors and predicates *)

Definition Value (d : Decimal) : Z := value d.
Definition Scale (d : Decimal) : Z := scale d.
Definition IsZero (d : Decimal) : bool := value d =? 0.
Definition IsNegative (d : Decimal) : bool := value d <? 0.
Definition IsPositive (d : Decimal) : bool := value d >? 0.

(** ** Arithmetic *)

(** [int64(math.Pow10(n))]. *)
Definition pow10i (n : Z) : Z := f64_to_int64 (Pow10 n).

Definition rescale (d : Decimal) (target : Z) : Decimal :=
  if target =? scale d then d
  else
    let diff := target - scale d in
    if diff <? 0 then d
    else MkDecimal (wrap64 (value d * pow10i diff)) (wrap8 target).

Definition alignScale (a b : Decimal) : Decimal * Decimal :=
  if scale a =? scale b then (a, b)
  else if scale a >? scale b then (a, rescale b (scale a))
  else (rescale a (scale b), b).

Definition Add (a b : Decimal) : Decimal :=
  let '(a, b) := alignScale a b in
  MkDecimal (wrap64 (value a + value b)) (scale a).

Definition Sub (a b : Decimal) : Decimal :=
  let '(a, b) := alignScale a b in
  MkDecimal (wrap64 (value a - value b)) (scale a).

Definition willOverflow (a b : Z) : bool :=
  if (a =? 0) || (b =? 0) then false
  else
    let absA := if a <? 0 then wrap64 (- a) else a in
    let absB := if b <? 0 then wrap64 (- b) else b in
    if (absA <? 0) || (absB <? 0) then true
    else absA >? quot64 max_int64 absB.

Definition clampScale (s : Z) : Z :=
  if s <? 0 then 0 else if s >? MaxScale then MaxScale else s.

(** The precision-dropping loop of [Mul]. The counter is [resultScale]
    itself: at 0 the source's inner guard breaks. *)
Fixpoint mul_loop (rs : nat) (av bv : Z) : Z * Z * Z :=
  match rs with
  | O => (av, bv, 0)
  | S rs' =>
      if (Z.of_nat rs >? MaxScale) || willOverflow av bv
      then mul_loop rs' (if negb (av =? 0) then quot64 av 10 else av)
                        (if negb (bv =? 0) then quot64 bv 10 else bv)
      else (av, bv, Z.of_nat rs)
  end.

Definition Mul (a b : Decimal) : Decimal :=
  let resultScale := scale a + scale b in
  let '(av, bv, rs) := mul_loop (Z.to_nat resultScale) (value a) (value b) in
  MkDecimal (wrap64 (av * bv)) (wrap8 (clampScale rs)).

(** The two scaling loops of [Div]. *)
Fixpoint div_scale_up (shift : nat) (numerator : Z) : Z :=
  match shift with
  | O => numerator
  | S k => if (numerator >? 2 ^ 62) || (numerator <? - 2 ^ 62) then numerator
           else div_scale_up k (wrap64 (numerator * 10))
  end.

Fixpoint div_scale_down (shift : nat) (numerator : Z) : Z :=
  match shift with
  | O => numerator
  | S k => div_scale_down k (quot64 numerator 10)
  end.

(** The quotient and rounding block of [Div]. *)
Definition div_round (numerator bv : Z) : Z :=
  let quotient := quot64 numerator bv in
  let remainder := rem64 numerator bv in
  if negb (remainder =? 0) then
    let absRem := if remainder <? 0 then wrap64 (- remainder) else remainder in
    let absB := if bv <? 0 then wrap64 (- bv) else bv in
    let shouldRound := wrap64 (2 * absRem) >? absB in
    if shouldRound then
      if ((numerator <? 0) && (bv >? 0)) || ((numerator >? 0) && (bv <? 0))
      then wrap64 (quotient - 1)
      else wrap64 (quotient + 1)
    else quotient
  else quotient.

Definition Div (a b : Decimal) (resultScale : Z) : res dec_error Decimal :=
  if value b =? 0 then Err ErrDivisionByZero
  else
    let resultScale := if resultScale <? 0 then 0 else resultScale in
    let resultScale := if resultScale >? MaxScale then MaxScale else resultScale in
    let shift := resultScale + scale b - scale a in
    let numerator :=
      if shift >? 0 then div_scale_up (Z.to_nat shift) (value a)
      else if shift <? 0 then div_scale_down (Z.to_nat (- shift)) (value a)
      else value a in
    let quotient := div_round numerator (value b) in
    Ok (MkDecimal quotient (wrap8 resultScale)).

Definition Neg (d : Decimal) : Decimal := MkDecimal (wrap64 (- value d)) (scale d).

Definition Abs (d : Decimal) : Decimal :=
  if value d <? 0 then MkDecimal (wrap64 (- value d)) (scale d) else d.

(** ** Comparison *)

Definition Equal (a b : Decimal) : bool :=
  let '(a, b) := alignScale a b in value a =? value b.
Definition LessThan (a b : Decimal) : bool :=
  let '(a, b) := alignScale a b in value a <? value b.
Definition GreaterThan (a b : Decimal) : bool :=
  let '(a, b) := alignScale a b in value a >? value b.
Definition LessThanOrEqual (a b : Decimal) : bool :=
  let '(a, b) := alignScale a b in value a <=? value b.
Definition GreaterThanOrEqual (a b : Decimal) : bool :=
  let '(a, b) := alignScale a b in value a >=? value b.
Definition Compare (a b : Decimal) : Z :=
  let '(a, b) := alignScale a b in
  if value a <? value b then -1 else if value a >? value b then 1 else 0.

(** ** Rounding *)

(** The rounding block of [Round]: drop the digits below [pow], away from
    zero from the half on. *)
Definition round_digits (v pow : Z) : Z :=
  let half := quot64 pow 2 in
  if v <? 0 then
    let remainder := rem64 v pow in
    let remainder := if remainder <? 0 then wrap64 (- remainder) else remainder in
    let v := if remainder >=? half then wrap64 (v - pow) else v in
    let v := wrap64 (quot64 v pow * pow) in
    quot64 v pow
  else
    let remainder := rem64 v pow in
    let v := if remainder >=? half then wrap64 (v + pow) else v in
    let v := wrap64 (quot64 v pow * pow) in
    quot64 v pow.

Definition Round (d : Decimal) (places : Z) : Decimal :=
  let places := if places <? 0 then 0 else places in
  let places := if places >? MaxScale then MaxScale else places in
  if places >=? scale d then rescale d places
  else
    let drop := scale d - places in
    let pow := pow10i drop in
    MkDecimal (round_digits (value d) pow) (wrap8 places).

(** [MulRound]. *)
Definition MulRound (a b : Decimal) (resultScale : Z) : Decimal :=
  Round (Mul a b) resultScale.

Definition Ceiling (d : Decimal) : Decimal :=
  if scale d =? 0 then d
  else
    let pow := pow10i (scale d) in
    let v := quot64 (value d) pow in
    let v := if (value d >? 0) && negb (rem64 (value d) pow =? 0)
             then wrap64 (v + 1) else v in
    MkDecimal v 0.

Definition Floor (d : Decimal) : Decimal :=
  if scale d =? 0 then d
  else
    let pow := pow10i (scale d) in
    let v := quot64 (value d) pow in
    let v := if (value d <? 0) && negb (rem64 (value d) pow =? 0)
             then wrap64 (v - 1) else v in
    MkDecimal v 0.

Definition Truncate (d : Decimal) (places : Z) : Decimal :=
  let places := if places <? 0 then 0 else places in
  if places >=? scale d then d
  else
    let drop := scale d - places in
    MkDecimal (quot64 (value d) (pow10i drop)) (wrap8 places).

(** ** Well-formedness and the rational a decimal stands for *)

Definition wf (d : Decimal) : Prop :=
  in_int64 (value d) /\ 0 <= scale d <= MaxScale.

#[global] Instance wf_dec d : Decision (wf d).
Proof. unfold wf. apply _. Defined.

Definition to_Q (d : Decimal) : Q := Qmake (value d) (Z.to_pos (10 ^ scale d)).

(** Both operands are representable at the common scale. *)
Definition fits_aligned (a b : Decimal) : Prop :=
  let m := Z.max (scale a) (scale b) in
  in_int64 (value a * 10 ^ (m - scale a)) /\ in_int64 (value b * 10 ^ (m - scale b)).

#[global] Instance fits_aligned_dec a b : Decision (fits_aligned a b).
Proof. unfold fits_aligned. apply _. Defined.

Ltac dec_simpl := unfold MaxScale in *; simpl in *.

Lemma pow10i_pow n : 0 <= n <= 18 -> pow10i n = 10 ^ n.
Proof. apply Pow10_int64. Qed.

Lemma pow10_le_18 n : 0 <= n <= 18 -> 10 ^ n <= 1000000000000000000.
Proof.
  intros Hn. change 1000000000000000000 with (10 ^ 18).
  apply Z.pow_le_mono_r; lia.
Qed.

Lemma pow10_in_int64 n : 0 <= n <= 18 -> in_int64 (10 ^ n).
Proof.
  intros Hn. pose proof (pow10_le_18 n Hn). pose proof (pow10_pos n ltac:(lia)).
  int64_unfold; lia.
Qed.

Lemma rescale_up d t :
  0 <= scale d -> scale d <= t <= MaxScale ->
  rescale d t = MkDecimal (if t =? scale d then value d
                           else wrap64 (value d * 10 ^ (t - scale d))) t.
Proof.
  intros H0 Ht. unfold rescale. destruct (Z.eqb_spec t (scale d)) as [->|].
  - by destruct d.
  - destruct (Z.ltb_spec (t - scale d) 0); [lia|]. dec_simpl.
    rewrite pow10i_pow, wrap8_id by lia. done.
Qed.

Lemma rescale_exact d t :
  0 <= scale d -> scale d <= t <= MaxScale -> in_int64 (value d * 10 ^ (t - scale d)) ->
  rescale d t = MkDecimal (value d * 10 ^ (t - scale d)) t.
Proof.
  intros H0 Ht Hin. rewrite rescale_up by done. f_equal.
  destruct (Z.eqb_spec t (scale d)) as [->|].
  - rewrite Z.sub_diag. simpl. lia.
  - by apply wrap64_id.
Qed.

Lemma alignScale_exact a b :
  wf a -> wf b -> fits_aligned a b ->
  let m := Z.max (scale a) (scale b) in
  alignScale a b = (MkDecimal (value a * 10 ^ (m - scale a)) m,
                    MkDecimal (value b * 10 ^ (m - scale b)) m).
Proof.
  intros [_ Ha] [_ Hb] [Fa Fb] m. subst m. unfold alignScale.
  destruct (Z.eqb_spec (scale a) (scale b)) as [E|].
  - rewrite E, Z.max_id, !Z.sub_diag, !Z.mul_1_r. destruct a, b; simpl in *. by subst.
  - rewrite Z.gtb_ltb. destruct (Z.ltb_spec (scale b) (scale a)).
    + rewrite Z.max_l in * by lia. rewrite Z.sub_diag, Z.mul_1_r in *.
      rewrite rescale_exact by (done || lia). by destruct a.
    + rewrite Z.max_r in * by lia. rewrite Z.sub_diag, Z.mul_1_r in *.
      rewrite rescale_exact by (done || lia). by destruct b.
Qed.

(** Scaling the numerator up to a larger scale keeps the rational. *)
Lemma to_Q_scale v s m :
  0 <= s <= m ->
  (to_Q (MkDecimal (v * 10 ^ (m - s)) m) == to_Q (MkDecimal v s))%Q.
Proof.
  intros H. unfold to_Q, Qeq. simpl.
  rewrite !Z2Pos.id by (apply pow10_pos; lia).
  rewrite <- Z.mul_assoc, <- Z.pow_add_r by lia. f_equal. f_equal. lia.
Qed.

Lemma to_Q_plus v w s :
  0 <= s ->
  (to_Q (MkDecimal (v + w) s) == to_Q (MkDecimal v s) + to_Q (MkDecimal w s))%Q.
Proof.
  intros H. unfold to_Q, Qeq, Qplus. simpl.
  rewrite Pos2Z.inj_mul, !Z2Pos.id by (apply pow10_pos; lia). lia.
Qed.

Lemma to_Q_opp v s : (to_Q (MkDecimal (- v) s) == - to_Q (MkDecimal v s))%Q.
Proof. reflexivity. Qed.

Lemma to_Q_compare v w s :
  0 <= s -> (to_Q (MkDecimal v s) ?= to_Q (MkDecimal w s))%Q = (v ?= w).
Proof.
  intros H. unfold to_Q, Qcompare. simpl.
  symmetry. apply Zmult_compare_compat_r. lia.
Qed.

Lemma aligned_Q a b :
  wf a -> wf b -> let m := Z.max (scale a) (scale b) in
  (to_Q (MkDecimal (value a * 10 ^ (m - scale a)) m) == to_Q a)%Q
  /\ (to_Q (MkDecimal (value b * 10 ^ (m - scale b)) m) == to_Q b)%Q.
Proof.
  intros [_ Ha] [_ Hb] m. subst m. destruct a, b; simpl in *.
  split; apply to_Q_scale; lia.
Qed.

(** ** Exactness of addition and subtraction *)

(** When both operands fit at the common scale and the int64 sum (resp.
    difference) does not overflow, [Add] (resp. [Sub]) is exact: the result
    stands for the rational sum (difference), is well formed, and carries the
    larger of the two scales. *)
Theorem Add_Sub_exact (a b : Decimal) :
  wf a -> wf b -> fits_aligned a b ->
  (in_int64 (value a * 10 ^ (Z.max (scale a) (scale b) - scale a)
             + value b * 10 ^ (Z.max (scale a) (scale b) - scale b)) ->
   (to_Q (Add a b) == to_Q a + to_Q b)%Q
   /\ wf (Add a b) /\ scale (Add a b) = Z.max (scale a) (scale b))
  /\
  (in_int64 (value a * 10 ^ (Z.max (scale a) (scale b) - scale a)
             - value b * 10 ^ (Z.max (scale a) (scale b) - scale b)) ->
   (to_Q (Sub a b) == to_Q a - to_Q b)%Q
   /\ wf (Sub a b) /\ scale (Sub a b) = Z.max (scale a) (scale b)).
Proof.
  intros Ha Hb Hf. destruct (aligned_Q a b Ha Hb) as [Qa Qb].
  unfold Add, Sub. rewrite alignScale_exact by done.
  destruct Ha as [_ Ha], Hb as [_ Hb]. cbn [value scale].
  split; intros Hin; rewrite (wrap64_id _ Hin); (split; [|split; [split|]]);
    cbn [value scale]; try done; try lia.
  - rewrite to_Q_plus, Qa, Qb by lia. reflexivity.
  - unfold Z.sub at 1. rewrite to_Q_plus, to_Q_opp, Qa, Qb by lia. reflexivity.
Qed.

Lemma Add_Sub_exact_witness :
  (to_Q (Add (New 1005 3) (New (-25) 1)) == to_Q (New 1005 3) + to_Q (New (-25) 1))%Q.
Proof.
  destruct (Add_Sub_exact (New 1005 3) (New (-25) 1)) as [H _].
  - vm_compute. intuition discriminate.
  - vm_compute. intuition discriminate.
  - vm_compute. intuition discriminate.
  - apply H. vm_compute. intuition discriminate.
Defined.

(** ** Comparison *)

Definition comparison_Z (c : comparison) : Z :=
  match c with Lt => -1 | Eq => 0 | Gt => 1 end.

(** On operands that fit at the common scale, the six comparison functions
    decide the order of the rationals the decimals stand for, whatever their
    scales (1.0 and 1.00 are equal). *)
Theorem comparisons_decide_order (a b : Decimal) :
  wf a -> wf b -> fits_aligned a b ->
  Compare a b = comparison_Z (to_Q a ?= to_Q b)%Q
  /\ (Equal a b = true <-> (to_Q a == to_Q b)%Q)
  /\ (LessThan a b = true <-> (to_Q a < to_Q b)%Q)
  /\ (GreaterThan a b = true <-> (to_Q b < to_Q a)%Q)
  /\ (LessThanOrEqual a b = true <-> (to_Q a <= to_Q b)%Q)
  /\ (GreaterThanOrEqual a b = true <-> (to_Q b <= to_Q a)%Q).
Proof.
  intros Ha Hb Hf. destruct (aligned_Q a b Ha Hb) as [Qa Qb].
  rewrite <- Qa, <- Qb.
  unfold Compare, Equal, LessThan, GreaterThan, LessThanOrEqual, GreaterThanOrEqual.
  rewrite alignScale_exact by done. cbn [value].
  destruct Ha as [_ Ha], Hb as [_ Hb].
  rewrite Qeq_alt, !Qlt_alt, !Qle_alt, !to_Q_compare by lia.
  rewrite (Z.compare_antisym (value a * _)).
  destruct (Z.compare_spec (value a * 10 ^ (Z.max (scale a) (scale b) - scale a))
              (value b * 10 ^ (Z.max (scale a) (scale b) - scale b)));
    repeat (case_if; try lia); simpl; intuition (try discriminate; try lia).
Qed.

Lemma comparisons_decide_order_witness :
  Equal (New 10 1) (New 100 2) = true /\ Compare (New (-5) 1) (New 49 2) = -1.
Proof.
  split.
  - apply comparisons_decide_order; vm_compute; intuition discriminate.
  - rewrite (proj1 (comparisons_decide_order (New (-5) 1) (New 49 2)
               ltac:(vm_compute; intuition discriminate)
               ltac:(vm_compute; intuition discriminate)
               ltac:(vm_compute; intuition discriminate))).
    reflexivity.
Defined.

(** ** Rounding *)

Lemma quot_div_sgn v p : 0 < p -> Z.quot v p = Z.sgn v * (Z.abs v / p).
Proof.
  intros Hp. destruct (Z.le_gt_cases 0 v).
  - rewrite Z.quot_div_nonneg, Z.abs_eq by lia.
    destruct (Z.eq_dec v 0) as [->|]; [by rewrite Z.div_0_l by lia|].
    rewrite Z.sgn_pos by lia. lia.
  - rewrite <- (Z.opp_involutive v) at 1.
    rewrite Z.quot_opp_l, Z.quot_div_nonneg by lia.
    rewrite Z.abs_neq, Z.sgn_neg by lia. lia.
Qed.

Lemma rem_mod_sgn v p : 0 < p -> Z.rem v p = Z.sgn v * (Z.abs v mod p).
Proof.
  intros Hp. pose proof (Z.quot_rem' v p) as H.
  rewrite quot_div_sgn in H by done.
  pose proof (Z.div_mod (Z.abs v) p ltac:(lia)) as H'.
  pose proof (Z.abs_sgn v). nia.
Qed.

(** Half-away rounding of v at granularity p, on integers. *)
Definition round_half_away (v p : Z) : Z :=
  Z.sgn v * ((2 * Z.abs v + p) / (2 * p)).

(** The digit step [Round] performs on a magnitude. *)
Lemma half_step_div u p :
  0 <= u -> 0 < p -> p mod 2 = 0 ->
  (if u mod p >=? p / 2 then u + p else u) / p = (2 * u + p) / (2 * p).
Proof.
  intros Hu Hp He. rewrite Z.geb_leb.
  pose proof (Z.div_mod u p ltac:(lia)) as Hd.
  pose proof (Z.mod_pos_bound u p Hp) as Hm.
  pose proof (Z.div_mod p 2 ltac:(lia)) as H2.
  set (q := u / p) in *. set (r := u mod p) in *.
  destruct (Z.leb_spec (p / 2) r).
  - replace ((u + p) / p) with (q + 1) by (apply (Z.div_unique _ _ _ r); lia).
    apply (Z.div_unique _ _ _ (2 * r - p)); nia.
  - apply (Z.div_unique _ _ _ (2 * r + p)); nia.
Qed.

Lemma pow10_even n : 0 < n -> 10 ^ n mod 2 = 0.
Proof.
  intros Hn. replace n with (Z.succ (n - 1)) by lia.
  rewrite Z.pow_succ_r by lia.
  replace (10 * 10 ^ (n - 1)) with (5 * 10 ^ (n - 1) * 2) by lia.
  apply Z.mod_mul. lia.
Qed.

(** Dropping the last digits of an in-range value twice is dropping once. *)
Lemma requantize w p :
  0 < p -> in_int64 w ->
  quot64 (wrap64 (quot64 w p * p)) p = Z.sgn w * (Z.abs w / p).
Proof.
  intros Hp Hw. rewrite (quot64_pos w p), (quot_div_sgn w p) by done.
  pose proof (Z.mul_div_le (Z.abs w) p Hp).
  pose proof (Z.div_pos (Z.abs w) p ltac:(lia) Hp).
  pose proof (Z.abs_sgn w). pose proof (Z.sgn_abs w).
  assert (Hin : in_int64 (Z.sgn w * (Z.abs w / p) * p)).
  { destruct (Z.sgn_spec w) as [[? ->]|[[? ->]|[? ->]]]; int64_unfold; nia. }
  rewrite wrap64_id by done. rewrite quot64_pos by done.
  apply Z.quot_mul. lia.
Qed.

Lemma round_digits_spec v p :
  0 < p -> p mod 2 = 0 -> Z.abs v + p <= max_int64 ->
  round_digits v p = round_half_away v p.
Proof.
  intros Hp Hev Hfit. unfold round_digits, round_half_away.
  rewrite (quot64_pos p 2), (Z.quot_div_nonneg p 2) by (int64_unfold; lia).
  rewrite <- half_step_div by lia.
  unfold rem64. rewrite rem_mod_sgn by done.
  pose proof (Z.mod_pos_bound (Z.abs v) p Hp) as Hm.
  pose proof (Z.div_mod p 2 ltac:(lia)).
  destruct (Z.ltb_spec v 0) as [Hneg|Hnn].
  - rewrite (Z.sgn_neg v), Z.abs_neq in * by lia.
    replace (if -1 * (- v mod p) <? 0 then wrap64 (- (-1 * (- v mod p)))
             else -1 * (- v mod p)) with (- v mod p)
      by (case_if; [rewrite wrap64_id by (int64_unfold; lia)|]; lia).
    replace (if - v mod p >=? p / 2 then wrap64 (v - p) else v)
      with (- (if - v mod p >=? p / 2 then - v + p else - v))
      by (case_if; [rewrite wrap64_id by (int64_unfold; lia)|]; lia).
    rewrite requantize by (try done; case_if; int64_unfold; lia).
    rewrite Z.sgn_neg, Z.abs_neq, Z.opp_involutive by (case_if; lia). done.
  - rewrite Z.abs_eq in * by lia.
    replace (Z.sgn v * (v mod p)) with (v mod p)
      by (destruct (Z.sgn_spec v) as [[? ->]|[[<- ->]|[? ->]]];
          rewrite ?Z.mod_0_l by lia; lia).
    replace (if v mod p >=? p / 2 then wrap64 (v + p) else v)
      with (if v mod p >=? p / 2 then v + p else v)
      by (case_if; [rewrite wrap64_id by (int64_unfold; lia)|]; lia).
    rewrite requantize by (try done; case_if; int64_unfold; lia).
    destruct (Z.eq_dec v 0) as [->|].
    + rewrite Z.mod_0_l by lia. case_if; [lia|]. done.
    + rewrite (Z.sgn_pos v) by lia. rewrite Z.sgn_pos, Z.abs_eq by (case_if; lia). done.
Qed.

Lemma Round_value d places :
  wf d -> 0 <= places < scale d ->
  Z.abs (value d) + 10 ^ (scale d - places) <= max_int64 ->
  Round d places
  = MkDecimal (round_half_away (value d) (10 ^ (scale d - places))) places.
Proof.
  intros [Hv Hs] Hp Hfit. unfold Round. dec_simpl.
  destruct (Z.ltb_spec places 0); [lia|].
  rewrite Z.gtb_ltb. destruct (Z.ltb_spec 18 places); [lia|].
  rewrite Z.geb_leb. destruct (Z.leb_spec (scale d) places); [lia|].
  rewrite pow10i_pow, wrap8_id by lia. f_equal.
  apply round_digits_spec; [apply pow10_pos; lia|apply pow10_even; lia|done].
Qed.

(** [Round] to fewer places is correct rounding: the result is within half
    a unit of the last kept place, and a tie moves away from zero, as its
    comment says. The bound excludes only values within one unit of the int64
    limits. *)
Theorem Round_nearest (d : Decimal) (places : Z) :
  wf d -> 0 <= places < scale d ->
  Z.abs (value d) + 10 ^ (scale d - places) <= max_int64 ->
  let p := 10 ^ (scale d - places) in
  let r := Round d places in
  scale r = places
  /\ 2 * Z.abs (value d - value r * p) <= p
  /\ (2 * Z.abs (value d - value r * p) = p -> Z.abs (value d) < Z.abs (value r * p)).
Proof.
  intros Hwf Hp Hfit p r. subst r. rewrite Round_value by done. cbn [value scale].
  pose proof (pow10_pos (scale d - places) ltac:(lia)) as Hpos. fold p in Hpos |- *.
  unfold round_half_away. set (v := value d).
  pose proof (Z.div_mod (2 * Z.abs v + p) (2 * p) ltac:(lia)) as Hd.
  pose proof (Z.mod_pos_bound (2 * Z.abs v + p) (2 * p) ltac:(lia)) as Hm.
  set (q := (2 * Z.abs v + p) / (2 * p)) in *.
  split; [done|].
  replace (2 * p * q) with (2 * (q * p)) in Hd by ring.
  rewrite <- Z.mul_assoc. set (x := q * p) in *.
  destruct (Z.sgn_spec v) as [[? ->]|[[? ->]|[? ->]]]; (split; [|intros ?]; lia).
Qed.

Lemma Round_nearest_witness :
  value (Round (New (-2675) 3) 2) = -268 /\ 2 * Z.abs (-2675 - -268 * 10) <= 10.
Proof.
  split; [reflexivity|].
  apply (Round_nearest (New (-2675) 3) 2); vm_compute; intuition discriminate.
Defined.

Lemma quot_floor v p : 0 < p ->
  v / p = if (v <? 0) && negb (Z.rem v p =? 0) then Z.quot v p - 1 else Z.quot v p.
Proof.
  intros Hp. pose proof (Z.quot_rem' v p) as H.
  destruct (Z.ltb_spec v 0) as [Hn|Hn]; simpl.
  - pose proof (rem_mod_sgn v p Hp) as Hr. rewrite Z.sgn_neg in Hr by done.
    pose proof (Z.mod_pos_bound (Z.abs v) p Hp).
    case_if; symmetry;
      [apply (Z.div_unique _ _ _ (Z.rem v p + p))|apply (Z.div_unique _ _ _ 0)]; lia.
  - symmetry. apply Z.quot_div_nonneg; lia.
Qed.

Lemma quot_small_range v s :
  in_int64 v -> 0 < s <= 18 -> Z.abs (Z.quot v (10 ^ s)) <= 922337203685477580.
Proof.
  intros Hv Hs. pose proof (pow10_pos s ltac:(lia)) as Hp.
  rewrite quot_div_sgn, Z.abs_mul by done.
  assert (10 <= 10 ^ s)
    by (change 10 with (10 ^ 1) at 1; apply Z.pow_le_mono_r; lia).
  assert (Z.abs v / 10 ^ s <= 922337203685477580).
  { apply (Z.le_trans _ (Z.abs v / 10)).
    - apply Z.div_le_compat_l; lia.
    - change 922337203685477580 with (two63 / 10).
      apply Z.div_le_mono; int64_unfold; lia. }
  pose proof (Z.div_pos (Z.abs v) (10 ^ s) ltac:(lia) Hp).
  destruct (Z.sgn_spec v) as [[? ->]|[[? ->]|[? ->]]]; cbn [Z.abs]; lia.
Qed.

Lemma wrap64_step q :
  Z.abs q <= 922337203685477580 -> wrap64 (q - 1) = q - 1 /\ wrap64 (q + 1) = q + 1.
Proof. intros H. split; apply wrap64_id; int64_unfold; lia. Qed.

Lemma to_Q_floor d : wf d -> Qfloor (to_Q d) = value d / 10 ^ scale d.
Proof.
  intros [_ Hs]. unfold to_Q. simpl.
  by rewrite Z2Pos.id by (apply pow10_pos; lia).
Qed.

(** [Floor], [Ceiling] and [Truncate] are the mathematical floor, ceiling
    and truncation of the represented rational for every well-formed decimal,
    negative ones and the int64 extremes included: no intermediate result
    overflows. *)
Theorem Floor_Ceiling_Truncate_spec (d : Decimal) (places : Z) :
  wf d -> 0 <= places ->
  value (Floor d) = Qfloor (to_Q d)
  /\ value (Ceiling d) = Qceiling (to_Q d)
  /\ Truncate d places
     = if places <? scale d
       then MkDecimal (Z.quot (value d) (10 ^ (scale d - places))) places else d.
Proof.
  intros Hwf Hpl. pose proof Hwf as [Hv Hs]. unfold MaxScale in *.
  rewrite to_Q_floor by done. unfold Qceiling.
  replace (Qfloor (- to_Q d)) with (- value d / 10 ^ scale d)
    by (unfold to_Q; simpl; by rewrite Z2Pos.id by (apply pow10_pos; lia)).
  split; [|split].
  - unfold Floor. destruct (Z.eqb_spec (scale d) 0) as [->|]; [by rewrite Z.div_1_r|].
    rewrite pow10i_pow by lia. cbn [value].
    pose proof (pow10_pos (scale d) ltac:(lia)).
    pose proof (quot_small_range (value d) (scale d) Hv ltac:(lia)).
    rewrite quot64_pos, quot_floor by done. unfold rem64.
    generalize dependent (value d ÷ 10 ^ scale d). intros q Hq.
    destruct (wrap64_step q Hq) as [-> _]. done.
  - unfold Ceiling. destruct (Z.eqb_spec (scale d) 0) as [->|].
    { rewrite Z.div_1_r. lia. }
    rewrite pow10i_pow by lia. cbn [value].
    pose proof (pow10_pos (scale d) ltac:(lia)).
    pose proof (quot_small_range (value d) (scale d) Hv ltac:(lia)).
    rewrite quot64_pos, quot_floor by done. unfold rem64.
    rewrite Z.quot_opp_l, Z.rem_opp_l by lia.
    replace (- value d <? 0) with (value d >? 0) by lia.
    replace (- Z.rem (value d) (10 ^ scale d) =? 0)
      with (Z.rem (value d) (10 ^ scale d) =? 0) by lia.
    generalize dependent (value d ÷ 10 ^ scale d). intros q Hq.
    destruct (wrap64_step q Hq) as [_ ->]. case_if; lia.
  - unfold Truncate. destruct (Z.ltb_spec places 0); [lia|].
    rewrite Z.geb_leb. destruct (Z.leb_spec (scale d) places), (Z.ltb_spec places (scale d));
      try lia; [done|].
    rewrite pow10i_pow, wrap8_id by lia. f_equal.
    apply quot64_pos; [apply pow10_pos; lia|done].
Qed.

Lemma Floor_Ceiling_Truncate_witness :
  value (Floor (New (-25) 1)) = -3 /\ value (Ceiling (New (-25) 1)) = -2
  /\ Truncate (New (-259) 2) 1 = New (-25) 1.
Proof.
  destruct (Floor_Ceiling_Truncate_spec (New (-25) 1) 0) as (Hf & Hc & _);
    [vm_compute; intuition discriminate|lia|].
  rewrite Hf, Hc. split; [reflexivity|]. split; [reflexivity|].
  rewrite (proj2 (proj2 (Floor_Ceiling_Truncate_spec (New (-259) 2) 1
             ltac:(vm_compute; intuition discriminate) ltac:(lia)))).
  reflexivity.
Defined.

(** ** Multiplication *)

Lemma abs64 a : in_int64 a -> a <> min_int64 ->
  (if a <? 0 then wrap64 (- a) else a) = Z.abs a.
Proof.
  intros Ha Hm. case_if; [rewrite wrap64_id by (int64_unfold; lia)|]; lia.
Qed.

Lemma abs64_min : wrap64 (- min_int64) = min_int64.
Proof. reflexivity. Qed.

Lemma willOverflow_spec (a b : Z) :
  in_int64 a -> in_int64 b ->
  willOverflow a b = true <-> max_int64 < Z.abs (a * b).
Proof.
  intros Ha Hb. unfold willOverflow. rewrite Z.abs_mul.
  destruct (Z.eqb_spec a 0) as [->|Ha0]; [simpl; int64_unfold; split; intros; [done|lia]|].
  destruct (Z.eqb_spec b 0) as [->|Hb0].
  { simpl. rewrite Z.mul_0_r. int64_unfold. split; intros; [done|lia]. }
  cbn [orb].
  destruct (Z.eq_dec a min_int64) as [->|Ham].
  { simpl. split; [intros _|done]. int64_unfold. simpl Z.abs at 1. nia. }
  destruct (Z.eq_dec b min_int64) as [->|Hbm].
  { change (if min_int64 <? 0 then wrap64 (- min_int64) else min_int64) with min_int64.
    rewrite abs64 by done. rewrite orb_true_r.
    split; [intros _|done]. int64_unfold. simpl (Z.abs (-_)). nia. }
  rewrite !abs64 by done.
  destruct (Z.ltb_spec (Z.abs a) 0); [lia|]. destruct (Z.ltb_spec (Z.abs b) 0); [lia|].
  cbn [orb]. rewrite quot64_pos by (int64_unfold; lia).
  rewrite Z.quot_div_nonneg by (int64_unfold; lia).
  rewrite Z.gtb_ltb, Z.ltb_lt. split; intros H'.
  - apply Z.nle_gt. intros Hle. apply (Z.lt_irrefl (Z.abs a)).
    eapply Z.le_lt_trans; [|exact H']. apply Z.div_le_lower_bound; lia.
  - apply Z.div_lt_upper_bound; lia.
Qed.

Lemma willOverflow_false a b :
  in_int64 a -> in_int64 b -> Z.abs (a * b) <= max_int64 -> willOverflow a b = false.
Proof.
  intros Ha Hb H. apply not_true_iff_false. rewrite willOverflow_spec by done. lia.
Qed.

(** [willOverflow] is exact on every pair of int64 values: it answers true
    precisely when the magnitude of the product exceeds MaxInt64, the
    MinInt64 operands included. *)
Theorem willOverflow_exact (a b : Z) :
  in_int64 a -> in_int64 b ->
  willOverflow a b = true <-> max_int64 < Z.abs (a * b).
Proof. apply willOverflow_spec. Qed.

Lemma willOverflow_exact_witness :
  willOverflow min_int64 (-1) = true /\ willOverflow 3037000499 3037000499 = false.
Proof.
  split.
  - apply willOverflow_exact; [vm_compute; intuition discriminate..|reflexivity].
  - destruct (willOverflow 3037000499 3037000499) eqn:E; [|reflexivity].
    apply willOverflow_exact in E; [|vm_compute; intuition discriminate..].
    vm_compute in E. discriminate.
Defined.

(** [Mul] is exact whenever the scales add up to at most 18 and the
    product of the unscaled values fits: no digit is dropped and the result
    is the rational product. *)
Theorem Mul_exact (a b : Decimal) :
  wf a -> wf b -> scale a + scale b <= MaxScale ->
  Z.abs (value a * value b) <= max_int64 ->
  Mul a b = MkDecimal (value a * value b) (scale a + scale b)
  /\ (to_Q (Mul a b) == to_Q a * to_Q b)%Q /\ wf (Mul a b).
Proof.
  intros [Va Sa] [Vb Sb] Hs Hp. unfold MaxScale in *.
  assert (Hloop : mul_loop (Z.to_nat (scale a + scale b)) (value a) (value b)
                  = (value a, value b, scale a + scale b)).
  { destruct (Z.to_nat (scale a + scale b)) as [|n] eqn:E; [simpl; f_equal; lia|].
    cbn [mul_loop]. rewrite willOverflow_false by done.
    unfold MaxScale. rewrite Z.gtb_ltb, orb_false_r.
    destruct (Z.ltb_spec 18 (Z.of_nat (S n))); [lia|]. f_equal. lia. }
  assert (Hm : Mul a b = MkDecimal (value a * value b) (scale a + scale b)).
  { unfold Mul. rewrite Hloop, wrap64_id by (int64_unfold; lia). f_equal.
    unfold clampScale, MaxScale. rewrite Z.gtb_ltb.
    destruct (Z.ltb_spec (scale a + scale b) 0); [lia|].
    destruct (Z.ltb_spec 18 (scale a + scale b)); [lia|]. apply wrap8_id. lia. }
  split; [done|]. rewrite Hm. split.
  - unfold to_Q, Qeq, Qmult. simpl.
    rewrite Pos2Z.inj_mul, !Z2Pos.id by (apply pow10_pos; lia).
    rewrite Z.pow_add_r by lia. lia.
  - split; cbn [value scale]; [int64_unfold; lia|unfold MaxScale; lia].
Qed.

Lemma Mul_exact_witness :
  (to_Q (Mul (New 1025 2) (New (-300) 0)) == to_Q (New 1025 2) * to_Q (New (-300) 0))%Q.
Proof. apply Mul_exact; vm_compute; intuition discriminate. Defined.

(** The precision-dropping path of [Mul] does not preserve the value: each
    pass drops one digit from both operands but lowers the scale by one only.
    For every pair of scales whose sum exceeds 18, the product of 1 and 1 (as
    10^s at scale s) comes out as 10^-k, where k = s1 + s2 - 18 is the number
    of passes. *)
Theorem Mul_one_one_scaled (s1 s2 : Z) :
  1 <= s1 <= 18 -> 1 <= s2 <= 18 -> 18 < s1 + s2 ->
  let k := s1 + s2 - 18 in
  k <= s1 -> k <= s2 ->
  (to_Q (Mul (New (10 ^ s1) s1) (New (10 ^ s2) s2)) == 1 # Z.to_pos (10 ^ k))%Q.
Proof.
  intros H1 H2 H3 k H4 H5. subst k.
  assert (Hall : forallb (fun s1 => forallb (fun s2 =>
     if (18 <? s1 + s2) && (s1 + s2 - 18 <=? s1) && (s1 + s2 - 18 <=? s2)
     then Qeq_bool (to_Q (Mul (New (10 ^ s1) s1) (New (10 ^ s2) s2)))
                   (1 # Z.to_pos (10 ^ (s1 + s2 - 18)))
     else true) (seqZ 1 18)) (seqZ 1 18) = true) by (vm_compute; reflexivity).
  rewrite forallb_forall in Hall.
  specialize (Hall s1 ltac:(apply list_elem_of_In, elem_of_seqZ; lia)).
  rewrite forallb_forall in Hall.
  specialize (Hall s2 ltac:(apply list_elem_of_In, elem_of_seqZ; lia)).
  cbv beta in Hall.
  replace ((18 <? s1 + s2) && (s1 + s2 - 18 <=? s1) && (s1 + s2 - 18 <=? s2))%bool
    with true in Hall by lia.
  apply Qeq_bool_iff. exact Hall.
Qed.

Lemma Mul_one_one_scaled_witness :
  (to_Q (Mul (New (10 ^ 10) 10) (New (10 ^ 10) 10)) == 1 # 100)%Q.
Proof. apply (Mul_one_one_scaled 10 10); lia. Defined.

(** ** Division *)

Lemma div_scale_up_exact k n :
  Z.abs n * 10 ^ Z.of_nat k <= max_int64 -> div_scale_up k n = n * 10 ^ Z.of_nat k.
Proof.
  revert n; induction k as [|k IH]; intros n Hn.
  - simpl. lia.
  - rewrite Nat2Z.inj_succ, Z.pow_succ_r in * by lia.
    pose proof (pow10_pos (Z.of_nat k) ltac:(lia)).
    assert (Z.abs n * 10 <= max_int64) by nia.
    cbn [div_scale_up].
    replace ((n >? 2 ^ 62) || (n <? - 2 ^ 62))%bool with false by (int64_unfold; lia).
    rewrite wrap64_id by (int64_unfold; lia).
    rewrite IH by (rewrite Z.abs_mul; lia). lia.
Qed.

(** [div_round] is division to nearest with ties toward zero, when the
    numerator avoids MinInt64 and the divisor is at most 2^62. *)
Lemma div_round_spec n b :
  b <> 0 -> Z.abs n <= max_int64 -> Z.abs b <= 2 ^ 62 ->
  let q := div_round n b in
  2 * Z.abs (n - q * b) <= Z.abs b
  /\ (2 * Z.abs (n - q * b) = Z.abs b -> Z.abs (q * b) < Z.abs n).
Proof.
  intros Hb Hn Hbb q. subst q. unfold div_round, rem64.
  rewrite quot64_small by done.
  pose proof (Z.quot_rem' n b) as Hqr. pose proof (Z.rem_bound_abs n b Hb) as Hr.
  pose proof (Z.rem_sign_mul n b Hb) as Hsg.
  pose proof (Z.quot_rem' (Z.abs n) (Z.abs b)) as Habs.
  rewrite Z.quot_abs, Z.rem_abs in Habs by done.
  set (q := Z.quot n b) in *. set (r := Z.rem n b) in *. clearbody q r.
  change (2 ^ 62) with 4611686018427387904 in *.
  rewrite !abs64 by (int64_unfold; lia).
  destruct (Z.eqb_spec r 0) as [->|Hr0]; cbn [negb].
  { replace (n - q * b) with 0 by lia. split; [simpl; lia|]. simpl. lia. }
  rewrite (wrap64_id (2 * Z.abs r)) by (int64_unfold; lia).
  assert (Hq' : 2 * Z.abs q <= Z.abs n) by nia.
  rewrite (wrap64_id (q - 1)), (wrap64_id (q + 1)) by (int64_unfold; lia).
  rewrite Z.gtb_ltb. destruct (Z.ltb_spec (Z.abs b) (2 * Z.abs r)) as [Hlt|Hge].
  - destruct ((n <? 0) && (b >? 0) || (n >? 0) && (b <? 0))%bool eqn:E.
    + replace (n - (q - 1) * b) with (r + b) by lia.
      assert (r < 0 < b \/ b < 0 < r) by (clear - Hsg Hr0 E; nia). lia.
    + replace (n - (q + 1) * b) with (r - b) by lia.
      assert (Hn0 : n <> 0).
      { intros ->. simpl in Habs. clear - Habs Hr0. nia. }
      assert (0 < r /\ 0 < b \/ r < 0 /\ b < 0) by (clear - Hsg Hr0 E Hn0 Hb; nia). lia.
  - replace (n - q * b) with r by lia. split; [lia|]. intros _.
    rewrite Z.abs_mul. lia.
Qed.

(** [Div] is division to nearest with ties toward zero: with a nonzero
    divisor of magnitude at most 2^62 and a dividend that fits once scaled up,
    the quotient at the requested scale is within half a unit in the last
    place, and a tie keeps the smaller magnitude. *)
Theorem Div_nearest (a b : Decimal) (rs : Z) :
  wf a -> wf b -> value b <> 0 -> 0 <= rs <= MaxScale ->
  0 <= rs + scale b - scale a ->
  Z.abs (value a) * 10 ^ (rs + scale b - scale a) <= max_int64 ->
  Z.abs (value b) <= 2 ^ 62 ->
  let n := value a * 10 ^ (rs + scale b - scale a) in
  exists d, Div a b rs = Ok d /\ scale d = rs
    /\ 2 * Z.abs (n - value d * value b) <= Z.abs (value b)
    /\ (2 * Z.abs (n - value d * value b) = Z.abs (value b) ->
        Z.abs (value d * value b) < Z.abs n).
Proof.
  intros _ _ Hb Hrs Hsh Hfit Hbb n. unfold Div, MaxScale in *.
  destruct (Z.eqb_spec (value b) 0); [done|].
  destruct (Z.ltb_spec rs 0); [lia|]. rewrite (Z.gtb_ltb rs).
  destruct (Z.ltb_spec 18 rs); [lia|]. rewrite wrap8_id by lia.
  set (sh := rs + scale b - scale a) in *.
  assert (Hnum : (if sh >? 0 then div_scale_up (Z.to_nat sh) (value a)
                  else if sh <? 0 then div_scale_down (Z.to_nat (- sh)) (value a)
                  else value a) = n).
  { rewrite Z.gtb_ltb. destruct (Z.ltb_spec 0 sh).
    - rewrite div_scale_up_exact; rewrite Z2Nat.id by lia; done.
    - destruct (Z.ltb_spec sh 0); [lia|]. subst n. replace sh with 0 by lia. simpl. lia. }
  rewrite Hnum. eexists. split; [reflexivity|]. split; [reflexivity|]. cbn [value].
  apply div_round_spec; [done| |done].
  subst n. rewrite Z.abs_mul, (Z.abs_eq (10 ^ sh)); [done|].
  apply Z.pow_nonneg. lia.
Qed.

Lemma Div_nearest_witness :
  Div (New 10 0) (New 3 0) 4 = Ok (New 33333 4)
  /\ 2 * Z.abs (100000 - 33333 * 3) <= 3.
Proof.
  split; [reflexivity|].
  destruct (Div_nearest (New 10 0) (New 3 0) 4) as (d & E & _ & H & _);
    [(vm_compute; intuition discriminate)..|].
  vm_compute in E. injection E as <-. exact H.
Defined.

(** Two departures of [Div] from its comments. A tie is neither rounded to
    even nor away from zero: 3/2 at scale 0 is 1. And the overflow guard
    (magnitude above 2^62) admits a step that overflows: 10^18 divided by 1 at
    one decimal place is negative. *)
Theorem Div_tie_and_overflow :
  Div (New 3 0) (New 2 0) 0 = Ok (New 1 0)
  /\ Div (New (10 ^ 18) 0) (New 1 0) 1 = Ok (New (-8446744073709551616) 1).
Proof. split; vm_compute; reflexivity. Qed.

(** ** Printing and parsing *)

(** Bytes [ToString] can put at either end: digits and the minus sign. *)
Definition plain (c : ascii) : bool := is_digit c || Ascii.eqb c "-"%char.

Lemma first_strip_heads ps c s :
  forallb (fun p => match p with [] => false | a :: _ => negb (Ascii.eqb a c) end) ps = true ->
  first_strip ps (c :: s) = None.
Proof.
  induction ps as [|[|a p] ps IH]; simpl; [done|done|].
  intros H; bool_to_prop. rewrite H. auto.
Qed.

Lemma plain_not_space c s :
  plain c = true ->
  first_strip space_seqs (c :: s) = None
  /\ first_strip (map (@rev ascii) space_seqs) (c :: s) = None.
Proof.
  intros H. split; apply first_strip_heads; revert H;
    destruct c as [[] [] [] [] [] [] [] []]; vm_compute; congruence.
Qed.

Lemma strip_all_id fuel ps s : first_strip ps s = None -> strip_all fuel ps s = s.
Proof. intros H. destruct fuel; simpl; [done|]. by rewrite H. Qed.

Lemma TrimSpace_ends s c t e u :
  s = c :: t -> rev s = e :: u -> plain c = true -> plain e = true -> TrimSpace s = s.
Proof.
  intros E1 E2 Hc He. unfold TrimSpace.
  rewrite (strip_all_id (length s) space_seqs s)
    by (rewrite E1; exact (proj1 (plain_not_space c t Hc))).
  rewrite (strip_all_id _ (map (@rev ascii) space_seqs) (rev s))
    by (rewrite E2; exact (proj2 (plain_not_space e u He))).
  apply rev_involutive.
Qed.

Lemma TrimSpace_plain c s e :
  plain c = true -> plain e = true -> TrimSpace (c :: s ++ [e]) = c :: s ++ [e].
Proof.
  apply (TrimSpace_ends _ c (s ++ [e]) e (rev (c :: s))); [done|].
  change (c :: s ++ [e]) with ((c :: s) ++ [e]). by rewrite rev_app_distr.
Qed.

Lemma TrimSpace_single c : plain c = true -> TrimSpace [c] = [c].
Proof. intros H. by apply (TrimSpace_ends _ c [] c []). Qed.

Lemma digit_plain c : is_digit c = true -> plain c = true.
Proof. unfold plain. by intros ->. Qed.

Lemma digit_not c b : is_digit c = true -> is_digit b = false -> Ascii.eqb c b = false.
Proof. intros Hc Hb. apply Ascii.eqb_neq. intros ->. congruence. Qed.

Lemma digits_last (ds : bytes) :
  ds <> [] -> forallb is_digit ds = true ->
  exists s' e, ds = s' ++ [e] /\ plain e = true.
Proof.
  intros Hne Hd. destruct ds as [|e s' _] using rev_ind; [done|].
  exists s', e. split; [done|]. rewrite forallb_app in Hd. simpl in Hd.
  bool_to_prop. by apply digit_plain.
Qed.

Definition dot_frac (frac : bytes) : bytes :=
  match frac with [] => [] | _ => "."%char :: frac end.

Lemma last_plain_frac ip frac :
  ip <> [] -> forallb is_digit ip = true -> forallb is_digit frac = true ->
  exists s' e, ip ++ dot_frac frac = s' ++ [e] /\ plain e = true.
Proof.
  intros Hip Hdi Hdf. destruct frac as [|f frac].
  - simpl. rewrite app_nil_r. by apply digits_last.
  - destruct (digits_last (f :: frac)) as (s' & e & E & He); [done..|].
    exists (ip ++ "."%char :: s'), e. split; [|done]. simpl. rewrite E.
    by rewrite <- app_assoc.
Qed.

Lemma ParseInt_digits ds :
  ds <> [] -> forallb is_digit ds = true -> 0 <= digits_val 0 ds <= max_int64 ->
  ParseInt ds = Some (digits_val 0 ds).
Proof.
  intros Hne Hd Hv. destruct ds as [|c ds]; [done|]. unfold ParseInt.
  assert (Hc : is_digit c = true) by (simpl in Hd; by bool_to_prop).
  rewrite !(digit_not c) by done. rewrite Hd. cbn [negb].
  rewrite (proj2 (in_int64b_spec _)); [done|]. int64_unfold; lia.
Qed.

Lemma allDigits_ne ds : ds <> [] -> allDigits ds = forallb is_digit ds.
Proof. by destruct ds. Qed.

Lemma split_parts_digits ip frac :
  ip <> [] -> forallb is_digit ip = true -> forallb is_digit frac = true ->
  split_parts (ip ++ dot_frac frac) = Some (ip, frac).
Proof.
  intros Hip Hdi Hdf. unfold split_parts.
  assert (Hnodot : forall l, forallb is_digit l = true ->
            forallb (fun b => negb (Ascii.eqb b "."%char)) l = true).
  { intros l. apply forallb_impl. intros x Hx. by rewrite digit_not. }
  destruct frac as [|f frac]; simpl dot_frac.
  - rewrite app_nil_r, split_byte_None by auto. done.
  - rewrite split_byte_app by auto. destruct ip; [done|]. simpl isEmpty.
    destruct (existsb _ (f :: frac)) eqn:E; [|done].
    apply existsb_exists in E as (x & Hx & Ex). apply Ascii.eqb_eq in Ex as ->.
    rewrite forallb_forall in Hdf. specialize (Hdf _ Hx). discriminate.
Qed.

Lemma parse_unsigned_digits (neg : bool) ip frac :
  ip <> [] -> forallb is_digit ip = true -> forallb is_digit frac = true ->
  (length frac <= 18)%nat -> 0 <= digits_val 0 (ip ++ frac) <= max_int64 ->
  parse_unsigned neg (ip ++ dot_frac frac)
  = Ok (MkDecimal (if neg then - digits_val 0 (ip ++ frac) else digits_val 0 (ip ++ frac))
                  (Z.of_nat (length frac))).
Proof.
  intros Hip Hdi Hdf Hlen Hv. unfold parse_unsigned.
  rewrite split_parts_digits by done.
  destruct ip as [|i ip]; [done|]. simpl isEmpty. cbv iota.
  rewrite (allDigits_ne (i :: ip)), Hdi by done. cbn [negb orb].
  replace (negb (isEmpty frac) && negb (allDigits frac))%bool with false
    by (destruct frac; [done|]; rewrite allDigits_ne, Hdf by done; done).
  rewrite Z.gtb_ltb. unfold MaxScale.
  destruct (Z.ltb_spec 18 (Z.of_nat (length frac))); [lia|].
  rewrite ParseInt_digits; [|done|by rewrite forallb_app, Hdi, Hdf|done].
  rewrite wrap8_id, wrap64_id by (int64_unfold; lia). by destruct neg.
Qed.

Definition sign_bytes (neg : bool) : bytes := if neg then [ "-"%char ] else [].

(** The strings [ToString] prints are read back. *)
Lemma FromString_digits (neg : bool) ip frac :
  ip <> [] -> forallb is_digit ip = true -> forallb is_digit frac = true ->
  (length frac <= 18)%nat -> 0 <= digits_val 0 (ip ++ frac) <= max_int64 ->
  FromString (sign_bytes neg ++ ip ++ dot_frac frac)
  = Ok (MkDecimal (if neg then - digits_val 0 (ip ++ frac) else digits_val 0 (ip ++ frac))
                  (Z.of_nat (length frac))).
Proof.
  intros Hip Hdi Hdf Hlen Hv. rewrite <- parse_unsigned_digits by done.
  destruct (last_plain_frac ip frac) as (s' & e & E & He); [done..|].
  destruct ip as [|i ip]; [done|].
  assert (Hi : is_digit i = true) by (simpl in Hdi; by bool_to_prop).
  unfold FromString, sign_bytes. destruct neg; simpl app.
  - simpl app in E. rewrite E, TrimSpace_plain by done. done.
  - assert (TrimSpace (i :: ip ++ dot_frac frac) = i :: ip ++ dot_frac frac) as ->.
    { simpl app in E. rewrite E. destruct s' as [|c s']; [by apply TrimSpace_single|].
      injection E as -> _. by apply TrimSpace_plain, He; apply digit_plain. }
    by rewrite !(digit_not i) by done.
Qed.

Lemma pad_zeros_spec fuel sc ds :
  sc < Z.of_nat (fuel + length ds) ->
  exists k, pad_zeros fuel sc ds = replicate k "0"%char ++ ds
            /\ sc < Z.of_nat (length (pad_zeros fuel sc ds)).
Proof.
  revert ds; induction fuel as [|fuel IH]; intros ds H; simpl pad_zeros.
  - exists 0%nat. split; [done|]. simpl in *. lia.
  - case_if; [|by exists 0%nat].
    destruct (IH ("0"%char :: ds)) as (k & E & Hl); [simpl; lia|].
    exists (S k). split; [|done]. rewrite E, replicate_S_end, <- app_assoc. done.
Qed.

(** The shape of the printed form: sign, integer digits, fraction digits. *)
Lemma ToString_parts d :
  wf d -> value d <> min_int64 ->
  exists ip frac,
    ToString d = sign_bytes (value d <? 0) ++ ip ++ dot_frac frac
    /\ ip <> [] /\ forallb is_digit ip = true /\ forallb is_digit frac = true
    /\ Z.of_nat (length frac) = scale d
    /\ digits_val 0 (ip ++ frac) = Z.abs (value d).
Proof.
  intros [Hv Hs] Hmin. unfold MaxScale in *. unfold ToString.
  destruct (Z.eqb_spec (value d) 0) as [E0|Hnz].
  - rewrite E0. destruct (Z.eqb_spec (scale d) 0) as [Es|Hsz].
    + exists (lit "0"), []. by rewrite Es.
    + exists (lit "0"), (replicate (Z.to_nat (scale d)) "0"%char).
      split; [|split; [done|split; [done|split]]].
      * destruct (Z.to_nat (scale d)) eqn:E; [lia|done].
      * by apply forallb_replicate.
      * rewrite length_replicate. split; [lia|].
        rewrite <- (app_nil_r (replicate _ _)).
        change (lit "0") with (replicate 1 "0"%char).
        by rewrite !digits_val_replicate0.
  - rewrite abs64 by done. unfold FormatInt.
    destruct (Z.ltb_spec (Z.abs (value d)) 0); [lia|].
    destruct (FormatUint_spec (Z.abs (value d))) as (Hd & Hne & Hval);
      [int64_unfold; simpl (10 ^ 20); lia|].
    destruct (Z.eqb_spec (scale d) 0) as [Es|Hsz].
    + exists (FormatUint (Z.abs (value d))), []. rewrite !app_nil_r.
      unfold sign_bytes. by destruct (value d <? 0).
    + destruct (pad_zeros_spec (S (Z.to_nat (scale d))) (scale d)
                  (FormatUint (Z.abs (value d)))) as (k & E & Hl); [lia|].
      rewrite E in *. set (ds := replicate k "0"%char ++ FormatUint (Z.abs (value d))) in *.
      set (dp := (length ds - Z.to_nat (scale d))%nat).
      assert (Hall : forallb is_digit (take dp ds ++ drop dp ds) = true).
      { rewrite take_drop. unfold ds. rewrite forallb_app, Hd, forallb_replicate; done. }
      rewrite forallb_app in Hall. bool_to_prop.
      exists (take dp ds), (drop dp ds). rewrite length_drop, take_drop.
      split; [|split; [|split; [done|split; [done|split; [lia|]]]]].
      * unfold sign_bytes. replace (dot_frac (drop dp ds)) with ("."%char :: drop dp ds).
        { by destruct (value d <? 0). }
        destruct (drop dp ds) eqn:Ed; [|done].
        apply (f_equal length) in Ed. rewrite length_drop in Ed. simpl in Ed. lia.
      * intros Et. apply (f_equal length) in Et. rewrite length_take in Et. simpl in Et. lia.
      * unfold ds. by rewrite digits_val_replicate0.
Qed.

Lemma FromString_ToString d :
  wf d -> value d <> min_int64 -> FromString (ToString d) = Ok d.
Proof.
  intros Hwf Hmin. destruct (ToString_parts d Hwf Hmin)
    as (ip & frac & -> & Hip & Hdi & Hdf & Hl & Hv).
  destruct Hwf as [Hin Hs]. unfold MaxScale in Hs.
  rewrite FromString_digits by (try done; rewrite ?Hv; int64_unfold; lia).
  rewrite Hv, Hl. destruct d as [v sc]. simpl in *. f_equal. f_equal. case_if; lia.
Qed.

Lemma ToString_ends d :
  wf d -> value d <> min_int64 ->
  exists c t, ToString d = c :: t /\ plain c = true
    /\ exists e u, rev (ToString d) = e :: u /\ plain e = true.
Proof.
  intros Hwf Hmin. destruct (ToString_parts d Hwf Hmin)
    as (ip & frac & -> & Hip & Hdi & Hdf & _ & _).
  destruct (last_plain_frac ip frac Hip Hdi Hdf) as (s' & e & E & He).
  rewrite E, app_assoc. destruct ip as [|i ip]; [done|].
  assert (Hi : plain i = true) by (simpl in Hdi; bool_to_prop; by apply digit_plain).
  assert (Hc : exists c t, (sign_bytes (value d <? 0) ++ s') ++ [e] = c :: t
                           /\ plain c = true).
  { rewrite <- app_assoc, <- E. destruct (value d <? 0); simpl; eauto. }
  destruct Hc as (c & t & Ec & Hc). exists c, t. split; [done|]. split; [done|].
  exists e, (rev (sign_bytes (value d <? 0) ++ s')). by rewrite rev_app_distr.
Qed.

Lemma trim_left_stop p c s : p c = false -> trim_left p (c :: s) = c :: s.
Proof. simpl. by intros ->. Qed.

Lemma plain_not_dquote c : plain c = true -> Ascii.eqb dquote c = false.
Proof.
  intros H. apply Ascii.eqb_neq. intros <-. discriminate H.
Qed.

Lemma UnmarshalJSON_MarshalJSON d :
  wf d -> value d <> min_int64 -> UnmarshalJSON (MarshalJSON d) = Ok d.
Proof.
  intros Hwf Hmin. destruct (ToString_ends d Hwf Hmin) as (c & t & E & Hc & e & u & Er & He).
  assert (Htrim : trim_both (Ascii.eqb dquote) (MarshalJSON d) = ToString d).
  { unfold trim_both, trim_right, MarshalJSON. cbn [trim_left].
    rewrite Ascii.eqb_refl, E. simpl app.
    rewrite trim_left_stop by (by apply plain_not_dquote).
    change (c :: t ++ [dquote]) with ((c :: t) ++ [dquote]).
    rewrite <- E, rev_app_distr, Er. simpl app. cbn [trim_left].
    rewrite Ascii.eqb_refl, plain_not_dquote by done.
    by rewrite <- Er, rev_involutive. }
  unfold UnmarshalJSON. rewrite Htrim.
  replace (isEmpty (ToString d) || bool_decide (ToString d = lit "null"))%bool with false.
  - by apply FromString_ToString.
  - rewrite E. symmetry. apply bool_decide_eq_false. intros [= -> _]. discriminate Hc.
Qed.

(** C39. Printing and parsing are inverse: for every well-formed decimal whose
    unscaled value is not MinInt64, [FromString] reads [ToString]'s output
    back to the same value and the same scale, and so do the JSON methods. *)
Theorem string_and_json_roundtrip (d : Decimal) :
  wf d -> value d <> min_int64 ->
  FromString (ToString d) = Ok d /\ UnmarshalJSON (MarshalJSON d) = Ok d.
Proof.
  intros Hwf Hmin. split; [by apply FromString_ToString|by apply UnmarshalJSON_MarshalJSON].
Qed.

Lemma string_and_json_roundtrip_witness :
  ToString (New (-5) 3) = lit "-0.005"
  /\ FromString (ToString (New (-5) 3)) = Ok (New (-5) 3).
Proof.
  split; [reflexivity|].
  apply (string_and_json_roundtrip (New (-5) 3)); vm_compute; intuition discriminate.
Defined.

(** MinInt64 is the one value that does not print: its negation
    overflows, so [ToString] emits a doubled minus sign, which [FromString]
    rejects. *)
Theorem ToString_min_int64 :
  ToString (New min_int64 0) = lit "--9223372036854775808"
  /\ FromString (ToString (New min_int64 0)) = Err ErrInvalidFormat.
Proof. split; vm_compute; reflexivity. Qed.

(** ** The type invariant *)

Lemma clamp_range s :
  let s := if s <? 0 then 0 else s in
  let s := if s >? MaxScale then MaxScale else s in 0 <= s <= MaxScale.
Proof. unfold MaxScale. repeat case_if; lia. Qed.

Lemma wf_clamped v s :
  in_int64 v ->
  let s := if s <? 0 then 0 else s in
  let s := if s >? MaxScale then MaxScale else s in wf (MkDecimal v (wrap8 s)).
Proof.
  intros Hv. pose proof (clamp_range s) as Hc. cbv zeta in *.
  split; cbn [value scale]; [done|]. unfold MaxScale in *. rewrite wrap8_id; lia.
Qed.

Lemma f64_to_int64_range f : in_int64 (f64_to_int64 f).
Proof.
  assert (Hmin : in_int64 min_int64) by (int64_unfold; lia).
  destruct f as [s|s| |s m e]; cbn [f64_to_int64]; try exact Hmin.
  - int64_unfold; lia.
  - cbv zeta. case_match eqn:E; [by apply in_int64b_spec|done].
Qed.

Lemma wf_rescale d t : wf d -> t <= MaxScale -> wf (rescale d t).
Proof.
  intros Hwf Ht. unfold rescale. case_if; [done|]. case_if; [done|].
  destruct Hwf as [Hv Hs]. unfold MaxScale in *.
  split; cbn [value scale]; [apply wrap64_range|]. unfold MaxScale. rewrite wrap8_id; lia.
Qed.

Lemma alignScale_wf a b : wf a -> wf b -> wf (alignScale a b).1 /\ wf (alignScale a b).2.
Proof.
  intros Ha Hb. unfold alignScale.
  repeat case_if; simpl; split; try done; apply wf_rescale; try done;
    destruct Ha, Hb; lia.
Qed.

Lemma wf_Round d p : wf d -> wf (Round d p).
Proof.
  intros Hwf. unfold Round. pose proof (clamp_range p) as Hc.
  pose proof (wf_clamped 0 p ltac:(by vm_compute)) as Hw. cbv zeta in *.
  destruct (_ >=? scale d); [apply wf_rescale; [done|lia]|].
  destruct Hw as [_ Hw]. split; [|done]. cbn [value].
  unfold round_digits. case_if; apply quot64_range.
Qed.

Lemma wf_Mul a b : wf (Mul a b).
Proof.
  unfold Mul. destruct (mul_loop _ _ _) as [[av bv] rs].
  pose proof (wf_clamped (wrap64 (av * bv)) rs (wrap64_range _)) as H. cbv zeta in H.
  replace (clampScale rs) with
    (if (if rs <? 0 then 0 else rs) >? MaxScale then MaxScale
     else if rs <? 0 then 0 else rs); [done|].
  unfold clampScale, MaxScale. repeat case_if; lia.
Qed.

Lemma wf_FromString s d : FromString s = Ok d -> wf d.
Proof.
  assert (Hu : forall neg s, parse_unsigned neg s = Ok d -> wf d).
  { intros neg s'. unfold parse_unsigned. case_if; [done|].
    destruct (split_parts s') as [[ip fp]|]; [|done]. case_if; [done|]. case_if; [done|].
    destruct (if _ >? MaxScale then _ else _) as [fp' sc] eqn:E.
    destruct (ParseInt (ip ++ fp')) as [iv|] eqn:Ep; [|done]. intros [= <-].
    assert (Hiv : in_int64 iv).
    { unfold ParseInt in Ep. apply in_int64b_spec.
      repeat (case_match; simplify_eq); done. }
    split; cbn [value scale]; [destruct neg; [apply wrap64_range|done]|].
    unfold MaxScale in *. case_if; simplify_eq; rewrite wrap8_id; lia. }
  unfold FromString. destruct (TrimSpace s); [done|]. repeat case_if; apply Hu.
Qed.

(** C40. The type invariant (an int64 value and a scale in [0, 18]) holds of
    every constructor's and operation's result; parsing any byte string
    either fails or gives a well-formed decimal. *)
Theorem operations_wf (a b : Decimal) (f : float64) (v n : Z) (s : bytes) :
  wf a -> wf b -> in_int64 v ->
  wf (New v n) /\ wf (FromInt v) /\ wf (FromFloat f n)
  /\ (forall d, FromString s = Ok d -> wf d)
  /\ (forall d, UnmarshalJSON s = Ok d -> wf d)
  /\ wf (Add a b) /\ wf (Sub a b) /\ wf (Mul a b) /\ wf (MulRound a b n)
  /\ (forall d, Div a b n = Ok d -> wf d)
  /\ wf (Neg a) /\ wf (Abs a) /\ wf (Round a n)
  /\ wf (Ceiling a) /\ wf (Floor a) /\ wf (Truncate a n).
Proof.
  intros Ha Hb Hv. pose proof Ha as [Hva Hsa]. unfold MaxScale in Hsa.
  destruct (alignScale_wf a b Ha Hb) as [Haa Hab].
  assert (Hz : forall z, in_int64 z -> wf (MkDecimal z 0)).
  { intros z Hz. split; [done|]. unfold MaxScale; simpl; lia. }
  assert (Hs : forall z, in_int64 z -> wf (MkDecimal z (scale a))) by (split; done).
  refine (conj _ (conj _ (conj _ (conj _ (conj _ (conj _ (conj _ (conj _ (conj _ (conj _ (conj _ (conj _ (conj _ (conj _ (conj _ _))))))))))))))).
  - by apply wf_clamped.
  - by apply Hz.
  - apply wf_clamped, f64_to_int64_range.
  - apply wf_FromString.
  - intros d. unfold UnmarshalJSON. case_if; [intros [= <-]; by vm_compute|].
    apply wf_FromString.
  - unfold Add. destruct (alignScale a b). split; [apply wrap64_range|apply Haa].
  - unfold Sub. destruct (alignScale a b). split; [apply wrap64_range|apply Haa].
  - apply wf_Mul.
  - apply wf_Round, wf_Mul.
  - intros d. unfold Div. case_if; [done|]. intros [= <-].
    apply wf_clamped. unfold div_round. repeat case_if; auto with go_int.
  - apply Hs, wrap64_range.
  - unfold Abs. case_if; [apply Hs, wrap64_range|done].
  - by apply wf_Round.
  - unfold Ceiling. case_if; [done|]. apply Hz. case_if; auto with go_int.
  - unfold Floor. case_if; [done|]. apply Hz. case_if; auto with go_int.
  - unfold Truncate. set (p := if n <? 0 then 0 else n).
    assert (0 <= p) by (subst p; case_if; lia).
    case_if; [done|]. split; cbn [value scale]; [apply quot64_range|].
    unfold MaxScale. rewrite wrap8_id; lia.
Qed.

Lemma operations_wf_witness : wf (Mul (New 15 1) (New (-3) 0)).
Proof.
  apply (operations_wf (New 15 1) (New (-3) 0) f1 7 2 (lit "1.5"));
    vm_compute; intuition discriminate.
Defined.
