(* ===== verification/SyncStore.v ===== *)
(** * SyncStore: sync jobs and their store

    The job record of pkg/sync/types/types.go, the [JobStore] interface of
    pkg/sync/job.go as a type class with the laws its clients rely on, and the
    PostgreSQL implementation of pkg/storage/sync_jobs.go as an instance: a
    table keyed by the primary key, each method one atomic SQL statement. *)

From stdpp Require Import base list strings gmap sorting.
From Stdlib Require Import ZArith Lia.
From S2P Require Import Prelude.

Open Scope Z_scope.

(** ** Jobs (pkg/sync/types/types.go) *)

Inductive JobStatus :=
| JobStatusPending | JobStatusRunning | JobStatusCompleted
| JobStatusFailed | JobStatusCancelled | JobStatusRetrying.

Inductive JobType :=
| JobTypeStocks | JobTypeOHLCV | JobTypeOHLCVAll | JobTypeFundamentals
| JobTypeFundamental | JobTypeDividends | JobTypeSplits | JobTypeCalendar
| JobTypeFactors | JobTypeFactor | JobTypeFactorAttr | JobTypeFactorIC
| JobTypeIndexConst.

Definition JobType_string (t : JobType) : string :=
  match t with
  | JobTypeStocks => "stocks" | JobTypeOHLCV => "ohlcv" | JobTypeOHLCVAll => "ohlcv_all"
  | JobTypeFundamentals => "fundamentals" | JobTypeFundamental => "fundamental"
  | JobTypeDividends => "dividends" | JobTypeSplits => "splits"
  | JobTypeCalendar => "calendar" | JobTypeFactors => "factors" | JobTypeFactor => "factor"
  | JobTypeFactorAttr => "factor_attribution" | JobTypeFactorIC => "factor_ic"
  | JobTypeIndexConst => "index_constituents"
  end.

#[global] Instance JobStatus_eq_dec : EqDecision JobStatus.
Proof. solve_decision. Defined.
#[global] Instance JobType_eq_dec : EqDecision JobType.
Proof. solve_decision. Defined.

(** Times are Unix nanoseconds; JSON payloads are their bytes. *)
Record Job := MkJob {
  ID : string;
  jobType : JobType;
  Status : JobStatus;
  Params : string;
  ProgressPercent : Z;
  TotalItems : Z;
  ProcessedItems : Z;
  FailedItems : Z;
  ErrorMessage : string;
  Result : string;
  CreatedAt : Z;
  StartedAt : option Z;
  CompletedAt : option Z;
  RetryCount : Z;
  MaxRetries : Z;
  ScheduledAt : option Z;
  WorkerID : string
}.

#[global] Instance Job_eq_dec : EqDecision Job.
Proof. solve_decision. Defined.

(** Field assignments [job.F = v]. *)
Definition set_Status (v : JobStatus) (j : Job) : Job :=
  MkJob (ID j) (jobType j) v (Params j) (ProgressPercent j) (TotalItems j)
    (ProcessedItems j) (FailedItems j) (ErrorMessage j) (Result j) (CreatedAt j)
    (StartedAt j) (CompletedAt j) (RetryCount j) (MaxRetries j) (ScheduledAt j) (WorkerID j).
Definition set_progress (pct total processed failed : Z) (j : Job) : Job :=
  MkJob (ID j) (jobType j) (Status j) (Params j) pct total processed failed
    (ErrorMessage j) (Result j) (CreatedAt j) (StartedAt j) (CompletedAt j)
    (RetryCount j) (MaxRetries j) (ScheduledAt j) (WorkerID j).
Definition set_ErrorMessage (v : string) (j : Job) : Job :=
  MkJob (ID j) (jobType j) (Status j) (Params j) (ProgressPercent j) (TotalItems j)
    (ProcessedItems j) (FailedItems j) v (Result j) (CreatedAt j)
    (StartedAt j) (CompletedAt j) (RetryCount j) (MaxRetries j) (ScheduledAt j) (WorkerID j).
Definition set_Result (v : string) (j : Job) : Job :=
  MkJob (ID j) (jobType j) (Status j) (Params j) (ProgressPercent j) (TotalItems j)
    (ProcessedItems j) (FailedItems j) (ErrorMessage j) v (CreatedAt j)
    (StartedAt j) (CompletedAt j) (RetryCount j) (MaxRetries j) (ScheduledAt j) (WorkerID j).
Definition set_StartedAt (v : option Z) (j : Job) : Job :=
  MkJob (ID j) (jobType j) (Status j) (Params j) (ProgressPercent j) (TotalItems j)
    (ProcessedItems j) (FailedItems j) (ErrorMessage j) (Result j) (CreatedAt j)
    v (CompletedAt j) (RetryCount j) (MaxRetries j) (ScheduledAt j) (WorkerID j).
Definition set_CompletedAt (v : option Z) (j : Job) : Job :=
  MkJob (ID j) (jobType j) (Status j) (Params j) (ProgressPercent j) (TotalItems j)
    (ProcessedItems j) (FailedItems j) (ErrorMessage j) (Result j) (CreatedAt j)
    (StartedAt j) v (RetryCount j) (MaxRetries j) (ScheduledAt j) (WorkerID j).
Definition set_RetryCount (v : Z) (j : Job) : Job :=
  MkJob (ID j) (jobType j) (Status j) (Params j) (ProgressPercent j) (TotalItems j)
    (ProcessedItems j) (FailedItems j) (ErrorMessage j) (Result j) (CreatedAt j)
    (StartedAt j) (CompletedAt j) v (MaxRetries j) (ScheduledAt j) (WorkerID j).
Definition set_ScheduledAt (v : option Z) (j : Job) : Job :=
  MkJob (ID j) (jobType j) (Status j) (Params j) (ProgressPercent j) (TotalItems j)
    (ProcessedItems j) (FailedItems j) (ErrorMessage j) (Result j) (CreatedAt j)
    (StartedAt j) (CompletedAt j) (RetryCount j) (MaxRetries j) v (WorkerID j).
Definition set_WorkerID (v : string) (j : Job) : Job :=
  MkJob (ID j) (jobType j) (Status j) (Params j) (ProgressPercent j) (TotalItems j)
    (ProcessedItems j) (FailedItems j) (ErrorMessage j) (Result j) (CreatedAt j)
    (StartedAt j) (CompletedAt j) (RetryCount j) (MaxRetries j) (ScheduledAt j) v.

Definition IsTerminal (j : Job) : bool :=
  bool_decide (Status j = JobStatusCompleted)
  || bool_decide (Status j = JobStatusFailed)
  || bool_decide (Status j = JobStatusCancelled).

Definition CanRetry (j : Job) : bool :=
  (RetryCount j <? MaxRetries j)
  && (bool_decide (Status j = JobStatusFailed) || bool_decide (Status j = JobStatusPending)).

Definition UpdateProgress (processed total failed : Z) (j : Job) : Job :=
  let pct := if total >? 0 then quot64 (wrap64 (processed * 100)) total
             else ProgressPercent j in
  set_progress pct total processed failed j.

(** ** The store interface (pkg/sync/job.go) *)

(** A failure of the database. *)
Inductive store_error := EStore.

Class JobStore (S : Type) := {
  st_create : Job -> S -> res store_error unit * S;
  st_get : string -> S -> res store_error (option Job);
  st_update_if : Job -> list JobStatus -> S -> res store_error bool * S;
  st_list : option JobStatus -> Z -> S -> res store_error (list Job);
  st_list_by_type : JobType -> Z -> S -> res store_error (list Job);
  st_delete : string -> S -> res store_error unit * S
}.

(** The row a conditional update leaves: every column but the key, the job
    type and the creation time comes from the caller's copy. *)
Definition updated_row (old j : Job) : Job :=
  MkJob (ID old) (jobType old) (Status j) (Params j) (ProgressPercent j) (TotalItems j)
    (ProcessedItems j) (FailedItems j) (ErrorMessage j) (Result j) (CreatedAt old)
    (StartedAt j) (CompletedAt j) (RetryCount j) (MaxRetries j) (ScheduledAt j) (WorkerID j).

(** What the clients rely on, through the row an identifier names. *)
Class JobStoreLaws (S : Type) `{JobStore S} := {
  row : S -> string -> option Job;
  (** rows are stored under their own key *)
  row_ok : S -> Prop;
  row_key : forall s i j, row_ok s -> row s i = Some j -> ID j = i;
  law_create : forall j s r s', row_ok s -> st_create j s = (r, s') ->
    row_ok s'
    /\ match row s (ID j) with
       | Some _ => r = Err EStore /\ forall i, row s' i = row s i
       | None => r = Ok tt /\ forall i, row s' i = if decide (i = ID j) then Some j else row s i
       end;
  law_get : forall i s, st_get i s = Ok (row s i);
  law_update_if : forall j from s r s',
    row_ok s -> from <> [] -> st_update_if j from s = (r, s') ->
    row_ok s'
    /\ match row s (ID j) with
       | Some old =>
           if decide (Status old ∈ from)
           then r = Ok true
                /\ forall i, row s' i = if decide (i = ID j) then Some (updated_row old j) else row s i
           else r = Ok false /\ forall i, row s' i = row s i
       | None => r = Ok false /\ forall i, row s' i = row s i
       end;
  law_list : forall st n s, row_ok s -> exists l, st_list st n s = Ok l
    /\ (forall j, j ∈ l -> row s (ID j) = Some j /\ (forall x, st = Some x -> Status j = x))
    /\ NoDup (ID <$> l)
    /\ (0 < n -> l = [] -> forall i j, row s i = Some j -> exists x, st = Some x /\ Status j <> x);
  law_delete : forall i s r s', row_ok s -> st_delete i s = (r, s') ->
    row_ok s' /\ forall k, row s' k = if decide (k = i) then None else row s k
}.

(** ** The PostgreSQL table (pkg/storage/sync_jobs.go) *)

Abbreviation PgStore := (gmap string Job).

Definition CreateSyncJob (job : Job) (t : PgStore) : res store_error unit * PgStore :=
  match t !! ID job with
  | Some _ => (Err EStore, t)
  | None => (Ok tt, <[ID job := job]> t)
  end.

Definition GetSyncJob (jobID : string) (t : PgStore) : res store_error (option Job) :=
  Ok (t !! jobID).

Definition UpdateSyncJobIfStatus (job : Job) (from : list JobStatus) (t : PgStore)
    : res store_error bool * PgStore :=
  match from with
  | [] => (Err EStore, t)
  | _ =>
      match t !! ID job with
      | Some old =>
          if bool_decide (Status old ∈ from)
          then (Ok true, <[ID job := updated_row old job]> t)
          else (Ok false, t)
      | None => (Ok false, t)
      end
  end.

(** [ORDER BY created_at DESC]. *)
Definition newer (a b : Job) : Prop := CreatedAt b <= CreatedAt a.
#[global] Instance newer_dec a b : Decision (newer a b).
Proof. unfold newer. apply _. Defined.
#[global] Instance newer_total : Total newer.
Proof. intros a b. unfold newer. lia. Qed.
#[global] Instance newer_trans : Transitive newer.
Proof. intros a b c. unfold newer. lia. Qed.

Definition select_jobs (p : Job -> bool) (limit : Z) (t : PgStore) : list Job :=
  take (Z.to_nat limit)
    (merge_sort newer (filter (fun j => p j = true) ((map_to_list t).*2))).

Definition ListSyncJobs (status : option JobStatus) (limit : Z) (t : PgStore)
    : res store_error (list Job) :=
  match status with
  | None => Ok (select_jobs (fun _ => true) limit t)
  | Some st => Ok (select_jobs (fun j => bool_decide (Status j = st)) limit t)
  end.

Definition ListSyncJobsByType (jt : JobType) (limit : Z) (t : PgStore)
    : res store_error (list Job) :=
  Ok (select_jobs (fun j => bool_decide (jobType j = jt)) limit t).

Definition DeleteSyncJob (jobID : string) (t : PgStore) : res store_error unit * PgStore :=
  match t !! jobID with
  | Some _ => (Ok tt, delete jobID t)
  | None => (Err EStore, t)
  end.

#[global] Instance PgStore_JobStore : JobStore PgStore := {
  st_create := CreateSyncJob;
  st_get := GetSyncJob;
  st_update_if := UpdateSyncJobIfStatus;
  st_list := ListSyncJobs;
  st_list_by_type := ListSyncJobsByType;
  st_delete := DeleteSyncJob
}.

(** ** The table satisfies the interface *)

Definition keyed (t : PgStore) : Prop := forall i j, t !! i = Some j -> ID j = i.

Lemma keyed_insert t j : keyed t -> keyed (<[ID j := j]> t).
Proof.
  intros Hk i j'. rewrite lookup_insert. case_decide; [naive_solver|]. apply Hk.
Qed.

Lemma keyed_empty : keyed ∅.
Proof. intros i j. by rewrite lookup_empty. Qed.

Lemma elem_of_select p n t j :
  j ∈ select_jobs p n t -> p j = true /\ exists i, t !! i = Some j.
Proof.
  unfold select_jobs. intros H. apply elem_of_take in H as (k & Hk & _).
  apply list_elem_of_lookup_2 in Hk. rewrite merge_sort_Permutation in Hk.
  apply list_elem_of_filter in Hk as [Hp Hin]. split; [done|].
  apply list_elem_of_fmap in Hin as ([i j'] & -> & Hin).
  exists i. by apply elem_of_map_to_list in Hin.
Qed.

Lemma select_nil p n t :
  0 < n -> select_jobs p n t = [] -> forall i j, t !! i = Some j -> p j = false.
Proof.
  unfold select_jobs. intros Hn H i j Hij. destruct (p j) eqn:Hp; [|done].
  assert (Hin : j ∈ merge_sort newer (filter (fun j => p j = true) ((map_to_list t).*2))).
  { rewrite merge_sort_Permutation. apply list_elem_of_filter. split; [done|].
    apply list_elem_of_fmap. exists (i, j). split; [done|]. by apply elem_of_map_to_list. }
  destruct (merge_sort _ _) as [|x l]; [by apply not_elem_of_nil in Hin|].
  destruct (Z.to_nat n) eqn:E; [lia|]. discriminate H.
Qed.

Lemma fst_keys t : keyed t -> ID <$> (map_to_list t).*2 = (map_to_list t).*1.
Proof.
  intros Hk. rewrite <- list_fmap_compose. apply list_fmap_ext.
  intros n [i j] Hn. simpl. apply Hk. apply elem_of_map_to_list.
  by apply list_elem_of_lookup_2 in Hn.
Qed.

Lemma select_NoDup p n t : keyed t -> NoDup (ID <$> select_jobs p n t).
Proof.
  intros Hk. unfold select_jobs. rewrite fmap_take.
  eapply sublist_NoDup; [|apply sublist_take].
  rewrite merge_sort_Permutation.
  assert (Hs : sublist (ID <$> filter (fun j => p j = true) ((map_to_list t).*2))
                 (ID <$> (map_to_list t).*2)).
  { apply fmap_sublist. apply sublist_filter. }
  eapply sublist_NoDup; [|exact Hs]. rewrite fst_keys by done.
  apply NoDup_fst_map_to_list.
Qed.

#[global] Program Instance PgStore_Laws : JobStoreLaws PgStore := {|
  row := fun t i => t !! i;
  row_ok := keyed
|}.
Next Obligation. intros s i j Hk H. by apply Hk. Qed.
Next Obligation.
  intros j s r s' Hk. unfold st_create; simpl. unfold CreateSyncJob.
  destruct (s !! ID j) eqn:E; intros [= <- <-]; [done|].
  split; [by apply keyed_insert|]. split; [done|]. intros i. rewrite lookup_insert.
  repeat case_decide; naive_solver.
Qed.
Next Obligation. done. Qed.
Next Obligation.
  intros j from s r s' Hk Hf. unfold st_update_if; simpl. unfold UpdateSyncJobIfStatus.
  destruct from as [|f from]; [done|].
  destruct (s !! ID j) as [old|] eqn:E; [|by intros [= <- <-]].
  case_bool_decide as Hin; intros [= <- <-].
  - rewrite decide_True by done. split.
    + intros i j'. rewrite lookup_insert. case_decide; [|by apply Hk].
      intros [= <-]. simpl. rewrite (Hk _ _ E). naive_solver.
    + split; [done|]. intros i. rewrite lookup_insert. repeat case_decide; naive_solver.
  - by rewrite decide_False by done.
Qed.
Next Obligation.
  intros st n s Hk. unfold st_list; simpl. unfold ListSyncJobs.
  destruct st as [x|]; eexists; (split; [reflexivity|]); (split; [|split]).
  - intros j Hj. apply elem_of_select in Hj as [Hp (i & Hi)].
    apply bool_decide_eq_true in Hp. rewrite (Hk _ _ Hi). naive_solver.
  - by apply select_NoDup.
  - intros Hn Hl i j Hij. exists x. split; [done|].
    apply (select_nil _ _ _ Hn Hl) in Hij. by apply bool_decide_eq_false in Hij.
  - intros j Hj. apply elem_of_select in Hj as [_ (i & Hi)]. rewrite (Hk _ _ Hi). naive_solver.
  - by apply select_NoDup.
  - intros Hn Hl i j Hij. by apply (select_nil _ _ _ Hn Hl) in Hij.
Qed.
Next Obligation.
  intros i s r s' Hk. unfold st_delete; simpl. unfold DeleteSyncJob.
  destruct (s !! i) as [old|] eqn:E; intros [= <- <-].
  - split.
    + intros k j. rewrite lookup_delete. case_decide; [done|]. apply Hk.
    + intros k. rewrite lookup_delete. repeat case_decide; naive_solver.
  - split; [done|]. intros k. case_decide; naive_solver.
Qed.

(** ** Order of the listing *)

Lemma select_head_newest p n t j l :
  select_jobs p n t = j :: l ->
  forall i j', t !! i = Some j' -> p j' = true -> CreatedAt j' <= CreatedAt j.
Proof.
  unfold select_jobs. intros H i j' Hi Hp.
  assert (Hin : j' ∈ merge_sort newer (filter (fun j => p j = true) ((map_to_list t).*2))).
  { rewrite merge_sort_Permutation. apply list_elem_of_filter. split; [done|].
    apply list_elem_of_fmap. exists (i, j'). split; [done|]. by apply elem_of_map_to_list. }
  assert (Hs : StronglySorted newer
                 (merge_sort newer (filter (fun j => p j = true) ((map_to_list t).*2))))
    by (apply StronglySorted_merge_sort; apply _).
  destruct (merge_sort _ _) as [|x xs].
  { by rewrite take_nil in H. }
  destruct (Z.to_nat n); [done|]. simpl in H. injection H as -> _.
  apply elem_of_cons in Hin as [->|Hin]; [lia|].
  inversion Hs as [|? ? ? Hall]; subst. rewrite Forall_forall in Hall.
  by apply Hall.
Qed.
