(* ===== verification/SyncQueue.v ===== *)
(** * SyncQueue: the sync job queue, job service and worker pool

    Each method of pkg/sync (queue.go, job.go, worker.go) is a program over the
    atomic effects it performs: one store statement, one clock reading, one
    channel or registry operation. Run alone, a program gives the method's
    sequential behaviour; in a pool, [pstep] interleaves programs effect by
    effect, the way goroutines and other processes do. The store is any
    implementation of the interface of SyncStore; a database fault may strike
    any statement, before or after it took effect. *)

From stdpp Require Import base list strings gmap sorting.
From Stdlib Require Import ZArith Lia.
From S2P Require Import Prelude SyncStore.

Open Scope Z_scope.

(** ** Errors of the queue and the service *)

Inductive qerror :=
| QStore                                  (** wrapped store failure *)
| QMarshal                                (** json.Marshal failed *)
| QJobNotFound (id : string)
| QTerminal (st : JobStatus)
| QCannotRetry (st : JobStatus) (retries maxRetries : Z)
| QConcurrent (id : string).

(** ** Programs *)

Inductive prog (A : Type) : Type :=
| Ret (a : A)
| PCreate (j : Job) (k : res store_error unit -> prog A)
| PGet (i : string) (k : res store_error (option Job) -> prog A)
| PUpdateIf (j : Job) (from : list JobStatus) (k : res store_error bool -> prog A)
| PList (st : option JobStatus) (limit : Z) (k : res store_error (list Job) -> prog A)
| PListByType (jt : JobType) (limit : Z) (k : res store_error (list Job) -> prog A)
| PNow (k : Z -> prog A)
| PUuid (k : string -> prog A)
| PNotify (k : prog A)
| PSubscribe (k : nat -> prog A)
| PUnsubscribe (ch : nat) (k : prog A)
| PSelect (ch ctx : nat) (k : bool -> prog A)
| PNewCtx (k : nat -> prog A)
| PCancelCtx (ctx : nat) (k : prog A)
| PCtxErr (ctx : nat) (k : bool -> prog A)
| PRegister (i : string) (ctx : nat) (k : prog A)
| PUnregister (i : string) (ctx : nat) (k : prog A)
| PCancelRun (i : string) (k : bool -> prog A).
Arguments Ret {A}. Arguments PCreate {A}. Arguments PGet {A}. Arguments PUpdateIf {A}.
Arguments PList {A}. Arguments PListByType {A}. Arguments PNow {A}. Arguments PUuid {A}.
Arguments PNotify {A}. Arguments PSubscribe {A}. Arguments PUnsubscribe {A}.
Arguments PSelect {A}. Arguments PNewCtx {A}. Arguments PCancelCtx {A}.
Arguments PCtxErr {A}. Arguments PRegister {A}. Arguments PUnregister {A}.
Arguments PCancelRun {A}.

Fixpoint bind {A B} (p : prog A) (f : A -> prog B) : prog B :=
  match p with
  | Ret a => f a
  | PCreate j k => PCreate j (fun r => bind (k r) f)
  | PGet i k => PGet i (fun r => bind (k r) f)
  | PUpdateIf j from k => PUpdateIf j from (fun r => bind (k r) f)
  | PList st n k => PList st n (fun r => bind (k r) f)
  | PListByType jt n k => PListByType jt n (fun r => bind (k r) f)
  | PNow k => PNow (fun r => bind (k r) f)
  | PUuid k => PUuid (fun r => bind (k r) f)
  | PNotify k => PNotify (bind k f)
  | PSubscribe k => PSubscribe (fun r => bind (k r) f)
  | PUnsubscribe ch k => PUnsubscribe ch (bind k f)
  | PSelect ch c k => PSelect ch c (fun r => bind (k r) f)
  | PNewCtx k => PNewCtx (fun r => bind (k r) f)
  | PCancelCtx c k => PCancelCtx c (bind k f)
  | PCtxErr c k => PCtxErr c (fun r => bind (k r) f)
  | PRegister i c k => PRegister i c (bind k f)
  | PUnregister i c k => PUnregister i c (bind k f)
  | PCancelRun i k => PCancelRun i (fun r => bind (k r) f)
  end.

Declare Scope prog_scope.
Delimit Scope prog_scope with prog.
Notation "x <- p ;; q" := (bind p (fun x => q))
  (at level 100, p at next level, right associativity) : prog_scope.
Open Scope prog_scope.

(** ** The queue (pkg/sync/queue.go) *)

Definition Enqueue (job : Job) : prog (res qerror unit) :=
  PCreate job (fun r => match r with
                        | Err _ => Ret (Err QStore)
                        | Ok _ => PNotify (Ret (Ok tt))
                        end).

(** The claim half of [Dequeue]: the conditional write and its outcomes. *)
Definition dequeue_claim (job : Job) : prog (res qerror (option Job)) :=
  PUpdateIf job [JobStatusPending] (fun r =>
    match r with
    | Err _ => Ret (Err QStore)
    | Ok claimed => if negb claimed then Ret (Ok None) else Ret (Ok (Some job))
    end).

Definition Dequeue : prog (res qerror (option Job)) :=
  PList (Some JobStatusPending) 1 (fun r =>
    match r with
    | Err _ => Ret (Err QStore)
    | Ok [] => Ret (Ok None)
    | Ok (job :: _) =>
        let job := set_Status JobStatusRunning job in
        PNow (fun now =>
          let job := set_StartedAt (Some now) job in
          dequeue_claim job)
    end).

Definition Peek : prog (res qerror (option Job)) :=
  PList (Some JobStatusPending) 1 (fun r =>
    match r with
    | Err _ => Ret (Err QStore)
    | Ok [] => Ret (Ok None)
    | Ok (job :: _) => Ret (Ok (Some job))
    end).

(** The queue's writers all answer whether the row was theirs to write. *)
Definition update_running {A} (job : Job) (k : res qerror bool -> prog A) : prog A :=
  PUpdateIf job [JobStatusRunning] (fun r =>
    match r with Err _ => k (Err QStore) | Ok applied => k (Ok applied) end).

Definition UpdateRunningJob (job : Job) : prog (res qerror bool) :=
  update_running job Ret.

Definition CompleteJob (job : Job) (result : string) : prog (res qerror bool) :=
  let job := set_Status JobStatusCompleted job in
  PNow (fun now =>
    let job := set_CompletedAt (Some now) job in
    let job := set_Result result job in
    let job := set_progress 100 (TotalItems job) (ProcessedItems job) (FailedItems job) job in
    update_running job Ret).

Definition FailJob (job : Job) (errMsg : string) : prog (res qerror bool) :=
  let job := set_Status JobStatusFailed job in
  let job := set_ErrorMessage errMsg job in
  PNow (fun now =>
    let job := set_CompletedAt (Some now) job in
    update_running job Ret).

(** [time.Duration(1<<uint(n)) * 5 * time.Second] in nanoseconds, at int64
    width: a shift by 64 or more is 0. *)
Definition backoff (n : Z) : Z :=
  wrap64 (wrap64 (wrap64 (if n <? 64 then 2 ^ n else 0) * 5) * 1000000000).

Definition RetryLater (job : Job) (errMsg : string) : prog (res qerror bool) :=
  let job := set_RetryCount (wrap64 (RetryCount job + 1)) job in
  if RetryCount job >? MaxRetries job
  then FailJob job ("max retries exceeded: " +:+ errMsg)
  else
    let job := set_Status JobStatusPending job in
    let job := set_ErrorMessage errMsg job in
    PNow (fun now =>
      let job := set_ScheduledAt (Some (now + backoff (RetryCount job))) job in
      update_running job Ret).

Definition GetJob (jobID : string) : prog (res store_error (option Job)) := PGet jobID Ret.

Definition CountPending : prog (res store_error Z) :=
  PList (Some JobStatusPending) 1000 (fun r =>
    match r with Err e => Ret (Err e) | Ok jobs => Ret (Ok (Z.of_nat (length jobs))) end).

Definition stale_message : string :=
  "interrupted by a service restart (AUD-50 stale-running cleanup); " +:+
  "the worker pool only dequeues `pending`, so this row would otherwise stay `running` forever".

(** The loop of [CleanupStaleRunning]: an error or a lost row skips the job. *)
Fixpoint cleanup_loop (jobs : list Job) (transitioned : Z) : prog (res qerror Z) :=
  match jobs with
  | [] => Ret (Ok transitioned)
  | job :: rest =>
      PNow (fun now =>
        let job := set_Status JobStatusFailed job in
        let job := set_CompletedAt (Some now) job in
        let job := set_ErrorMessage stale_message job in
        PUpdateIf job [JobStatusRunning] (fun r =>
          match r with
          | Err _ => cleanup_loop rest transitioned
          | Ok applied => if negb applied then cleanup_loop rest transitioned
                          else cleanup_loop rest (transitioned + 1)
          end))
  end.

Definition CleanupStaleRunning : prog (res qerror Z) :=
  PList (Some JobStatusRunning) 1000 (fun r =>
    match r with
    | Err _ => Ret (Err QStore)
    | Ok jobs => cleanup_loop jobs 0
    end).

Definition WaitForJob (ctx : nat) : prog bool :=
  PSubscribe (fun ch =>
    pending <- CountPending ;;
    if (match pending with Ok n => n >? 0 | Err _ => false end)
    then PUnsubscribe ch (Ret true)
    else PSelect ch ctx (fun b => PUnsubscribe ch (Ret b))).

(** ** The job service (pkg/sync/job.go) *)

(** The optional callbacks [SetPendingNotifier] and [SetRunningCanceller]
    install; wired to the queue's notifier and the pool's canceller. *)
Record JobService := { onPending : bool; onCancelRun : bool }.

Definition notifyPending {A} (s : JobService) (k : prog A) : prog A :=
  if onPending s then PNotify k else k.

(** [params] is the marshalled payload, [None] when json.Marshal fails. *)
Definition CreateJob (s : JobService) (jt : JobType) (params : option string)
    : prog (res qerror Job) :=
  match params with
  | None => Ret (Err QMarshal)
  | Some paramsJSON =>
      PUuid (fun id => PNow (fun now =>
        let job := MkJob id jt JobStatusPending paramsJSON 0 0 0 0 "" "" now
                     None None 0 3 None "" in
        PCreate job (fun r =>
          match r with
          | Err _ => Ret (Err QStore)
          | Ok _ => notifyPending s (Ret (Ok job))
          end)))
  end.

Definition ServiceGetJob (jobID : string) : prog (res qerror (option Job)) :=
  PGet jobID (fun r => match r with Err _ => Ret (Err QStore) | Ok j => Ret (Ok j) end).

Definition ListJobs (status : option JobStatus) (limit : Z) : prog (res store_error (list Job)) :=
  let limit := if limit <=? 0 then 20 else limit in PList status limit Ret.

Definition ListJobsByType (jt : JobType) (limit : Z) : prog (res store_error (list Job)) :=
  let limit := if limit <=? 0 then 20 else limit in PListByType jt limit Ret.

Definition CancelJob (s : JobService) (jobID : string) : prog (res qerror unit) :=
  PGet jobID (fun r =>
    match r with
    | Err _ => Ret (Err QStore)
    | Ok None => Ret (Err (QJobNotFound jobID))
    | Ok (Some job) =>
        if IsTerminal job then Ret (Err (QTerminal (Status job)))
        else
          let wasRunning := bool_decide (Status job = JobStatusRunning) in
          let job := set_Status JobStatusCancelled job in
          PNow (fun now =>
            let job := set_CompletedAt (Some now) job in
            PUpdateIf job [JobStatusPending; JobStatusRunning] (fun r =>
              match r with
              | Err _ => Ret (Err QStore)
              | Ok applied =>
                  if negb applied then
                    PGet jobID (fun r =>
                      match r with
                      | Ok (Some current) => Ret (Err (QTerminal (Status current)))
                      | _ => Ret (Err (QConcurrent jobID))
                      end)
                  else if wasRunning && onCancelRun s
                  then PCancelRun jobID (fun _ => Ret (Ok tt))
                  else Ret (Ok tt)
              end))
    end).

Definition RetryJob (s : JobService) (jobID : string) : prog (res qerror Job) :=
  PGet jobID (fun r =>
    match r with
    | Err _ => Ret (Err QStore)
    | Ok None => Ret (Err (QJobNotFound jobID))
    | Ok (Some job) =>
        if negb (CanRetry job)
        then Ret (Err (QCannotRetry (Status job) (RetryCount job) (MaxRetries job)))
        else
          let fromStatus := Status job in
          let job := set_Status JobStatusPending job in
          let job := set_RetryCount (wrap64 (RetryCount job + 1)) job in
          let job := set_ErrorMessage "" job in
          let job := set_progress 0 (TotalItems job) 0 0 job in
          let job := set_WorkerID "" job in
          PUpdateIf job [fromStatus] (fun r =>
            match r with
            | Err _ => Ret (Err QStore)
            | Ok applied => if negb applied then Ret (Err (QConcurrent jobID))
                            else notifyPending s (Ret (Ok job))
            end)
    end).

(** ** The worker pool (pkg/sync/worker.go) *)

(** What an executor does with a job: a sequence of progress reports, then a
    result, an error or a panic. The result is nil, marshals, or fails to. *)
Inductive report :=
| RProgress (processed total failed : Z)
| RError (errMsg : string).

Inductive exec_outcome :=
| ExecNil
| ExecResult (json : string)
| ExecUnmarshalable (err : string)
| ExecErr (err : string)
| ExecPanic (what : string).

Abbreviation executors := (JobType -> option (Job -> list report * exec_outcome)).

(** [persist]: write the progress, whatever comes of it. *)
Definition persist {A} (job : Job) (k : prog A) : prog A :=
  _ <- UpdateRunningJob job ;; k.

(** [ReportProgress], at most one write a second, and [ReportError]. *)
Definition report_step {A} (r : report) (job : Job) (lastReport : option Z)
    (k : Job -> option Z -> prog A) : prog A :=
  match r with
  | RProgress processed total failed =>
      PNow (fun now =>
        if (match lastReport with Some t => now - t <? 1000000000 | None => false end)
        then k job lastReport
        else PNow (fun now' =>
               let job := UpdateProgress processed total failed job in
               persist job (k job (Some now'))))
  | RError errMsg =>
      let job := set_ErrorMessage errMsg job in
      let job := set_progress (ProgressPercent job) (TotalItems job) (ProcessedItems job)
                   (wrap64 (FailedItems job + 1)) job in
      persist job (k job lastReport)
  end.

Fixpoint run_reports (rs : list report) (job : Job) (lastReport : option Z)
    (k : Job -> prog unit) : prog unit :=
  match rs with
  | [] => k job
  | r :: rs' => report_step r job lastReport (fun job last => run_reports rs' job last k)
  end.

(** [FailJob] with its error only logged. *)
Definition fail_logged (job : Job) (msg : string) : prog unit :=
  _ <- FailJob job msg ;; Ret tt.

Definition processJob (ex : executors) (ctx : nat) (job : Job) : prog unit :=
  match ex (jobType job) with
  | None => fail_logged job ("no executor registered for job type: "
                               +:+ JobType_string (jobType job))
  | Some execute =>
      let '(reports, outcome) := execute job in
      run_reports reports job None (fun job =>
        match outcome with
        | ExecPanic what =>
            PCtxErr ctx (fun done => if done then Ret tt
                                     else fail_logged job ("executor panic: " +:+ what))
        | ExecErr err =>
            PCtxErr ctx (fun done =>
              if done then Ret tt
              else if RetryCount job <? MaxRetries job
                   then _ <- RetryLater job err ;; Ret tt
                   else fail_logged job err)
        | ExecUnmarshalable err =>
            fail_logged job ("failed to marshal result: " +:+ err)
        | ExecNil => _ <- CompleteJob job "" ;; Ret tt
        | ExecResult json => _ <- CompleteJob job json ;; Ret tt
        end)
  end.

(** The pool's own context, cancelled by [Stop]; job contexts are its
    children. *)
Definition pool_ctx : nat := 0.

(** One turn of [workerLoop]; the answer says whether the loop goes on. *)
Definition worker_turn (ex : executors) (workerID : string) : prog bool :=
  PCtxErr pool_ctx (fun done =>
    if done then Ret false
    else PNewCtx (fun ctx =>
      r <- Dequeue ;;
      match r with
      | Err _ => PCancelCtx ctx (Ret true)
      | Ok None => PCancelCtx ctx (WaitForJob pool_ctx)
      | Ok (Some job) =>
          let job := set_WorkerID workerID job in
          PRegister (ID job) ctx (
            _ <- processJob ex ctx job ;;
            PUnregister (ID job) ctx (PCancelCtx ctx (Ret true)))
      end)).

(** [Stop] cancels the pool context. *)
Definition Stop : prog unit := PCancelCtx pool_ctx (Ret tt).

(** ** Execution *)

(** A database fault strikes a statement before or after its effect. *)
Inductive fault := NoFault | FailBefore | FailAfter.

(** What the environment supplies to one effect. *)
Record input := { flt_in : fault; now_in : Z; uuid_in : string }.

Section Semantics.
Context {S : Type} {store_ops : JobStore S} {store_laws : JobStoreLaws S}.

Record world := MkWorld {
  store : S;
  (** subscribed channels, each with a one-slot buffer *)
  notifiers : gmap nat bool;
  next_chan : nat;
  running : gmap string nat;
  cancelled : gset nat;
  next_ctx : nat
}.

Definition set_store (s : S) (w : world) : world :=
  MkWorld s (notifiers w) (next_chan w) (running w) (cancelled w) (next_ctx w).
Definition set_notifiers (n : gmap nat bool) (w : world) : world :=
  MkWorld (store w) n (next_chan w) (running w) (cancelled w) (next_ctx w).
Definition set_running (r : gmap string nat) (w : world) : world :=
  MkWorld (store w) (notifiers w) (next_chan w) r (cancelled w) (next_ctx w).

Definition ctx_done (w : world) (ctx : nat) : bool :=
  bool_decide (ctx ∈ cancelled w) || bool_decide (pool_ctx ∈ cancelled w).

(** A writing statement under a fault. *)
Definition with_fault {R} (f : fault) (stmt : S -> res store_error R * S) (s : S)
    : res store_error R * S :=
  match f with
  | NoFault => stmt s
  | FailBefore => (Err EStore, s)
  | FailAfter => (Err EStore, (stmt s).2)
  end.

(** A reading statement under a fault. *)
Definition with_fault_read {R} (f : fault) (r : res store_error R) : res store_error R :=
  match f with NoFault => r | _ => Err EStore end.

(** [notify]: a non-blocking send to every subscriber. *)
Definition notify (w : world) : world := set_notifiers ((fun _ => true) <$> notifiers w) w.

Definition Subscribe (w : world) : nat * world :=
  (next_chan w,
   MkWorld (store w) (<[next_chan w := false]> (notifiers w)) (Datatypes.S (next_chan w))
     (running w) (cancelled w) (next_ctx w)).

Definition Unsubscribe (ch : nat) (w : world) : world :=
  set_notifiers (delete ch (notifiers w)) w.

Definition registerRunning (i : string) (ctx : nat) (w : world) : world :=
  set_running (<[i := ctx]> (running w)) w.

Definition unregisterRunning (i : string) (ctx : nat) (w : world) : world :=
  if bool_decide (running w !! i = Some ctx) then set_running (delete i (running w)) w else w.

Definition cancel_ctx (ctx : nat) (w : world) : world :=
  MkWorld (store w) (notifiers w) (next_chan w) (running w) ({[ctx]} ∪ cancelled w) (next_ctx w).

(** [WorkerPool.Cancel]. *)
Definition Cancel (i : string) (w : world) : bool * world :=
  match running w !! i with
  | None => (false, w)
  | Some ctx => (true, cancel_ctx ctx w)
  end.

(** One effect. [None]: the program is finished, or blocked on a select with
    no token and a live context. *)
Definition astep {A} (e : input) (p : prog A) (w : world) : option (prog A * world) :=
  match p with
  | Ret _ => None
  | PCreate j k => let '(r, s) := with_fault (flt_in e) (st_create j) (store w) in
                   Some (k r, set_store s w)
  | PGet i k => Some (k (with_fault_read (flt_in e) (st_get i (store w))), w)
  | PUpdateIf j from k =>
      let '(r, s) := with_fault (flt_in e) (st_update_if j from) (store w) in
      Some (k r, set_store s w)
  | PList st n k => Some (k (with_fault_read (flt_in e) (st_list st n (store w))), w)
  | PListByType jt n k =>
      Some (k (with_fault_read (flt_in e) (st_list_by_type jt n (store w))), w)
  | PNow k => Some (k (now_in e), w)
  | PUuid k => Some (k (uuid_in e), w)
  | PNotify k => Some (k, notify w)
  | PSubscribe k => let '(ch, w') := Subscribe w in Some (k ch, w')
  | PUnsubscribe ch k => Some (k, Unsubscribe ch w)
  | PSelect ch ctx k =>
      match notifiers w !! ch with
      | Some true => Some (k true, set_notifiers (<[ch := false]> (notifiers w)) w)
      | _ => if ctx_done w ctx then Some (k false, w) else None
      end
  | PNewCtx k =>
      Some (k (Datatypes.S (next_ctx w)),
            MkWorld (store w) (notifiers w) (next_chan w) (running w) (cancelled w)
              (Datatypes.S (next_ctx w)))
  | PCancelCtx ctx k => Some (k, cancel_ctx ctx w)
  | PCtxErr ctx k => Some (k (ctx_done w ctx), w)
  | PRegister i ctx k => Some (k, registerRunning i ctx w)
  | PUnregister i ctx k => Some (k, unregisterRunning i ctx w)
  | PCancelRun i k => let '(b, w') := Cancel i w in Some (k b, w')
  end.

(** Sequential runs: effects supplied with the inputs of a list. *)
Fixpoint run {A} (es : list input) (p : prog A) (w : world) : option (A * world) :=
  match p with
  | Ret a => Some (a, w)
  | _ => match es with
         | [] => None
         | e :: es' => match astep e p w with
                       | Some (p', w') => run es' p' w'
                       | None => None
                       end
         end
  end.

(** Interleaved runs of a pool of programs: any thread may take its next
    effect, and a new thread of a given kind may start. *)
Inductive pstep {A} (kind : prog A -> Prop) : world * list (prog A) -> world * list (prog A) -> Prop :=
| pstep_run w ts i p e p' w' :
    ts !! i = Some p -> astep e p w = Some (p', w') ->
    pstep kind (w, ts) (w', <[i := p']> ts)
| pstep_spawn w ts p :
    kind p -> pstep kind (w, ts) (w, ts ++ [p]).

Inductive reachable {A} (kind : prog A -> Prop) (c : world * list (prog A))
    : world * list (prog A) -> Prop :=
| reach_refl : reachable kind c c
| reach_step c1 c2 : reachable kind c c1 -> pstep kind c1 c2 -> reachable kind c c2.

Lemma reachable_invariant {A} (kind : prog A -> Prop) (Inv : world * list (prog A) -> Prop) c c' :
  Inv c -> (forall c1 c2, Inv c1 -> pstep kind c1 c2 -> Inv c2) ->
  reachable kind c c' -> Inv c'.
Proof. intros H0 Hs Hr. induction Hr; eauto. Qed.

(** ** Settled rows are final *)

(** The statuses nothing moves a row out of. *)
Definition settled (st : JobStatus) : Prop :=
  st = JobStatusCompleted \/ st = JobStatusCancelled.

(** Every conditional write a program may ever issue names its source
    statuses, none of them settled. *)
Fixpoint respects_settled {A} (p : prog A) : Prop :=
  match p with
  | Ret _ => True
  | PUpdateIf j from k =>
      from <> [] /\ (forall st, st ∈ from -> ~ settled st) /\ forall r, respects_settled (k r)
  | PCreate _ k => forall r, respects_settled (k r)
  | PGet _ k => forall r, respects_settled (k r)
  | PList _ _ k | PListByType _ _ k => forall r, respects_settled (k r)
  | PNow k => forall r, respects_settled (k r)
  | PUuid k => forall r, respects_settled (k r)
  | PSubscribe k | PNewCtx k => forall r, respects_settled (k r)
  | PSelect _ _ k | PCtxErr _ k | PCancelRun _ k => forall r, respects_settled (k r)
  | PNotify k | PUnsubscribe _ k | PCancelCtx _ k | PRegister _ _ k | PUnregister _ _ k =>
      respects_settled k
  end.

Lemma respects_bind {A B} (p : prog A) (f : A -> prog B) :
  respects_settled p -> (forall a, respects_settled (f a)) -> respects_settled (bind p f).
Proof. induction p; simpl; naive_solver. Qed.


(** The effect of one step on the rows, through the interface laws. *)
Lemma with_fault_create f j s r s' i :
  row_ok s -> with_fault f (st_create j) s = (r, s') ->
  row_ok s' /\ (row s i <> None -> row s' i = row s i).
Proof.
  intros Hok. unfold with_fault. destruct (st_create j s) as [r0 s0] eqn:E.
  destruct (law_create j s r0 s0 Hok E) as [Hok' Hc].
  assert (Hrow : row s i <> None -> row s0 i = row s i).
  { intros Hi. destruct (row s (ID j)) eqn:Ej.
    - apply Hc.
    - destruct Hc as [_ ->]. case_decide; naive_solver. }
  destruct f; intros [= <- <-]; auto.
Qed.

(** What a conditional write does to the row of an identifier: nothing, or
    the update of a row whose status was allowed. *)
Lemma with_fault_update f j from s r s' i :
  row_ok s -> from <> [] -> with_fault f (st_update_if j from) s = (r, s') ->
  row_ok s'
  /\ (row s' i = row s i
      \/ exists old, i = ID j /\ row s i = Some old /\ Status old ∈ from
                     /\ row s' i = Some (updated_row old j))
  /\ (r = Ok true -> exists old, row s (ID j) = Some old /\ Status old ∈ from
                               /\ row s' (ID j) = Some (updated_row old j)).
Proof.
  intros Hok Hne. unfold with_fault. destruct (st_update_if j from s) as [r0 s0] eqn:E.
  destruct (law_update_if j from s r0 s0 Hok Hne E) as [Hok' Hu].
  assert (Hmain : (row s0 i = row s i
      \/ exists old, i = ID j /\ row s i = Some old /\ Status old ∈ from
                     /\ row s0 i = Some (updated_row old j))
    /\ (r0 = Ok true -> exists old, row s (ID j) = Some old /\ Status old ∈ from
                               /\ row s0 (ID j) = Some (updated_row old j))).
  { destruct (row s (ID j)) as [old|] eqn:Ej; [|naive_solver].
    case_decide as Hin; [|naive_solver]. destruct Hu as [-> Hu]. split.
    - rewrite Hu. case_decide as Hi; [right|by left]. subst i. eauto.
    - intros _. exists old. rewrite Hu, decide_True by done. done. }
  destruct f; intros [= <- <-]; naive_solver.
Qed.

Ltac astep_inv H :=
  repeat match type of H with
  | context [let '(_, _) := ?x in _] => let E := fresh "Est" in destruct x eqn:E
  | (match ?x with _ => _ end) = Some _ => destruct x eqn:?
  | Some (_, _) = Some (_, _) => injection H as <- <-
  | None = Some _ => discriminate H
  end.

(** One effect of a program that respects settled rows: the store stays well
    formed, settled rows are untouched, and the rest of the program respects
    them too. *)
Lemma astep_settled {A} e (p p' : prog A) w w' :
  respects_settled p -> row_ok (store w) -> astep e p w = Some (p', w') ->
  respects_settled p' /\ row_ok (store w')
  /\ forall i j, row (store w) i = Some j -> settled (Status j) -> row (store w') i = Some j.
Proof.
  intros Hp Hok Hst. destruct p; simpl in Hp, Hst;
    try (unfold Cancel, unregisterRunning in Hst; astep_inv Hst; simplify_eq; simpl;
         repeat case_match; simpl; naive_solver).
  - destruct (with_fault _ _ _) as [r s] eqn:E. injection Hst as <- <-. simpl.
    split; [naive_solver|]. split; [by eapply (with_fault_create _ _ _ _ _ "" Hok)|].
    intros i j' Hi _. rewrite <- Hi. eapply with_fault_create; [done..|]. by rewrite Hi.
  - destruct (with_fault _ _ _) as [r s] eqn:E. injection Hst as <- <-. simpl.
    destruct Hp as (Hne & Hfrom & Hk). split; [done|].
    split; [by eapply (with_fault_update _ _ _ _ _ _ "" Hok)|].
    intros i j' Hi Hset.
    destruct (with_fault_update _ _ _ _ _ _ i Hok Hne E) as (_ & [->|(old & _ & Ho & Hin & _)] & _);
      [done|]. exfalso. apply (Hfrom (Status old)); [done|]. by simplify_eq.
Qed.

(** The threads of the running system: every operation of the queue, the
    service and the pool, with any (possibly stale) copy of a job. *)
Inductive sync_op : prog unit -> Prop :=
| op_enqueue j : sync_op (_ <- Enqueue j ;; Ret tt)
| op_dequeue : sync_op (_ <- Dequeue ;; Ret tt)
| op_update_running j : sync_op (_ <- UpdateRunningJob j ;; Ret tt)
| op_complete j result : sync_op (_ <- CompleteJob j result ;; Ret tt)
| op_fail j msg : sync_op (fail_logged j msg)
| op_retry_later j msg : sync_op (_ <- RetryLater j msg ;; Ret tt)
| op_cleanup : sync_op (_ <- CleanupStaleRunning ;; Ret tt)
| op_wait ctx : sync_op (_ <- WaitForJob ctx ;; Ret tt)
| op_create sv jt params : sync_op (_ <- CreateJob sv jt params ;; Ret tt)
| op_cancel sv i : sync_op (_ <- CancelJob sv i ;; Ret tt)
| op_retry sv i : sync_op (_ <- RetryJob sv i ;; Ret tt)
| op_process ex ctx j : sync_op (processJob ex ctx j)
| op_worker ex wid : sync_op (_ <- worker_turn ex wid ;; Ret tt)
| op_stop : sync_op Stop.

Ltac from_ok :=
  split; [done|]; split;
  [let st := fresh in intros st; rewrite ?elem_of_cons, ?elem_of_nil; unfold settled;
   intuition congruence|].

Lemma update_running_respects {A} j (k : res qerror bool -> prog A) :
  (forall r, respects_settled (k r)) -> respects_settled (update_running j k).
Proof. intros Hk. simpl. from_ok. intros []; apply Hk. Qed.

Lemma FailJob_respects j msg : respects_settled (FailJob j msg).
Proof. intros now. by apply update_running_respects. Qed.

Lemma RetryLater_respects j msg : respects_settled (RetryLater j msg).
Proof.
  unfold RetryLater. case_if; [apply FailJob_respects|].
  intros now. by apply update_running_respects.
Qed.

Lemma CompleteJob_respects j r : respects_settled (CompleteJob j r).
Proof. intros now. by apply update_running_respects. Qed.

Lemma Dequeue_respects : respects_settled Dequeue.
Proof.
  intros [[|j l]|]; simpl; try done. intros now. from_ok. intros [[]|]; done.
Qed.

Lemma cleanup_loop_respects l n : respects_settled (cleanup_loop l n).
Proof.
  revert n. induction l as [|j l IH]; intros n; simpl; [done|].
  intros now. from_ok. intros [[]|]; apply IH.
Qed.

Lemma persist_respects {A} j (k : prog A) :
  respects_settled k -> respects_settled (persist j k).
Proof.
  intros Hk. unfold persist. apply respects_bind; [|done].
  by apply update_running_respects.
Qed.

Lemma report_step_respects {A} r j last (k : Job -> option Z -> prog A) :
  (forall j last, respects_settled (k j last)) -> respects_settled (report_step r j last k).
Proof.
  intros Hk. destruct r; unfold report_step.
  - intros now. destruct (match last with Some _ => _ | None => _ end); [apply Hk|].
    intros now'. by apply persist_respects.
  - by apply persist_respects.
Qed.

Lemma run_reports_respects rs j last k :
  (forall j, respects_settled (k j)) -> respects_settled (run_reports rs j last k).
Proof.
  intros Hk. revert j last. induction rs as [|r rs IH]; intros j last; simpl; [apply Hk|].
  apply report_step_respects. auto.
Qed.

Create HintDb respects.
Hint Resolve FailJob_respects RetryLater_respects CompleteJob_respects
  Dequeue_respects : respects.

Lemma discard_respects {A} (p : prog A) :
  respects_settled p -> respects_settled (_ <- p ;; Ret tt).
Proof. intros Hp. by apply respects_bind. Qed.
Hint Resolve discard_respects : respects.

Lemma processJob_respects ex ctx j : respects_settled (processJob ex ctx j).
Proof.
  unfold processJob, fail_logged. destruct (ex (jobType j)) as [f|]; [|auto with respects].
  destruct (f j) as [rs out]. apply run_reports_respects. intros j'.
  unfold fail_logged. destruct out as [| | | |]; [auto with respects..| |].
  - intros [|]; [done|]. case_if; auto with respects.
  - intros [|]; [done|]. auto with respects.
Qed.

Lemma WaitForJob_respects ctx : respects_settled (WaitForJob ctx).
Proof.
  intros ch. apply respects_bind; [by intros []|]. intros r.
  case_if; simpl; [done|]. by intros.
Qed.

Lemma sync_op_respects p : sync_op p -> respects_settled p.
Proof.
  destruct 1; unfold fail_logged; try (apply discard_respects); auto with respects.
  - intros []; done.
  - by apply update_running_respects.
  - intros []; [apply cleanup_loop_respects|done].
  - apply WaitForJob_respects.
  - destruct params; [|done]. intros id now [[]|]; simpl; [|done].
    unfold notifyPending. by case_if.
  - intros [[j|]|]; try done. case_if; [done|]. intros now. from_ok.
    intros [[]|]; simpl; try done; [by case_if|]. by intros [[]|].
  - intros [[j|]|]; try done. case_if; [done|]. simpl.
    split; [done|]. split.
    + intros st. rewrite elem_of_cons, elem_of_nil. intros [->|[]].
      unfold CanRetry, settled in *. bool_to_prop.
      destruct (Status j); try discriminate; intuition congruence.
    + intros [[]|]; simpl; try done. unfold notifyPending. by case_if.
  - apply processJob_respects.
  - intros []; [done|]. intros c. apply respects_bind; [apply Dequeue_respects|].
    intros [[j|]|]; simpl; try done; [|apply WaitForJob_respects].
    apply respects_bind; [apply processJob_respects|done].
  - done.
Qed.

(** The threads in flight, whatever they have read, and the store. *)
Definition settled_inv (c : world * list (prog unit)) : Prop :=
  Forall respects_settled c.2 /\ row_ok (store c.1).

Lemma settled_inv_step c1 c2 :
  settled_inv c1 -> pstep sync_op c1 c2 ->
  settled_inv c2
  /\ forall i j, row (store c1.1) i = Some j -> settled (Status j) -> row (store c2.1) i = Some j.
Proof.
  intros [Hts Hok] Hst. destruct Hst as [w ts n p e p' w' Hn Ha|w ts p Hp]; simpl in *.
  - destruct (astep_settled e p p' w w') as (Hp' & Hok' & Hrow); [|done..|].
    { rewrite Forall_lookup in Hts. eauto. }
    split; [|done]. split; [by apply Forall_insert|done].
  - split; [|done]. split; [|done]. apply Forall_app. split; [done|]. repeat constructor.
    by apply sync_op_respects.
Qed.

Lemma settled_inv_reachable c c' :
  settled_inv c -> reachable sync_op c c' ->
  settled_inv c'
  /\ forall i j, row (store c.1) i = Some j -> settled (Status j) -> row (store c'.1) i = Some j.
Proof.
  intros Hc Hr. induction Hr as [|c1 c2 Hr [IH1 IH2] Hs]; [done|].
  destruct (settled_inv_step c1 c2 IH1 Hs) as [H1 H2]. split; [done|]. intros i j Hi Hj. auto.
Qed.

(** ** A pending job is claimed at most once *)

Inductive dq_thread : prog (res qerror (option Job)) -> Prop :=
| dq_start : dq_thread Dequeue
| dq_listed job :
    Status job = JobStatusRunning ->
    dq_thread (PNow (fun now => dequeue_claim (set_StartedAt (Some now) job)))
| dq_claim job : Status job = JobStatusRunning -> dq_thread (dequeue_claim job)
| dq_done r : dq_thread (Ret r).

(** The job a finished thread returned. *)
Definition claimed_id (p : prog (res qerror (option Job))) : option string :=
  match p with Ret (Ok (Some j)) => Some (ID j) | _ => None end.

Definition claims_inv (c : world * list (prog (res qerror (option Job)))) : Prop :=
  Forall dq_thread c.2 /\ row_ok (store c.1) /\ NoDup (omap claimed_id c.2)
  /\ forall i, i ∈ omap claimed_id c.2 ->
       exists j, row (store c.1) i = Some j /\ Status j = JobStatusRunning.

Lemma claims_inv_quiet w ts i p p' :
  claims_inv (w, ts) -> ts !! i = Some p -> claimed_id p = None -> claimed_id p' = None ->
  dq_thread p' -> claims_inv (w, <[i := p']> ts).
Proof.
  intros (Hts & Hok & Hnd & Hrun) Hi Hp Hp' Hd. simpl in *.
  unfold claims_inv; simpl. rewrite (omap_insert_None _ _ _ p) by done.
  split; [by apply Forall_insert|done].
Qed.

Lemma claims_inv_claim w s ts i job r f :
  claims_inv (w, ts) -> ts !! i = Some (dequeue_claim job) ->
  Status job = JobStatusRunning ->
  with_fault f (st_update_if job [JobStatusPending]) (store w) = (r, s) ->
  claims_inv (set_store s w,
    <[i := match r with
           | Err _ => Ret (Err QStore)
           | Ok claimed => if negb claimed then Ret (Ok None) else Ret (Ok (Some job))
           end]> ts).
Proof.
  intros (Hts & Hok & Hnd & Hrun) Hi Hst E. simpl in *.
  assert (Hu : forall k, row_ok s /\ _) by
    (intros k; exact (with_fault_update f job [JobStatusPending] (store w) r s k Hok ltac:(done) E)).
  assert (Hrun' : forall k j, row (store w) k = Some j -> Status j = JobStatusRunning ->
            exists j, row s k = Some j /\ Status j = JobStatusRunning).
  { intros k j Hk Hj. destruct (Hu k) as (_ & [->|(old & _ & _ & _ & Hs)] & _); [eauto|].
    rewrite Hs. eauto. }
  split; [|split; [exact (proj1 (Hu ""))|]]; simpl.
  { apply Forall_insert; [done|]. destruct r as [[]|]; constructor. }
  assert (r = Ok true \/ r <> Ok true) as [->|Hne]
    by (destruct r as [[]|]; [left|right|right]; congruence); simpl.
  - rewrite (omap_insert_Some _ _ _ (dequeue_claim job) _ (ID job)) by done.
    destruct (Hu (ID job)) as (_ & _ & Hc). destruct (Hc eq_refl) as (old & Ho & Hp & Hn).
    split.
    + constructor; [|done]. intros Hin. destruct (Hrun _ Hin) as (j & Hj & Hjr).
      rewrite elem_of_cons, elem_of_nil in Hp. simplify_eq. intuition congruence.
    + intros k. rewrite (omap_insert_Some _ _ _ (dequeue_claim job) _ (ID job)) by done.
      rewrite elem_of_cons. intros [->|Hin]; [rewrite Hn; eauto|].
      destruct (Hrun _ Hin) as (j & Hj & Hjr). eauto.
  - rewrite (omap_insert_None _ _ _ (dequeue_claim job)) by (try done; by destruct r as [[]|]).
    split; [done|]. intros k Hk. destruct (Hrun _ Hk) as (j & Hj & Hjr). eauto.
Qed.

Lemma claims_inv_step c1 c2 :
  claims_inv c1 -> pstep (eq Dequeue) c1 c2 -> claims_inv c2.
Proof.
  intros Hinv Hst. destruct Hst as [w ts i p e p' w' Hi Ha|w ts p <-].
  - assert (Hp : dq_thread p).
    { destruct Hinv as (Hts & _). rewrite Forall_lookup in Hts. eauto. }
    destruct Hp as [|job Hj|job Hj|r].
    + simpl in Ha. injection Ha as <- <-.
      eapply claims_inv_quiet; [done|done|done|..].
      * by destruct (with_fault_read _ _) as [[]|].
      * destruct (with_fault_read _ _) as [[|j l]|]; by constructor.
    + simpl in Ha. injection Ha as <- <-.
      eapply claims_inv_quiet; [done|done|done|done|]. by constructor.
    + cbn [astep dequeue_claim] in Ha. destruct (with_fault _ _ _) as [r s] eqn:E.
      injection Ha as <- <-. by eapply claims_inv_claim.
    + discriminate Ha.
  - destruct Hinv as (Hts & Hok & Hnd & Hrun). unfold claims_inv; simpl in *.
    rewrite omap_app. simpl. rewrite app_nil_r.
    split; [|done]. apply Forall_app. split; [done|]. repeat constructor.
Qed.

Lemma claims_unique (w w' : world) ts :
  row_ok (store w) -> reachable (eq Dequeue) (w, []) (w', ts) -> claims_inv (w', ts).
Proof.
  intros Hok. apply reachable_invariant; [|apply claims_inv_step].
  split; [constructor|]. split; [done|]. simpl. split; [constructor|].
  intros i Hi. by apply not_elem_of_nil in Hi.
Qed.

(** ** Fault-free sequential runs *)

Inductive runs {A} : prog A -> world -> A -> world -> Prop :=
| runs_ret a w : runs (Ret a) w a w
| runs_step e p w p' w' a w'' :
    flt_in e = NoFault -> astep e p w = Some (p', w') -> runs p' w' a w'' -> runs p w a w''.

Lemma runs_ret_inv {A} (a : A) w b w' : runs (Ret a) w b w' -> b = a /\ w' = w.
Proof. inversion 1; subst; [done|]. discriminate. Qed.

Definition is_ret {A} (p : prog A) : bool := match p with Ret _ => true | _ => false end.

Lemma astep_bind {A B} e (p : prog A) (f : A -> prog B) w :
  is_ret p = false ->
  astep e (bind p f) w = (fun q => (bind q.1 f, q.2)) <$> astep e p w.
Proof. by destruct p; intros; simpl; repeat case_match; simplify_eq. Qed.

Lemma runs_bind_inv {A B} (p : prog A) (f : A -> prog B) w b w' :
  runs (bind p f) w b w' -> exists a w1, runs p w a w1 /\ runs (f a) w1 b w'.
Proof.
  intros Hr. remember (bind p f) as q eqn:Eq. revert p Eq.
  induction Hr as [b w|e q w q' w1 b w2 Hf Ha Hr IH]; intros p Eq.
  - destruct p; try discriminate. eexists _, _. split; [constructor|]. simpl in Eq.
    rewrite <- Eq. constructor.
  - subst q. destruct (is_ret p) eqn:Ep.
    + destruct p; try discriminate. eexists _, _. split; [constructor|].
      by eapply runs_step.
    + rewrite astep_bind in Ha by done. destruct (astep e p w) as [[p1 w1']|] eqn:E; [|done].
      simpl in Ha. injection Ha as <- <-.
      destruct (IH p1 eq_refl) as (a & w3 & H1 & H2). exists a, w3. split; [|done].
      by eapply runs_step.
Qed.

(** Programs without a select always run to completion. *)
Fixpoint select_free {A} (p : prog A) : Prop :=
  match p with
  | Ret _ => True
  | PSelect _ _ _ => False
  | PUpdateIf j from k => forall r, select_free (k r)
  | PCreate _ k => forall r, select_free (k r)
  | PGet _ k => forall r, select_free (k r)
  | PList _ _ k | PListByType _ _ k => forall r, select_free (k r)
  | PNow k => forall r, select_free (k r)
  | PUuid k => forall r, select_free (k r)
  | PSubscribe k | PNewCtx k => forall r, select_free (k r)
  | PCtxErr _ k | PCancelRun _ k => forall r, select_free (k r)
  | PNotify k | PUnsubscribe _ k | PCancelCtx _ k | PRegister _ _ k | PUnregister _ _ k =>
      select_free k
  end.

Lemma runs_total {A} (p : prog A) : select_free p -> forall w, exists a w', runs p w a w'.
Proof.
  pose (e := Build_input NoFault 0 "").
  induction p; intros Hs w; simpl in Hs; try done;
    try (eexists _, _; by constructor);
    match goal with
    | |- exists a w', runs ?p w a w' =>
        destruct (astep e p w) as [[p1 w1]|] eqn:E;
        [enough (exists a w', runs p1 w1 a w') as (a & w' & ?)
           by (exists a, w'; by eapply (runs_step e))|];
        simpl in E; repeat case_match; simplify_eq; eauto
    end.
Qed.


Lemma runs_step_inv {A} (p : prog A) w a w' :
  is_ret p = false -> runs p w a w' ->
  exists e p1 w1, flt_in e = NoFault /\ astep e p w = Some (p1, w1) /\ runs p1 w1 a w'.
Proof. intros Hp Hr. destruct Hr; [done|]. eauto 10. Qed.

(** Invert the next effect of a fault-free run. *)
Ltac run_next H :=
  let e := fresh "e" in let p1 := fresh "p" in let w1 := fresh "w" in
  let Hf := fresh "Hf" in let Ha := fresh "Ha" in
  apply runs_step_inv in H as (e & p1 & w1 & Hf & Ha & H); [|reflexivity];
  cbn [astep] in Ha; unfold with_fault, with_fault_read in Ha; rewrite ?Hf in Ha.

(** The conditional write of a fault-free run, on a row that may be written. *)
Lemma runs_update {A} j from (k : res store_error bool -> prog A) w a w' old :
  row_ok (store w) -> from <> [] ->
  row (store w) (ID j) = Some old -> Status old ∈ from ->
  runs (PUpdateIf j from k) w a w' ->
  exists s, row_ok s
    /\ (forall i, row s i = if decide (i = ID j) then Some (updated_row old j) else row (store w) i)
    /\ runs (k (Ok true)) (set_store s w) a w'.
Proof.
  intros Hok Hne Hrow Hin Hr. run_next Hr.
  destruct (st_update_if j from (store w)) as [r s] eqn:E. injection Ha as <- <-.
  destruct (law_update_if _ _ _ _ _ Hok Hne E) as [Hok' Hu].
  rewrite Hrow, decide_True in Hu by done. destruct Hu as [-> Hu]. eauto.
Qed.

(** [CancelJob], run alone, on every status of the row. *)
Lemma CancelJob_outcome sv i w r w' :
  row_ok (store w) -> runs (CancelJob sv i) w r w' ->
  match row (store w) i with
  | None => r = Err (QJobNotFound i) /\ w' = w
  | Some j =>
      if IsTerminal j then r = Err (QTerminal (Status j)) /\ w' = w
      else Status j <> JobStatusRetrying ->
        r = Ok tt
        /\ (forall k, k <> i -> row (store w') k = row (store w) k)
        /\ (exists j', row (store w') i = Some j' /\ Status j' = JobStatusCancelled)
        /\ (Status j = JobStatusRunning -> onCancelRun sv = true ->
            forall c, running w !! i = Some c -> c ∈ cancelled w')
  end.
Proof.
  intros Hok Hr. unfold CancelJob in Hr. run_next Hr.
  rewrite law_get in Ha. injection Ha as <- <-.
  destruct (row (store w) i) as [j|] eqn:Erow; [|by apply runs_ret_inv in Hr].
  destruct (IsTerminal j) eqn:Et; [by apply runs_ret_inv in Hr|]. intros Hnr.
  pose proof (row_key _ _ _ Hok Erow) as Hid. run_next Hr. injection Ha as <- <-.
  eapply (runs_update _ _ _ _ _ _ j) in Hr as (s & Hok' & Hs & Hr); [|done|done| |].
  2: { simpl. by rewrite Hid. }
  2: { unfold IsTerminal in Et. rewrite !elem_of_cons. destruct (Status j); naive_solver. }
  simpl in Hr, Hs. rewrite Hid in Hs.
  assert (Hrow' : exists j', row s i = Some j' /\ Status j' = JobStatusCancelled).
  { rewrite Hs, decide_True by done. eauto. }
  assert (Hother : forall k, k <> i -> row s k = row (store w) k).
  { intros k Hk. by rewrite Hs, decide_False by done. }
  destruct (bool_decide (Status j = JobStatusRunning) && onCancelRun sv)%bool eqn:Ec.
  - run_next Hr. unfold Cancel in Ha. simpl in Ha.
    destruct (running w !! i) as [c|] eqn:Ecc; injection Ha as <- <-;
      apply runs_ret_inv in Hr as [-> ->]; simpl.
    + repeat (split; [done|]). intros _ _ c' [= <-]. set_solver.
    + repeat (split; [done|]). done.
  - apply runs_ret_inv in Hr as [-> ->]. simpl. repeat (split; [done|]).
    intros Hrun Hcr. rewrite Hrun, Hcr in Ec. discriminate Ec.
Qed.

(** ** The outcome of processing a claimed job *)

(** What a progress report leaves unchanged. *)
Definition same_job (a b : Job) : Prop :=
  ID b = ID a /\ Status b = JobStatusRunning /\ RetryCount b = RetryCount a
  /\ MaxRetries b = MaxRetries a.

(** The worker's row is running and nothing else changed since [w0]. *)
Definition owns (w0 w : world) (job : Job) : Prop :=
  row_ok (store w) /\ Status job = JobStatusRunning
  /\ (exists j, row (store w) (ID job) = Some j /\ Status j = JobStatusRunning)
  /\ (forall i, i <> ID job -> row (store w) i = row (store w0) i)
  /\ cancelled w = cancelled w0.

Lemma runs_update_running {A} w0 w job job' (k : res qerror bool -> prog A) a w' :
  owns w0 w job -> ID job' = ID job -> runs (update_running job' k) w a w' ->
  exists w1, runs (k (Ok true)) w1 a w' /\ row_ok (store w1)
    /\ (exists old, row (store w1) (ID job) = Some (updated_row old job'))
    /\ (forall i, i <> ID job -> row (store w1) i = row (store w0) i)
    /\ cancelled w1 = cancelled w0.
Proof.
  intros (Hok & Hst & (j & Hj & Hjr) & Hoth & Hc) Hid Hr.
  eapply (runs_update _ _ _ _ _ _ j) in Hr as (s & Hok' & Hs & Hr); [|done|done| |].
  2: { by rewrite Hid. }
  2: { rewrite Hjr. set_solver. }
  exists (set_store s w). split; [done|]. split; [done|]. rewrite Hid in Hs. simpl.
  split; [|split; [|done]].
  - rewrite Hs, decide_True by done. eauto.
  - intros i Hi. rewrite Hs, decide_False by done. auto.
Qed.

Lemma persist_owns {A} w0 w job job' (k : prog A) a w' :
  owns w0 w job -> same_job job job' -> runs (persist job' k) w a w' ->
  exists w1, owns w0 w1 job' /\ runs k w1 a w'.
Proof.
  intros Hown (Hid & Hst & _) Hr. unfold persist in Hr.
  apply runs_bind_inv in Hr as (r & w2 & H1 & H2).
  eapply runs_update_running in H1 as (w1 & Hr1 & Hok & (old & Hrow) & Hoth & Hc); [|done..].
  apply runs_ret_inv in Hr1 as [-> ->]. exists w1. split; [|done].
  repeat split; rewrite ?Hid; eauto.
Qed.

Lemma report_owns {A} w0 w job r last (k : Job -> option Z -> prog A) a w' :
  owns w0 w job -> runs (report_step r job last k) w a w' ->
  exists job1 w1 last1, owns w0 w1 job1 /\ same_job job job1 /\ runs (k job1 last1) w1 a w'.
Proof.
  intros Hown Hr. pose proof Hown as (_ & Hst & _).
  assert (Hsame : same_job job job) by done. unfold report_step in Hr. destruct r.
  - run_next Hr. injection Ha as <- <-.
    destruct (match last with Some _ => _ | None => _ end); [eauto 10|].
    run_next Hr. injection Ha as <- <-.
    eapply persist_owns in Hr as (w1 & Hown1 & Hr); [|done|by split]. eauto 10.
  - eapply persist_owns in Hr as (w1 & Hown1 & Hr); [|done|by split]. eauto 10.
Qed.

Lemma reports_owns w0 rs w job last k a w' :
  owns w0 w job -> runs (run_reports rs job last k) w a w' ->
  exists job1 w1, owns w0 w1 job1 /\ same_job job job1 /\ runs (k job1) w1 a w'.
Proof.
  revert w job last. induction rs as [|r rs IH]; intros w job last Hown Hr; simpl in Hr.
  - exists job, w. split; [done|]. split; [|done]. destruct Hown as (_ & ? & _). done.
  - eapply report_owns in Hr as (j1 & w1 & l1 & Hown1 & Hs1 & Hr); [|done].
    destruct (IH _ _ _ Hown1 Hr) as (j2 & w2 & Hown2 & Hs2 & Hr2).
    exists j2, w2. split; [done|]. split; [|done].
    unfold same_job in *. intuition congruence.
Qed.

(** The job's row ends in a state [P], every other row as before. *)
Definition row_ends (w0 w' : world) (i : string) (P : Job -> Prop) : Prop :=
  (exists j, row (store w') i = Some j /\ P j)
  /\ forall k, k <> i -> row (store w') k = row (store w0) k.

Lemma FailJob_run w0 w job msg r w' :
  owns w0 w job -> runs (FailJob job msg) w r w' ->
  r = Ok true
  /\ row_ends w0 w' (ID job) (fun j => Status j = JobStatusFailed /\ ErrorMessage j = msg).
Proof.
  intros Hown Hr. unfold FailJob in Hr. run_next Hr. injection Ha as <- <-.
  eapply runs_update_running in Hr as (w1 & Hr & _ & (old & Hrow) & Hoth & _); [|done..].
  apply runs_ret_inv in Hr as [-> ->]. split; [done|]. split; eauto.
Qed.

(** Fault-free runs of programs that respect settled rows keep the store well
    formed. *)
Lemma runs_row_ok {A} (p : prog A) w a w' :
  respects_settled p -> row_ok (store w) -> runs p w a w' -> row_ok (store w').
Proof.
  intros Hp Hok Hr. revert Hp Hok. induction Hr as [|e p w p' w1 a w2 Hf Ha Hr IH]; [done|].
  intros Hp Hok. destruct (astep_settled e p p' w w1 Hp Hok Ha) as (? & ? & _). auto.
Qed.

Lemma CompleteJob_run w0 w job res r w' :
  owns w0 w job -> runs (CompleteJob job res) w r w' ->
  r = Ok true
  /\ row_ends w0 w' (ID job) (fun j => Status j = JobStatusCompleted
                                      /\ ProgressPercent j = 100 /\ Result j = res).
Proof.
  intros Hown Hr. unfold CompleteJob in Hr. run_next Hr. injection Ha as <- <-.
  eapply runs_update_running in Hr as (w1 & Hr & _ & (old & Hrow) & Hoth & _); [|done..].
  apply runs_ret_inv in Hr as [-> ->]. split; [done|]. split; eauto 10.
Qed.

Lemma RetryLater_run w0 w job msg r w' :
  owns w0 w job -> in_int64 (RetryCount job) -> in_int64 (MaxRetries job) ->
  RetryCount job < MaxRetries job -> runs (RetryLater job msg) w r w' ->
  r = Ok true
  /\ row_ends w0 w' (ID job) (fun j => Status j = JobStatusPending
       /\ RetryCount j = RetryCount job + 1 /\ ErrorMessage j = msg).
Proof.
  intros Hown Hi Hm Hlt Hr. unfold RetryLater in Hr. cbn [RetryCount set_RetryCount MaxRetries] in Hr.
  rewrite wrap64_id in Hr by (int64_unfold; lia). rewrite Z.gtb_ltb in Hr.
  destruct (Z.ltb_spec (MaxRetries job) (RetryCount job + 1)); [lia|].
  run_next Hr. injection Ha as <- <-.
  eapply runs_update_running in Hr as (w1 & Hr & _ & (old & Hrow) & Hoth & _); [|done..].
  apply runs_ret_inv in Hr as [-> ->]. split; [done|]. split; eauto 10.
Qed.

(** The status a processed job ends in. *)
Definition expected_end (ex : executors) (job : Job) (j : Job) : Prop :=
  match ex (jobType job) with
  | None => Status j = JobStatusFailed
  | Some f =>
      match (f job).2 with
      | ExecNil => Status j = JobStatusCompleted /\ ProgressPercent j = 100 /\ Result j = ""
      | ExecResult r => Status j = JobStatusCompleted /\ ProgressPercent j = 100 /\ Result j = r
      | ExecUnmarshalable _ | ExecPanic _ => Status j = JobStatusFailed
      | ExecErr err =>
          ErrorMessage j = err
          /\ if RetryCount job <? MaxRetries job
             then Status j = JobStatusPending /\ RetryCount j = RetryCount job + 1
             else Status j = JobStatusFailed
      end
  end.

Lemma row_ends_impl w0 w' i (P Q : Job -> Prop) :
  row_ends w0 w' i P -> (forall j, P j -> Q j) -> row_ends w0 w' i Q.
Proof. intros [(j & Hj & HP) Ho] HPQ. split; eauto. Qed.

Lemma fail_logged_run w0 w job msg u w' :
  owns w0 w job -> runs (fail_logged job msg) w u w' ->
  row_ends w0 w' (ID job) (fun j => Status j = JobStatusFailed /\ ErrorMessage j = msg).
Proof.
  intros Hown Hr. apply runs_bind_inv in Hr as (r & w1 & H1 & H2).
  apply runs_ret_inv in H2 as [_ ->]. by eapply FailJob_run in H1 as [_ H1].
Qed.

Lemma processJob_run ex ctx job w u w' :
  owns w w job -> ctx_done w ctx = false ->
  in_int64 (RetryCount job) -> in_int64 (MaxRetries job) ->
  runs (processJob ex ctx job) w u w' ->
  row_ends w w' (ID job) (expected_end ex job).
Proof.
  intros Hown Hctx Hi Hm Hr. unfold processJob in Hr. unfold expected_end.
  destruct (ex (jobType job)) as [f|].
  2: { eapply fail_logged_run in Hr; [|done]. eapply row_ends_impl; [done|]. naive_solver. }
  destruct (f job) as [rs out] eqn:Ef. simpl.
  eapply reports_owns in Hr as (j1 & w1 & Hown1 & (Hid & _ & Hrc & Hmr) & Hr); [|done].
  rewrite <- Hid. rewrite <- Hrc, <- Hmr in *.
  assert (Hctx1 : ctx_done w1 ctx = false).
  { unfold ctx_done in *. destruct Hown1 as (_ & _ & _ & _ & ->). done. }
  destruct out as [|r|err|err|what].
  - apply runs_bind_inv in Hr as (r & w2 & H1 & H2). apply runs_ret_inv in H2 as [_ ->].
    eapply CompleteJob_run in H1 as [_ H1]; [|done]. by eapply row_ends_impl.
  - apply runs_bind_inv in Hr as (r' & w2 & H1 & H2). apply runs_ret_inv in H2 as [_ ->].
    eapply CompleteJob_run in H1 as [_ H1]; [|done]. by eapply row_ends_impl.
  - eapply fail_logged_run in Hr; [|done]. eapply row_ends_impl; [done|]. naive_solver.
  - run_next Hr. injection Ha as <- <-. rewrite Hctx1 in Hr.
    destruct (Z.ltb_spec (RetryCount j1) (MaxRetries j1)).
    + apply runs_bind_inv in Hr as (r & w2 & H1 & H2). apply runs_ret_inv in H2 as [_ ->].
      eapply RetryLater_run in H1 as [_ H1]; [|done..].
      eapply row_ends_impl; [done|]. naive_solver.
    + eapply fail_logged_run in Hr; [|done]. eapply row_ends_impl; [done|]. naive_solver.
  - run_next Hr. injection Ha as <- <-. rewrite Hctx1 in Hr.
    eapply fail_logged_run in Hr; [|done]. eapply row_ends_impl; [done|]. naive_solver.
Qed.

Lemma select_free_bind {A B} (p : prog A) (f : A -> prog B) :
  select_free p -> (forall a, select_free (f a)) -> select_free (bind p f).
Proof. induction p; simpl; naive_solver. Qed.

Lemma update_running_select_free {A} j (k : res qerror bool -> prog A) :
  (forall r, select_free (k r)) -> select_free (update_running j k).
Proof. intros Hk []; apply Hk. Qed.

Lemma discard_select_free {A} (p : prog A) : select_free p -> select_free (_ <- p ;; Ret tt).
Proof. intros Hp. by apply select_free_bind. Qed.

Lemma FailJob_select_free j m : select_free (FailJob j m).
Proof. intros now. by apply update_running_select_free. Qed.

Lemma CompleteJob_select_free j r : select_free (CompleteJob j r).
Proof. intros now. by apply update_running_select_free. Qed.

Lemma RetryLater_select_free j m : select_free (RetryLater j m).
Proof.
  unfold RetryLater. case_if; [apply FailJob_select_free|].
  intros now. by apply update_running_select_free.
Qed.

Lemma run_reports_select_free rs j last k :
  (forall j, select_free (k j)) -> select_free (run_reports rs j last k).
Proof.
  intros Hk. revert j last. induction rs as [|[] rs IH]; intros j last;
    cbn [run_reports report_step]; [done| |].
  - intros now. destruct (match last with Some _ => _ | None => _ end); [by apply IH|].
    intros now'. apply select_free_bind; [by apply update_running_select_free|]. auto.
  - apply select_free_bind; [by apply update_running_select_free|]. auto.
Qed.

Hint Resolve discard_select_free FailJob_select_free CompleteJob_select_free
  RetryLater_select_free : respects.

Lemma processJob_select_free ex ctx job : select_free (processJob ex ctx job).
Proof.
  unfold processJob, fail_logged.
  destruct (ex (jobType job)) as [f|]; [|auto with respects].
  destruct (f job) as [rs out]. apply run_reports_select_free. intros j.
  unfold fail_logged. destruct out; [auto with respects..| |].
  - intros [|]; [done|]. case_if; auto with respects.
  - intros [|]; [done|]. auto with respects.
Qed.

(** The cleanup loop over distinct running rows moves each to failed. *)
Lemma cleanup_loop_run l n w r w' :
  row_ok (store w) -> NoDup (ID <$> l) ->
  (forall j, j ∈ l -> row (store w) (ID j) = Some j /\ Status j = JobStatusRunning) ->
  runs (cleanup_loop l n) w r w' ->
  r = Ok (n + Z.of_nat (length l))
  /\ (forall i, i ∉ ID <$> l -> row (store w') i = row (store w) i)
  /\ (forall i, i ∈ ID <$> l -> exists j, row (store w') i = Some j
        /\ Status j = JobStatusFailed /\ ErrorMessage j = stale_message).
Proof.
  revert n w. induction l as [|job l IH]; intros n w Hok Hnd Hl Hr; simpl in Hr.
  - apply runs_ret_inv in Hr as [-> ->]. split; [f_equal; simpl; lia|].
    split; [done|]. intros i Hi. by apply not_elem_of_nil in Hi.
  - destruct (Hl job ltac:(left)) as [Hrow Hst]. run_next Hr. injection Ha as <- <-.
    eapply (runs_update _ _ _ _ _ _ job) in Hr as (s & Hok' & Hs & Hr); [|done|done|done|].
    2: { rewrite Hst. set_solver. }
    simpl in Hr, Hs. inversion Hnd as [|? ? Hnin Hnd']; subst.
    destruct (IH (n + 1) (set_store s w)) as (-> & Hout & Hin); [done|done| |done|].
    { intros j Hj. rewrite Hs. rewrite decide_False; [by apply Hl; right|].
      intros E. apply Hnin. rewrite <- E. by apply list_elem_of_fmap_2. }
    simpl in *. split; [f_equal; lia|]. split.
    + intros i Hi. rewrite not_elem_of_cons in Hi. destruct Hi as [Hi1 Hi2].
      rewrite Hout by done. by rewrite Hs, decide_False by done.
    + intros i. rewrite elem_of_cons. intros [->|Hi]; [|by apply Hin].
      rewrite Hout by done. rewrite Hs, decide_True by done. eauto.
Qed.

End Semantics.

Arguments world : clear implicits.
Arguments MkWorld {S}.

(** ** The queue over the PostgreSQL table *)

Definition is_running (j : Job) : bool := bool_decide (Status j = JobStatusRunning).

Lemma select_all p n t :
  Z.of_nat (length (filter (fun j => p j = true) ((map_to_list t).*2))) <= n ->
  select_jobs p n t ≡ₚ filter (fun j => p j = true) ((map_to_list t).*2).
Proof.
  intros Hn. unfold select_jobs. rewrite take_ge; [apply merge_sort_Permutation|].
  rewrite merge_sort_Permutation. lia.
Qed.

(** The number of rows in state [running]. *)
Definition running_rows (t : PgStore) : list Job :=
  filter (fun j => is_running j = true) ((map_to_list t).*2).

Lemma elem_of_running_rows t j :
  j ∈ running_rows t <-> exists i, t !! i = Some j /\ Status j = JobStatusRunning.
Proof.
  unfold running_rows, is_running. rewrite list_elem_of_filter, bool_decide_eq_true.
  rewrite list_elem_of_fmap. split.
  - intros [Hst ([i j'] & -> & Hin)]. exists i. by rewrite elem_of_map_to_list in Hin.
  - intros (i & Hi & Hst). split; [done|]. exists (i, j). by rewrite elem_of_map_to_list.
Qed.

Lemma CleanupStaleRunning_run (w : world PgStore) r w' :
  keyed (store w) -> Z.of_nat (length (running_rows (store w))) <= 1000 ->
  runs CleanupStaleRunning w r w' ->
  r = Ok (Z.of_nat (length (running_rows (store w))))
  /\ forall i j, store w !! i = Some j ->
       if is_running j
       then exists j', store w' !! i = Some j' /\ Status j' = JobStatusFailed
                       /\ ErrorMessage j' = stale_message
       else store w' !! i = Some j.
Proof.
  intros Hk Hn Hr. inversion Hr as [|e p w0 p' w1 a w2 Hf Ha Hr']; subst.
  simpl in Ha. rewrite Hf in Ha. injection Ha as <- <-. simpl in Hr'.
  set (l := select_jobs _ _ _) in Hr'.
  assert (Hperm : l ≡ₚ running_rows (store w)) by (by apply select_all).
  assert (Hl : forall j, j ∈ l -> store w !! ID j = Some j /\ Status j = JobStatusRunning).
  { intros j. rewrite Hperm, elem_of_running_rows. intros (i & Hi & Hst).
    by rewrite (Hk _ _ Hi). }
  destruct (cleanup_loop_run (store_laws := PgStore_Laws) l 0 w r w' Hk
              (select_NoDup _ _ _ Hk) Hl Hr') as (-> & Hout & Hin).
  rewrite Hperm. split; [done|]. intros i j Hij. unfold is_running.
  case_bool_decide as Hst.
  - apply Hin. rewrite <- (Hk _ _ Hij). apply list_elem_of_fmap_2. rewrite Hperm.
    apply elem_of_running_rows. eauto.
  - rewrite <- Hij. apply Hout. rewrite list_elem_of_fmap. intros (j' & -> & Hj').
    destruct (Hl _ Hj') as [Hj'' Hst']. naive_solver.
Qed.

(** The job [Dequeue] hands out: the row, marked running and started. *)
Definition started (now : Z) (j : Job) : Job :=
  set_StartedAt (Some now) (set_Status JobStatusRunning j).

Lemma Dequeue_run (w : world PgStore) r w' :
  keyed (store w) -> runs Dequeue w r w' ->
  (r = Ok None /\ w' = w /\ forall i j, store w !! i = Some j -> Status j <> JobStatusPending)
  \/ exists job now,
       store w !! ID job = Some job /\ Status job = JobStatusPending
       /\ (forall i j, store w !! i = Some j -> Status j = JobStatusPending ->
                       CreatedAt j <= CreatedAt job)
       /\ r = Ok (Some (started now job))
       /\ w' = set_store (<[ID job := started now job]> (store w)) w.
Proof.
  intros Hk Hr. inversion Hr as [|e p w0 p' w1 a w2 Hf Ha Hr']; subst.
  cbn [astep Dequeue] in Ha. unfold with_fault_read in Ha. rewrite Hf in Ha.
  unfold st_list in Ha. simpl in Ha. injection Ha as <- <-.
  destruct (select_jobs _ 1 (store w)) as [|job l] eqn:E; simpl in Hr'.
  - apply runs_ret_inv in Hr' as [-> ->]. left. split; [done|]. split; [done|].
    intros i j Hij Hst. apply (select_nil _ 1 _ ltac:(lia) E) in Hij.
    by rewrite Hst in Hij.
  - right. assert (Hjob : job ∈ select_jobs (fun j => bool_decide (Status j = JobStatusPending))
                                  1 (store w)) by (rewrite E; left).
    apply elem_of_select in Hjob as [Hp (i & Hi)]. apply bool_decide_eq_true in Hp.
    pose proof (Hk _ _ Hi) as <-.
    inversion Hr' as [|e2 p2 w2 p2' w2' a2 w2'' Hf2 Ha2 Hr2]; subst. simpl in Ha2.
    injection Ha2 as <- <-. exists job, (now_in e2).
    split; [done|]. split; [done|]. split.
    { intros i j Hij Hst. eapply select_head_newest; [exact E|exact Hij|]. by apply bool_decide_eq_true. }
    inversion Hr2 as [|e3 p3 w3 p3' w3' a3 w3'' Hf3 Ha3 Hr3]; subst.
    cbn [astep dequeue_claim] in Ha3. unfold with_fault in Ha3. rewrite Hf3 in Ha3.
    unfold st_update_if in Ha3. simpl in Ha3. unfold UpdateSyncJobIfStatus in Ha3. simpl in Ha3.
    rewrite Hi, bool_decide_true in Ha3 by (rewrite Hp; set_solver).
    injection Ha3 as <- <-. simpl in Hr3. apply runs_ret_inv in Hr3 as [-> ->].
    split; [done|]. by destruct job.
Qed.
