(* ===== verification/SyncProps.v ===== *)
(** * SyncProps: what the sync queue guarantees

    The properties of the queue, the job service and the worker pool: settled
    rows are final and claims are exclusive under every interleaving and every
    database fault, over any store that satisfies the interface; the outcomes
    of cancelling, cleaning up and processing a job; and the order in which
    the PostgreSQL-backed queue really hands out work. *)

From stdpp Require Import base list strings gmap.
From Stdlib Require Import ZArith Lia.
From S2P Require Import Prelude SyncStore SyncQueue.

Open Scope Z_scope.

(** ** A small system for the witnesses *)

Definition demo_job (i : string) (st : JobStatus) (created : Z) : Job :=
  MkJob i JobTypeOHLCV st "{}" 0 0 0 0 "" "" created None None 0 3 None "".

Definition demo_world (t : PgStore) : world PgStore := MkWorld t ∅ 0 ∅ ∅ 0.

Definition tick (now : Z) : input := Build_input NoFault now "u1".

Lemma keyed_singleton j : keyed {[ID j := j]}.
Proof. intros i j'. rewrite lookup_singleton. case_decide; naive_solver. Qed.

(** ** Interleavings *)

Section Any.
Context {S : Type} {store_ops : JobStore S} {store_laws : JobStoreLaws S}.

(** C2. Cancelled and completed rows are final. However the operations of the
    queue, the service and the workers interleave, effect by effect, with any
    stale copies of jobs in their hands and with database faults striking
    before or after any statement, on a well-formed job table, from the
    moment a row is cancelled or completed it is never written again, also by the operations that were in
    flight at that moment and had read the row before. *)
Theorem settled_rows_final (w0 w w' : world S) (ts ts' : list (prog unit)) (i : string) (j : Job) :
  row_ok (store w0) -> reachable sync_op (w0, []) (w, ts) -> reachable sync_op (w, ts) (w', ts') ->
  row (store w) i = Some j -> settled (Status j) -> row (store w') i = Some j.
Proof.
  intros Hok H1 H2. destruct (settled_inv_reachable (w0, []) (w, ts)) as [Hinv _]; [by split|done|].
  by apply (settled_inv_reachable (w, ts) (w', ts')).
Qed.

(** C14. Claims are exclusive: any number of workers dequeuing concurrently,
    under any interleaving and any faults, never receive the same job twice,
    and the row of every job handed out is in state running. *)
Theorem dequeue_claims_exclusive (w w' : world S)
    (ts : list (prog (res qerror (option Job)))) :
  row_ok (store w) -> reachable (eq Dequeue) (w, []) (w', ts) ->
  NoDup (omap claimed_id ts)
  /\ forall i, i ∈ omap claimed_id ts ->
       exists j, row (store w') i = Some j /\ Status j = JobStatusRunning.
Proof. intros Hok Hr. by destruct (claims_unique w w' ts Hok Hr) as (_ & _ & ?). Qed.

(** [CancelJob], run to its end without faults, on every state of the row:
    an unknown id and a terminal job are refused and change nothing; a
    pending or running job ends cancelled with every other row untouched,
    and if it was running here and a canceller is wired, the context of its
    execution is cancelled. *)
Theorem CancelJob_spec (sv : JobService) (i : string) (w w' : world S) (r : res qerror unit) :
  row_ok (store w) -> runs (CancelJob sv i) w r w' ->
  match row (store w) i with
  | None => r = Err (QJobNotFound i) /\ w' = w
  | Some j =>
      if IsTerminal j then r = Err (QTerminal (Status j)) /\ w' = w
      else Status j <> JobStatusRetrying ->
        r = Ok tt
        /\ (forall k, k <> i -> row (store w') k = row (store w) k)
        /\ (exists j', row (store w') i = Some j' /\ Status j' = JobStatusCancelled)
        /\ (Status j = JobStatusRunning -> onCancelRun sv = true ->
            forall c, running w !! i = Some c -> c ∈ cancelled w')
  end.
Proof. apply CancelJob_outcome. Qed.

(** Processing a claimed job always comes to an end, and for every end the
    executor can come to (no executor, nil or marshalled result, marshalling
    failure, error with or without retries left, panic), after any sequence
    of progress reports, the job's row ends in the state the worker promises
    and no other row changes. *)
Theorem processJob_outcome (ex : executors) (ctx : nat) (job : Job) (w : world S) :
  owns w w job -> ctx_done w ctx = false ->
  in_int64 (RetryCount job) -> in_int64 (MaxRetries job) ->
  (exists u w', runs (processJob ex ctx job) w u w')
  /\ forall u w', runs (processJob ex ctx job) w u w' ->
       row_ends w w' (ID job) (expected_end ex job).
Proof.
  intros Hown Hctx Hi Hm. split.
  - apply runs_total, processJob_select_free.
  - intros u w'. by apply processJob_run.
Qed.

End Any.

(** A cancellation reads the running row; the worker completes the job; the
    cancellation goes on and leaves the completed row alone. *)
Lemma settled_rows_final_witness :
  exists w ts w' ts' j,
    reachable sync_op (demo_world {[ "a" := demo_job "a" JobStatusRunning 1 ]}, []) (w, ts)
    /\ reachable sync_op (w, ts) (w', ts')
    /\ ts <> ts' /\ row (store w) "a" = Some j /\ Status j = JobStatusCompleted
    /\ row (store w') "a" = Some j.
Proof.
  pose (job := demo_job "a" JobStatusRunning 1).
  assert (Hr : exists w ts w' ts' j,
    reachable sync_op (demo_world {[ "a" := job ]}, []) (w, ts)
    /\ reachable sync_op (w, ts) (w', ts')
    /\ ts <> ts' /\ row (store w) "a" = Some j /\ Status j = JobStatusCompleted).
  { eexists _, _, _, _, _. split; [|split; [|split; [|split]]].
    - eapply reach_step; [eapply reach_step; [eapply reach_step; [eapply reach_step; [eapply reach_step;
        [apply reach_refl|]|]|]|]|].
      + apply pstep_spawn. apply (op_cancel (Build_JobService true true) "a").
      + eapply (pstep_run _ _ _ 0 _ (tick 4)); [reflexivity|]. vm_compute. reflexivity.
      + apply pstep_spawn. apply (op_complete job "").
      + eapply (pstep_run _ _ _ 1 _ (tick 5)); [reflexivity|]. vm_compute. reflexivity.
      + eapply (pstep_run _ _ _ 1 _ (tick 6)); [reflexivity|]. vm_compute. reflexivity.
    - eapply reach_step; [eapply reach_step; [apply reach_refl|]|].
      + eapply (pstep_run _ _ _ 0 _ (tick 7)); [reflexivity|]. vm_compute. reflexivity.
      + eapply (pstep_run _ _ _ 0 _ (tick 8)); [reflexivity|]. vm_compute. reflexivity.
    - vm_compute. discriminate.
    - vm_compute. reflexivity.
    - reflexivity. }
  destruct Hr as (w & ts & w' & ts' & j & H1 & H2 & H3 & H4 & H5). exists w, ts, w', ts', j.
  do 5 (split; [assumption|]).
  refine (settled_rows_final (store_laws := PgStore_Laws) _ w w' ts ts' "a" j _ H1 H2 H4 _);
    [apply (keyed_singleton job)|by left].
Defined.

Lemma dequeue_claims_exclusive_witness :
  exists w' ts,
    reachable (eq Dequeue)
      (demo_world {[ "a" := demo_job "a" JobStatusPending 1 ]}, []) (w', ts)
    /\ omap claimed_id ts = ["a"] /\ NoDup (omap claimed_id ts).
Proof.
  assert (Hr : exists w' ts, reachable (eq Dequeue)
      (demo_world {[ "a" := demo_job "a" JobStatusPending 1 ]}, []) (w', ts)
      /\ omap claimed_id ts = ["a"]).
  { eexists _, _. split.
    - eapply reach_step; [eapply reach_step; [eapply reach_step; [eapply reach_step;
        [apply reach_refl|]|]|]|].
      + apply pstep_spawn. reflexivity.
      + eapply (pstep_run _ _ _ 0 _ (tick 5)); [reflexivity|]. vm_compute. reflexivity.
      + eapply (pstep_run _ _ _ 0 _ (tick 6)); [reflexivity|]. vm_compute. reflexivity.
      + eapply (pstep_run _ _ _ 0 _ (tick 7)); [reflexivity|]. vm_compute. reflexivity.
    - reflexivity. }
  destruct Hr as (w' & ts & Hr & Hc). exists w', ts. split; [exact Hr|]. split; [exact Hc|].
  refine (proj1 (dequeue_claims_exclusive (store_laws := PgStore_Laws) _ w' ts _ Hr)).
  apply (keyed_singleton (demo_job "a" JobStatusPending 1)).
Defined.

Lemma CancelJob_spec_witness :
  exists w' j', runs (CancelJob (Build_JobService true true) "a")
      (demo_world {[ "a" := demo_job "a" JobStatusPending 1 ]}) (Ok tt) w'
    /\ store w' !! "a" = Some j' /\ Status j' = JobStatusCancelled.
Proof.
  assert (Hr : exists w', runs (CancelJob (Build_JobService true true) "a")
      (demo_world {[ "a" := demo_job "a" JobStatusPending 1 ]}) (Ok tt) w').
  { eexists. eapply (runs_step (tick 5)); [reflexivity|vm_compute; reflexivity|].
    eapply (runs_step (tick 6)); [reflexivity|vm_compute; reflexivity|].
    eapply (runs_step (tick 7)); [reflexivity|vm_compute; reflexivity|].
    apply runs_ret. }
  destruct Hr as (w' & Hr).
  destruct (CancelJob_spec (store_laws := PgStore_Laws) _ _
      (demo_world {[ "a" := demo_job "a" JobStatusPending 1 ]}) _ _
      (keyed_singleton (demo_job "a" JobStatusPending 1)) Hr)
    as (_ & _ & (j' & Hj & Hst) & _); [discriminate|].
  exists w', j'. split; [exact Hr|]. split; [exact Hj|exact Hst].
Defined.

(** An executor that reports once and then fails. *)
Definition demo_exec : executors :=
  fun _ => Some (fun _ => ([RProgress 1 2 0], ExecErr "timeout")).

Lemma processJob_outcome_witness :
  exists u w', runs (processJob demo_exec 1 (demo_job "a" JobStatusRunning 1))
      (demo_world {[ "a" := demo_job "a" JobStatusRunning 1 ]}) u w'
    /\ exists j, store w' !! "a" = Some j /\ Status j = JobStatusPending /\ RetryCount j = 1.
Proof.
  destruct (processJob_outcome (store_laws := PgStore_Laws) demo_exec 1
              (demo_job "a" JobStatusRunning 1)
              (demo_world {[ "a" := demo_job "a" JobStatusRunning 1 ]}))
    as [(u & w' & Hr) Hend].
  - split; [apply (keyed_singleton (demo_job "a" JobStatusRunning 1))|].
    split; [reflexivity|]. split; [|done]. eexists. split; reflexivity.
  - reflexivity.
  - vm_compute. intuition discriminate.
  - vm_compute. intuition discriminate.
  - exists u, w'. split; [exact Hr|].
    destruct (Hend u w' Hr) as [(j & Hj & _ & Hst) _]. exists j. split; [exact Hj|exact Hst].
Defined.

(** ** The PostgreSQL-backed queue *)

(** [Dequeue] hands out the pending job created last: run alone and without
    faults it returns nothing and changes nothing when no row is pending, and
    otherwise claims, among all pending rows, one with the greatest creation
    time (its comment says the oldest), marks exactly that row running, and
    ignores the scheduled time. *)
Theorem Dequeue_newest_first (w w' : world PgStore) (r : res qerror (option Job)) :
  keyed (store w) -> runs Dequeue w r w' ->
  (r = Ok None /\ w' = w /\ forall i j, store w !! i = Some j -> Status j <> JobStatusPending)
  \/ exists job now,
       store w !! ID job = Some job /\ Status job = JobStatusPending
       /\ (forall i j, store w !! i = Some j -> Status j = JobStatusPending ->
                       CreatedAt j <= CreatedAt job)
       /\ r = Ok (Some (started now job))
       /\ w' = set_store (<[ID job := started now job]> (store w)) w.
Proof. apply Dequeue_run. Qed.

Definition two_pending : PgStore :=
  {[ "old" := demo_job "old" JobStatusPending 1; "new" := demo_job "new" JobStatusPending 2 ]}.

Lemma Dequeue_newest_first_witness :
  exists w', runs Dequeue (demo_world two_pending)
               (Ok (Some (started 6 (demo_job "new" JobStatusPending 2)))) w'
    /\ exists job now, started 6 (demo_job "new" JobStatusPending 2) = started now job
         /\ CreatedAt (demo_job "old" JobStatusPending 1) <= CreatedAt job.
Proof.
  assert (Hk : keyed two_pending).
  { intros i j. unfold two_pending. rewrite lookup_insert. case_decide as E.
    - intros [= <-]. exact E.
    - apply (keyed_singleton (demo_job "new" JobStatusPending 2)). }
  assert (Hr : exists w', runs Dequeue (demo_world two_pending)
               (Ok (Some (started 6 (demo_job "new" JobStatusPending 2)))) w').
  { eexists. eapply (runs_step (tick 5)); [reflexivity|vm_compute; reflexivity|].
    eapply (runs_step (tick 6)); [reflexivity|vm_compute; reflexivity|].
    eapply (runs_step (tick 7)); [reflexivity|vm_compute; reflexivity|].
    apply runs_ret. }
  destruct Hr as (w' & Hr). exists w'. split; [exact Hr|].
  destruct (Dequeue_newest_first (demo_world two_pending) _ _ Hk Hr) as [(? & _)|(job & now & _ & _ & Hmax & E & _)];
    [discriminate|].
  exists job, now. split; [congruence|].
  apply (Hmax "old"); reflexivity.
Defined.

(** The retry delay is not enforced: after [RetryLater] requeues a job with
    a scheduled time in the future, the very next [Dequeue] hands the job out
    again, whatever the clock says. *)
Theorem retry_delay_not_enforced (w w1 w2 : world PgStore) (job : Job) (msg : string)
    (r : res qerror bool) (r' : res qerror (option Job)) :
  store w = {[ID job := job]} -> Status job = JobStatusRunning ->
  in_int64 (RetryCount job) -> in_int64 (MaxRetries job) ->
  RetryCount job < MaxRetries job ->
  runs (RetryLater job msg) w r w1 -> runs Dequeue w1 r' w2 ->
  r = Ok true /\ exists j, r' = Ok (Some j) /\ ID j = ID job.
Proof.
  intros Hs Hst Hi Hm Hlt H1 H2.
  assert (Hown : owns (store_laws := PgStore_Laws) w w job).
  { split; [simpl; rewrite Hs; apply keyed_singleton|]. split; [done|]. split; [|done].
    exists job. split; [|done]. simpl. rewrite Hs. apply lookup_singleton_eq. }
  assert (Hk1 : keyed (store w1)).
  { eapply (runs_row_ok (store_laws := PgStore_Laws)); [|apply Hown|exact H1].
    apply RetryLater_respects. }
  eapply RetryLater_run in H1 as [-> [(j & Hj & Hp & _) Hoth]]; [|done..].
  split; [done|]. simpl in Hj, Hoth.
  destruct (Dequeue_run _ _ _ Hk1 H2) as [(_ & _ & Hnone)|(job' & now & Hrow & Hpend & _ & -> & _)].
  - by destruct (Hnone _ _ Hj).
  - eexists. split; [reflexivity|]. simpl.
    destruct (decide (ID job' = ID job)) as [|Hne]; [done|].
    rewrite Hoth, Hs, lookup_singleton_ne in Hrow by done. done.
Qed.

Lemma retry_delay_not_enforced_witness :
  exists w1 w2 j,
    runs (RetryLater (demo_job "a" JobStatusRunning 1) "timeout")
      (demo_world {[ "a" := demo_job "a" JobStatusRunning 1 ]}) (Ok true) w1
    /\ runs Dequeue w1 (Ok (Some j)) w2 /\ ID j = "a"
    /\ StartedAt j = Some 8 /\ ScheduledAt j = Some (7 + 10000000000).
Proof.
  assert (H1 : exists w1, runs (RetryLater (demo_job "a" JobStatusRunning 1) "timeout")
      (demo_world {[ "a" := demo_job "a" JobStatusRunning 1 ]}) (Ok true) w1
      /\ exists w2 j, runs Dequeue w1 (Ok (Some j)) w2
           /\ StartedAt j = Some 8 /\ ScheduledAt j = Some (7 + 10000000000)).
  { eexists. split.
    - eapply (runs_step (tick 7)); [reflexivity|vm_compute; reflexivity|].
      eapply (runs_step (tick 7)); [reflexivity|vm_compute; reflexivity|]. apply runs_ret.
    - eexists _, _. split.
      + eapply (runs_step (tick 7)); [reflexivity|vm_compute; reflexivity|].
        eapply (runs_step (tick 8)); [reflexivity|vm_compute; reflexivity|].
        eapply (runs_step (tick 8)); [reflexivity|vm_compute; reflexivity|]. apply runs_ret.
      + split; reflexivity. }
  destruct H1 as (w1 & H1 & w2 & j & H2 & Hst & Hsc). exists w1, w2, j.
  split; [exact H1|]. split; [exact H2|]. split; [|split; [exact Hst|exact Hsc]].
  destruct (retry_delay_not_enforced (demo_world {[ "a" := demo_job "a" JobStatusRunning 1 ]})
    w1 w2 (demo_job "a" JobStatusRunning 1) "timeout" (Ok true) (Ok (Some j)))
    as (_ & j' & E & Hid);
    [reflexivity|reflexivity|vm_compute; intuition discriminate
    |vm_compute; intuition discriminate|reflexivity|exact H1|exact H2|].
  injection E as ->. exact Hid.
Defined.

(** [CleanupStaleRunning] at start-up: with at most 1000 running rows (the
    window it asks for), a fault-free run marks every running row failed with
    the restart message, leaves every other row as it was, and returns the
    number of rows it moved. *)
Theorem CleanupStaleRunning_spec (w w' : world PgStore) (r : res qerror Z) :
  keyed (store w) -> Z.of_nat (length (running_rows (store w))) <= 1000 ->
  runs CleanupStaleRunning w r w' ->
  r = Ok (Z.of_nat (length (running_rows (store w))))
  /\ forall i j, store w !! i = Some j ->
       if is_running j
       then exists j', store w' !! i = Some j' /\ Status j' = JobStatusFailed
                       /\ ErrorMessage j' = stale_message
       else store w' !! i = Some j.
Proof. apply CleanupStaleRunning_run. Qed.

Lemma CleanupStaleRunning_spec_witness :
  exists w' j, runs CleanupStaleRunning
      (demo_world {[ "a" := demo_job "a" JobStatusRunning 1 ]}) (Ok 1) w'
    /\ store w' !! "a" = Some j /\ Status j = JobStatusFailed.
Proof.
  assert (Hr : exists w', runs CleanupStaleRunning
      (demo_world {[ "a" := demo_job "a" JobStatusRunning 1 ]}) (Ok 1) w').
  { eexists. eapply (runs_step (tick 5)); [reflexivity|vm_compute; reflexivity|].
    eapply (runs_step (tick 6)); [reflexivity|vm_compute; reflexivity|].
    eapply (runs_step (tick 7)); [reflexivity|vm_compute; reflexivity|]. apply runs_ret. }
  destruct Hr as (w' & Hr).
  destruct (CleanupStaleRunning_spec
      (demo_world {[ "a" := demo_job "a" JobStatusRunning 1 ]}) _ _
      (keyed_singleton (demo_job "a" JobStatusRunning 1)) ltac:(vm_compute; discriminate) Hr)
    as [_ H].
  destruct (H "a" (demo_job "a" JobStatusRunning 1) eq_refl) as (j & Hj & Hst & _).
  exists w', j. split; [exact Hr|]. split; [exact Hj|exact Hst].
Defined.
