(* ===== verification/ExprSyntax.v ===== *)
(** * ExprSyntax: the factor expression language (pkg/expression)

    The AST of ast.go, the operator and field registry and the validation gate
    of registry.go, and the look-back derivation of derive.go. *)

From stdpp Require Import base list strings gmap sorting.
From Stdlib Require Import ZArith Lia Ascii.
From S2P Require Import Prelude GoFloat.

Open Scope Z_scope.

(** ** AST (ast.go) *)

Inductive Node :=
| LiteralNode (v : float64)
| IdentifierNode (name : string)
| BinaryOpNode (op : string) (l r : Node)
| UnaryOpNode (op : string) (e : Node)
| FunctionNode (name : string) (args : list Node)
| CrossSectionalNode (op : string) (e : Node) (group : option Node).

(** Induction through the argument lists. *)
Lemma Node_ind' (P : Node -> Prop)
  (Hlit : forall v, P (LiteralNode v))
  (Hid : forall x, P (IdentifierNode x))
  (Hbin : forall op l r, P l -> P r -> P (BinaryOpNode op l r))
  (Hun : forall op e, P e -> P (UnaryOpNode op e))
  (Hfun : forall f args, Forall P args -> P (FunctionNode f args))
  (Hcs1 : forall op e, P e -> P (CrossSectionalNode op e None))
  (Hcs2 : forall op e g, P e -> P g -> P (CrossSectionalNode op e (Some g))) :
  forall n, P n.
Proof.
  fix IH 1. intros [v|x|op l r|op e|f args|op e [g|]].
  - apply Hlit.
  - apply Hid.
  - apply Hbin; apply IH.
  - apply Hun; apply IH.
  - apply Hfun. induction args as [|a args IHargs]; constructor; [apply IH|exact IHargs].
  - apply Hcs2; apply IH.
  - apply Hcs1; apply IH.
Qed.

(** ** Registry (registry.go) *)

Inductive OpCategory := CatTimeSeries | CatCrossSectional | CatUnary | CatBinary.

#[global] Instance OpCategory_eq_dec : EqDecision OpCategory.
Proof. solve_decision. Defined.

(** How an operator's own look-back is read off its arguments: the window
    length minus one ([windowSelfLookback], [windowSelfLookbackAt2]), the delay
    ([periodSelfLookback]), or nothing ([stateSelfLookback]). *)
Inductive SelfLookback :=
| windowAt (idx : nat)
| periodAt (idx : nat)
| stateSelf.

(** How an operator's own warm-up is: the same for the sliding windows and the
    delays, the indicator's warm-up for the recursive operators. *)
Inductive SelfWarmup :=
| windowSelfWarmup (idx : nat)
| periodSelfWarmup (idx : nat)
| rmaSelfWarmup
| ewmaSelfWarmup
| kalmanSelfWarmup.

(** The function the registry binds a time-series operator to. *)
Inductive TsKernel :=
| KMean | KStd | KSum | KMax | KMin | KDelay | KDelta | KPctChange | KCorr | KRank
| KRMA | KEWMA | KKalman.

Inductive CsKernel := KCsRank | KCsZScore | KCsPercentile | KCsNeutralize.

Record OperatorDef := MkOp {
  Category : OpCategory;
  Arity : nat;
  ScalarParams : list nat;
  SpecState : bool;
  selfWarmup : option SelfWarmup;
  selfLookback : option SelfLookback;
  tsEval : option TsKernel;
  csEval : option CsKernel
}.

Definition seriesStateless (arity idx : nat) (w : SelfWarmup) (lb : SelfLookback)
    (k : TsKernel) : OperatorDef :=
  MkOp CatTimeSeries arity [idx] false (Some w) (Some lb) (Some k) None.
Definition windowOp (k : TsKernel) : OperatorDef :=
  seriesStateless 2 1 (windowSelfWarmup 1) (windowAt 1) k.
Definition periodOp (k : TsKernel) : OperatorDef :=
  seriesStateless 2 1 (periodSelfWarmup 1) (periodAt 1) k.
Definition recursiveOp (arity : nat) (scalars : list nat) (w : SelfWarmup)
    (k : TsKernel) : OperatorDef :=
  MkOp CatTimeSeries arity scalars true (Some w) (Some stateSelf) (Some k) None.
Definition crossSectional (arity : nat) (k : CsKernel) : OperatorDef :=
  MkOp CatCrossSectional arity [] false None None None (Some k).
Definition unaryDef : OperatorDef := MkOp CatUnary 1 [] false None None None None.
Definition binaryDef : OperatorDef := MkOp CatBinary 2 [] false None None None None.

Definition operatorRegistry : gmap string OperatorDef := list_to_map [
  ("ts_mean", windowOp KMean);
  ("ts_std", windowOp KStd);
  ("ts_sum", windowOp KSum);
  ("ts_max", windowOp KMax);
  ("ts_min", windowOp KMin);
  ("ts_delay", periodOp KDelay);
  ("ts_delta", periodOp KDelta);
  ("ts_pct_change", periodOp KPctChange);
  ("ts_corr", seriesStateless 3 2 (windowSelfWarmup 2) (windowAt 2) KCorr);
  ("ts_rank", windowOp KRank);
  ("ts_rma", recursiveOp 2 [1%nat] rmaSelfWarmup KRMA);
  ("ts_ewma", recursiveOp 2 [1%nat] ewmaSelfWarmup KEWMA);
  ("ts_kalman", recursiveOp 3 [1%nat; 2%nat] kalmanSelfWarmup KKalman);
  ("cs_rank", crossSectional 1 KCsRank);
  ("cs_zscore", crossSectional 1 KCsZScore);
  ("cs_percentile", crossSectional 1 KCsPercentile);
  ("cs_neutralize", crossSectional 2 KCsNeutralize);
  ("neg", unaryDef); ("abs", unaryDef); ("log", unaryDef); ("sqrt", unaryDef);
  ("sign", unaryDef); ("exp", unaryDef); ("NOT", unaryDef);
  ("+", binaryDef); ("-", binaryDef); ("*", binaryDef); ("/", binaryDef);
  ("^", binaryDef); (">", binaryDef); ("<", binaryDef); ("==", binaryDef);
  (">=", binaryDef); ("<=", binaryDef); ("AND", binaryDef); ("OR", binaryDef)
].

Inductive FieldSource :=
| FieldSourceMarket | FieldSourceFundamentals | FieldSourceActivity | FieldSourceGroup.

#[global] Instance FieldSource_eq_dec : EqDecision FieldSource.
Proof. solve_decision. Defined.

Definition TableOHLCV : string := "ohlcv_daily_qfq".
Definition TableFundamentals : string := "stock_fundamentals".
Definition TableMarketActivity : string := "market_activity".
Definition TableSectorMap : string := "stock_sector_map".

Definition fieldRegistry : gmap string (FieldSource * string) := list_to_map [
  ("open", (FieldSourceMarket, TableOHLCV));
  ("high", (FieldSourceMarket, TableOHLCV));
  ("low", (FieldSourceMarket, TableOHLCV));
  ("close", (FieldSourceMarket, TableOHLCV));
  ("volume", (FieldSourceMarket, TableOHLCV));
  ("turnover", (FieldSourceMarket, TableOHLCV));
  ("pe", (FieldSourceFundamentals, TableFundamentals));
  ("pb", (FieldSourceFundamentals, TableFundamentals));
  ("ps", (FieldSourceFundamentals, TableFundamentals));
  ("roe", (FieldSourceFundamentals, TableFundamentals));
  ("roa", (FieldSourceFundamentals, TableFundamentals));
  ("revenue", (FieldSourceFundamentals, TableFundamentals));
  ("profit", (FieldSourceFundamentals, TableFundamentals));
  ("turnover_rate", (FieldSourceActivity, TableMarketActivity));
  ("turnover_rate_f", (FieldSourceActivity, TableMarketActivity));
  ("volume_ratio", (FieldSourceActivity, TableMarketActivity));
  ("sector", (FieldSourceGroup, TableSectorMap))
].

Definition has_category (c : OpCategory) (op : string) : bool :=
  match operatorRegistry !! op with
  | Some def => bool_decide (Category def = c)
  | None => false
  end.

Definition IsTimeSeriesOp (op : string) : bool := has_category CatTimeSeries op.
Definition IsCrossSectionalOp (op : string) : bool := has_category CatCrossSectional op.
Definition IsMathOp (op : string) : bool := has_category CatUnary op.
Definition IsDataField (name : string) : bool :=
  match fieldRegistry !! name with Some _ => true | None => false end.

Definition OperatorCategory (name : string) : option OpCategory :=
  Category <$> operatorRegistry !! name.

Definition OperatorArity (name : string) : nat :=
  match operatorRegistry !! name with Some def => Arity def | None => 0 end.

Definition FieldSourceOf (name : string) : option FieldSource :=
  fst <$> fieldRegistry !! name.

(** ** Registry listings (registry.go) *)

(** [sort.Strings]: bytewise order. *)
Definition string_le (a b : string) : Prop := String.leb a b = true.

#[global] Instance string_le_dec a b : Decision (string_le a b).
Proof. unfold string_le. apply _. Defined.

Definition sort_strings (l : list string) : list string := merge_sort string_le l.

Definition fields_where (keep : FieldSource * string -> bool) : list string :=
  sort_strings (map fst (filter (fun kv => keep kv.2 = true) (map_to_list fieldRegistry))).

Definition AvailableOperators : list string :=
  sort_strings (map fst (map_to_list operatorRegistry)).

Definition AvailableFields : list string := fields_where (fun _ => true).

Definition AvailableFieldsInSource (source : FieldSource) : list string :=
  fields_where (fun def => bool_decide (def.1 = source)).

Definition AvailableDataFields : list string :=
  fields_where (fun def => bool_decide (def.1 <> FieldSourceGroup)).

Definition AvailableDataFieldsWith (avail : option (gmap string bool)) : list string :=
  match avail with
  | None => AvailableDataFields
  | Some m => filter (fun f => default false (m !! f) = true) AvailableDataFields
  end.

Definition FieldsDependingOn (table : string) : list string :=
  fields_where (fun def => String.eqb def.2 table).

Definition source_string (s : FieldSource) : string :=
  match s with
  | FieldSourceMarket => "market"
  | FieldSourceFundamentals => "fundamentals"
  | FieldSourceActivity => "activity"
  | FieldSourceGroup => "group"
  end.

(** [fieldsBySourceString]: the sources in order, each with its fields; the
    parts before they are joined. *)
Definition fieldsBySource : list (string * list string) :=
  omap (fun src => match AvailableFieldsInSource src with
                   | [] => None
                   | fields => Some (source_string src, fields)
                   end)
    [FieldSourceMarket; FieldSourceFundamentals; FieldSourceGroup].

(** ** The validation gate (registry.go) *)

Fixpoint isConstantExpr (n : Node) : bool :=
  match n with
  | LiteralNode _ => true
  | UnaryOpNode _ e => isConstantExpr e
  | BinaryOpNode _ l r => isConstantExpr l && isConstantExpr r
  | FunctionNode f args =>
      match operatorRegistry !! f with
      | Some def => if bool_decide (Category def = CatUnary)
                    then forallb isConstantExpr args else false
      | None => false
      end
  | _ => false
  end.

Inductive validate_error :=
| VEmptyFormula
| VUnknownField (name : string)
| VUnknownUnary (op : string)
| VUnknownBinary (op : string)
| VUnknownOperator (name : string)
| VUnknownCrossSectional (op : string)
| VArity (name : string) (want got : nat)
| VScalarParam (name : string) (idx : nat)
| VScalarParamRange (name : string) (idx : nat).

(** The scalar-parameter checks of a function node, in declaration order. *)
Fixpoint check_scalars (name : string) (args : list Node) (idxs : list nat)
    : res validate_error unit :=
  match idxs with
  | [] => Ok tt
  | i :: idxs' =>
      match args !! i with
      | None => Err (VScalarParamRange name i)
      | Some a => if isConstantExpr a then check_scalars name args idxs'
                  else Err (VScalarParam name i)
      end
  end.

Fixpoint validateNode (node : Node) : res validate_error unit :=
  match node with
  | LiteralNode _ => Ok tt
  | IdentifierNode name => if IsDataField name then Ok tt else Err (VUnknownField name)
  | UnaryOpNode op e =>
      if IsMathOp op then validateNode e else Err (VUnknownUnary op)
  | BinaryOpNode op l r =>
      if has_category CatBinary op
      then let? _ := validateNode l in validateNode r
      else Err (VUnknownBinary op)
  | FunctionNode f args =>
      match operatorRegistry !! f with
      | Some def =>
          if bool_decide (Category def <> CatTimeSeries) && bool_decide (Category def <> CatUnary)
          then Err (VUnknownOperator f)
          else if negb (Nat.eqb (length args) (Arity def))
          then Err (VArity f (Arity def) (length args))
          else
            let? _ := check_scalars f args (ScalarParams def) in
            (fix validate_args l := match l with
                                    | [] => Ok tt
                                    | a :: l' => let? _ := validateNode a in validate_args l'
                                    end) args
      | None => Err (VUnknownOperator f)
      end
  | CrossSectionalNode op e group =>
      match operatorRegistry !! op with
      | Some def =>
          if negb (bool_decide (Category def = CatCrossSectional))
          then Err (VUnknownCrossSectional op)
          else
            let argc := match group with Some _ => 2%nat | None => 1%nat end in
            if negb (Nat.eqb argc (Arity def)) then Err (VArity op (Arity def) argc)
            else
              let? _ := validateNode e in
              match group with Some g => validateNode g | None => Ok tt end
      | None => Err (VUnknownCrossSectional op)
      end
  end.

(** ** Look-back (derive.go) *)

(** [literalIntAt]: the integer of a literal argument; [int(v)] truncates. *)
Definition literalFloatAt (args : list Node) (idx : nat) : option float64 :=
  match args !! idx with Some (LiteralNode v) => Some v | _ => None end.
Definition literalIntAt (args : list Node) (idx : nat) : option Z :=
  f64_to_int64 <$> literalFloatAt args idx.

Definition windowSelfLookbackAt (args : list Node) (idx : nat) : Z :=
  match literalIntAt args idx with
  | Some n => if n <? 1 then 0 else n - 1
  | None => 0
  end.

Definition periodSelfAt (args : list Node) (idx : nat) : Z :=
  match literalIntAt args idx with
  | Some d => if d <? 0 then 0 else d
  | None => 0
  end.

Definition eval_selfLookback (s : SelfLookback) (args : list Node) : Z :=
  match s with
  | windowAt i => windowSelfLookbackAt args i
  | periodAt i => periodSelfAt args i
  | stateSelf => 0
  end.

Definition join_lookback (x y : Z * bool) : Z * bool := (Z.max x.1 y.1, x.2 || y.2).

Fixpoint DeriveLookback (node : Node) : Z * bool :=
  match node with
  | LiteralNode _ | IdentifierNode _ => (0, false)
  | UnaryOpNode _ e => DeriveLookback e
  | BinaryOpNode _ l r => join_lookback (DeriveLookback l) (DeriveLookback r)
  | FunctionNode f args =>
      let '(bars, infinite) :=
        fold_left (fun acc a => join_lookback acc (DeriveLookback a)) args (0, false) in
      match operatorRegistry !! f with
      | Some def =>
          let infinite := if SpecState def then true else infinite in
          let bars := match selfLookback def with
                      | Some s => if Nat.eqb (length args) (Arity def)
                                  then wrap64 (bars + eval_selfLookback s args) else bars
                      | None => bars
                      end in
          (bars, infinite)
      | None => (bars, infinite)
      end
  | CrossSectionalNode _ e group =>
      match group with
      | Some g => join_lookback (DeriveLookback e) (DeriveLookback g)
      | None => DeriveLookback e
      end
  end.

(** ** Inputs (ast.go) *)

Fixpoint extractInputsRecursive (node : Node) (inputs : gset string) : gset string :=
  match node with
  | LiteralNode _ => inputs
  | IdentifierNode name => {[name]} ∪ inputs
  | BinaryOpNode _ l r => extractInputsRecursive r (extractInputsRecursive l inputs)
  | UnaryOpNode _ e => extractInputsRecursive e inputs
  | FunctionNode _ args => fold_left (fun s a => extractInputsRecursive a s) args inputs
  | CrossSectionalNode _ e group =>
      let s := extractInputsRecursive e inputs in
      match group with Some g => extractInputsRecursive g s | None => s end
  end.

Definition ExtractInputs (node : Node) : gset string := extractInputsRecursive node ∅.

(** The hint that is to list every legal field leaves out the activity
    fields. *)
Lemma hint_omits_activity_fields :
  filter (fun f => f ∉ concat (map snd fieldsBySource)) AvailableFields
  = ["turnover_rate"; "turnover_rate_f"; "volume_ratio"].
Proof. vm_compute. reflexivity. Qed.
