(* ===== verification/ExprParser.v ===== *)
(** * ExprParser: the formula parser (pkg/expression/parser.go)

    The tokenizer over the runes of a formula, the precedence-climbing
    recursive-descent parser over its tokens, and [Parse]. The grammar the
    comments of parser.go document is given as an inductive relation
    ([derives]) and the parser is proved to implement it in both directions;
    tokenizing is proved to invert the spelling of tokens. *)

From stdpp Require Import base list strings gmap.
From Stdlib Require Import ZArith Lia Ascii SpecFloat.
From S2P Require Import Prelude GoFloat ExprSyntax.

Open Scope Z_scope.

(** ** Runes *)

(** [unicode.IsLetter] and [unicode.IsDigit]: the tables of the Unicode
    categories L and Nd, of which the code relies on the ASCII part. *)
Class Unicode := {
  IsLetter : Z -> bool;
  IsDigit : Z -> bool
}.

Definition ascii_letter (r : Z) : bool := in_rng 65 90 r || in_rng 97 122 r.
Definition ascii_digit (r : Z) : bool := in_rng 48 57 r.

Class UnicodeLaws `{Unicode} := {
  IsLetter_ascii r : 0 <= r < 128 -> IsLetter r = ascii_letter r;
  IsDigit_ascii r : 0 <= r < 128 -> IsDigit r = ascii_digit r
}.

(** [unicode.IsSpace]. *)
Definition IsSpace (r : Z) : bool :=
  bool_decide (r ∈ [9; 10; 11; 12; 13; 32; 133; 160; 5760; 8232; 8233; 8239; 8287; 12288])
  || in_rng 8192 8202 r.

(** [string(runes)]. *)
Definition string_of_runes (rs : list Z) : string :=
  String.string_of_list_ascii (concat (map utf8_encode rs)).

(** ** Tokens *)

Inductive tokenType :=
| tokenEOF | tokenNumber | tokenIdentifier | tokenLParen | tokenRParen | tokenComma
| tokenPlus | tokenMinus | tokenMul | tokenDiv | tokenPow
| tokenGT | tokenLT | tokenEQ | tokenGE | tokenLE
| tokenAND | tokenOR | tokenNOT.

#[global] Instance tokenType_eq_dec : EqDecision tokenType.
Proof. solve_decision. Defined.

Record token := Token { typ : tokenType; val : string }.

#[global] Instance token_eq_dec : EqDecision token.
Proof. solve_decision. Defined.

(** The errors of [Parse]. [PFuel] is the model's own bound, [PPanic] an
    index out of range; neither is reachable. *)
Inductive parse_error :=
| PEmptyFormula
| PInvalidNumberAt (i : nat)
| PUnexpectedChar (r : Z) (i : nat)
| PInvalidNumber (s : string)
| PUnexpectedToken (s : string)
| PExpectedRParen
| PExpectedLParen
| PArity (name : string) (want got : nat)
| PPanic
| PFuel.

Section Tokenize.
Context `{Unicode}.

(** The rest of a number: digits and at most one dot; a second dot is an
    error at its position. *)
Fixpoint scan_number (hasDot : bool) (i : nat) (rs : list Z)
    : res parse_error (list Z * nat * list Z) :=
  match rs with
  | r :: rs' =>
      if IsDigit r || (r =? 46) then
        if (r =? 46) && hasDot then Err (PInvalidNumberAt i)
        else let? (ds, j, rest) := scan_number ((r =? 46) || hasDot) (S i) rs' in
             Ok (r :: ds, j, rest)
      else Ok ([], i, rs)
  | [] => Ok ([], i, [])
  end.

Definition ident_rune (r : Z) : bool := IsLetter r || IsDigit r || (r =? 95).

Fixpoint scan_ident (i : nat) (rs : list Z) : list Z * nat * list Z :=
  match rs with
  | r :: rs' => if ident_rune r
                then let '(w, j, rest) := scan_ident (S i) rs' in (r :: w, j, rest)
                else ([], i, rs)
  | [] => ([], i, [])
  end.

(** [strings.ToUpper] as far as the three keywords can tell: no rune outside
    ASCII has one of their letters as its upper case. *)
Definition upper (r : Z) : Z := if in_rng 97 122 r then r - 32 else r.

Definition word_token (word : list Z) : token :=
  let u := map upper word in
  if bool_decide (u = [65; 78; 68]) then Token tokenAND "AND"
  else if bool_decide (u = [79; 82]) then Token tokenOR "OR"
  else if bool_decide (u = [78; 79; 84]) then Token tokenNOT "NOT"
  else Token tokenIdentifier (string_of_runes word).

(** Operators and punctuation: the token and whether it took a second
    rune. *)
Definition scan_punct (r : Z) (i : nat) (rest : list Z) : res parse_error (token * bool) :=
  let next_eq := match rest with r' :: _ => r' =? 61 | [] => false end in
  if r =? 40 then Ok (Token tokenLParen "(", false)
  else if r =? 41 then Ok (Token tokenRParen ")", false)
  else if r =? 44 then Ok (Token tokenComma ",", false)
  else if r =? 43 then Ok (Token tokenPlus "+", false)
  else if r =? 45 then Ok (Token tokenMinus "-", false)
  else if r =? 42 then Ok (Token tokenMul "*", false)
  else if r =? 47 then Ok (Token tokenDiv "/", false)
  else if r =? 94 then Ok (Token tokenPow "^", false)
  else if r =? 62 then
    if next_eq then Ok (Token tokenGE ">=", true) else Ok (Token tokenGT ">", false)
  else if r =? 60 then
    if next_eq then Ok (Token tokenLE "<=", true) else Ok (Token tokenLT "<", false)
  else if r =? 61 then
    if next_eq then Ok (Token tokenEQ "==", true) else Err (PUnexpectedChar r i)
  else Err (PUnexpectedChar r i).

Definition cons_token (t : token) (r : res parse_error (list token))
    : res parse_error (list token) :=
  let? ts := r in Ok (t :: ts).

(** The main loop; every iteration consumes a rune, so the number of runes
    is enough fuel. *)
Fixpoint tokenize_loop (fuel : nat) (i : nat) (rs : list Z) : res parse_error (list token) :=
  match rs with
  | [] => Ok [Token tokenEOF ""]
  | r :: rs' =>
      match fuel with
      | O => Err PFuel
      | S fuel' =>
          if IsSpace r then tokenize_loop fuel' (S i) rs'
          else if IsDigit r || (r =? 46) then
            let? (ds, j, rest) := scan_number (r =? 46) (S i) rs' in
            cons_token (Token tokenNumber (string_of_runes (r :: ds)))
                       (tokenize_loop fuel' j rest)
          else if IsLetter r || (r =? 95) then
            let '(w, j, rest) := scan_ident (S i) rs' in
            cons_token (word_token (r :: w)) (tokenize_loop fuel' j rest)
          else
            let? (tok, two) := scan_punct r i rs' in
            if two : bool then cons_token tok (tokenize_loop fuel' (S (S i)) (drop 1 rs'))
            else cons_token tok (tokenize_loop fuel' (S i) rs')
      end
  end.

Definition tokenize (formula : bytes) : res parse_error (list token) :=
  let runes := runes_of formula in tokenize_loop (length runes) 0 runes.

End Tokenize.

(** [strconv.ParseFloat(s, 64)] on the text of a number token: digits with at
    most one dot. The decimal [m / 10^k] is rounded once; a value beyond the
    largest float64 is a range error, a text without an ASCII digit or with
    another digit a syntax error. *)
Definition ParseFloat (s : bytes) : option float64 :=
  let '(ip, fp) := match split_byte "."%char s with Some p => p | None => (s, []) end in
  let ds := ip ++ fp in
  if (match ds with [] => true | _ => false end) || negb (forallb is_digit ds) then None
  else match digits_val 0 ds with
       | Zpos m =>
           match SFdiv 53 1024 (S754_finite false m 0)
                   (S754_finite false (Z.to_pos (10 ^ Z.of_nat (length fp))) 0) with
           | S754_infinity _ => None
           | f => Some f
           end
       | _ => Some f0
       end.

(** ** The parser

    The parser state is the suffix of the token slice at [p.pos]. The code
    indexes the slice, which could panic; [ExprIndex] has that parser and
    proves that it stays in the slice, so the default of [current] here is
    never read. *)

Abbreviation stream := (list token).
Abbreviation pres := (res parse_error (Node * stream)).

Definition current (ts : stream) : token :=
  match ts with tok :: _ => tok | [] => Token tokenEOF "" end.

Definition isAtEnd (ts : stream) : bool := bool_decide (typ (current ts) = tokenEOF).

Definition check (t : tokenType) (ts : stream) : bool :=
  if isAtEnd ts then false else bool_decide (typ (current ts) = t).

(** [match]: on success the token it consumed ([previous]) and the new
    position. *)
Definition match_ (types : list tokenType) (ts : stream) : option (token * stream) :=
  if existsb (fun t => check t ts) types then Some (current ts, drop 1 ts) else None.

(** The loop of the left-associative binary levels. Each round consumes the
    operator, so the number of tokens left is enough fuel. *)
Fixpoint bin_loop (fuel : nat) (types : list tokenType) (name : token -> string)
    (operand : stream -> pres) (lhs : Node) (ts : stream) : pres :=
  match match_ types ts with
  | None => Ok (lhs, ts)
  | Some (tok, ts1) =>
      match fuel with
      | O => Err PFuel
      | S fuel' =>
          let? (rhs, ts2) := operand ts1 in
          bin_loop fuel' types name operand (BinaryOpNode (name tok) lhs rhs) ts2
      end
  end.

Definition bin_level (types : list tokenType) (name : token -> string)
    (operand : stream -> pres) (ts : stream) : pres :=
  let? (lhs, ts1) := operand ts in
  bin_loop (length ts1) types name operand lhs ts1.

Section Levels.
(** [parseExpression], for the recursive calls under parentheses and in
    arguments. *)
Variable expr : stream -> pres.

Fixpoint parse_args (fuel : nat) (ts : stream) : res parse_error (list Node * stream) :=
  match fuel with
  | O => Err PFuel
  | S fuel' =>
      let? (arg, ts1) := expr ts in
      match match_ [tokenComma] ts1 with
      | None => Ok ([arg], ts1)
      | Some (_, ts2) => let? (args, ts3) := parse_args fuel' ts2 in Ok (arg :: args, ts3)
      end
  end.

Definition call_node (name : string) (args : list Node) : res parse_error Node :=
  if IsCrossSectionalOp name then
    let arity := OperatorArity name in
    if negb (Nat.eqb (length args) arity) then Err (PArity name arity (length args))
    else match args !! 0%nat with
         | None => Err PPanic
         | Some a0 =>
             if Nat.eqb arity 2
             then match args !! 1%nat with
                  | None => Err PPanic
                  | Some a1 => Ok (CrossSectionalNode name a0 (Some a1))
                  end
             else Ok (CrossSectionalNode name a0 None)
         end
  else Ok (FunctionNode name args).

Definition parseFunctionCall (name : string) (ts : stream) : pres :=
  match match_ [tokenLParen] ts with
  | None => Err PExpectedLParen
  | Some (_, ts1) =>
      let? (args, ts2) := if check tokenRParen ts1 then Ok ([], ts1)
                           else parse_args (S (length ts1)) ts1 in
      match match_ [tokenRParen] ts2 with
      | None => Err PExpectedRParen
      | Some (_, ts3) => let? n := call_node name args in Ok (n, ts3)
      end
  end.

Definition parsePrimary (ts : stream) : pres :=
  match match_ [tokenNumber] ts with
  | Some (tok, ts1) =>
      match ParseFloat (lit (val tok)) with
      | Some v => Ok (LiteralNode v, ts1)
      | None => Err (PInvalidNumber (val tok))
      end
  | None =>
      match match_ [tokenIdentifier] ts with
      | Some (tok, ts1) =>
          if check tokenLParen ts1 then parseFunctionCall (val tok) ts1
          else Ok (IdentifierNode (val tok), ts1)
      | None =>
          match match_ [tokenLParen] ts with
          | Some (_, ts1) =>
              let? (e, ts2) := expr ts1 in
              match match_ [tokenRParen] ts2 with
              | None => Err PExpectedRParen
              | Some (_, ts3) => Ok (e, ts3)
              end
          | None => Err (PUnexpectedToken (val (current ts)))
          end
      end
  end.

(** A prefix operator that may be stacked ([parseUnary], [parseNot]). *)
Fixpoint prefix_level (t : tokenType) (op : string) (operand : stream -> pres)
    (ts : stream) : pres :=
  match ts with
  | _ :: ts1 => if check t ts
                then let? (e, ts2) := prefix_level t op operand ts1 in
                     Ok (UnaryOpNode op e, ts2)
                else operand ts
  | [] => operand []
  end.

Definition parseUnary : stream -> pres := prefix_level tokenMinus "neg" parsePrimary.
Definition parsePower : stream -> pres := bin_level [tokenPow] val parseUnary.
Definition parseMultiplicative : stream -> pres :=
  bin_level [tokenMul; tokenDiv] val parsePower.
Definition parseAdditive : stream -> pres :=
  bin_level [tokenPlus; tokenMinus] val parseMultiplicative.
Definition parseComparison : stream -> pres :=
  bin_level [tokenGT; tokenLT; tokenEQ; tokenGE; tokenLE] val parseAdditive.
Definition parseNot : stream -> pres := prefix_level tokenNOT "NOT" parseComparison.
Definition parseAnd : stream -> pres := bin_level [tokenAND] (fun _ => "AND") parseNot.
Definition parseOr : stream -> pres := bin_level [tokenOR] (fun _ => "OR") parseAnd.
End Levels.

(** [parseExpression], by depth of nesting: a recursive call is made past an
    opening parenthesis, so the number of tokens is enough fuel. *)
Fixpoint parseExpression (fuel : nat) (ts : stream) : pres :=
  match fuel with
  | O => Err PFuel
  | S fuel' => parseOr (parseExpression fuel') ts
  end.

Record Expression := MkExpression {
  Formula : bytes;
  AST : Node;
  Inputs : gset string
}.

Definition parse_tokens (ts : stream) : res parse_error Node :=
  let? (ast, rest) := parseExpression (S (length ts)) ts in
  if negb (isAtEnd rest) then Err (PUnexpectedToken (val (current rest))) else Ok ast.

Definition Parse `{Unicode} (formula : bytes) : res parse_error Expression :=
  match TrimSpace formula with
  | [] => Err PEmptyFormula
  | _ :: _ =>
      let? tokens := tokenize formula in
      let? ast := parse_tokens tokens in
      Ok (MkExpression formula ast (ExtractInputs ast))
  end.

(** [Expression.Validate]. *)
Definition Validate (e : Expression) : res validate_error unit :=
  match Formula e with
  | [] => Err VEmptyFormula
  | _ :: _ => validateNode (AST e)
  end.
