(* ===== verification/ExprGrammar.v ===== *)
(** * ExprGrammar: the parser implements the documented grammar

    The precedence chain documented at [parseExpression] (OR, AND, NOT,
    comparison, additive, multiplicative, power, unary, primary; the binary
    levels associate to the left) as a relation between trees and token
    sequences, the two directions of its equivalence with the parser, the
    termination of the parser, and the round trip of the tokenizer. *)

From stdpp Require Import base list strings gmap.
From Stdlib Require Import ZArith Lia Ascii SpecFloat.
From S2P Require Import Prelude GoFloat ExprSyntax ExprParser.

(** ** The grammar *)

Inductive level := LOr | LAnd | LNot | LCmp | LAdd | LMul | LPow | LUnary | LPrimary.

Definition next (k : level) : level :=
  match k with
  | LOr => LAnd | LAnd => LNot | LNot => LCmp | LCmp => LAdd | LAdd => LMul
  | LMul => LPow | LPow => LUnary | LUnary => LPrimary | LPrimary => LPrimary
  end.

Definition bin_ops (k : level) : list tokenType :=
  match k with
  | LOr => [tokenOR]
  | LAnd => [tokenAND]
  | LCmp => [tokenGT; tokenLT; tokenEQ; tokenGE; tokenLE]
  | LAdd => [tokenPlus; tokenMinus]
  | LMul => [tokenMul; tokenDiv]
  | LPow => [tokenPow]
  | _ => []
  end.

Definition bin_name (k : level) (tok : token) : string :=
  match k with LOr => "OR" | LAnd => "AND" | _ => val tok end.

Definition prefix_op (k : level) : option (tokenType * string) :=
  match k with
  | LNot => Some (tokenNOT, "NOT")
  | LUnary => Some (tokenMinus, "neg")
  | _ => None
  end.

(** [derives k n ts]: the tokens [ts] are a phrase of level [k] whose tree is
    [n]. *)
Inductive derives : level -> Node -> stream -> Prop :=
| derives_next k n ts :
    k <> LPrimary -> derives (next k) n ts -> derives k n ts
| derives_bin k tok l r tl tr :
    typ tok ∈ bin_ops k -> derives k l tl -> derives (next k) r tr ->
    derives k (BinaryOpNode (bin_name k tok) l r) (tl ++ tok :: tr)
| derives_prefix k op tok e ts :
    prefix_op k = Some (typ tok, op) -> derives k e ts ->
    derives k (UnaryOpNode op e) (tok :: ts)
| derives_number tok v :
    typ tok = tokenNumber -> ParseFloat (lit (val tok)) = Some v ->
    derives LPrimary (LiteralNode v) [tok]
| derives_field tok :
    typ tok = tokenIdentifier -> derives LPrimary (IdentifierNode (val tok)) [tok]
| derives_paren lp rp e ts :
    typ lp = tokenLParen -> typ rp = tokenRParen -> derives LOr e ts ->
    derives LPrimary e (lp :: ts ++ [rp])
| derives_call0 id lp rp n :
    typ id = tokenIdentifier -> typ lp = tokenLParen -> typ rp = tokenRParen ->
    call_node (val id) [] = Ok n ->
    derives LPrimary n [id; lp; rp]
| derives_call id lp rp args n ts :
    typ id = tokenIdentifier -> typ lp = tokenLParen -> typ rp = tokenRParen ->
    derives_args args ts -> call_node (val id) args = Ok n ->
    derives LPrimary n (id :: lp :: ts ++ [rp])
with derives_args : list Node -> stream -> Prop :=
| args_one a ts : derives LOr a ts -> derives_args [a] ts
| args_cons a comma args ts ts' :
    typ comma = tokenComma -> derives LOr a ts -> derives_args args ts' ->
    derives_args (a :: args) (ts ++ comma :: ts').

Definition parse_at (expr : stream -> pres) (k : level) : stream -> pres :=
  match k with
  | LOr => parseOr expr | LAnd => parseAnd expr | LNot => parseNot expr
  | LCmp => parseComparison expr | LAdd => parseAdditive expr
  | LMul => parseMultiplicative expr | LPow => parsePower expr
  | LUnary => parseUnary expr | LPrimary => parsePrimary expr
  end.

(** ** Token primitives *)

Create HintDb parser.
#[local] Opaque call_node.

Lemma match_Some types ts tok ts' :
  match_ types ts = Some (tok, ts') ->
  ts = tok :: ts' /\ typ tok ∈ types /\ typ tok <> tokenEOF.
Proof.
  unfold match_, check, isAtEnd.
  destruct ts as [|t ts]; simpl.
  - replace (existsb _ types) with false; [done|]. by induction types.
  - case_match eqn:E; [|done]. intros [= <- <-].
    apply existsb_exists in E as (ty & Hin & Hc).
    case_bool_decide; [done|]. apply bool_decide_eq_true in Hc as <-.
    rewrite drop_0. split_and!; [done|by apply list_elem_of_In|done].
Qed.

Lemma match_hit types tok ts :
  typ tok ∈ types -> typ tok <> tokenEOF -> match_ types (tok :: ts) = Some (tok, ts).
Proof.
  intros Hin Hne. unfold match_, check, isAtEnd; simpl.
  rewrite bool_decide_false by done.
  replace (existsb _ types) with true; [by rewrite drop_0|].
  symmetry. apply existsb_exists. exists (typ tok).
  by rewrite bool_decide_true, <- list_elem_of_In.
Qed.

Lemma match_miss types ts :
  typ (current ts) ∉ types -> match_ types ts = None.
Proof.
  intros Hin. unfold match_, check.
  replace (existsb _ types) with false; [done|]. symmetry.
  apply not_true_iff_false. rewrite existsb_exists. intros (ty & Hty & Hc).
  destruct (isAtEnd ts); [done|]. apply bool_decide_eq_true in Hc as <-.
  by apply Hin, list_elem_of_In.
Qed.

Lemma match_None types ts tok ts' :
  match_ types ts = None -> ts = tok :: ts' -> typ tok <> tokenEOF -> typ tok ∉ types.
Proof. intros Hm -> Hne Hin. by rewrite match_hit in Hm. Qed.

Lemma match_one t tok ts :
  typ tok = t -> t <> tokenEOF -> match_ [t] (tok :: ts) = Some (tok, ts).
Proof. intros <- Hne. by apply match_hit; [apply list_elem_of_singleton|]. Qed.

Lemma match_other t tok ts : typ tok <> t -> match_ [t] (tok :: ts) = None.
Proof. intros H. apply match_miss. by rewrite list_elem_of_singleton. Qed.

Lemma check_hit t tok ts : typ tok = t -> t <> tokenEOF -> check t (tok :: ts) = true.
Proof.
  intros <- ?. unfold check, isAtEnd; simpl. rewrite bool_decide_false by done.
  by rewrite bool_decide_true.
Qed.

Lemma check_miss t ts : typ (current ts) <> t -> check t ts = false.
Proof. intros. unfold check. destruct (isAtEnd ts); [done|]. by rewrite bool_decide_false. Qed.

Lemma check_true t ts : check t ts = true -> exists tok ts', ts = tok :: ts' /\ typ tok = t.
Proof.
  unfold check, isAtEnd. destruct ts as [|tok ts]; simpl.
  - done.
  - case_bool_decide; [done|]. intros E%bool_decide_eq_true. eauto.
Qed.

(** ** Soundness: what the parser returns derives from what it consumed *)

Definition sound_at (k : level) (p : stream -> pres) : Prop :=
  forall ts n rest, p ts = Ok (n, rest) -> exists pre, ts = pre ++ rest /\ derives k n pre.

Tactic Notation "inv_bind" hyp(H) "as" ident(a) ident(s) ident(E) :=
  apply res_bind_ok in H as ([a s] & E & H).

Lemma bin_loop_sound k operand fuel pre lhs ts n rest :
  sound_at (next k) operand -> derives k lhs pre ->
  bin_loop fuel (bin_ops k) (bin_name k) operand lhs ts = Ok (n, rest) ->
  exists mid, ts = mid ++ rest /\ derives k n (pre ++ mid).
Proof.
  intros Hop. revert pre lhs ts. induction fuel as [|fuel IH]; intros pre lhs ts Hd; simpl.
  - destruct (match_ _ ts) as [[tok ts1]|]; [done|].
    intros [= <- <-]. exists []. by rewrite app_nil_r.
  - destruct (match_ _ ts) as [[tok ts1]|] eqn:Em; intros H.
    2:{ injection H as <- <-. exists []. by rewrite app_nil_r. }
    apply match_Some in Em as (-> & Hin & _). inv_bind H as a s E.
    apply Hop in E as (mid & -> & Hr).
    eapply IH in H; [|by apply derives_bin].
    destruct H as (mid' & -> & Hd').
    exists (tok :: mid ++ mid'). split; [by simpl; rewrite <- app_assoc|].
    by rewrite <- app_assoc in Hd'.
Qed.

Lemma bin_level_sound k operand :
  k <> LPrimary -> sound_at (next k) operand ->
  sound_at k (bin_level (bin_ops k) (bin_name k) operand).
Proof.
  intros Hk Hop ts n rest H. unfold bin_level in H. inv_bind H as a s E.
  apply Hop in E as (pre & -> & Hd).
  eapply bin_loop_sound in H as (mid & -> & Hn); [|done|by apply derives_next].
  exists (pre ++ mid). by rewrite <- app_assoc.
Qed.

Lemma prefix_level_sound k t op operand :
  k <> LPrimary -> prefix_op k = Some (t, op) -> sound_at (next k) operand ->
  sound_at k (prefix_level t op operand).
Proof.
  intros Hk Hp Hop ts. induction ts as [|tok ts IH]; intros n rest; cbn [prefix_level].
  - intros (pre & E & Hd)%Hop. eauto using derives.
  - destruct (check t (tok :: ts)) eqn:E; intros H.
    + apply check_true in E as (tok' & ts' & [= <- <-] & <-). inv_bind H as a s E.
      apply IH in E as (pre & -> & Hd). injection H as <- <-.
      exists (tok :: pre). eauto using derives.
    + apply Hop in H as (pre & E' & Hd). eauto using derives.
Qed.

Lemma parse_args_sound expr fuel ts args rest :
  sound_at LOr expr -> parse_args expr fuel ts = Ok (args, rest) ->
  exists pre, ts = pre ++ rest /\ derives_args args pre.
Proof.
  intros He. revert ts args rest.
  induction fuel as [|fuel IH]; intros ts args rest; [done|].
  intros H; cbn [parse_args] in H. inv_bind H as a s E. apply He in E as (pre & -> & Hd).
  destruct (match_ _ s) as [[tok ts2]|] eqn:Em.
  - apply match_Some in Em as (-> & Ht & _). inv_bind H as b s' E.
    apply IH in E as (pre' & -> & Hd'). injection H as <- <-.
    exists (pre ++ tok :: pre'). split; [by rewrite <- app_assoc|].
    apply args_cons; [set_solver|done|done].
  - injection H as <- <-. eauto using derives_args.
Qed.

Lemma parseFunctionCall_sound expr id ts n rest :
  sound_at LOr expr -> typ id = tokenIdentifier ->
  parseFunctionCall expr (val id) ts = Ok (n, rest) ->
  exists pre, ts = pre ++ rest /\ derives LPrimary n (id :: pre).
Proof.
  intros He Hid H. unfold parseFunctionCall in H.
  destruct (match_ [tokenLParen] ts) as [[lp ts1]|] eqn:E1; [|done].
  apply match_Some in E1 as (-> & Hlp & _). inv_bind H as a s E.
  destruct (match_ [tokenRParen] s) as [[rp ts3]|] eqn:E2; [|done].
  apply match_Some in E2 as (-> & Hrp & _).
  apply res_bind_ok in H as (nd & Hc & [= <- <-]).
  assert (typ lp = tokenLParen) by set_solver. assert (typ rp = tokenRParen) by set_solver.
  destruct (check tokenRParen ts1).
  - injection E as <- ->. exists [lp; rp]. eauto using derives.
  - apply parse_args_sound in E as (pre & -> & Hargs); [|done].
    exists (lp :: pre ++ [rp]). split; [by simpl; rewrite <- app_assoc|].
    eauto using derives.
Qed.

Lemma parsePrimary_sound expr : sound_at LOr expr -> sound_at LPrimary (parsePrimary expr).
Proof.
  intros He ts n rest H. unfold parsePrimary in H.
  destruct (match_ [tokenNumber] ts) as [[tok ts1]|] eqn:E1.
  { apply match_Some in E1 as (-> & Ht & _).
    destruct (ParseFloat _) as [v|] eqn:Ev; [|done]. injection H as <- <-.
    exists [tok]. split; [done|]. apply derives_number; set_solver. }
  destruct (match_ [tokenIdentifier] ts) as [[tok ts1]|] eqn:E2.
  { apply match_Some in E2 as (-> & Ht & _).
    assert (typ tok = tokenIdentifier) by set_solver.
    destruct (check tokenLParen ts1).
    - apply parseFunctionCall_sound in H as (pre & -> & Hd); [|done|done].
      by exists (tok :: pre).
    - injection H as <- <-. exists [tok]. eauto using derives. }
  destruct (match_ [tokenLParen] ts) as [[lp ts1]|] eqn:E3; [|done].
  apply match_Some in E3 as (-> & Ht & _). inv_bind H as a s E.
  apply He in E as (pre & -> & Hd).
  destruct (match_ [tokenRParen] s) as [[rp ts3]|] eqn:E4; [|done].
  apply match_Some in E4 as (-> & Hrp & _). injection H as <- <-.
  exists (lp :: pre ++ [rp]). split; [by simpl; rewrite <- app_assoc|].
  apply derives_paren; set_solver.
Qed.

(** The levels of the parser, as its definitions compose them. *)
Lemma parse_at_bin expr k :
  bin_ops k <> [] ->
  parse_at expr k = bin_level (bin_ops k) (bin_name k) (parse_at expr (next k)).
Proof. destruct k; done. Qed.

Lemma parse_at_prefix expr k t op :
  prefix_op k = Some (t, op) ->
  parse_at expr k = prefix_level t op (parse_at expr (next k)).
Proof. destruct k; simpl; intros [=]; subst; done. Qed.

(** Every level is a binary level, a prefix level or the primary level. *)
Lemma level_cases (P : level -> Prop) :
  P LPrimary ->
  (forall k, k <> LPrimary -> bin_ops k <> [] -> P (next k) -> P k) ->
  (forall k t op, k <> LPrimary -> prefix_op k = Some (t, op) -> P (next k) -> P k) ->
  forall k, P k.
Proof.
  intros H0 Hb Hp.
  assert (P LUnary) by (eapply Hp; done).
  assert (P LPow) by (apply Hb; done). assert (P LMul) by (apply Hb; done).
  assert (P LAdd) by (apply Hb; done). assert (P LCmp) by (apply Hb; done).
  assert (P LNot) by (eapply Hp; done). assert (P LAnd) by (apply Hb; done).
  assert (P LOr) by (apply Hb; done). by intros [].
Qed.

Lemma parse_at_sound expr k : sound_at LOr expr -> sound_at k (parse_at expr k).
Proof.
  intros He. induction k as [|k Hk Hb IH|k t op Hk Hp IH] using level_cases.
  - by apply parsePrimary_sound.
  - rewrite parse_at_bin by done. by apply bin_level_sound.
  - rewrite (parse_at_prefix _ _ _ _ Hp). by apply prefix_level_sound.
Qed.

Lemma parseExpression_sound fuel : sound_at LOr (parseExpression fuel).
Proof.
  induction fuel as [|fuel IH]; [intros ??; done|].
  exact (parse_at_sound _ LOr IH).
Qed.

(** ** Completeness: every phrase is parsed to its tree *)

(** The token types a level may consume after a phrase, and the ones a phrase
    may start with. *)
Definition tight (k : level) : list tokenType :=
  match k with
  | LOr => [tokenOR; tokenAND] | LAnd => [tokenAND] | _ => []
  end ++
  match k with LOr | LAnd | LNot | LCmp => bin_ops LCmp | _ => [] end ++
  match k with LOr | LAnd | LNot | LCmp | LAdd => bin_ops LAdd | _ => [] end ++
  match k with LOr | LAnd | LNot | LCmp | LAdd | LMul => bin_ops LMul | _ => [] end ++
  match k with LUnary | LPrimary => [] | _ => bin_ops LPow end ++
  [tokenLParen].

Definition firsts (k : level) : list tokenType :=
  match k with LOr | LAnd | LNot => [tokenNOT] | _ => [] end ++
  match k with LPrimary => [] | _ => [tokenMinus] end ++
  [tokenNumber; tokenIdentifier; tokenLParen].

Definition stops (k : level) (rest : stream) : Prop := typ (current rest) ∉ tight k.

Lemma stops_next k rest : stops k rest -> stops (next k) rest.
Proof. unfold stops; destruct k; simpl; set_solver. Qed.

Lemma stops_own_ops k rest : stops k rest -> typ (current rest) ∉ bin_ops k.
Proof. unfold stops; destruct k; simpl; set_solver. Qed.

Lemma stops_before_op k tok rest : typ tok ∈ bin_ops k -> stops (next k) (tok :: rest).
Proof.
  unfold stops; destruct k; simpl; rewrite ?elem_of_cons; intros H Ht;
    destruct (typ tok); set_solver.
Qed.

Lemma bin_ops_not_EOF k t : t ∈ bin_ops k -> t <> tokenEOF.
Proof. destruct k; simpl; set_solver. Qed.

#[local] Hint Resolve stops_next bin_ops_not_EOF : parser.

Scheme derives_mut := Minimality for derives Sort Prop
  with derives_args_mut := Minimality for derives_args Sort Prop.

Lemma derives_not_EOF k n ts : derives k n ts -> Forall (fun t => typ t <> tokenEOF) ts.
Proof.
  revert k n ts. apply (derives_mut (fun _ _ ts => Forall (fun t => typ t <> tokenEOF) ts)
                          (fun _ ts => Forall (fun t => typ t <> tokenEOF) ts));
    intros; rewrite ?Forall_app, ?Forall_cons, ?Forall_nil, ?Forall_app, ?Forall_cons in *;
    intuition eauto; try congruence.
  - by eapply bin_ops_not_EOF.
  - match goal with H : prefix_op ?k = _ |- _ => destruct k; simpl in H; congruence end.
Qed.

Lemma derives_first k n ts :
  derives k n ts -> exists tok ts', ts = tok :: ts' /\ typ tok ∈ firsts k.
Proof.
  induction 1 as [k n ts Hk _ (tok & ts' & -> & Hf)|k tok l r tl tr _ _ (t & ts' & -> & Hf) _ _
                 |k op tok e ts Hp _ _| | | | | ]; try (eexists _, _; split; [done|]; simpl; set_solver).
  - eexists _, _; split; [done|]. destruct k; simpl in *; set_solver.
  - eexists _, _; split; [done|].
    destruct k; simpl in Hp; try discriminate; injection Hp as <- _; simpl; set_solver.
Qed.

Lemma bin_loop_stop fuel k operand n rest :
  stops k rest -> bin_loop fuel (bin_ops k) (bin_name k) operand n rest = Ok (n, rest).
Proof. intros Hs. destruct fuel; simpl; rewrite match_miss; auto using stops_own_ops. Qed.

(** [complete f expr]: [expr] parses the phrases of fewer than [f] tokens. *)
Definition complete (f : nat) (expr : stream -> pres) : Prop :=
  forall n ts rest, (length ts < f)%nat -> derives LOr n ts -> stops LOr rest ->
    expr (ts ++ rest) = Ok (n, rest).

Lemma stops_LOr_close tok rest :
  typ tok = tokenRParen \/ typ tok = tokenComma -> stops LOr (tok :: rest).
Proof. unfold stops; simpl. intros [-> | ->]; set_solver. Qed.

Section Complete.
Context (f : nat) (expr : stream -> pres) (He : complete f expr).

Lemma parse_args_complete args ts rest fuel :
  derives_args args ts -> (length ts < f)%nat -> (length ts < fuel)%nat ->
  (exists rp rest', rest = rp :: rest' /\ typ rp = tokenRParen) ->
  parse_args expr fuel (ts ++ rest) = Ok (args, rest).
Proof.
  intros Hd Hf. revert fuel. induction Hd as [a ts Ha|a comma args ts ts' Hc Ha Hd IH];
    intros [|fuel] Hfuel (rp & rest' & -> & Hrp); try lia; cbn [parse_args].
  - rewrite (He a) by (auto using stops_LOr_close). simpl.
    by rewrite match_other by congruence.
  - rewrite length_app in *. simpl in *. rewrite <- app_assoc. simpl.
    rewrite (He a) by (auto using stops_LOr_close; lia). simpl.
    rewrite match_one by done. simpl.
    rewrite IH; [done|lia|lia|eauto].
Qed.

Lemma parsePrimary_complete n ts rest :
  derives LPrimary n ts -> (length ts <= f)%nat -> stops LPrimary rest ->
  parsePrimary expr (ts ++ rest) = Ok (n, rest).
Proof.
  intros Hd Hf Hs. remember LPrimary as k eqn:Ek.
  destruct Hd as [k n ts Hk| k tok l r tl tr Hop| k op tok e ts Hp
                 |tok v Ht Hv|tok Ht|lp rp e ts Hl Hr Hd|id lp rp n Hi Hl Hr Hc
                 |id lp rp args n ts Hi Hl Hr Ha Hc]; try (subst k; simpl in *; set_solver).
  - unfold parsePrimary; simpl. by rewrite match_one, Hv by done.
  - unfold parsePrimary; simpl. rewrite match_other by congruence.
    rewrite match_one by done.
    rewrite check_miss; [done|]. unfold stops in Hs; simpl in Hs; set_solver.
  - unfold parsePrimary; simpl.
    rewrite 2!match_other by congruence.
    rewrite match_one by done. simpl in Hf.
    rewrite length_app in Hf; simpl in Hf. rewrite <- app_assoc. simpl.
    rewrite (He e) by (auto using stops_LOr_close; lia). simpl.
    by rewrite match_one by done.
  - unfold parsePrimary; simpl.
    rewrite match_other by congruence.
    rewrite match_one by done.
    rewrite check_hit by done.
    unfold parseFunctionCall. rewrite match_one by done.
    rewrite check_hit by done. simpl.
    rewrite match_one by done. by rewrite Hc.
  - unfold parsePrimary; simpl.
    rewrite match_other by congruence.
    rewrite match_one by done.
    rewrite check_hit by done.
    unfold parseFunctionCall. rewrite match_one by done.
    rewrite <- app_assoc. simpl in Hf. rewrite length_app in Hf; simpl in Hf.
    assert (exists t ts', ts = t :: ts' /\ typ t ∈ firsts LOr) as (t & ts' & -> & Ht).
    { destruct Ha as [a ts H1|a c args ts ts' _ H1 _];
        apply derives_first in H1 as (? & ? & -> & ?); simpl; eauto. }
    rewrite (check_miss tokenRParen) by (simpl; intros E; rewrite E in Ht; clear - Ht; set_solver).
    rewrite (parse_args_complete args); [|done|lia|rewrite length_app; lia|simpl; eauto].
    cbn [res_bind app]. rewrite match_one by done. by rewrite Hc.
Qed.

(** A phrase of a binary level brings the loop of that level to its end
    with its tree as the left operand. *)
Lemma parse_at_complete k n ts :
  derives k n ts -> (length ts <= f)%nat ->
  (forall rest, stops k rest -> parse_at expr k (ts ++ rest) = Ok (n, rest))
  /\ (bin_ops k <> [] -> forall rest, stops (next k) rest ->
      exists fuel, (length rest <= fuel)%nat /\
        parse_at expr k (ts ++ rest)
        = bin_loop fuel (bin_ops k) (bin_name k) (parse_at expr (next k)) n rest).
Proof.
  induction 1 as [k n ts Hk Hd IH|k tok l r tl tr Hop Hl IHl Hr IHr|k op tok e ts Hp Hd IH
                 | | | | | ]; intros Hf;
    try (split; [|done]; intros rest Hs; apply parsePrimary_complete; eauto using derives; fail).
  - destruct (IH Hf) as [IH1 _].
    assert (Hloop : bin_ops k <> [] -> forall rest, stops (next k) rest ->
      parse_at expr k (ts ++ rest)
      = bin_loop (length rest) (bin_ops k) (bin_name k) (parse_at expr (next k)) n rest).
    { intros Hb rest Hs. rewrite parse_at_bin by done. unfold bin_level. by rewrite IH1. }
    split; [|eauto]. intros rest Hs.
    destruct (decide (bin_ops k = [])) as [Hb|Hb].
    + assert (exists t op, prefix_op k = Some (t, op) /\ t ∉ firsts (next k)) as (t & op & Hp & Ht).
      { destruct k; simpl in *; try done; eexists _, _; (split; [done|set_solver]). }
      rewrite (parse_at_prefix _ _ _ _ Hp).
      destruct (derives_first _ _ _ Hd) as (tok & ts' & -> & Hin). cbn [prefix_level app].
      rewrite check_miss by (simpl; intros E; rewrite E in Hin; done).
      apply (IH1 rest); auto with parser.
    + rewrite Hloop by auto with parser. by apply bin_loop_stop.
  - rewrite length_app in Hf; simpl in Hf.
    destruct (IHl ltac:(lia)) as [_ IHl']. destruct (IHr ltac:(lia)) as [IHr' _].
    assert (Hb : bin_ops k <> []) by (intros E; rewrite E in Hop; set_solver).
    assert (Hloop : forall rest, stops (next k) rest -> exists fuel, (length rest <= fuel)%nat /\
      parse_at expr k ((tl ++ tok :: tr) ++ rest)
      = bin_loop fuel (bin_ops k) (bin_name k) (parse_at expr (next k))
          (BinaryOpNode (bin_name k tok) l r) rest).
    { intros rest Hs. rewrite <- app_assoc; simpl.
      destruct (IHl' Hb (tok :: tr ++ rest)) as (fuel & Hfuel & ->); [by apply stops_before_op|].
      destruct fuel as [|fuel]; simpl in Hfuel; [lia|]. exists fuel.
      rewrite length_app in Hfuel. split; [lia|]. cbn [bin_loop].
      rewrite match_hit by eauto with parser. by rewrite IHr'. }
    split; [|done]. intros rest Hs.
    destruct (Hloop rest) as (fuel & _ & ->); [auto with parser|]. by apply bin_loop_stop.
  - simpl in Hf. destruct (IH ltac:(lia)) as [IH1 _].
    split; [|destruct k; done]. intros rest Hs.
    rewrite (parse_at_prefix _ _ _ _ Hp). cbn [prefix_level app].
    rewrite check_hit; [|done|intros E; rewrite E in Hp; by destruct k].
    rewrite <- (parse_at_prefix expr _ _ _ Hp). by rewrite IH1.
Qed.
End Complete.

Lemma parseExpression_complete fuel : complete fuel (parseExpression fuel).
Proof.
  induction fuel as [|fuel IH]; intros n ts rest Hlen Hd Hs; [lia|].
  exact (proj1 (parse_at_complete _ _ IH LOr n ts Hd ltac:(lia)) rest Hs).
Qed.

(** ** Totality: the bounds of the model are never reached *)

(** An error the code can return (not the model's fuel, not a panic). *)
Definition real_error (e : parse_error) : Prop := e <> PFuel /\ e <> PPanic.

Definition real_result {A} (r : res parse_error A) : Prop :=
  match r with Ok _ => True | Err e => real_error e end.

(** A parser that, on at most [N] tokens, fails with a real error or consumes
    a token. *)
Definition consumes (N : nat) (p : stream -> pres) : Prop :=
  forall ts, (length ts <= N)%nat ->
    match p ts with
    | Ok (_, rest) => (length rest < length ts)%nat
    | Err e => real_error e
    end.

Lemma match_length types ts tok ts' :
  match_ types ts = Some (tok, ts') -> length ts = S (length ts').
Proof. by intros (-> & _)%match_Some. Qed.

Lemma bin_loop_total N types name operand fuel lhs ts :
  consumes N operand -> (length ts <= fuel)%nat -> (length ts <= N)%nat ->
  match bin_loop fuel types name operand lhs ts with
  | Ok (_, rest) => (length rest <= length ts)%nat
  | Err e => real_error e
  end.
Proof.
  intros Hop. revert lhs ts. induction fuel as [|fuel IH]; intros lhs ts Hf HN; simpl.
  - destruct (match_ types ts) as [[tok ts1]|] eqn:E; [|lia].
    apply match_length in E. lia.
  - destruct (match_ types ts) as [[tok ts1]|] eqn:E; [|lia].
    apply match_length in E. specialize (Hop ts1 ltac:(lia)).
    destruct (operand ts1) as [[rhs ts2]|e]; simpl; [|done].
    specialize (IH (BinaryOpNode (name tok) lhs rhs) ts2 ltac:(lia) ltac:(lia)).
    destruct (bin_loop _ _ _ _ _ _) as [[??]|]; [lia|done].
Qed.

Lemma bin_level_total N types name operand :
  consumes N operand -> consumes N (bin_level types name operand).
Proof.
  intros Hop ts HN. unfold bin_level. specialize (Hop ts HN) as H1.
  destruct (operand ts) as [[lhs ts1]|e]; simpl; [|done].
  pose proof (bin_loop_total N types name operand (length ts1) lhs ts1 Hop
                ltac:(lia) ltac:(lia)) as H2.
  destruct (bin_loop _ _ _ _ _ _) as [[??]|]; [lia|done].
Qed.

Lemma prefix_level_total N t op operand :
  consumes N operand -> consumes N (prefix_level t op operand).
Proof.
  intros Hop ts. induction ts as [|tok ts IH]; intros HN; cbn [prefix_level].
  - by apply Hop.
  - destruct (check t (tok :: ts)); [|by apply Hop]. simpl in HN.
    specialize (IH ltac:(lia)). destruct (prefix_level _ _ _ ts) as [[??]|]; simpl; [lia|done].
Qed.

Lemma parse_args_total N expr fuel ts :
  consumes N expr -> (length ts <= N)%nat -> (length ts < fuel)%nat ->
  match parse_args expr fuel ts with
  | Ok (_, rest) => (length rest < length ts)%nat
  | Err e => real_error e
  end.
Proof.
  intros He. revert ts. induction fuel as [|fuel IH]; intros ts HN Hf; [lia|].
  cbn [parse_args]. specialize (He ts HN) as H1.
  destruct (expr ts) as [[arg ts1]|e]; simpl; [|done].
  destruct (match_ _ ts1) as [[tok ts2]|] eqn:E; [|done].
  apply match_length in E. specialize (IH ts2 ltac:(lia) ltac:(lia)).
  destruct (parse_args _ _ _) as [[??]|]; simpl; [lia|done].
Qed.

(** The registry gives every cross-sectional operator an argument to index. *)
Lemma cross_sectional_arity name :
  IsCrossSectionalOp name = true -> (1 <= OperatorArity name)%nat.
Proof.
  assert (Hall : map_Forall (fun _ d => Category d = CatCrossSectional -> (1 <= Arity d)%nat)
                   operatorRegistry).
  { apply (bool_decide_unpack _). vm_compute. exact I. }
  unfold IsCrossSectionalOp, has_category, OperatorArity.
  destruct (operatorRegistry !! name) as [d|] eqn:E; [|done].
  intros ?%bool_decide_eq_true. by eapply (Hall name).
Qed.

#[local] Transparent call_node.
Lemma call_node_total name args : real_result (call_node name args).
Proof.
  unfold call_node. destruct (IsCrossSectionalOp name) eqn:E; [|done].
  apply cross_sectional_arity in E. revert E.
  generalize (OperatorArity name) as arity. intros arity E.
  destruct (Nat.eqb (length args) arity) eqn:El; simpl; [|done].
  apply Nat.eqb_eq in El.
  destruct args as [|a0 args]; simpl in *; [lia|].
  destruct (Nat.eqb _ 2) eqn:E2; [|done]. apply Nat.eqb_eq in E2.
  destruct args as [|a1 args]; simpl in *; [lia|done].
Qed.
#[local] Opaque call_node.

Lemma parsePrimary_total N expr :
  consumes N expr -> consumes (S N) (parsePrimary expr).
Proof.
  intros He ts HN. unfold parsePrimary.
  destruct (match_ [tokenNumber] ts) as [[tok ts1]|] eqn:E1.
  { apply match_length in E1. destruct (ParseFloat _); [lia|done]. }
  destruct (match_ [tokenIdentifier] ts) as [[tok ts1]|] eqn:E2.
  { apply match_length in E2. destruct (check tokenLParen ts1); [|lia].
    unfold parseFunctionCall.
    destruct (match_ [tokenLParen] ts1) as [[lp ts2]|] eqn:E3; [|done].
    apply match_length in E3.
    assert (match (if check tokenRParen ts2 then Ok ([], ts2)
                   else parse_args expr (S (length ts2)) ts2) with
            | Ok (_, rest) => (length rest <= length ts2)%nat
            | Err e => real_error e end) as H1.
    { destruct (check tokenRParen ts2); [done|].
      pose proof (parse_args_total N expr (S (length ts2)) ts2 He ltac:(lia) ltac:(lia)).
      destruct (parse_args _ _ _) as [[??]|]; [lia|done]. }
    destruct (if check _ _ then _ else _) as [[args ts3]|e]; simpl; [|done].
    destruct (match_ [tokenRParen] ts3) as [[rp ts4]|] eqn:E4; [|done].
    apply match_length in E4. pose proof (call_node_total (val tok) args).
    destruct (call_node _ _); simpl in *; [lia|done]. }
  destruct (match_ [tokenLParen] ts) as [[lp ts1]|] eqn:E3; [|done].
  apply match_length in E3. specialize (He ts1 ltac:(lia)).
  destruct (expr ts1) as [[e ts2]|]; simpl; [|done].
  destruct (match_ [tokenRParen] ts2) as [[rp ts3]|] eqn:E4; [|done].
  apply match_length in E4. lia.
Qed.

Lemma parseExpression_total N : consumes N (parseExpression (S N)).
Proof.
  assert (Hlevel : forall M expr k, consumes M (parsePrimary expr) -> consumes M (parse_at expr k)).
  { intros M expr k HM. induction k as [|k Hk Hb IH|k t op Hk Hp IH] using level_cases.
    - done.
    - rewrite parse_at_bin by done. by apply bin_level_total.
    - rewrite (parse_at_prefix _ _ _ _ Hp). by apply prefix_level_total. }
  induction N as [|N IH].
  - apply (Hlevel 0%nat _ LOr). intros [|tok ts] Hl; simpl in Hl; [done|lia].
  - by apply (Hlevel (S N) _ LOr), parsePrimary_total.
Qed.

(** ** The tokenizer *)

Section Tokenizer.
Context `{Unicode}.

Definition EOF : token := Token tokenEOF "".

Lemma scan_number_length dot i rs :
  match scan_number dot i rs with
  | Ok (_, _, rest) => (length rest <= length rs)%nat
  | Err e => real_error e
  end.
Proof.
  revert dot i. induction rs as [|r rs IH]; intros dot i; simpl; [lia|].
  destruct (IsDigit r || (r =? 46)%Z); [|simpl; lia].
  destruct ((r =? 46)%Z && dot); [done|].
  specialize (IH ((r =? 46)%Z || dot) (S i)).
  destruct (scan_number _ _ _) as [[[??]?]|]; simpl; [lia|done].
Qed.

Lemma scan_ident_length i rs : (length (scan_ident i rs).2 <= length rs)%nat.
Proof.
  revert i. induction rs as [|r rs IH]; intros i; simpl; [lia|].
  destruct (ident_rune r); [|done]. specialize (IH (S i)).
  destruct (scan_ident _ _) as [[??]?]; simpl in *; lia.
Qed.

Lemma scan_punct_real r i rest : real_result (scan_punct r i rest).
Proof. unfold scan_punct. repeat case_match; done. Qed.

Lemma scan_punct_not_EOF r i rest tok two :
  scan_punct r i rest = Ok (tok, two) -> typ tok <> tokenEOF.
Proof. unfold scan_punct. intros ?. repeat case_match; simplify_eq/=; done. Qed.

Lemma word_token_not_EOF w : typ (word_token w) <> tokenEOF.
Proof. unfold word_token. by repeat case_match. Qed.

(** A tokenized formula is a sequence of other tokens closed by one EOF. *)
Definition token_list (r : res parse_error (list token)) : Prop :=
  match r with
  | Ok ts => exists body, ts = body ++ [EOF] /\ Forall (fun t => typ t <> tokenEOF) body
  | Err e => real_error e
  end.

Lemma cons_token_list t r : typ t <> tokenEOF -> token_list r -> token_list (cons_token t r).
Proof.
  destruct r as [ts|e]; simpl; [|done]. intros Ht (body & -> & Hb).
  exists (t :: body). auto.
Qed.

Lemma tokenize_loop_total fuel i rs :
  (length rs <= fuel)%nat -> token_list (tokenize_loop fuel i rs).
Proof.
  revert i rs. induction fuel as [|fuel IH]; intros i [|r rs] Hf; simpl in *;
    try (by exists []); try lia.
  destruct (IsSpace r); [apply IH; lia|].
  destruct (IsDigit r || (r =? 46)%Z).
  { pose proof (scan_number_length (r =? 46)%Z (S i) rs) as Hs.
    destruct (scan_number _ _ _) as [[[ds j] rest]|e]; [|done].
    apply cons_token_list; [done|apply IH; lia]. }
  destruct (IsLetter r || (r =? 95)%Z).
  { pose proof (scan_ident_length (S i) rs) as Hs.
    destruct (scan_ident _ _) as [[w j] rest]; simpl in Hs.
    apply cons_token_list; [apply word_token_not_EOF|apply IH; lia]. }
  pose proof (scan_punct_real r i rs) as Hr.
  destruct (scan_punct r i rs) as [[tok two]|e] eqn:E; simpl; [|done].
  apply scan_punct_not_EOF in E.
  destruct two; apply cons_token_list; try done; apply IH; rewrite ?length_drop; lia.
Qed.

Lemma tokenize_total formula : token_list (tokenize formula).
Proof. by apply tokenize_loop_total. Qed.

Lemma eof_split (body pre rest : list token) :
  Forall (fun t => typ t <> tokenEOF) body -> Forall (fun t => typ t <> tokenEOF) pre ->
  typ (current rest) = tokenEOF -> body ++ [EOF] = pre ++ rest ->
  pre = body /\ rest = [EOF].
Proof.
  intros Hb. revert pre. induction Hb as [|t body Ht Hb IH]; intros pre Hp Hr E.
  - destruct pre as [|t pre]; simpl in E; [done|].
    inversion Hp; subst. injection E as <- _. done.
  - destruct pre as [|t' pre]; simpl in E.
    + subst rest. done.
    + injection E as <- E. inversion Hp; subst.
      by destruct (IH pre) as [-> ->].
Qed.

Lemma parse_tokens_iff body n :
  Forall (fun t => typ t <> tokenEOF) body ->
  parse_tokens (body ++ [EOF]) = Ok n <-> derives LOr n body.
Proof.
  intros Hb. unfold parse_tokens. split.
  - intros Hp. inv_bind Hp as ast rest E.
    destruct (isAtEnd rest) eqn:Ee; simpl in Hp; [|done]. injection Hp as ->.
    apply parseExpression_sound in E as (pre & E & Hd).
    apply bool_decide_eq_true in Ee.
    destruct (eof_split body pre rest) as [-> ->]; eauto using derives_not_EOF.
  - intros Hd. rewrite (parseExpression_complete _ n body).
    + done.
    + rewrite length_app; simpl; lia.
    + done.
    + unfold stops; simpl. set_solver.
Qed.
End Tokenizer.

(** ** Spelling tokens

    The canonical text of a token sequence: every token followed by a blank. *)

Definition spelling (t : tokenType) : string :=
  match t with
  | tokenLParen => "(" | tokenRParen => ")" | tokenComma => ","
  | tokenPlus => "+" | tokenMinus => "-" | tokenMul => "*" | tokenDiv => "/" | tokenPow => "^"
  | tokenGT => ">" | tokenLT => "<" | tokenEQ => "==" | tokenGE => ">=" | tokenLE => "<="
  | tokenAND => "AND" | tokenOR => "OR" | tokenNOT => "NOT"
  | tokenEOF | tokenNumber | tokenIdentifier => ""
  end.

(** Digits with at most one dot; letters, digits and underscores not starting
    with a digit and not a keyword. *)
Fixpoint number_tail (dot : bool) (rs : list Z) : bool :=
  match rs with
  | [] => true
  | r :: rs' => if (r =? 46)%Z then negb dot && number_tail true rs'
                else ascii_digit r && number_tail dot rs'
  end.

Definition ascii_ident (r : Z) : bool := ascii_letter r || ascii_digit r || (r =? 95)%Z.

Definition lexeme (t : token) : bool :=
  let rs := map byteZ (lit (val t)) in
  match typ t with
  | tokenEOF => false
  | tokenNumber => match rs with [] => false | _ => number_tail false rs end
  | tokenIdentifier =>
      match rs with
      | [] => false
      | r :: rs' => (ascii_letter r || (r =? 95)%Z) && forallb ascii_ident rs'
                    && bool_decide (word_token rs = t)
      end
  | ty => bool_decide (val t = spelling ty)
  end.

Definition spell (ts : list token) : bytes :=
  concat (map (fun t => lit (val t) ++ [" "%char]) ts).

Lemma byteZ_range c : (0 <= byteZ c < 256)%Z.
Proof. unfold byteZ. pose proof (N_ascii_bounded c). lia. Qed.

Lemma runes_of_ascii s :
  Forall (fun c => byteZ c < 128)%Z s -> runes_of s = map byteZ s.
Proof.
  induction 1 as [|c s Hc Hs IH]; [done|]. cbn [runes_of map].
  rewrite (proj2 (Z.ltb_lt _ _) Hc). by rewrite IH.
Qed.

Lemma string_of_runes_ascii s :
  Forall (fun c => byteZ c < 128)%Z s ->
  string_of_runes (map byteZ s) = String.string_of_list_ascii s.
Proof.
  intros Hs. unfold string_of_runes. f_equal.
  induction Hs as [|c s Hc Hs IH]; [done|]. cbn [map concat]. rewrite IH.
  pose proof (byteZ_range c). unfold utf8_encode.
  replace ((byteZ c <? 0) || (1114111 <? byteZ c) || ((55296 <=? byteZ c) && (byteZ c <=? 57343)))%Z
    with false by lia.
  rewrite (proj2 (Z.ltb_lt _ _) Hc). unfold bytesZ, byteZ. simpl.
  by rewrite N2Z.id, ascii_N_embedding.
Qed.

(** [TrimSpace] keeps every byte that no white-space encoding contains. *)
Lemma strip_all_keeps (c : ascii) ps fuel s :
  Forall (fun p => c ∉ p) ps -> c ∈ s -> c ∈ strip_all fuel ps s.
Proof.
  intros Hps. revert s. induction fuel as [|fuel IH]; intros s Hs; simpl; [done|].
  destruct (first_strip ps s) as [s'|] eqn:E; [|done]. apply IH. clear IH.
  induction Hps as [|p ps Hp Hps IH']; simpl in E; [done|].
  destruct (strip_prefix p s) as [s''|] eqn:E'; [|by apply IH']. injection E as ->.
  assert (s = p ++ s') as ->; [|rewrite elem_of_app in Hs; naive_solver].
  clear -E'. revert s E'. induction p as [|a p IH]; intros [|b s] E'; simpl in *; try congruence.
  destruct (Ascii.eqb a b) eqn:Eb; [|done]. apply Ascii.eqb_eq in Eb as ->.
  f_equal. by apply IH.
Qed.

Lemma graph_not_space c p : (33 <= byteZ c < 128)%Z -> p ∈ space_seqs -> c ∉ p.
Proof.
  intros Hc Hp Hin.
  assert (Hall : forallb (fun p => forallb (fun b => (byteZ b <? 33) || (128 <=? byteZ b))%Z p)
                   space_seqs = true) by (vm_compute; reflexivity).
  rewrite forallb_forall in Hall. apply list_elem_of_In, Hall in Hp.
  rewrite forallb_forall in Hp. apply list_elem_of_In, Hp in Hin. lia.
Qed.

Lemma elem_of_rev {A} (x : A) l : x ∈ rev l <-> x ∈ l.
Proof. rewrite !list_elem_of_In. symmetry. apply in_rev. Qed.

Lemma TrimSpace_keeps c s : (33 <= byteZ c < 128)%Z -> c ∈ s -> TrimSpace s <> [].
Proof.
  intros Hc Hs E. apply (not_elem_of_nil c). rewrite <- E. unfold TrimSpace.
  rewrite elem_of_rev. apply strip_all_keeps.
  - apply Forall_map, Forall_forall. intros p Hp. unfold compose. rewrite elem_of_rev.
    by apply graph_not_space.
  - rewrite elem_of_rev. apply strip_all_keeps; [|done].
    apply Forall_forall. intros p Hp. by apply graph_not_space.
Qed.

Section Spelling.
Context `{UnicodeLaws}.

Lemma IsDigit_in r : ascii_digit r = true -> IsDigit r = true.
Proof. intros Hr. rewrite IsDigit_ascii; [done|]. unfold ascii_digit, in_rng in Hr. lia. Qed.

Lemma scan_number_spelled dot i rs rest :
  number_tail dot rs = true ->
  exists j, scan_number dot i (rs ++ 32%Z :: rest) = Ok (rs, j, 32%Z :: rest).
Proof.
  revert dot i. induction rs as [|r rs IH]; intros dot i Hn; simpl in *.
  - rewrite IsDigit_ascii by lia. by exists i.
  - destruct (r =? 46)%Z eqn:E.
    + bool_to_prop. rewrite orb_true_r. subst dot. simpl.
      destruct (IH true (S i)) as [j ->]; [done|]. by exists j.
    + bool_to_prop. rewrite IsDigit_in by done. simpl.
      destruct (IH dot (S i)) as [j ->]; [done|]. by exists j.
Qed.

Lemma ident_rune_ascii r : ascii_ident r = true -> ident_rune r = true.
Proof.
  intros Hr. unfold ident_rune. unfold ascii_ident in Hr.
  destruct (r =? 95)%Z; [by rewrite orb_true_r|]. rewrite orb_false_r in *.
  rewrite IsDigit_ascii, IsLetter_ascii; [done| |];
    unfold ascii_letter, ascii_digit, in_rng in Hr; lia.
Qed.

Lemma scan_ident_spelled i rs rest :
  forallb ascii_ident rs = true ->
  exists j, scan_ident i (rs ++ 32%Z :: rest) = (rs, j, 32%Z :: rest).
Proof.
  revert i. induction rs as [|r rs IH]; intros i Hn; simpl in *.
  - unfold ident_rune. rewrite IsLetter_ascii, IsDigit_ascii by lia. by exists i.
  - bool_to_prop. rewrite ident_rune_ascii by done.
    destruct (IH (S i)) as [j ->]; [done|]. by exists j.
Qed.

Lemma IsSpace_graph r : (33 <= r < 128)%Z -> IsSpace r = false.
Proof.
  intros Hr. unfold IsSpace, in_rng. rewrite bool_decide_false; [lia|].
  rewrite !elem_of_cons, elem_of_nil. lia.
Qed.

Lemma number_tail_ascii dot rs :
  number_tail dot rs = true -> Forall (fun r => 33 <= r < 128)%Z rs.
Proof.
  revert dot. induction rs as [|r rs IH]; intros dot Hn; simpl in *; [done|].
  unfold ascii_digit, in_rng in Hn.
  destruct (r =? 46)%Z eqn:E; bool_to_prop; constructor; eauto; lia.
Qed.

Lemma ident_ascii rs : forallb ascii_ident rs = true -> Forall (fun r => 33 <= r < 128)%Z rs.
Proof.
  unfold ascii_ident, ascii_letter, ascii_digit, in_rng.
  induction rs as [|r rs IH]; simpl; [done|]. intros Hr. bool_to_prop.
  constructor; [lia|auto].
Qed.

Lemma lexeme_ascii t : lexeme t = true -> Forall (fun r => 33 <= r < 128)%Z (map byteZ (lit (val t))).
Proof.
  destruct t as [ty v]. unfold lexeme; cbn [typ val]. intros Hl.
  destruct ty; try done;
    try (apply bool_decide_eq_true in Hl; subst v; repeat constructor; vm_compute; done).
  - destruct (map byteZ (lit v)); [done|]. by eapply number_tail_ascii.
  - destruct (map byteZ (lit v)) as [|r rs]; [done|]. bool_to_prop.
    constructor; [|by apply ident_ascii].
    unfold ascii_letter, in_rng in *. lia.
Qed.

Lemma string_of_lexeme t :
  lexeme t = true -> string_of_runes (map byteZ (lit (val t))) = val t.
Proof.
  intros Hl%lexeme_ascii. rewrite string_of_runes_ascii.
  - apply String.string_of_list_ascii_of_string.
  - apply Forall_map in Hl. eapply Forall_impl; [exact Hl|]. simpl. lia.
Qed.

Lemma tokenize_word r rs t fuel i rest :
  ascii_letter r || (r =? 95)%Z = true -> forallb ascii_ident rs = true ->
  word_token (r :: rs) = t -> (S (length rs) + S (length rest) <= fuel)%nat ->
  exists fuel' j, (S (length rest) <= fuel')%nat /\
    tokenize_loop fuel i ((r :: rs) ++ 32%Z :: rest)
    = cons_token t (tokenize_loop fuel' j (32%Z :: rest)).
Proof.
  intros Hr Hrs Hw Hf. destruct fuel as [|fuel]; [lia|]. cbn [tokenize_loop app].
  assert (33 <= r < 128)%Z by (unfold ascii_letter, in_rng in Hr; lia).
  rewrite IsSpace_graph, IsDigit_ascii, IsLetter_ascii, Hr by lia.
  replace (ascii_digit r || (r =? 46)%Z) with false
    by (unfold ascii_letter, ascii_digit, in_rng in *; lia).
  destruct (scan_ident_spelled (S i) rs rest) as [j ->]; [done|].
  exists fuel, j. rewrite Hw. split; [lia|done].
Qed.

Lemma tokenize_punct r ext two t fuel i rest :
  (33 <= r < 128)%Z -> ascii_ident r = false -> (r =? 46)%Z = false ->
  (ext, two) ∈ [([], false); ([61%Z], true)] ->
  scan_punct r i (ext ++ 32%Z :: rest) = Ok (t, two) ->
  (S (length ext) + S (length rest) <= fuel)%nat ->
  exists fuel' j, (S (length rest) <= fuel')%nat /\
    tokenize_loop fuel i ((r :: ext) ++ 32%Z :: rest)
    = cons_token t (tokenize_loop fuel' j (32%Z :: rest)).
Proof.
  intros Hr Hi Hd He Hs Hf. destruct fuel as [|fuel]; [lia|]. cbn [tokenize_loop app].
  rewrite IsSpace_graph, IsDigit_ascii, IsLetter_ascii by lia.
  unfold ascii_ident in Hi. apply orb_false_iff in Hi as [[Hl Hg]%orb_false_iff Hu].
  rewrite Hl, Hg, Hu, Hd. cbn [orb]. rewrite Hs. rewrite !elem_of_cons, elem_of_nil in He.
  destruct He as [[= -> ->]|[[= -> ->]|[]]]; cbn [res_bind app drop] in *;
    eexists _, _; (split; [|reflexivity]); simpl in Hf; lia.
Qed.

(** One spelled token, followed by its blank. *)
Lemma tokenize_spelled_token t fuel i rest :
  lexeme t = true -> (length (lit (val t)) + S (length rest) <= fuel)%nat ->
  exists fuel' j, (S (length rest) <= fuel')%nat /\
    tokenize_loop fuel i (map byteZ (lit (val t)) ++ 32%Z :: rest)
    = cons_token t (tokenize_loop fuel' j (32%Z :: rest)).
Proof.
  destruct t as [ty v]. unfold lexeme; cbn [typ val]. intros Hl Hf.
  destruct ty; try done;
    try (apply bool_decide_eq_true in Hl; subst v; apply tokenize_word; simpl in *; done || lia);
    try (apply bool_decide_eq_true in Hl; subst v;
         first [ apply (tokenize_punct _ [] false) | apply (tokenize_punct _ [61%Z] true) ];
         solve [ lia | done | set_solver | reflexivity ]).
  - pose proof (string_of_lexeme (Token tokenNumber v)) as Hv.
    unfold lexeme in Hv; cbn [typ val] in Hv. specialize (Hv Hl).
    pose proof Hl as Ha. rewrite <- (length_map byteZ) in Hf.
    destruct (map byteZ (lit v)) as [|r rs]; [done|].
    apply number_tail_ascii, Forall_cons in Ha as [Hr Hrs].
    destruct fuel as [|fuel]; simpl in Hf; [lia|]. cbn [tokenize_loop app].
    rewrite IsSpace_graph by done. cbn [number_tail] in Hl.
    destruct (r =? 46)%Z eqn:E; bool_to_prop.
    + rewrite orb_true_r. destruct (scan_number_spelled true (S i) rs rest) as [j ->]; [done|].
      exists fuel, j. split; [lia|]. simpl. by rewrite Hv.
    + rewrite IsDigit_in by done. cbn [orb].
      destruct (scan_number_spelled false (S i) rs rest) as [j ->]; [done|].
      exists fuel, j. split; [lia|]. simpl. by rewrite Hv.
  - rewrite <- (length_map byteZ) in Hf.
    destruct (map byteZ (lit v)) as [|r rs]; [done|]. bool_to_prop.
    apply tokenize_word; try done. by eapply bool_decide_eq_true_1.
Qed.

Lemma tokenize_spelled ts fuel i :
  forallb lexeme ts = true -> (length (spell ts) <= fuel)%nat ->
  tokenize_loop fuel i (map byteZ (spell ts)) = Ok (ts ++ [EOF]).
Proof.
  revert fuel i. induction ts as [|t ts IH]; intros fuel i Hl Hf.
  - by destruct fuel.
  - cbn [forallb] in Hl. bool_to_prop. unfold spell in *. cbn [map concat] in *.
    rewrite <- app_assoc in *. rewrite map_app. cbn [map app].
    rewrite length_app in Hf; cbn [length app] in Hf.
    change (byteZ " "%char) with 32%Z.
    destruct (tokenize_spelled_token t fuel i (map byteZ (spell ts))) as (fuel' & j & Hf' & E);
      [done|unfold spell; rewrite length_map; lia|].
    unfold spell in *. rewrite E. destruct fuel' as [|fuel']; [lia|].
    rewrite length_map in Hf'. cbn [tokenize_loop].
    replace (IsSpace 32) with true by done.
    rewrite IH by (done || lia). done.
Qed.

Lemma spell_ascii ts : forallb lexeme ts = true -> Forall (fun c => byteZ c < 128)%Z (spell ts).
Proof.
  induction ts as [|t ts IH]; [constructor|]. cbn [forallb]. intros Hl. bool_to_prop.
  unfold spell; cbn [map concat]. rewrite !Forall_app. split; [split|].
  - apply lexeme_ascii in H1. apply Forall_map in H1.
    eapply Forall_impl; [exact H1|]. simpl. lia.
  - by repeat constructor.
  - by apply IH.
Qed.

Lemma spell_not_blank ts : ts <> [] -> forallb lexeme ts = true -> TrimSpace (spell ts) <> [].
Proof.
  intros Hne Hl. destruct ts as [|t ts]; [done|]. cbn [forallb] in Hl.
  apply andb_true_iff in Hl as [Hl _]. pose proof (lexeme_ascii t Hl) as Ha.
  assert (exists c s, lit (val t) = c :: s) as (c & s & E).
  { destruct t as [ty v]. unfold lexeme in Hl; cbn [typ val] in *.
    destruct (lit v) as [|c s] eqn:Ev; [|eauto].
    destruct ty; try done; apply bool_decide_eq_true in Hl; by subst v. }
  rewrite E in Ha. apply Forall_cons in Ha as [Hc _].
  apply (TrimSpace_keeps c); [done|]. unfold spell; cbn [map concat]. rewrite E. set_solver.
Qed.

Lemma tokenize_spell ts : forallb lexeme ts = true -> tokenize (spell ts) = Ok (ts ++ [EOF]).
Proof.
  intros Hl. unfold tokenize. rewrite runes_of_ascii by by apply spell_ascii.
  apply tokenize_spelled; [done|]. by rewrite length_map.
Qed.
End Spelling.

(** ** Properties of the parser *)

Section ParserProperties.
Context `{Unicode}.

(** C3. The parser implements the documented grammar, in both directions:
    [Parse] accepts a formula exactly when it is not blank and its tokens
    (before the closing EOF) derive from the OR level, with the tree of that
    derivation, so precedence and associativity are the ones the comments of
    parser.go state and no phrase has two readings. *)
Theorem Parse_iff_grammar formula e :
  Parse formula = Ok e <->
  TrimSpace formula <> []
  /\ e = MkExpression formula (AST e) (ExtractInputs (AST e))
  /\ exists body, tokenize formula = Ok (body ++ [EOF]) /\ derives LOr (AST e) body.
Proof.
  unfold Parse. pose proof (tokenize_total formula) as Ht.
  destruct (TrimSpace formula) as [|b bs]; [split; [done|naive_solver]|].
  destruct (tokenize formula) as [ts|err]; simpl in *; [|split; [done|naive_solver]].
  destruct Ht as (body & -> & Hb). split.
  - intros (ast & Hp & [= <-])%res_bind_ok. simpl. split; [done|]. split; [done|].
    exists body. split; [done|]. by apply parse_tokens_iff.
  - intros (_ & -> & body' & [= E] & Hd). apply app_inv_tail in E as <-. simpl in *.
    apply parse_tokens_iff in Hd; [|done]. by rewrite Hd.
Qed.

(** Parsing terminates on every formula: the bounds of the loops are never
    reached, so [Parse] returns an expression or one of the errors of the
    source. *)
Lemma Parse_total formula : real_result (Parse formula).
Proof.
  unfold Parse. destruct (TrimSpace formula); [done|].
  pose proof (tokenize_total formula) as Ht.
  destruct (tokenize formula) as [ts|e]; simpl in *; [|done].
  unfold parse_tokens. pose proof (parseExpression_total (length ts) ts ltac:(lia)) as Hp.
  destruct (parseExpression _ ts) as [[ast rest]|e]; simpl in *; [|done].
  by destruct (isAtEnd rest).
Qed.
End ParserProperties.

(** Text round trip: spelling out the tokens of any phrase of the grammar
    and parsing the text gives back exactly the tree of the phrase. *)
Theorem Parse_spell `{UnicodeLaws} n ts
  (Hphrase : derives LOr n ts) (Hlex : forallb lexeme ts = true) :
  Parse (spell ts) = Ok (MkExpression (spell ts) n (ExtractInputs n)).
Proof.
  unfold Parse. rewrite tokenize_spell by done.
  pose proof (derives_first _ _ _ Hphrase) as (tok & ts' & E & _).
  destruct (TrimSpace (spell ts)) eqn:Et.
  { exfalso. revert Et. apply spell_not_blank; [by rewrite E|done]. }
  cbn [res_bind]. rewrite (proj2 (parse_tokens_iff ts n (derives_not_EOF _ _ _ Hphrase)) Hphrase).
  done.
Qed.

(** The ASCII part of the Unicode tables. *)
Definition ascii_unicode : Unicode := {| IsLetter := ascii_letter; IsDigit := ascii_digit |}.

Lemma ascii_unicode_laws : @UnicodeLaws ascii_unicode.
Proof. by constructor. Qed.

Definition demo_tokens : list token :=
  [Token tokenNOT "NOT"; Token tokenIdentifier "close"; Token tokenGT ">";
   Token tokenMinus "-"; Token tokenNumber "1"; Token tokenPow "^"; Token tokenNumber "2"].

Definition demo_tree : Node :=
  UnaryOpNode "NOT" (BinaryOpNode ">" (IdentifierNode "close")
    (BinaryOpNode "^" (UnaryOpNode "neg" (LiteralNode f1)) (LiteralNode (f64_of_Z 2)))).

Lemma demo_phrase : derives LOr demo_tree demo_tokens.
Proof.
  apply (parse_tokens_iff demo_tokens demo_tree); [by repeat constructor|].
  vm_compute. reflexivity.
Qed.

Lemma Parse_spell_witness :
  @Parse ascii_unicode (spell demo_tokens)
  = Ok (MkExpression (spell demo_tokens) demo_tree (ExtractInputs demo_tree)).
Proof.
  exact (@Parse_spell ascii_unicode ascii_unicode_laws demo_tree demo_tokens demo_phrase
           ltac:(vm_compute; reflexivity)).
Defined.
