(* ===== verification/ExprIndex.v ===== *)
(** * ExprIndex: the parser over the token slice and its position

    [ExprParser] parses suffixes of the token list. Here is the parser with
    the state the code keeps, the slice [p.tokens] and the index [p.pos]:
    [current] and [previous] index the slice, and an index out of range is a
    panic. On the tokens of a formula it never panics and agrees with
    [ExprParser], on which the grammar is proved. *)

From stdpp Require Import base list strings gmap.
From Stdlib Require Import ZArith Lia Ascii SpecFloat.
From S2P Require Import Prelude GoFloat ExprSyntax ExprParser ExprGrammar.

Section Indexed.
Variable tokens : list token.

Abbreviation ipres := (res parse_error (Node * nat)).

Definition currentAt (pos : nat) : res parse_error token :=
  match tokens !! pos with Some t => Ok t | None => Err PPanic end.

Definition previousAt (pos : nat) : res parse_error token :=
  match pos with
  | O => Err PPanic
  | S p => match tokens !! p with Some t => Ok t | None => Err PPanic end
  end.

Definition isAtEndAt (pos : nat) : res parse_error bool :=
  let? t := currentAt pos in Ok (bool_decide (typ t = tokenEOF)).

Definition checkAt (t : tokenType) (pos : nat) : res parse_error bool :=
  let? e := isAtEndAt pos in
  if e then Ok false else let? tok := currentAt pos in Ok (bool_decide (typ tok = t)).

Definition advanceAt (pos : nat) : res parse_error (token * nat) :=
  let? e := isAtEndAt pos in
  let pos := if e then pos else S pos in
  let? t := previousAt pos in Ok (t, pos).

Fixpoint matchAt (types : list tokenType) (pos : nat) : res parse_error (bool * nat) :=
  match types with
  | [] => Ok (false, pos)
  | t :: types' =>
      let? c := checkAt t pos in
      if c then let? (_, p) := advanceAt pos in Ok (true, p) else matchAt types' pos
  end.

(** The tokens from a position on, which bound the loops below. *)
Definition left_from (pos : nat) : nat := length tokens - pos.

Fixpoint bin_loopAt (fuel : nat) (types : list tokenType) (name : token -> string)
    (operand : nat -> ipres) (lhs : Node) (pos : nat) : ipres :=
  let? (m, p1) := matchAt types pos in
  if m then
    match fuel with
    | O => Err PFuel
    | S fuel' =>
        let? tok := previousAt p1 in
        let? (rhs, p2) := operand p1 in
        bin_loopAt fuel' types name operand (BinaryOpNode (name tok) lhs rhs) p2
    end
  else Ok (lhs, p1).

Definition bin_levelAt (types : list tokenType) (name : token -> string)
    (operand : nat -> ipres) (pos : nat) : ipres :=
  let? (lhs, p1) := operand pos in
  bin_loopAt (left_from p1) types name operand lhs p1.

Section IndexedLevels.
Variable expr : nat -> ipres.

Fixpoint parse_argsAt (fuel : nat) (pos : nat) : res parse_error (list Node * nat) :=
  match fuel with
  | O => Err PFuel
  | S fuel' =>
      let? (arg, p1) := expr pos in
      let? (m, p2) := matchAt [tokenComma] p1 in
      if m then let? (args, p3) := parse_argsAt fuel' p2 in Ok (arg :: args, p3)
      else Ok ([arg], p2)
  end.

Definition parseFunctionCallAt (name : string) (pos : nat) : ipres :=
  let? (m, p1) := matchAt [tokenLParen] pos in
  if m then
    let? c := checkAt tokenRParen p1 in
    let? (args, p2) := if c then Ok ([], p1) else parse_argsAt (S (left_from p1)) p1 in
    let? (m2, p3) := matchAt [tokenRParen] p2 in
    if m2 then let? n := call_node name args in Ok (n, p3) else Err PExpectedRParen
  else Err PExpectedLParen.

Definition parsePrimaryAt (pos : nat) : ipres :=
  let? (m, p1) := matchAt [tokenNumber] pos in
  if m then
    let? tok := previousAt p1 in
    match ParseFloat (lit (val tok)) with
    | Some v => Ok (LiteralNode v, p1)
    | None => Err (PInvalidNumber (val tok))
    end
  else
    let? (m, p1) := matchAt [tokenIdentifier] p1 in
    if m then
      let? tok := previousAt p1 in
      let? c := checkAt tokenLParen p1 in
      if c then parseFunctionCallAt (val tok) p1 else Ok (IdentifierNode (val tok), p1)
    else
      let? (m, p1) := matchAt [tokenLParen] p1 in
      if m then
        let? (e, p2) := expr p1 in
        let? (m2, p3) := matchAt [tokenRParen] p2 in
        if m2 then Ok (e, p3) else Err PExpectedRParen
      else let? tok := currentAt p1 in Err (PUnexpectedToken (val tok)).

Fixpoint prefix_levelAt (fuel : nat) (t : tokenType) (op : string) (operand : nat -> ipres) (pos : nat) : ipres :=
  let? (m, p1) := matchAt [t] pos in
  if m then
    match fuel with
    | O => Err PFuel
    | S fuel' => let? (e, p2) := prefix_levelAt fuel' t op operand p1 in Ok (UnaryOpNode op e, p2)
    end
  else operand p1.

Definition parseUnaryAt (pos : nat) : ipres := prefix_levelAt (left_from pos) tokenMinus "neg" parsePrimaryAt pos.
Definition parsePowerAt : nat -> ipres := bin_levelAt [tokenPow] val parseUnaryAt.
Definition parseMultiplicativeAt : nat -> ipres := bin_levelAt [tokenMul; tokenDiv] val parsePowerAt.
Definition parseAdditiveAt : nat -> ipres := bin_levelAt [tokenPlus; tokenMinus] val parseMultiplicativeAt.
Definition parseComparisonAt : nat -> ipres :=
  bin_levelAt [tokenGT; tokenLT; tokenEQ; tokenGE; tokenLE] val parseAdditiveAt.
Definition parseNotAt (pos : nat) : ipres := prefix_levelAt (left_from pos) tokenNOT "NOT" parseComparisonAt pos.
Definition parseAndAt : nat -> ipres := bin_levelAt [tokenAND] (fun _ => "AND"%string) parseNotAt.
Definition parseOrAt : nat -> ipres := bin_levelAt [tokenOR] (fun _ => "OR"%string) parseAndAt.
End IndexedLevels.

Fixpoint parseExpressionAt (fuel : nat) (pos : nat) : ipres :=
  match fuel with
  | O => Err PFuel
  | S fuel' => parseOrAt (parseExpressionAt fuel') pos
  end.

(** The tail of [Parse]: the whole slice from position 0. *)
Definition parse_slice : res parse_error Node :=
  let? (ast, pos) := parseExpressionAt (S (length tokens)) 0 in
  let? e := isAtEndAt pos in
  if negb e then let? tok := currentAt pos in Err (PUnexpectedToken (val tok)) else Ok ast.
End Indexed.

(** [Parse] over the slice and the position. *)
Definition ParseAt `{Unicode} (formula : bytes) : res parse_error Expression :=
  match TrimSpace formula with
  | [] => Err PEmptyFormula
  | _ :: _ =>
      let? tokens := tokenize formula in
      let? ast := parse_slice tokens in
      Ok (MkExpression formula ast (ExtractInputs ast))
  end.

(** ** Agreement with the parser of suffixes *)

Section Simulation.
Variable body : list token.
Let tokens : list token := body ++ [EOF].

Definition in_slice (pos : nat) : Prop := (pos < length tokens)%nat.

(** The position of the one parser is the suffix of the other, inside the
    slice, or both fail alike. *)
Definition agrees {A} (x : res parse_error (A * nat)) (y : res parse_error (A * stream)) : Prop :=
  match x, y with
  | Ok (a, p), Ok (b, ts) => a = b /\ in_slice p /\ ts = drop p tokens
  | Err e, Err e' => e = e'
  | _, _ => False
  end.

Lemma current_in pos : in_slice pos -> currentAt tokens pos = Ok (current (drop pos tokens)).
Proof.
  intros Hp. unfold currentAt. destruct (lookup_lt_is_Some_2 tokens pos Hp) as [t Ht].
  rewrite Ht. by rewrite (drop_S _ _ _ Ht).
Qed.

Lemma isAtEnd_in pos : in_slice pos -> isAtEndAt tokens pos = Ok (isAtEnd (drop pos tokens)).
Proof. intros Hp. unfold isAtEndAt. by rewrite current_in. Qed.

Lemma check_in t pos : in_slice pos -> checkAt tokens t pos = Ok (check t (drop pos tokens)).
Proof.
  intros Hp. unfold checkAt, check. rewrite isAtEnd_in by done. cbn [res_bind].
  destruct (isAtEnd _); [done|]. by rewrite current_in.
Qed.

(** A position that is not at the end has a successor in the slice. *)
Lemma next_in pos : in_slice pos -> isAtEnd (drop pos tokens) = false ->
  in_slice (S pos) /\ exists t, tokens !! pos = Some t /\ current (drop pos tokens) = t
  /\ drop 1 (drop pos tokens) = drop (S pos) tokens.
Proof.
  intros Hp He. destruct (lookup_lt_is_Some_2 tokens pos Hp) as [t Ht]. rewrite (drop_S _ _ _ Ht) in *.
  split; [|by exists t]. unfold in_slice in *. unfold tokens in Ht, Hp |- *. rewrite length_app in *. cbn [length] in *.
  destruct (decide (pos = length body)) as [->|]; [|lia]. rewrite list_lookup_middle in Ht by done.
  injection Ht as <-. discriminate He.
Qed.

Lemma match_in types pos : in_slice pos ->
  match match_ types (drop pos tokens) with
  | Some (tok, ts) => exists p, matchAt tokens types pos = Ok (true, p) /\ in_slice p /\ ts = drop p tokens
                                /\ previousAt tokens p = Ok tok
  | None => matchAt tokens types pos = Ok (false, pos)
  end.
Proof.
  intros Hp. unfold match_. induction types as [|t types IH]; [done|]. cbn [existsb matchAt].
  rewrite check_in by done. cbn [res_bind]. destruct (check t (drop pos tokens)) eqn:Ec; cbn [orb]; [|exact IH].
  assert (He : isAtEnd (drop pos tokens) = false) by (unfold check in Ec; by destruct (isAtEnd _)).
  destruct (next_in pos Hp He) as (Hn & tok & Ht & Hc & Hd). exists (S pos). unfold advanceAt.
  rewrite isAtEnd_in, He by done. cbn [res_bind previousAt]. rewrite Ht. cbn [res_bind]. by rewrite Hc.
Qed.

Lemma left_from_length pos : left_from tokens pos = length (drop pos tokens).
Proof. by rewrite length_drop. Qed.

(** One [match]: both parsers take the same branch. *)
Ltac both_match types pos :=
  let Hm := fresh "Hm" in
  pose proof (match_in types pos ltac:(assumption)) as Hm;
  destruct (match_ types (drop pos tokens)) as [[? ?]|];
  [ let p := fresh "p" in let Hp := fresh "Hp" in let Hv := fresh "Hv" in
    destruct Hm as (p & -> & Hp & -> & Hv); cbn [res_bind]
  | rewrite Hm; cbn [res_bind]; clear Hm ].

(** An operand: both fail alike, or both go on. *)
Ltac both_run H :=
  match type of H with agrees ?x ?y =>
    let a := fresh "a" in let p := fresh "p" in let b := fresh "b" in let ts := fresh "ts" in
    destruct x as [[a p]|], y as [[b ts]|]; try (exact H || contradiction);
    destruct H as (-> & ? & ->); cbn [res_bind]
  end.

Definition agree_on {A} (f : nat -> res parse_error (A * nat)) (g : stream -> res parse_error (A * stream)) : Prop :=
  forall pos, in_slice pos -> agrees (f pos) (g (drop pos tokens)).

Lemma bin_loop_agrees types name f g : agree_on f g ->
  forall fuel lhs pos, in_slice pos ->
  agrees (bin_loopAt tokens fuel types name f lhs pos) (bin_loop fuel types name g lhs (drop pos tokens)).
Proof.
  intros Hfg fuel. induction fuel as [|fuel IH]; intros lhs pos Hp; cbn [bin_loopAt bin_loop]; both_match types pos;
    try done.
  rewrite Hv. cbn [res_bind]. pose proof (Hfg _ Hp0) as Hr. both_run Hr. by apply IH.
Qed.

Lemma bin_level_agrees types name f g : agree_on f g -> agree_on (bin_levelAt tokens types name f) (bin_level types name g).
Proof.
  intros Hfg pos Hp. unfold bin_levelAt, bin_level. pose proof (Hfg _ Hp) as Hr. both_run Hr.
  rewrite left_from_length. by apply bin_loop_agrees.
Qed.

Lemma prefix_level_agrees t op f g : agree_on f g -> forall fuel pos, in_slice pos -> fuel = length (drop pos tokens) ->
  agrees (prefix_levelAt tokens fuel t op f pos) (prefix_level t op g (drop pos tokens)).
Proof.
  intros Hfg fuel. induction fuel as [|fuel IH]; intros pos Hp Hf.
  { unfold in_slice in Hp. rewrite length_drop in Hf. lia. }
  pose proof (Hfg _ Hp) as Hr. cbn [prefix_levelAt]. pose proof (match_in [t] pos Hp) as Hm.
  destruct (drop pos tokens) as [|tok rest] eqn:Ed; [discriminate|]. cbn [prefix_level]. unfold match_ in Hm.
  cbn [existsb] in Hm. rewrite orb_false_r in Hm. destruct (check t (tok :: rest)).
  - destruct Hm as (p & -> & Hp' & Hd & _). cbn [res_bind]. change (rest = drop p tokens) in Hd. rewrite Hd.
    assert (Hl : fuel = length (drop p tokens)) by (rewrite <- Hd; cbn in Hf; lia).
    specialize (IH p Hp' Hl). both_run IH. done.
  - rewrite Hm. cbn [res_bind]. exact Hr.
Qed.

Section AgreeLevels.
Variable (f : nat -> res parse_error (Node * nat)) (g : stream -> pres).
Hypothesis Hfg : agree_on f g.

Lemma parse_args_agrees fuel : agree_on (parse_argsAt tokens f fuel) (parse_args g fuel).
Proof.
  induction fuel as [|fuel IH]; intros pos Hp; cbn [parse_argsAt parse_args]; [done|].
  pose proof (Hfg _ Hp) as Hr. both_run Hr. both_match [tokenComma] p; [|done].
  pose proof (IH _ Hp0) as Hargs. both_run Hargs. done.
Qed.

Lemma parseFunctionCall_agrees name : agree_on (parseFunctionCallAt tokens f name) (parseFunctionCall g name).
Proof.
  intros pos Hp. unfold parseFunctionCallAt, parseFunctionCall. both_match [tokenLParen] pos; [|done].
  rewrite check_in by done. cbn [res_bind].
  assert (Hargs : agrees (if check tokenRParen (drop p tokens) then Ok ([], p)
                          else parse_argsAt tokens f (S (left_from tokens p)) p)
                         (if check tokenRParen (drop p tokens) then Ok ([], drop p tokens)
                          else parse_args g (S (length (drop p tokens))) (drop p tokens))).
  { destruct (check _ _); [done|]. rewrite left_from_length. by apply parse_args_agrees. }
  both_run Hargs. both_match [tokenRParen] p0; [|done]. destruct (call_node name b); done.
Qed.

Lemma parsePrimary_agrees : agree_on (parsePrimaryAt tokens f) (parsePrimary g).
Proof.
  intros pos Hp. unfold parsePrimaryAt, parsePrimary. both_match [tokenNumber] pos.
  { rewrite Hv. cbn [res_bind]. destruct (ParseFloat _); done. }
  both_match [tokenIdentifier] pos.
  { rewrite Hv. cbn [res_bind]. rewrite check_in by done. cbn [res_bind].
    destruct (check _ _); [by apply parseFunctionCall_agrees|done]. }
  both_match [tokenLParen] pos; [|by rewrite current_in].
  pose proof (Hfg _ Hp0) as Hr. both_run Hr. both_match [tokenRParen] p0; done.
Qed.

Lemma parseOr_agrees : agree_on (parseOrAt tokens f) (parseOr g).
Proof.
  assert (Hpre : forall t op h k, agree_on h k ->
            agree_on (fun pos => prefix_levelAt tokens (left_from tokens pos) t op h pos) (prefix_level t op k)).
  { intros t op h k Hhk pos Hp. apply prefix_level_agrees; [done|done|apply left_from_length]. }
  unfold parseOrAt, parseOr, parseAndAt, parseAnd, parseNotAt, parseNot, parseComparisonAt, parseComparison,
    parseAdditiveAt, parseAdditive, parseMultiplicativeAt, parseMultiplicative, parsePowerAt, parsePower,
    parseUnaryAt, parseUnary.
  do 2 apply bin_level_agrees. apply Hpre. do 4 apply bin_level_agrees. apply Hpre, parsePrimary_agrees.
Qed.
End AgreeLevels.

Lemma parseExpression_agrees fuel : agree_on (parseExpressionAt tokens fuel) (parseExpression fuel).
Proof.
  induction fuel as [|fuel IH]; [done|]. cbn [parseExpressionAt parseExpression]. by apply parseOr_agrees.
Qed.

Lemma parse_slice_agrees : parse_slice tokens = parse_tokens tokens.
Proof.
  unfold parse_slice, parse_tokens.
  assert (H0 : in_slice 0) by (unfold in_slice, tokens; rewrite length_app; cbn; lia).
  pose proof (parseExpression_agrees (S (length tokens)) 0%nat H0) as Hr. rewrite drop_0 in Hr.
  destruct (parseExpressionAt _ _ _) as [[a p]|e], (parseExpression _ _) as [[b ts]|e']; try contradiction;
    [|by rewrite Hr].
  destruct Hr as (-> & Hp & ->). cbn [res_bind]. rewrite isAtEnd_in by done. cbn [res_bind].
  destruct (isAtEnd _); cbn [negb]; [done|]. by rewrite current_in.
Qed.
End Simulation.

(** C37. Parsing terminates on every formula, and never indexes the token
    slice out of range: run over the slice and the position, with an index
    out of range (of [current], of [previous] or of the arguments of a call)
    as a panic and with bounds on its loops, [Parse] returns an expression or
    one of the errors of the source, and the same as the parser of suffixes
    for which the grammar is proved. *)
Theorem parser_stays_in_the_slice `{Unicode} formula :
  real_result (ParseAt formula) /\ ParseAt formula = Parse formula.
Proof.
  assert (E : ParseAt formula = Parse formula).
  { unfold ParseAt, Parse. destruct (TrimSpace formula); [done|].
    pose proof (tokenize_total formula) as Ht. destruct (tokenize formula) as [ts|e]; [|done].
    destruct Ht as (body & -> & Hb). cbn [res_bind]. by rewrite parse_slice_agrees. }
  split; [rewrite E; apply Parse_total|exact E].
Qed.

(** Without the end token the parser runs off the slice. *)
Example no_end_token_panics : parse_slice [Token tokenIdentifier "close"] = Err PPanic.
Proof. reflexivity. Qed.
