(* ===== verification/Indicator.v ===== *)
(** * Indicator: the recursive operators (pkg/indicator)

    RMA, EWMA and the scalar Kalman filter. Each is a recursion core (step,
    ready, value) driven three ways: bar by bar ([Update]/[Value]), over a
    whole series ([Batch]) and resumed from a saved state
    ([SaveState]/[LoadState]). The contract of interfaces.go, that the three
    agree, is proved once against the interface [Core] and holds for the three
    instances. *)

From stdpp Require Import base list strings gmap.
From Stdlib Require Import ZArith Lia SpecFloat.
From S2P Require Import Prelude GoFloat.

Open Scope Z_scope.

(** ** Serialized state (state.go)

    A state document is JSON. The decoders see its top-level members; a number
    member carries its value as float64 and, when its text is an integer
    literal in range, its value as int. *)

Inductive json_value :=
| JNum (f : float64) (i : option Z)
| JNull
| JOther.

Inductive document :=
| DocNull
| DocObject (members : list (string * json_value))
| DocOther.

(** The text encoding, [encoding/json]: decoding what was encoded gives the
    document back; a text that is no JSON does not decode. A member belongs to
    a struct field when their names are equal up to case ([same_name]), which
    for lower-case ASCII names is equality. *)
Class JsonText (text : Type) := {
  encode : document -> text;
  decode : text -> option document;
  text_empty : text -> bool;
  same_name : string -> string -> bool
}.

Definition lower_ascii (k : string) : bool :=
  forallb (fun c => (97 <=? byteZ c) && (byteZ c <=? 122)) (lit k).

Class JsonTextLaws (text : Type) `{JsonText text} := {
  decode_encode d : decode (encode d) = Some d;
  encode_nonempty d : text_empty (encode d) = false;
  same_name_lower a b :
    lower_ascii a = true -> lower_ascii b = true -> same_name a b = bool_decide (a = b)
}.

Inductive ind_error :=
| EBadParameter
| ENotFinite (i : nat)
| ENotReady
| EUnsupportedValue
| EEmptyState
| EParse
| ENullState
| EMissingField (k : string)
| EVersion (got : Z)
| EBadCount
| EBadState.

(** The integer literal Go prints for an integral float64, if it prints one. *)
Definition float_literal_int (f : float64) : option Z :=
  match f with
  | S754_zero _ => Some 0
  | S754_finite _ _ _ =>
      let z := f64_to_int64 f in
      if feq (f64_of_Z z) f && negb (z =? min_int64) then Some z else None
  | _ => None
  end.

Definition json_int (z : Z) : json_value := JNum (f64_of_Z z) (Some z).

(** [json.Marshal] refuses NaN and the infinities. *)
Definition json_float (f : float64) : res ind_error json_value :=
  if isFinite f then Ok (JNum f (float_literal_int f)) else Err EUnsupportedValue.

(** The [map[string]json.RawMessage] view: the last member of a name. *)
Fixpoint raw (m : list (string * json_value)) (k : string) : option json_value :=
  match m with
  | [] => None
  | (k', v) :: m' => match raw m' k with
                     | Some v' => Some v'
                     | None => if String.eqb k' k then Some v else None
                     end
  end.

Fixpoint require_fields (m : list (string * json_value)) (ks : list string)
    : res ind_error unit :=
  match ks with
  | [] => Ok tt
  | k :: ks' => match raw m k with
                | Some _ => require_fields m ks'
                | None => Err (EMissingField k)
                end
  end.

Section Decode.
Context {text : Type} `{JsonText text}.

(** How a struct field of type int or float64 is decoded: the members of
    that name in order; a null leaves the field as it is, a value of the
    wrong kind is an error. *)
Fixpoint int_field (acc : Z) (m : list (string * json_value)) (k : string)
    : res ind_error Z :=
  match m with
  | [] => Ok acc
  | (k', v) :: m' =>
      if same_name k' k then
        match v with
        | JNull => int_field acc m' k
        | JNum _ (Some z) => int_field z m' k
        | _ => Err EParse
        end
      else int_field acc m' k
  end.

Fixpoint float_field (acc : float64) (m : list (string * json_value)) (k : string)
    : res ind_error float64 :=
  match m with
  | [] => Ok acc
  | (k', v) :: m' =>
      if same_name k' k then
        match v with
        | JNull => float_field acc m' k
        | JNum f _ => float_field f m' k
        | JOther => Err EParse
        end
      else float_field acc m' k
  end.

(** [decodeVersionedState]: strict decoding (no unknown member, no member of
    the wrong type), then null, missing members and the version. [fields]
    decodes the members into the struct. *)
Definition decodeVersionedState {S} (b : text) (fields : list (string * json_value) -> res ind_error S)
    (known : list string) (wantVersion : Z) (required : list string) : res ind_error S :=
  if text_empty b then Err EEmptyState
  else match decode b with
  | None | Some DocOther => Err EParse
  | Some DocNull => Err ENullState
  | Some (DocObject m) =>
      if negb (forallb (fun kv => existsb (same_name kv.1) known) m) then Err EParse
      else
        let? s := fields m in
        let? _ := require_fields m required in
        let? v := match raw m "version" with
                  | Some (JNum _ (Some z)) => Ok z
                  | Some JNull => Ok 0
                  | _ => Err EParse
                  end in
        if negb (v =? wantVersion) then Err (EVersion v) else Ok s
  end.
End Decode.

(** ** The recursion core and what is built on it *)

Class Core (C : Type) := {
  step : C -> float64 -> C;
  ready : C -> bool;
  value : C -> float64
}.

Section Drivers.
Context {C : Type} `{Core C}.

(** [Update]: a non-finite input is refused and leaves the state as it is. *)
Definition Update (c : C) (x : float64) : C * res ind_error unit :=
  if negb (isFinite x) then (c, Err (ENotFinite 0)) else (step c x, Ok tt).

Definition Value (c : C) : res ind_error float64 :=
  if negb (ready c) then Err ENotReady else Ok (value c).

(** One element of a batch: NaN until the core is ready. *)
Definition batch_out (c : C) : float64 := if ready c then value c else fNaN.

(** The loop of the batch functions. *)
Fixpoint batch_loop (c : C) (i : nat) (xs : list float64) : res ind_error (list float64) :=
  match xs with
  | [] => Ok []
  | x :: xs' =>
      if negb (isFinite x) then Err (ENotFinite i)
      else let c' := step c x in
           let? out := batch_loop c' (S i) xs' in Ok (batch_out c' :: out)
  end.
End Drivers.

(** ** RMA (rma.go) *)

Record rmaCore := MkRMA {
  rma_n : Z;
  rma_count : Z;
  rma_sum : float64;
  rma_prev : float64
}.

Definition newRMACore (n : Z) : rmaCore := MkRMA n 0 f0 f0.

Definition rma_step (c : rmaCore) (x : float64) : rmaCore :=
  let count := wrap64 (rma_count c + 1) in
  if count <=? rma_n c then
    let sum := (rma_sum c + x)%f64 in
    MkRMA (rma_n c) count sum
      (if count =? rma_n c then (sum / f64_of_Z (rma_n c))%f64 else rma_prev c)
  else
    MkRMA (rma_n c) count (rma_sum c)
      (rma_prev c + (x - rma_prev c) / f64_of_Z (rma_n c))%f64.

#[export] Instance RMA_core : Core rmaCore := {
  step := rma_step;
  ready c := rma_n c <=? rma_count c;
  value := rma_prev
}.

Definition NewRMA (n : Z) : res ind_error rmaCore :=
  if n <? 1 then Err EBadParameter else Ok (newRMACore n).

Definition RMA_Warmup (c : rmaCore) : Z := rma_n c.
Definition RMA_Reset (c : rmaCore) : rmaCore := newRMACore (rma_n c).

Definition RMABatch (xs : list float64) (n : Z) : res ind_error (list float64) :=
  if n <? 1 then Err EBadParameter else batch_loop (newRMACore n) 0 xs.

(** ** EWMA (ewma.go) *)

Record ewmaCore := MkEWMA {
  ewma_alpha : float64;
  ewma_warm : Z;
  ewma_count : Z;
  ewma_prev : float64
}.

Section EWMA.
Context `{GoMath}.

Definition ewmaWarmup (alpha : float64) : Z :=
  if (alpha >=? f1)%f64 then 1
  else let w := f64_to_int64 (Ceil (Log (flit 1 6) / Log (f1 - alpha))%f64) in
       if w <? 1 then 1 else w.

Definition newEWMACore (alpha : float64) : ewmaCore := MkEWMA alpha (ewmaWarmup alpha) 0 f0.

Definition ewma_alpha_ok (alpha : float64) : bool := ((alpha >? f0) && (alpha <=? f1))%f64.

Definition NewEWMA (alpha : float64) : res ind_error ewmaCore :=
  if negb (ewma_alpha_ok alpha) then Err EBadParameter else Ok (newEWMACore alpha).

Definition EWMA_Reset (c : ewmaCore) : ewmaCore := newEWMACore (ewma_alpha c).
End EWMA.

Definition ewma_step (c : ewmaCore) (x : float64) : ewmaCore :=
  let count := wrap64 (ewma_count c + 1) in
  if count =? 1 then MkEWMA (ewma_alpha c) (ewma_warm c) count x
  else MkEWMA (ewma_alpha c) (ewma_warm c) count
         (ewma_alpha c * x + (f1 - ewma_alpha c) * ewma_prev c)%f64.

#[export] Instance EWMA_core : Core ewmaCore := {
  step := ewma_step;
  ready c := ewma_warm c <=? ewma_count c;
  value := ewma_prev
}.

Definition EWMA_Warmup (c : ewmaCore) : Z := ewma_warm c.

Definition EWMABatch `{GoMath} (xs : list float64) (alpha : float64)
    : res ind_error (list float64) :=
  if negb (ewma_alpha_ok alpha) then Err EBadParameter
  else batch_loop (newEWMACore alpha) 0 xs.

(** ** Kalman (kalman.go) *)

Record kalmanCore := MkKalman {
  kal_q : float64;
  kal_r : float64;
  kal_p0 : float64;
  kal_count : Z;
  kal_x : float64;
  kal_p : float64
}.

Definition newKalmanCore (q r : float64) : kalmanCore := MkKalman q r r 0 f0 f0.

Definition kalman_step (c : kalmanCore) (z : float64) : kalmanCore :=
  let count := wrap64 (kal_count c + 1) in
  if count =? 1 then MkKalman (kal_q c) (kal_r c) (kal_p0 c) count z (kal_p0 c)
  else
    let p := (kal_p c + kal_q c)%f64 in
    let k := (p / (p + kal_r c))%f64 in
    let x := (kal_x c + k * (z - kal_x c))%f64 in
    MkKalman (kal_q c) (kal_r c) (kal_p0 c) count x ((f1 - k) * p)%f64.

#[export] Instance Kalman_core : Core kalmanCore := {
  step := kalman_step;
  ready c := 1 <=? kal_count c;
  value := kal_x
}.

Definition kalman_params_ok (q r : float64) : bool :=
  negb (negb (isFinite q) || (q <? f0)%f64) && negb (negb (isFinite r) || (r <=? f0)%f64).

Definition NewKalman (q r : float64) : res ind_error kalmanCore :=
  if kalman_params_ok q r then Ok (newKalmanCore q r) else Err EBadParameter.

Definition Kalman_Reset (c : kalmanCore) : kalmanCore := newKalmanCore (kal_q c) (kal_r c).

Definition KalmanBatch (xs : list float64) (q r : float64) : res ind_error (list float64) :=
  if kalman_params_ok q r then batch_loop (newKalmanCore q r) 0 xs else Err EBadParameter.

(** ** Saving and loading *)

Section State.
Context {text : Type} `{JsonText text}.

Definition stateVersion : Z := 1.

Definition marshal (ms : list (string * json_value)) : text :=
  encode (DocObject ms).

Definition RMA_SaveState (c : rmaCore) : res ind_error text :=
  let? sum := json_float (rma_sum c) in
  let? prev := json_float (rma_prev c) in
  Ok (marshal [("version", json_int stateVersion); ("count", json_int (rma_count c));
               ("sum", sum); ("prev", prev)]).

(** The new state and the error; on an error the receiver is unchanged. *)
Definition RMA_LoadState (c : rmaCore) (b : text) : rmaCore * res ind_error unit :=
  let keys := ["version"; "count"; "sum"; "prev"] in
  let fields m :=
    let? _ := int_field 0 m "version" in
    let? count := int_field 0 m "count" in
    let? sum := float_field f0 m "sum" in
    let? prev := float_field f0 m "prev" in
    Ok (count, sum, prev) in
  match decodeVersionedState b fields keys stateVersion keys with
  | Err e => (c, Err e)
  | Ok (count, sum, prev) =>
      if count <? 0 then (c, Err EBadCount)
      else if negb (isFinite sum) || negb (isFinite prev) then (c, Err EBadState)
      else (MkRMA (rma_n c) count sum prev, Ok tt)
  end.

Definition EWMA_SaveState (c : ewmaCore) : res ind_error text :=
  let? prev := json_float (ewma_prev c) in
  Ok (marshal [("version", json_int stateVersion); ("count", json_int (ewma_count c));
               ("prev", prev)]).

Definition EWMA_LoadState (c : ewmaCore) (b : text) : ewmaCore * res ind_error unit :=
  let keys := ["version"; "count"; "prev"] in
  let fields m :=
    let? _ := int_field 0 m "version" in
    let? count := int_field 0 m "count" in
    let? prev := float_field f0 m "prev" in
    Ok (count, prev) in
  match decodeVersionedState b fields keys stateVersion keys with
  | Err e => (c, Err e)
  | Ok (count, prev) =>
      if count <? 0 then (c, Err EBadCount)
      else if negb (isFinite prev) then (c, Err EBadState)
      else (MkEWMA (ewma_alpha c) (ewma_warm c) count prev, Ok tt)
  end.

Definition Kalman_SaveState (c : kalmanCore) : res ind_error text :=
  let? x := json_float (kal_x c) in
  let? p := json_float (kal_p c) in
  Ok (marshal [("version", json_int stateVersion); ("count", json_int (kal_count c));
               ("x", x); ("p", p)]).

Definition Kalman_LoadState (c : kalmanCore) (b : text) : kalmanCore * res ind_error unit :=
  let keys := ["version"; "count"; "x"; "p"] in
  let fields m :=
    let? _ := int_field 0 m "version" in
    let? count := int_field 0 m "count" in
    let? x := float_field f0 m "x" in
    let? p := float_field f0 m "p" in
    Ok (count, x, p) in
  match decodeVersionedState b fields keys stateVersion keys with
  | Err e => (c, Err e)
  | Ok (count, x, p) =>
      if count <? 0 then (c, Err EBadCount)
      else if negb (isFinite x) || negb (isFinite p) then (c, Err EBadState)
      else (MkKalman (kal_q c) (kal_r c) (kal_p0 c) count x p, Ok tt)
  end.
End State.

(** ** True range (truerange.go) *)

Definition TrueRange (prevClose high low : float64) : float64 :=
  let hl := (high - low)%f64 in
  let hpc := Abs (high - prevClose)%f64 in
  let lpc := Abs (low - prevClose)%f64 in
  MathMax hl (MathMax hpc lpc).

(** ** The three ways agree *)

Section Agreement.
Context {C : Type} `{Core C}.

(** Feeding a series bar by bar. *)
Definition run (c : C) (xs : list float64) : C := fold_left (fun c x => (Update c x).1) xs c.

Lemma run_cons c x xs : isFinite x = true -> run c (x :: xs) = run (step c x) xs.
Proof. intros Hx. unfold run. simpl. unfold Update. by rewrite Hx. Qed.

Lemma run_app c xs ys : run c (xs ++ ys) = run (run c xs) ys.
Proof. apply fold_left_app. Qed.

Lemma batch_loop_steps c i xs :
  forallb isFinite xs = true ->
  exists out, batch_loop c i xs = Ok out
    /\ forall k, (k < length xs)%nat -> out !! k = Some (batch_out (run c (take (S k) xs))).
Proof.
  revert c i. induction xs as [|x xs IH]; intros c i Hf; simpl in *.
  - exists []. split; [done|]. intros; lia.
  - bool_to_prop. rewrite H0. simpl.
    destruct (IH (step c x) (S i) H1) as (out & -> & Hout).
    eexists. split; [done|]. intros [|k] Hk.
    + unfold Update. by rewrite H0.
    + unfold Update. rewrite H0. apply (Hout k). lia.
Qed.

(** A non-finite element stops the batch at its position. *)
Lemma batch_loop_refuses c i xs x ys :
  forallb isFinite xs = true -> isFinite x = false ->
  batch_loop c i (xs ++ x :: ys) = Err (ENotFinite (i + length xs)).
Proof.
  revert c i. induction xs as [|y xs IH]; intros c i Hf Hx; simpl in *.
  - rewrite Hx. simpl. by rewrite Nat.add_0_r.
  - bool_to_prop. rewrite H0. simpl. rewrite IH by done. simpl. f_equal. f_equal. lia.
Qed.

Lemma batch_out_Value c : batch_out c = match Value c with Ok v => v | Err _ => fNaN end.
Proof. unfold batch_out, Value. by destruct (ready c). Qed.

(** The contract: on a finite series, the batch holds at every position what
    the bar-by-bar instance answers there (NaN for "not warmed up"), and an
    instance loaded from the state saved after any prefix answers on the
    rest of the series what the uninterrupted one answers. *)
Definition three_ways {text} (new : C) (batch : list float64 -> res ind_error (list float64))
    (save : C -> res ind_error text) (load : C -> text -> C * res ind_error unit) : Prop :=
  forall xs ys, forallb isFinite (xs ++ ys) = true -> Z.of_nat (length xs) <= max_int64 ->
    (exists out, batch (xs ++ ys) = Ok out
      /\ forall k, (k < length (xs ++ ys))%nat ->
         out !! k = Some (match Value (run new (take (S k) (xs ++ ys))) with
                          | Ok v => v | Err _ => fNaN end))
    /\ (forall b, save (run new xs) = Ok b ->
        exists c, load new b = (c, Ok tt)
          /\ forall k, Value (run c (take k ys)) = Value (run new (xs ++ take k ys))).

(** It is enough that loading into a new instance restores the state. *)
Lemma three_ways_intro {text} new batch (save : C -> res ind_error text) load :
  (forall xs, batch xs = batch_loop new 0 xs) ->
  (forall xs b, forallb isFinite xs = true -> Z.of_nat (length xs) <= max_int64 ->
     save (run new xs) = Ok b -> load new b = (run new xs, Ok tt)) ->
  three_ways new batch save load.
Proof.
  intros Hb Hl xs ys Hf Hn. split.
  - destruct (batch_loop_steps new 0 (xs ++ ys) Hf) as (out & E & Hout).
    exists out. rewrite Hb. split; [done|]. intros k Hk. rewrite Hout by done.
    by rewrite batch_out_Value.
  - intros b Hs. exists (run new xs). split; [|intros k; by rewrite run_app].
    apply Hl; [|done|done]. rewrite forallb_app in Hf. by bool_to_prop.
Qed.

(** Invariants of the recursion carried along a series. *)
Lemma run_invariant (I : nat -> C -> Prop) c xs :
  (forall n c x, I n c -> (n < length xs)%nat -> I (S n) (step c x)) ->
  forallb isFinite xs = true -> I 0%nat c -> I (length xs) (run c xs).
Proof.
  intros Hstep. induction xs as [|x xs IH] using rev_ind; intros Hf H0; [done|].
  rewrite forallb_app in Hf. simpl in Hf. bool_to_prop.
  rewrite run_app, run_cons, length_app by done. change (run ?c []) with c.
  simpl (length [x]). rewrite Nat.add_1_r.
  apply Hstep; [|rewrite length_app; simpl; lia]. apply IH; [|done|done].
  intros n c' x' Hi Hn. apply Hstep; [done|]. rewrite length_app. simpl. lia.
Qed.
End Agreement.

Lemma json_float_Ok f j : json_float f = Ok j -> isFinite f = true /\ exists i, j = JNum f i.
Proof. unfold json_float. destruct (isFinite f); [|done]. intros [= <-]. eauto. Qed.

Lemma count_step n : 0 <= n < max_int64 -> wrap64 (n + 1) = n + 1.
Proof. intros. apply wrap64_id. int64_unfold. lia. Qed.

#[local] Arguments isFinite : simpl never.
#[local] Arguments Z.ltb : simpl never.

Section Restore.
Context {text : Type} {json : JsonText text} {laws : JsonTextLaws text}.

(** Decide the member names of a state document. *)
Ltac names :=
  repeat match goal with
  | |- context [same_name ?a ?b] =>
      rewrite (same_name_lower a b) by reflexivity;
      let b' := eval vm_compute in (bool_decide (a = b)) in
      change (bool_decide (a = b)) with b'; cbn [orb andb negb]
  end.

Ltac load_document :=
  rewrite encode_nonempty, decode_encode; cbn [forallb existsb fst]; names;
  repeat (progress (cbn [int_field float_field json_int]; names));
  cbn; repeat match goal with Hf : isFinite _ = true |- _ => rewrite Hf; clear Hf end;
  cbn; match goal with |- context [Z.of_nat ?l <? 0] =>
         replace (Z.of_nat l <? 0) with false by lia end; cbn.

Lemma RMA_restore n xs b :
  forallb isFinite xs = true -> Z.of_nat (length xs) <= max_int64 ->
  RMA_SaveState (run (newRMACore n) xs) = Ok b ->
  RMA_LoadState (newRMACore n) b = (run (newRMACore n) xs, Ok tt).
Proof.
  intros Hf Hlen Hs.
  assert (Hinv : rma_n (run (newRMACore n) xs) = n
                 /\ rma_count (run (newRMACore n) xs) = Z.of_nat (length xs)).
  { apply (run_invariant (fun k c => rma_n c = n /\ rma_count c = Z.of_nat k)); [|done|done].
    intros k c x [Hn Hc] Hk. cbn [step RMA_core]. unfold rma_step.
    rewrite Hc, count_step by lia. destruct (_ <=? _); simpl; lia. }
  destruct (run (newRMACore n) xs) as [n' count sum prev]. cbn in Hinv.
  destruct Hinv as [-> ->].
  unfold RMA_SaveState in Hs. cbn [rma_sum rma_prev rma_count] in Hs.
  apply res_bind_ok in Hs as (j1 & [Hf1 [i1 ->]]%json_float_Ok & Hs).
  apply res_bind_ok in Hs as (j2 & [Hf2 [i2 ->]]%json_float_Ok & [= <-]).
  unfold RMA_LoadState, marshal, decodeVersionedState.
  load_document. reflexivity.
Qed.

Lemma EWMA_restore `{GoMath} alpha xs b :
  forallb isFinite xs = true -> Z.of_nat (length xs) <= max_int64 ->
  EWMA_SaveState (run (newEWMACore alpha) xs) = Ok b ->
  EWMA_LoadState (newEWMACore alpha) b = (run (newEWMACore alpha) xs, Ok tt).
Proof.
  intros Hf Hlen Hs.
  assert (Hinv : let c := run (newEWMACore alpha) xs in ewma_alpha c = alpha
                 /\ ewma_warm c = ewmaWarmup alpha /\ ewma_count c = Z.of_nat (length xs)).
  { apply (run_invariant (fun k c => ewma_alpha c = alpha /\ ewma_warm c = ewmaWarmup alpha
                                     /\ ewma_count c = Z.of_nat k)); [|done|done].
    intros k c x (Ha & Hw & Hc) Hk. cbn [step EWMA_core]. unfold ewma_step.
    rewrite Hc, count_step by lia. case_if; simpl; split_and!; try done; lia. }
  destruct (run (newEWMACore alpha) xs) as [a w count prev]. cbn in Hinv.
  destruct Hinv as (-> & -> & ->).
  unfold EWMA_SaveState in Hs. cbn [ewma_prev ewma_count] in Hs.
  apply res_bind_ok in Hs as (j1 & [Hf1 [i1 ->]]%json_float_Ok & [= <-]).
  unfold EWMA_LoadState, marshal, decodeVersionedState.
  load_document. reflexivity.
Qed.

Lemma Kalman_restore q r xs b :
  forallb isFinite xs = true -> Z.of_nat (length xs) <= max_int64 ->
  Kalman_SaveState (run (newKalmanCore q r) xs) = Ok b ->
  Kalman_LoadState (newKalmanCore q r) b = (run (newKalmanCore q r) xs, Ok tt).
Proof.
  intros Hf Hlen Hs.
  assert (Hinv : let c := run (newKalmanCore q r) xs in
            kal_q c = q /\ kal_r c = r /\ kal_p0 c = r /\ kal_count c = Z.of_nat (length xs)).
  { apply (run_invariant (fun k c => kal_q c = q /\ kal_r c = r /\ kal_p0 c = r
                                     /\ kal_count c = Z.of_nat k)); [|done|done].
    intros k c x (Hq & Hr & Hp & Hc) Hk. cbn [step Kalman_core]. unfold kalman_step.
    rewrite Hc, count_step by lia. case_if; simpl; split_and!; try done; lia. }
  destruct (run (newKalmanCore q r) xs) as [q' r' p0 count x p]. cbn in Hinv.
  destruct Hinv as (-> & -> & -> & ->).
  unfold Kalman_SaveState in Hs. cbn [kal_x kal_p kal_count] in Hs.
  apply res_bind_ok in Hs as (j1 & [Hf1 [i1 ->]]%json_float_Ok & Hs).
  apply res_bind_ok in Hs as (j2 & [Hf2 [i2 ->]]%json_float_Ok & [= <-]).
  unfold Kalman_LoadState, marshal, decodeVersionedState.
  load_document. reflexivity.
Qed.
End Restore.

(** ** Properties *)

(** C35. The three-way contract of interfaces.go (Batch = Step =
    Step-from-persisted) for RMA, EWMA and Kalman: for any parameters the
    constructors accept, any finite series and any interruption point, the
    batch function returns at every position what the bar-by-bar instance
    answers there (NaN where it is not warmed up), and a new instance that
    loads the state saved at the interruption continues exactly like the one
    that never stopped. *)
Theorem three_way_agreement {text} {json : JsonText text} {laws : JsonTextLaws text} `{GoMath}
    n alpha q r c1 c2 c3
    (Hrma : NewRMA n = Ok c1) (Hewma : NewEWMA alpha = Ok c2) (Hkal : NewKalman q r = Ok c3) :
  three_ways c1 (fun xs => RMABatch xs n) (RMA_SaveState (text := text)) RMA_LoadState
  /\ three_ways c2 (fun xs => EWMABatch xs alpha) (EWMA_SaveState (text := text)) EWMA_LoadState
  /\ three_ways c3 (fun xs => KalmanBatch xs q r) (Kalman_SaveState (text := text)) Kalman_LoadState.
Proof.
  unfold NewRMA in Hrma. destruct (n <? 1) eqn:En; [done|]. injection Hrma as <-.
  unfold NewEWMA in Hewma. destruct (negb (ewma_alpha_ok alpha)) eqn:Ea; [done|].
  injection Hewma as <-.
  unfold NewKalman in Hkal. destruct (kalman_params_ok q r) eqn:Ek; [|done]. injection Hkal as <-.
  split; [|split]; apply three_ways_intro.
  - intros xs. unfold RMABatch. by rewrite En.
  - apply RMA_restore.
  - intros xs. unfold EWMABatch. by rewrite Ea.
  - apply EWMA_restore.
  - intros xs. unfold KalmanBatch. by rewrite Ek.
  - apply Kalman_restore.
Qed.

(** A text model for the witnesses: documents as their own encoding. *)
Definition plain_json : JsonText document :=
  {| encode := id; decode := Some; text_empty := fun _ => false; same_name := String.eqb |}.

Lemma plain_json_laws : @JsonTextLaws document plain_json.
Proof.
  constructor; try done. intros a b _ _. cbn. by destruct (String.eqb_spec a b); case_bool_decide.
Qed.

Definition identity_math : GoMath := {| Log := id; Exp := id; Pow := fun x _ => x |}.

Lemma three_way_agreement_witness :
  exists c1 c2 c3,
    @three_ways _ RMA_core document c1 (fun xs => RMABatch xs 3)
      (@RMA_SaveState _ plain_json) (@RMA_LoadState _ plain_json)
    /\ @three_ways _ EWMA_core document c2 (fun xs => @EWMABatch identity_math xs (flit 1 1))
      (@EWMA_SaveState _ plain_json) (@EWMA_LoadState _ plain_json)
    /\ @three_ways _ Kalman_core document c3 (fun xs => KalmanBatch xs f0 f1)
      (@Kalman_SaveState _ plain_json) (@Kalman_LoadState _ plain_json).
Proof.
  eexists _, _, _.
  exact (@three_way_agreement document plain_json plain_json_laws identity_math
           3 (flit 1 1) f0 f1 _ _ _ ltac:(reflexivity) ltac:(vm_compute; reflexivity)
           ltac:(vm_compute; reflexivity)).
Defined.

(** Refusals are atomic and name their place: a failing [Update] or
    [LoadState] leaves the receiver as it was, and a batch with a non-finite
    element fails at the position of the first one. *)
Theorem refusals_atomic {text} {json : JsonText text} `{GoMath} :
  (forall (c c' : rmaCore) (b : text) e, RMA_LoadState c b = (c', Err e) -> c' = c)
  /\ (forall (c c' : ewmaCore) (b : text) e, EWMA_LoadState c b = (c', Err e) -> c' = c)
  /\ (forall (c c' : kalmanCore) (b : text) e, Kalman_LoadState c b = (c', Err e) -> c' = c)
  /\ (forall (C : Type) (core : Core C) (c c' : C) x e, Update c x = (c', Err e) -> c' = c)
  /\ (forall n xs x ys, 1 <= n -> forallb isFinite xs = true -> isFinite x = false ->
      RMABatch (xs ++ x :: ys) n = Err (ENotFinite (length xs)))
  /\ (forall a xs x ys, ewma_alpha_ok a = true -> forallb isFinite xs = true ->
      isFinite x = false -> EWMABatch (xs ++ x :: ys) a = Err (ENotFinite (length xs)))
  /\ (forall q r xs x ys, kalman_params_ok q r = true -> forallb isFinite xs = true ->
      isFinite x = false -> KalmanBatch (xs ++ x :: ys) q r = Err (ENotFinite (length xs))).
Proof.
  refine (conj _ (conj _ (conj _ (conj _ (conj _ (conj _ _)))))).
  - intros c c' b e. unfold RMA_LoadState.
    destruct (decodeVersionedState _ _ _ _ _) as [[[??]?]|]; [|naive_solver].
    repeat case_match; naive_solver.
  - intros c c' b e. unfold EWMA_LoadState.
    destruct (decodeVersionedState _ _ _ _ _) as [[??]|]; [|naive_solver].
    repeat case_match; naive_solver.
  - intros c c' b e. unfold Kalman_LoadState.
    destruct (decodeVersionedState _ _ _ _ _) as [[[??]?]|]; [|naive_solver].
    repeat case_match; naive_solver.
  - intros C core c c' x e. unfold Update. case_match; naive_solver.
  - intros n xs x ys Hn Hxs Hx. unfold RMABatch. replace (n <? 1) with false by lia.
    by apply (batch_loop_refuses _ 0).
  - intros a xs x ys Ha Hxs Hx. unfold EWMABatch. rewrite Ha.
    by apply (batch_loop_refuses _ 0).
  - intros q r xs x ys Hq Hxs Hx. unfold KalmanBatch. rewrite Hq.
    by apply (batch_loop_refuses _ 0).
Qed.
