(* ===== verification/ExprEval.v ===== *)
(** * ExprEval: evaluating factor expressions

    The time-series and cross-sectional operators (operators.go), the
    evaluator over a data provider (evaluator.go), the Pearson coefficient it
    uses (pkg/statistics) and the warm-up derivation (derive.go). Series are
    lists of float64, one per symbol. *)

From stdpp Require Import base list strings gmap sorting.
From Stdlib Require Import ZArith Lia SpecFloat.
From S2P Require Import Prelude GoFloat Indicator ExprSyntax.

Open Scope Z_scope.

(** ** Indexing

    The loops of the operators stay inside their slices, so the default is
    never read. *)
Definition at_ (data : list float64) (i : Z) : float64 := default fNaN (data !! Z.to_nat i).

(** The values [data[i-j]] for [j] from 0 to [window-1], newest first. *)
Definition window_vals (data : list float64) (i window : Z) : list float64 :=
  map (fun j => at_ data (i - j)) (seqZ 0 window).

Definition not_nan (x : float64) : bool := negb (is_nan x).

Definition fsum (xs : list float64) : float64 := fold_left fadd xs f0.

(** The number of elements, as a float64. *)
Definition flen (xs : list float64) : float64 := f64_of_Z (Z.of_nat (length xs)).

(** ** Time-series operators *)

(** The outer loop the sliding-window operators share: nothing for an invalid
    window or no data, NaN until the window is full. *)
Definition rolling (data : list float64) (window : Z) (f : Z -> float64) : list float64 :=
  if (window <=? 0) || (Z.of_nat (length data) =? 0) then []
  else map (fun i => if i <? window - 1 then fNaN else f i) (seqZ 0 (Z.of_nat (length data))).

Definition mean_of (xs : list float64) : float64 :=
  let valid := filter not_nan xs in
  if bool_decide (valid = []) then fNaN else (fsum valid / flen valid)%f64.

Definition tsMean (data : list float64) (window : Z) : list float64 :=
  rolling data window (fun i => mean_of (window_vals data i window)).

Definition tsStd (data : list float64) (window : Z) : list float64 :=
  rolling data window (fun i =>
    let slice := take (Z.to_nat window) (drop (Z.to_nat (i - window + 1)) data) in
    let mean := at_ (tsMean slice window) (window - 1) in
    if is_nan mean then fNaN
    else
      let valid := filter not_nan (window_vals data i window) in
      let sumSq := fsum (map (fun x => let diff := (x - mean)%f64 in (diff * diff)%f64) valid) in
      if (1 <? Z.of_nat (length valid))
      then Sqrt (sumSq / f64_of_Z (Z.of_nat (length valid) - 1))%f64 else fNaN).

Definition tsSum (data : list float64) (window : Z) : list float64 :=
  rolling data window (fun i => fsum (filter not_nan (window_vals data i window))).

(** The extreme of a window: the newest value, replaced by any older one that
    is better. *)
Definition extreme (better : float64 -> float64 -> bool) (xs : list float64) : float64 :=
  match xs with
  | [] => fNaN
  | x :: xs' => fold_left (fun m y => if not_nan y && better y m then y else m) xs' x
  end.

Definition tsMax (data : list float64) (window : Z) : list float64 :=
  rolling data window (fun i => extreme (fun y m => flt m y) (window_vals data i window)).

Definition tsMin (data : list float64) (window : Z) : list float64 :=
  rolling data window (fun i => extreme (fun y m => flt y m) (window_vals data i window)).

(** The outer loop of the lagged operators: NaN for the first [periods]. *)
Definition lagged (data : list float64) (periods : Z) (f : Z -> float64) : list float64 :=
  if (periods <=? 0) || (Z.of_nat (length data) =? 0) then []
  else map (fun i => if i <? periods then fNaN else f i) (seqZ 0 (Z.of_nat (length data))).

Definition tsDelay (data : list float64) (periods : Z) : list float64 :=
  lagged data periods (fun i => at_ data (i - periods)).

Definition tsDelta (data : list float64) (periods : Z) : list float64 :=
  lagged data periods (fun i => (at_ data i - at_ data (i - periods))%f64).

Definition tsPctChange (data : list float64) (periods : Z) : list float64 :=
  lagged data periods (fun i =>
    let base := at_ data (i - periods) in
    if feq base f0 then fNaN else ((at_ data i - base) / base)%f64).

(** [statistics.Pearson]. *)
Definition Pearson (x y : list float64) : float64 :=
  if negb (Nat.eqb (length x) (length y)) || (Z.of_nat (length x) <? 2) then fNaN
  else
    let n := flen x in
    let xy := zip x y in
    let sumX := fsum x in
    let sumY := fsum y in
    let sumXY := fsum (map (fun p => (p.1 * p.2)%f64) xy) in
    let sumX2 := fsum (map (fun a => (a * a)%f64) x) in
    let sumY2 := fsum (map (fun b => (b * b)%f64) y) in
    let numerator := (n * sumXY - sumX * sumY)%f64 in
    let denominator := Sqrt ((n * sumX2 - sumX * sumX) * (n * sumY2 - sumY * sumY))%f64 in
    if feq denominator f0 then fNaN else (numerator / denominator)%f64.

Definition tsCorr (data1 data2 : list float64) (window : Z) : list float64 :=
  if (window <=? 0) || (Z.of_nat (length data1) =? 0) || (Z.of_nat (length data2) =? 0)
     || negb (Nat.eqb (length data1) (length data2)) then []
  else rolling data1 window (fun i =>
    let pairs := filter (fun p : float64 * float64 => not_nan p.1 && not_nan p.2)
                   (zip (window_vals data1 i window) (window_vals data2 i window)) in
    if Z.of_nat (length pairs) <? 2 then fNaN
    else Pearson (map fst pairs) (map snd pairs)).

Definition tsRank (data : list float64) (window : Z) : list float64 :=
  rolling data window (fun i =>
    let windowVals := filter not_nan (window_vals data i window) in
    if bool_decide (windowVals = []) then fNaN
    else
      let rank := Z.of_nat (length (filter (fun v => flt v (at_ data i)) windowVals)) in
      (f64_of_Z rank / f64_of_Z (Z.of_nat (length windowVals) - 1))%f64).

(** ** Cross-sectional operators *)

(** [sort.Slice] and [sort.Float64s]: some ordering of the elements by
    ascending value; equal values come in no particular order. *)
Class GoSort := {
  sort_pairs : list (nat * float64) -> list (nat * float64);
  Float64s : list float64 -> list float64
}.

Class GoSortLaws `{GoSort} := {
  sort_pairs_perm ps : sort_pairs ps ≡ₚ ps;
  sort_pairs_sorted ps : (forall p, p ∈ ps -> is_nan p.2 = false) ->
    Sorted (fun a b => flt b.2 a.2 = false) (sort_pairs ps);
  Float64s_perm xs : Float64s xs ≡ₚ xs
}.

Definition all_nan (n : nat) : list float64 := replicate n fNaN.

Section CrossSection.
Context `{GoSort}.

Definition csRank (values : list float64) : list float64 :=
  let n := length values in
  if Nat.eqb n 0 then []
  else
    let pairs := filter (fun p : nat * float64 => not_nan p.2) (imap pair values) in
    let sorted := sort_pairs pairs in
    fold_left (fun result rp =>
        <[(rp.2).1 := (f64_of_Z (Z.of_nat rp.1)
                       / f64_of_Z (Z.of_nat (length sorted) - 1))%f64]> result)
      (imap pair sorted) (all_nan n).

Definition csZScore (values : list float64) : list float64 :=
  let n := length values in
  if Nat.eqb n 0 then []
  else
    let valid := filter not_nan values in
    let count := length valid in
    if Nat.eqb count 0 then all_nan n
    else
      let mean := (fsum valid / flen valid)%f64 in
      let sumSq := fsum (map (fun v => let diff := (v - mean)%f64 in (diff * diff)%f64) valid) in
      let std := Sqrt (sumSq / flen valid)%f64 in
      map (fun v => if is_nan v || feq std f0 then fNaN else ((v - mean) / std)%f64) values.

Definition csPercentile (values : list float64) : list float64 :=
  let n := length values in
  if Nat.eqb n 0 then []
  else
    let valid := filter not_nan values in
    if Nat.eqb (length valid) 0 then all_nan n
    else
      let valid := Float64s valid in
      map (fun v => if is_nan v then fNaN
                    else (f64_of_Z (Z.of_nat (length (filter (fun x => fle x v) valid)))
                          / flen valid)%f64) values.

Definition globalDemean (values : list float64) : list float64 :=
  let n := length values in
  if Nat.eqb n 0 then []
  else
    let valid := filter not_nan values in
    if Nat.eqb (length valid) 0 then all_nan n
    else
      let mean := (fsum valid / flen valid)%f64 in
      map (fun v => if is_nan v then fNaN else (v - mean)%f64) values.

(** The [map[float64]*groupStat] of [csNeutralize]: keys compare with Go's
    [==], so a NaN key is never found again and -0 is +0. *)
Abbreviation group_stats := (list (float64 * (float64 * Z))).

Fixpoint stats_lookup (g : float64) (st : group_stats) : option (float64 * Z) :=
  match st with
  | [] => None
  | (k, s) :: st' => if feq k g then Some s else stats_lookup g st'
  end.

Fixpoint stats_add (g v : float64) (st : group_stats) : group_stats :=
  match st with
  | [] => [(g, ((f0 + v)%f64, 1))]
  | (k, (sum, count)) :: st' =>
      if feq k g then (k, ((sum + v)%f64, count + 1)) :: st'
      else (k, (sum, count)) :: stats_add g v st'
  end.

Definition csNeutralize (values : list float64) (group : option (list float64)) : list float64 :=
  let n := length values in
  if Nat.eqb n 0 then []
  else match group with
  | None => globalDemean values
  | Some group =>
      if negb (Nat.eqb (length group) n) then globalDemean values
      else
        let stats := fold_left (fun st p => if is_nan p.1 then st else stats_add p.2 p.1 st)
                       (zip values group) [] in
        map (fun p : float64 * float64 =>
               if is_nan p.1 then fNaN
               else match stats_lookup p.2 stats with
                    | None => fNaN
                    | Some (sum, count) =>
                        if count =? 0 then fNaN else (p.1 - sum / f64_of_Z count)%f64
                    end) (zip values group)
  end.
End CrossSection.

(** ** The evaluator *)

Record DataProvider := MkProvider {
  GetField : string -> string -> Z -> option (list float64);
  GetSymbols : list string
}.

Inductive eval_error :=
| EvField (field symbol : string)
| EvLengthMismatch (symbol : string) (left right : nat)
| EvUnknownOperator (name : string)
| EvArity (name : string) (want got : nat)
| EvRecursive (name : string) (e : ind_error)
| EvUnknownTimeSeries (name : string)
| EvUnknownCrossSectional (name : string)
| EvPanic.

Abbreviation series_map := (gmap string (list float64)).

(** A Go map lookup: the nil slice for a missing key. *)
Definition series_of (m : series_map) (symbol : string) : list float64 := default [] (m !! symbol).

Definition bool_f (b : bool) : float64 := if b then f1 else f0.

Definition broadcast (val : float64) (n : nat) : list float64 := replicate n val.

Definition firstScalar (xs : list float64) : float64 :=
  match xs with [] => fNaN | x :: _ => x end.

(** The result for each symbol in turn, stopping at the first error. *)
Fixpoint for_symbols (f : string -> res eval_error (list float64)) (symbols : list string)
    (result : series_map) : res eval_error series_map :=
  match symbols with
  | [] => Ok result
  | s :: symbols' => let? vals := f s in for_symbols f symbols' (<[s := vals]> result)
  end.

Section Evaluate.
Context `{GoMath} `{GoSort}.

Definition applyBinaryOp (op : string) (a b : float64) : float64 :=
  if String.eqb op "+" then (a + b)%f64
  else if String.eqb op "-" then (a - b)%f64
  else if String.eqb op "*" then (a * b)%f64
  else if String.eqb op "/" then if feq b f0 then fNaN else (a / b)%f64
  else if String.eqb op "^" then Pow a b
  else if String.eqb op ">" then bool_f (a >? b)%f64
  else if String.eqb op "<" then bool_f (a <? b)%f64
  else if String.eqb op "==" then bool_f (a =? b)%f64
  else if String.eqb op ">=" then bool_f (a >=? b)%f64
  else if String.eqb op "<=" then bool_f (a <=? b)%f64
  else if String.eqb op "AND" then
    if is_nan a || is_nan b then fNaN else bool_f (negb (feq a f0) && negb (feq b f0))
  else if String.eqb op "OR" then
    if is_nan a || is_nan b then fNaN else bool_f (negb (feq a f0) || negb (feq b f0))
  else fNaN.

Definition applyUnaryOp (op : string) (v : float64) : float64 :=
  if String.eqb op "neg" then fneg v
  else if String.eqb op "abs" then Abs v
  else if String.eqb op "log" then if (v <=? f0)%f64 then fNaN else Log v
  else if String.eqb op "sqrt" then if (v <? f0)%f64 then fNaN else Sqrt v
  else if String.eqb op "sign" then
    if (v >? f0)%f64 then f1 else if (v <? f0)%f64 then f64_of_Z (-1) else f0
  else if String.eqb op "exp" then Exp v
  else if String.eqb op "NOT" then if is_nan v then fNaN else bool_f (feq v f0)
  else fNaN.

(** [int(firstScalar(args[i]))] and the kernels bound in the registry; an
    argument past the end is a panic. *)
Definition scalar_int (xs : list float64) : Z := f64_to_int64 (firstScalar xs).

Definition lift_indicator (name : string) (r : res ind_error (list float64))
    : res eval_error (list float64) :=
  match r with Ok v => Ok v | Err e => Err (EvRecursive name e) end.

Definition run_kernel (name : string) (k : TsKernel) (args : list (list float64))
    : res eval_error (list float64) :=
  match args with
  | a0 :: a1 :: rest =>
      match k with
      | KMean => Ok (tsMean a0 (scalar_int a1))
      | KStd => Ok (tsStd a0 (scalar_int a1))
      | KSum => Ok (tsSum a0 (scalar_int a1))
      | KMax => Ok (tsMax a0 (scalar_int a1))
      | KMin => Ok (tsMin a0 (scalar_int a1))
      | KDelay => Ok (tsDelay a0 (scalar_int a1))
      | KDelta => Ok (tsDelta a0 (scalar_int a1))
      | KPctChange => Ok (tsPctChange a0 (scalar_int a1))
      | KRank => Ok (tsRank a0 (scalar_int a1))
      | KRMA => lift_indicator name (RMABatch a0 (scalar_int a1))
      | KEWMA => lift_indicator name (EWMABatch a0 (firstScalar a1))
      | KCorr => match rest with
                 | a2 :: _ => Ok (tsCorr a0 a1 (scalar_int a2))
                 | [] => Err EvPanic
                 end
      | KKalman => match rest with
                   | a2 :: _ => lift_indicator name
                                  (KalmanBatch a0 (firstScalar a1) (firstScalar a2))
                   | [] => Err EvPanic
                   end
      end
  | _ => Err EvPanic
  end.

Definition applyTimeSeriesOp (op : string) (args : list (list float64))
    : res eval_error (list float64) :=
  match operatorRegistry !! op with
  | Some (MkOp CatTimeSeries arity _ _ _ _ (Some k) _) =>
      if negb (Nat.eqb (length args) arity) then Err (EvArity op arity (length args))
      else run_kernel op k args
  | _ => Err (EvUnknownTimeSeries op)
  end.

Definition applyCrossSectionalOp (op : string) (values : list float64)
    (group : option (list float64)) : res eval_error (list float64) :=
  match operatorRegistry !! op with
  | Some (MkOp CatCrossSectional _ _ _ _ _ _ (Some k)) =>
      Ok match k with
         | KCsRank => csRank values
         | KCsZScore => csZScore values
         | KCsPercentile => csPercentile values
         | KCsNeutralize => csNeutralize values group
         end
  | _ => Err (EvUnknownCrossSectional op)
  end.

Context (provider : DataProvider).

Definition evaluateLiteral (v : float64) : res eval_error series_map :=
  for_symbols (fun _ => Ok [v]) (GetSymbols provider) ∅.

Definition evaluateIdentifier (name : string) (lookback : Z) : res eval_error series_map :=
  for_symbols (fun s => match GetField provider s name lookback with
                        | Some data => Ok data
                        | None => Err (EvField name s)
                        end) (GetSymbols provider) ∅.

(** The per-symbol body of [evaluateBinaryOp]: broadcast, align, combine. *)
Definition binary_series (op symbol : string) (lv rv : list float64)
    : res eval_error (list float64) :=
  let maxLen := Nat.max (length lv) (length rv) in
  let lv := if Nat.eqb (length lv) 1 && Nat.ltb 1 maxLen
            then broadcast (firstScalar lv) maxLen else lv in
  let rv := if Nat.eqb (length rv) 1 && Nat.ltb 1 maxLen
            then broadcast (firstScalar rv) maxLen else rv in
  if negb (Nat.eqb (length lv) (length rv))
  then Err (EvLengthMismatch symbol (length lv) (length rv))
  else Ok (zip_with (applyBinaryOp op) lv rv).

Definition evaluateBinaryOp (op : string) (l r : res eval_error series_map)
    : res eval_error series_map :=
  let? lm := l in
  let? rm := r in
  for_symbols (fun s => binary_series op s (series_of lm s) (series_of rm s))
    (GetSymbols provider) ∅.

Definition evaluateUnaryOp (op : string) (e : res eval_error series_map)
    : res eval_error series_map :=
  let? m := e in
  for_symbols (fun s => Ok (map (applyUnaryOp op) (series_of m s))) (GetSymbols provider) ∅.

Definition evaluateFunction (name : string) (args : res eval_error (list series_map))
    : res eval_error series_map :=
  match OperatorCategory name with
  | Some CatTimeSeries =>
      let? argResults := args in
      for_symbols (fun s => applyTimeSeriesOp name (map (fun m => series_of m s) argResults))
        (GetSymbols provider) ∅
  | Some CatUnary =>
      let? argResults := args in
      match argResults with
      | [m] => Ok (map (applyUnaryOp name) <$> m)
      | _ => Err (EvArity name 1 (length argResults))
      end
  | _ => Err (EvUnknownOperator name)
  end.

(** The latest value of each symbol; 0 for an empty series. *)
Definition latest (m : series_map) : list float64 :=
  map (fun s => default f0 (last (series_of m s))) (GetSymbols provider).

Definition evaluateCrossSectional (op : string) (e : res eval_error series_map)
    (group : option (res eval_error series_map)) : res eval_error series_map :=
  let? m := e in
  let? groupValues := match group with
                      | None => Ok None
                      | Some g => let? gm := g in Ok (Some (latest gm))
                      end in
  let? ranked := applyCrossSectionalOp op (latest m) groupValues in
  Ok (fold_left (fun result p => <[p.1 := [p.2]]> result) (zip (GetSymbols provider) ranked) ∅).

Fixpoint Evaluate (node : Node) (lookback : Z) : res eval_error series_map :=
  match node with
  | LiteralNode v => evaluateLiteral v
  | IdentifierNode name => evaluateIdentifier name lookback
  | BinaryOpNode op l r => evaluateBinaryOp op (Evaluate l lookback) (Evaluate r lookback)
  | UnaryOpNode op e => evaluateUnaryOp op (Evaluate e lookback)
  | FunctionNode name args =>
      evaluateFunction name
        ((fix eval_args l := match l with
                             | [] => Ok []
                             | a :: l' => let? m := Evaluate a lookback in
                                          let? ms := eval_args l' in Ok (m :: ms)
                             end) args)
  | CrossSectionalNode op e group =>
      evaluateCrossSectional op (Evaluate e lookback)
        (match group with Some g => Some (Evaluate g lookback) | None => None end)
  end.
End Evaluate.

(** ** Warm-up (derive.go, registry.go) *)

Section Warmup.
Context `{GoMath}.

Definition eval_selfWarmup (w : SelfWarmup) (args : list Node) : Z :=
  match w with
  | windowSelfWarmup i => windowSelfLookbackAt args i
  | periodSelfWarmup i => periodSelfAt args i
  | rmaSelfWarmup =>
      match literalIntAt args 1 with
      | Some n => match NewRMA n with Ok c => RMA_Warmup c | Err _ => 0 end
      | None => 0
      end
  | ewmaSelfWarmup =>
      match literalFloatAt args 1 with
      | Some alpha => match NewEWMA alpha with Ok c => EWMA_Warmup c | Err _ => 0 end
      | None => 0
      end
  | kalmanSelfWarmup => match NewKalman f0 f1 with Ok _ => 1 | Err _ => 0 end
  end.

Definition functionSelfWarmup (name : string) (args : list Node) : Z :=
  match operatorRegistry !! name with
  | Some def => match selfWarmup def with
                | Some w => if Nat.eqb (length args) (Arity def)
                            then eval_selfWarmup w args else 0
                | None => 0
                end
  | None => 0
  end.

Fixpoint DeriveWarmup (node : Node) : Z :=
  match node with
  | LiteralNode _ | IdentifierNode _ => 0
  | UnaryOpNode _ e => DeriveWarmup e
  | BinaryOpNode _ l r => Z.max (DeriveWarmup l) (DeriveWarmup r)
  | FunctionNode f args =>
      let inner := fold_left (fun acc a => Z.max acc (DeriveWarmup a)) args 0 in
      wrap64 (inner + functionSelfWarmup f args)
  | CrossSectionalNode _ e group =>
      match group with
      | Some g => Z.max (DeriveWarmup e) (DeriveWarmup g)
      | None => DeriveWarmup e
      end
  end.
End Warmup.
