(* ===== verification/ExprProps.v ===== *)
(** * ExprProps: properties of the gate, the evaluator and the operators

    The validation gate rules out the operator errors of the evaluator; the
    derived look-back bounds what a value depends on (no look-ahead, no older
    bars); the exceptions to that bound; the order of the cross-sectional
    rank. *)

From stdpp Require Import base list strings gmap sorting.
From Stdlib Require Import ZArith Lia SpecFloat.
From S2P Require Import Prelude GoFloat Indicator ExprSyntax ExprEval.

Open Scope Z_scope.

(** ** Registry facts, decided over the whole table *)

Definition kernel_arity (k : TsKernel) : nat :=
  match k with KCorr | KKalman => 3 | _ => 2 end.

Definition is_window_kernel (k : TsKernel) : bool :=
  match k with KMean | KStd | KSum | KMax | KMin | KRank => true | _ => false end.
Definition is_period_kernel (k : TsKernel) : bool :=
  match k with KDelay | KDelta | KPctChange => true | _ => false end.

(** The shapes a time-series entry of the registry has. *)
Definition entry_ok (d : OperatorDef) : bool :=
  match d with
  | MkOp CatTimeSeries arity scalars state _ self (Some k) _ =>
      Nat.eqb arity (kernel_arity k) &&
      (state
       || (is_window_kernel k && bool_decide (scalars = [1%nat])
           && match self with Some (windowAt 1) => true | _ => false end)
       || (is_period_kernel k && bool_decide (scalars = [1%nat])
           && match self with Some (periodAt 1) => true | _ => false end)
       || (match k with KCorr => true | _ => false end && bool_decide (scalars = [2%nat])
           && match self with Some (windowAt 2) => true | _ => false end))
  | MkOp CatCrossSectional _ _ _ _ _ _ (Some _) => true
  | MkOp CatUnary arity _ false _ None _ _ => Nat.eqb arity 1
  | MkOp CatBinary arity _ _ _ _ _ _ => Nat.eqb arity 2
  | _ => false
  end.

Lemma registry_entries name d : operatorRegistry !! name = Some d -> entry_ok d = true.
Proof.
  assert (Hall : map_Forall (fun _ d => entry_ok d = true) operatorRegistry).
  { apply (bool_decide_unpack _). vm_compute. exact I. }
  apply Hall.
Qed.

#[local] Opaque operatorRegistry.

(** ** The gate *)

(** The argument loops of [validateNode] and [Evaluate], named. *)
Definition validate_args (l : list Node) : res validate_error unit :=
  (fix go l := match l with
               | [] => Ok tt
               | a :: l' => let? _ := validateNode a in go l'
               end) l.

Lemma validate_args_Ok l :
  validate_args l = Ok tt <-> Forall (fun a => validateNode a = Ok tt) l.
Proof.
  induction l as [|a l IH]; simpl; [split; auto|].
  rewrite Forall_cons, res_bind_ok, <- IH. split.
  - intros ([] & H1 & H2). done.
  - intros [H1 H2]. by exists tt.
Qed.

Section Gate.
Context `{GoMath} `{GoSort}.

Definition eval_args (P : DataProvider) (lookback : Z) (l : list Node)
    : res eval_error (list series_map) :=
  (fix go l := match l with
               | [] => Ok []
               | a :: l' => let? m := Evaluate P a lookback in
                            let? ms := go l' in Ok (m :: ms)
               end) l.

Lemma Evaluate_function P lookback f args :
  Evaluate P (FunctionNode f args) lookback = evaluateFunction P f (eval_args P lookback args).
Proof. reflexivity. Qed.

Lemma eval_args_cons P lookback a l :
  eval_args P lookback (a :: l)
  = let? m := Evaluate P a lookback in
    let? ms := eval_args P lookback l in Ok (m :: ms).
Proof. reflexivity. Qed.

Lemma eval_args_length P lookback l ms :
  eval_args P lookback l = Ok ms -> length ms = length l.
Proof.
  revert ms. induction l as [|a l IH]; intros ms; [by intros [= <-]|].
  rewrite eval_args_cons. intros (m & _ & (ms' & E & [= <-])%res_bind_ok)%res_bind_ok. simpl. by rewrite (IH ms').
Qed.

Lemma eval_args_Err P lookback l e :
  eval_args P lookback l = Err e -> exists a, a ∈ l /\ Evaluate P a lookback = Err e.
Proof.
  induction l as [|a l IH]; [done|]. rewrite eval_args_cons.
  destruct (Evaluate P a lookback) as [m|e'] eqn:E; simpl.
  - destruct (eval_args P lookback l) as [ms|e'']; simpl; [done|].
    intros [= ->]. destruct IH as (b & Hb & Hev); [done|]. exists b. set_solver.
  - intros [= ->]. exists a. set_solver.
Qed.

Lemma for_symbols_Err f syms acc e :
  for_symbols f syms acc = Err e -> exists s, s ∈ syms /\ f s = Err e.
Proof.
  revert acc. induction syms as [|s syms IH]; simpl; intros acc; [done|].
  destruct (f s) as [v|e'] eqn:E; simpl.
  - intros (s' & Hs & Hf)%IH. exists s'. set_solver.
  - intros [= ->]. exists s. set_solver.
Qed.

(** The errors that come from the data: a field the provider cannot supply,
    series of different lengths, an input a recursive operator refuses. *)
Definition data_error (e : eval_error) : Prop :=
  match e with
  | EvField f _ => IsDataField f = true
  | EvLengthMismatch _ _ _ | EvRecursive _ _ => True
  | _ => False
  end.

Lemma run_kernel_data name k args e :
  length args = kernel_arity k -> run_kernel name k args = Err e -> data_error e.
Proof.
  intros Hl. destruct args as [|a0 [|a1 [|a2 [|]]]]; destruct k; try discriminate Hl;
    simpl; unfold lift_indicator; try done;
    destruct (_ : res ind_error (list float64)); by intros [= <-].
Qed.

Lemma applyTimeSeriesOp_data op d args e :
  operatorRegistry !! op = Some d -> Category d = CatTimeSeries -> length args = Arity d ->
  applyTimeSeriesOp op args = Err e -> data_error e.
Proof.
  intros Hd Hc Hl. unfold applyTimeSeriesOp. rewrite Hd.
  pose proof (registry_entries _ _ Hd) as Hok.
  destruct d as [cat arity sc st w lb [k|] cs]; simpl in *; subst cat; [|done].
  bool_to_prop. apply Nat.eqb_eq in H1. rewrite Hl, Nat.eqb_refl. simpl.
  apply run_kernel_data. congruence.
Qed.

Lemma validate_function f args :
  validateNode (FunctionNode f args) = Ok tt ->
  exists d, operatorRegistry !! f = Some d
    /\ (Category d = CatTimeSeries \/ Category d = CatUnary)
    /\ length args = Arity d
    /\ check_scalars f args (ScalarParams d) = Ok tt
    /\ Forall (fun a => validateNode a = Ok tt) args.
Proof.
  cbn [validateNode]. destruct (operatorRegistry !! f) as [d|] eqn:Ed; [|done].
  destruct (bool_decide (Category d <> CatTimeSeries) && bool_decide (Category d <> CatUnary)) eqn:Ec;
    [done|].
  destruct (Nat.eqb (length args) (Arity d)) eqn:El; [|done]. simpl.
  apply Nat.eqb_eq in El.
  intros ([] & Hs & Ha)%res_bind_ok. exists d. split; [done|]. split; [|split; [done|split; [done|]]].
  - by destruct (Category d); auto.
  - by apply validate_args_Ok.
Qed.

Lemma validate_cross op e group :
  validateNode (CrossSectionalNode op e group) = Ok tt ->
  IsCrossSectionalOp op = true /\ validateNode e = Ok tt
  /\ (forall g, group = Some g -> validateNode g = Ok tt).
Proof.
  cbn [validateNode]. unfold IsCrossSectionalOp, has_category.
  destruct (operatorRegistry !! op) as [d|]; [|done].
  destruct (bool_decide (Category d = CatCrossSectional)); simpl; [|done].
  case_match; [done|]. intros ([] & He & Hg)%res_bind_ok. split; [done|]. split; [done|].
  intros g ->. done.
Qed.

Lemma validate_bin op l r :
  validateNode (BinaryOpNode op l r) = Ok tt ->
  validateNode l = Ok tt /\ validateNode r = Ok tt.
Proof.
  cbn [validateNode]. case_match; [|done]. by intros ([] & ? & ?)%res_bind_ok.
Qed.

Lemma validate_un op e : validateNode (UnaryOpNode op e) = Ok tt -> validateNode e = Ok tt.
Proof. cbn [validateNode]. by case_match. Qed.

Lemma binary_series_data op s lv rv e :
  binary_series op s lv rv = Err e -> data_error e.
Proof. unfold binary_series. case_match; [by intros [= <-]|done]. Qed.

Lemma applyCrossSectionalOp_Ok op values group :
  IsCrossSectionalOp op = true -> is_ok (applyCrossSectionalOp op values group) = true.
Proof.
  unfold IsCrossSectionalOp, has_category, applyCrossSectionalOp.
  destruct (operatorRegistry !! op) as [d|] eqn:Ed; [|done].
  intros Hc%bool_decide_eq_true. apply registry_entries in Ed.
  destruct d as [cat arity sc st w lb ts [k|]]; simpl in *; subst cat; done.
Qed.

(** What the gate accepts, the evaluator can run: evaluating a validated
    expression never fails on an unknown operator or a wrong number of
    arguments and never indexes past its arguments; the only failures left
    are those of the data (a known field the provider cannot supply, series
    of different lengths, a non-finite input or invalid parameter of a
    recursive operator). *)
Theorem gate_rules_out_operator_errors P node lookback e
  (Hgate : validateNode node = Ok tt) (Herr : Evaluate P node lookback = Err e) :
  data_error e.
Proof.
  revert Hgate e Herr.
  induction node as [v|x|op l r IHl IHr|op n IH|f args IH|op n IH|op n g IH IHg] using Node_ind';
    intros Hg e He.
  - cbn in He. by apply for_symbols_Err in He as (s & _ & He).
  - cbn [Evaluate] in He. apply for_symbols_Err in He as (s & _ & He).
    destruct (GetField _ _ _ _); [done|]. injection He as <-. simpl.
    cbn [validateNode] in Hg. by destruct (IsDataField x).
  - apply validate_bin in Hg as [Hl Hr]. cbn [Evaluate] in He. unfold evaluateBinaryOp in He.
    destruct (Evaluate P l lookback) as [lm|e']; simpl in He; [|injection He as ->; eauto].
    destruct (Evaluate P r lookback) as [rm|e']; simpl in He; [|injection He as ->; eauto].
    apply for_symbols_Err in He as (s & _ & He). by eapply binary_series_data.
  - apply validate_un in Hg. cbn [Evaluate] in He. unfold evaluateUnaryOp in He.
    destruct (Evaluate P n lookback) as [m|e']; simpl in He; [|injection He as ->; eauto].
    by apply for_symbols_Err in He as (s & _ & He).
  - apply validate_function in Hg as (d & Hd & Hc & Hl & _ & Hargs).
    rewrite Evaluate_function in He. unfold evaluateFunction, OperatorCategory in He.
    rewrite Hd in He. simpl in He.
    destruct (eval_args P lookback args) as [ms|e'] eqn:Ea.
    2:{ assert (e = e') as -> by (destruct (Category d); naive_solver).
        apply eval_args_Err in Ea as (a & Ha & Hev).
        rewrite Forall_forall in IH, Hargs. by eapply IH; eauto. }
    apply eval_args_length in Ea.
    destruct Hc as [Hc|Hc]; rewrite Hc in He; simpl in He.
    + apply for_symbols_Err in He as (s & _ & He).
      eapply applyTimeSeriesOp_data; [done|done| |exact He]. rewrite length_map. congruence.
    + pose proof (registry_entries _ _ Hd) as Hok.
      destruct d as [cat arity sc st w lb ts cs]; simpl in *; subst cat.
      destruct st, lb; try done. apply Nat.eqb_eq in Hok.
      destruct ms as [|m [|]]; simpl in *; try lia; done.
  - apply validate_cross in Hg as (Hop & Hn & _). cbn [Evaluate] in He.
    unfold evaluateCrossSectional in He.
    destruct (Evaluate P n lookback) as [m|e']; simpl in He; [|injection He as ->; eauto].
    pose proof (applyCrossSectionalOp_Ok op (latest P m) None Hop) as Hx.
    by destruct (applyCrossSectionalOp _ _ _).
  - apply validate_cross in Hg as (Hop & Hn & Hgr). specialize (Hgr g eq_refl).
    cbn [Evaluate] in He. unfold evaluateCrossSectional in He.
    destruct (Evaluate P n lookback) as [m|e']; simpl in He; [|injection He as ->; eauto].
    destruct (Evaluate P g lookback) as [gm|e']; simpl in He; [|injection He as ->; eauto].
    pose proof (applyCrossSectionalOp_Ok op (latest P m) (Some (latest P gm)) Hop) as Hx.
    by destruct (applyCrossSectionalOp _ _ _).
Qed.
End Gate.

(** ** Locality of the sliding operators *)

(** Two series agree on the bars from [lo] to [hi]. *)
Definition same_on (lo hi : Z) (d d' : list float64) : Prop :=
  length d = length d' /\ forall j : nat, lo <= Z.of_nat j <= hi -> d !! j = d' !! j.

Lemma same_on_at lo hi d d' i :
  same_on lo hi d d' -> 0 <= i -> lo <= i <= hi -> at_ d i = at_ d' i.
Proof. intros [_ Hs] H0 Hi. unfold at_. rewrite Hs; [done|]. lia. Qed.

Lemma same_on_window lo d d' i w :
  same_on lo i d d' -> lo <= i - w + 1 -> 0 <= i - w + 1 -> window_vals d i w = window_vals d' i w.
Proof.
  intros Hs Hlo H0. unfold window_vals. apply map_ext_in. intros j Hj.
  apply list_elem_of_In, elem_of_seqZ in Hj. eapply same_on_at; [done|lia|lia].
Qed.

Lemma same_on_slice lo d d' i w :
  same_on lo i d d' -> lo <= i - w + 1 -> 0 <= i - w + 1 -> 0 <= w ->
  take (Z.to_nat w) (drop (Z.to_nat (i - w + 1)) d)
  = take (Z.to_nat w) (drop (Z.to_nat (i - w + 1)) d').
Proof.
  intros [_ Hs] Hlo H0 Hw. apply list_eq. intros j.
  destruct (decide (j < Z.to_nat w)%nat) as [Hj|Hj].
  - rewrite !lookup_take_lt, !lookup_drop by done. apply Hs. lia.
  - by rewrite !lookup_take_ge by lia.
Qed.

Lemma lookup_map_seqZ (f : Z -> float64) n (i : nat) :
  map f (seqZ 0 n) !! i = if Z.of_nat i <? n then Some (f (Z.of_nat i)) else None.
Proof.
  rewrite list_lookup_fmap. destruct (Z.of_nat i <? n) eqn:E; bool_to_prop.
  - rewrite lookup_seqZ_lt by lia. done.
  - rewrite lookup_seqZ_ge by lia. done.
Qed.

Lemma length_rolling d w f :
  length (rolling d w f) = if (w <=? 0) || (Z.of_nat (length d) =? 0) then 0%nat else length d.
Proof. unfold rolling. case_match; [done|]. rewrite length_map, length_seqZ. lia. Qed.

Lemma length_lagged d w f :
  length (lagged d w f) = if (w <=? 0) || (Z.of_nat (length d) =? 0) then 0%nat else length d.
Proof. unfold lagged. case_match; [done|]. rewrite length_map, length_seqZ. lia. Qed.

Lemma rolling_local d d' w (f f' : Z -> float64) (i : nat) :
  length d = length d' ->
  (0 < w -> w - 1 <= Z.of_nat i -> f (Z.of_nat i) = f' (Z.of_nat i)) ->
  rolling d w f !! i = rolling d' w f' !! i.
Proof.
  intros Hl Hf. unfold rolling. rewrite Hl. case_match eqn:E; [done|].
  rewrite !lookup_map_seqZ. case_match; [|done]. f_equal. case_match eqn:Ew; [done|].
  apply orb_false_iff in E as [E1 E2]. bool_to_prop. apply Hf; lia.
Qed.

Lemma lagged_local d d' p (f f' : Z -> float64) (i : nat) :
  length d = length d' ->
  (0 < p -> p <= Z.of_nat i -> f (Z.of_nat i) = f' (Z.of_nat i)) ->
  lagged d p f !! i = lagged d' p f' !! i.
Proof.
  intros Hl Hf. unfold lagged. rewrite Hl. case_match eqn:E; [done|].
  rewrite !lookup_map_seqZ. case_match; [|done]. f_equal. case_match eqn:Ew; [done|].
  apply orb_false_iff in E as [E1 E2]. bool_to_prop. apply Hf; lia.
Qed.

(** What a non-recursive kernel with parameter [w] looks at, before bar [i]. *)
Definition kernel_reach (k : TsKernel) (w : Z) : Z :=
  if is_period_kernel k then if w <? 0 then 0 else w else if w <? 1 then 0 else w - 1.

Section Kernels.
Context `{GoMath} `{GoSort}.

(** The length of a kernel's result: nothing, or that of its data. *)
Definition kernel_length (r d : list float64) : Prop := length r = 0%nat \/ length r = length d.

Lemma kernel2_local name k d d' v (i : nat) :
  is_window_kernel k || is_period_kernel k = true ->
  let w := scalar_int [v] in
  same_on (Z.of_nat i - kernel_reach k w) (Z.of_nat i) d d' ->
  exists r r', run_kernel name k [d; [v]] = Ok r /\ run_kernel name k [d'; [v]] = Ok r'
    /\ length r = length r' /\ kernel_length r d /\ r !! i = r' !! i.
Proof.
  intros Hk w Hs. pose proof (proj1 Hs) as Hlen.
  assert (Hwin : 0 < w -> w - 1 <= Z.of_nat i -> is_window_kernel k = true ->
            window_vals d (Z.of_nat i) w = window_vals d' (Z.of_nat i) w).
  { intros. apply (same_on_window _ _ _ _ _ Hs); [|lia].
    unfold kernel_reach. destruct k; try done; simpl; case_if; lia. }
  assert (Hat : 0 < w -> w <= Z.of_nat i -> is_period_kernel k = true ->
            at_ d (Z.of_nat i - w) = at_ d' (Z.of_nat i - w)).
  { intros ?? Hp. apply (same_on_at _ _ _ _ _ Hs); [lia|].
    unfold kernel_reach. rewrite Hp. case_if; lia. }
  assert (Hcur : at_ d (Z.of_nat i) = at_ d' (Z.of_nat i)).
  { apply (same_on_at _ _ _ _ _ Hs); [lia|]. unfold kernel_reach. repeat case_if; lia. }
  destruct k; try discriminate Hk; cbn [run_kernel]; fold w; do 2 eexists;
    (split; [reflexivity|split; [reflexivity|split; [|split]]]);
    try (unfold tsMean, tsStd, tsSum, tsMax, tsMin, tsDelay, tsDelta, tsPctChange, tsRank;
         by rewrite ?length_rolling, ?length_lagged, ?Hlen);
    try (unfold kernel_length, tsMean, tsStd, tsSum, tsMax, tsMin, tsDelay, tsDelta,
           tsPctChange, tsRank;
         rewrite ?length_rolling, ?length_lagged; case_match; auto; fail).
  - apply rolling_local; [done|]. intros. by rewrite Hwin.
  - apply rolling_local; [done|]. intros.
    rewrite Hwin by done. rewrite (same_on_slice _ _ _ _ _ Hs); [done| |lia|lia].
    unfold kernel_reach; simpl; case_if; lia.
  - apply rolling_local; [done|]. intros. by rewrite Hwin.
  - apply rolling_local; [done|]. intros. by rewrite Hwin.
  - apply rolling_local; [done|]. intros. by rewrite Hwin.
  - apply lagged_local; [done|]. intros. by rewrite Hat.
  - apply lagged_local; [done|]. intros. by rewrite Hcur, Hat.
  - apply lagged_local; [done|]. intros. by rewrite Hcur, Hat.
  - apply rolling_local; [done|]. intros. by rewrite Hwin, Hcur.
Qed.

Lemma corr_local name d d' e e' v (i : nat) :
  let w := scalar_int [v] in
  same_on (Z.of_nat i - kernel_reach KCorr w) (Z.of_nat i) d d' ->
  same_on (Z.of_nat i - kernel_reach KCorr w) (Z.of_nat i) e e' ->
  exists r r', run_kernel name KCorr [d; e; [v]] = Ok r
    /\ run_kernel name KCorr [d'; e'; [v]] = Ok r'
    /\ length r = length r' /\ kernel_length r d /\ r !! i = r' !! i.
Proof.
  intros w Hd He. pose proof (proj1 Hd) as Hld. pose proof (proj1 He) as Hle.
  cbn [run_kernel]. fold w. do 2 eexists. split; [reflexivity|]. split; [reflexivity|].
  unfold tsCorr. rewrite Hld, Hle. case_match eqn:E; [split; [done|split; [by left|done]]|].
  apply orb_false_iff in E as [[[E1 E2]%orb_false_iff E3]%orb_false_iff E4]. bool_to_prop.
  split; [|split].
  - by rewrite !length_rolling, Hld.
  - unfold kernel_length. rewrite length_rolling. case_match; auto.
  - apply rolling_local; [done|]. intros Hw Hi.
    assert (window_vals d (Z.of_nat i) w = window_vals d' (Z.of_nat i) w) as ->.
    { apply (same_on_window _ _ _ _ _ Hd); [|lia]. unfold kernel_reach; simpl; case_if; lia. }
    assert (window_vals e (Z.of_nat i) w = window_vals e' (Z.of_nat i) w) as ->.
    { apply (same_on_window _ _ _ _ _ He); [|lia]. unfold kernel_reach; simpl; case_if; lia. }
    done.
Qed.
End Kernels.

(** ** Look-back *)

(** Two series that cannot be told apart at bar [i]: empty, one and the same
    scalar, or two full-length series equal there. *)
Definition loc (N i : nat) (v v' : list float64) : Prop :=
  length v = length v'
  /\ (length v = 0%nat \/ (length v = 1%nat /\ v = v') \/ (length v = N /\ v !! i = v' !! i)).

(** Two results that fail alike or agree at bar [i] for every symbol. *)
Definition related (N i : nat) (syms : list string) (r r' : res eval_error series_map) : Prop :=
  match r, r' with
  | Ok m, Ok m' => forall s, s ∈ syms -> loc N i (series_of m s) (series_of m' s)
  | Err e, Err e' => e = e'
  | _, _ => False
  end.

(** Two providers with the same symbols whose fields agree between two bars. *)
Definition agree (P P' : DataProvider) (lookback : Z) (N : nat) (lo hi : Z) : Prop :=
  GetSymbols P = GetSymbols P'
  /\ forall s f, match GetField P s f lookback, GetField P' s f lookback with
                 | Some d, Some d' => length d = N /\ same_on lo hi d d'
                 | None, None => True
                 | _, _ => False
                 end.

Lemma agree_mono P P' lb N lo hi lo' hi' :
  agree P P' lb N lo hi -> lo <= lo' -> hi' <= hi -> agree P P' lb N lo' hi'.
Proof.
  intros [Hs Ha] H1 H2. split; [done|]. intros s f. specialize (Ha s f).
  destruct (GetField P s f lb), (GetField P' s f lb); try done.
  destruct Ha as (Hl & Hl' & Hj). split; [done|]. split; [done|]. intros j ?. apply Hj. lia.
Qed.

Lemma loc_refl N i v : (length v = 0 \/ length v = 1 \/ length v = N)%nat -> loc N i v v.
Proof. intros Hv. split; [done|]. naive_solver. Qed.

Lemma loc_lookup N i v v' : loc N i v v' -> v !! i = v' !! i.
Proof.
  intros (Hl & [H0|[[_ ->]|[_ H1]]]); [|done|done].
  destruct v; [|done]. destruct v'; done.
Qed.

Lemma loc_map N i f v v' : loc N i v v' -> loc N i (map f v) (map f v').
Proof.
  intros (Hl & Hc). split; [by rewrite !length_map|]. rewrite length_map.
  destruct Hc as [H0|[[H1 ->]|[H2 H3]]]; [by left|by right; left|right; right].
  split; [done|]. by rewrite !list_lookup_fmap, H3.
Qed.

(** Scalars are broadcast to full length. *)
Definition stretched (maxLen : nat) (v : list float64) : list float64 :=
  if Nat.eqb (length v) 1 && Nat.ltb 1 maxLen then broadcast (firstScalar v) maxLen else v.

Lemma loc_stretched N i maxLen v v' :
  maxLen = 0%nat \/ maxLen = 1%nat \/ maxLen = N ->
  loc N i v v' -> loc N i (stretched maxLen v) (stretched maxLen v').
Proof.
  intros Hm Hv. pose proof Hv as (Hl & Hc). unfold stretched. rewrite <- Hl.
  destruct (Nat.eqb (length v) 1 && Nat.ltb 1 maxLen) eqn:E; [|done].
  apply andb_true_iff in E as [E1%Nat.eqb_eq E2%Nat.ltb_lt].
  assert (firstScalar v = firstScalar v') as ->.
  { destruct Hc as [H0|[[_ ->]|[H2 H3]]]; [lia|done|].
    destruct v as [|x [|]], v' as [|x' [|]]; try done. simpl in *. subst N. lia. }
  apply loc_refl. unfold broadcast. rewrite length_replicate. lia.
Qed.

Section Lookback.
Context {gm : GoMath} {gs : GoSort}.
Context (P P' : DataProvider) (lookback : Z) (N : nat) (HN : (2 <= N)%nat).

Definition synced (r r' : res eval_error (list float64)) (Q : list float64 -> list float64 -> Prop)
    : Prop :=
  match r, r' with
  | Ok v, Ok v' => Q v v'
  | Err e, Err e' => e = e'
  | _, _ => False
  end.

Lemma binary_series_related op s i lv lv' rv rv' :
  loc N i lv lv' -> loc N i rv rv' ->
  synced (binary_series op s lv rv) (binary_series op s lv' rv') (loc N i).
Proof.
  intros Hl Hr. unfold binary_series.
  change (if Nat.eqb (length lv) 1 && _ then _ else lv)
    with (stretched (Nat.max (length lv) (length rv)) lv).
  change (if Nat.eqb (length rv) 1 && _ then _ else rv)
    with (stretched (Nat.max (length lv) (length rv)) rv).
  change (if Nat.eqb (length lv') 1 && _ then _ else lv')
    with (stretched (Nat.max (length lv') (length rv')) lv').
  change (if Nat.eqb (length rv') 1 && _ then _ else rv')
    with (stretched (Nat.max (length lv') (length rv')) rv').
  rewrite <- (proj1 Hl), <- (proj1 Hr).
  set (M := Nat.max (length lv) (length rv)).
  assert (HM : M = 0%nat \/ M = 1%nat \/ M = N)
    by (destruct Hl as (_ & Hl), Hr as (_ & Hr); unfold M; lia).
  apply (loc_stretched _ _ M) in Hl, Hr; [|done|done].
  generalize dependent (stretched M lv). intros a Ha.
  generalize dependent (stretched M lv'). intros a' Ha.
  generalize dependent (stretched M rv). intros b Hb.
  generalize dependent (stretched M rv'). intros b' Hb.
  rewrite <- (proj1 Ha), <- (proj1 Hb).
  destruct (Nat.eqb (length a) (length b)) eqn:E; simpl; [|done]. apply Nat.eqb_eq in E.
  destruct Ha as (Hla & Ha), Hb as (Hlb & Hb).
  split; [rewrite !length_zip_with; lia|]. rewrite length_zip_with.
  destruct Ha as [Ha|[[Ha ->]|[Ha Ha']]].
  - left. lia.
  - destruct Hb as [Hb|[[Hb ->]|[Hb Hb']]]; [left; lia|right; left; split; [lia|done]|lia].
  - destruct Hb as [Hb|[[Hb ->]|[Hb Hb']]]; [left; lia|lia|].
    right; right. split; [lia|]. by rewrite !lookup_zip_with, Ha', Hb'.
Qed.

Lemma for_symbols_Ok f syms acc m :
  for_symbols f syms acc = Ok m ->
  forall s, (s ∈ syms -> f s = Ok (series_of m s)) /\ (s ∉ syms -> m !! s = acc !! s).
Proof.
  revert acc. induction syms as [|s0 syms IH]; simpl; intros acc Hm s.
  - injection Hm as <-. split; [set_solver|done].
  - apply res_bind_ok in Hm as (v & Hv & Hm). specialize (IH _ Hm s) as [IH1 IH2].
    destruct (decide (s ∈ syms)) as [Hin|Hin]; [split; [auto|set_solver]|].
    specialize (IH2 Hin). split.
    + intros [->|?]%elem_of_cons; [|done]. unfold series_of.
      by rewrite IH2, lookup_insert_eq.
    + intros [Hne _]%not_elem_of_cons. by rewrite IH2, lookup_insert_ne.
Qed.

Lemma for_symbols_related i f f' syms acc acc' :
  (forall s, s ∈ syms -> synced (f s) (f' s) (loc N i)) ->
  related N i syms (for_symbols f syms acc) (for_symbols f' syms acc').
Proof.
  intros Hf.
  assert (Hsync : is_ok (for_symbols f syms acc) = is_ok (for_symbols f' syms acc')
          /\ forall e, for_symbols f syms acc = Err e -> for_symbols f' syms acc' = Err e).
  { revert acc acc' Hf. induction syms as [|s syms IH]; simpl; intros acc acc' Hf; [done|].
    specialize (Hf s ltac:(set_solver)) as Hs. unfold synced in Hs.
    destruct (f s), (f' s); simpl; try done.
    - apply IH. intros s' ?. apply Hf. set_solver.
    - subst. naive_solver. }
  destruct Hsync as [Hok Herr]. unfold related.
  destruct (for_symbols f syms acc) as [m|e] eqn:E, (for_symbols f' syms acc') as [m'|e'] eqn:E';
    try done; [|naive_solver].
  intros s Hs. specialize (Hf s Hs). unfold synced in Hf.
  by rewrite (proj1 (for_symbols_Ok _ _ _ _ E s) Hs),
     (proj1 (for_symbols_Ok _ _ _ _ E' s) Hs) in Hf.
Qed.

(** The expressions the bound is claimed for: no cross-sectional operator,
    every scalar parameter a bare literal, no look-back sum past the int
    range. *)
Definition is_literal (a : option Node) : bool :=
  match a with Some (LiteralNode _) => true | _ => false end.

Fixpoint plain (n : Node) : bool :=
  match n with
  | LiteralNode _ | IdentifierNode _ => true
  | UnaryOpNode _ e => plain e
  | BinaryOpNode _ l r => plain l && plain r
  | FunctionNode f args =>
      forallb plain args
      && match operatorRegistry !! f with
         | Some d =>
             forallb (fun i => is_literal (args !! i)) (ScalarParams d)
             && (fst (fold_left (fun acc a => join_lookback acc (DeriveLookback a)) args (0, false))
                 + match selfLookback d with
                   | Some s => eval_selfLookback s args
                   | None => 0
                   end <=? max_int64)
         | None => false
         end
  | CrossSectionalNode _ _ _ => false
  end.

Lemma loc_same_on (lo i : Z) v v' :
  0 <= i -> lo <= i ->
  (forall j : nat, lo <= Z.of_nat j <= i -> loc N j v v') -> same_on lo i v v'.
Proof.
  intros Hi0 Hlo Hj. split.
  - exact (proj1 (Hj (Z.to_nat i) ltac:(lia))).
  - intros j ?. by apply (loc_lookup N), Hj.
Qed.

Lemma kernel_result_loc (i : nat) (r r' d d' : list float64) :
  length r = length r' -> kernel_length r d -> r !! i = r' !! i ->
  loc N i d d' -> (length d = 1%nat -> d = d' -> r = r') -> loc N i r r'.
Proof.
  intros Hl Hk Hr (Hld & Hd) He. split; [done|].
  destruct Hk as [Hk|Hk]; [by left|]. rewrite Hk.
  destruct Hd as [Hd|[[Hd ->]|[Hd _]]]; [by left|right; left; auto|by right; right].
Qed.

Lemma related_Ok_inv i syms r r' :
  related N i syms r r' ->
  (exists m m', r = Ok m /\ r' = Ok m'
     /\ forall s, s ∈ syms -> loc N i (series_of m s) (series_of m' s))
  \/ (exists e, r = Err e /\ r' = Err e).
Proof. destruct r, r'; simpl; try done; [left; eauto|intros ->; eauto]. Qed.

(** The literal arguments of an operator. *)
Lemma Evaluate_literal Q v :
  exists m, Evaluate Q (LiteralNode v) lookback = Ok m
    /\ forall s, s ∈ GetSymbols Q -> series_of m s = [v].
Proof.
  cbn [Evaluate]. unfold evaluateLiteral.
  assert (forall syms acc, exists m, for_symbols (fun _ => Ok [v]) syms acc = Ok m) as Hex.
  { induction syms as [|s syms IH]; intros acc; simpl; eauto. }
  destruct (Hex (GetSymbols Q) ∅) as [m Hm]. exists m. split; [done|]. intros s Hs.
  pose proof (proj1 (for_symbols_Ok _ _ _ _ Hm s) Hs) as E. congruence.
Qed.

Lemma applyTimeSeriesOp_kernel f d k args :
  operatorRegistry !! f = Some d -> Category d = CatTimeSeries -> tsEval d = Some k ->
  length args = Arity d -> applyTimeSeriesOp f args = run_kernel f k args.
Proof.
  intros Hd Hc Hk Hl. unfold applyTimeSeriesOp. rewrite Hd.
  destruct d as [cat arity sc st w lb ts cs]; simpl in *; subst.
  by rewrite Nat.eqb_refl.
Qed.

(** Arguments that agree on the bars an operator reaches for. *)
Definition reach_related (n : Node) (lo : Z) (i : nat) : Prop :=
  forall j : nat, lo <= Z.of_nat j <= Z.of_nat i ->
    related N j (GetSymbols P) (Evaluate P n lookback) (Evaluate P' n lookback).

Lemma function2_related f d k a v (i : nat) :
  GetSymbols P = GetSymbols P' ->
  operatorRegistry !! f = Some d -> Category d = CatTimeSeries -> tsEval d = Some k ->
  Arity d = 2%nat -> is_window_kernel k || is_period_kernel k = true ->
  reach_related a (Z.of_nat i - kernel_reach k (f64_to_int64 v)) i ->
  related N i (GetSymbols P) (Evaluate P (FunctionNode f [a; LiteralNode v]) lookback)
    (Evaluate P' (FunctionNode f [a; LiteralNode v]) lookback).
Proof.
  intros Hsym Hd Hc Hk Hn Hkk Ha. rewrite !Evaluate_function.
  unfold evaluateFunction, OperatorCategory. rewrite Hd. cbn [fmap option_fmap option_map].
  rewrite Hc. rewrite !eval_args_cons.
  destruct (Evaluate_literal P v) as (lm & -> & Hlm).
  destruct (Evaluate_literal P' v) as (lm' & -> & Hlm').
  assert (Hreach : 0 <= kernel_reach k (f64_to_int64 v))
    by (unfold kernel_reach; repeat case_if; lia).
  unfold reach_related in Ha. pose proof (Ha i ltac:(lia)) as Hi.
  destruct (Evaluate P a lookback) as [m|e], (Evaluate P' a lookback) as [m'|e'];
    simpl in Hi |- *; try done.
  rewrite <- Hsym. apply for_symbols_related. intros s Hs.
  rewrite Hlm by done. rewrite Hlm' by by rewrite <- Hsym.
  rewrite !(applyTimeSeriesOp_kernel f d k) by (done || by rewrite Hn).
  destruct (kernel2_local f k (series_of m s) (series_of m' s) v i Hkk)
    as (r & r' & E & E' & Hl & Hkl & Hri).
  { change (scalar_int [v]) with (f64_to_int64 v).
    apply loc_same_on; [lia|lia|]. intros j Hj. exact (Ha j Hj s Hs). }
  rewrite E, E'. simpl. apply (kernel_result_loc _ _ _ _ _ Hl Hkl Hri (Hi s Hs)).
  intros _ Heq. rewrite Heq in E. congruence.
Qed.

Lemma function3_related f d a b v (i : nat) :
  GetSymbols P = GetSymbols P' ->
  operatorRegistry !! f = Some d -> Category d = CatTimeSeries -> tsEval d = Some KCorr ->
  Arity d = 3%nat ->
  reach_related a (Z.of_nat i - kernel_reach KCorr (f64_to_int64 v)) i ->
  reach_related b (Z.of_nat i - kernel_reach KCorr (f64_to_int64 v)) i ->
  related N i (GetSymbols P) (Evaluate P (FunctionNode f [a; b; LiteralNode v]) lookback)
    (Evaluate P' (FunctionNode f [a; b; LiteralNode v]) lookback).
Proof.
  intros Hsym Hd Hc Hk Hn Ha Hb. rewrite !Evaluate_function.
  unfold evaluateFunction, OperatorCategory. rewrite Hd. cbn [fmap option_fmap option_map].
  rewrite Hc. rewrite !eval_args_cons.
  destruct (Evaluate_literal P v) as (lm & -> & Hlm).
  destruct (Evaluate_literal P' v) as (lm' & -> & Hlm').
  assert (Hreach : 0 <= kernel_reach KCorr (f64_to_int64 v))
    by (unfold kernel_reach; repeat case_if; lia).
  unfold reach_related in Ha, Hb.
  pose proof (Ha i ltac:(lia)) as Hi. pose proof (Hb i ltac:(lia)) as Hbi.
  destruct (Evaluate P a lookback) as [m|e], (Evaluate P' a lookback) as [m'|e'];
    simpl in Hi |- *; try done.
  destruct (Evaluate P b lookback) as [n|e], (Evaluate P' b lookback) as [n'|e'];
    simpl in Hbi |- *; try done.
  rewrite <- Hsym. apply for_symbols_related. intros s Hs.
  rewrite Hlm by done. rewrite Hlm' by by rewrite <- Hsym.
  rewrite !(applyTimeSeriesOp_kernel f d KCorr) by (done || by rewrite Hn).
  destruct (corr_local f (series_of m s) (series_of m' s) (series_of n s) (series_of n' s) v i)
    as (r & r' & E & E' & Hl & Hkl & Hri).
  { change (scalar_int [v]) with (f64_to_int64 v).
    apply loc_same_on; [lia|lia|]. intros j Hj. exact (Ha j Hj s Hs). }
  { change (scalar_int [v]) with (f64_to_int64 v).
    apply loc_same_on; [lia|lia|]. intros j Hj. exact (Hb j Hj s Hs). }
  rewrite E, E'. simpl.
  pose proof (Hi s Hs) as Hloc. pose proof (Hbi s Hs) as Hlocb.
  apply (kernel_result_loc _ _ _ _ _ Hl Hkl Hri Hloc).
  intros H1 Heq. destruct Hlocb as (Hlb & [Hb0|[[_ Hbeq]|[HbN _]]]).
  - cbn [run_kernel] in E, E'. injection E as <-. injection E' as <-.
    unfold tsCorr. rewrite <- Heq, <- Hlb, Hb0.
    by rewrite !orb_true_r.
  - rewrite Heq, Hbeq in E. congruence.
  - cbn [run_kernel] in E, E'. injection E as <-. injection E' as <-.
    unfold tsCorr. rewrite <- Heq, <- Hlb, HbN, H1.
    replace (Nat.eqb 1 N) with false by (symmetry; apply Nat.eqb_neq; lia).
    by rewrite !orb_true_r.
Qed.

(** The look-back an operator adds is what its kernel reaches for. *)
Lemma window_reach k args idx v :
  is_period_kernel k = false -> args !! idx = Some (LiteralNode v) ->
  eval_selfLookback (windowAt idx) args = kernel_reach k (f64_to_int64 v).
Proof.
  intros Hp Ha. simpl. unfold windowSelfLookbackAt, literalIntAt, literalFloatAt, kernel_reach.
  by rewrite Ha, Hp.
Qed.

Lemma period_reach k args idx v :
  is_period_kernel k = true -> args !! idx = Some (LiteralNode v) ->
  eval_selfLookback (periodAt idx) args = kernel_reach k (f64_to_int64 v).
Proof.
  intros Hp Ha. simpl. unfold periodSelfAt, literalIntAt, literalFloatAt, kernel_reach.
  by rewrite Ha, Hp.
Qed.

Lemma reach_nonneg k w : 0 <= kernel_reach k w.
Proof. unfold kernel_reach. repeat case_if; lia. Qed.

(** Look-back is never negative, and a function's covers its arguments'. *)
Lemma fold_lookback_ge args acc :
  let r := fold_left (fun acc a => join_lookback acc (DeriveLookback a)) args acc in
  acc.1 <= r.1 /\ (r.2 = false -> acc.2 = false)
  /\ Forall (fun a => (DeriveLookback a).1 <= r.1
                      /\ (r.2 = false -> (DeriveLookback a).2 = false)) args.
Proof.
  revert acc. induction args as [|a args IH]; intros acc; simpl; [split; [lia|done]|].
  destruct (IH (join_lookback acc (DeriveLookback a))) as (H1 & H2 & H3).
  set (r := fold_left _ args _) in *. clearbody r. unfold join_lookback in H1, H2.
  simpl in H1, H2. split; [lia|]. split.
  - intros Hr. apply H2, orb_false_iff in Hr as [Hr _]. done.
  - constructor; [|done]. split; [lia|]. intros Hr. by apply H2, orb_false_iff in Hr as [_ Hr].
Qed.

Lemma function_lookback f args d L :
  operatorRegistry !! f = Some d -> length args = Arity d -> plain (FunctionNode f args) = true ->
  DeriveLookback (FunctionNode f args) = (L, false) ->
  SpecState d = false
  /\ forallb (fun i => is_literal (args !! i)) (ScalarParams d) = true
  /\ forall a, a ∈ args ->
      plain a = true /\ (DeriveLookback a).2 = false
      /\ (forall s, selfLookback d = Some s -> 0 <= eval_selfLookback s args ->
           (DeriveLookback a).1 + eval_selfLookback s args <= L)
      /\ (selfLookback d = None -> (DeriveLookback a).1 <= L).
Proof.
  intros Hd Hl Hp HL. cbn [plain] in Hp. rewrite Hd in Hp. cbn [DeriveLookback] in HL.
  apply andb_true_iff in Hp as [Hargs [Hlit Hb]%andb_true_iff]. apply Z.leb_le in Hb.
  pose proof (fold_lookback_ge args (0, false)) as (H1 & _ & Hall).
  destruct (fold_left _ args _) as [bars inf]; simpl in *. rewrite Hd in HL.
  rewrite Hl, Nat.eqb_refl in HL. injection HL as HL Hinf.
  destruct (SpecState d); [done|]. split; [done|]. split; [done|].
  rewrite forallb_forall in Hargs. rewrite Forall_forall in Hall. intros a Ha.
  specialize (Hall a Ha) as [Hle Hi]. split; [by apply Hargs, list_elem_of_In|].
  split; [by apply Hi|]. split.
  - intros s Hs Hnn. rewrite Hs in *.
    rewrite wrap64_id in HL by (int64_unfold; lia). lia.
  - intros Hs. rewrite Hs in HL. lia.
Qed.

Lemma agree_shrink L L' (i : nat) :
  agree P P' lookback N (Z.of_nat i - L) (Z.of_nat i) -> L' <= L ->
  agree P P' lookback N (Z.of_nat i - L') (Z.of_nat i).
Proof. intros Ha HL. apply (agree_mono _ _ _ _ _ _ _ _ Ha); lia. Qed.

Lemma lookback_related node :
  forall L (i : nat), validateNode node = Ok tt -> plain node = true ->
    DeriveLookback node = (L, false) ->
    agree P P' lookback N (Z.of_nat i - L) (Z.of_nat i) ->
    related N i (GetSymbols P) (Evaluate P node lookback) (Evaluate P' node lookback).
Proof.
  induction node as [v|x|op l r IHl IHr|op n IH|f args IH|op n IH|op n g IH IHg] using Node_ind';
    intros L i Hg Hp HL Ha; try discriminate Hp.
  - cbn [Evaluate]. unfold evaluateLiteral. rewrite <- (proj1 Ha).
    apply for_symbols_related. intros s _. simpl. apply loc_refl. simpl. lia.
  - cbn [Evaluate]. unfold evaluateIdentifier. rewrite <- (proj1 Ha).
    apply for_symbols_related. intros s _. injection HL as <-.
    destruct Ha as [_ Ha]. specialize (Ha s x).
    destruct (GetField P s x lookback), (GetField P' s x lookback); simpl; try done.
    destruct Ha as (Hl & Hl' & Hj). split; [done|]. right; right. split; [done|].
    apply Hj. lia.
  - apply validate_bin in Hg as [Hgl Hgr]. cbn [plain] in Hp. bool_to_prop.
    cbn [DeriveLookback] in HL. destruct (DeriveLookback l) as [Ll fl] eqn:El.
    destruct (DeriveLookback r) as [Lr fr] eqn:Er. unfold join_lookback in HL; simpl in HL.
    injection HL as HL [Hfl Hfr]%orb_false_iff. subst.
    specialize (IHl Ll i Hgl H eq_refl (agree_shrink _ Ll _ Ha ltac:(lia))).
    specialize (IHr Lr i Hgr H0 eq_refl (agree_shrink _ Lr _ Ha ltac:(lia))).
    cbn [Evaluate]. unfold evaluateBinaryOp. rewrite <- (proj1 Ha).
    apply related_Ok_inv in IHl as [(m & m' & -> & -> & Hm)|(e & -> & ->)]; [|done].
    apply related_Ok_inv in IHr as [(n & n' & -> & -> & Hn)|(e & -> & ->)]; [|done].
    apply for_symbols_related. intros s Hs. apply binary_series_related; auto.
  - apply validate_un in Hg. specialize (IH L i Hg Hp HL Ha).
    cbn [Evaluate]. unfold evaluateUnaryOp. rewrite <- (proj1 Ha).
    apply related_Ok_inv in IH as [(m & m' & -> & -> & Hm)|(e & -> & ->)]; [|done].
    apply for_symbols_related. intros s Hs. simpl. by apply loc_map, Hm.
  - apply validate_function in Hg as (d & Hd & Hc & Hl & _ & Hga).
    destruct (function_lookback _ _ _ _ Hd Hl Hp HL) as (Hst & Hlit & Hargs).
    pose proof (registry_entries _ _ Hd) as Hok.
    rewrite Forall_forall in IH, Hga.
    assert (Hreach : forall a k w, a ∈ args ->
              (DeriveLookback a).1 + kernel_reach k w <= L ->
              reach_related a (Z.of_nat i - kernel_reach k w) i).
    { intros a k w Hin Hle j Hj. destruct (Hargs a Hin) as (Hpa & Hfa & _).
      destruct (DeriveLookback a) as [La fa] eqn:E. simpl in *. subst fa.
      apply (IH a Hin La); auto.
      apply (agree_mono _ _ _ _ _ _ _ _ Ha); lia. }
    destruct d as [cat arity scalars state w self ts cs]. simpl in Hc, Hl, Hst, Hlit. subst state.
    destruct Hc as [-> | ->]; cbn [entry_ok] in Hok.
    + destruct ts as [k|]; [|done]. apply andb_true_iff in Hok as [Hn%Nat.eqb_eq Hok].
      rewrite orb_false_l in Hok. rewrite Hn in Hl.
      apply orb_true_iff in Hok as [[Hok|Hok]%orb_true_iff|Hok];
        apply andb_true_iff in Hok as [[Hk Hsc]%andb_true_iff Hself];
        apply bool_decide_eq_true in Hsc; subst scalars;
        destruct self as [[idx|idx|]|]; try discriminate Hself;
        repeat (destruct idx as [|idx]; try discriminate Hself).
      * assert (Hpk : is_period_kernel k = false) by by destruct k.
        replace (kernel_arity k) with 2%nat in * by by destruct k.
        destruct args as [|a [|[v| | | | | ] [|]]]; try discriminate.
        pose proof (window_reach k [a; LiteralNode v] 1 v Hpk eq_refl) as Hr.
        eapply function2_related; [exact (proj1 Ha)|exact Hd|done|done|exact Hn|by rewrite Hk|].
        apply Hreach; [set_solver|]. rewrite <- Hr.
        destruct (Hargs a ltac:(set_solver)) as (_ & _ & Hle & _). apply Hle; [done|].
        rewrite Hr. apply reach_nonneg.
      * replace (kernel_arity k) with 2%nat in * by by destruct k.
        destruct args as [|a [|[v| | | | | ] [|]]]; try discriminate.
        pose proof (period_reach k [a; LiteralNode v] 1 v Hk eq_refl) as Hr.
        eapply function2_related; [exact (proj1 Ha)|exact Hd|done|done|exact Hn
                                  |by rewrite Hk, orb_true_r|].
        apply Hreach; [set_solver|]. rewrite <- Hr.
        destruct (Hargs a ltac:(set_solver)) as (_ & _ & Hle & _). apply Hle; [done|].
        rewrite Hr. apply reach_nonneg.
      * destruct k; try discriminate Hk. simpl in Hn, Hl.
        destruct args as [|a [|b [|[v| | | | | ] [|]]]]; try discriminate.
        pose proof (window_reach KCorr [a; b; LiteralNode v] 2 v eq_refl eq_refl) as Hr.
        assert (Hb : forall c, c ∈ [a; b; LiteralNode v] ->
                  (DeriveLookback c).1 + kernel_reach KCorr (f64_to_int64 v) <= L).
        { intros c Hc. destruct (Hargs c Hc) as (_ & _ & Hle & _). rewrite <- Hr.
          apply Hle; [done|]. rewrite Hr. apply reach_nonneg. }
        eapply function3_related; [exact (proj1 Ha)|exact Hd|done|done|exact Hn| |];
          (apply Hreach; [|apply Hb]; set_solver).
    + destruct self; [done|]. apply Nat.eqb_eq in Hok. rewrite Hok in Hl.
      destruct args as [|a [|]]; try discriminate Hl.
      destruct (Hargs a ltac:(set_solver)) as (Hpa & Hfa & _ & Hle). specialize (Hle eq_refl).
      destruct (DeriveLookback a) as [La fa] eqn:E. simpl in Hfa, Hle. subst fa.
      specialize (IH a ltac:(set_solver) La i (Hga a ltac:(set_solver)) Hpa E
                    (agree_shrink _ La _ Ha ltac:(lia))).
      rewrite !Evaluate_function, !eval_args_cons. unfold evaluateFunction, OperatorCategory.
      rewrite Hd.
      apply related_Ok_inv in IH as [(m & m' & -> & -> & Hm)|(e & -> & ->)]; [|done].
      simpl. intros s Hs. unfold series_of. rewrite !lookup_fmap.
      specialize (Hm s Hs). unfold series_of in Hm.
      apply (loc_map _ _ (applyUnaryOp f)) in Hm. by destruct (m !! s), (m' !! s).
Qed.
End Lookback.

(** ** The rank of a cross-section *)

Section Rank.
Context {gs : GoSort}.

(** Writing the value of every index of a list of distinct indices. *)
Lemma fold_insert_lookup {A B} (g : A -> nat) (h : A -> B) (l : list A) (r : list B) x :
  NoDup (map g l) -> x ∈ l -> (g x < length r)%nat ->
  fold_left (fun r a => <[g a := h a]> r) l r !! g x = Some (h x).
Proof.
  assert (Hnot : forall (l : list A) (r : list B) i, i ∉ map g l ->
            fold_left (fun r a => <[g a := h a]> r) l r !! i = r !! i).
  { clear. induction l as [|a l IH]; intros r i Hi; simpl in *; [done|].
    rewrite not_elem_of_cons in Hi. destruct Hi as [Hne Hi].
    rewrite IH by done. by rewrite list_lookup_insert_ne by auto. }
  revert r. induction l as [|a l IH]; intros r Hnd Hx Hlen; [by apply elem_of_nil in Hx|].
  simpl in *. apply NoDup_cons in Hnd as [Hna Hnd].
  apply elem_of_cons in Hx as [->|Hx].
  - rewrite Hnot by done. by apply list_lookup_insert_eq.
  - apply IH; [done|done|by rewrite length_insert].
Qed.

Lemma indices_NoDup (p : nat * float64 -> Prop) `{forall x, Decision (p x)} values :
  NoDup (map fst (filter p (imap pair values))).
Proof.
  eapply sublist_NoDup; [|apply (fmap_sublist fst), sublist_filter].
  replace (fst <$> imap pair values) with (seq 0 (length values)); [apply NoDup_seq|].
  apply list_eq. intros i. rewrite list_lookup_fmap, list_lookup_imap.
  destruct (values !! i) eqn:E; simpl.
  - apply lookup_lt_Some in E. by rewrite lookup_seq_lt.
  - apply lookup_ge_None in E. by rewrite lookup_seq_ge.
Qed.

Definition not_after (a b : nat * float64) : Prop := flt b.2 a.2 = false.

Lemma sorted_positions l p q a b :
  Sorted not_after l -> Forall (fun x => is_nan x.2 = false) l ->
  l !! p = Some a -> l !! q = Some b -> (q < p)%nat -> not_after b a.
Proof.
  intros Hs Hn.
  assert (Hss : StronglySorted not_after l).
  { induction Hs as [|x l Hs IH Hh]; [constructor|].
    apply Forall_cons in Hn as [Hx Hn]. specialize (IH Hn). constructor; [done|].
    destruct Hh as [|y l Hxy]; [constructor|].
    apply Forall_cons in Hn as [Hy Hn]. inversion IH as [|? ? Hl Hall]; subst.
    constructor; [done|]. rewrite Forall_forall in Hall, Hn |- *. intros z Hz.
    eapply fle_trans_nan; [..|exact Hxy|exact (Hall z Hz)]; auto. }
  clear Hs Hn. revert p q. induction Hss as [|x l Hl IH Hall]; intros [|p] [|q] Hp Hq Hlt;
    simplify_eq/=; try lia.
  - rewrite Forall_forall in Hall. apply Hall. by eapply list_elem_of_lookup_2.
  - apply (IH p q); auto with lia.
Qed.
End Rank.

Lemma length_filter_imap (g : nat -> nat) (values : list float64) :
  length (filter (fun p : nat * float64 => not_nan p.2) (imap (fun k v => (g k, v)) values))
  = length (filter not_nan values).
Proof.
  revert g. induction values as [|v values IH]; intros g; [done|].
  rewrite imap_cons, !filter_cons. simpl. specialize (IH (fun k => g (S k))).
  change ((fun k v => (g k, v)) ∘ S) with (fun k (v : float64) => (g (S k), v)).
  destruct (decide (not_nan v)); simpl; by rewrite IH.
Qed.

(** The value at a position of the ranking, and the entry of each symbol. *)
Lemma csRank_entry `{GoSort} values sorted r i v :
  sorted = sort_pairs (filter (fun p : nat * float64 => not_nan p.2) (imap pair values)) ->
  NoDup (map fst sorted) -> sorted !! r = Some (i, v) -> (i < length values)%nat ->
  csRank values !! i
  = Some (f64_of_Z (Z.of_nat r) / f64_of_Z (Z.of_nat (length sorted) - 1))%f64.
Proof.
  intros Hs Hnd Hr Hi. unfold csRank.
  destruct (Nat.eqb_spec (length values) 0) as [E|E]; [lia|]. rewrite <- Hs.
  apply (fold_insert_lookup (fun rp : nat * (nat * float64) => (rp.2).1)
           (fun rp => (f64_of_Z (Z.of_nat rp.1)
                       / f64_of_Z (Z.of_nat (length sorted) - 1))%f64)
           (imap pair sorted) (all_nan (length values)) (r, (i, v))).
  - replace (map _ (imap pair sorted)) with (map fst sorted); [done|].
    apply list_eq. intros k. rewrite !list_lookup_fmap, list_lookup_imap.
    by destruct (sorted !! k).
  - by apply elem_of_lookup_imap_2.
  - unfold all_nan. by rewrite length_replicate.
Qed.

(** [cs_rank] orders the cross-section: every non-NaN value gets the
    position it has in an ascending order of the m non-NaN values, divided by
    m - 1, so a strictly smaller value always gets a strictly earlier
    position. *)
Theorem csRank_order `{GoSortLaws} values i j a b
  (Hi : values !! i = Some a) (Hj : values !! j = Some b)
  (Ha : is_nan a = false) (Hb : is_nan b = false) (Hlt : flt a b = true) :
  exists p q : nat, (p < q)%nat /\ (q < length (filter not_nan values))%nat
    /\ csRank values !! i = Some (f64_of_Z (Z.of_nat p)
         / f64_of_Z (Z.of_nat (length (filter not_nan values)) - 1))%f64
    /\ csRank values !! j = Some (f64_of_Z (Z.of_nat q)
         / f64_of_Z (Z.of_nat (length (filter not_nan values)) - 1))%f64.
Proof.
  set (pairs := filter (fun p : nat * float64 => not_nan p.2) (imap pair values)).
  pose proof (sort_pairs_perm pairs) as Hperm.
  assert (Hnn : forall p, p ∈ pairs -> is_nan p.2 = false).
  { intros p [Hp _]%list_elem_of_filter. unfold not_nan in Hp. by destruct (is_nan p.2). }
  assert (Hin : forall k v, values !! k = Some v -> is_nan v = false ->
            exists r, sort_pairs pairs !! r = Some (k, v)).
  { intros k v Hk Hv. apply list_elem_of_lookup. rewrite Hperm. apply list_elem_of_filter.
    split; [unfold not_nan; simpl; by rewrite Hv|]. by apply elem_of_lookup_imap_2. }
  assert (Hnd : NoDup (map fst (sort_pairs pairs))).
  { rewrite Hperm. apply indices_NoDup. }
  assert (Hlen : length (sort_pairs pairs) = length (filter not_nan values)).
  { rewrite Hperm. apply (length_filter_imap (fun k => k)). }
  destruct (Hin i a Hi Ha) as [p Hp]. destruct (Hin j b Hj Hb) as [q Hq].
  exists p, q. rewrite <- Hlen. split; [|split; [by apply lookup_lt_Some in Hq|split]].
  - destruct (lt_eq_lt_dec p q) as [[?|Heq]|Hgt]; [done| |].
    + subst q. rewrite Hp in Hq. injection Hq as -> ->. by rewrite flt_irrefl in Hlt.
    + pose proof (sorted_positions _ p q _ _ (sort_pairs_sorted pairs Hnn)
        ltac:(rewrite Hperm; by apply Forall_forall) Hp Hq Hgt) as Hna.
      unfold not_after in Hna. simpl in Hna. congruence.
  - eapply csRank_entry; eauto. by eapply lookup_lt_Some.
  - eapply csRank_entry; eauto. by eapply lookup_lt_Some.
Qed.

(** ** Instances and demonstrations *)

#[export] Instance not_after_dec a b : Decision (not_after a b).
Proof. unfold not_after. apply _. Defined.

Definition fnot_after (a b : float64) : Prop := flt b a = false.

#[export] Instance fnot_after_dec a b : Decision (fnot_after a b).
Proof. unfold fnot_after. apply _. Defined.

Definition merge_go_sort : GoSort := {|
  sort_pairs := merge_sort not_after;
  Float64s := merge_sort fnot_after
|}.

#[local] Instance not_after_total : Total not_after.
Proof.
  intros a b. unfold not_after. destruct (flt b.2 a.2) eqn:E; [right|by left].
  by apply flt_asym.
Qed.

Lemma merge_go_sort_laws : @GoSortLaws merge_go_sort.
Proof.
  constructor.
  - apply merge_sort_Permutation.
  - intros ps _. by apply (Sorted_merge_sort not_after).
  - apply merge_sort_Permutation.
Qed.

Lemma csRank_order_witness :
  exists p q : nat, (p < q)%nat /\ (q < 3)%nat
    /\ @csRank merge_go_sort [f64_of_Z 7; fNaN; f64_of_Z 3; f64_of_Z 5] !! 2%nat
       = Some (f64_of_Z (Z.of_nat p) / f64_of_Z (Z.of_nat 3 - 1))%f64
    /\ @csRank merge_go_sort [f64_of_Z 7; fNaN; f64_of_Z 3; f64_of_Z 5] !! 0%nat
       = Some (f64_of_Z (Z.of_nat q) / f64_of_Z (Z.of_nat 3 - 1))%f64.
Proof.
  exact (@csRank_order merge_go_sort merge_go_sort_laws
           [f64_of_Z 7; fNaN; f64_of_Z 3; f64_of_Z 5] 2 0 (f64_of_Z 3) (f64_of_Z 7)
           eq_refl eq_refl eq_refl eq_refl ltac:(vm_compute; reflexivity)).
Defined.

(** A provider of one symbol with one series for every field. *)
Definition one_series (d : list float64) : DataProvider :=
  MkProvider (fun _ _ _ => Some d) ["600000.SH"].

(** A provider that has no data. *)
Definition no_data : DataProvider := MkProvider (fun _ _ _ => None) ["600000.SH"].

(** C13. The derived look-back bounds what a value depends on. For a validated
    expression without cross-sectional operators whose scalar parameters are
    literals, over at least two bars, if [DeriveLookback] is the finite L, then
    two providers whose fields agree on the bars i-L..i give the same value at bar i for every
    symbol (or fail with the same error), whatever lies before or after: no
    look-ahead, and L bars of history are enough. *)
Theorem lookback_bounds_dependence `{GoMath} `{GoSort} P P' node lookback N L (i : nat)
  (HN : (2 <= N)%nat) (Hgate : validateNode node = Ok tt) (Hplain : plain node = true)
  (HL : DeriveLookback node = (L, false))
  (Hagree : agree P P' lookback N (Z.of_nat i - L) (Z.of_nat i)) :
  related N i (GetSymbols P) (Evaluate P node lookback) (Evaluate P' node lookback).
Proof. by apply (lookback_related P P' lookback N HN node L). Qed.

Definition demo_expr : Node :=
  BinaryOpNode ">" (IdentifierNode "close")
    (FunctionNode "ts_mean" [IdentifierNode "close"; LiteralNode (f64_of_Z 2)]).

Definition demo_series (first last : Z) : list float64 :=
  map f64_of_Z [first; 10; 12; last].

Lemma demo_agree : agree (one_series (demo_series 1 20)) (one_series (demo_series 99 55)) 5 4 1 2.
Proof.
  split; [done|]. intros s f. simpl. split; [done|]. split; [done|].
  intros [|[|[|j]]] ?; try done; lia.
Qed.

Lemma lookback_bounds_dependence_witness :
  related 4 2 ["600000.SH"]
    (@Evaluate identity_math merge_go_sort (one_series (demo_series 1 20)) demo_expr 5)
    (@Evaluate identity_math merge_go_sort (one_series (demo_series 99 55)) demo_expr 5).
Proof.
  exact (@lookback_bounds_dependence identity_math merge_go_sort
           (one_series (demo_series 1 20)) (one_series (demo_series 99 55)) demo_expr 5 4 1 2
           ltac:(lia) ltac:(vm_compute; reflexivity) ltac:(vm_compute; reflexivity)
           ltac:(vm_compute; reflexivity) demo_agree).
Defined.

Lemma gate_rules_out_operator_errors_witness :
  data_error (EvField "close" "600000.SH").
Proof.
  exact (@gate_rules_out_operator_errors identity_math merge_go_sort no_data demo_expr 5
           (EvField "close" "600000.SH")
           ltac:(vm_compute; reflexivity) ltac:(vm_compute; reflexivity)).
Defined.

(** The literal side condition of [lookback_bounds_dependence] is needed: the gate accepts a
    constant expression as a window (by design, so that 1/20 can be written),
    but [DeriveLookback] and [DeriveWarmup] read bare literals only. For
    ts_mean(close, 1+1) they give 0, while the value at the last bar changes
    with the bar before it. *)
Theorem constant_window_lookback :
  let node := FunctionNode "ts_mean" [IdentifierNode "close";
                BinaryOpNode "+" (LiteralNode f1) (LiteralNode f1)] in
  let P d := one_series (map f64_of_Z d) in
  validateNode node = Ok tt
  /\ DeriveLookback node = (0, false) /\ @DeriveWarmup identity_math node = 0
  /\ agree (P [1; 5]) (P [3; 5]) 2 2 (1 - 0) 1
  /\ @Evaluate identity_math merge_go_sort (P [1; 5]) node 2
      = Ok {["600000.SH" := [fNaN; f64_of_Z 3]]}
  /\ @Evaluate identity_math merge_go_sort (P [3; 5]) node 2
      = Ok {["600000.SH" := [fNaN; f64_of_Z 4]]}.
Proof.
  refine (conj _ (conj _ (conj _ (conj _ (conj _ _))))); try (vm_compute; reflexivity).
  split; [done|]. intros s f. simpl. split; [done|]. split; [done|].
  intros [|[|j]] ?; try done; lia.
Qed.
