(* ===== verification/Domain.v ===== *)
(** * Domain: the shared trading types (src/pkg/domain)

    Directions, order types, orders, trades, positions and portfolios as the
    records the tracker, the price rules and the live services exchange.
    Times are instants: nanoseconds since 0001-01-01T00:00:00Z, so that
    [time.Time]'s zero value is 0. Record identifiers drawn from a random
    generator for trades, the open [Metadata] slots and the fields the
    modelled code neither reads nor sets (the execution-algorithm fields of
    an order, the reporting fields of bars, splits and dividends) are not
    part of the model. *)

From stdpp Require Import base list strings gmap.
From Stdlib Require Import ZArith Lia.
From S2P Require Import Prelude GoFloat.

Open Scope Z_scope.

(** ** Time *)

Abbreviation Time := Z (only parsing).

Definition day_ns : Z := 86400000000000.

Definition IsZero (t : Time) : bool := t =? 0.
Definition Before (t u : Time) : bool := t <? u.

(** [t.Truncate(24 * time.Hour)]: down to a multiple of the day since the
    zero time. *)
Definition Truncate24h (t : Time) : Time := t - t mod day_ns.

Lemma Truncate24h_idem t : Truncate24h (Truncate24h t) = Truncate24h t.
Proof.
  unfold Truncate24h. pose proof (Z.div_mod t day_ns ltac:(done)).
  replace (t - t mod day_ns) with (t / day_ns * day_ns) by lia.
  by rewrite Z.mod_mul, Z.sub_0_r by done.
Qed.

(** ** Directions and order types: Go string types with named constants *)

Inductive Direction :=
| DirectionLong
| DirectionShort
| DirectionClose
| DirectionHold
| DirectionOther (s : bytes).

#[global] Instance Direction_eq_dec : EqDecision Direction.
Proof. solve_decision. Defined.

Inductive OrderType :=
| OrderTypeMarket
| OrderTypeLimit
| OrderTypeStop
| OrderTypeTrailing
| OrderTypeOther (s : bytes).

#[global] Instance OrderType_eq_dec : EqDecision OrderType.
Proof. solve_decision. Defined.

Module Order.
Record t := Make {
  ID : bytes;
  Symbol : bytes;
  Direction : Domain.Direction;
  OrderType : Domain.OrderType;
  Quantity : float64;
  LimitPrice : float64;
  StopPrice : float64;
  TrailAmount : float64;
  TrailPercent : float64;
  HighWaterMark : float64;
  Timestamp : Time;
  FilledQty : float64;
  FillPrice : float64;
  Status : bytes
}.

(** An order without the fields of the live engine. *)
Definition Mk (symbol : bytes) (direction : Domain.Direction) (orderType : Domain.OrderType)
    (quantity limitPrice : float64) (timestamp : Time) (filledQty fillPrice : float64) (status : bytes) : t :=
  Make [] symbol direction orderType quantity limitPrice f0 f0 f0 f0 timestamp filledQty fillPrice status.
End Order.

Module Trade.
Record t := Mk {
  Symbol : bytes;
  Direction : Domain.Direction;
  Quantity : float64;
  Price : float64;
  Commission : float64;
  TransferFee : float64;
  StampTax : float64;
  Timestamp : Time;
  PendingQty : float64;
  FilledQty : float64
}.

(** The fields a close overrides with the quantity it could sell. *)
Definition with_fill (tr : t) (qty commission transferFee stampTax : float64) : t :=
  Mk (Symbol tr) (Direction tr) qty (Price tr) commission transferFee stampTax
     (Timestamp tr) (PendingQty tr) (FilledQty tr).
End Trade.

Module Position.
Record t := Mk {
  Symbol : bytes;
  Quantity : float64;
  AvgCost : float64;
  CurrentPrice : float64;
  MarketValue : float64;
  UnrealizedPnL : float64;
  RealizedPnL : float64;
  Weight : float64;
  EntryDate : Time;
  BuyDate : Time;
  QuantityToday : float64;
  QuantityYesterday : float64
}.

(** Field assignments. *)
Definition set_Quantity (q : float64) (p : t) : t :=
  Mk (Symbol p) q (AvgCost p) (CurrentPrice p) (MarketValue p) (UnrealizedPnL p)
     (RealizedPnL p) (Weight p) (EntryDate p) (BuyDate p) (QuantityToday p) (QuantityYesterday p).
Definition set_AvgCost (c : float64) (p : t) : t :=
  Mk (Symbol p) (Quantity p) c (CurrentPrice p) (MarketValue p) (UnrealizedPnL p)
     (RealizedPnL p) (Weight p) (EntryDate p) (BuyDate p) (QuantityToday p) (QuantityYesterday p).
Definition set_marks (price marketValue unrealized : float64) (p : t) : t :=
  Mk (Symbol p) (Quantity p) (AvgCost p) price marketValue unrealized
     (RealizedPnL p) (Weight p) (EntryDate p) (BuyDate p) (QuantityToday p) (QuantityYesterday p).
Definition set_RealizedPnL (x : float64) (p : t) : t :=
  Mk (Symbol p) (Quantity p) (AvgCost p) (CurrentPrice p) (MarketValue p) (UnrealizedPnL p)
     x (Weight p) (EntryDate p) (BuyDate p) (QuantityToday p) (QuantityYesterday p).
Definition set_EntryDate (d : Time) (p : t) : t :=
  Mk (Symbol p) (Quantity p) (AvgCost p) (CurrentPrice p) (MarketValue p) (UnrealizedPnL p)
     (RealizedPnL p) (Weight p) d (BuyDate p) (QuantityToday p) (QuantityYesterday p).
Definition set_BuyDate (d : Time) (p : t) : t :=
  Mk (Symbol p) (Quantity p) (AvgCost p) (CurrentPrice p) (MarketValue p) (UnrealizedPnL p)
     (RealizedPnL p) (Weight p) (EntryDate p) d (QuantityToday p) (QuantityYesterday p).
Definition set_QuantityToday (q : float64) (p : t) : t :=
  Mk (Symbol p) (Quantity p) (AvgCost p) (CurrentPrice p) (MarketValue p) (UnrealizedPnL p)
     (RealizedPnL p) (Weight p) (EntryDate p) (BuyDate p) q (QuantityYesterday p).
Definition set_QuantityYesterday (q : float64) (p : t) : t :=
  Mk (Symbol p) (Quantity p) (AvgCost p) (CurrentPrice p) (MarketValue p) (UnrealizedPnL p)
     (RealizedPnL p) (Weight p) (EntryDate p) (BuyDate p) (QuantityToday p) q.
End Position.

Module OHLCV.
Record t := Mk {
  Symbol : bytes;
  Date : Time;
  Open : float64;
  High : float64;
  Low : float64;
  Close : float64;
  Volume : float64
}.
End OHLCV.

Module PortfolioValue.
Record t := Mk { Date : Time; TotalValue : float64; Cash : float64; Positions : float64 }.
End PortfolioValue.

Module Portfolio.
Record t := Mk {
  Cash : float64;
  Positions : gmap bytes Position.t;
  TotalValue : float64;
  DailyReturn : float64;
  UpdatedAt : Time
}.
End Portfolio.

Module Split.
Record t := Mk { Symbol : bytes; StkDivRatio : float64; CashDivRatio : float64 }.
End Split.

Module Dividend.
Record t := Mk { Symbol : bytes; DivAmt : float64 }.
End Dividend.
