(* ===== verification/GoSlice.v ===== *)
(** * GoSlice: sort.Slice, grouping loops and calendar dates

    What the compliance rules share: the sort of package sort, which puts a
    slice in order but leaves equal elements in any order; maps of slices
    filled by appending; and the Gregorian dates behind Year, Month, Day and
    AddDate of package time (times in UTC). *)

From stdpp Require Import base list strings gmap sorting.
From Stdlib Require Import ZArith Lia Ascii.
From S2P Require Import Prelude GoMap Domain.

Open Scope Z_scope.

(** ** sort.Slice *)

(** A sort is known by its results: the same elements, and in order when the
    comparison is that of a key. *)
Class SliceSort := {
  Slice : forall {A}, (A -> A -> bool) -> list A -> list A;
  Slice_perm : forall {A} (less : A -> A -> bool) l, Slice less l ≡ₚ l;
  Slice_sorted : forall {A} (key : A -> Z) (less : A -> A -> bool) l,
    (forall a b, less a b = (key a <? key b)) -> StronglySorted (fun a b => key a <= key b) (Slice less l)
}.

(** Merge sort is one. *)
Definition not_after {A} (less : A -> A -> bool) (a b : A) : Prop := less b a = false.
#[global] Instance not_after_dec {A} (less : A -> A -> bool) : RelDecision (not_after less).
Proof. intros a b. unfold not_after. apply _. Defined.

Lemma key_sorted {A} (key : A -> Z) (less : A -> A -> bool) l :
  (forall a b, less a b = (key a <? key b)) ->
  StronglySorted (fun a b => key a <= key b) (merge_sort (not_after less) l).
Proof.
  intros Hless. assert (Himp : forall a b, not_after less a b <-> key a <= key b)
    by (intros a b; unfold not_after; rewrite Hless; lia).
  assert (Hs : Sorted (not_after less) (merge_sort (not_after less) l)).
  { apply Sorted_merge_sort. intros a b. rewrite !Himp. lia. }
  apply Sorted_StronglySorted in Hs; [|intros a b c; rewrite !Himp; lia].
  induction Hs as [|a l' Hs IH Ha]; constructor; [done|].
  eapply Forall_impl; [exact Ha|]. intros b. apply Himp.
Qed.

Definition merge_slice : SliceSort := {|
  Slice A less l := merge_sort (not_after less) l;
  Slice_perm A less l := merge_sort_Permutation _ l;
  Slice_sorted A key less l H := key_sorted key less l H
|}.

Lemma Slice_elem `{!SliceSort} {A} (less : A -> A -> bool) l x : x ∈ Slice less l <-> x ∈ l.
Proof. by rewrite Slice_perm. Qed.

(** [<] on strings. *)
Definition bytes_ltb (a b : bytes) : bool := negb (bytes_leb b a).

(** [sort.SliceStable]: equal elements keep their order, so the result is
    the one an insertion sort gives. *)
Fixpoint insert_stable {A} (less : A -> A -> bool) (x : A) (l : list A) : list A :=
  match l with
  | [] => [x]
  | y :: l' => if less y x then y :: insert_stable less x l' else x :: l
  end.

Definition SliceStable {A} (less : A -> A -> bool) (l : list A) : list A := foldr (insert_stable less) [] l.

Lemma insert_stable_perm {A} (less : A -> A -> bool) x l : insert_stable less x l ≡ₚ x :: l.
Proof.
  induction l as [|y l IH]; [done|]. cbn. destruct (less y x); [|done]. rewrite IH. constructor.
Qed.

Lemma SliceStable_perm {A} (less : A -> A -> bool) l : SliceStable less l ≡ₚ l.
Proof. induction l as [|x l IH]; [done|]. cbn. rewrite insert_stable_perm. by constructor. Qed.

(** Sorted for every preorder the comparison decides. *)
Lemma SliceStable_sorted {A} (less : A -> A -> bool) (R : relation A) `{!Transitive R} l :
  (forall a b, if less a b then R a b else R b a) -> StronglySorted R (SliceStable less l).
Proof.
  intros HR. induction l as [|x l IH]; [constructor|].
  cbn [SliceStable foldr]. fold (SliceStable less l). revert IH. generalize (SliceStable less l) as k.
  induction 1 as [|y l' Hs IH Hy]; cbn; [by repeat constructor|].
  pose proof (HR y x) as Hyx. destruct (less y x).
  - constructor; [done|]. rewrite insert_stable_perm. by constructor.
  - constructor; [by constructor|]. constructor; [done|]. eapply Forall_impl; [exact Hy|].
    intros z. by apply transitivity.
Qed.

(** ** A map of slices: m[key x] = append(m[key x], x) for every element *)

Definition group_by {A} (key : A -> bytes) (l : list A) : gmap bytes (list A) :=
  foldl (fun m x => <[key x := default [] (m !! key x) ++ [x]]> m) ∅ l.

Lemma group_by_lookup {A} (key : A -> bytes) (l : list A) s :
  group_by key l !! s
  = match filter (fun x => key x = s) l with [] => None | g => Some g end.
Proof.
  unfold group_by. induction l as [|x l IH] using rev_ind; [done|].
  rewrite foldl_app, filter_app. cbn [foldl].
  destruct (decide (key x = s)) as [<-|Hne].
  - rewrite lookup_insert_eq, IH, filter_cons_True by done. change (filter (fun y => key y = key x) []) with (@nil A).
    by destruct (filter _ l).
  - rewrite lookup_insert_ne by done. rewrite filter_cons_False by done. cbn. by rewrite app_nil_r, IH.
Qed.

Lemma group_by_Some {A} (key : A -> bytes) (l : list A) s g :
  group_by key l !! s = Some g -> g = filter (fun x => key x = s) l /\ g <> [].
Proof. rewrite group_by_lookup. intros H. destruct (filter _ l); by simplify_eq. Qed.

Lemma group_by_of {A} (key : A -> bytes) (l : list A) s :
  filter (fun x => key x = s) l <> [] -> group_by key l !! s = Some (filter (fun x => key x = s) l).
Proof. intros Hne. rewrite group_by_lookup. by destruct (filter _ l). Qed.

Lemma group_by_elem {A} (key : A -> bytes) (l : list A) s g x :
  group_by key l !! s = Some g -> x ∈ g -> x ∈ l /\ key x = s.
Proof. intros [-> _]%group_by_Some Hx. by apply list_elem_of_filter in Hx as []. Qed.

(** ** Dates *)

(** The Gregorian date (year, month, day) of a day counted from 0001-01-01. *)
Definition date_of (n : Z) : Z * Z * Z :=
  let z := n + 306 in
  let era := z / 146097 in
  let doe := z mod 146097 in
  let yoe := (doe - doe / 1460 + doe / 36524 - doe / 146096) / 365 in
  let doy := doe - (365 * yoe + yoe / 4 - yoe / 100) in
  let mp := (5 * doy + 2) / 153 in
  let d := doy - (153 * mp + 2) / 5 + 1 in
  let m := if mp <? 10 then mp + 3 else mp - 9 in
  (yoe + era * 400 + (if m <=? 2 then 1 else 0), m, d).

Definition civil (t : Time) : Z * Z * Z := date_of (t / day_ns).

(** The last decimal digit. *)
Definition digit (n : Z) : ascii := ascii_of_N (Z.to_N (48 + n mod 10)).

Definition Year (t : Time) : Z := (civil t).1.1.
Definition Month (t : Time) : Z := (civil t).1.2.
Definition Day (t : Time) : Z := (civil t).2.

(** [t.Format("2006-01-02")]. *)
Definition format_date (t : Time) : bytes :=
  let '(y, m, d) := civil t in
  [digit (y / 1000); digit (y / 100); digit (y / 10); digit y] ++ lit "-"
  ++ [digit (m / 10); digit m] ++ lit "-" ++ [digit (d / 10); digit d].

(** Days from 0001-01-01 to the first of a month. *)
Definition month_start (y m : Z) : Z :=
  let y := if m <=? 2 then y - 1 else y in
  let mp := if m <=? 2 then m + 9 else m - 3 in
  365 * y + y / 4 - y / 100 + y / 400 + (153 * mp + 2) / 5 - 306.

(** [t.AddDate(years, months, days)]: the date with its fields added, an
    overflowing day carried into the next months, and the clock kept. *)
Definition AddDate (years months days : Z) (t : Time) : Time :=
  let '(y, m, d) := civil t in
  let m0 := m + months - 1 in
  (month_start (y + years + m0 / 12) (m0 mod 12 + 1) + d - 1 + days) * day_ns + t mod day_ns.

(** The day count of a date. *)
Definition day_of (date : Z * Z * Z) : Z := let '(y, m, d) := date in month_start y m + d - 1.

(** The year and the day of the year inside a 400-year cycle. *)
Lemma year_of_era doe :
  0 <= doe < 146097 ->
  let yoe := (doe - doe / 1460 + doe / 36524 - doe / 146096) / 365 in
  0 <= yoe < 400 /\ 0 <= doe - (365 * yoe + yoe / 4 - yoe / 100) <= 366.
Proof. intros Hdoe. cbv zeta. Z.div_mod_to_equations. lia. Qed.

(** A day's date is one of the calendar, and names that day. *)
Lemma date_of_spec n :
  let '(y, m, d) := date_of n in 1 <= m <= 12 /\ 1 <= d <= 31 /\ day_of (y, m, d) = n.
Proof.
  unfold date_of. pose proof (Z.mod_pos_bound (n + 306) 146097 ltac:(lia)) as Hm.
  pose proof (Z.div_mod (n + 306) 146097 ltac:(lia)) as Hd.
  pose proof (year_of_era _ Hm) as [Hy Hdoy]. cbv zeta in *.
  set (doe := (n + 306) mod 146097) in *. set (era := (n + 306) / 146097) in *.
  set (yoe := (doe - doe / 1460 + doe / 36524 - doe / 146096) / 365) in *.
  set (doy := doe - (365 * yoe + yoe / 4 - yoe / 100)) in *.
  assert (Hdoe : doe = doy + 365 * yoe + yoe / 4 - yoe / 100) by (subst doy; lia).
  clearbody doy yoe era doe. unfold day_of, month_start.
  destruct ((5 * doy + 2) / 153 <? 10) eqn:E; bool_to_prop;
    destruct (_ <=? 2) eqn:E2; bool_to_prop; cbv zeta; Z.div_mod_to_equations; lia.
Qed.

Lemma AddDate_days n t : AddDate 0 0 n t = t + n * day_ns.
Proof.
  unfold AddDate, civil. pose proof (date_of_spec (t / day_ns)) as Hc.
  destruct (date_of (t / day_ns)) as [[y m] d]. destruct Hc as (Hm & Hd & Hday). unfold day_of in Hday.
  replace (m + 0 - 1) with (m - 1) by lia. rewrite Z.div_small, Z.mod_small by lia.
  rewrite !Z.add_0_r, Z.sub_add.
  pose proof (Z.div_mod t day_ns ltac:(unfold day_ns; lia)). lia.
Qed.
