(* ===== verification/ExitRules.v ===== *)
(** * ExitRules: stop-loss and take-profit rules (src/pkg/risk)

    The stop-loss checker ([stoploss.go]) and the take-profit rules with
    their checker ([take_profit.go]). The take-profit rules keep their state
    in the [Metadata] map of a position, which the caller shares with every
    copy of the position: the model has a heap of metadata maps, and a
    position holds an address or nil. Message texts and time stamps are left
    out of the actions. Periods are counts. *)

From stdpp Require Import base list strings gmap.
From Stdlib Require Import ZArith Lia Ascii.
From S2P Require Import Prelude GoMap GoFloat Domain.

Open Scope Z_scope.

(** ** Stop losses (stoploss.go) *)

Record MarketRegime := MkRegime { Trend : bytes; Volatility : bytes; Sentiment : float64 }.

Record StopLossEvent := MkStopEvent {
  se_Symbol : bytes;
  se_Type : bytes;
  se_Price : float64;
  se_Quantity : float64
}.

(** The configuration is the checker. *)
Record StopLossConfig := MkStopLoss {
  atrPeriod : nat;
  baseMultiplier : float64;
  bullMultiplier : float64;
  bearMultiplier : float64;
  sidewaysMultiplier : float64;
  takeProfitMult : float64
}.

Inductive risk_error :=
| Insufficient (need got : nat)
| SymbolMissing
| PortfolioInvalid
| PricesEmpty
| ConfidenceOutOfRange (c : float64)
| ValueNotPositive (v : float64)
| RuntimePanic.

(** The true range of a bar after a close. *)
Definition true_range (prevClose : float64) (bar : OHLCV.t) : float64 :=
  let hl := (OHLCV.High bar - OHLCV.Low bar)%f64 in
  let hc := (OHLCV.High bar - prevClose)%f64 in
  let hc := if (hc <? f0)%f64 then fneg hc else hc in
  let lc := (OHLCV.Low bar - prevClose)%f64 in
  let lc := if (lc <? f0)%f64 then fneg lc else lc in
  let tr := hl in
  let tr := if (hc >? tr)%f64 then hc else tr in
  if (lc >? tr)%f64 then lc else tr.

Fixpoint true_ranges (bars : list OHLCV.t) : list float64 :=
  match bars with
  | b :: ((c :: _) as rest) => true_range (OHLCV.Close b) c :: true_ranges rest
  | _ => []
  end.

(** The buffer has one slot more than the period; the slots not written keep
    their zero. *)
Definition CalculateATR (slc : StopLossConfig) (ohlcv : list OHLCV.t) : res risk_error float64 :=
  let n := length ohlcv in
  let need := atrPeriod slc in
  if (n <? need)%nat then Err (Insufficient need n)
  else
    let startBar := (n - need - 1)%nat in
    let trs := true_ranges (drop startBar ohlcv) in
    let buf := trs ++ replicate (need + 1 - length trs) f0 in
    Ok (foldl fadd f0 buf / f64_of_Z (Z.of_nat (need + 1)))%f64.

Definition getStopLossMultiplier (slc : StopLossConfig) (regime : option MarketRegime) : float64 :=
  match regime with
  | None => baseMultiplier slc
  | Some r =>
      if bool_decide (Trend r = lit "bull") then bullMultiplier slc
      else if bool_decide (Trend r = lit "bear") then bearMultiplier slc
      else sidewaysMultiplier slc
  end.

Definition CalculateStopLossPrice (slc : StopLossConfig) (entryPrice atr : float64) (regime : option MarketRegime)
    : float64 :=
  (entryPrice - getStopLossMultiplier slc regime * atr)%f64.

Definition CalculateTakeProfitPrice (slc : StopLossConfig) (entryPrice atr : float64) : float64 :=
  (entryPrice + takeProfitMult slc * atr)%f64.

(** [GetStopLossLevels]. *)
Definition GetStopLossLevels (slc : StopLossConfig) (entryPrice atr : float64) (regime : option MarketRegime)
    : float64 * float64 :=
  (CalculateStopLossPrice slc entryPrice atr regime, CalculateTakeProfitPrice slc entryPrice atr).

(** The 2% an absent ATR is replaced by. *)
Definition default_atr (price : float64) : float64 := (price * flit 2 2)%f64.

Definition inferTrend (pos : Position.t) (currentPrice : float64) : bytes :=
  let pnlPercent := ((currentPrice - Position.AvgCost pos) / Position.AvgCost pos)%f64 in
  if (pnlPercent >? flit 5 2)%f64 then lit "bull"
  else if (pnlPercent <? fneg (flit 5 2))%f64 then lit "bear" else lit "sideways".

Definition inferVolatility (pos : Position.t) (atr : float64) : bytes :=
  if (Position.AvgCost pos <=? f0)%f64 || (atr <=? f0)%f64 then lit "medium"
  else
    let atrPercent := (atr / Position.AvgCost pos)%f64 in
    if (atrPercent >? flit 3 2)%f64 then lit "high"
    else if (atrPercent <? flit 15 3)%f64 then lit "low" else lit "medium".

(** The events of one position at its levels. *)
Definition level_events (slc : StopLossConfig) (pos : Position.t) (currentPrice atr : float64)
    (regime : option MarketRegime) : list StopLossEvent :=
  let '(stopLossPrice, takeProfitPrice) := GetStopLossLevels slc (Position.AvgCost pos) atr regime in
  (if (currentPrice <=? stopLossPrice)%f64 && (stopLossPrice >? f0)%f64
   then [MkStopEvent (Position.Symbol pos) (lit "stop_loss") stopLossPrice (Position.Quantity pos)] else [])
  ++ (if (currentPrice >=? takeProfitPrice)%f64 && (takeProfitPrice >? f0)%f64
      then [MkStopEvent (Position.Symbol pos) (lit "take_profit") takeProfitPrice (Position.Quantity pos)] else []).

(** One turn of the loops: [regimeOf] is where the two checks differ. *)
Definition check_position (slc : StopLossConfig) (prices atrData : gmap bytes float64)
    (regimeOf : Position.t -> float64 -> float64 -> option MarketRegime) (pos : Position.t) : list StopLossEvent :=
  if (Position.Quantity pos <=? f0)%f64 then []
  else match prices !! Position.Symbol pos with
       | None => []
       | Some currentPrice =>
           let atr := default f0 (atrData !! Position.Symbol pos) in
           let atr := if (atr <=? f0)%f64 then default_atr (Position.AvgCost pos) else atr in
           level_events slc pos currentPrice atr (regimeOf pos currentPrice atr)
       end.

Definition inferred (pos : Position.t) (currentPrice atr : float64) : option MarketRegime :=
  Some (MkRegime (inferTrend pos currentPrice) (inferVolatility pos atr) f0).

Definition CheckStopLoss (slc : StopLossConfig) (positions : list Position.t) (prices atrData : gmap bytes float64)
    : list StopLossEvent :=
  concat (map (check_position slc prices atrData inferred) positions).

Definition CheckStopLossWithRegime (slc : StopLossConfig) (positions : list Position.t)
    (prices atrData : gmap bytes float64) (regime : option MarketRegime) : list StopLossEvent :=
  concat (map (check_position slc prices atrData (fun _ _ _ => regime)) positions).

(** [ATRFromOHLCV]: symbols without an ATR are left out. *)
Definition ATRFromOHLCV (slc : StopLossConfig) (data : gmap bytes (list OHLCV.t)) : gmap bytes float64 :=
  omap (fun bars => match CalculateATR slc bars with Ok atr => Some atr | Err _ => None end) data.

(** ** Take profits (take_profit.go) *)

(** The values a metadata map holds, as the type assertions see them. *)
Inductive meta_value := MBool (b : bool) | MFloat (f : float64) | MOther.

Abbreviation metadata := (gmap bytes meta_value).
Abbreviation heap := (gmap nat (gmap bytes meta_value)).

(** A position with its metadata: nil or an address. *)
Record held_position := MkHeld { hp_pos : Position.t; hp_meta : option nat }.

(** Reading a nil map finds nothing. The rules replace a nil map by a fresh
    one in their own copy of the position: what they write there is lost. *)
Definition meta_of (p : held_position) (h : heap) : metadata :=
  match hp_meta p with Some a => default ∅ (h !! a) | None => ∅ end.
Definition meta_write (p : held_position) (k : bytes) (v : meta_value) (h : heap) : heap :=
  match hp_meta p with Some a => <[a := <[k := v]> (default ∅ (h !! a))]> h | None => h end.

Definition as_bool (v : option meta_value) : bool := match v with Some (MBool b) => b | _ => false end.
Definition as_float (v : option meta_value) : option float64 := match v with Some (MFloat f) => Some f | _ => None end.

Record TakeProfitAction := MkAction {
  ac_Symbol : bytes;
  ac_Rule : bytes;
  ac_Level : Z;
  ac_TriggerPrice : float64;
  ac_SellQuantity : float64;
  ac_SellFraction : float64
}.

Record TakeProfitTier := MkTier { SellFraction : float64; ProfitPct : float64 }.

(** The implementations of the rule interface. *)
Inductive TakeProfitRule :=
| FixedTakeProfit (profitPct : float64)
| TrailingTakeProfit (activationPct trailPct : float64)
| TieredTakeProfit (tiers : list TakeProfitTier).

Definition not_negative (x : float64) : float64 := if (x <? f0)%f64 then f0 else x.
Definition NewFixedTakeProfit (profitPct : float64) : TakeProfitRule := FixedTakeProfit (not_negative profitPct).
Definition NewTrailingTakeProfit (activationPct trailPct : float64) : TakeProfitRule :=
  TrailingTakeProfit (not_negative activationPct) (not_negative trailPct).

Inductive tier_error := NoTiers | NegativeProfit (i : nat) | FractionOutOfRange (i : nat).

Fixpoint tiers_checked (i : nat) (tiers : list TakeProfitTier) : option tier_error :=
  match tiers with
  | [] => None
  | t :: rest =>
      if (ProfitPct t <? f0)%f64 then Some (NegativeProfit i)
      else if (SellFraction t <=? f0)%f64 || (SellFraction t >? f1)%f64 then Some (FractionOutOfRange i)
      else tiers_checked (S i) rest
  end.

Definition Name (rule : TakeProfitRule) : bytes :=
  match rule with
  | FixedTakeProfit _ => lit "fixed"
  | TrailingTakeProfit _ _ => lit "trailing"
  | TieredTakeProfit _ => lit "tiered"
  end.

Definition roundToLot (qty : float64) (lot : Z) : float64 :=
  if lot <=? 1 then qty else (Round (qty / f64_of_Z lot) * f64_of_Z lot)%f64.

Definition FixedEvaluate (profitPct : float64) (p : held_position) (currentPrice : float64) : option TakeProfitAction :=
  let pos := hp_pos p in
  if (Position.Quantity pos <=? f0)%f64 || (Position.AvgCost pos <=? f0)%f64 then None
  else
    let trigger := (Position.AvgCost pos * (f1 + profitPct))%f64 in
    if (currentPrice <? trigger)%f64 then None
    else Some (MkAction (Position.Symbol pos) (lit "fixed") 0 trigger (Position.Quantity pos) f1).

Definition TrailingEvaluate (activationPct trailPct : float64) (p : held_position) (currentPrice : float64) (h : heap)
    : option TakeProfitAction * heap :=
  let pos := hp_pos p in
  if (Position.Quantity pos <=? f0)%f64 || (Position.AvgCost pos <=? f0)%f64 then (None, h)
  else
    let m := meta_of p h in
    let activated := as_bool (m !! lit "trailing_activated") in
    let highVal := default f0 (as_float (m !! lit "trailing_high")) in
    if negb activated then (None, h)
    else
      let '(highVal, h) :=
        if (currentPrice >? highVal)%f64
        then (currentPrice, meta_write p (lit "trailing_high") (MFloat currentPrice) h) else (highVal, h) in
      let trigger := (highVal * (f1 - trailPct))%f64 in
      if (currentPrice >? trigger)%f64 then (None, h)
      else (Some (MkAction (Position.Symbol pos) (lit "trailing") 0 trigger (Position.Quantity pos) f1), h).

(** What a tier sells. *)
Definition tier_quantity (tier : TakeProfitTier) (original : float64) (pos : Position.t) : float64 :=
  let sellQty := roundToLot (original * SellFraction tier)%f64 100 in
  let sellQty := if (sellQty <=? f0)%f64 then Position.Quantity pos else sellQty in
  if (sellQty >? Position.Quantity pos)%f64 then Position.Quantity pos else sellQty.

Definition TieredEvaluate (tiers : list TakeProfitTier) (p : held_position) (currentPrice : float64) (h : heap)
    : option TakeProfitAction * heap :=
  let pos := hp_pos p in
  if (Position.Quantity pos <=? f0)%f64 || (Position.AvgCost pos <=? f0)%f64 || bool_decide (tiers = []) then (None, h)
  else
    let m := meta_of p h in
    let lastTriggered :=
      match as_float (m !! lit "tiered_last_triggered") with Some f => f64_to_int64 f | None => -1 end in
    let nextIdx := wrap64 (lastTriggered + 1) in
    if (nextIdx <? 0) || (Z.of_nat (length tiers) <=? nextIdx) then (None, h)
    else match tiers !! Z.to_nat nextIdx with
         | None => (None, h)
         | Some tier =>
             let trigger := (Position.AvgCost pos * (f1 + ProfitPct tier))%f64 in
             if (currentPrice <? trigger)%f64 then (None, h)
             else
               let original :=
                 match as_float (m !! lit "tiered_original_qty") with
                 | Some f => if (f <=? f0)%f64 then Position.Quantity pos else f
                 | None => Position.Quantity pos
                 end in
               let sellQty := tier_quantity tier original pos in
               (Some (MkAction (Position.Symbol pos) (lit "tiered") (nextIdx + 1) trigger sellQty (sellQty / original)%f64),
                meta_write p (lit "tiered_last_triggered") (MFloat (f64_of_Z nextIdx)) h)
         end.

Definition Evaluate (rule : TakeProfitRule) (p : held_position) (currentPrice : float64) (h : heap)
    : option TakeProfitAction * heap :=
  match rule with
  | FixedTakeProfit pct => (FixedEvaluate pct p currentPrice, h)
  | TrailingTakeProfit act trail => TrailingEvaluate act trail p currentPrice h
  | TieredTakeProfit tiers => TieredEvaluate tiers p currentPrice h
  end.

Definition ActivationTrigger (activationPct : float64) (pos : Position.t) : float64 :=
  if (Position.AvgCost pos <=? f0)%f64 then f0 else (Position.AvgCost pos * (f1 + activationPct))%f64.

(** ** The take-profit checker: rules by symbol, ["*"] for the others *)

Abbreviation TakeProfitChecker := (gmap bytes TakeProfitRule).

Definition SetRule (symbol : bytes) (rule : option TakeProfitRule) (c : TakeProfitChecker) : TakeProfitChecker :=
  match rule with None => delete symbol c | Some r => <[symbol := r]> c end.

Definition GetRule (symbol : bytes) (c : TakeProfitChecker) : option TakeProfitRule :=
  match c !! symbol with Some r => Some r | None => c !! lit "*" end.

Definition check_step (c : TakeProfitChecker) (prices : gmap bytes float64)
    (st : list TakeProfitAction * heap) (p : held_position) : list TakeProfitAction * heap :=
  let '(actions, h) := st in
  if (Position.Quantity (hp_pos p) <=? f0)%f64 then st
  else match GetRule (Position.Symbol (hp_pos p)) c, prices !! Position.Symbol (hp_pos p) with
       | Some rule, Some price =>
           if (price <=? f0)%f64 then st
           else let '(a, h) := Evaluate rule p price h in
                (match a with Some a => actions ++ [a] | None => actions end, h)
       | _, _ => st
       end.

Section Sorting.
(** [sort.Slice] by the symbol and the level of actions, and by the profit of
    tiers: it does not say how it orders equals. *)
Context (sort_actions : list TakeProfitAction -> list TakeProfitAction).
Context (sort_tiers : list TakeProfitTier -> list TakeProfitTier).

Definition Check (c : TakeProfitChecker) (positions : list held_position) (prices : gmap bytes float64) (h : heap)
    : list TakeProfitAction * heap :=
  let '(actions, h) := foldl (check_step c prices) ([], h) positions in (sort_actions actions, h).

Definition NewTieredTakeProfit (tiers : list TakeProfitTier) : res tier_error TakeProfitRule :=
  match tiers with
  | [] => Err NoTiers
  | _ => let cp := sort_tiers tiers in
         match tiers_checked 0 cp with Some e => Err e | None => Ok (TieredTakeProfit cp) end
  end.
End Sorting.
