(* ===== verification/MarketRules.v ===== *)
(** * MarketRules: the A-share market rules

    The board of a symbol and its daily limits (src/pkg/marketdata/board.go),
    risk-warning names and their daily buy caps
    (src/pkg/marketdata/riskwarning.go), the fee schedule
    (src/pkg/fees/ashare.go, src/pkg/portfolio/portfolio.go), T+1 settlement
    (src/pkg/settlement/settlement.go), order quantities
    (src/pkg/risk/lot.go), the back-test's price limits
    (src/pkg/backtest/pricelimit.go) and the live price cage
    (src/pkg/live/price_cage.go), with the trading configuration
    (src/pkg/backtest/contracts/contracts.go). *)

From stdpp Require Import base list strings gmap.
From Stdlib Require Import ZArith Lia Ascii SpecFloat.
From S2P Require Import Prelude GoFloat FloatInt Domain.

Open Scope Z_scope.

(** ** Boards *)

Inductive Board :=
| BoardMainBoardSH
| BoardMainBoardSZ
| BoardChiNext
| BoardSTAR
| BoardBSE
| BoardETF
| BoardBond
| BoardIndex
| BoardFundLOF
| BoardUnknown
| BoardOther (s : bytes).

#[global] Instance Board_eq_dec : EqDecision Board.
Proof. solve_decision. Defined.

Definition DailyPriceLimit (b : Board) : float64 :=
  match b with
  | BoardChiNext | BoardSTAR => flit 20 2
  | BoardBSE => flit 30 2
  | _ => flit 10 2
  end.

Definition HasCageRule (b : Board) : bool :=
  match b with
  | BoardMainBoardSH | BoardMainBoardSZ => true
  | _ => false
  end.

Definition CagePercent (b : Board) : float64 :=
  if negb (HasCageRule b) then f0 else flit 2 2.

(** Membership of a string in a list of literals. *)
Definition one_of (s : bytes) (l : list string) : bool := bool_decide (s ∈ map lit l).

Definition classifySH (prefix3 prefix1 : bytes) : Board :=
  if one_of prefix3 ["688"; "689"]%string then BoardSTAR
  else if one_of prefix3 ["600"; "601"; "603"; "605"]%string then BoardMainBoardSH
  else if one_of prefix3 ["510"; "511"; "512"; "513"; "515"; "516"; "517"; "518"; "588"]%string
       then BoardETF
  else if one_of prefix3 ["500"; "501"]%string then BoardFundLOF
  else if one_of prefix1 ["1"]%string then BoardBond
  else if one_of prefix3 ["000"]%string then BoardIndex
  else if one_of prefix1 ["9"]%string then BoardMainBoardSH
  else BoardUnknown.

Definition classifySZ (prefix3 prefix1 : bytes) : Board :=
  if one_of prefix3 ["300"; "301"]%string then BoardChiNext
  else if one_of prefix3 ["000"; "001"; "002"]%string then BoardMainBoardSZ
  else if one_of prefix3 ["159"]%string then BoardETF
  else if one_of prefix3 ["160"; "161"; "162"; "163"; "164"; "165"; "166"; "167"; "168"; "169"]%string
       then BoardFundLOF
  else if one_of prefix1 ["1"]%string then BoardBond
  else if one_of prefix3 ["399"]%string then BoardIndex
  else if one_of prefix1 ["2"]%string then BoardMainBoardSZ
  else BoardUnknown.

Definition classifyBJ (prefix1 : bytes) : Board :=
  if one_of prefix1 ["8"; "4"; "9"]%string then BoardBSE else BoardUnknown.

(** The upper case of a rune, for runes whose upper case is an ASCII letter
    (a to z, and the long s and dotless i of Unicode); the others stay
    outside ASCII, which is all a comparison with an ASCII string sees. *)
Definition upper_rune (r : Z) : Z :=
  if in_rng 97 122 r then r - 32
  else if r =? 383 then 83
  else if r =? 305 then 73
  else r.

(** [strings.ToUpper(s) == t] for an ASCII t. *)
Definition upper_eq (s : bytes) (t : string) : bool :=
  bool_decide (map upper_rune (runes_of s) = map byteZ (lit t)).

(** [isAllDigits]: every rune is an ASCII digit. *)
Definition isAllDigits (s : bytes) : bool :=
  match s with
  | [] => false
  | _ => forallb (in_rng 48 57) (runes_of s)
  end.

(** [strings.LastIndex(s, ".")], if any. *)
Fixpoint last_dot (s : bytes) : option nat :=
  match s with
  | [] => None
  | c :: s' => match last_dot s' with
               | Some i => Some (S i)
               | None => if Ascii.eqb c "."%char then Some O else None
               end
  end.

Inductive Exchange := SH | SZ | BJ.

#[global] Instance Exchange_eq_dec : EqDecision Exchange.
Proof. solve_decision. Defined.

Definition exchange_of (s : bytes) : option Exchange :=
  if upper_eq s "SH" then Some SH
  else if upper_eq s "SZ" then Some SZ
  else if upper_eq s "BJ" then Some BJ
  else None.

(** The cut of [splitTsCode]: at the last dot past the first byte, or before
    the last two bytes of a string of eight bytes or more. *)
Definition cutTsCode (ts : bytes) : option (bytes * bytes) :=
  match last_dot ts with
  | Some (S i) => Some (take (S i) ts, drop (S (S i)) ts)
  | _ => if (8 <=? length ts)%nat
         then Some (take (length ts - 2) ts, drop (length ts - 2) ts)
         else None
  end.

Definition splitTsCode (tsCode : bytes) : option (bytes * Exchange) :=
  match TrimSpace tsCode with
  | [] => None
  | ts =>
      match cutTsCode ts with
      | None => None
      | Some (code, exch) =>
          if negb (isAllDigits code) then None
          else match exchange_of exch with
               | Some e => Some (code, e)
               | None => None
               end
      end
  end.

Definition ClassifySymbol (tsCode : bytes) : Board :=
  match splitTsCode tsCode with
  | None => BoardUnknown
  | Some (code, exch) =>
      if (length code <? 6)%nat then BoardUnknown
      else let prefix3 := take 3 code in
           let prefix1 := take 1 code in
           match exch with
           | SH => classifySH prefix3 prefix1
           | SZ => classifySZ prefix3 prefix1
           | BJ => classifyBJ prefix1
           end
  end.

(** ** Risk warnings *)

Definition is_blank (c : ascii) : bool := Ascii.eqb c " "%char || (byteZ c =? 9).

Definition trimASCIISpace (s : bytes) : bytes := trim_both is_blank s.

Definition IsRiskWarningName (name : bytes) : bool :=
  match name with
  | [] => false
  | _ => let s := trimASCIISpace name in
         existsb (fun p => match strip_prefix (lit p) s with Some _ => true | None => false end)
           ["*ST"; "S*ST"; "SST"; "ST"]%string
  end.

Definition RiskWarningDailyBuyCapMainBoard : float64 := f64_of_Z 500000.
Definition RiskWarningDailyBuyCapBSE : float64 := f64_of_Z 200000.

Definition RiskWarningDailyBuyCap (symbol : bytes) : float64 :=
  match ClassifySymbol symbol with
  | BoardBSE => RiskWarningDailyBuyCapBSE
  | BoardSTAR => f0
  | BoardMainBoardSH | BoardMainBoardSZ | BoardChiNext => RiskWarningDailyBuyCapMainBoard
  | _ => RiskWarningDailyBuyCapBSE
  end.

(** ** Fees *)

Definition DefaultCommissionRate : float64 := flit 3 4.
Definition DefaultStampTaxRate : float64 := flit 5 4.
Definition DefaultStampTaxRateBefore : float64 := flit 1 3.
Definition DefaultTransferFeeRate : float64 := flit 1 5.
Definition DefaultMinCommission : float64 := f64_of_Z 5.
Definition DefaultSlippageRate : float64 := flit 1 4.

(** 2023-08-28, day 738759 since 0001-01-01. *)
Definition StampTaxCutDate : Time := 738759 * day_ns.

Definition StampTaxRateFor (asOf : Time) (current before : float64) : float64 :=
  let before := if (before <=? f0)%f64 then DefaultStampTaxRateBefore else before in
  let current := if (current <=? f0)%f64 then DefaultStampTaxRate else current in
  if negb (IsZero asOf) && Before asOf StampTaxCutDate then before else current.

Record AShareFees := MkAShareFees {
  CommissionRate : float64;
  StampTaxRate : float64;
  TransferFeeRate : float64;
  MinCommission : float64;
  SlippageRate : float64
}.

Definition DefaultAShareFees : AShareFees :=
  MkAShareFees DefaultCommissionRate DefaultStampTaxRate DefaultTransferFeeRate
    DefaultMinCommission DefaultSlippageRate.

(** A zero field takes its default. *)
Definition or_default (x d : float64) : float64 := if (x =? f0)%f64 then d else x.

Definition ApplyDefaults (f : AShareFees) : AShareFees :=
  MkAShareFees
    (or_default (CommissionRate f) DefaultCommissionRate)
    (or_default (StampTaxRate f) DefaultStampTaxRate)
    (or_default (TransferFeeRate f) DefaultTransferFeeRate)
    (or_default (MinCommission f) DefaultMinCommission)
    (or_default (SlippageRate f) DefaultSlippageRate).

Inductive fees_error :=
| FECommissionRate (x : float64)
| FEStampTaxRate (x : float64)
| FETransferFeeRate (x : float64)
| FEMinCommission (x : float64)
| FESlippageRate (x : float64).

Definition out_of_range (x hi : float64) : bool := (x <? f0)%f64 || (x >=? hi)%f64.

Definition ValidateFees (f : AShareFees) : res fees_error unit :=
  if out_of_range (CommissionRate f) (flit 5 2) then Err (FECommissionRate (CommissionRate f))
  else if out_of_range (StampTaxRate f) (flit 5 2) then Err (FEStampTaxRate (StampTaxRate f))
  else if out_of_range (TransferFeeRate f) (flit 5 2) then Err (FETransferFeeRate (TransferFeeRate f))
  else if out_of_range (MinCommission f) (f64_of_Z 1000) then Err (FEMinCommission (MinCommission f))
  else if out_of_range (SlippageRate f) (flit 1 1) then Err (FESlippageRate (SlippageRate f))
  else Ok tt.

Record FeeBreakdown := MkFeeBreakdown {
  Commission : float64;
  TransferFee : float64;
  StampTax : float64
}.

Definition Total (f : FeeBreakdown) : float64 := (Commission f + TransferFee f + StampTax f)%f64.

Definition ComputeFees (tradeValue : float64) (isSell : bool) (f : AShareFees) : FeeBreakdown :=
  if (tradeValue <=? f0)%f64 then MkFeeBreakdown f0 f0 f0
  else MkFeeBreakdown
         (MathMax (tradeValue * CommissionRate f)%f64 (MinCommission f))
         (tradeValue * TransferFeeRate f)%f64
         (if isSell then (tradeValue * StampTaxRate f)%f64 else f0).

(** ** Settlement *)

Definition FlatThreshold : float64 := flit 1 8.

Definition IsFlat (quantity : float64) : bool := (Abs quantity <? FlatThreshold)%f64.

(** (newYesterday, newToday). *)
Definition RollOver (qtyYesterday qtyToday : float64) : float64 * float64 := (qtyToday, f0).

Definition SellableQty (qtyYesterday : float64) : float64 :=
  if (qtyYesterday <? f0)%f64 then f0 else qtyYesterday.

Definition UpdateAvgCost (oldAvgCost oldQty fillPrice filledQty : float64) : float64 * float64 :=
  let newQty := (oldQty + filledQty)%f64 in
  if (Abs newQty <? flit 1 8)%f64 then (f0, f0)
  else (((oldAvgCost * oldQty + fillPrice * filledQty) / newQty)%f64, newQty).

(** ** Order quantities *)

Definition LotSize : float64 := f64_of_Z 100.
Definition STARMinShares : float64 := f64_of_Z 200.
Definition BSEMinShares : float64 := f64_of_Z 100.

Definition NormalizeOrderQuantity (shares : float64) (symbol : bytes) : float64 :=
  if (shares <? f1)%f64 then f0
  else match ClassifySymbol symbol with
       | BoardSTAR => if (shares <? STARMinShares)%f64 then STARMinShares else Floor shares
       | BoardBSE => if (shares <? BSEMinShares)%f64 then BSEMinShares else Floor shares
       | _ => let lots := Floor (shares / LotSize)%f64 in
              if (lots <? f1)%f64 then LotSize else (lots * LotSize)%f64
       end.

Inductive qty_error :=
| QtyNotPositive (x : float64)
| QtyNotWhole (x : float64)
| QtyBelowSTARMin (x : float64)
| QtyBelowBSEMin (x : float64)
| QtyNotLotMultiple (x : float64).

Definition ValidateOrderQuantity (shares : float64) (symbol : bytes) (isSell : bool)
    : res qty_error unit :=
  if (shares <=? f0)%f64 then Err (QtyNotPositive shares)
  else if negb (shares =? Trunc shares)%f64 then Err (QtyNotWhole shares)
  else let qty := Trunc shares in
  if isSell then Ok tt
  else match ClassifySymbol symbol with
       | BoardSTAR => if (qty <? STARMinShares)%f64 then Err (QtyBelowSTARMin shares) else Ok tt
       | BoardBSE => if (qty <? BSEMinShares)%f64 then Err (QtyBelowBSEMin shares) else Ok tt
       | _ => if negb (Mod qty LotSize =? f0)%f64 then Err (QtyNotLotMultiple shares) else Ok tt
       end.

(** ** The trading configuration *)

Record PriceLimitConfig := MkPriceLimitConfig {
  PL_Normal : float64;
  PL_ST : float64;
  PL_STBefore : float64;
  PL_New : float64
}.

Record TradingConfig := MkTradingConfig {
  TC_StampTaxRate : float64;
  TC_StampTaxRateBefore : float64;
  TC_MinCommission : float64;
  TC_TransferFeeRate : float64;
  TC_PriceLimit : PriceLimitConfig;
  TC_NewStockDays : Z
}.

Definition DefaultPriceLimitNormal : float64 := flit 10 2.
Definition DefaultPriceLimitST : float64 := flit 10 2.
Definition DefaultPriceLimitSTBefore : float64 := flit 5 2.
Definition DefaultPriceLimitNew : float64 := flit 20 2.
Definition DefaultNewStockDays : Z := 60.
Definition DefaultShortSellingRate : float64 := flit 106 3.
Definition TradingDaysPerYear : Z := 252.

Definition DefaultTradingConfig : TradingConfig :=
  MkTradingConfig DefaultStampTaxRate DefaultStampTaxRateBefore DefaultMinCommission
    DefaultTransferFeeRate
    (MkPriceLimitConfig DefaultPriceLimitNormal DefaultPriceLimitST DefaultPriceLimitSTBefore
       DefaultPriceLimitNew)
    DefaultNewStockDays.

Definition WithDefaults (c : TradingConfig) : TradingConfig :=
  let pl := TC_PriceLimit c in
  MkTradingConfig
    (or_default (TC_StampTaxRate c) DefaultStampTaxRate)
    (or_default (TC_StampTaxRateBefore c) DefaultStampTaxRateBefore)
    (or_default (TC_MinCommission c) DefaultMinCommission)
    (or_default (TC_TransferFeeRate c) DefaultTransferFeeRate)
    (MkPriceLimitConfig
       (or_default (PL_Normal pl) DefaultPriceLimitNormal)
       (or_default (PL_ST pl) DefaultPriceLimitST)
       (or_default (PL_STBefore pl) DefaultPriceLimitSTBefore)
       (or_default (PL_New pl) DefaultPriceLimitNew))
    (if TC_NewStockDays c =? 0 then DefaultNewStockDays else TC_NewStockDays c).

(** ** Price limits of the back-test *)

(** 2026-07-06, day 739802 since 0001-01-01. *)
Definition stLimitChangeDate : Time := 739802 * day_ns.
Definition stLimitBeforeChange : float64 := flit 5 2.
Definition stLimitAfterChange : float64 := flit 10 2.

Record PriceLimitInput := MkPriceLimitInput {
  PLI_Symbol : bytes;
  PLI_Name : bytes;
  PLI_TradeDays : Z;
  PLI_AsOf : Time
}.

Record PriceLimitConfigValues := MkPriceLimitConfigValues {
  CV_Normal : float64;
  CV_ST : float64;
  CV_STBefore : float64;
  CV_New : float64;
  CV_NewStockDays : Z
}.

Definition resolvePriceLimit (i : PriceLimitInput) (cfg : PriceLimitConfigValues) : float64 :=
  if (0 <? CV_NewStockDays cfg) && (PLI_TradeDays i <? CV_NewStockDays cfg)
     && (CV_New cfg >? f0)%f64
  then CV_New cfg
  else
    let board := ClassifySymbol (PLI_Symbol i) in
    let boardLimit := DailyPriceLimit board in
    if IsRiskWarningName (PLI_Name i) then
      match board with
      | BoardChiNext | BoardSTAR => boardLimit
      | BoardBSE => boardLimit
      | _ =>
          let before := if (CV_STBefore cfg <=? f0)%f64 then stLimitBeforeChange
                        else CV_STBefore cfg in
          let after := if (CV_ST cfg <=? f0)%f64 then stLimitAfterChange else CV_ST cfg in
          if negb (IsZero (PLI_AsOf i)) && Before (PLI_AsOf i) stLimitChangeDate
          then before else after
      end
    else if bool_decide (board = BoardUnknown) && (CV_Normal cfg >? f0)%f64
         then CV_Normal cfg
         else boardLimit.

Definition roundToCent (price : float64) : float64 :=
  (Round (price * f64_of_Z 100) / f64_of_Z 100)%f64.

(** (upper, lower). *)
Definition LimitPrices (prevClose rate : float64) : float64 * float64 :=
  (roundToCent (prevClose * (f1 + rate))%f64, roundToCent (prevClose * (f1 - rate))%f64).

(** ** The price cage of live orders *)

Inductive cage_reason :=
| LimitUpViolation
| LimitDownViolation
| CageViolation
| NonPositivePrice
| MissingReference.

Record PriceCageError := MkPriceCageError {
  CE_Symbol : bytes;
  CE_Board : Board;
  CE_Direction : option Direction;
  CE_OrderPrice : float64;
  CE_PrevClose : float64;
  CE_LimitUp : float64;
  CE_LimitDown : float64;
  CE_Reference : float64;
  CE_CageFloor : float64;
  CE_CageCeil : float64;
  CE_Reason : cage_reason
}.

Record ReferencePrice := MkReferencePrice {
  BestBid : float64;
  BestAsk : float64;
  Last : float64;
  PrevClose : float64
}.

Definition HasMinimum (r : ReferencePrice) : bool := (PrevClose r >? f0)%f64.

(** The validator's board: an override other than [BoardUnknown] wins. *)
Definition cage_board (override : option (bytes -> Board)) (symbol : bytes) : Board :=
  match override with
  | Some resolve =>
      let b := resolve symbol in
      if bool_decide (b = BoardUnknown) then ClassifySymbol symbol else b
  | None => ClassifySymbol symbol
  end.

Definition approxEqual (a b : float64) : bool := (Abs (a - b) <? flit 1 4)%f64.

Definition round4 (x : float64) : float64 :=
  (Round (x * f64_of_Z 10000) / f64_of_Z 10000)%f64.

(** The reference price of a direction, the last trade as fallback. *)
Definition cage_reference (d : Direction) (ref : ReferencePrice) : float64 :=
  match d with
  | DirectionLong => if (BestAsk ref <=? f0)%f64 then Last ref else BestAsk ref
  | DirectionShort | DirectionClose => if (BestBid ref <=? f0)%f64 then Last ref else BestBid ref
  | _ => Last ref
  end.

Definition zero_board : Board := BoardOther [].

Definition ValidatePrice (override : option (bytes -> Board)) (order : option Order.t)
    (ref : ReferencePrice) : res PriceCageError unit :=
  match order with
  | None => Err (MkPriceCageError [] zero_board None f0 f0 f0 f0 f0 f0 f0 NonPositivePrice)
  | Some o =>
      let price := Order.LimitPrice o in
      let symbol := Order.Symbol o in
      if bool_decide (Order.OrderType o = OrderTypeMarket) then Ok tt
      else if (price <=? f0)%f64 then
        Err (MkPriceCageError symbol zero_board None price f0 f0 f0 f0 f0 f0 NonPositivePrice)
      else if negb (HasMinimum ref) then
        Err (MkPriceCageError symbol zero_board None price f0 f0 f0 f0 f0 f0 MissingReference)
      else
        let board := cage_board override symbol in
        let limit := DailyPriceLimit board in
        let limitUp := round4 (PrevClose ref * (f1 + limit))%f64 in
        let limitDown := round4 (PrevClose ref * (f1 - limit))%f64 in
        let fail reference floor ceil reason :=
          Err (MkPriceCageError symbol board (Some (Order.Direction o)) price (PrevClose ref)
                 limitUp limitDown reference floor ceil reason) in
        if (price >? limitUp)%f64 then fail f0 f0 f0 LimitUpViolation
        else if (price <? limitDown)%f64 then fail f0 f0 f0 LimitDownViolation
        else if negb (HasCageRule board) then Ok tt
        else if approxEqual price limitUp || approxEqual price limitDown then Ok tt
        else
          let reference := cage_reference (Order.Direction o) ref in
          if (reference <=? f0)%f64 then Ok tt
          else
            let floor := round4 (reference * (f1 - CagePercent board))%f64 in
            let ceil := round4 (reference * (f1 + CagePercent board))%f64 in
            if (price <? floor)%f64 || (price >? ceil)%f64
            then fail reference floor ceil CageViolation
            else Ok tt
  end.

(** (limitUp, limitDown). *)
Definition LimitUpDown (board : Board) (prevClose : float64) : float64 * float64 :=
  if (prevClose <=? f0)%f64 then (f0, f0)
  else let limit := DailyPriceLimit board in
       (round4 (prevClose * (f1 + limit))%f64, round4 (prevClose * (f1 - limit))%f64).
