(* ===== verification/MarketProps.v ===== *)
(** * MarketProps: the market rules fit together

    The quantity normalizer only produces orders the quantity validator
    accepts, the price cage accepts exactly the admissible limit prices, and
    the back-test and the live cage disagree about the limit price by the
    rounding they use. *)

From stdpp Require Import base list strings gmap.
From Stdlib Require Import ZArith Lia Ascii SpecFloat.
From S2P Require Import Prelude GoFloat FloatInt FloatRound Domain MarketRules.

Open Scope Z_scope.

(** ** Order quantities *)

(** A whole number of shares passes the common part of the validation. *)
Lemma validate_whole n symbol :
  0 < n < 2 ^ 53 ->
  ValidateOrderQuantity (f64_of_Z n) symbol false
  = match ClassifySymbol symbol with
    | BoardSTAR => if n <? 200 then Err (QtyBelowSTARMin (f64_of_Z n)) else Ok tt
    | BoardBSE => if n <? 100 then Err (QtyBelowBSEMin (f64_of_Z n)) else Ok tt
    | _ => if negb (Mod (f64_of_Z n) LotSize =? f0)%f64
           then Err (QtyNotLotMultiple (f64_of_Z n)) else Ok tt
    end.
Proof.
  intros Hn. unfold ValidateOrderQuantity. change f0 with (f64_of_Z 0) at 1.
  rewrite Trunc_of_Z by lia. unfold STARMinShares, BSEMinShares.
  autorewrite with whole. replace (n <=? 0) with false by lia. by rewrite Z.eqb_refl.
Qed.

Lemma validate_lots k symbol :
  0 < k -> k * 100 < 2 ^ 53 -> ClassifySymbol symbol <> BoardSTAR ->
  ValidateOrderQuantity (f64_of_Z (k * 100)) symbol false = Ok tt.
Proof.
  intros Hk H53 Hstar. rewrite validate_whole by lia. unfold LotSize. rewrite Mod_multiple by lia.
  replace (k * 100 <? 100) with false by lia. by destruct (ClassifySymbol symbol).
Qed.

(** The floor of a share count at least [lo] is a whole count at least [lo]. *)
Lemma floor_shares shares lo :
  fvalid shares = true -> is_nan shares = false -> 1 <= lo < 2 ^ 46 ->
  flt shares (f64_of_Z lo) = false -> flt shares (f64_of_Z (2 ^ 46)) = true ->
  exists q, Floor shares = f64_of_Z q /\ lo <= q < 2 ^ 53.
Proof.
  intros Hv Hnan Hlo Hge Hlt.
  assert (Hpos : flt f0 shares = true).
  { apply (flt_le_trans _ (f64_of_Z lo)); [done| |done]. change f0 with (f64_of_Z 0).
    rewrite flt_whole by (unfold whole_range; lia). lia. }
  assert (Hfin : ffinite shares = true) by (by destruct shares as [|[]| |[]]).
  apply not_true_iff_false in Hge.
  rewrite flt_fmag, fmag_whole in Hge by (done || apply fvalid_of_Z || (unfold whole_range; lia) ||
    (by destruct (whole_cases lo ltac:(unfold whole_range; lia)) as [[_ ->]|(?&?&_&_&_&->)])).
  assert (Hlt53 : flt shares (f64_of_Z (2 ^ 53)) = true).
  { rewrite flt_fmag in Hlt |- * by done.
    change (fmag (f64_of_Z (2 ^ 46))) with (2 ^ 46 * 2 ^ 1074) in Hlt.
    change (fmag (f64_of_Z (2 ^ 53))) with (2 ^ 53 * 2 ^ 1074). lia. }
  destruct (Floor_whole shares Hv Hpos Hlt53) as (q & -> & Hq & Hmag).
  exists q. split; [done|]. split; [nia|lia].
Qed.

(** A share count below 2^46 that makes a lot makes a whole number of them. *)
Lemma floor_lots shares :
  fvalid shares = true -> flt f0 shares = true -> flt shares (f64_of_Z (2 ^ 46)) = true ->
  flt (Floor (shares / LotSize)%f64) f1 = false ->
  exists k, Floor (shares / LotSize)%f64 = f64_of_Z k /\ 0 < k <= 2 ^ 46.
Proof.
  intros Hv Hpos Hlt. destruct (fdiv_hundred shares Hv Hpos Hlt) as (Hdv & Hd0 & Hdf & Hdm).
  unfold LotSize. set (d := (shares / f64_of_Z 100)%f64) in *.
  destruct (flt f0 d) eqn:H0d.
  - assert (H53 : flt d (f64_of_Z (2 ^ 53)) = true).
    { rewrite flt_fmag by done. change (fmag (f64_of_Z (2 ^ 53))) with (2 ^ 53 * 2 ^ 1074). lia. }
    destruct (Floor_whole d Hdv H0d H53) as (k & -> & Hk & Hmag).
    unfold f1. rewrite flt_whole by (unfold whole_range; lia). intros Hk1. bool_to_prop.
    exists k. split; [done|]. nia.
  - by destruct d as [[]|[]| |[] m e].
Qed.

(** Whatever share count is wanted, from one share to 2^46, the quantity
    the normalizer sends is one the validator accepts for the same symbol: on
    STAR and BSE at least the floor and whole, elsewhere an exact multiple of
    the lot. *)
Theorem normalized_quantity_accepted shares symbol :
  fvalid shares = true -> is_nan shares = false ->
  flt shares f1 = false -> flt shares (f64_of_Z (2 ^ 46)) = true ->
  ValidateOrderQuantity (NormalizeOrderQuantity shares symbol) symbol false = Ok tt.
Proof.
  intros Hv Hnan H1 Hlt. unfold NormalizeOrderQuantity. rewrite H1.
  destruct (decide (ClassifySymbol symbol = BoardSTAR)) as [Es|Hns];
    [|destruct (decide (ClassifySymbol symbol = BoardBSE)) as [Eb|Hnb]].
  - rewrite Es. unfold STARMinShares. destruct (flt shares (f64_of_Z 200)) eqn:E.
    { rewrite validate_whole by lia. by rewrite Es. }
    destruct (floor_shares shares 200 Hv Hnan ltac:(lia) E Hlt) as (q & -> & Hq).
    rewrite validate_whole by lia. rewrite Es. by replace (q <? 200) with false by lia.
  - rewrite Eb. unfold BSEMinShares. destruct (flt shares (f64_of_Z 100)) eqn:E.
    { rewrite validate_whole by lia. by rewrite Eb. }
    destruct (floor_shares shares 100 Hv Hnan ltac:(lia) E Hlt) as (q & -> & Hq).
    rewrite validate_whole by lia. rewrite Eb. by replace (q <? 100) with false by lia.
  - assert (Hpos : flt f0 shares = true) by (by apply (flt_le_trans _ f1)).
    assert (Hlots : ValidateOrderQuantity
              (let lots := Floor (shares / LotSize)%f64 in
               if (lots <? f1)%f64 then LotSize else (lots * LotSize)%f64) symbol false = Ok tt).
    { cbv zeta. destruct (flt (Floor _) f1) eqn:E; [by apply (validate_lots 1)|].
      destruct (floor_lots shares Hv Hpos Hlt E) as (k & -> & Hk).
      unfold LotSize. rewrite fmul_whole by (unfold whole_range; lia).
      apply validate_lots; [lia|lia|done]. }
    by destruct (ClassifySymbol symbol).
Qed.

(** 250.5 shares: 250 on STAR, 200 on the main board, both accepted. *)
Lemma normalized_quantity_accepted_witness :
  NormalizeOrderQuantity (flit 2505 1) (lit "688001.SH") = f64_of_Z 250
  /\ NormalizeOrderQuantity (flit 2505 1) (lit "600000.SH") = f64_of_Z 200
  /\ ValidateOrderQuantity (NormalizeOrderQuantity (flit 2505 1) (lit "688001.SH"))
       (lit "688001.SH") false = Ok tt.
Proof.
  split; [vm_compute; reflexivity|]. split; [vm_compute; reflexivity|].
  apply (normalized_quantity_accepted (flit 2505 1) (lit "688001.SH")); vm_compute; reflexivity.
Defined.

(** ** The price cage *)

(** Not below [lo], not above [hi]. *)
Definition between (lo price hi : float64) : Prop := flt price lo = false /\ flt hi price = false.

(** What the rules ask of a limit order on a board: a positive price and
    previous close, a price within the daily limits, and, on a board with a
    cage, a price at one of the limits or within the cage around the
    reference, when there is one. *)
Definition admissible (board : Board) (o : Order.t) (ref : ReferencePrice) : Prop :=
  let price := Order.LimitPrice o in
  let '(up, down) := LimitUpDown board (PrevClose ref) in
  let reference := cage_reference (Order.Direction o) ref in
  fle price f0 = false /\ flt f0 (PrevClose ref) = true
  /\ between down price up
  /\ (HasCageRule board = true ->
      approxEqual price up = true \/ approxEqual price down = true
      \/ fle reference f0 = true
      \/ between (round4 (reference * (f1 - flit 2 2))%f64) price
           (round4 (reference * (f1 + flit 2 2))%f64)).

(** The price cage accepts a limit order exactly when it is admissible
    on its board, and always accepts a market order. *)
Theorem cage_accepts_admissible override o ref :
  ValidatePrice override (Some o) ref = Ok tt
  <-> Order.OrderType o = OrderTypeMarket
      \/ admissible (cage_board override (Order.Symbol o)) o ref.
Proof.
  unfold ValidatePrice, admissible, between, LimitUpDown, HasMinimum, CagePercent.
  set (board := cage_board override (Order.Symbol o)).
  destruct (bool_decide_reflect (Order.OrderType o = OrderTypeMarket)) as [Hm|Hm]; [by split; auto|].
  destruct (PrevClose ref >? f0)%f64 eqn:Hc; cbn [negb].
  2:{ split; [by destruct (_ <=? _)%f64|]. intros [?|H]; [done|].
      destruct (PrevClose ref <=? f0)%f64; by destruct H as (_ & ? & _). }
  replace (PrevClose ref <=? f0)%f64 with false
    by (symmetry; apply not_true_iff_false; intros Hle%fle_not_gt; congruence).
  destruct (Order.LimitPrice o <=? f0)%f64; [split; [done|by intros [?|[? _]]]|].
  destruct (flt _ (Order.LimitPrice o)); [split; [done|by intros [?|(_ & _ & [_ ?] & _)]]|].
  destruct (flt (Order.LimitPrice o) _); [split; [done|by intros [?|(_ & _ & [? _] & _)]]|].
  destruct (HasCageRule board); cbn [negb];
    [|split; [intros _; right; repeat split; by intros|done]].
  destruct (approxEqual _ _ || approxEqual _ _) eqn:Hat;
    [apply orb_true_iff in Hat; split; [intros _; right; tauto|done]|].
  apply orb_false_iff in Hat as [-> ->].
  destruct (cage_reference _ _ <=? f0)%f64; [split; [intros _; right; repeat split; tauto|done]|].
  destruct (flt _ _ || flt _ _) eqn:Hcg.
  - apply orb_true_iff in Hcg. split; [done|].
    intros [?|(_ & _ & _ & Hcage)]; [done|].
    destruct (Hcage eq_refl) as [?|[?|[?|[E1 E2]]]]; try done. rewrite E1, E2 in Hcg. by destruct Hcg.
  - apply orb_false_iff in Hcg. split; [intros _; right; tauto|done].
Qed.

Lemma flt_nan_r x : flt x fNaN = false.
Proof. by destruct x as [|[]| |[]]. Qed.

(** A previous close of 10.05 on the Shenzhen main board. *)
Definition pc1005 : float64 := flit 1005 2.
Definition ref1005 : ReferencePrice := MkReferencePrice (flit 1105 2) (flit 1106 2) (flit 1106 2) pc1005.
Definition order_at (price : float64) : Order.t :=
  Order.Mk (lit "000001.SZ") DirectionLong OrderTypeLimit (f64_of_Z 100) price 0 f0 f0 [].

(** The back-test rounds limit prices to the cent, the live cage to four
    decimals, so they disagree where the exact limit is not a whole cent: for
    a previous close of 10.05 the back-test's limit-up is 11.06, and the live
    cage refuses an order at 11.06 as above limit-up. And since every test of
    the cage is a rejection test, it lets a NaN price through. *)
Theorem cage_rounding_divergence :
  fst (LimitPrices pc1005 (DailyPriceLimit BoardMainBoardSZ)) = flit 1106 2
  /\ fst (LimitUpDown BoardMainBoardSZ pc1005) = flit 11055 3
  /\ match ValidatePrice None (Some (order_at (flit 1106 2))) ref1005 with
     | Err e => CE_Reason e = LimitUpViolation
     | Ok _ => False
     end
  /\ (forall override ref, flt f0 (PrevClose ref) = true ->
        ValidatePrice override (Some (order_at fNaN)) ref = Ok tt).
Proof.
  split; [vm_compute; reflexivity|]. split; [vm_compute; reflexivity|].
  split; [vm_compute; reflexivity|].
  intros override ref Hpc. unfold ValidatePrice. cbn [Order.LimitPrice Order.OrderType order_at].
  unfold HasMinimum. rewrite Hpc, !flt_nan_r. cbn.
  repeat (rewrite ?flt_nan_r; cbn; case_match; try done).
Qed.
