(* ===== verification/RiskManager.v ===== *)
(** * RiskManager: position sizing and market regimes (src/pkg/risk)

    The volatility sizer ([volatility.go]), the regime detector
    ([regime.go]), the risk manager that sizes positions and checks stops
    ([manager.go]) and value at risk ([var.go]), with the functions of
    src/pkg/statistics they call. Logging is left out. *)

From stdpp Require Import base list strings gmap.
From Stdlib Require Import ZArith Lia Ascii.
From S2P Require Import Prelude GoMap GoFloat ExprEval Domain MarketRules ExitRules.

Open Scope Z_scope.

Definition f64_of_nat (n : nat) : float64 := f64_of_Z (Z.of_nat n).

(** ** Statistics (src/pkg/statistics) *)

Definition Sum (values : list float64) : float64 := foldl fadd f0 values.

Definition Mean (values : list float64) : float64 :=
  if bool_decide (values = []) then f0 else (Sum values / f64_of_nat (length values))%f64.

Definition sum_sq_diff (mean : float64) (values : list float64) : float64 :=
  foldl (fun s v => let d := (v - mean)%f64 in s + d * d)%f64 f0 values.

Definition VarianceFromMean (values : list float64) (mean : float64) (sample : bool) : float64 :=
  let n := length values in
  if (n <? 2)%nat then f0
  else
    let denom := if sample then f64_of_nat (n - 1) else f64_of_nat n in
    let v := (sum_sq_diff mean values / denom)%f64 in
    if (v <? f0)%f64 then f0 else v.

Definition SampleStdDev (values : list float64) : float64 := Sqrt (VarianceFromMean values (Mean values) true).

(** The running sums of [Slope]: index, x, y, xy and x squared. *)
Definition slope_step (st : Z * (float64 * float64 * float64 * float64)) (v : float64)
    : Z * (float64 * float64 * float64 * float64) :=
  let '(i, (sumX, sumY, sumXY, sumX2)) := st in
  let x := f64_of_Z i in
  (i + 1, (sumX + x, sumY + v, sumXY + x * v, sumX2 + x * x)%f64).

Definition Slope (y : list float64) : float64 :=
  if (length y <? 2)%nat then f0
  else
    let nf := f64_of_nat (length y) in
    let '(sumX, sumY, sumXY, sumX2) := snd (foldl slope_step (0, (f0, f0, f0, f0)) y) in
    let denom := (nf * sumX2 - sumX * sumX)%f64 in
    if (denom =? f0)%f64 then f0 else ((nf * sumXY - sumX * sumY) / denom)%f64.

Definition at_ (l : list float64) (i : Z) : float64 := default f0 (l !! Z.to_nat i).

Definition Percentile `{GoSort} (values : list float64) (p : float64) : float64 :=
  if bool_decide (values = []) then f0
  else
    let p := if (p <? f0)%f64 then f0 else p in
    let p := if (p >? f1)%f64 then f1 else p in
    let sorted := Float64s values in
    let index := (p * f64_of_nat (length values - 1))%f64 in
    let lower := f64_to_int64 (Floor index) in
    let upper := f64_to_int64 (Ceil index) in
    if lower =? upper then at_ sorted lower
    else
      let frac := (index - f64_of_Z lower)%f64 in
      (at_ sorted lower * (f1 - frac) + at_ sorted upper * frac)%f64.

(** ** Volatility sizing (volatility.go) *)

Record VolatilityConfig := MkVolatility {
  targetVolatility : float64;
  maxPositionWeight : float64;
  minPositionWeight : float64;
  lookbackDays : nat;
  annualizationFactor : float64
}.

Definition closes (ohlcv : list OHLCV.t) : list float64 := map OHLCV.Close ohlcv.

Section Returns.
Context `{GoMath}.

Fixpoint log_returns (cs : list float64) : list float64 :=
  match cs with
  | a :: ((b :: _) as rest) => Log (b / a)%f64 :: log_returns rest
  | _ => []
  end.

Definition sample_vol (returns : list float64) : float64 :=
  let mean := (foldl fadd f0 returns / f64_of_nat (length returns))%f64 in
  Sqrt (sum_sq_diff mean returns / f64_of_Z (Z.of_nat (length returns) - 1))%f64.

(** Without a bar the slice of returns has length -1. *)
Definition CalculateVolatility (vs : VolatilityConfig) (ohlcv : list OHLCV.t) : res risk_error float64 :=
  let n := length ohlcv in
  if (n <? lookbackDays vs)%nat then Err (Insufficient (lookbackDays vs) n)
  else if (n =? 0)%nat then Err RuntimePanic
  else
    let returns := log_returns (closes ohlcv) in
    let recentReturns := drop (length returns - lookbackDays vs) returns in
    Ok (sample_vol recentReturns * annualizationFactor vs)%f64.

Definition regime_multiplier (regime : option MarketRegime) : float64 :=
  match regime with
  | None => f1
  | Some r =>
      let multiplier :=
        if bool_decide (Volatility r = lit "high") then flit 5 1
        else if bool_decide (Volatility r = lit "low") then flit 15 1 else f1 in
      if bool_decide (Trend r = lit "bear") then (multiplier * flit 7 1)%f64
      else if bool_decide (Trend r = lit "bull") && bool_decide (Volatility r = lit "low")
      then (multiplier * flit 12 1)%f64 else multiplier
  end.

Definition CalculatePositionWeight (vs : VolatilityConfig) (currentVol : float64) (regime : option MarketRegime)
    : float64 :=
  if (currentVol <=? f0)%f64 then minPositionWeight vs
  else
    let weight := (targetVolatility vs / currentVol * regime_multiplier regime)%f64 in
    let double := (maxPositionWeight vs * f64_of_Z 2)%f64 in
    let weight := if (weight >? double)%f64 then double else weight in
    let weight := if (weight <? minPositionWeight vs)%f64 then minPositionWeight vs else weight in
    if (weight >? maxPositionWeight vs)%f64 then maxPositionWeight vs else weight.

Definition CalculateBaseWeight (vs : VolatilityConfig) (currentVol : float64) : float64 :=
  if (currentVol <=? f0)%f64 then minPositionWeight vs else (targetVolatility vs / currentVol)%f64.

Definition GetVolatilityStats (vs : VolatilityConfig) (ohlcv : list OHLCV.t) : res risk_error (float64 * float64) :=
  if (length ohlcv <? 2)%nat then Err (Insufficient 2 (length ohlcv))
  else let daily := SampleStdDev (log_returns (closes ohlcv)) in
       Ok (daily, daily * annualizationFactor vs)%f64.

(** ** The regime detector (regime.go) *)

Record RegimeConfig := MkRegimeConfig { fastMAPeriod : nat; slowMAPeriod : nat; volLookback : nat }.

Definition calculateMA (ohlcv : list OHLCV.t) (period : nat) : float64 :=
  let period := Nat.min period (length ohlcv) in
  (foldl fadd f0 (drop (length ohlcv - period) (closes ohlcv)) / f64_of_nat period)%f64.

Definition calculateSlope (prices : list float64) : float64 :=
  if (length prices <? 2)%nat then f0
  else
    let slope := Slope prices in
    let avgPrice := Mean prices in
    if (avgPrice >? f0)%f64 then (slope / avgPrice)%f64 else slope.

(** Twenty closes, the latest first; missing ones are zero. *)
Definition recent_prices (ohlcv : list OHLCV.t) : list float64 :=
  let l := take 20 (rev (closes ohlcv)) in l ++ replicate (20 - length l) f0.

Definition detectTrend (rd : RegimeConfig) (ohlcv : list OHLCV.t) : bytes :=
  if (length ohlcv <? slowMAPeriod rd)%nat then lit "sideways"
  else
    let fastMA := calculateMA ohlcv (fastMAPeriod rd) in
    let slowMA := calculateMA ohlcv (slowMAPeriod rd) in
    let slopeMA := calculateSlope (recent_prices ohlcv) in
    let ratio := (fastMA / slowMA)%f64 in
    let tolerance := flit 2 2 in
    if (ratio >? f1 + tolerance)%f64 && (slopeMA >? f0)%f64 then lit "bull"
    else if (ratio <? f1 - tolerance)%f64 && (slopeMA <? f0)%f64 then lit "bear"
    else lit "sideways".

(** Returns over positive closes; the others count as zero. *)
Fixpoint guarded_returns (cs : list float64) : list float64 :=
  match cs with
  | a :: ((b :: _) as rest) => (if (a >? f0)%f64 then Log (b / a)%f64 else f0) :: guarded_returns rest
  | _ => []
  end.

Definition calculateHistoricalVolatility (ohlcv : list OHLCV.t) (lookback : nat) : float64 :=
  let lookback := if (length ohlcv <? lookback + 1)%nat then (length ohlcv - 1)%nat else lookback in
  if (lookback <? 2)%nat then f0
  else
    let returns := guarded_returns (drop (length ohlcv - lookback - 1) (closes ohlcv)) in
    (sample_vol returns * f64_of_Z 16)%f64.

Definition detectVolatility (rd : RegimeConfig) (ohlcv : list OHLCV.t) : bytes :=
  if (length ohlcv <? volLookback rd)%nat then lit "medium"
  else
    let recentVol := calculateHistoricalVolatility ohlcv 20 in
    let longTermVol := calculateHistoricalVolatility ohlcv (volLookback rd) in
    if (longTermVol =? f0)%f64 then lit "medium"
    else
      let ratio := (recentVol / longTermVol)%f64 in
      if (ratio >? flit 15 1)%f64 then lit "high"
      else if (ratio <? flit 7 1)%f64 then lit "low" else lit "medium".

Definition close_at (ohlcv : list OHLCV.t) (i : nat) : float64 := default f0 (closes ohlcv !! i).

Definition calculateMomentum (ohlcv : list OHLCV.t) (period : nat) : float64 :=
  let period := if (length ohlcv <? period + 1)%nat then (length ohlcv - 1)%nat else period in
  if (period <? 1)%nat then f0
  else
    let currentPrice := close_at ohlcv (length ohlcv - 1) in
    let oldPrice := close_at ohlcv (length ohlcv - 1 - period) in
    if (oldPrice <=? f0)%f64 then f0 else ((currentPrice - oldPrice) / oldPrice)%f64.

Definition calculateTrendStrength (rd : RegimeConfig) (ohlcv : list OHLCV.t) : float64 :=
  if (length ohlcv <? slowMAPeriod rd)%nat then f0
  else
    let fastMA := calculateMA ohlcv (fastMAPeriod rd) in
    let slowMA := calculateMA ohlcv (slowMAPeriod rd) in
    if (slowMA <=? f0)%f64 then f0
    else
      let strength := (Abs (fastMA - slowMA) / slowMA)%f64 in
      let strength := if (strength >? flit 2 1)%f64 then flit 2 1 else strength in
      (strength / flit 2 1)%f64.

Definition clamp1 (x : float64) : float64 :=
  let x := if (x >? f1)%f64 then f1 else x in if (x <? fneg f1)%f64 then fneg f1 else x.

Definition calculateSentiment (rd : RegimeConfig) (ohlcv : list OHLCV.t) (trend volatility : bytes) : float64 :=
  let sentiment := if bool_decide (trend = lit "bull") then flit 5 1
                   else if bool_decide (trend = lit "bear") then fneg (flit 5 1) else f0 in
  let momentum := calculateMomentum ohlcv 20 in
  let sentiment := if (momentum >? flit 5 2)%f64 then (sentiment + flit 2 1)%f64
                   else if (momentum <? fneg (flit 5 2))%f64 then (sentiment - flit 2 1)%f64 else sentiment in
  let sentiment := if bool_decide (volatility = lit "high") then (sentiment - flit 15 2)%f64
                   else if bool_decide (volatility = lit "low") then (sentiment + flit 1 1)%f64 else sentiment in
  clamp1 (sentiment + calculateTrendStrength rd ohlcv * flit 3 1)%f64.

(** The volatility level the answer carries. *)
Definition final_volatility (rd : RegimeConfig) (ohlcv : list OHLCV.t) (volatility : bytes) : bytes :=
  if (length ohlcv <? volLookback rd)%nat then volatility
  else
    let longTermVol := calculateHistoricalVolatility ohlcv (volLookback rd) in
    let currentVol := calculateHistoricalVolatility ohlcv 20 in
    if (currentVol >? longTermVol * flit 15 1)%f64 then lit "high"
    else if (currentVol <? longTermVol * flit 7 1)%f64 then lit "low" else lit "medium".

Definition DetectRegime (rd : RegimeConfig) (ohlcv : list OHLCV.t) : res risk_error MarketRegime :=
  if (length ohlcv <? slowMAPeriod rd)%nat then Err (Insufficient (slowMAPeriod rd) (length ohlcv))
  else
    let trend := detectTrend rd ohlcv in
    let volatility := detectVolatility rd ohlcv in
    Ok (MkRegime trend (final_volatility rd ohlcv volatility) (calculateSentiment rd ohlcv trend volatility)).

(** ** The risk manager (manager.go) *)

Record Signal := MkSignal { sg_Symbol : bytes; sg_Strength : float64; sg_CompositeScore : float64 }.

Record PositionSize := MkSize {
  ps_Size : float64;
  ps_Weight : float64;
  ps_StopLoss : float64;
  ps_TakeProfit : float64;
  ps_RiskScore : float64
}.

Record RiskManagerConfig := MkRiskConfig {
  rm_volatility : VolatilityConfig;
  rm_stops : StopLossConfig;
  rm_regime : RegimeConfig
}.

(** The sizer's own entry point; the portfolio is its total value. *)
Definition SizerPosition (vs : VolatilityConfig) (signal : Signal) (totalValue : float64)
    (regime : option MarketRegime) (ohlcv : list OHLCV.t) : res risk_error PositionSize :=
  match CalculateVolatility vs ohlcv with
  | Err e => Err e
  | Ok currentVol =>
      let weight := CalculatePositionWeight vs currentVol regime in
      let weight := if (sg_Strength signal >? f0)%f64 && (sg_Strength signal <=? f1)%f64
                    then (weight * sg_Strength signal)%f64 else weight in
      let weight := if (weight <? minPositionWeight vs)%f64 then minPositionWeight vs else weight in
      let weight := if (weight >? maxPositionWeight vs)%f64 then maxPositionWeight vs else weight in
      let latestPrice := close_at ohlcv (length ohlcv - 1) in
      Ok (MkSize (NormalizeOrderQuantity (totalValue * weight / latestPrice)%f64 (sg_Symbol signal)) weight f0 f0
            (f1 - sg_Strength signal)%f64)
  end.

Definition calculateBaseWeightFromRegime (rm : RiskManagerConfig) (regime : MarketRegime) : float64 :=
  let base := targetVolatility (rm_volatility rm) in
  let base := if bool_decide (Volatility regime = lit "high") then (base * flit 5 1)%f64
              else if bool_decide (Volatility regime = lit "low") then (base * flit 12 1)%f64 else base in
  let base := if bool_decide (Trend regime = lit "bull") then (base * flit 11 1)%f64
              else if bool_decide (Trend regime = lit "bear") then (base * flit 7 1)%f64 else base in
  if (base >? maxPositionWeight (rm_volatility rm))%f64 then maxPositionWeight (rm_volatility rm) else base.

(** The weight of a signal within the configured bounds. *)
Definition bounded_weight (rm : RiskManagerConfig) (weight : float64) : float64 :=
  let weight := if (weight <? minPositionWeight (rm_volatility rm))%f64
                then minPositionWeight (rm_volatility rm) else weight in
  if (weight >? maxPositionWeight (rm_volatility rm))%f64 then maxPositionWeight (rm_volatility rm) else weight.

Definition or_hundred (price : float64) : float64 := if (price <=? f0)%f64 then f64_of_Z 100 else price.

Definition default_regime : MarketRegime := MkRegime (lit "sideways") (lit "medium") f0.

Definition CalculatePosition (rm : RiskManagerConfig) (signal : Signal) (portfolio : option float64)
    (regime : option MarketRegime) (currentPrice : float64) (ohlcv : list OHLCV.t) : res risk_error PositionSize :=
  if bool_decide (sg_Symbol signal = []) then Err SymbolMissing
  else match portfolio with
  | None => Err PortfolioInvalid
  | Some totalValue =>
  if (totalValue <=? f0)%f64 then Err PortfolioInvalid
  else
    let regime := default default_regime regime in
    let weight := bounded_weight rm (calculateBaseWeightFromRegime rm regime * sg_Strength signal)%f64 in
    let positionValue := (totalValue * weight)%f64 in
    let currentPrice := or_hundred currentPrice in
    let size := NormalizeOrderQuantity (positionValue / currentPrice)%f64 (sg_Symbol signal) in
    let atr :=
      if (atrPeriod (rm_stops rm) <=? length ohlcv)%nat
      then match CalculateATR (rm_stops rm) ohlcv with
           | Ok atr => if (atr >? f0)%f64 then atr else default_atr currentPrice
           | Err _ => default_atr currentPrice
           end
      else default_atr currentPrice in
    let '(stopLoss, takeProfit) := GetStopLossLevels (rm_stops rm) currentPrice atr (Some regime) in
    Ok (MkSize size weight stopLoss takeProfit (f1 - sg_CompositeScore signal)%f64)
  end.

(** One signal of the batch. *)
Definition batch_size (rm : RiskManagerConfig) (totalValue baseWeight : float64) (regime : MarketRegime)
    (currentPrices : gmap bytes float64) (ohlcvData : gmap bytes (list OHLCV.t)) (precomputedATR : gmap bytes float64)
    (signal : Signal) : PositionSize :=
  let weight := bounded_weight rm (baseWeight * sg_Strength signal)%f64 in
  let currentPrice := or_hundred (default f0 (currentPrices !! sg_Symbol signal)) in
  let positionValue := (totalValue * weight)%f64 in
  let size := NormalizeOrderQuantity (positionValue / currentPrice)%f64 (sg_Symbol signal) in
  let ohlcv := default [] (ohlcvData !! sg_Symbol signal) in
  let atr := default f0 (precomputedATR !! sg_Symbol signal) in
  let atr :=
    if (atr >? f0)%f64 then atr
    else if (atrPeriod (rm_stops rm) <=? length ohlcv)%nat
    then match CalculateATR (rm_stops rm) ohlcv with
         | Ok calculated => if (calculated >? f0)%f64 then calculated else default_atr currentPrice
         | Err _ => default_atr currentPrice
         end
    else default_atr currentPrice in
  let '(stopLoss, takeProfit) := GetStopLossLevels (rm_stops rm) currentPrice atr (Some regime) in
  MkSize size weight stopLoss takeProfit (f1 - sg_CompositeScore signal)%f64.

(** [CalculatePositionsBatch]: [None] is the nil map; a nil regime is
    dereferenced. *)
Definition CalculatePositionsBatch (rm : RiskManagerConfig) (signals : list Signal) (portfolio : option float64)
    (regime : option MarketRegime) (currentPrices : gmap bytes float64) (ohlcvData : gmap bytes (list OHLCV.t))
    : res risk_error (option (gmap bytes PositionSize)) :=
  match signals with
  | [] => Ok None
  | _ =>
      match portfolio with
      | None => Err PortfolioInvalid
      | Some totalValue =>
      if (totalValue <=? f0)%f64 then Err PortfolioInvalid
      else match regime with
           | None => Err RuntimePanic
           | Some regime =>
               let baseWeight := calculateBaseWeightFromRegime rm regime in
               let precomputedATR := ATRFromOHLCV (rm_stops rm) ohlcvData in
               Ok (Some (foldl (fun results signal =>
                 if bool_decide (sg_Symbol signal = []) then results
                 else <[sg_Symbol signal :=
                          batch_size rm totalValue baseWeight regime currentPrices ohlcvData precomputedATR signal]> results)
                 ∅ signals))
           end
      end
  end.

Definition pnl_step (prices : gmap bytes float64) (st : float64 * Z) (pos : Position.t) : float64 * Z :=
  match prices !! Position.Symbol pos with
  | None => st
  | Some currentPrice =>
      ((fst st + (currentPrice - Position.AvgCost pos) / Position.AvgCost pos)%f64, snd st + 1)
  end.

Definition InferRegimeFromMarket (positions : list Position.t) (prices : gmap bytes float64) : MarketRegime :=
  let '(totalPnL, count) := foldl (pnl_step prices) (f0, 0) positions in
  if count =? 0 then default_regime
  else
    let avgPnL := (totalPnL / f64_of_Z count)%f64 in
    if (avgPnL >? flit 2 2)%f64 then MkRegime (lit "bull") (lit "medium") (flit 5 1)
    else if (avgPnL <? fneg (flit 2 2))%f64 then MkRegime (lit "bear") (lit "medium") (fneg (flit 5 1))
    else default_regime.

(** [RiskManager.CheckStopLoss]: the ATR is two percent of the price. *)
Definition ManagerCheckStopLoss (rm : RiskManagerConfig) (positions : list Position.t) (prices : gmap bytes float64)
    : res risk_error (list StopLossEvent) :=
  match positions with
  | [] => Ok []
  | _ =>
      if bool_decide (prices = ∅) then Err PricesEmpty
      else
        let atrData := foldl (fun m pos => match prices !! Position.Symbol pos with
                                           | Some p => <[Position.Symbol pos := default_atr p]> m
                                           | None => m end) ∅ positions in
        Ok (CheckStopLossWithRegime (rm_stops rm) positions prices atrData
              (Some (InferRegimeFromMarket positions prices)))
  end.
End Returns.

(** ** Value at risk (var.go) *)

Record VaRResult := MkVaR { VaR : float64; CVaR : float64; VaRPct : float64; CVaRPct : float64 }.

Definition CalculateVaR `{GoSort} (returns : list float64) (confidence portfolioValue : float64) : res risk_error VaRResult :=
  if (length returns <? 30)%nat then Err (Insufficient 30 (length returns))
  else if (confidence <? flit 90 2)%f64 || (confidence >? flit 999 3)%f64 then Err (ConfidenceOutOfRange confidence)
  else if (portfolioValue <=? f0)%f64 then Err (ValueNotPositive portfolioValue)
  else
    let tailProb := (f1 - confidence)%f64 in
    let percentile := Percentile returns tailProb in
    let tail := List.filter (fun r => r <=? percentile)%f64 returns in
    let cvarPerUnit := if (length tail =? 0)%nat then f0 else (foldl fadd f0 tail / f64_of_nat (length tail))%f64 in
    let varPct := fneg percentile in
    let cvarPct := fneg cvarPerUnit in
    Ok (MkVaR (varPct * portfolioValue)%f64 (cvarPct * portfolioValue)%f64 varPct cvarPct).
