(* ===== verification/RiskProps.v ===== *)
(** * RiskProps: what the risk rules guarantee

    Sizing signals one by one and in a batch agree; the tiers of a
    take-profit rule fire once each and in order when their state is shared
    and over and over when it is not; and the behaviours of the detector, the
    average true range and the trailing rule that contradict their
    comments. *)

From stdpp Require Import base list strings gmap sorting.
From Stdlib Require Import ZArith Lia Ascii SpecFloat.
From S2P Require Import Prelude GoMap GoFloat FloatInt FloatRound FloatError ShareLedger ExprEval Domain MarketRules ExitRules RiskManager.

Open Scope Z_scope.

(** ** Sizing in a batch and one by one *)

Lemma ATRFromOHLCV_lookup slc data s :
  default f0 (ATRFromOHLCV slc data !! s)
  = match data !! s with
    | Some bars => match CalculateATR slc bars with Ok atr => atr | Err _ => f0 end
    | None => f0
    end.
Proof.
  unfold ATRFromOHLCV. rewrite lookup_omap. destruct (data !! s) as [bars|]; simpl; [|done].
  by destruct (CalculateATR slc bars).
Qed.

Lemma batch_atr slc data s price :
  let ohlcv := default [] (data !! s) in
  let calculated :=
    if (atrPeriod slc <=? length ohlcv)%nat
    then match CalculateATR slc ohlcv with
         | Ok atr => if (atr >? f0)%f64 then atr else default_atr price
         | Err _ => default_atr price
         end
    else default_atr price in
  (if (default f0 (ATRFromOHLCV slc data !! s) >? f0)%f64
   then default f0 (ATRFromOHLCV slc data !! s) else calculated) = calculated.
Proof.
  cbv zeta. rewrite ATRFromOHLCV_lookup. destruct (data !! s) as [bars|]; simpl; [|by rewrite ?flt_irrefl].
  destruct (CalculateATR slc bars) as [atr|e] eqn:E; [|by rewrite ?flt_irrefl].
  destruct (flt f0 atr) eqn:Ea; [|done].
  unfold CalculateATR in E. destruct (length bars <? atrPeriod slc)%nat eqn:En; [discriminate|].
  apply Nat.ltb_ge in En. by rewrite (proj2 (Nat.leb_le _ _) En).
Qed.

Lemma batch_size_single rm tv regime prices data signal :
  sg_Symbol signal <> [] -> fle tv f0 = false ->
  CalculatePosition rm signal (Some tv) (Some regime)
    (default f0 (prices !! sg_Symbol signal)) (default [] (data !! sg_Symbol signal))
  = Ok (batch_size rm tv (calculateBaseWeightFromRegime rm regime) regime prices data
          (ATRFromOHLCV (rm_stops rm) data) signal).
Proof.
  intros Hs Htv. unfold CalculatePosition, batch_size. rewrite bool_decide_false by done. rewrite Htv.
  cbn [default]. cbv zeta.
  pose proof (batch_atr (rm_stops rm) data (sg_Symbol signal) (or_hundred (default f0 (prices !! sg_Symbol signal)))) as E.
  cbv zeta in E. rewrite E. reflexivity.
Qed.

(** The last signal of a symbol. *)
Definition last_signal (s : bytes) (signals : list Signal) : option Signal :=
  last (List.filter (fun sg => bool_decide (sg_Symbol sg = s)) signals).

Lemma fold_last (f : Signal -> PositionSize) (signals : list Signal) : forall (acc : gmap bytes PositionSize) s,
  s <> [] ->
  foldl (fun results sg => if bool_decide (sg_Symbol sg = []) then results else <[sg_Symbol sg := f sg]> results)
    acc signals !! s
  = match last_signal s signals with Some sg => Some (f sg) | None => acc !! s end.
Proof.
  intros acc s Hs. revert acc. induction signals as [|sg l IH] using rev_ind; intros acc; [done|].
  rewrite foldl_app. unfold last_signal. rewrite List.filter_app. cbn [foldl List.filter].
  case_bool_decide as E0; case_bool_decide as E1.
  - congruence.
  - rewrite app_nil_r. apply IH.
  - subst s. by rewrite lookup_insert_eq, last_snoc.
  - rewrite lookup_insert_ne by done. rewrite app_nil_r. apply IH.
Qed.

Lemma fold_no_empty (f : Signal -> PositionSize) (signals : list Signal) : forall acc : gmap bytes PositionSize,
  foldl (fun results sg => if bool_decide (sg_Symbol sg = []) then results else <[sg_Symbol sg := f sg]> results)
    acc signals !! [] = acc !! [].
Proof.
  induction signals as [|sg l IH]; intros acc; [done|]. cbn [foldl]. rewrite IH.
  case_bool_decide; [done|]. by rewrite lookup_insert_ne by congruence.
Qed.

Lemma last_signal_symbol s signals sg : last_signal s signals = Some sg -> sg_Symbol sg = s.
Proof.
  intros E. unfold last_signal in E. apply last_Some in E as [l E].
  assert (In sg (List.filter (fun sg => bool_decide (sg_Symbol sg = s)) signals)) as Hin
    by (rewrite E; apply in_or_app; right; by left).
  apply filter_In in Hin as [_ Hin]. by apply bool_decide_eq_true in Hin.
Qed.

(** Sizing a batch of signals gives every symbol exactly the position that
    sizing its last signal alone gives, bit for bit: weight, quantity, stop,
    target and score, with or without history and prices; signals without a
    symbol are left out, and nothing else is in the result. Only a missing
    market regime separates the two: alone it stands for a sideways market,
    in a batch it is a nil dereference. *)
Theorem batch_matches_single rm signals tv regime prices data :
  signals <> [] -> fle tv f0 = false ->
  (exists results, CalculatePositionsBatch rm signals (Some tv) (Some regime) prices data = Ok (Some results)
   /\ results !! [] = None
   /\ forall s, s <> [] ->
        match last_signal s signals with
        | None => results !! s = None
        | Some sg => exists ps, results !! s = Some ps
            /\ CalculatePosition rm sg (Some tv) (Some regime) (default f0 (prices !! s)) (default [] (data !! s)) = Ok ps
        end)
  /\ CalculatePositionsBatch rm signals (Some tv) None prices data = Err RuntimePanic
  /\ (forall sg price bars, CalculatePosition rm sg (Some tv) None price bars
                            = CalculatePosition rm sg (Some tv) (Some default_regime) price bars).
Proof.
  intros Hne Htv. unfold CalculatePositionsBatch. destruct signals as [|sg0 rest]; [done|]. rewrite Htv.
  split; [|split; [done|done]]. eexists. split; [reflexivity|]. split; [apply fold_no_empty|].
  intros s Hs. rewrite fold_last by done. destruct (last_signal s (sg0 :: rest)) as [sg|] eqn:El; [|apply lookup_empty].
  eexists. split; [reflexivity|]. pose proof (last_signal_symbol _ _ _ El) as <-. by apply batch_size_single.
Qed.

(** ** Take-profit tiers *)

Definition last_key : bytes := lit "tiered_last_triggered".

(** A run of evaluations of one rule on the successive states of a position
    that keeps its metadata: the levels that fired. *)
Fixpoint tier_run (tiers : list TakeProfitTier) (meta : option nat) (evals : list (Position.t * float64)) (h : heap)
    : list Z * heap :=
  match evals with
  | [] => ([], h)
  | (pos, price) :: rest =>
      let '(a, h) := TieredEvaluate tiers (MkHeld pos meta) price h in
      let '(ls, h) := tier_run tiers meta rest h in
      (match a with Some a => ac_Level a :: ls | None => ls end, h)
  end.

Lemma tiered_cases tiers p price h a h' :
  TieredEvaluate tiers p price h = (a, h') ->
  let last := match as_float (meta_of p h !! last_key) with Some f => f64_to_int64 f | None => -1 end in
  let next := wrap64 (last + 1) in
  match a with
  | None => h' = h
  | Some a => ac_Level a = next + 1 /\ 0 <= next < Z.of_nat (length tiers)
              /\ h' = meta_write p last_key (MFloat (f64_of_Z next)) h
  end.
Proof.
  unfold TieredEvaluate. cbv zeta. destruct (_ || _ || _)%bool; [by intros [= <- <-]|].
  set (next := wrap64 _). destruct ((next <? 0) || (Z.of_nat (length tiers) <=? next)) eqn:Er; [by intros [= <- <-]|].
  apply orb_false_iff in Er as [E1 E2]. bool_to_prop.
  destruct (tiers !! Z.to_nat next) as [tier|]; [|by intros [= <- <-]].
  destruct (price <? _)%f64; [by intros [= <- <-]|]. intros [= <- <-]. split; [done|]. split; [lia|done].
Qed.

(** [k] levels have fired on the shared map at [a]. *)
Definition fired (a : nat) (k : Z) (h : heap) : Prop :=
  default ∅ (h !! a) !! last_key = if k =? 0 then None else Some (MFloat (f64_of_Z (k - 1))).

Lemma fired_next p a k h :
  hp_meta p = Some a -> fired a k h -> 0 <= k < 2 ^ 53 ->
  wrap64 (match as_float (meta_of p h !! last_key) with Some f => f64_to_int64 f | None => -1 end + 1) = k.
Proof.
  intros Hm Hf Hk. unfold meta_of. rewrite Hm. unfold fired in Hf. rewrite Hf.
  destruct (k =? 0) eqn:E; bool_to_prop; cbn [as_float]; [subst k; reflexivity|].
  rewrite int64_of_whole by lia. replace (k - 1 + 1) with k by lia. apply wrap64_id. int64_unfold. lia.
Qed.

Lemma tier_run_shared tiers a evals : forall k h,
  Z.of_nat (length tiers) < 2 ^ 53 -> 0 <= k <= Z.of_nat (length tiers) -> fired a k h ->
  fst (tier_run tiers (Some a) evals h) = seqZ (k + 1) (Z.of_nat (length (fst (tier_run tiers (Some a) evals h))))
  /\ k + Z.of_nat (length (fst (tier_run tiers (Some a) evals h))) <= Z.of_nat (length tiers).
Proof.
  induction evals as [|[pos price] rest IH]; intros k h Hlen Hk Hf; [simpl; split; [done|lia]|]. cbn [tier_run].
  destruct (TieredEvaluate tiers (MkHeld pos (Some a)) price h) as [act h1] eqn:E.
  pose proof (tiered_cases _ _ _ _ _ _ E) as Hc. cbv zeta in Hc.
  rewrite (fired_next (MkHeld pos (Some a)) a k h eq_refl Hf) in Hc by lia. destruct act as [act|].
  - destruct Hc as (Hl & Hn & ->). specialize (IH (k + 1) (meta_write (MkHeld pos (Some a)) last_key (MFloat (f64_of_Z k)) h)).
    destruct (tier_run tiers (Some a) rest _) as [ls h2]. cbn [fst] in *.
    destruct IH as [IH1 IH2]; [lia|lia| |].
    + unfold fired, meta_write. simpl. rewrite lookup_insert_eq. simpl. rewrite lookup_insert_eq.
      replace (k + 1 =? 0) with false by lia. by replace (k + 1 - 1) with k by lia.
    + cbn [length]. rewrite Hl, Nat2Z.inj_succ, seqZ_cons by lia.
      replace (Z.pred (Z.succ _)) with (Z.of_nat (length ls)) by lia. split; [|lia].
      f_equal. rewrite IH1 at 1. by f_equal.
  - subst h1. specialize (IH k h Hlen Hk Hf). by destruct (tier_run tiers (Some a) rest h) as [ls h2].
Qed.

Lemma tier_run_lost tiers evals h : Forall (fun l => l = 1) (fst (tier_run tiers None evals h)).
Proof.
  revert h. induction evals as [|[pos price] rest IH]; intros h; [constructor|]. cbn [tier_run].
  destruct (TieredEvaluate tiers (MkHeld pos None) price h) as [act h1] eqn:E.
  pose proof (tiered_cases _ _ _ _ _ _ E) as Hc. cbv zeta in Hc. specialize (IH h1).
  destruct (tier_run tiers None rest h1) as [ls h2]. destruct act as [act|]; [|exact IH].
  destruct Hc as (Hl & _ & _). constructor; [|exact IH]. rewrite Hl. reflexivity.
Qed.

(** The tiers of a take-profit rule fire in order. Evaluated any number of
    times on a position whose metadata map is shared from call to call, at
    any prices and quantities, the levels that fire are 1, 2, 3, ... without
    gaps or repetitions, and at most one per tier. On a position without a
    metadata map the mark is written into a map of the rule's own and lost:
    every firing is level 1. *)
Theorem tiers_fire_in_order tiers evals a h :
  Z.of_nat (length tiers) < 2 ^ 53 -> default ∅ (h !! a) !! last_key = None ->
  let levels := fst (tier_run tiers (Some a) evals h) in
  levels = seqZ 1 (Z.of_nat (length levels)) /\ (length levels <= length tiers)%nat
  /\ Forall (fun l => l = 1) (fst (tier_run tiers None evals h)).
Proof.
  intros Hlen Hnone. destruct (tier_run_shared tiers a evals 0 h Hlen ltac:(lia) Hnone) as [H1 H2].
  cbv zeta. split; [exact H1|]. split; [lia|]. apply tier_run_lost.
Qed.

(** ** The trailing rule *)

Definition armed_key : bytes := lit "trailing_activated".

(** No metadata map is marked as activated. *)
Definition disarmed (h : heap) : Prop := forall a m, h !! a = Some m -> as_bool (m !! armed_key) = false.

Lemma meta_write_disarmed p k v h : k <> armed_key -> disarmed h -> disarmed (meta_write p k v h).
Proof.
  intros Hk Hh a m. unfold meta_write. destruct (hp_meta p) as [b|]; [|apply Hh].
  destruct (decide (a = b)) as [->|Hne]; [|rewrite lookup_insert_ne by done; apply Hh].
  rewrite lookup_insert_eq. intros [= <-]. rewrite lookup_insert_ne by done.
  destruct (h !! b) as [m|] eqn:E; simpl; [by apply (Hh b)|by rewrite lookup_empty].
Qed.

Lemma meta_disarmed p h : disarmed h -> as_bool (meta_of p h !! armed_key) = false.
Proof.
  intros Hh. unfold meta_of. destruct (hp_meta p) as [a|]; [|by rewrite lookup_empty].
  destruct (h !! a) as [m|] eqn:E; simpl; [by apply (Hh a)|by rewrite lookup_empty].
Qed.

Lemma Evaluate_disarmed rule p price h :
  disarmed h ->
  disarmed (snd (Evaluate rule p price h))
  /\ match fst (Evaluate rule p price h) with Some a => ac_Rule a <> lit "trailing" | None => True end.
Proof.
  intros Hh. destruct rule as [pct|act trail|tiers]; cbn [Evaluate fst snd].
  - split; [done|]. unfold FixedEvaluate. destruct (_ || _)%bool; [done|]. cbv zeta. by destruct (price <? _)%f64.
  - unfold TrailingEvaluate. destruct (_ || _)%bool; [done|]. cbv zeta.
    fold armed_key. by rewrite (meta_disarmed p h Hh).
  - destruct (TieredEvaluate tiers p price h) as [a h'] eqn:E. pose proof (tiered_cases _ _ _ _ _ _ E) as Hc.
    cbv zeta in Hc. cbn [fst snd]. destruct a as [a|]; [|by subst].
    destruct Hc as (_ & _ & ->). split; [by apply meta_write_disarmed|].
    unfold TieredEvaluate in E. destruct (_ || _ || _)%bool; [discriminate|]. cbv zeta in E.
    destruct (_ || _)%bool; [discriminate|]. destruct (tiers !! _); [|discriminate].
    destruct (price <? _)%f64; [discriminate|]. by injection E as <-.
Qed.

Definition quiet (st : list TakeProfitAction * heap) : Prop :=
  disarmed (snd st) /\ Forall (fun a => ac_Rule a <> lit "trailing") (fst st).

Lemma check_step_quiet c prices st p : quiet st -> quiet (check_step c prices st p).
Proof.
  destruct st as [acts h]. intros Hq. unfold check_step. case_if; [exact Hq|].
  destruct (GetRule _ c) as [rule|]; [|exact Hq]. destruct (prices !! Position.Symbol (hp_pos p)) as [price|]; [|exact Hq].
  case_if; [exact Hq|]. destruct Hq as [Hh Ha]. cbn [fst snd] in *.
  destruct (Evaluate_disarmed rule p price h Hh) as [H1 H2]. destruct (Evaluate rule p price h) as [a h'].
  cbn [fst snd] in *. split; [exact H1|]. cbn [fst].
  destruct a as [a|]; [|exact Ha]. apply Forall_app. split; [exact Ha|]. by constructor.
Qed.

Lemma check_quiet c prices positions st : quiet st -> quiet (foldl (check_step c prices) st positions).
Proof. revert st. induction positions as [|p ps IH]; intros st Hq; [done|]. apply IH. by apply check_step_quiet. Qed.

(** A sequence of checks, each with its own rules, positions and prices. *)
Fixpoint check_run (sort_actions : list TakeProfitAction -> list TakeProfitAction)
    (checks : list (TakeProfitChecker * list held_position * gmap bytes float64)) (h : heap)
    : list TakeProfitAction * heap :=
  match checks with
  | [] => ([], h)
  | (c, ps, prices) :: rest =>
      let '(acts, h) := Check sort_actions c ps prices h in
      let '(more, h) := check_run sort_actions rest h in (acts ++ more, h)
  end.

(** A trailing take profit never fires. The rule waits for a mark that
    neither it nor the checker ever sets: over any sequence of checks, with
    any rules, positions, prices and metadata in which the mark is not
    already there, no action comes from a trailing rule. *)
Theorem trailing_rule_never_fires sort_actions checks h :
  (forall l, sort_actions l ≡ₚ l) -> disarmed h ->
  Forall (fun a => ac_Rule a <> lit "trailing") (fst (check_run sort_actions checks h)).
Proof.
  intros Hsort. revert h. induction checks as [|[[c ps] prices] rest IH]; intros h Hh; [constructor|]. cbn [check_run].
  unfold Check. destruct (check_quiet c prices ps ([], h) (conj Hh (List.Forall_nil _))) as [H1 H2].
  destruct (foldl (check_step c prices) ([], h) ps) as [acts h1]. cbn [fst snd] in *. specialize (IH h1 H1).
  destruct (check_run sort_actions rest h1) as [more h2]. cbn [fst] in *. apply Forall_app. split; [|done].
  by rewrite Hsort.
Qed.

(** ** The average true range *)

Lemma true_ranges_length bars : length (true_ranges bars) = (length bars - 1)%nat.
Proof.
  induction bars as [|a [|b rest] IH]; [done|done|]. cbn [true_ranges length] in *. rewrite IH. lia.
Qed.

Lemma f0_whole : f0 = f64_of_Z 0.
Proof. reflexivity. Qed.

Lemma sum_replicate r k : forall a,
  0 <= a -> 0 < r -> a + r * Z.of_nat k < 2 ^ 53 ->
  foldl fadd (f64_of_Z a) (replicate k (f64_of_Z r)) = f64_of_Z (a + r * Z.of_nat k).
Proof.
  induction k as [|k IH]; intros a Ha Hr Hlt; cbn [replicate foldl]; [f_equal; lia|].
  rewrite fadd_whole by whole. rewrite IH by lia. f_equal. lia.
Qed.

(** A quotient near r n / (n+1) in relative terms is below r. *)
Lemma below_from_near n r U Q :
  0 < r -> 0 < n -> n < 2 ^ 52 -> 0 < U -> 
  Z.abs (Q * ((n + 1) * U) - r * n * U * U) * 2 ^ 52 <= r * n * U * U -> Q < r * U.
Proof.
  intros Hr Hn Hn2 HU Hq.
  assert (Q * ((n + 1) * U) * 2 ^ 52 <= r * n * U * U * (2 ^ 52 + 1)) as H1.
  { revert Hq. generalize (Q * ((n + 1) * U)) (r * n * U * U). intros A X. lia. }
  assert (r * n * U * U * (2 ^ 52 + 1) < r * U * ((n + 1) * U) * 2 ^ 52) as H2.
  { replace (r * n * U * U * (2 ^ 52 + 1)) with (r * U * U * (n * 2 ^ 52 + n)) by ring.
    replace (r * U * ((n + 1) * U) * 2 ^ 52) with (r * U * U * (n * 2 ^ 52 + 2 ^ 52)) by ring.
    apply Z.mul_lt_mono_pos_l; [|lia]. repeat apply Z.mul_pos_pos; lia. }
  apply (Z.mul_lt_mono_pos_r ((n + 1) * U)); [apply Z.mul_pos_pos; lia|].
  revert H1 H2. generalize (Q * ((n + 1) * U)) (r * U * ((n + 1) * U)) (r * n * U * U * (2 ^ 52 + 1)). intros A X Y. lia.
Qed.

Lemma quotient_below n d r :
  0 < r -> 0 < n -> n < 2 ^ 52 -> r * n < 2 ^ 53 -> d = n + 1 -> flt (f64_of_Z (r * n) / f64_of_Z d)%f64 (f64_of_Z r) = true.
Proof.
  intros Hr Hn Hn2 Hrn ->. assert (r < 2 ^ 53) by nia.
  assert (forall z, 0 < z < 2 ^ 53 -> fvalid (f64_of_Z z) = true /\ ffinite (f64_of_Z z) = true
            /\ fmag (f64_of_Z z) = z * 2 ^ 1074) as Hw.
  { intros z Hz. split; [apply fvalid_of_Z|]. split; [apply ffinite_whole; whole|apply fmag_whole; whole]. }
  destruct (Hw (r * n) ltac:(nia)) as (Vx & Fx & Mx). destruct (Hw (n + 1) ltac:(lia)) as (Vy & Fy & My).
  destruct (Hw r ltac:(lia)) as (Vr & Fr & Mr).
  assert (0 < 2 ^ 1074) as HU by (apply Z.pow_pos_nonneg; lia).
  assert (2 ^ 53 <= 2 ^ 900) as HP by (apply Z.pow_le_mono_r; lia).
  destruct (fdiv_near (f64_of_Z (r * n)) (f64_of_Z (n + 1)) Vx Vy Fx Fy) as (Vq & Fq & Pq & Hq).
  { rewrite Mx. nia. }
  { rewrite My. nia. }
  { rewrite Mx, My. assert (n + 1 <= r * n * 2 ^ 900) by nia. nia. }
  { rewrite Mx, My. assert (r * n <= (n + 1) * 2 ^ 900) by nia. nia. }
  apply flt_fmag; [done..|]. rewrite Mr. rewrite Mx, My in Hq. unfold ulp1 in Hq.
  by apply (below_from_near n r).
Qed.

(** The average true range is too small. The buffer has one slot more than
    the period and the mean divides by all slots: on a market whose last
    [p] true ranges are all r, the result is r p / (p + 1), below r, where
    the comment promises the mean over the period. *)
Theorem atr_is_too_small slc bars r
    (p := atrPeriod slc) (trs := true_ranges (drop (length bars - p - 1) bars)) :
  (0 < p < length bars)%nat -> Z.of_nat p < 2 ^ 52 -> 0 < r -> r * Z.of_nat p < 2 ^ 53 ->
  Forall (fun tr => tr = f64_of_Z r) trs ->
  exists atr, CalculateATR slc bars = Ok atr
    /\ atr = (f64_of_Z (r * Z.of_nat p) / f64_of_Z (Z.of_nat p + 1))%f64
    /\ flt atr (f64_of_Z r) = true.
Proof.
  intros Hp Hp2 Hr Hrp Hall. eexists. split; [|split; [reflexivity|by apply quotient_below; [lia|lia| | |]]].
  unfold CalculateATR. rewrite (proj2 (Nat.ltb_ge _ _)) by (fold p; lia). cbv zeta. fold p. fold trs.
  assert (length trs = p) as Hlen by (unfold trs; rewrite true_ranges_length, length_drop; lia).
  assert (trs = replicate p (f64_of_Z r)) as ->.
  { rewrite <- Hlen. symmetry. apply replicate_as_elem_of. split; [done|]. intros x Hx. by rewrite Forall_forall in Hall; apply Hall. }
  rewrite length_replicate. replace (p + 1 - p)%nat with 1%nat by lia. rewrite foldl_app, f0_whole.
  rewrite sum_replicate by lia. cbn [replicate foldl]. rewrite fadd_whole by whole.
  rewrite Nat2Z.inj_add, !Z.add_0_l, Z.add_0_r. reflexivity.
Qed.

(** ** The trend of the last twenty closes *)

Lemma fdiv_sign x y : flt f0 y = true -> is_nan (x / y)%f64 = true \/ signbit (x / y)%f64 = signbit x.
Proof.
  intros Hy. destruct x as [sx|sx| |sx mx ex], y as [[]|[]| |[] my ey]; try discriminate Hy;
    unfold fdiv, SFdiv; rewrite ?xorb_false_r; auto.
  pose proof (div_core_spec mx ex my ey) as Hd. destruct (SFdiv_core_binary _ _ _ _ _ _) as [[q e] l].
  destruct Hd as (Hq & _ & _ & He). destruct (round_aux_enc sx q e l Hq He) as (m2 & _ & Hr & ->).
  right. unfold enc. destruct m2; [done| |by destruct Hr; lia]. by destruct (_ =? _), (_ <=? _).
Qed.

Lemma fdiv_sign_of s x y :
  is_nan x = true \/ signbit x = s -> flt f0 y = true -> is_nan (x / y)%f64 = true \/ signbit (x / y)%f64 = s.
Proof.
  intros Hx Hy. destruct (fdiv_sign x y Hy) as [Hn|Hs]; [by left|]. destruct Hx as [Hx|Hx]; [|right; congruence].
  left. destruct x; try discriminate. by destruct y.
Qed.

Lemma sign_not_pos x : is_nan x = true \/ signbit x = true -> flt f0 x = false.
Proof. destruct x as [[]|[]| |[]]; intros [Hx|Hx]; try discriminate; done. Qed.

Lemma sign_not_neg x : is_nan x = true \/ signbit x = false -> flt x f0 = false.
Proof. destruct x as [[]|[]| |[]]; intros [Hx|Hx]; try discriminate; done. Qed.

(** The sums of [Slope] over whole numbers. *)
Definition zslope_step (st : Z * (Z * Z * Z * Z)) (v : Z) : Z * (Z * Z * Z * Z) :=
  let '(i, (sx, sy, sxy, sx2)) := st in (i + 1, (sx + i, sy + v, sxy + i * v, sx2 + i * i)).

Definition fsums (s : Z * Z * Z * Z) : float64 * float64 * float64 * float64 :=
  let '(sx, sy, sxy, sx2) := s in (f64_of_Z sx, f64_of_Z sy, f64_of_Z sxy, f64_of_Z sx2).

Lemma fmul_index i v : 0 <= i < 20 -> 0 < v < 2 ^ 40 -> (f64_of_Z i * f64_of_Z v)%f64 = f64_of_Z (i * v).
Proof.
  intros Hi Hv. destruct (decide (i = 0)) as [->|Hne].
  - change (f64_of_Z 0) with (S754_zero false). destruct v as [|v|v]; [lia| |lia]. rewrite f64_of_Z_pos by lia. reflexivity.
  - apply fmul_whole; [lia|lia|whole|whole|]. assert (i * v < 20 * 2 ^ 40) by nia. unfold whole_range. nia.
Qed.

Lemma slope_fold ys : forall i sx sy sxy sx2,
  0 <= i -> i + Z.of_nat (length ys) <= 20 -> Forall (fun y => 0 < y < 2 ^ 40) ys ->
  0 <= sx <= 20 * i -> 0 <= sy <= i * 2 ^ 40 -> 0 <= sxy <= i * (20 * 2 ^ 40) -> 0 <= sx2 <= 400 * i ->
  snd (foldl slope_step (i, fsums (sx, sy, sxy, sx2)) (map f64_of_Z ys))
  = fsums (snd (foldl zslope_step (i, (sx, sy, sxy, sx2)) ys)).
Proof.
  induction ys as [|y ys IH]; intros i sx sy sxy sx2 Hi Hlen Hall H1 H2 H3 H4; [done|].
  apply Forall_cons in Hall as [Hy Hall]. cbn [map foldl length] in *. cbn [slope_step zslope_step fsums].
  assert (0 <= i * y <= 20 * 2 ^ 40) by nia. assert (0 <= i * i <= 400) by nia.
  rewrite fmul_index by lia.
  assert ((f64_of_Z i * f64_of_Z i)%f64 = f64_of_Z (i * i)) as ->.
  { destruct (decide (i = 0)) as [->|Hne]; [reflexivity|]. apply fmul_whole; try lia; whole. }
  rewrite !fadd_whole by whole. fold (fsums (sx + i, sy + y, sxy + i * y, sx2 + i * i)).
  apply IH; [lia|lia|done|lia|lia|lia|lia].
Qed.

Ltac twenty l := do 20 (destruct l as [|? l]; [discriminate|]); destruct l; [|discriminate].

Definition zsums (ys : list Z) : Z * Z * Z * Z := snd (foldl zslope_step (0, (0, 0, 0, 0)) ys).

(** Twenty times the sum of products less the product of sums. *)
Definition covariance (ys : list Z) : Z := let '(_, sy, sxy, _) := zsums ys in 20 * sxy - 190 * sy.

Lemma zsums_twenty ys :
  length ys = 20%nat -> Forall (fun y => 0 < y < 2 ^ 40) ys ->
  exists sy sxy, zsums ys = (190, sy, sxy, 2470) /\ 0 < sy < 20 * 2 ^ 40 /\ 0 < sxy < 400 * 2 ^ 40.
Proof.
  intros Hlen Hall. twenty ys. unfold zsums. cbn [foldl zslope_step snd].
  repeat (apply Forall_cons in Hall as [? Hall]). do 2 eexists. split; [reflexivity|]. lia.
Qed.

Lemma Slope_twenty ys :
  length ys = 20%nat -> Forall (fun y => 0 < y < 2 ^ 40) ys ->
  Slope (map f64_of_Z ys) = (f64_of_Z (covariance ys) / f64_of_Z 13300)%f64.
Proof.
  intros Hlen Hall. unfold Slope. rewrite length_map, Hlen. cbn [Nat.ltb Nat.leb]. cbv zeta.
  change (0, (f0, f0, f0, f0)) with (0, fsums (0, 0, 0, 0)).
  rewrite slope_fold by (rewrite ?Hlen; auto; lia). fold (zsums ys). unfold covariance.
  destruct (zsums_twenty ys Hlen Hall) as (sy & sxy & -> & Hsy & Hsxy). cbn [fsums].
  replace (f64_of_nat 20 * f64_of_Z 2470 - f64_of_Z 190 * f64_of_Z 190)%f64 with (f64_of_Z 13300) by (vm_compute; reflexivity).
  replace (f64_of_Z 13300 =? f0)%f64 with false by (vm_compute; reflexivity).
  change (f64_of_nat 20) with (f64_of_Z 20).
  rewrite !fmul_whole by (lia || whole). by rewrite fsub_whole by whole.
Qed.

Lemma slope_sign s ys :
  length ys = 20%nat -> Forall (fun y => 0 < y < 2 ^ 40) ys -> signbit (f64_of_Z (covariance ys)) = s ->
  is_nan (calculateSlope (map f64_of_Z ys)) = true \/ signbit (calculateSlope (map f64_of_Z ys)) = s.
Proof.
  intros Hlen Hall Hs. unfold calculateSlope. rewrite length_map, Hlen. cbn [Nat.ltb Nat.leb]. cbv zeta.
  rewrite Slope_twenty by done.
  assert (is_nan (f64_of_Z (covariance ys) / f64_of_Z 13300)%f64 = true
          \/ signbit (f64_of_Z (covariance ys) / f64_of_Z 13300)%f64 = s) as Hd.
  { apply fdiv_sign_of; [by right|vm_compute; reflexivity]. }
  destruct (flt f0 (Mean _)) eqn:Em; [by apply fdiv_sign_of|done].
Qed.

Lemma covariance_sign ys :
  length ys = 20%nat -> Forall (fun y => 0 < y < 2 ^ 40) ys ->
  (StronglySorted Z.gt ys -> signbit (f64_of_Z (covariance ys)) = true)
  /\ (StronglySorted Z.lt ys -> signbit (f64_of_Z (covariance ys)) = false).
Proof.
  intros Hlen Hall. destruct (zsums_twenty ys Hlen Hall) as (sy & sxy & Ez & Hsy & Hsxy).
  assert ((StronglySorted Z.gt ys -> covariance ys < 0) /\ (StronglySorted Z.lt ys -> 0 < covariance ys)) as [Hgt Hlt].
  { clear Ez Hsy Hsxy Hall. unfold covariance, zsums. twenty ys. cbn [foldl zslope_step snd].
    split; intros Hs;
      repeat match goal with
             | H : StronglySorted _ (_ :: _) |- _ => apply StronglySorted_inv in H as [H ?]
             | H : Forall _ (_ :: _) |- _ => apply Forall_cons in H as [? _]
             end; lia. }
  assert (whole_range (covariance ys)) as Hw by (unfold covariance; rewrite Ez; whole).
  split; intros Hs.
  - specialize (Hgt Hs). destruct (covariance ys) as [|q|q]; [lia|lia|]. rewrite f64_of_Z_neg by (unfold whole_range in Hw; lia). reflexivity.
  - specialize (Hlt Hs). destruct (covariance ys) as [|q|q]; [lia| |lia]. rewrite f64_of_Z_pos by (unfold whole_range in Hw; lia). reflexivity.
Qed.

Lemma recent_prices_tail bars pre zs :
  closes bars = pre ++ map f64_of_Z zs -> length zs = 20%nat -> recent_prices bars = map f64_of_Z (rev zs).
Proof.
  intros E Hlen. unfold recent_prices. rewrite E, rev_app_distr, map_rev.
  assert (length (rev (map f64_of_Z zs)) = 20%nat) as Hl by (by rewrite length_rev, length_map).
  rewrite take_app_length' by done. rewrite Hl. apply app_nil_r.
Qed.

Lemma StronglySorted_rev (R R' : Z -> Z -> Prop) l :
  (forall a b, R a b -> R' b a) -> StronglySorted R l -> StronglySorted R' (rev l).
Proof.
  intros HR. induction l as [|x l IH]; intros Hs; [constructor|]. apply StronglySorted_inv in Hs as [Hs Hx]. simpl.
  apply StronglySorted_app_2; [|by apply IH|by repeat constructor].
  intros a b Ha Hb. apply list_elem_of_singleton in Hb as ->. rewrite Forall_forall in Hx. apply HR, Hx.
  apply list_elem_of_In, in_rev, list_elem_of_In. exact Ha.
Qed.

(** The trend is read backwards. The detector lists the last twenty closes
    from the latest to the oldest before fitting a line, so its slope has the
    wrong sign: a market with whole prices that rose on each of its last
    twenty bars is never reported as a bull market, and one that fell on each
    of them is never reported as a bear market, whatever came before and
    whatever the averages say. *)
Theorem rising_market_is_never_bull `{GoMath} rd bars pre zs regime :
  closes bars = pre ++ map f64_of_Z zs -> length zs = 20%nat -> Forall (fun z => 0 < z < 2 ^ 40) zs ->
  DetectRegime rd bars = Ok regime ->
  (StronglySorted Z.lt zs -> Trend regime <> lit "bull") /\ (StronglySorted Z.gt zs -> Trend regime <> lit "bear").
Proof.
  intros E Hlen Hall Hd. unfold DetectRegime in Hd. destruct (_ <? _)%nat eqn:En; [discriminate|]. injection Hd as <-.
  cbn [Trend]. unfold detectTrend. rewrite En. cbv zeta. rewrite (recent_prices_tail bars pre zs) by done.
  assert (length (rev zs) = 20%nat) as Hl by (by rewrite length_rev).
  assert (Forall (fun z => 0 < z < 2 ^ 40) (rev zs)) as Ha by (by apply Forall_rev).
  destruct (covariance_sign (rev zs) Hl Ha) as [Hgt Hlt].
  split; intros Hs.
  - pose proof (slope_sign true _ Hl Ha (Hgt (StronglySorted_rev Z.lt Z.gt _ (fun a b H => Z.lt_gt a b H) Hs))) as Hsl.
    rewrite (sign_not_pos _ Hsl), andb_false_r. by case_if.
  - pose proof (slope_sign false _ Hl Ha (Hlt (StronglySorted_rev Z.gt Z.lt _ (fun a b H => Z.gt_lt a b H) Hs))) as Hsl.
    rewrite (sign_not_neg _ Hsl), andb_false_r. by case_if.
Qed.

(** ** Concrete inputs *)

Module RiskSample.
Definition sym : bytes := lit "600000.SH".
Definition vol : VolatilityConfig := MkVolatility (flit 15 2) (flit 1 1) (flit 1 2) 20 (f64_of_Z 16).
Definition stops : StopLossConfig :=
  MkStopLoss 14 (f64_of_Z 2) (f64_of_Z 2) (f64_of_Z 3) (f64_of_Z 2) (f64_of_Z 3).
Definition rm : RiskManagerConfig := MkRiskConfig vol stops (MkRegimeConfig 5 20 60).
Definition signal : Signal := MkSignal sym (flit 8 1) (flit 7 1).
Definition bar (c : Z) : OHLCV.t := OHLCV.Mk sym 0 (f64_of_Z c) (f64_of_Z (c + 1)) (f64_of_Z (c - 1)) (f64_of_Z c) f0.
Definition flat : list OHLCV.t := replicate 15 (bar 10).
Definition zs : list Z := map (fun i => 1000 + 10 * i) (seqZ 0 20).
Definition rising : list OHLCV.t := map bar zs.
Definition pos : Position.t := Position.Mk sym (f64_of_Z 1000) (f64_of_Z 10) f0 f0 f0 f0 f0 0 0 f0 f0.
Definition tiers : list TakeProfitTier := [MkTier (flit 3 1) (flit 1 1); MkTier (flit 3 1) (flit 2 1)].
Definition no_math : GoMath := {| Log := fun x => x; Exp := fun x => x; Pow := fun x _ => x |}.
End RiskSample.

Lemma batch_matches_single_witness :
  fle (f64_of_Z 1000000) f0 = false
  /\ CalculatePositionsBatch RiskSample.rm [RiskSample.signal] (Some (f64_of_Z 1000000)) None ∅ ∅ = Err RuntimePanic.
Proof.
  split; [vm_compute; reflexivity|].
  exact (proj1 (proj2 (batch_matches_single RiskSample.rm [RiskSample.signal] (f64_of_Z 1000000) default_regime ∅ ∅
                         ltac:(discriminate) ltac:(vm_compute; reflexivity)))).
Defined.

Lemma tiers_fire_in_order_witness :
  let evals := replicate 5 (RiskSample.pos, f64_of_Z 13) in
  fst (tier_run RiskSample.tiers (Some 7%nat) evals ∅) = [1; 2]
  /\ fst (tier_run RiskSample.tiers None evals ∅) = [1; 1; 1; 1; 1]
  /\ (length (fst (tier_run RiskSample.tiers (Some 7%nat) evals ∅)) <= 2)%nat.
Proof.
  intros evals. split; [vm_compute; reflexivity|]. split; [vm_compute; reflexivity|].
  exact (proj1 (proj2 (tiers_fire_in_order RiskSample.tiers evals 7 ∅ ltac:(simpl; lia) ltac:(reflexivity)))).
Defined.

Lemma trailing_rule_never_fires_witness :
  Forall (fun a => ac_Rule a <> lit "trailing")
    (fst (check_run (fun l => l)
            [({[lit "*" := TrailingTakeProfit (flit 5 2) (flit 8 2)]}, [MkHeld RiskSample.pos (Some 7%nat)],
              {[RiskSample.sym := f64_of_Z 20]})] ∅)).
Proof.
  refine (trailing_rule_never_fires (fun l => l) _ ∅ (fun l => Permutation_refl l) _).
  intros a m Ha. by rewrite lookup_empty in Ha.
Defined.

Lemma atr_is_too_small_witness :
  exists atr, CalculateATR RiskSample.stops RiskSample.flat = Ok atr
    /\ atr = (f64_of_Z 28 / f64_of_Z 15)%f64 /\ flt atr (f64_of_Z 2) = true.
Proof.
  refine (atr_is_too_small RiskSample.stops RiskSample.flat 2 _ _ _ _ _); [simpl; lia|simpl; lia|lia|simpl; lia|].
  repeat constructor.
Defined.

Lemma rising_market_is_never_bull_witness :
  exists regime, @DetectRegime RiskSample.no_math (MkRegimeConfig 5 20 60) RiskSample.rising = Ok regime
    /\ Trend regime <> lit "bull".
Proof.
  eexists. split; [reflexivity|].
  refine (proj1 (@rising_market_is_never_bull RiskSample.no_math (MkRegimeConfig 5 20 60) RiskSample.rising [] RiskSample.zs
                   _ _ _ _ eq_refl) _); [reflexivity|reflexivity| |].
  - unfold RiskSample.zs. apply Forall_forall. intros z Hz. apply list_elem_of_fmap in Hz as (i & -> & Hi).
    apply elem_of_seqZ in Hi. lia.
  - unfold RiskSample.zs. vm_compute. repeat constructor.
Defined.
