(* ===== verification/ExecCost.v ===== *)
(** * ExecCost: execution costs (src/pkg/execution, src/pkg/marketimpact)

    The square-root impact model, the shared cost model with its slippage
    branches, and the two services that price a market order with it: the
    back-test execution service (src/pkg/backtest/execution/execution.go) and
    the paper entry point (src/pkg/live/paper_cost.go). The two price every
    market order alike. *)

From stdpp Require Import base list strings.
From Stdlib Require Import ZArith Lia SpecFloat.
From S2P Require Import Prelude GoFloat Domain MarketRules.

Open Scope Z_scope.

(** ** Market impact *)

Record MarketImpactModel := MkImpact { Sigma : float64; LiquidityFactor : float64 }.

Definition CalculateImpact (m : MarketImpactModel) (orderQty adv : float64) : float64 :=
  if (adv <=? f0)%f64 || (orderQty <=? f0)%f64 then f0
  else
    let lf := if (LiquidityFactor m =? f0)%f64 then f1 else LiquidityFactor m in
    (Sigma m * Sqrt (orderQty / adv) * lf)%f64.

Definition CalculateSlippageCost (m : MarketImpactModel) (orderQty adv price : float64) : float64 :=
  (CalculateImpact m orderQty adv * orderQty * price)%f64.

(** ** The cost model *)

(** [domain.ExecutionConfig], without the fields no cost depends on. *)
Record ExecutionConfig := MkExecutionConfig {
  EC_SlippageModel : bytes;
  EC_CommissionRate : float64;
  EC_MinCommission : float64;
  EC_ImpactSigma : float64;
  EC_ImpactLiquidityFactor : float64
}.

Definition FixedSlippageRate : float64 := flit 1 3.

(** [price * (1 + x)] for a buy, [price * (1 - x)] for anything else. *)
Definition slipped (direction : Direction) (price x : float64) : float64 :=
  if bool_decide (direction = DirectionLong) then (price * (f1 + x))%f64 else (price * (f1 - x))%f64.

Definition SlippagePrice (config : ExecutionConfig) (price : float64) (direction : Direction)
    (orderQty adv high low : float64) : float64 :=
  let model := EC_SlippageModel config in
  if bool_decide (model = lit "fixed") then slipped direction price FixedSlippageRate
  else if bool_decide (model = lit "variable")
  then slipped direction price ((high - low) / price * flit 1 1)%f64
  else if bool_decide (model = lit "impact")
  then if (adv <=? f0)%f64 then slipped direction price FixedSlippageRate
       else slipped direction price
              (CalculateImpact (MkImpact (EC_ImpactSigma config) (EC_ImpactLiquidityFactor config))
                 orderQty adv)
  else price.

(** [CostModel.Commission]. *)
Definition ModelCommission (config : ExecutionConfig) (notional : float64) : float64 :=
  let commission := (notional * EC_CommissionRate config)%f64 in
  if (commission <? EC_MinCommission config)%f64 then EC_MinCommission config else commission.

Inductive cost_error :=
| InvalidOrderQuantity (q : float64)
| InvalidLimitPrice (p : float64)
| LimitNotReached
| UnsupportedOrderType (o : OrderType)
| InvalidExecutionPrice (p : float64).

(** (fill price, commission). *)
Definition ExecuteMarket (config : ExecutionConfig) (order : Order.t) (refPrice high low adv : float64)
    : res cost_error (float64 * float64) :=
  if (Order.Quantity order <=? f0)%f64 then Err (InvalidOrderQuantity (Order.Quantity order))
  else
    let fillPrice := SlippagePrice config refPrice (Order.Direction order) (Order.Quantity order) adv high low in
    Ok (fillPrice, ModelCommission config (fillPrice * Order.Quantity order)%f64).

(** [live.ComputePaperCost]. *)
Definition ComputePaperCost (execCfg : ExecutionConfig) (order : Order.t) (refPrice high low adv : float64)
    : res cost_error (float64 * float64) :=
  ExecuteMarket execCfg order refPrice high low adv.

(** ** The back-test execution service *)

(** [BacktestExecutionService]: the model's name may be replaced after
    construction. *)
Record BacktestExecutionService := MkService { svc_config : ExecutionConfig; svc_slippageModel : bytes }.

Definition NewBacktestExecutionService (config : ExecutionConfig) : BacktestExecutionService :=
  MkService config (EC_SlippageModel config).

Definition SetSlippageModel (model : bytes) (s : BacktestExecutionService) : BacktestExecutionService :=
  MkService (svc_config s) model.

(** The configuration with the service's own slippage model. *)
Definition svc_core (s : BacktestExecutionService) : ExecutionConfig :=
  let c := svc_config s in
  MkExecutionConfig (svc_slippageModel s) (EC_CommissionRate c) (EC_MinCommission c)
    (EC_ImpactSigma c) (EC_ImpactLiquidityFactor c).

(** The quote is a bar: its volume stands for the average daily volume. *)
Definition applySlippage (s : BacktestExecutionService) (price : float64) (direction : Direction)
    (quote : OHLCV.t) (orderQty : float64) : float64 :=
  SlippagePrice (svc_core s) price direction orderQty (OHLCV.Volume quote) (OHLCV.High quote) (OHLCV.Low quote).

Definition calculateCommission (s : BacktestExecutionService) (amount : float64) : float64 :=
  ModelCommission (svc_config s) amount.

(** The execution price by order type. *)
Definition execution_price (s : BacktestExecutionService) (order : Order.t) (quote : OHLCV.t)
    : res cost_error float64 :=
  match Order.OrderType order with
  | OrderTypeMarket =>
      Ok (applySlippage s (OHLCV.Close quote) (Order.Direction order) quote (Order.Quantity order))
  | OrderTypeLimit =>
      let limit := Order.LimitPrice order in
      if (limit <=? f0)%f64 then Err (InvalidLimitPrice limit)
      else if bool_decide (Order.Direction order = DirectionLong) && (limit >=? OHLCV.Low quote)%f64
      then Ok (fmin limit (OHLCV.High quote))
      else if bool_decide (Order.Direction order = DirectionShort) && (limit <=? OHLCV.High quote)%f64
      then Ok (fmax limit (OHLCV.Low quote))
      else Err LimitNotReached
  | o => Err (UnsupportedOrderType o)
  end.

Definition ExecuteOrder (s : BacktestExecutionService) (order : Order.t) (quote : OHLCV.t)
    : res cost_error Trade.t :=
  if (Order.Quantity order <=? f0)%f64 then Err (InvalidOrderQuantity (Order.Quantity order))
  else
    let? executionPrice := execution_price s order quote in
    if (executionPrice <=? f0)%f64 then Err (InvalidExecutionPrice executionPrice)
    else
      Ok (Trade.Mk (Order.Symbol order) (Order.Direction order) (Order.Quantity order) executionPrice
            (calculateCommission s (executionPrice * Order.Quantity order)%f64) f0 f0
            (OHLCV.Date quote) f0 f0).

(** ** Facts on the float operations of the two fee formulas *)

Lemma fmul_comm x y : (x * y = y * x)%f64.
Proof.
  unfold fmul. destruct x as [[]|[]| |[] mx ex], y as [[]|[]| |[] my ey]; cbn; try done;
    by rewrite Pos.mul_comm, Z.add_comm.
Qed.

Lemma feq_same x y : feq x y = true -> flt f0 y = true -> x = y.
Proof.
  unfold feq, flt, SFeqb, SFltb.
  destruct x as [[]|[]| |[] mx ex], y as [[]|[]| |[] my ey]; cbn [SFcompare]; try done.
  destruct (Z.compare_spec ex ey) as [->| |]; try done. intros H _. change (Pos.compare_cont Eq mx my) with (mx ?= my)%positive in H.
  destruct (Pos.compare_spec mx my) as [->| |]; done.
Qed.

(** [math.Max] against a positive bound is the source's conditional. *)
Lemma MathMax_floor x y :
  flt f0 y = true -> is_nan x = false -> MathMax x y = if flt x y then y else x.
Proof.
  intros Hy Hx. destruct (flt_not_nan _ _ Hy) as [_ Hny]. unfold MathMax. rewrite Hx, Hny. cbn [orb].
  destruct (flt x y) eqn:Hlt.
  - rewrite (flt_asym _ _ Hlt). destruct (_ || _) eqn:Hinf.
    + destruct x as [[]|[]| |[]], y as [[]|[]| |[]]; done.
    + destruct (feq x f0 && feq x y) eqn:Hz; [|done]. apply andb_prop in Hz as [_ Hz].
      rewrite (feq_same x y Hz Hy) in Hlt. by rewrite flt_irrefl in Hlt.
  - assert (Hle : flt y x = true \/ x = y).
    { pose proof (fle_lt_or_eq y x) as Ho. rewrite fnot_gt_le in Ho by done.
      symmetry in Ho. apply orb_prop in Ho as [Ho|Ho]; [by left|right].
      symmetry in Ho. apply feq_same; [|done]. unfold feq, SFeqb in *. rewrite fcompare_swap.
      destruct (SFcompare y x) as [[]|]; done. }
    destruct (_ || _) eqn:Hinf; [|destruct (feq x f0 && feq x y) eqn:Hz].
    + destruct Hle as [Hle|Hle]; [|subst x]; [destruct x as [[]|[]| |[]]|]; destruct y as [[]|[]| |[]]; done.
    + apply andb_prop in Hz as [_ Hz]. rewrite (feq_same x y Hz Hy). by destruct (signbit y).
    + destruct Hle as [->| ->]; [done|]. by destruct (flt y y).
Qed.
