(* ===== verification/MockTrader.v ===== *)
(** * MockTrader: the paper trader (src/pkg/live/mock_trader.go, trader.go)

    Cash, positions and orders of a simulated A-share account: buys with
    fees, T+1 sales, the end-of-day roll-over, the emergency flatten, the
    optional order store, and the read-only views. The price provider and
    the bar provider are closures over live data: the state holds what they
    answer, and the data moves between two operations. Order identifiers
    (version-7 UUIDs), the wall clock and the iteration order of Go maps are
    arguments of the operations that use them. The lock makes each operation
    atomic; logging is left out. *)

From stdpp Require Import base list strings gmap.
From Stdlib Require Import ZArith Lia.
From S2P Require Import Prelude GoFloat Domain MarketRules ExecCost.

Open Scope Z_scope.

(** ** Data *)

Module Quote.
Record t := Mk { Open : float64; High : float64; Low : float64; Close : float64; Volume : Z }.
End Quote.

Module PositionInfo.
Record t := Mk {
  Symbol : bytes;
  Quantity : float64;
  AvailableQty : float64;
  AvgCost : float64;
  CurrentPrice : float64;
  MarketValue : float64;
  UnrealizedPnL : float64;
  QuantityToday : float64;
  QuantityYesterday : float64
}.
End PositionInfo.

Module OrderResult.
Record t := Mk {
  OrderID : bytes;
  Symbol : bytes;
  Direction : Domain.Direction;
  OrderType : Domain.OrderType;
  Quantity : float64;
  FilledQty : float64;
  Price : float64;
  Status : bytes;
  SubmittedAt : Time;
  Message : bytes;
  FillPrice : float64;
  Fee : float64
}.

Definition IsFilled (r : t) : bool :=
  bool_decide (Status r = lit "filled") && (FilledQty r >=? Quantity r)%f64.

Definition IsActive (r : t) : bool :=
  bool_decide (Status r = lit "pending") || bool_decide (Status r = lit "partial").

Definition TotalFees (commissionRate stampTaxRate transferFeeRate : float64) (r : t) : float64 :=
  let tradeValue := (FilledQty r * Price r)%f64 in
  let commission := (tradeValue * commissionRate)%f64 in
  let commission := if (commission <? f64_of_Z 5)%f64 then f64_of_Z 5 else commission in
  let transferFee := (tradeValue * transferFeeRate)%f64 in
  let stampTax := if bool_decide (Direction r = DirectionClose) || bool_decide (Direction r = DirectionShort)
                  then (tradeValue * stampTaxRate)%f64 else f0 in
  (commission + transferFee + stampTax)%f64.

Definition set_Status (s : bytes) (r : t) : t :=
  Mk (OrderID r) (Symbol r) (Direction r) (OrderType r) (Quantity r) (FilledQty r) (Price r) s
     (SubmittedAt r) (Message r) (FillPrice r) (Fee r).
End OrderResult.

Module OrderRecord.
Record t := Mk {
  OrderID : bytes;
  Symbol : bytes;
  Direction : Domain.Direction;
  OrderType : Domain.OrderType;
  Quantity : float64;
  FilledQty : float64;
  Price : float64;
  AvgFillPrice : float64;
  Status : bytes;
  SubmittedAt : Time;
  UpdatedAt : Time;
  Message : bytes
}.
End OrderRecord.

Module AccountInfo.
Record t := Mk {
  TotalAssets : float64;
  Cash : float64;
  MarketValue : float64;
  UnrealizedPnL : float64;
  RealizedPnL : float64;
  UpdatedAt : Time
}.
End AccountInfo.

(** [EmergencyFlattenOrder], [EmergencyFlattenSkip] and
    [EmergencyFlattenResult]; the time stamps of the result are left out. *)
Record EmergencyFlattenOrder := MkSold {
  sold_Symbol : bytes;
  sold_OrderID : bytes;
  sold_Quantity : float64;
  sold_FillPrice : float64;
  sold_NetProceeds : float64;
  sold_BypassedT1 : bool
}.

Record EmergencyFlattenSkip := MkSkip { skip_Symbol : bytes; skip_Quantity : float64 }.

Record EmergencyFlattenResult := MkFlatten {
  Sold : list EmergencyFlattenOrder;
  Skipped : list EmergencyFlattenSkip;
  SoldTotal : float64;
  Reason : bytes
}.

Record MockTraderConfig := MkConfig {
  InitialCash : float64;
  CommissionRate : float64;
  StampTaxRate : float64;
  SlippageRate : float64;
  TransferFeeRate : float64;
  MinCommission : float64;
  SlippageModel : bytes;
  ImpactSigma : float64;
  ImpactLiquidityFactor : float64
}.

Inductive trader_error :=
| QuantityNotPositive (q : float64)
| SymbolRequired
| InvalidPrice (p : float64)
| UnsupportedDirection (d : Direction)
| CashShort (need have : float64)
| NoPosition (symbol : bytes)
| T1Violation (symbol : bytes) (today : float64)
| OrderNotFound (id : bytes)
| NotCancellable (status : bytes).

(** ** The trader *)

Section Trader.
(** The order store: any implementation of [OrderStore.Save]; its error is
    only logged. *)
Context {S : Type} (Save : OrderRecord.t -> S -> bool * S).

Record MockTrader := MkTrader {
  config : MockTraderConfig;
  PriceProvider : option (bytes -> float64);
  OrderStore : option S;
  barProvider : option (bytes -> option Quote.t);
  positions : gmap bytes PositionInfo.t;
  orders : gmap bytes OrderResult.t;
  cash : float64
}.

Definition set_cash (c : float64) (m : MockTrader) : MockTrader :=
  MkTrader (config m) (PriceProvider m) (OrderStore m) (barProvider m) (positions m) (orders m) c.
Definition set_positions (ps : gmap bytes PositionInfo.t) (m : MockTrader) : MockTrader :=
  MkTrader (config m) (PriceProvider m) (OrderStore m) (barProvider m) ps (orders m) (cash m).
Definition set_orders (os : gmap bytes OrderResult.t) (m : MockTrader) : MockTrader :=
  MkTrader (config m) (PriceProvider m) (OrderStore m) (barProvider m) (positions m) os (cash m).
Definition set_store (s : option S) (m : MockTrader) : MockTrader :=
  MkTrader (config m) (PriceProvider m) s (barProvider m) (positions m) (orders m) (cash m).

Definition SetCurrentBarProvider (f : option (bytes -> option Quote.t)) (m : MockTrader) : MockTrader :=
  MkTrader (config m) (PriceProvider m) (OrderStore m) f (positions m) (orders m) (cash m).

(** The data behind the price provider moves. *)
Definition prices_move (f : bytes -> float64) (m : MockTrader) : MockTrader :=
  MkTrader (config m) ((fun _ => f) <$> PriceProvider m) (OrderStore m) (barProvider m) (positions m) (orders m) (cash m).

(** A non-positive field takes its default. *)
Definition or_default (x d : float64) : float64 := if (x <=? f0)%f64 then d else x.

Definition NewMockTrader (c : MockTraderConfig) (provider : option (bytes -> float64)) (store : option S)
    : MockTrader :=
  let d := DefaultAShareFees in
  let c := MkConfig (or_default (InitialCash c) (f64_of_Z 1000000))
             (or_default (CommissionRate c) (MarketRules.CommissionRate d))
             (or_default (StampTaxRate c) (MarketRules.StampTaxRate d))
             (or_default (SlippageRate c) (MarketRules.SlippageRate d))
             (or_default (TransferFeeRate c) (MarketRules.TransferFeeRate d))
             (or_default (MinCommission c) (MarketRules.MinCommission d))
             (SlippageModel c) (ImpactSigma c) (ImpactLiquidityFactor c) in
  MkTrader c provider store None ∅ ∅ (InitialCash c).

Definition feeSchedule (m : MockTrader) : AShareFees :=
  let c := config m in
  MkAShareFees (CommissionRate c) (StampTaxRate c) (TransferFeeRate c) (MinCommission c) (SlippageRate c).

Definition currentBar (symbol : bytes) (m : MockTrader) : option Quote.t :=
  match barProvider m with Some f => f symbol | None => None end.

(** (high, low, average daily volume) of the current bar, zeros without one. *)
Definition bar_inputs (symbol : bytes) (m : MockTrader) : float64 * float64 * float64 :=
  match currentBar symbol m with
  | Some q => (Quote.High q, Quote.Low q, f64_of_Z (Quote.Volume q))
  | None => (f0, f0, f0)
  end.

Definition applyExecutionCost (symbol : bytes) (direction : Direction) (quantity execPrice : float64)
    (m : MockTrader) : float64 :=
  let c := config m in
  if bool_decide (SlippageModel c = []) then
    let slippage := (execPrice * SlippageRate c)%f64 in
    if bool_decide (direction = DirectionLong) then (execPrice + slippage)%f64 else (execPrice - slippage)%f64
  else
    let '(high, low, adv) := bar_inputs symbol m in
    let '(high, low) := if (high =? f0)%f64 && (low =? f0)%f64 then (execPrice, execPrice) else (high, low) in
    SlippagePrice (MkExecutionConfig (SlippageModel c) (CommissionRate c) (MinCommission c) (ImpactSigma c)
                     (ImpactLiquidityFactor c))
      execPrice direction quantity adv high low.

Definition persistOrder (now : Time) (r : OrderResult.t) (fillPrice : float64) (status message : bytes)
    (m : MockTrader) : MockTrader :=
  match OrderStore m with
  | None => m
  | Some s =>
      let rec := OrderRecord.Mk (OrderResult.OrderID r) (OrderResult.Symbol r) (OrderResult.Direction r)
                   (OrderResult.OrderType r) (OrderResult.Quantity r) (OrderResult.FilledQty r)
                   (OrderResult.Price r) fillPrice status now now message in
      set_store (Some (snd (Save rec s))) m
  end.

(** Filing a filled order: the map of orders, then the store. *)
Definition file_order (now : Time) (r : OrderResult.t) (fillPrice : float64) (message : bytes)
    (m : MockTrader) : MockTrader :=
  persistOrder now r fillPrice (lit "filled") message
    (set_orders (<[OrderResult.OrderID r := r]> (orders m)) m).

Definition filled_order (oid symbol : bytes) (direction : Direction) (orderType : OrderType)
    (quantity execPrice : float64) (now : Time) (message : bytes) (fillPrice fee : float64) : OrderResult.t :=
  OrderResult.Mk oid symbol direction orderType quantity quantity execPrice (lit "filled") now message
    fillPrice fee.

(** The position after a buy. *)
Definition bought (symbol : bytes) (quantity fillPrice : float64) (existing : option PositionInfo.t)
    : PositionInfo.t :=
  match existing with
  | Some p =>
      let totalQty := (PositionInfo.Quantity p + quantity)%f64 in
      PositionInfo.Mk (PositionInfo.Symbol p) totalQty (PositionInfo.AvailableQty p)
        ((PositionInfo.AvgCost p * PositionInfo.Quantity p + fillPrice * quantity) / totalQty)%f64
        (PositionInfo.CurrentPrice p) (totalQty * fillPrice)%f64 (PositionInfo.UnrealizedPnL p)
        (PositionInfo.QuantityToday p + quantity)%f64 (PositionInfo.QuantityYesterday p)
  | None =>
      PositionInfo.Mk symbol quantity f0 fillPrice fillPrice (quantity * fillPrice)%f64 f0 quantity f0
  end.

Definition executeBuy (oid : bytes) (now : Time) (symbol : bytes) (orderType : OrderType)
    (quantity execPrice : float64) (m : MockTrader) : res trader_error OrderResult.t * MockTrader :=
  let fillPrice := applyExecutionCost symbol DirectionLong quantity execPrice m in
  let tradeValue := (quantity * fillPrice)%f64 in
  let fb := ComputeFees tradeValue false (feeSchedule m) in
  let totalCost := (tradeValue + Total fb)%f64 in
  if (totalCost >? cash m)%f64 then (Err (CashShort totalCost (cash m)), m)
  else
    let m := set_cash (cash m - totalCost)%f64 m in
    let m := set_positions (<[symbol := bought symbol quantity fillPrice (positions m !! symbol)]> (positions m)) m in
    let r := filled_order oid symbol DirectionLong orderType quantity execPrice now [] fillPrice (Total fb) in
    (Ok r, file_order now r execPrice [] m).

(** The position after a sale: dropped when nothing is left. *)
Definition sold (quantity fillPrice : float64) (p : PositionInfo.t) : option PositionInfo.t :=
  let left := (PositionInfo.Quantity p - quantity)%f64 in
  if (left <=? f0)%f64 then None
  else Some (PositionInfo.Mk (PositionInfo.Symbol p) left (PositionInfo.AvailableQty p) (PositionInfo.AvgCost p)
               (PositionInfo.CurrentPrice p) (left * fillPrice)%f64 (PositionInfo.UnrealizedPnL p)
               (PositionInfo.QuantityToday p) (PositionInfo.QuantityYesterday p - quantity)%f64).

Definition executeSell (oid : bytes) (now : Time) (symbol : bytes) (orderType : OrderType)
    (quantity execPrice : float64) (m : MockTrader) : res trader_error OrderResult.t * MockTrader :=
  match positions m !! symbol with
  | None => (Err (NoPosition symbol), m)
  | Some p =>
      if (PositionInfo.Quantity p <=? f0)%f64 then (Err (NoPosition symbol), m)
      else if (PositionInfo.QuantityYesterday p <=? f0)%f64
      then (Err (T1Violation symbol (PositionInfo.QuantityToday p)), m)
      else
        let quantity := if (quantity >? PositionInfo.QuantityYesterday p)%f64
                        then PositionInfo.QuantityYesterday p else quantity in
        let fillPrice := applyExecutionCost symbol DirectionClose quantity execPrice m in
        let tradeValue := (quantity * fillPrice)%f64 in
        let fb := ComputeFees tradeValue true (feeSchedule m) in
        let m := set_cash (cash m + (tradeValue - Total fb))%f64 m in
        let m := set_positions (partial_alter (fun _ => sold quantity fillPrice p) symbol (positions m)) m in
        let r := filled_order oid symbol DirectionClose orderType quantity execPrice now [] fillPrice (Total fb) in
        (Ok r, file_order now r execPrice [] m)
  end.

(** The reference price of an order. *)
Definition reference_price (symbol : bytes) (orderType : OrderType) (price : float64) (m : MockTrader) : float64 :=
  if bool_decide (orderType = OrderTypeMarket) then
    let provided := match PriceProvider m with Some f => f symbol | None => price end in
    match currentBar symbol m with
    | Some q => if (Quote.Close q >? f0)%f64 then Quote.Close q else provided
    | None => provided
    end
  else price.

Definition SubmitOrder (oid : bytes) (now : Time) (symbol : bytes) (direction : Direction)
    (orderType : OrderType) (quantity price : float64) (m : MockTrader)
    : res trader_error OrderResult.t * MockTrader :=
  if (quantity <=? f0)%f64 then (Err (QuantityNotPositive quantity), m)
  else if bool_decide (symbol = []) then (Err SymbolRequired, m)
  else
    let execPrice := reference_price symbol orderType price m in
    if (execPrice <=? f0)%f64 then (Err (InvalidPrice execPrice), m)
    else match direction with
         | DirectionLong => executeBuy oid now symbol orderType quantity execPrice m
         | DirectionClose => executeSell oid now symbol orderType quantity execPrice m
         | d => (Err (UnsupportedDirection d), m)
         end.

Definition CancelOrder (now : Time) (orderID : bytes) (m : MockTrader)
    : res trader_error unit * MockTrader :=
  match orders m !! orderID with
  | None => (Err (OrderNotFound orderID), m)
  | Some o =>
      if negb (OrderResult.IsActive o) then (Err (NotCancellable (OrderResult.Status o)), m)
      else
        let o := OrderResult.set_Status (lit "cancelled") o in
        (Ok tt, persistOrder now o (OrderResult.Price o) (lit "cancelled")
                  (lit "user-requested cancellation") (set_orders (<[orderID := o]> (orders m)) m))
  end.

Definition GetOrder (orderID : bytes) (m : MockTrader) : res trader_error OrderResult.t :=
  match orders m !! orderID with None => Err (OrderNotFound orderID) | Some o => Ok o end.

(** ** Views *)

Definition snapshot (m : MockTrader) (p : PositionInfo.t) : PositionInfo.t :=
  match PriceProvider m with
  | Some f =>
      PositionInfo.Mk (PositionInfo.Symbol p) (PositionInfo.Quantity p) (PositionInfo.AvailableQty p)
        (PositionInfo.AvgCost p) (f (PositionInfo.Symbol p)) (PositionInfo.MarketValue p)
        (PositionInfo.UnrealizedPnL p) (PositionInfo.QuantityToday p) (PositionInfo.QuantityYesterday p)
  | None => p
  end.

Definition marked (m : MockTrader) (p : PositionInfo.t) : PositionInfo.t :=
  let cp := snapshot m p in
  match PriceProvider m with
  | Some _ =>
      PositionInfo.Mk (PositionInfo.Symbol cp) (PositionInfo.Quantity cp) (PositionInfo.AvailableQty cp)
        (PositionInfo.AvgCost cp) (PositionInfo.CurrentPrice cp)
        (PositionInfo.Quantity cp * PositionInfo.CurrentPrice cp)%f64
        ((PositionInfo.CurrentPrice cp - PositionInfo.AvgCost cp) * PositionInfo.Quantity cp)%f64
        (PositionInfo.QuantityToday cp) (PositionInfo.QuantityYesterday cp)
  | None => cp
  end.

(** The positions, in the iteration order of the map. *)
Definition GetPositions (order : list bytes) (m : MockTrader) : list PositionInfo.t :=
  marked m <$> omap (fun s => positions m !! s) order.

Definition account_step (m : MockTrader) (acc : float64 * float64) (p : PositionInfo.t) : float64 * float64 :=
  let cp := snapshot m p in
  ((fst acc + PositionInfo.Quantity cp * PositionInfo.CurrentPrice cp)%f64,
   (snd acc + (PositionInfo.CurrentPrice cp - PositionInfo.AvgCost cp) * PositionInfo.Quantity cp)%f64).

Definition GetAccount (order : list bytes) (now : Time) (m : MockTrader) : AccountInfo.t :=
  let '(marketValue, unrealizedPnL) :=
    foldl (account_step m) (f0, f0) (omap (fun s => positions m !! s) order) in
  AccountInfo.Mk (cash m + marketValue)%f64 (cash m) marketValue unrealizedPnL f0 now.

Definition GetCash (m : MockTrader) : float64 := cash m.

(** ** Day change, flatten and reset *)

Definition roll (p : PositionInfo.t) : PositionInfo.t :=
  if (PositionInfo.QuantityToday p >? f0)%f64 then
    let y := (PositionInfo.QuantityYesterday p + PositionInfo.QuantityToday p)%f64 in
    PositionInfo.Mk (PositionInfo.Symbol p) (PositionInfo.Quantity p) y (PositionInfo.AvgCost p)
      (PositionInfo.CurrentPrice p) (PositionInfo.MarketValue p) (PositionInfo.UnrealizedPnL p) f0 y
  else p.

Definition AdvanceDay (m : MockTrader) : MockTrader := set_positions (roll <$> positions m) m.

(** The execution price of a flatten: the provider's when positive, else the
    last known one. *)
Definition flatten_price (sym : bytes) (p : PositionInfo.t) (m : MockTrader) : float64 :=
  match PriceProvider m with
  | Some f => if (f sym >? f0)%f64 then f sym else PositionInfo.CurrentPrice p
  | None => PositionInfo.CurrentPrice p
  end.

Definition flattenPosition (newID : bytes -> bytes) (now : Time) (reason : bytes) (sym : bytes)
    (st : EmergencyFlattenResult * MockTrader) : EmergencyFlattenResult * MockTrader :=
  let '(result, m) := st in
  match positions m !! sym with
  | None => st
  | Some p =>
      if (PositionInfo.Quantity p <=? f0)%f64 then st
      else
        let execPrice := flatten_price sym p m in
        if (execPrice <=? f0)%f64 then
          (MkFlatten (Sold result) (Skipped result ++ [MkSkip sym (PositionInfo.Quantity p)])
             (SoldTotal result) (Reason result), m)
        else
          let bypassT1 := (PositionInfo.QuantityYesterday p <=? f0)%f64 && (PositionInfo.QuantityToday p >? f0)%f64 in
          let qty := PositionInfo.Quantity p in
          let fillPrice := applyExecutionCost sym DirectionClose qty execPrice m in
          let tradeValue := (qty * fillPrice)%f64 in
          let fb := ComputeFees tradeValue true (feeSchedule m) in
          let netProceeds := (tradeValue - Total fb)%f64 in
          let m := set_positions (delete sym (positions m)) (set_cash (cash m + netProceeds)%f64 m) in
          let orderID := newID sym in
          let persistMsg := lit "EMERGENCY FLATTEN: " ++ reason
                              ++ (if bypassT1 then lit " (T+1 bypassed)" else []) in
          let r := filled_order orderID sym DirectionClose OrderTypeMarket qty execPrice now persistMsg
                     fillPrice (Total fb) in
          (MkFlatten (Sold result ++ [MkSold sym orderID qty fillPrice netProceeds bypassT1])
             (Skipped result) (SoldTotal result + netProceeds)%f64 (Reason result),
           file_order now r fillPrice persistMsg m)
  end.

(** [symbols]: the held symbols in the iteration order of the map. *)
Definition EmergencyFlatten (newID : bytes -> bytes) (now : Time) (symbols : list bytes) (reason : bytes)
    (m : MockTrader) : EmergencyFlattenResult * MockTrader :=
  let reason := if bool_decide (reason = []) then lit "operator-initiated kill switch" else reason in
  foldl (fun st sym => flattenPosition newID now reason sym st) (MkFlatten [] [] f0 reason, m) symbols.

Definition Reset (m : MockTrader) : MockTrader :=
  MkTrader (config m) (PriceProvider m) (OrderStore m) (barProvider m) ∅ ∅ (InitialCash (config m)).

End Trader.

Arguments MockTrader : clear implicits.
Arguments MkTrader {S}.
