(* ===== verification/MockProps.v ===== *)
(** * MockProps: what the paper trader guarantees

    Trading in whole shares refines the T+1 ledger of [ShareLedger], the
    emergency flatten closes every position it can price, an accepted buy is
    funded and a refused order changes nothing, and orders on file are
    final. *)

From stdpp Require Import base list strings gmap.
From Stdlib Require Import ZArith Lia.
From S2P Require Import Prelude GoFloat FloatInt FloatRound Domain ShareLedger MarketRules ExecCost MockTrader.

Open Scope Z_scope.

(** ** Runs of the trader *)

(** An order for whole shares. *)
Record order_req := MkReq {
  rq_id : bytes;
  rq_now : Time;
  rq_symbol : bytes;
  rq_dir : Direction;
  rq_type : OrderType;
  rq_qty : Z;
  rq_price : float64
}.

Inductive trader_op :=
| OpOrder (r : order_req)
| OpCancel (now : Time) (id : bytes)
| OpAdvance
| OpFlatten (newID : bytes -> bytes) (now : Time) (symbols : list bytes) (reason : bytes)
| OpBars (f : option (bytes -> option Quote.t))
| OpPrices (f : bytes -> float64)
| OpReset.

(** What an operation answers: the shares traded, the error, the flatten's
    report. *)
Inductive trader_out :=
| Traded (k : Z)
| Refused (e : trader_error)
| Flattened (r : EmergencyFlattenResult)
| Silent.

Section Paper.
Context {S : Type} (Save : OrderRecord.t -> S -> bool * S).

Definition trader_step (op : trader_op) (m : MockTrader S) : trader_out * MockTrader S :=
  match op with
  | OpOrder r =>
      match SubmitOrder Save (rq_id r) (rq_now r) (rq_symbol r) (rq_dir r) (rq_type r)
              (f64_of_Z (rq_qty r)) (rq_price r) m with
      | (Ok o, m') => (Traded (f64_to_int64 (OrderResult.FilledQty o)), m')
      | (Err e, m') => (Refused e, m')
      end
  | OpCancel now id =>
      match CancelOrder Save now id m with
      | (Ok _, m') => (Silent, m')
      | (Err e, m') => (Refused e, m')
      end
  | OpAdvance => (Silent, AdvanceDay m)
  | OpFlatten newID now symbols reason =>
      let '(r, m') := EmergencyFlatten Save newID now symbols reason m in (Flattened r, m')
  | OpBars f => (Silent, SetCurrentBarProvider f m)
  | OpPrices f => (Silent, prices_move f m)
  | OpReset => (Silent, Reset m)
  end.

Fixpoint trader_run (ops : list trader_op) (m : MockTrader S) : list trader_out * MockTrader S :=
  match ops with
  | [] => ([], m)
  | op :: ops' =>
      let '(o, m1) := trader_step op m in
      let '(os, m2) := trader_run ops' m1 in (o :: os, m2)
  end.

(** ** Filing an order touches no money and no share *)

Definition same_book (m m' : MockTrader S) : Prop :=
  positions m' = positions m /\ cash m' = cash m /\ config m' = config m
  /\ PriceProvider m' = PriceProvider m /\ barProvider m' = barProvider m.

Lemma persist_book now r p st msg m : same_book m (persistOrder Save now r p st msg m).
Proof. unfold persistOrder. by destruct (OrderStore m). Qed.

Lemma file_book now r p msg m : same_book m (file_order Save now r p msg m).
Proof. apply (persist_book now r p (lit "filled") msg (set_orders _ m)). Qed.

Lemma file_orders now r p msg m :
  orders (file_order Save now r p msg m) = <[OrderResult.OrderID r := r]> (orders m).
Proof. unfold file_order, persistOrder. cbn [OrderStore set_orders]. by destruct (OrderStore m). Qed.

(** ** The refinement relation *)

Definition info_rep (B : Z) (p : PositionInfo.t) (h : holding) : Prop :=
  0 <= settled h /\ 0 <= today h /\ 0 < settled h + today h <= B
  /\ PositionInfo.Quantity p = f64_of_Z (settled h + today h)
  /\ PositionInfo.QuantityYesterday p = f64_of_Z (settled h)
  /\ PositionInfo.QuantityToday p = f64_of_Z (today h).

Definition paper_rep (B : Z) (m : MockTrader S) (L : ledger) : Prop :=
  shares_rep (info_rep B) (positions m) L.

Lemma info_rep_mono B B' p h : B <= B' -> info_rep B p h -> info_rep B' p h.
Proof. unfold info_rep. intros HB (? & ? & ? & ?). split_and!; naive_solver lia. Qed.

Lemma paper_rep_mono B B' m L : B <= B' -> paper_rep B m L -> paper_rep B' m L.
Proof. intros HB. apply shares_rep_mono. intros p h. by apply info_rep_mono. Qed.

Lemma paper_rep_book B m m' L : same_book m m' -> paper_rep B m L -> paper_rep B m' L.
Proof. intros (Hp & _) Hr. unfold paper_rep. by rewrite Hp. Qed.

Lemma bought_rep B m L s n price :
  paper_rep B m L -> 0 < n -> 0 <= B -> B + n < 2 ^ 53 ->
  info_rep (B + n) (bought s (f64_of_Z n) price (positions m !! s))
    (MkHolding (settled (held s L)) (today (held s L) + n)).
Proof.
  intros Hr Hn HB Hlim.
  destruct (shares_rep_held _ _ _ s Hr) as [[Hp ->]|(p & Hp & Ha & Hb & Hab & EQ & EY & ET)];
    rewrite Hp; unfold info_rep; cbn -[f64_of_Z].
  - replace (0 + n) with n by lia. repeat split; try done; lia.
  - rewrite EQ, EY, ET, !fadd_whole by whole. repeat split; try lia; f_equal; lia.
Qed.

Lemma sold_rep B p h n price :
  info_rep B p h -> B < 2 ^ 53 -> 0 < n -> 0 < settled h ->
  let k := Z.min (settled h) n in
  let h' := MkHolding (settled h - k) (today h) in
  if settled h' + today h' =? 0 then sold (f64_of_Z k) price p = None
  else exists q, sold (f64_of_Z k) price p = Some q /\ info_rep B q h'.
Proof.
  intros (Ha & Hb & Hab & EQ & EY & ET) HB Hn Hs k h'. subst h'. cbn [settled today].
  unfold sold. change f0 with (f64_of_Z 0). rewrite EQ, fsub_whole, fle_whole by whole.
  destruct (settled h - k + today h =? 0) eqn:E; bool_to_prop.
  - by replace (settled h + today h - k <=? 0) with true by lia.
  - replace (settled h + today h - k <=? 0) with false by lia. eexists. split; [done|].
    unfold info_rep; cbn -[f64_of_Z]. rewrite EY, fsub_whole by whole.
    repeat split; try done; try lia. f_equal. lia.
Qed.

(** ** The ledger's steps *)

(** The shares a flatten sold leave the ledger. *)
Definition remove_all (ss : list bytes) (L : ledger) : ledger := foldl (fun L s => delete s L) L ss.

(** A refusal for want of a symbol or of a price. *)
Definition unpriced (e : trader_error) : Prop :=
  e = SymbolRequired \/ exists p, e = InvalidPrice p /\ fle p f0 = true.

Inductive paper_step : ledger -> trader_op -> trader_out -> ledger -> Prop :=
| ps_buy L r : rq_dir r = DirectionLong -> 0 < rq_qty r ->
    paper_step L (OpOrder r) (Traded (rq_qty r)) (lbuy (rq_symbol r) (rq_qty r) L)
| ps_buy_refused L r e : rq_dir r = DirectionLong ->
    paper_step L (OpOrder r) (Refused e) L
| ps_sell L r : rq_dir r = DirectionClose -> 0 < rq_qty r -> 0 < settled (held (rq_symbol r) L) ->
    paper_step L (OpOrder r) (Traded (sellable (rq_symbol r) (rq_qty r) L))
      (lsell (rq_symbol r) (rq_qty r) L)
| ps_sell_refused L r e : rq_dir r = DirectionClose ->
    rq_qty r <= 0 \/ settled (held (rq_symbol r) L) = 0 \/ unpriced e ->
    paper_step L (OpOrder r) (Refused e) L
| ps_other_refused L r e : rq_dir r <> DirectionLong -> rq_dir r <> DirectionClose ->
    paper_step L (OpOrder r) (Refused e) L
| ps_cancel L now id e : paper_step L (OpCancel now id) (Refused e) L
| ps_advance L : paper_step L OpAdvance Silent (ladvance L)
| ps_flatten L newID now symbols reason res :
    NoDup (map sold_Symbol (Sold res)) ->
    Forall (fun o => exists h, L !! sold_Symbol o = Some h
                       /\ sold_Quantity o = f64_of_Z (settled h + today h)) (Sold res) ->
    paper_step L (OpFlatten newID now symbols reason) (Flattened res)
      (remove_all (map sold_Symbol (Sold res)) L)
| ps_bars L f : paper_step L (OpBars f) Silent L
| ps_prices L f : paper_step L (OpPrices f) Silent L
| ps_reset L : paper_step L OpReset Silent ∅.

Lemma submit_buy B m L r o m' :
  paper_rep B m L -> rq_dir r = DirectionLong -> whole_range (rq_qty r) -> 0 <= B ->
  B + Z.max 0 (rq_qty r) < 2 ^ 53 -> trader_step (OpOrder r) m = (o, m') ->
  exists L', paper_step L (OpOrder r) o L' /\ paper_rep (B + Z.max 0 (rq_qty r)) m' L'.
Proof.
  intros Hr Hdir Hw HB Hlim. cbn [trader_step]. unfold SubmitOrder. rewrite Hdir.
  assert (Href : forall e, (Refused e, m) = (o, m') ->
    exists L', paper_step L (OpOrder r) o L' /\ paper_rep (B + Z.max 0 (rq_qty r)) m' L').
  { intros e [= <- <-]. exists L. split; [by constructor|]. eapply paper_rep_mono; [|done]. lia. }
  change f0 with (f64_of_Z 0) at 1. rewrite fle_whole by whole.
  destruct (rq_qty r <=? 0) eqn:Eq; [apply Href|]. bool_to_prop.
  case_bool_decide; [apply Href|]. destruct (_ <=? _)%f64; [apply Href|].
  unfold executeBuy. destruct (_ >? _)%f64; [apply Href|].
  intros [= <- <-]. cbn [OrderResult.FilledQty filled_order]. rewrite int64_of_whole by whole.
  exists (lbuy (rq_symbol r) (rq_qty r) L). split; [by constructor|].
  eapply paper_rep_book; [apply file_book|]. unfold paper_rep. cbn [positions set_positions set_cash].
  replace (Z.max 0 (rq_qty r)) with (rq_qty r) in * by lia.
  pose proof (bought_rep B m L (rq_symbol r) (rq_qty r)
    (applyExecutionCost (rq_symbol r) DirectionLong (f64_of_Z (rq_qty r))
       (reference_price (rq_symbol r) (rq_type r) (rq_price r) m) m) Hr ltac:(lia) HB Hlim) as Hb.
  apply shares_rep_put; [eapply shares_rep_mono; [|exact Hr]; intros; eapply info_rep_mono; [|done]; lia|].
  cbn [settled today]. pose proof Hb as (Ha & Ht & Hab & _). cbn [settled today] in *.
  replace (_ =? 0) with false by lia. eauto.
Qed.

Lemma submit_sell B m L r o m' :
  paper_rep B m L -> rq_dir r = DirectionClose -> whole_range (rq_qty r) -> 0 <= B < 2 ^ 53 ->
  trader_step (OpOrder r) m = (o, m') ->
  exists L', paper_step L (OpOrder r) o L' /\ paper_rep B m' L'.
Proof.
  intros Hr Hdir Hw HB. cbn [trader_step]. unfold SubmitOrder. rewrite Hdir.
  assert (Href : forall e, rq_qty r <= 0 \/ settled (held (rq_symbol r) L) = 0 \/ unpriced e ->
    (Refused e, m) = (o, m') -> exists L', paper_step L (OpOrder r) o L' /\ paper_rep B m' L').
  { intros e He [= <- <-]. exists L. by split; [constructor|]. }
  change f0 with (f64_of_Z 0) at 1. rewrite fle_whole by whole.
  destruct (rq_qty r <=? 0) eqn:Eq; [apply Href; bool_to_prop; lia|]. bool_to_prop.
  case_bool_decide; [apply Href; right; right; by left|].
  destruct (_ <=? _)%f64 eqn:Epx; [apply Href; right; right; right; eauto|]. clear Epx.
  unfold executeSell. set (s := rq_symbol r) in *.
  destruct (shares_rep_held _ _ _ s Hr) as [[Hp Eh]|(p & Hp & Hi)]; rewrite Hp.
  { apply Href. rewrite Eh. auto. }
  pose proof Hi as (Ha & Hb & Hab & EQ & EY & ET). change f0 with (f64_of_Z 0).
  rewrite EQ, fle_whole by whole. replace (settled (held s L) + today (held s L) <=? 0) with false by lia.
  rewrite EY, fle_whole, flt_whole by whole.
  destruct (settled (held s L) <=? 0) eqn:E0; [apply Href; bool_to_prop; lia|]. bool_to_prop.
  set (k := Z.min (settled (held s L)) (rq_qty r)).
  assert (Hk : (if settled (held s L) <? rq_qty r then f64_of_Z (settled (held s L)) else f64_of_Z (rq_qty r))
               = f64_of_Z k) by (subst k; destruct (_ <? _) eqn:E; bool_to_prop; f_equal; lia).
  rewrite Hk. intros [= <- <-]. cbn [OrderResult.FilledQty filled_order]. rewrite int64_of_whole by whole.
  exists (lsell s (rq_qty r) L). split; [by apply ps_sell; [|lia|]|].
  eapply paper_rep_book; [apply file_book|]. unfold paper_rep. cbn [positions set_positions set_cash].
  apply shares_rep_put; [done|]. by apply sold_rep; [|lia|lia|].
Qed.

(** ** The flatten *)

(** What a flatten does to the books. *)
Record flatten_inv (m : MockTrader S) (st : EmergencyFlattenResult * MockTrader S) : Prop := {
  fi_positions : positions (snd st) = foldl (fun ps s => delete s ps) (positions m) (map sold_Symbol (Sold (fst st)));
  fi_cash : cash (snd st) = foldl fadd (cash m) (map sold_NetProceeds (Sold (fst st)));
  fi_total : SoldTotal (fst st) = foldl fadd f0 (map sold_NetProceeds (Sold (fst st)));
  fi_same : config (snd st) = config m /\ PriceProvider (snd st) = PriceProvider m /\ barProvider (snd st) = barProvider m;
  fi_sold : Forall (fun o => exists p, positions m !! sold_Symbol o = Some p
                                /\ sold_Quantity o = PositionInfo.Quantity p) (Sold (fst st));
  fi_nodup : NoDup (map sold_Symbol (Sold (fst st)))
}.

Lemma lookup_delete_all {V} (ps : gmap bytes V) ss s :
  foldl (fun ps s => delete s ps) ps ss !! s = if decide (s ∈ ss) then None else ps !! s.
Proof.
  revert ps. induction ss as [|x ss IH]; intros ps; cbn [foldl].
  { case_decide as H; [by apply elem_of_nil in H|done]. }
  rewrite IH. repeat case_decide; try set_solver.
  - destruct (decide (s = x)) as [->|]; [by rewrite lookup_delete_eq|]. set_solver.
  - rewrite lookup_delete_ne by set_solver. done.
Qed.

Lemma flatten_step_inv newID now reason m sym st :
  flatten_inv m st -> flatten_inv m (flattenPosition Save newID now reason sym st).
Proof.
  destruct st as [res m1]. intros [Hp Hc Ht (Hs1 & Hs2 & Hs3) Hsold Hnd]. cbn [fst snd] in *.
  unfold flattenPosition. destruct (positions m1 !! sym) as [p|] eqn:Ep; [|done].
  destruct (_ <=? _)%f64; [done|]. destruct (_ <=? _)%f64; [done|].
  rewrite Hp, lookup_delete_all in Ep. case_decide as Hin; [done|].
  match goal with |- flatten_inv m (_, file_order Save ?a ?b ?c ?d ?m2) =>
    destruct (file_book a b c d m2) as (F1 & F2 & F3 & F4 & F5) end.
  split; cbn [fst snd Sold SoldTotal]; rewrite ?F1, ?F2, ?F3, ?F4, ?F5, ?map_app, ?foldl_app;
    cbn [positions cash config PriceProvider barProvider set_positions set_cash map foldl
         sold_Symbol sold_NetProceeds].
  - by rewrite Hp.
  - by rewrite Hc.
  - by rewrite Ht.
  - done.
  - apply Forall_app. split; [done|]. constructor; [|done]. by exists p.
  - apply NoDup_app. split_and!; [done| |apply NoDup_singleton]. set_solver.
Qed.

Lemma flatten_run_inv newID now reason m symbols : forall st,
  flatten_inv m st ->
  flatten_inv m (foldl (fun st sym => flattenPosition Save newID now reason sym st) st symbols).
Proof.
  induction symbols as [|s ss IH]; intros st Hst; cbn [foldl]; [done|]. apply IH, flatten_step_inv, Hst.
Qed.

Lemma flatten_start m reason : flatten_inv m (MkFlatten [] [] f0 reason, m).
Proof. split; try done; constructor. Qed.

Lemma flatten_books newID now symbols reason m :
  flatten_inv m (EmergencyFlatten Save newID now symbols reason m).
Proof. apply flatten_run_inv, flatten_start. Qed.

Lemma paper_rep_remove B m m' L ss :
  paper_rep B m L -> positions m' = foldl (fun ps s => delete s ps) (positions m) ss ->
  paper_rep B m' (remove_all ss L).
Proof.
  intros Hr Hp. unfold paper_rep. rewrite Hp. unfold paper_rep in Hr. clear Hp.
  revert L Hr. generalize (positions m) as ps. induction ss as [|s ss IH]; intros ps L Hr; cbn; [done|].
  apply IH. by apply shares_rep_delete.
Qed.
(** ** Orders on file *)

(** An order on file is filed under its identifier and completely filled. *)
Definition final_order (id : bytes) (o : OrderResult.t) : Prop :=
  OrderResult.OrderID o = id /\ OrderResult.Status o = lit "filled"
  /\ OrderResult.FilledQty o = OrderResult.Quantity o.

Definition all_final (m : MockTrader S) : Prop := map_Forall final_order (orders m).

Lemma file_final now oid s d ty q px msg fp fee store_px m m1 :
  all_final m -> orders m1 = orders m ->
  all_final (file_order Save now (filled_order oid s d ty q px now msg fp fee) store_px msg m1).
Proof.
  intros Hf Ho. unfold all_final. rewrite file_orders, Ho. by apply map_Forall_insert_2.
Qed.

Lemma flatten_final newID now reason m sym st :
  orders (snd st) = orders m \/ all_final (snd st) -> all_final m ->
  all_final (snd (flattenPosition Save newID now reason sym st)).
Proof.
  intros Hst Hm. destruct st as [res m1]. cbn [snd] in *.
  assert (H1 : all_final m1) by (destruct Hst as [E|E]; [unfold all_final; by rewrite E|done]).
  unfold flattenPosition. destruct (positions m1 !! sym); [|done].
  destruct (_ <=? _)%f64; [done|]. destruct (_ <=? _)%f64; [done|]. cbn [snd]. by apply (file_final _ _ _ _ _ _ _ _ _ _ _ m1).
Qed.

Lemma not_active id o : final_order id o -> OrderResult.IsActive o = false.
Proof. intros (_ & Hs & _). unfold OrderResult.IsActive. rewrite Hs. done. Qed.

Lemma submit_final oid now s d ty q px m :
  all_final m -> all_final (snd (SubmitOrder Save oid now s d ty q px m)).
Proof.
  intros Hm. unfold SubmitOrder. destruct (_ <=? _)%f64; [done|]. case_bool_decide; [done|].
  destruct (_ <=? _)%f64; [done|]. destruct d; try done.
  - unfold executeBuy. destruct (_ >? _)%f64; [done|]. cbn [snd]. by apply (file_final _ _ _ _ _ _ _ _ _ _ _ m).
  - unfold executeSell. destruct (positions m !! s); [|done]. destruct (_ <=? _)%f64; [done|].
    destruct (_ <=? _)%f64; [done|]. cbn [snd]. by apply (file_final _ _ _ _ _ _ _ _ _ _ _ m).
Qed.

Lemma cancel_refused now id m : all_final m -> exists e, CancelOrder Save now id m = (Err e, m).
Proof.
  intros Hm. unfold CancelOrder. destruct (orders m !! id) as [o|] eqn:E; [|by eexists].
  rewrite (not_active id o) by (by eapply Hm). by eexists.
Qed.

Lemma flatten_all_final newID now symbols reason m :
  all_final m -> all_final (snd (EmergencyFlatten Save newID now symbols reason m)).
Proof.
  intros Hm. unfold EmergencyFlatten. set (st := (MkFlatten _ _ _ _, m)).
  assert (Hst : all_final (snd st)) by done. clearbody st. revert st Hst.
  induction symbols as [|s ss IH]; intros st Hst; cbn [foldl]; [done|].
  apply IH. apply (flatten_final _ _ _ m); auto.
Qed.

Lemma step_final op m : all_final m -> all_final (snd (trader_step op m)).
Proof.
  intros Hm. destruct op as [r|now id| |newID now ss reason|f|f|]; cbn [trader_step].
  - pose proof (submit_final (rq_id r) (rq_now r) (rq_symbol r) (rq_dir r) (rq_type r)
                  (f64_of_Z (rq_qty r)) (rq_price r) m Hm) as H.
    by destruct (SubmitOrder _ _ _ _ _ _ _ _ _) as [[o|e] m'].
  - destruct (cancel_refused now id m Hm) as [e ->]. done.
  - done.
  - pose proof (flatten_all_final newID now ss reason m Hm) as H.
    by destruct (EmergencyFlatten _ _ _ _ _ _) as [r m'].
  - done.
  - done.
  - apply map_Forall_empty.
Qed.

(** ** The simulation *)

(** The shares an operation may add. *)
Definition op_adds (op : trader_op) : Z :=
  match op with
  | OpOrder r => if bool_decide (rq_dir r = DirectionLong) then Z.max 0 (rq_qty r) else 0
  | _ => 0
  end.

Definition op_whole (op : trader_op) : Prop :=
  match op with OpOrder r => whole_range (rq_qty r) | _ => True end.

Lemma step_refines_ledger B m L op o m' :
  paper_rep B m L -> all_final m -> op_whole op -> 0 <= B -> B + op_adds op < 2 ^ 53 ->
  trader_step op m = (o, m') ->
  exists L', paper_step L op o L' /\ paper_rep (B + op_adds op) m' L'.
Proof.
  intros Hr Hf Hw HB Hlim Hs. destruct op as [r|now id| |newID now ss reason|f|f|]; cbn [op_adds op_whole] in *.
  - case_bool_decide as Hd; [by eapply submit_buy|]. rewrite Z.add_0_r in *.
    destruct (decide (rq_dir r = DirectionClose)) as [Hc|Hc]; [by eapply submit_sell; eauto; lia|].
    exists L. cbn [trader_step] in Hs. unfold SubmitOrder in Hs.
    repeat (destruct (_ <=? _)%f64; [injection Hs as <- <-; split; [by constructor|done]|]).
    case_bool_decide; [injection Hs as <- <-; split; [by constructor|done]|].
    destruct (_ <=? _)%f64; [injection Hs as <- <-; split; [by constructor|done]|].
    destruct (rq_dir r) eqn:Ed; try done; injection Hs as <- <-; (split; [constructor; by rewrite Ed|done]).
  - rewrite Z.add_0_r. cbn [trader_step] in Hs. destruct (cancel_refused now id m Hf) as [e He].
    rewrite He in Hs. injection Hs as <- <-. exists L. split; [constructor|done].
  - rewrite Z.add_0_r in *. injection Hs as <- <-. exists (ladvance L). split; [constructor|].
    unfold paper_rep, ladvance. cbn [positions set_positions AdvanceDay].
    eapply shares_rep_fmap; [|exact Hr]. intros p h (Ha & Hb & Hab & EQ & EY & ET).
    unfold roll, info_rep. cbn [settled today]. change f0 with (f64_of_Z 0). rewrite ET, flt_whole by whole.
    destruct (0 <? today h) eqn:E; bool_to_prop; cbn -[f64_of_Z].
    + rewrite EY, fadd_whole, Z.add_0_r by whole. repeat split; try done; lia.
    + assert (Hz : today h = 0) by lia. rewrite Hz, ?Z.add_0_r in *. repeat split; try done; lia.
  - rewrite Z.add_0_r in *. cbn [trader_step] in Hs.
    pose proof (flatten_books newID now ss reason m) as [Hp _ _ _ Hsold Hnd].
    destruct (EmergencyFlatten _ _ _ _ _ _) as [res m1]. injection Hs as <- <-. cbn [fst snd] in *.
    eexists. split; [|by eapply paper_rep_remove]. constructor; [done|].
    eapply Forall_impl; [exact Hsold|]. intros so (p & Ep & Eq). specialize (Hr (sold_Symbol so)).
    rewrite Ep in Hr. destruct (L !! sold_Symbol so) as [h|]; [|done]. exists h. split; [done|].
    rewrite Eq. apply Hr.
  - rewrite Z.add_0_r. injection Hs as <- <-. exists L. split; [constructor|done].
  - rewrite Z.add_0_r. injection Hs as <- <-. exists L. split; [constructor|done].
  - rewrite Z.add_0_r. injection Hs as <- <-. exists ∅. split; [constructor|apply shares_rep_empty].
Qed.

Inductive paper_run : ledger -> list trader_op -> list trader_out -> ledger -> Prop :=
| pr_nil L : paper_run L [] [] L
| pr_cons L1 op o L2 ops os L3 :
    paper_step L1 op o L2 -> paper_run L2 ops os L3 -> paper_run L1 (op :: ops) (o :: os) L3.

Definition run_adds (ops : list trader_op) : Z := foldr (fun op n => op_adds op + n) 0 ops.

Lemma op_adds_nonneg op : 0 <= op_adds op.
Proof. destruct op; cbn; try lia. case_bool_decide; lia. Qed.

Lemma run_adds_nonneg ops : 0 <= run_adds ops.
Proof. induction ops as [|op ops IH]; cbn; [lia|]. pose proof (op_adds_nonneg op). unfold run_adds in IH. lia. Qed.

Lemma run_refines_ledger ops : forall B m L,
  paper_rep B m L -> all_final m -> Forall op_whole ops -> 0 <= B -> B + run_adds ops < 2 ^ 53 ->
  exists L', paper_run L ops (fst (trader_run ops m)) L'
             /\ paper_rep (B + run_adds ops) (snd (trader_run ops m)) L'.
Proof.
  induction ops as [|op ops IH]; intros B m L Hr Hf Hw HB Hlim; cbn [trader_run run_adds foldr].
  { exists L. rewrite Z.add_0_r. split; [constructor|done]. }
  apply Forall_cons in Hw as [Hw1 Hw]. cbn [run_adds foldr] in Hlim.
  change (foldr _ 0 ops) with (run_adds ops) in *.
  pose proof (op_adds_nonneg op). pose proof (run_adds_nonneg ops).
  pose proof (step_final op m Hf) as Hf1.
  destruct (trader_step op m) as [o m1] eqn:Es.
  destruct (step_refines_ledger B m L op o m1 Hr Hf Hw1 HB ltac:(lia) Es) as (L1 & Hs & Hr1).
  destruct (IH _ _ _ Hr1 Hf1 Hw ltac:(lia) ltac:(lia)) as (L' & Hrun & Hrep).
  destruct (trader_run ops m1) as [os m2]. cbn [fst snd] in *.
  exists L'. split; [by econstructor|]. by rewrite Z.add_assoc.
Qed.
(** C26. Paper trading in whole shares refines the T+1 ledger. Whatever the
    orders, cancellations, day changes, flattens, resets, price moves and
    the order store, run from an account without positions and orders and
    below 2^53 shares in all, the answers are those of a run of the ledger:
    a buy adds its shares to today's, a sale takes exactly the lesser of the
    request and the shares held before the day and is refused exactly when
    that is nothing or there is no price, no order on file can be cancelled,
    a flatten takes whole positions; and the float64 share counts of the
    account are the ledger's integers. *)
Theorem paper_refines_ledger ops m
    (Hpos : positions m = ∅) (Hord : orders m = ∅) (Hwhole : Forall op_whole ops)
    (Hlim : run_adds ops < 2 ^ 53) :
  exists L', paper_run ∅ ops (fst (trader_run ops m)) L'
             /\ paper_rep (run_adds ops) (snd (trader_run ops m)) L'.
Proof.
  apply (run_refines_ledger ops 0 m ∅); try done.
  - unfold paper_rep. rewrite Hpos. apply shares_rep_empty.
  - unfold all_final. rewrite Hord. apply map_Forall_empty.
Qed.

(** ** The flatten closes what it can price *)

Definition closable (m : MockTrader S) (s : bytes) (p : PositionInfo.t) : bool :=
  negb (PositionInfo.Quantity p <=? f0)%f64 && negb (flatten_price s p m <=? f0)%f64.

Definition skipped_at (m : MockTrader S) (s : bytes) (p : PositionInfo.t) : bool :=
  negb (PositionInfo.Quantity p <=? f0)%f64 && (flatten_price s p m <=? f0)%f64.

(** The symbols of a list whose position passes a test. *)
Definition picked (t : MockTrader S -> bytes -> PositionInfo.t -> bool) (m : MockTrader S) (ss : list bytes)
    : list bytes :=
  List.filter (fun s => match positions m !! s with Some p => t m s p | None => false end) ss.

Lemma flatten_price_same (m m' : MockTrader S) s p : PriceProvider m' = PriceProvider m -> flatten_price s p m' = flatten_price s p m.
Proof. unfold flatten_price. by intros ->. Qed.

Lemma flatten_picks newID now reason m symbols : forall st,
  flatten_inv m st -> NoDup symbols -> (forall s, s ∈ symbols -> s ∉ map sold_Symbol (Sold (fst st))) ->
  let st' := foldl (fun st sym => flattenPosition Save newID now reason sym st) st symbols in
  map sold_Symbol (Sold (fst st')) = map sold_Symbol (Sold (fst st)) ++ picked closable m symbols
  /\ map skip_Symbol (Skipped (fst st')) = map skip_Symbol (Skipped (fst st)) ++ picked skipped_at m symbols.
Proof.
  induction symbols as [|s ss IH]; intros st Hst Hnd Hfresh; cbn [foldl picked List.filter];
    [by rewrite !app_nil_r|].
  apply NoDup_cons in Hnd as [Hs Hnd].
  assert (Hp : positions (snd st) !! s = positions m !! s).
  { rewrite (fi_positions _ _ Hst), lookup_delete_all. case_decide as Hin; [|done].
    exfalso. apply (Hfresh s); [set_solver|done]. }
  pose proof (flatten_step_inv newID now reason m s st Hst) as Hst'.
  assert (Hone : map sold_Symbol (Sold (fst (flattenPosition Save newID now reason s st)))
                   = map sold_Symbol (Sold (fst st)) ++ picked closable m [s]
                 /\ map skip_Symbol (Skipped (fst (flattenPosition Save newID now reason s st)))
                   = map skip_Symbol (Skipped (fst st)) ++ picked skipped_at m [s]).
  { destruct (fi_same _ _ Hst) as (_ & HP & _). destruct st as [res m1]. cbn [fst snd] in *.
    unfold flattenPosition, picked, closable, skipped_at. cbn [List.filter]. rewrite Hp.
    destruct (positions m !! s) as [p|]; [|by rewrite !app_nil_r].
    destruct (PositionInfo.Quantity p <=? f0)%f64; cbn [negb andb]; [by rewrite !app_nil_r|].
    rewrite (flatten_price_same m m1 s p HP).
    destruct (flatten_price s p m <=? f0)%f64; cbn [negb fst Sold Skipped];
      by rewrite ?map_app, ?app_nil_r. }
  destruct Hone as [H1 H2].
  destruct (IH _ Hst' Hnd) as [I1 I2].
  { intros s' Hs'. rewrite H1. intros [Hin|Hin]%elem_of_app; [apply (Hfresh s'); [set_solver|done]|].
    unfold picked in Hin. apply list_elem_of_In, List.filter_In in Hin as [[->|[]] _]. done. }
  cbn zeta. rewrite I1, I2, H1, H2. unfold picked; cbn [List.filter].
  split; [destruct (match positions m !! s with Some p => closable m s p | None => false end)
         |destruct (match positions m !! s with Some p => skipped_at m s p | None => false end)];
    rewrite ?app_nil_r, <- ?app_assoc; done.
Qed.

Lemma flatten_reports newID now symbols reason m :
  NoDup symbols ->
  map sold_Symbol (Sold (fst (EmergencyFlatten Save newID now symbols reason m))) = picked closable m symbols
  /\ map skip_Symbol (Skipped (fst (EmergencyFlatten Save newID now symbols reason m))) = picked skipped_at m symbols.
Proof.
  intros Hn. apply (flatten_picks newID now _ m symbols _ (flatten_start m _) Hn).
  intros s _. apply not_elem_of_nil.
Qed.

(** What a flatten over the held symbols leaves. *)
Lemma flatten_leaves newID now symbols reason m :
  symbols ≡ₚ map fst (map_to_list (positions m)) ->
  positions (snd (EmergencyFlatten Save newID now symbols reason m))
  = filter (fun sp => closable m sp.1 sp.2 = false) (positions m).
Proof.
  intros Hsym. assert (NoDup symbols) as Hn by (rewrite Hsym; apply NoDup_fst_map_to_list).
  rewrite (fi_positions _ _ (flatten_books newID now symbols reason m)).
  rewrite (proj1 (flatten_reports newID now symbols reason m Hn)).
  apply map_eq. intros s. rewrite lookup_delete_all, map_lookup_filter.
  destruct (positions m !! s) as [p|] eqn:Ep; cbn; [|by case_decide].
  assert (Hin : s ∈ picked closable m symbols <-> closable m s p = true).
  { unfold picked. rewrite list_elem_of_In, List.filter_In, Ep. split; [naive_solver|]. intros ->.
    split; [|done]. apply list_elem_of_In. rewrite Hsym. apply list_elem_of_fmap.
    exists (s, p). split; [done|]. by apply elem_of_map_to_list. }
  destruct (closable m s p) eqn:E.
  - rewrite decide_True by (by apply Hin). by rewrite option_guard_False.
  - rewrite decide_False by (rewrite Hin; done). by rewrite option_guard_True.
Qed.

(** The emergency flatten closes every open position it can price and
    nothing else: with the held symbols in any order, the positions left are
    exactly those without shares or without a price; each open position is
    reported once, sold with all its shares or skipped; the cash and the
    reported total grow by the proceeds of the sold ones in that order; and
    a second flatten with the same prices sells nothing. *)
Theorem flatten_closes_priced newID now symbols reason m
    (Hsym : symbols ≡ₚ map fst (map_to_list (positions m))) :
  let '(r, m') := EmergencyFlatten Save newID now symbols reason m in
  positions m' = filter (fun sp => closable m sp.1 sp.2 = false) (positions m)
  /\ map sold_Symbol (Sold r) = picked closable m symbols
  /\ map skip_Symbol (Skipped r) = picked skipped_at m symbols
  /\ Forall (fun o => exists p, positions m !! sold_Symbol o = Some p
                          /\ sold_Quantity o = PositionInfo.Quantity p) (Sold r)
  /\ cash m' = foldl fadd (cash m) (map sold_NetProceeds (Sold r))
  /\ SoldTotal r = foldl fadd f0 (map sold_NetProceeds (Sold r))
  /\ forall newID' now' symbols' reason',
       symbols' ≡ₚ map fst (map_to_list (positions m')) ->
       Sold (fst (EmergencyFlatten Save newID' now' symbols' reason' m')) = [].
Proof.
  assert (Hnd : forall (m0 : MockTrader S) ss, ss ≡ₚ map fst (map_to_list (positions m0)) -> NoDup ss).
  { intros m0 ss ->. apply NoDup_fst_map_to_list. }
  pose proof (flatten_books newID now symbols reason m) as [Hp Hc Ht (_ & HP & _) Hsold _].
  destruct (flatten_reports newID now symbols reason m (Hnd m symbols Hsym)) as [P1 P2].
  pose proof (flatten_leaves newID now symbols reason m Hsym) as Hleft.
  destruct (EmergencyFlatten Save newID now symbols reason m) as [r m']. cbn [fst snd] in *.
  do 6 (split; [done|]). intros nid nw ss rs Hss.
  destruct (flatten_reports nid nw ss rs m' (Hnd m' ss Hss)) as [Q1 _]. apply (fmap_nil_inv sold_Symbol).
  change (map sold_Symbol (Sold (fst (EmergencyFlatten Save nid nw ss rs m'))) = []). rewrite Q1.
  unfold picked. clear - Hleft HP. induction ss as [|s ss IH]; cbn [List.filter]; [done|]. rewrite IH.
  rewrite Hleft, map_lookup_filter. destruct (positions m !! s) as [p|]; cbn; [|done].
  destruct (decide (closable m s p = false)) as [E|E]; [|by rewrite option_guard_False].
  rewrite option_guard_True by done. cbn. unfold closable in *. rewrite (flatten_price_same m m' s p HP).
  by rewrite E.
Qed.

(** ** One order *)

(** The record the store receives for a filled order. *)
Definition store_record (now : Time) (o : OrderResult.t) : OrderRecord.t :=
  OrderRecord.Mk (OrderResult.OrderID o) (OrderResult.Symbol o) (OrderResult.Direction o)
    (OrderResult.OrderType o) (OrderResult.Quantity o) (OrderResult.FilledQty o) (OrderResult.Price o)
    (OrderResult.Price o) (lit "filled") now now [].

(** What a filled order did: money, shares and files. *)
Record order_booked (now : Time) (s : bytes) (o : OrderResult.t) (m m' : MockTrader S) : Prop := {
  ob_cash : cash m' = (let value := (OrderResult.Quantity o * OrderResult.FillPrice o)%f64 in
                       if bool_decide (OrderResult.Direction o = DirectionLong)
                       then cash m - (value + OrderResult.Fee o) else cash m + (value - OrderResult.Fee o))%f64;
  ob_funded : OrderResult.Direction o = DirectionLong ->
    flt (cash m) (OrderResult.Quantity o * OrderResult.FillPrice o + OrderResult.Fee o)%f64 = false;
  ob_others : forall s', s' <> s -> positions m' !! s' = positions m !! s';
  ob_filed : orders m' = <[OrderResult.OrderID o := o]> (orders m);
  ob_final : final_order (OrderResult.OrderID o) o;
  ob_store : OrderStore m' = (fun st => snd (Save (store_record now o) st)) <$> OrderStore m
}.

Lemma filed_store now oid s d ty q px fp fee m m1 :
  OrderStore m1 = OrderStore m ->
  let o := filled_order oid s d ty q px now [] fp fee in
  OrderStore (file_order Save now o px [] m1) = (fun st => snd (Save (store_record now o) st)) <$> OrderStore m.
Proof.
  intros Hs. cbn zeta. unfold file_order, persistOrder. cbn [OrderStore set_orders]. rewrite Hs.
  by destruct (OrderStore m).
Qed.

(** The outcome of an order. A refused order leaves the account, the
    files and the store as they were. A filled one moves the cash by exactly
    its value and its fee, touches no other position, is filed under its
    identifier as completely filled, and sends the store one record, whose
    average fill price is the reference price; a buy was covered by the
    cash, which it leaves not negative. *)
Theorem order_outcome oid now s d ty q px m r m'
    (Hsub : SubmitOrder Save oid now s d ty q px m = (r, m')) :
  match r with
  | Err _ => m' = m
  | Ok o => OrderResult.OrderID o = oid /\ OrderResult.Symbol o = s /\ OrderResult.Direction o = d
            /\ order_booked now s o m m'
            /\ (d = DirectionLong -> fvalid (cash m) = true ->
                fvalid (OrderResult.Quantity o * OrderResult.FillPrice o + OrderResult.Fee o)%f64 = true ->
                flt (cash m') f0 = false)
  end.
Proof.
  unfold SubmitOrder in Hsub. destruct (_ <=? _)%f64; [by injection Hsub as <- <-|].
  case_bool_decide; [by injection Hsub as <- <-|]. destruct (_ <=? _)%f64; [by injection Hsub as <- <-|].
  destruct d; try (by injection Hsub as <- <-).
  - unfold executeBuy in Hsub. destruct (_ >? _)%f64 eqn:Hcash; injection Hsub as <- <-; [done|].
    set (fp := applyExecutionCost _ _ _ _ _) in *. set (fb := ComputeFees _ _ _) in *.
    do 3 (split; [done|]).
    match goal with |- order_booked _ _ ?o m ?mf /\ _ => assert (Hb : order_booked now s o m mf) end.
    { match goal with |- order_booked _ _ ?o _ (file_order _ _ _ ?a ?b ?m1) =>
        destruct (file_book now o a b m1) as (F1 & F2 & _) end.
      split.
      - exact F2.
      - intros _. exact Hcash.
      - intros s' Hne. rewrite F1. cbn [positions set_positions]. by rewrite lookup_insert_ne.
      - by rewrite file_orders.
      - done.
      - by apply filed_store. }
    split; [done|]. intros _ Hv1 Hv2. rewrite (ob_cash _ _ _ _ _ Hb). by apply fsub_not_negative.
  - unfold executeSell in Hsub. destruct (positions m !! s) as [p|]; [|by injection Hsub as <- <-].
    destruct (_ <=? _)%f64; [by injection Hsub as <- <-|]. destruct (_ <=? _)%f64; [by injection Hsub as <- <-|].
    injection Hsub as <- <-.
    set (q' := if (q >? _)%f64 then _ else _). set (fp := applyExecutionCost _ _ _ _ _).
    set (fb := ComputeFees _ _ _). do 3 (split; [done|]). split; [|done].
    match goal with |- order_booked _ _ ?o _ (file_order _ _ _ ?a ?b ?m1) =>
      destruct (file_book now o a b m1) as (F1 & F2 & _) end.
    split.
    + exact F2.
    + done.
    + intros s' Hne. rewrite F1. cbn [positions set_positions]. by rewrite lookup_partial_alter_ne.
    + by rewrite file_orders.
    + done.
    + by apply filed_store.
Qed.

(** ** Paper and back-test prices *)

Definition cost_config (c : MockTraderConfig) : ExecutionConfig :=
  MkExecutionConfig (SlippageModel c) (CommissionRate c) (MinCommission c) (ImpactSigma c)
    (ImpactLiquidityFactor c).

(** The paper trader's bar as the back-test service sees it. *)
Definition bar_of (s : bytes) (date : Time) (b : Quote.t) : OHLCV.t :=
  OHLCV.Mk s date (Quote.Open b) (Quote.High b) (Quote.Low b) (Quote.Close b) (f64_of_Z (Quote.Volume b)).

Lemma cost_on_bar s d q px b (m : MockTrader S) :
  SlippageModel (config m) <> [] -> currentBar s m = Some b ->
  feq (Quote.High b) f0 && feq (Quote.Low b) f0 = false ->
  applyExecutionCost s d q px m
  = SlippagePrice (cost_config (config m)) px d q (f64_of_Z (Quote.Volume b)) (Quote.High b) (Quote.Low b).
Proof.
  intros Hm Hb Hr. unfold applyExecutionCost, bar_inputs. rewrite bool_decide_false, Hb by done.
  cbn [fst snd]. by rewrite Hr.
Qed.

Lemma filled_at oid now s d ty q px m o m' :
  SubmitOrder Save oid now s d ty q px m = (Ok o, m') ->
  OrderResult.FillPrice o = applyExecutionCost s d (OrderResult.Quantity o) (reference_price s ty px m) m.
Proof.
  unfold SubmitOrder. destruct (_ <=? _)%f64; [done|]. case_bool_decide; [done|].
  destruct (_ <=? _)%f64; [done|]. destruct d; try done.
  - unfold executeBuy. destruct (_ >? _)%f64; [done|]. by intros [= <- _].
  - unfold executeSell. destruct (positions m !! s) as [p|]; [|done].
    do 2 (destruct (_ <=? _)%f64; [done|]). by intros [= <- _].
Qed.

(** Paper and back-test trade at the same cost. When the paper trader
    runs a slippage model and sees the current bar, the back-test execution
    service under the same configuration fills the same market order of the
    filled quantity against the same bar at the same price and for the same
    commission, to the last bit, whatever the model (fixed, variable,
    impact or none). *)
Theorem paper_fill_is_backtest_fill oid now s d px m o m' b date q
    (Hmodel : SlippageModel (config m) <> []) (Hbar : currentBar s m = Some b)
    (Hclose : flt f0 (Quote.Close b) = true)
    (Hrange : feq (Quote.High b) f0 && feq (Quote.Low b) f0 = false)
    (Hmin : flt f0 (MinCommission (config m)) = true)
    (Hsub : SubmitOrder Save oid now s d OrderTypeMarket q px m = (Ok o, m'))
    (Hqty : flt f0 (OrderResult.Quantity o) = true) (Hfill : flt f0 (OrderResult.FillPrice o) = true)
    (Hvalue : flt f0 (OrderResult.Quantity o * OrderResult.FillPrice o)%f64 = true)
    (Hrate : is_nan (OrderResult.Quantity o * OrderResult.FillPrice o * CommissionRate (config m))%f64 = false) :
  let value := (OrderResult.Quantity o * OrderResult.FillPrice o)%f64 in
  let order := Order.Mk s d OrderTypeMarket (OrderResult.Quantity o) f0 now f0 f0 [] in
  ExecuteOrder (NewBacktestExecutionService (cost_config (config m))) order (bar_of s date b)
  = Ok (Trade.Mk s d (OrderResult.Quantity o) (OrderResult.FillPrice o)
          (Commission (ComputeFees value (bool_decide (d = DirectionClose)) (feeSchedule m)))
          f0 f0 date f0 f0).
Proof.
  cbn zeta. pose proof (filled_at _ _ _ _ _ _ _ _ _ _ Hsub) as Hfp.
  unfold reference_price in Hfp. rewrite bool_decide_true, Hbar, Hclose in Hfp by done.
  rewrite (cost_on_bar s d _ _ b m) in Hfp by done.
  assert (Hpos : forall x, flt f0 x = true -> fle x f0 = false).
  { intros x Hx. destruct (fle x f0) eqn:E; [|done]. by rewrite (fle_not_gt _ _ E) in Hx. }
  unfold ExecuteOrder, execution_price, applySlippage, calculateCommission, ModelCommission, ComputeFees.
  cbn [Order.Mk Order.Quantity Order.OrderType Order.Direction Order.Symbol bar_of OHLCV.Close OHLCV.High OHLCV.Low
       OHLCV.Volume OHLCV.Date res_bind NewBacktestExecutionService svc_config].
  rewrite (Hpos _ Hqty). change (svc_core _) with (cost_config (config m)). rewrite <- Hfp.
  rewrite (Hpos _ Hfill), (Hpos _ Hvalue). do 2 f_equal. cbn [Commission MarketRules.CommissionRate
    MarketRules.MinCommission feeSchedule cost_config EC_CommissionRate EC_MinCommission].
  rewrite MathMax_floor by done. by rewrite (fmul_comm (OrderResult.FillPrice o)).
Qed.
End Paper.

(** ** A concrete account *)

Definition demo_store : OrderRecord.t -> list OrderRecord.t -> bool * list OrderRecord.t :=
  fun r s => (true, s ++ [r]).

Definition demo_trader : MockTrader (list OrderRecord.t) :=
  NewMockTrader (MkConfig f0 f0 f0 f0 f0 f0 [] f0 f0) (Some (fun _ => f64_of_Z 10)) (Some []).

Definition demo_sym : bytes := lit "600000.SH".

Definition demo_req (d : Direction) (n : Z) (id : string) : trader_op :=
  OpOrder (MkReq (lit id) 7 demo_sym d OrderTypeMarket n f0).

(** A purchase, a same-day sale that is refused, the next day a sale and a
    purchase, then a flatten. *)
Definition demo_ops : list trader_op :=
  [demo_req DirectionLong 100 "a"; demo_req DirectionClose 60 "b"; OpCancel 7 (lit "a"); OpAdvance;
   demo_req DirectionClose 60 "c"; demo_req DirectionLong 30 "d"; demo_req DirectionClose 100 "e";
   OpFlatten (fun _ => lit "f") 8 [demo_sym] []].

Definition out_shares (o : trader_out) : Z :=
  match o with
  | Traded k => k
  | Refused _ => -1
  | Flattened r => Z.of_nat (length (Sold r))
  | Silent => 0
  end.

Lemma paper_refines_ledger_witness :
  map out_shares (fst (trader_run demo_store demo_ops demo_trader)) = [100; -1; -1; 0; 60; 30; 40; 1]
  /\ exists L', paper_run ∅ demo_ops (fst (trader_run demo_store demo_ops demo_trader)) L'
       /\ paper_rep (run_adds demo_ops) (snd (trader_run demo_store demo_ops demo_trader)) L'.
Proof.
  split; [vm_compute; reflexivity|]. apply (paper_refines_ledger demo_store demo_ops demo_trader).
  - reflexivity.
  - reflexivity.
  - repeat constructor.
  - vm_compute. reflexivity.
Defined.

(** Two positions, one of which has no price. *)
Definition demo_info (s : string) (n price : Z) : PositionInfo.t :=
  PositionInfo.Mk (lit s) (f64_of_Z n) f0 (f64_of_Z price) (f64_of_Z price) f0 f0 (f64_of_Z n) f0.

Definition two_positions : MockTrader (list OrderRecord.t) :=
  set_positions (<[lit "A" := demo_info "A" 100 10]> (<[lit "B" := demo_info "B" 50 0]> ∅))
    (NewMockTrader (MkConfig f0 f0 f0 f0 f0 f0 [] f0 f0) None (Some [])).

Lemma flatten_closes_priced_witness :
  let r := fst (EmergencyFlatten demo_store (fun _ => lit "f") 8 [lit "B"; lit "A"] [] two_positions) in
  map sold_Symbol (Sold r) = [lit "A"] /\ map skip_Symbol (Skipped r) = [lit "B"]
  /\ SoldTotal r = foldl fadd f0 (map sold_NetProceeds (Sold r)).
Proof.
  pose proof (flatten_closes_priced demo_store (fun _ => lit "f") 8 [lit "B"; lit "A"] [] two_positions) as H.
  assert (Hsym : [lit "B"; lit "A"] ≡ₚ map fst (map_to_list (positions two_positions))).
  { vm_compute. reflexivity || (constructor; constructor). }
  specialize (H Hsym).
  destruct (EmergencyFlatten demo_store (fun _ => lit "f") 8 [lit "B"; lit "A"] [] two_positions) as [r m'].
  destruct H as (_ & H1 & H2 & _ & _ & H3 & _). cbn [fst]. rewrite H1, H2.
  split; [vm_compute; reflexivity|]. split; [vm_compute; reflexivity|exact H3].
Defined.

Lemma order_outcome_witness :
  let '(r, m') := SubmitOrder demo_store (lit "a") 7 demo_sym DirectionLong OrderTypeMarket (f64_of_Z 100) f0
                    demo_trader in
  is_ok r = true /\ flt (cash m') f0 = false
  /\ exists o, r = Ok o /\ order_booked demo_store 7 demo_sym o demo_trader m'.
Proof.
  pose proof (order_outcome demo_store (lit "a") 7 demo_sym DirectionLong OrderTypeMarket (f64_of_Z 100) f0
                demo_trader) as H.
  assert (Hok : is_ok (fst (SubmitOrder demo_store (lit "a") 7 demo_sym DirectionLong OrderTypeMarket
                  (f64_of_Z 100) f0 demo_trader)) = true) by (vm_compute; reflexivity).
  assert (Hcash : flt (cash (snd (SubmitOrder demo_store (lit "a") 7 demo_sym DirectionLong OrderTypeMarket
                  (f64_of_Z 100) f0 demo_trader))) f0 = false) by (vm_compute; reflexivity).
  destruct (SubmitOrder demo_store (lit "a") 7 demo_sym DirectionLong OrderTypeMarket (f64_of_Z 100) f0
              demo_trader) as [r m']. specialize (H r m' eq_refl). cbn [fst snd] in *.
  split; [exact Hok|]. split; [exact Hcash|]. destruct r as [o|e]; [|discriminate Hok].
  exists o. split; [reflexivity|]. apply H.
Defined.

(** A trader under the impact model, with a bar of 100 000 shares. *)
Definition impact_bar : Quote.t := Quote.Mk (f64_of_Z 10) (f64_of_Z 11) (f64_of_Z 9) (f64_of_Z 10) 100000.

Definition impact_trader : MockTrader (list OrderRecord.t) :=
  SetCurrentBarProvider (Some (fun _ => Some impact_bar))
    (NewMockTrader (MkConfig f0 f0 f0 f0 f0 f0 (lit "impact") (flit 2 2) f0) None (Some [])).

Definition impact_submit :=
  SubmitOrder demo_store (lit "a") 7 demo_sym DirectionLong OrderTypeMarket (f64_of_Z 1000) f0 impact_trader.

Lemma paper_fill_is_backtest_fill_witness :
  exists o m', impact_submit = (Ok o, m') /\ flt (f64_of_Z 10) (OrderResult.FillPrice o) = true
  /\ exists tr, ExecuteOrder (NewBacktestExecutionService (cost_config (config impact_trader)))
                 (Order.Mk demo_sym DirectionLong OrderTypeMarket (OrderResult.Quantity o) f0 7 f0 f0 [])
                 (bar_of demo_sym 5 impact_bar) = Ok tr
       /\ Trade.Price tr = OrderResult.FillPrice o.
Proof.
  assert (Hok : is_ok (fst impact_submit) = true) by (vm_compute; reflexivity).
  assert (Hb : forall o, fst impact_submit = Ok o ->
    flt (f64_of_Z 10) (OrderResult.FillPrice o) = true /\ flt f0 (OrderResult.Quantity o) = true
    /\ flt f0 (OrderResult.FillPrice o) = true
    /\ flt f0 (OrderResult.Quantity o * OrderResult.FillPrice o)%f64 = true
    /\ is_nan (OrderResult.Quantity o * OrderResult.FillPrice o * CommissionRate (config impact_trader))%f64 = false).
  { intros o. vm_compute. intros [= <-]. repeat split. }
  destruct impact_submit as [r m'] eqn:E. cbn [fst] in *. destruct r as [o|e]; [|discriminate Hok].
  destruct (Hb o eq_refl) as (H1 & H2 & H3 & H4 & H5).
  exists o, m'. split; [reflexivity|]. split; [exact H1|].
  pose proof (paper_fill_is_backtest_fill demo_store (lit "a") 7 demo_sym DirectionLong f0 impact_trader o m'
    impact_bar 5 (f64_of_Z 1000) ltac:(discriminate) eq_refl ltac:(vm_compute; reflexivity)
    ltac:(vm_compute; reflexivity) ltac:(vm_compute; reflexivity) E H2 H3 H4 H5) as H.
  eexists. split; [exact H|]. reflexivity.
Defined.
