(* ===== verification/StockState.v ===== *)
(** * StockState: listing states and forced liquidation
      (src/pkg/live/stockstate/stock_state.go)

    The registry keeps the listing state of each stock and lets it move along
    the delisting graph only; the liquidator scans the registry and flattens
    an account that holds a stock close to its delisting. The account is the
    interface [LiveTrader], with the paper trader as an instance. Logging is
    left out; the clock is an argument. *)

From stdpp Require Import base list strings gmap sorting.
From Stdlib Require Import ZArith Lia Ascii.
From S2P Require Import Prelude GoMap GoFloat Domain MockTrader.

Open Scope Z_scope.

Inductive StockState := Listed | Suspended | Delisting | Delisted | UnknownState (s : bytes).

#[global] Instance StockState_eq_dec : EqDecision StockState.
Proof. solve_decision. Defined.

Definition IsTerminal (s : StockState) : bool := bool_decide (s = Delisted).

Record StockStateRecord := MkStock {
  st_Symbol : bytes;
  st_State : StockState;
  st_Reason : bytes;
  DelistingPeriodStart : Time;
  DelistingPeriodEnd : Time;
  DelistedDate : Time;
  st_UpdatedAt : Time
}.

Definition hour : Z := 3600 * 1000000000.
Definition day : Z := 24 * hour.

(** [time.Time.Sub]: a duration is an int64 and saturates. *)
Definition time_sub (a b : Time) : Z := Z.max min_int64 (Z.min max_int64 (a - b)).

Definition IsInDelistingWindow (now : Time) (window : Z) (r : StockStateRecord) : bool :=
  if negb (bool_decide (st_State r = Delisting)) then false
  else if IsZero (DelistedDate r) then false
  else (now <? DelistedDate r) && (time_sub (DelistedDate r) now <=? window).

(** [NewStockStateRegistry] and [NewForcedLiquidator] replace a window of zero
    by five days. *)
Definition window_or_default (window : Z) : Z := if window =? 0 then 5 * day else window.

Abbreviation Registry := (gmap bytes StockStateRecord).

Definition isValidStockState (s : StockState) : bool :=
  match s with UnknownState _ => false | _ => true end.

Definition isLegalTransition (from to : StockState) : bool :=
  match from, to with
  | Listed, (Suspended | Delisting | Delisted) => true
  | Suspended, (Listed | Delisting) => true
  | Delisting, Delisted => true
  | _, _ => false
  end.

Inductive state_error :=
| StockSymbolRequired
| InvalidState (s : StockState)
| ErrIllegalStateTransition (symbol : bytes) (from to : StockState)
| DelistedDateRequired (s : StockState).

(** The record a transition writes. *)
Definition next_record (now : Time) (symbol : bytes) (state : StockState) (reason : bytes) (delistedDate : Time)
    (prev : option StockStateRecord) : res state_error StockStateRecord :=
  if bool_decide (state = Delisting) || bool_decide (state = Delisted) then
    if IsZero delistedDate then Err (DelistedDateRequired state)
    else if bool_decide (state = Delisted)
    then Ok (MkStock symbol state reason delistedDate delistedDate delistedDate now)
    else Ok (MkStock symbol state reason (delistedDate - 21 * day) (delistedDate - day) delistedDate now)
  else match prev with
       | Some p => Ok (MkStock symbol state reason (DelistingPeriodStart p) (DelistingPeriodEnd p) (DelistedDate p) now)
       | None => Ok (MkStock symbol state reason 0 0 0 now)
       end.

Definition SetState (now : Time) (symbol : bytes) (state : StockState) (reason : bytes) (delistedDate : Time)
    (r : Registry) : res state_error unit * Registry :=
  if bool_decide (symbol = []) then (Err StockSymbolRequired, r)
  else if negb (isValidStockState state) then (Err (InvalidState state), r)
  else
    let prev := r !! symbol in
    match prev with
    | Some p =>
        if negb (isLegalTransition (st_State p) state)
        then (Err (ErrIllegalStateTransition symbol (st_State p) state), r)
        else match next_record now symbol state reason delistedDate prev with
             | Err e => (Err e, r)
             | Ok rec => (Ok tt, <[symbol := rec]> r)
             end
    | None =>
        match next_record now symbol state reason delistedDate prev with
        | Err e => (Err e, r)
        | Ok rec => (Ok tt, <[symbol := rec]> r)
        end
    end.

(** [Delete]; [GetState] is the lookup. *)
Definition DeleteState (symbol : bytes) (r : Registry) : Registry := delete symbol r.

(** [sort.Slice] by the delisting date: any order among equal dates is the
    stable sort of some iteration order. *)
Definition by_date (a b : StockStateRecord) : Prop := DelistedDate a <= DelistedDate b.
#[global] Instance by_date_dec a b : Decision (by_date a b).
Proof. apply Z_le_dec. Defined.

Definition ListByState `{!MapOrder} (state : option StockState) (r : Registry) : list StockStateRecord :=
  merge_sort by_date
    (List.filter (fun rec => match state with None => true | Some s => bool_decide (st_State rec = s) end)
       (map snd (range 0 r))).

Definition AllSymbols (r : Registry) : list bytes := sortedKeys r.

(** ** The liquidator *)

(** What it calls of an account: the positions as (symbol, quantity), and the
    emergency flatten. *)
Class LiveTrader (T : Type) := {
  TraderPositions : T -> res bytes (list (bytes * float64));
  TraderFlatten : bytes -> T -> res bytes EmergencyFlattenResult * T
}.

Record LiquidationAction := MkLiquidation {
  la_Symbol : bytes;
  la_State : StockState;
  la_DelistedDate : Time;
  la_Quantity : float64;
  la_Sold : bool;
  la_Reason : bytes
}.

Record LiquidationResult := MkLiqResult {
  Actions : list LiquidationAction;
  TotalSold : Z;
  TotalSkipped : Z
}.

Inductive scan_error := FetchPositions (e : bytes) | ScanCancelled (e : bytes).

Definition add_action (a : LiquidationAction) (r : LiquidationResult) : LiquidationResult :=
  MkLiqResult (Actions r ++ [a]) (if la_Sold a then TotalSold r + 1 else TotalSold r)
    (if la_Sold a then TotalSkipped r else TotalSkipped r + 1).

(** The flattened quantity of a symbol, if the flatten sold it. *)
Definition sold_of (symbol : bytes) (f : EmergencyFlattenResult) : option float64 :=
  match List.filter (fun o => bool_decide (sold_Symbol o = symbol)) (Sold f) with
  | o :: _ => Some (sold_Quantity o)
  | [] => None
  end.

Section Liquidator.
Context {T : Type} `{!LiveTrader T} `{!MapOrder}.
(** [time.Format("2006-01-02")] in the reason of a flatten. *)
Context (FormatDate : Time -> bytes).

(** One candidate; [ctx] is the state of the context at this turn. [Err] ends
    the scan. *)
Definition scan_step (now : Time) (window : Z) (posBySymbol : gmap bytes float64) (ctx : option bytes)
    (rec : StockStateRecord) (st : LiquidationResult * T) : res scan_error (LiquidationResult * T) :=
  let '(res, t) := st in
  let action := MkLiquidation (st_Symbol rec) (st_State rec) (DelistedDate rec) in
  if negb (IsInDelistingWindow now window rec)
  then Ok (add_action (action f0 false (lit "outside_window")) res, t)
  else match ctx with
  | Some e => Err (ScanCancelled e)
  | None =>
      let qty := default f0 (posBySymbol !! st_Symbol rec) in
      if (qty <=? f0)%f64 then Ok (add_action (action qty false (lit "no_position")) res, t)
      else
        let reason := lit "forced_liquidation_delisting:" ++ st_Symbol rec ++ lit ":" ++ FormatDate (DelistedDate rec) in
        match TraderFlatten reason t with
        | (Err e, t) => Ok (add_action (action qty false (lit "flatten_error: " ++ e)) res, t)
        | (Ok f, t) =>
            match sold_of (st_Symbol rec) f with
            | Some q => Ok (add_action (action q true []) res, t)
            | None => Ok (add_action (action qty false (lit "flatten_returned_no_sell")) res, t)
            end
        end
  end.

Fixpoint scan_loop (now : Time) (window : Z) (posBySymbol : gmap bytes float64)
    (cands : list (StockStateRecord * option bytes)) (st : LiquidationResult * T)
    : (LiquidationResult * option scan_error) * T :=
  match cands with
  | [] => (fst st, None, snd st)
  | (rec, ctx) :: rest =>
      match scan_step now window posBySymbol ctx rec st with
      | Err e => (fst st, Some e, snd st)
      | Ok st => scan_loop now window posBySymbol rest st
      end
  end.

(** [Scan]: [ctxs] gives the context's state at each candidate. *)
Definition Scan (now : Time) (window : Z) (ctxs : nat -> option bytes) (r : Registry) (t : T)
    : (option LiquidationResult * option scan_error) * T :=
  let candidates := ListByState (Some Delisting) r in
  match candidates with
  | [] => (Some (MkLiqResult [] 0 0), None, t)
  | _ =>
      match TraderPositions t with
      | Err e => (None, Some (FetchPositions e), t)
      | Ok ps =>
          let posBySymbol := foldl (fun m (p : bytes * float64) => <[p.1 := p.2]> m) ∅ ps in
          let '(res, err, t) := scan_loop now window posBySymbol (imap (fun i rec => (rec, ctxs i)) candidates)
                                  (MkLiqResult [] 0 0, t) in
          (Some res, err, t)
      end
  end.
End Liquidator.

(** ** The paper trader as an account *)

Section Mock.
Context {S : Type} (Save : OrderRecord.t -> S -> bool * S) (newID : bytes -> bytes) (clock : Time).

Definition Mock_LiveTrader `{!MapOrder} : LiveTrader (MockTrader S) := {|
  TraderPositions := fun m =>
    Ok (map (fun p => (PositionInfo.Symbol p, PositionInfo.Quantity p))
          (MockTrader.GetPositions (map fst (range 0 (positions m))) m));
  TraderFlatten := fun reason m =>
    let '(f, m) := EmergencyFlatten Save newID clock (map fst (range 1 (positions m))) reason m in (Ok f, m)
|}.
End Mock.
