(* ===== verification/StockProps.v ===== *)
(** * StockProps: what the listing states guarantee

    The registry moves a stock along the delisting graph only and keeps its
    timeline in order. The liquidator, on the paper trader, leaves the account
    alone or sells everything in it. *)

From stdpp Require Import base list strings gmap sorting.
From Stdlib Require Import ZArith Lia Ascii.
From S2P Require Import Prelude GoMap GoFloat Domain MockTrader MockProps StockState.

Open Scope Z_scope.

(** ** The registry *)

Record set_op := MkSet {
  op_now : Time;
  op_symbol : bytes;
  op_state : StockState;
  op_reason : bytes;
  op_date : Time
}.

Definition apply_set (r : Registry) (o : set_op) : Registry :=
  snd (SetState (op_now o) (op_symbol o) (op_state o) (op_reason o) (op_date o) r).

(** The delisting graph, taken any number of steps. *)
Definition leads_to : StockState -> StockState -> Prop := rtc (fun a b => isLegalTransition a b = true).

Definition in_delisting (s : StockState) : Prop := s = Delisting \/ s = Delisted.

Record stock_ok (symbol : bytes) (rec : StockStateRecord) : Prop := {
  so_symbol : st_Symbol rec = symbol;
  so_state : isValidStockState (st_State rec) = true;
  so_dated : in_delisting (st_State rec) ->
    DelistedDate rec <> 0 /\ DelistingPeriodStart rec <= DelistingPeriodEnd rec <= DelistedDate rec;
  so_plain : ~ in_delisting (st_State rec) -> DelistedDate rec = 0
}.

Definition registry_ok (r : Registry) : Prop := map_Forall stock_ok r.

Lemma SetState_cases now symbol state reason date r :
  snd (SetState now symbol state reason date r) = r
  \/ exists rec, fst (SetState now symbol state reason date r) = Ok tt
       /\ snd (SetState now symbol state reason date r) = <[symbol := rec]> r
       /\ isValidStockState state = true /\ next_record now symbol state reason date (r !! symbol) = Ok rec
       /\ (forall p, r !! symbol = Some p -> isLegalTransition (st_State p) state = true).
Proof.
  unfold SetState. case_bool_decide; [by left|]. destruct (isValidStockState state) eqn:Ev; [|by left]. cbn [negb]. cbv zeta.
  destruct (r !! symbol) as [p|] eqn:Ep.
  - destruct (isLegalTransition (st_State p) state) eqn:El; [|by left]. cbn [negb].
    destruct (next_record _ _ _ _ _ _) as [rec|e] eqn:En; [right|by left]. exists rec.
    do 4 (split; [done|]). by intros p' [= <-].
  - destruct (next_record _ _ _ _ _ _) as [rec|e] eqn:En; [right|by left]. exists rec. do 4 (split; [done|]). done.
Qed.

Lemma next_record_spec now symbol state reason date prev rec :
  next_record now symbol state reason date prev = Ok rec -> isValidStockState state = true ->
  (forall p, prev = Some p -> stock_ok symbol p /\ isLegalTransition (st_State p) state = true) ->
  st_State rec = state /\ stock_ok symbol rec.
Proof.
  intros E Hv Hp. unfold next_record in E. unfold day, hour in *.
  destruct (bool_decide (state = Delisting) || bool_decide (state = Delisted)) eqn:Ed.
  - destruct (IsZero date) eqn:Ez; [discriminate|]. unfold IsZero in Ez. apply Z.eqb_neq in Ez.
    case_bool_decide as Es; injection E as <-; (split; [done|]); (constructor; cbn; [done|done| |]).
    + intros _. split; [exact Ez|lia].
    + intros Hn. destruct Hn. by right.
    + intros _. split; [exact Ez|lia].
    + intros Hn. destruct Hn. rewrite orb_false_r in Ed. apply bool_decide_eq_true in Ed. by left.
  - apply orb_false_iff in Ed as [E1 E2]. apply bool_decide_eq_false in E1, E2.
    destruct prev as [p|]; injection E as <-; (split; [done|]); (constructor; cbn; [done|done| |]).
    + intros [?|?]; done.
    + intros _. destruct (Hp p eq_refl) as [Hok Hl]. apply (so_plain _ _ Hok).
      intros [Hd|Hd]; rewrite Hd in Hl; destruct state; discriminate || congruence.
    + intros [?|?]; done.
    + done.
Qed.

Lemma apply_set_ok r o : registry_ok r -> registry_ok (apply_set r o).
Proof.
  intros Hr. unfold apply_set.
  destruct (SetState_cases (op_now o) (op_symbol o) (op_state o) (op_reason o) (op_date o) r)
    as [->|(rec & _ & -> & Hv & En & Hl)]; [done|].
  apply map_Forall_insert_2; [|done]. eapply next_record_spec; [exact En|done|].
  intros p Ep. split; [by apply Hr|by apply Hl].
Qed.

Lemma apply_set_leads r o s rec :
  registry_ok r -> r !! s = Some rec ->
  exists rec', apply_set r o !! s = Some rec' /\ leads_to (st_State rec) (st_State rec')
    /\ (st_State rec = Delisted -> rec' = rec).
Proof.
  intros Hr Es. unfold apply_set.
  destruct (SetState_cases (op_now o) (op_symbol o) (op_state o) (op_reason o) (op_date o) r)
    as [->|(rec' & _ & -> & Hv & En & Hl)]; [exists rec; split; [done|]; split; [apply rtc_refl|done]|].
  destruct (decide (s = op_symbol o)) as [->|Hne].
  - exists rec'. rewrite lookup_insert_eq. split; [done|]. specialize (Hl rec Es).
    assert (st_State rec' = op_state o) as ->.
    { eapply next_record_spec; [exact En|done|]. intros p Ep. assert (p = rec) as -> by congruence.
      split; [by apply (Hr (op_symbol o))|done]. }
    split; [by apply rtc_once|]. intros Hd. rewrite Hd in Hl. by destruct (op_state o).
  - exists rec. rewrite lookup_insert_ne by done. split; [done|]. split; [apply rtc_refl|done].
Qed.

(** Delisting is a one-way street. Start from an empty registry and apply any
    calls of SetState, legal or not: every record on file carries its own
    symbol and a known state; a stock being or having been delisted has a
    date with its closing period in order before it, and no other stock has
    one. From any point on, a stock only ever moves along the delisting
    graph, and the record of a delisted one never changes again. *)
Theorem delisting_is_one_way (before after : list set_op) :
  let r := foldl apply_set ∅ before in
  let r' := foldl apply_set r after in
  registry_ok r'
  /\ forall s rec, r !! s = Some rec ->
       exists rec', r' !! s = Some rec' /\ leads_to (st_State rec) (st_State rec')
         /\ (st_State rec = Delisted -> rec' = rec).
Proof.
  assert (forall ops r, registry_ok r -> registry_ok (foldl apply_set r ops)) as Hok.
  { induction ops as [|o ops IH]; intros r Hr; [done|]. apply IH. by apply apply_set_ok. }
  cbv zeta. set (r := foldl apply_set ∅ before).
  assert (registry_ok r) as Hr by (apply Hok, map_Forall_empty). split; [by apply Hok|]. clearbody r.
  revert r Hr. induction after as [|o ops IH]; intros r Hr s rec Es;
    [exists rec; split; [done|]; split; [apply rtc_refl|done]|]. cbn [foldl].
  destruct (apply_set_leads r o s rec Hr Es) as (rec1 & E1 & L1 & D1).
  destruct (IH (apply_set r o) (apply_set_ok r o Hr) s rec1 E1) as (rec2 & E2 & L2 & D2).
  exists rec2. split; [done|]. split; [by etrans|].
  intros Hd. specialize (D1 Hd). subst rec1. by apply D2.
Qed.

(** ** The liquidator on the paper trader *)

Lemma foldl_insert_notin (l : list (bytes * float64)) (m : gmap bytes float64) s :
  s ∉ map fst l -> foldl (fun m (p : bytes * float64) => <[p.1 := p.2]> m) m l !! s = m !! s.
Proof.
  revert m. induction l as [|[k v] l IH]; intros m Hs; [done|]. cbn in *. apply not_elem_of_cons in Hs as [Hk Hs].
  rewrite IH by done. by rewrite lookup_insert_ne.
Qed.

Lemma foldl_insert_in (l : list (bytes * float64)) (m : gmap bytes float64) s q :
  NoDup (map fst l) -> (s, q) ∈ l -> foldl (fun m (p : bytes * float64) => <[p.1 := p.2]> m) m l !! s = Some q.
Proof.
  revert m. induction l as [|[k v] l IH]; intros m Hnd Hin; [by apply not_elem_of_nil in Hin|]. cbn in *.
  apply NoDup_cons in Hnd as [Hk Hnd]. apply elem_of_cons in Hin as [[= -> ->]|Hin]; [|by apply IH].
  rewrite foldl_insert_notin by done. by rewrite lookup_insert_eq.
Qed.

Lemma imap_fmap_const {A C} (f : A -> C) (l : list A) : imap (fun _ x => f x) l = map f l.
Proof. induction l as [|x l IH]; [done|]. cbn. f_equal. exact IH. Qed.

Section Scan.
Context {S : Type} (Save : OrderRecord.t -> S -> bool * S) (newID : bytes -> bytes) (clock : Time).
Context `{!MapOrder} (FormatDate : Time -> bytes).
#[local] Existing Instance Mock_LiveTrader.
#[local] Instance mock : LiveTrader (MockTrader S) := Mock_LiveTrader Save newID clock.

(** The positions of the account carry their symbols. *)
Definition keyed (m : MockTrader S) : Prop := forall s p, positions m !! s = Some p -> PositionInfo.Symbol p = s.

Lemma range_fst_NoDup (m : gmap bytes PositionInfo.t) k : NoDup (map fst (range k m)).
Proof. rewrite range_perm. apply NoDup_fst_map_to_list. Qed.

Lemma positions_listed (m : MockTrader S) :
  keyed m ->
  map (fun p => (PositionInfo.Symbol p, PositionInfo.Quantity p))
    (MockTrader.GetPositions (map fst (range 0 (positions m))) m)
  = map (fun e => (e.1, PositionInfo.Quantity e.2)) (range 0 (positions m)).
Proof.
  intros Hk. unfold MockTrader.GetPositions.
  assert (Forall (fun e : bytes * PositionInfo.t => positions m !! e.1 = Some e.2) (range 0 (positions m))) as Hall.
  { apply Forall_forall. intros [s p] Hin. by apply (range_elem 0) in Hin. }
  induction Hall as [|[s p] l Hp Hall IH]; [done|]. cbn in *. rewrite Hp. cbn. rewrite IH. f_equal.
  rewrite <- (Hk s p Hp). unfold marked, snapshot. by destruct (PriceProvider m).
Qed.

Definition held_map (m : MockTrader S) : gmap bytes float64 :=
  foldl (fun m (p : bytes * float64) => <[p.1 := p.2]> m) ∅
    (map (fun e => (e.1, PositionInfo.Quantity e.2)) (range 0 (positions m))).

Lemma held_map_lookup m s : held_map m !! s = PositionInfo.Quantity <$> positions m !! s.
Proof.
  unfold held_map. set (l := map _ (range 0 (positions m))).
  assert (map fst l = map fst (range 0 (positions m))) as El by (unfold l; rewrite map_map; reflexivity).
  destruct (positions m !! s) as [p|] eqn:Ep; cbn.
  - apply foldl_insert_in; [rewrite El; apply range_fst_NoDup|]. unfold l. apply list_elem_of_fmap.
    exists (s, p). split; [done|]. by apply range_elem.
  - rewrite foldl_insert_notin; [apply lookup_empty|]. rewrite El. intros Hin.
    apply list_elem_of_fmap in Hin as ([s' p] & -> & Hin). apply range_elem in Hin. cbn in Ep. congruence.
Qed.

(** The account after a flatten: a part of the old one that cannot be sold. *)
Definition flat (m t : MockTrader S) : Prop :=
  PriceProvider t = PriceProvider m
  /\ forall s p, positions t !! s = Some p -> positions m !! s = Some p /\ closable m s p = false.

Lemma flatten_flat reason (m t : MockTrader S) :
  t = m \/ flat m t -> flat m (snd (TraderFlatten reason t)).
Proof.
  intros Ht. cbn. pose proof (fi_same _ _ (flatten_books Save newID clock (map fst (range 1 (positions t))) reason t)) as (_ & HP & _).
  pose proof (flatten_leaves Save newID clock (map fst (range 1 (positions t))) reason t) as Hl.
  destruct (EmergencyFlatten _ _ _ _ _ t) as [f t']. cbn in *.
  assert (PriceProvider t = PriceProvider m) as Hm by (destruct Ht as [->|[? _]]; done).
  split; [congruence|]. intros s p Hs. rewrite Hl in Hs by (by rewrite range_perm). rewrite map_lookup_filter in Hs.
  destruct (positions t !! s) as [p'|] eqn:Ep; [|done]. cbn in Hs.
  destruct (decide (closable t s p' = false)) as [E|E]; [|by rewrite option_guard_False in Hs].
  rewrite option_guard_True in Hs by done. injection Hs as ->.
  destruct Ht as [->|[_ Ht]]; [done|]. by apply Ht.
Qed.

(** A stock whose delisting is close and that the account holds. *)
Definition endangered (now : Time) (window : Z) (m : MockTrader S) (rec : StockStateRecord) : bool :=
  IsInDelistingWindow now window rec && negb (default f0 (held_map m !! st_Symbol rec) <=? f0)%f64.

Lemma scan_step_effect now window m rec res t :
  t = m \/ flat m t ->
  exists res' t', scan_step FormatDate now window (held_map m) None rec (res, t) = Ok (res', t')
    /\ if endangered now window m rec then flat m t' else t' = t.
Proof.
  intros Ht. unfold scan_step, endangered. destruct (IsInDelistingWindow now window rec); cbn [negb andb]; [|eauto].
  destruct (_ <=? f0)%f64; cbn [negb]; [eauto|].
  set (reason := lit "forced_liquidation_delisting:" ++ _). pose proof (flatten_flat reason m t Ht) as Hf.
  destruct (TraderFlatten reason t) as [[f|e] t']; [|eauto]. destruct (sold_of _ f); eauto.
Qed.

Lemma scan_loop_effect now window m cands : forall res t,
  t = m \/ flat m t ->
  exists res' t', scan_loop FormatDate now window (held_map m) (map (fun rec => (rec, None)) cands) (res, t) = (res', None, t')
    /\ if existsb (endangered now window m) cands then flat m t' else t' = t.
Proof.
  induction cands as [|rec cands IH]; intros res t Ht; cbn [map scan_loop existsb]; [eauto|].
  destruct (scan_step_effect now window m rec res t Ht) as (res1 & t1 & -> & H1).
  assert (t1 = m \/ flat m t1) as Ht1 by (destruct (endangered now window m rec); [by right|by subst]).
  destruct (IH res1 t1 Ht1) as (res2 & t2 & -> & H2). exists res2, t2. split; [done|].
  destruct (endangered now window m rec); cbn [orb]; [|by subst].
  destruct (existsb _ cands); [done|by subst].
Qed.

(** A forced liquidation sells everything or nothing. On a paper account,
    when no stock that the account holds is inside its liquidation window, a
    scan changes nothing. As soon as one is, the scan sells every position of
    the account that has a price, also those of stocks that are not being
    delisted: the liquidator calls the emergency flatten, which knows no
    symbol. *)
Theorem scan_sells_everything_or_nothing now window r (m : MockTrader S) :
  keyed m ->
  let '(_, err, m') := Scan FormatDate now window (fun _ => None) r m in
  err = None
  /\ ((forall s rec p, r !! s = Some rec -> IsInDelistingWindow now window rec = true ->
         positions m !! st_Symbol rec = Some p -> fle (PositionInfo.Quantity p) f0 = true) -> m' = m)
  /\ (forall s rec p, r !! s = Some rec -> IsInDelistingWindow now window rec = true ->
        positions m !! st_Symbol rec = Some p -> fle (PositionInfo.Quantity p) f0 = false ->
        forall s' p', positions m' !! s' = Some p' -> positions m !! s' = Some p' /\ closable m s' p' = false).
Proof.
  intros Hk. unfold Scan. set (cands := ListByState (Some Delisting) r).
  assert (forall rec, rec ∈ cands <-> st_State rec = Delisting /\ exists s, r !! s = Some rec) as Hc.
  { intros rec. unfold cands, ListByState. rewrite merge_sort_Permutation, list_elem_of_In, List.filter_In, <- list_elem_of_In.
    rewrite bool_decide_eq_true, list_elem_of_fmap. split.
    - intros [([s v] & -> & Hin) Hs]. apply range_elem in Hin. eauto.
    - intros [Hs (s & Hin)]. split; [|done]. exists (s, rec). split; [done|]. by apply range_elem. }
  clearbody cands.
  assert (forall rec, IsInDelistingWindow now window rec = true -> st_State rec = Delisting) as Hw.
  { intros rec. unfold IsInDelistingWindow. case_bool_decide; [done|discriminate]. }
  assert (existsb (endangered now window m) cands = true <->
          exists s rec p, r !! s = Some rec /\ IsInDelistingWindow now window rec = true
            /\ positions m !! st_Symbol rec = Some p /\ fle (PositionInfo.Quantity p) f0 = false) as He.
  { rewrite existsb_exists. setoid_rewrite <- list_elem_of_In. unfold endangered. setoid_rewrite Hc.
    setoid_rewrite andb_true_iff. setoid_rewrite negb_true_iff. split.
    - intros (rec & [Hs (s & Hin)] & Hi & Hq). rewrite held_map_lookup in Hq.
      destruct (positions m !! st_Symbol rec) as [p|] eqn:Ep; cbn in Hq; [|discriminate]. eauto 8.
    - intros (s & rec & p & Hin & Hi & Ep & Hq). exists rec. split; [eauto|]. by rewrite held_map_lookup, Ep. }
  assert (exists res m', (match cands with [] => (Some (MkLiqResult [] 0 0), None, m) | _ =>
            let '(res, err, t) := scan_loop FormatDate now window (held_map m) (map (fun rec => (rec, None)) cands)
                                    (MkLiqResult [] 0 0, m) in (Some res, err, t) end) = (Some res, None, m')
          /\ if existsb (endangered now window m) cands then flat m m' else m' = m) as (res & m' & Em & Hm').
  { destruct cands as [|c cs]; [by exists (MkLiqResult [] 0 0), m|].
    destruct (scan_loop_effect now window m (c :: cs) (MkLiqResult [] 0 0) m (or_introl eq_refl)) as (res & m' & -> & Hm'). eauto. }
  cbn [TraderPositions mock Mock_LiveTrader]. rewrite positions_listed by done. fold (held_map m).
  replace (imap (fun (i : nat) rec => (rec, @None bytes)) cands) with (map (fun rec => (rec, @None bytes)) cands)
    by (symmetry; apply imap_fmap_const).
  rewrite Em. split; [done|]. destruct (existsb (endangered now window m) cands).
  - split; [|intros s rec p _ _ _ _; apply Hm']. intros Hno. exfalso.
    destruct (proj1 He eq_refl) as (s & rec & p & H1 & H2 & H3 & H4). by rewrite (Hno s rec p H1 H2 H3) in H4.
  - split; [done|]. intros s rec p H1 H2 H3 H4. exfalso. discriminate (proj2 He ltac:(eauto 8)).
Qed.
End Scan.

(** ** A concrete scan *)

Module StockSample.
Definition bad : bytes := lit "600000.SH".
Definition good : bytes := lit "000001.SZ".
Definition held (s : bytes) : PositionInfo.t :=
  PositionInfo.Mk s (f64_of_Z 100) (f64_of_Z 100) (f64_of_Z 9) (f64_of_Z 10) f0 f0 f0 (f64_of_Z 100).
Definition account : MockTrader unit :=
  MkTrader (MkConfig f0 (flit 3 4) (flit 5 4) (flit 1 4) (flit 1 5) (f64_of_Z 5) [] f0 f0) (Some (fun _ => f64_of_Z 10))
    None None {[bad := held bad; good := held good]} ∅ f0.
Definition registry : Registry := {[bad := MkStock bad Delisting [] 0 (2 * day) (3 * day) 0]}.
Definition save (_ : OrderRecord.t) (u : unit) : bool * unit := (true, u).
End StockSample.

Lemma scan_sells_everything_or_nothing_witness :
  IsInDelistingWindow day (5 * day) (MkStock StockSample.bad Delisting [] 0 (2 * day) (3 * day) 0) = true
  /\ let '(_, _, m') := @Scan (MockTrader unit) (@Mock_LiveTrader unit StockSample.save (fun s => s) 0 sorted_order)
                          sorted_order (fun _ => []) day (5 * day) (fun _ => None) StockSample.registry StockSample.account in
     positions m' !! StockSample.good = None.
Proof.
  assert (IsInDelistingWindow day (5 * day) (MkStock StockSample.bad Delisting [] 0 (2 * day) (3 * day) 0) = true) as Hw
    by (vm_compute; reflexivity).
  split; [exact Hw|].
  assert (keyed StockSample.account) as Hk.
  { intros s p Hs. unfold StockSample.account in Hs. cbn in Hs.
    apply lookup_insert_Some in Hs as [[<- <-]|[_ Hs]]; [reflexivity|].
    apply lookup_singleton_Some in Hs as [<- <-]. reflexivity. }
  pose proof (@scan_sells_everything_or_nothing unit StockSample.save (fun s => s) 0 sorted_order (fun _ => [])
                day (5 * day) StockSample.registry StockSample.account Hk) as T.
  unfold mock in T. destruct (Scan _ _ _ _ _ _) as [[res err] m']. destruct T as (_ & _ & T).
  destruct (positions m' !! StockSample.good) as [p|] eqn:E; [|reflexivity]. exfalso.
  destruct (T StockSample.bad (MkStock StockSample.bad Delisting [] 0 (2 * day) (3 * day) 0) (StockSample.held StockSample.bad)
              ltac:(vm_compute; reflexivity) Hw ltac:(vm_compute; reflexivity) ltac:(vm_compute; reflexivity)
              StockSample.good p E) as [Hp Hc].
  assert (p = StockSample.held StockSample.good) as ->.
  { assert (positions StockSample.account !! StockSample.good = Some (StockSample.held StockSample.good)) as H0
      by (vm_compute; reflexivity). congruence. }
  assert (closable StockSample.account StockSample.good (StockSample.held StockSample.good) = true) as H1
    by (vm_compute; reflexivity). congruence.
Defined.
