(* ===== verification/Tracker.v ===== *)
(** * Tracker: the back-test's portfolio (src/pkg/backtest/tracker)

    Cash, positions with T+1 settlement, the trade and order logs and the
    value history, with every operation of tracker.go and order_log.go. An
    operation is a function from the tracker to its result and the tracker
    it leaves; each holds the tracker's lock for its whole body, so runs are
    sequences of operations. Iteration over a Go map is in an order chosen
    by the runtime: [AdvanceDay] takes that order as an argument. *)

From stdpp Require Import base list strings gmap sorting.
From Stdlib Require Import ZArith Lia Ascii.
From S2P Require Import Prelude GoMap GoFloat FloatInt Domain MarketRules.

Open Scope Z_scope.

(** ** State *)

Record Tracker := MkTracker {
  cash : float64;
  positions : gmap bytes Position.t;
  initialCash : float64;
  portfolioValues : list PortfolioValue.t;
  trades : list Trade.t;
  equityCurve : list PortfolioValue.t;
  asOf : Time;
  commissionRate : float64;
  slippageRate : float64;
  liquidityFactor : float64;
  shortSellingRate : float64;
  trading : TradingConfig;
  orderLog : list Order.t;
  stockNames : gmap bytes bytes;
  dailyRWBuy : gmap bytes float64;
  dailyRWBuyDay : Time
}.

Definition set_cash (c : float64) (t : Tracker) : Tracker :=
  MkTracker c (positions t) (initialCash t) (portfolioValues t) (trades t) (equityCurve t) (asOf t)
    (commissionRate t) (slippageRate t) (liquidityFactor t) (shortSellingRate t) (trading t)
    (orderLog t) (stockNames t) (dailyRWBuy t) (dailyRWBuyDay t).
Definition set_positions (ps : gmap bytes Position.t) (t : Tracker) : Tracker :=
  MkTracker (cash t) ps (initialCash t) (portfolioValues t) (trades t) (equityCurve t) (asOf t)
    (commissionRate t) (slippageRate t) (liquidityFactor t) (shortSellingRate t) (trading t)
    (orderLog t) (stockNames t) (dailyRWBuy t) (dailyRWBuyDay t).
Definition set_history (pvs ec : list PortfolioValue.t) (t : Tracker) : Tracker :=
  MkTracker (cash t) (positions t) (initialCash t) pvs (trades t) ec (asOf t)
    (commissionRate t) (slippageRate t) (liquidityFactor t) (shortSellingRate t) (trading t)
    (orderLog t) (stockNames t) (dailyRWBuy t) (dailyRWBuyDay t).
Definition set_trades (ts : list Trade.t) (t : Tracker) : Tracker :=
  MkTracker (cash t) (positions t) (initialCash t) (portfolioValues t) ts (equityCurve t) (asOf t)
    (commissionRate t) (slippageRate t) (liquidityFactor t) (shortSellingRate t) (trading t)
    (orderLog t) (stockNames t) (dailyRWBuy t) (dailyRWBuyDay t).
Definition set_orderLog (os : list Order.t) (t : Tracker) : Tracker :=
  MkTracker (cash t) (positions t) (initialCash t) (portfolioValues t) (trades t) (equityCurve t)
    (asOf t) (commissionRate t) (slippageRate t) (liquidityFactor t) (shortSellingRate t)
    (trading t) os (stockNames t) (dailyRWBuy t) (dailyRWBuyDay t).
Definition set_rwBuy (m : gmap bytes float64) (day : Time) (t : Tracker) : Tracker :=
  MkTracker (cash t) (positions t) (initialCash t) (portfolioValues t) (trades t) (equityCurve t)
    (asOf t) (commissionRate t) (slippageRate t) (liquidityFactor t) (shortSellingRate t)
    (trading t) (orderLog t) (stockNames t) m day.

(** [NewTracker]: a configuration without a stamp tax is replaced whole by
    the defaults. *)
Definition NewTracker (initialCapital commissionRate slippageRate : float64)
    (trading : TradingConfig) : Tracker :=
  let trading := if (TC_StampTaxRate trading =? f0)%f64 then DefaultTradingConfig else trading in
  MkTracker initialCapital ∅ initialCapital [] [] [] 0 commissionRate slippageRate
    (flit 1 1) DefaultShortSellingRate trading [] ∅ ∅ 0.

Definition SetShortSellingRate (rate : float64) (t : Tracker) : Tracker :=
  MkTracker (cash t) (positions t) (initialCash t) (portfolioValues t) (trades t) (equityCurve t)
    (asOf t) (commissionRate t) (slippageRate t) (liquidityFactor t) rate
    (trading t) (orderLog t) (stockNames t) (dailyRWBuy t) (dailyRWBuyDay t).

Definition SetStockNames (names : gmap bytes bytes) (t : Tracker) : Tracker :=
  MkTracker (cash t) (positions t) (initialCash t) (portfolioValues t) (trades t) (equityCurve t)
    (asOf t) (commissionRate t) (slippageRate t) (liquidityFactor t) (shortSellingRate t)
    (trading t) (orderLog t) names (dailyRWBuy t) (dailyRWBuyDay t).

Definition SetAsOf (date : Time) (t : Tracker) : Tracker :=
  MkTracker (cash t) (positions t) (initialCash t) (portfolioValues t) (trades t) (equityCurve t)
    date (commissionRate t) (slippageRate t) (liquidityFactor t) (shortSellingRate t)
    (trading t) (orderLog t) (stockNames t) (dailyRWBuy t) (dailyRWBuyDay t).

Definition Reset (initialCapital : float64) (t : Tracker) : Tracker :=
  MkTracker initialCapital ∅ initialCapital [] [] [] 0 (commissionRate t) (slippageRate t)
    (liquidityFactor t) (shortSellingRate t) (trading t) (orderLog t) (stockNames t)
    (dailyRWBuy t) (dailyRWBuyDay t).

(** [OrderLog.Record]. *)
Definition Record_order (o : Order.t) (t : Tracker) : Tracker :=
  set_orderLog (orderLog t ++ [o]) t.

Definition feeSchedule (t : Tracker) (asOf : Time) : AShareFees :=
  MkAShareFees (commissionRate t)
    (StampTaxRateFor asOf (TC_StampTaxRate (trading t)) (TC_StampTaxRateBefore (trading t)))
    (TC_TransferFeeRate (trading t)) (TC_MinCommission (trading t)) (slippageRate t).

(** The package's own [abs]. *)
Definition fabs (x : float64) : float64 := if (x <? f0)%f64 then fneg x else x.

(** ** Errors *)

Inductive trade_error :=
| LimitOrderExpired
| InsufficientCash (required available : float64)
| DailyBuyCapExceeded (symbol : bytes) (already qty cap : float64)
| CannotCloseZero
| T1BoughtToday (buyDate tradeDate : Time)
| T1NothingSellable
| PositionNotFound (symbol : bytes)
| InvalidTradeQuantity (quantity : float64).

(** ** The daily buy cap of risk-warning stocks *)

Definition enforceRiskWarningDailyBuy (symbol : bytes) (qty : float64) (asOf : Time)
    (t : Tracker) : res trade_error unit * Tracker :=
  if (qty <=? f0)%f64 then (Ok tt, t)
  else match stockNames t !! symbol with
       | None | Some [] => (Ok tt, t)
       | Some name =>
           if negb (IsRiskWarningName name) then (Ok tt, t)
           else
             let capShares := RiskWarningDailyBuyCap symbol in
             if (capShares <=? f0)%f64 then (Ok tt, t)
             else
               let day := Truncate24h asOf in
               let t := if day =? dailyRWBuyDay t then t else set_rwBuy ∅ day t in
               let already := default f0 (dailyRWBuy t !! symbol) in
               if (already + qty >? capShares)%f64
               then (Err (DailyBuyCapExceeded symbol already qty capShares), t)
               else (Ok tt, set_rwBuy (<[symbol := (already + qty)%f64]> (dailyRWBuy t))
                              (dailyRWBuyDay t) t)
       end.

(** ** Booking a fill on the positions *)

(** The position after a buy of [qty]: deleted when the buy makes it flat,
    else averaged, with today's count restarted on a new day. *)
Definition long_position (symbol : bytes) (qty price : float64) (timestamp : Time)
    (existing : option Position.t) : option Position.t :=
  let tradeDate := Truncate24h timestamp in
  match existing with
  | Some e =>
      let totalQty := (Position.Quantity e + qty)%f64 in
      if IsFlat totalQty then None
      else
        let avg := ((Position.AvgCost e * Position.Quantity e + price * qty) / totalQty)%f64 in
        let today := if Truncate24h (Position.BuyDate e) =? tradeDate
                     then Position.QuantityToday e else f0 in
        Some (Position.set_BuyDate timestamp
               (Position.set_QuantityToday (today + qty)%f64
                 (Position.set_EntryDate timestamp
                   (Position.set_Quantity totalQty (Position.set_AvgCost avg e)))))
  | None => Some (Position.Mk symbol qty price f0 f0 f0 f0 f0 timestamp timestamp qty f0)
  end.

(** The position after an opening sale of [qty]. *)
Definition short_position (symbol : bytes) (qty price : float64) (timestamp : Time)
    (existing : option Position.t) : option Position.t :=
  match existing with
  | Some e =>
      let q := (Position.Quantity e - qty)%f64 in
      if IsFlat q then None else Some (Position.set_Quantity q e)
  | None => Some (Position.Mk symbol (fneg qty) price f0 f0 f0 f0 f0 timestamp 0 f0 f0)
  end.

(** The position dropped once flat. *)
Definition drop_flat (p : Position.t) : option Position.t :=
  if IsFlat (Position.Quantity p) then None else Some p.

Definition put_position (symbol : bytes) (p : option Position.t) (t : Tracker) : Tracker :=
  set_positions (partial_alter (fun _ => p) symbol (positions t)) t.

(** The quantity a close sells: the sellable shares, the request and the
    position, whichever is least. *)
Definition close_long_qty (pos : Position.t) (quantity : float64) : float64 :=
  fmin (Position.QuantityYesterday pos) (fmin quantity (fabs (Position.Quantity pos))).

(** [DirectionClose], the branch common to [ExecuteTrade] and [ApplyTrade]:
    the trade record with the actual quantity and fees, and the tracker. *)
Definition close_long (symbol : bytes) (pos : Position.t) (quantity price : float64)
    (timestamp : Time) (trade : Trade.t) (t : Tracker) : res trade_error (Trade.t * Tracker) :=
  let tradeDate := Truncate24h timestamp in
  let buyDate := Truncate24h (Position.BuyDate pos) in
  if (buyDate =? tradeDate) && (Position.QuantityYesterday pos =? f0)%f64
  then Err (T1BoughtToday buyDate tradeDate)
  else
    let actualQty := close_long_qty pos quantity in
    if (actualQty <=? f0)%f64 then Err T1NothingSellable
    else
      let fb := ComputeFees (actualQty * price)%f64 true (feeSchedule t timestamp) in
      let trade := Trade.with_fill trade actualQty (Commission fb) (TransferFee fb) (StampTax fb) in
      let pnl := ((price - Position.AvgCost pos) * actualQty)%f64 in
      let pos' :=
        Position.set_Quantity (Position.Quantity pos - actualQty)%f64
          (Position.set_RealizedPnL
             (Position.RealizedPnL pos + (pnl - Commission fb - StampTax fb))%f64
             (Position.set_QuantityYesterday (Position.QuantityYesterday pos - actualQty)%f64 pos)) in
      Ok (trade, put_position symbol (drop_flat pos')
                   (set_cash (cash t + (actualQty * price - Total fb))%f64 t)).

Definition close_short (symbol : bytes) (pos : Position.t) (quantity price : float64)
    (timestamp : Time) (trade : Trade.t) (t : Tracker) : res trade_error (Trade.t * Tracker) :=
  let actualQty := fmin quantity (fabs (Position.Quantity pos)) in
  if (actualQty <=? f0)%f64 then Err CannotCloseZero
  else
    let fb := ComputeFees (actualQty * price)%f64 false (feeSchedule t timestamp) in
    let trade := Trade.with_fill trade actualQty (Commission fb) (TransferFee fb)
                   (Trade.StampTax trade) in
    let pnl := ((Position.AvgCost pos - price) * actualQty)%f64 in
    let pos' :=
      Position.set_Quantity (Position.Quantity pos + actualQty)%f64
        (Position.set_RealizedPnL
           (Position.RealizedPnL pos + (pnl - Commission fb - TransferFee fb))%f64 pos) in
    Ok (trade, put_position symbol (drop_flat pos')
                 (set_cash (cash t + (actualQty * price - Commission fb - TransferFee fb))%f64 t)).

Definition close_position (symbol : bytes) (quantity price : float64) (timestamp : Time)
    (trade : Trade.t) (t : Tracker) : res trade_error (Trade.t * Tracker) :=
  match positions t !! symbol with
  | None => Err (PositionNotFound symbol)
  | Some pos =>
      if (fabs (Position.Quantity pos) <=? f0)%f64 then Err CannotCloseZero
      else if (Position.Quantity pos >? f0)%f64
           then close_long symbol pos quantity price timestamp trade t
           else close_short symbol pos quantity price timestamp trade t
  end.

(** Re-marking the traded position. *)
Definition mark_position (price : float64) (p : Position.t) : Position.t :=
  Position.set_marks price (fabs (Position.Quantity p) * price)%f64
    ((price - Position.AvgCost p) * Position.Quantity p)%f64 p.

Definition mark_symbol (symbol : bytes) (price : float64) (t : Tracker) : Tracker :=
  set_positions (alter (mark_position price) symbol (positions t)) t.

(** ** ExecuteTrade *)

Record OrderExecutionOpts := MkOpts {
  Opt_OrderType : OrderType;
  Opt_LimitPrice : float64;
  Opt_DayBar : option OHLCV.t
}.

(** The fill price of a limit order against the day's bar, if it fills. *)
Definition limit_fill (direction : Direction) (limitPrice : float64) (bar : OHLCV.t)
    : option float64 :=
  match direction with
  | DirectionLong =>
      if (OHLCV.Low bar <=? limitPrice)%f64 then Some (fmin limitPrice (OHLCV.Close bar)) else None
  | DirectionShort =>
      if (OHLCV.High bar >=? limitPrice)%f64 then Some (fmax limitPrice (OHLCV.Close bar)) else None
  | _ => None
  end.

(** The fillable quantity and the order status under the liquidity cap. *)
Definition liquidity_fill (quantity : float64) (dayBar : option OHLCV.t) (t : Tracker)
    : float64 * bytes :=
  match dayBar with
  | Some bar =>
      let maxLiquidity := (OHLCV.Volume bar * liquidityFactor t)%f64 in
      if (OHLCV.Volume bar >? f0)%f64 && (quantity >? maxLiquidity)%f64
      then (maxLiquidity, lit "partial")
      else (quantity, lit "filled")
  | None => (quantity, lit "filled")
  end.

(** The slipped price of an order other than a limit order. *)
Definition slip_price (symbol : bytes) (direction : Direction) (price : float64) (t : Tracker)
    : float64 :=
  match direction with
  | DirectionLong => (price * (f1 + slippageRate t))%f64
  | DirectionShort => (price * (f1 - slippageRate t))%f64
  | DirectionClose =>
      match positions t !! symbol with
      | Some pos => if (Position.Quantity pos >? f0)%f64
                    then (price * (f1 - slippageRate t))%f64
                    else (price * (f1 + slippageRate t))%f64
      | None => price
      end
  | _ => price
  end.

(** The switch on the direction: the booked trade and the tracker. *)
Definition execute_fill (symbol : bytes) (direction : Direction)
    (quantity filledQty executionPrice : float64) (timestamp : Time) (t : Tracker)
    : res trade_error Trade.t * Tracker :=
  let tradeValue := (filledQty * executionPrice)%f64 in
  let isSell := bool_decide (direction = DirectionClose \/ direction = DirectionShort) in
  let fb := ComputeFees tradeValue isSell (feeSchedule t timestamp) in
  let trade := Trade.Mk symbol direction filledQty executionPrice (Commission fb) (TransferFee fb)
                 (StampTax fb) timestamp (quantity - filledQty)%f64 filledQty in
  match direction with
  | DirectionLong =>
      let cost := (tradeValue + Total fb)%f64 in
      if (cost >? cash t)%f64 then (Err (InsufficientCash cost (cash t)), t)
      else match enforceRiskWarningDailyBuy symbol filledQty timestamp t with
           | (Err e, t) => (Err e, t)
           | (Ok _, t) =>
               (Ok trade,
                put_position symbol
                  (long_position symbol filledQty executionPrice timestamp (positions t !! symbol))
                  (set_cash (cash t - cost)%f64 t))
           end
  | DirectionShort =>
      let proceeds := (tradeValue - Total fb)%f64 in
      (Ok trade,
       put_position symbol
         (short_position symbol filledQty executionPrice timestamp (positions t !! symbol))
         (set_cash (cash t + proceeds)%f64 t))
  | DirectionClose =>
      match close_position symbol quantity executionPrice timestamp trade t with
      | Ok (trade, t) => (Ok trade, t)
      | Err e => (Err e, t)
      end
  | _ => (Ok trade, t)
  end.

Definition ExecuteTrade (symbol : bytes) (direction : Direction) (quantity price : float64)
    (timestamp : Time) (opts : option OrderExecutionOpts) (t : Tracker)
    : res trade_error Trade.t * Tracker :=
  let orderType := from_option Opt_OrderType OrderTypeMarket opts in
  let limitPrice := from_option Opt_LimitPrice price opts in
  let dayBar := opts ≫= Opt_DayBar in
  let isLimit := bool_decide (orderType = OrderTypeLimit) in
  let order filled fillPrice status :=
    Order.Mk symbol direction orderType quantity limitPrice timestamp filled fillPrice status in
  let limitPriceFilled :=
    match dayBar with
    | Some bar => if isLimit then limit_fill direction limitPrice bar else Some price
    | None => Some price
    end in
  match limitPriceFilled with
  | None => (Err LimitOrderExpired, Record_order (order f0 f0 (lit "expired")) t)
  | Some executionPrice =>
      let '(filledQty, orderStatus) := liquidity_fill quantity dayBar t in
      let executionPrice := if isLimit then executionPrice
                            else slip_price symbol direction price t in
      match execute_fill symbol direction quantity filledQty executionPrice timestamp t with
      | (Err e, t) => (Err e, t)
      | (Ok trade, t) =>
          let t := mark_symbol symbol price t in
          let t := set_trades (trades t ++ [trade]) t in
          (Ok trade, Record_order (order filledQty executionPrice orderStatus) t)
      end
  end.

(** ** ApplyTrade *)

(** The switch on the direction of a pre-computed trade. *)
Definition apply_fill (trade : Trade.t) (t : Tracker) : res trade_error Trade.t * Tracker :=
  let symbol := Trade.Symbol trade in
  let quantity := Trade.Quantity trade in
  let executionPrice := Trade.Price trade in
  let timestamp := Trade.Timestamp trade in
  let tradeValue := (quantity * executionPrice)%f64 in
  match Trade.Direction trade with
  | DirectionLong =>
      let cost := (tradeValue + Trade.Commission trade + Trade.TransferFee trade)%f64 in
      if (cost >? cash t)%f64 then (Err (InsufficientCash cost (cash t)), t)
      else match enforceRiskWarningDailyBuy symbol quantity timestamp t with
           | (Err e, t) => (Err e, t)
           | (Ok _, t) =>
               (Ok trade,
                put_position symbol
                  (long_position symbol quantity executionPrice timestamp (positions t !! symbol))
                  (set_cash (cash t - cost)%f64 t))
           end
  | DirectionShort =>
      let proceeds := (tradeValue - Trade.Commission trade - Trade.TransferFee trade)%f64 in
      (Ok trade,
       put_position symbol
         (short_position symbol quantity executionPrice timestamp (positions t !! symbol))
         (set_cash (cash t + proceeds)%f64 t))
  | DirectionClose =>
      match close_position symbol quantity executionPrice timestamp trade t with
      | Ok (trade, t) => (Ok trade, t)
      | Err e => (Err e, t)
      end
  | _ => (Ok trade, t)
  end.

Definition ApplyTrade (trade : Trade.t) (t : Tracker) : res trade_error Trade.t * Tracker :=
  if (Trade.Quantity trade <=? f0)%f64 then (Err (InvalidTradeQuantity (Trade.Quantity trade)), t)
  else match apply_fill trade t with
       | (Err e, t) => (Err e, t)
       | (Ok trade', t) =>
           let t := mark_symbol (Trade.Symbol trade) (Trade.Price trade) t in
           (Ok trade', set_trades (trades t ++ [trade']) t)
       end.

(** ** Corporate actions and the end of the day *)

Definition ProcessDividend (symbol : bytes) (dividend : Dividend.t) (t : Tracker) : Tracker :=
  match positions t !! symbol with
  | Some pos =>
      if (Position.Quantity pos <=? f0)%f64 then t
      else set_cash (cash t + Position.Quantity pos * Dividend.DivAmt dividend)%f64 t
  | None => t
  end.

Definition ProcessSplit (symbol : bytes) (split : Split.t) (t : Tracker) : Tracker :=
  match positions t !! symbol with
  | Some pos =>
      if (Position.Quantity pos <=? f0)%f64 then t
      else
        let oldQty := Position.Quantity pos in
        let oldCost := Position.AvgCost pos in
        let t1 :=
          if (Split.StkDivRatio split >? f0)%f64 then
            let additionalShares := (oldQty * Split.StkDivRatio split)%f64 in
            let newQty := (oldQty + additionalShares)%f64 in
            put_position symbol
              (Some (Position.set_QuantityToday (Position.QuantityToday pos + additionalShares)%f64
                       (Position.set_AvgCost ((oldCost * oldQty) / newQty)%f64
                          (Position.set_Quantity newQty pos)))) t
          else t in
        if (Split.CashDivRatio split >? f0)%f64
        then set_cash (cash t1 + oldQty * Split.CashDivRatio split)%f64 t1
        else t1
  | None => t
  end.

(** Today's shares become sellable. *)
Definition roll_position (p : Position.t) : Position.t :=
  if (Position.QuantityToday p >? f0)%f64 then
    Position.set_QuantityToday f0
      (Position.set_QuantityYesterday
         (Position.QuantityYesterday p + Position.QuantityToday p)%f64 p)
  else p.

(** One day's lending interest of a short position, at the current price or
    else the entry cost. *)
Definition lending_cost (dailyRate : float64) (p : Position.t) : float64 :=
  let price := if (Position.CurrentPrice p <=? f0)%f64 then Position.AvgCost p
               else Position.CurrentPrice p in
  (fabs (Position.Quantity p) * price * dailyRate)%f64.

Definition accrue (dailyRate : float64) (ps : gmap bytes Position.t) (c : float64)
    (sym : bytes) : float64 :=
  match ps !! sym with
  | Some p => if (Position.Quantity p >=? f0)%f64 then c else (c - lending_cost dailyRate p)%f64
  | None => c
  end.

(** [order] is the order in which the runtime visits the position map. *)
Definition AdvanceDay (order : list bytes) (t : Tracker) : Tracker :=
  let t := set_positions (roll_position <$> positions t) t in
  if (shortSellingRate t <=? f0)%f64 then t
  else
    let dailyRate := (shortSellingRate t / f64_of_Z TradingDaysPerYear)%f64 in
    set_cash (foldl (accrue dailyRate (positions t)) (cash t) order) t.

(** ** Valuation *)

(** [GetPortfolioValue] re-marks the held positions as it sums. *)
Definition value_step (prices : gmap bytes float64) (st : float64 * gmap bytes Position.t)
    (sym : bytes) : float64 * gmap bytes Position.t :=
  let '(total, ps) := st in
  match ps !! sym, prices !! sym with
  | Some pos, Some price =>
      let mv := (Position.Quantity pos * price)%f64 in
      ((total + mv)%f64,
       <[sym := Position.set_marks price mv
                  ((price - Position.AvgCost pos) * Position.Quantity pos)%f64 pos]> ps)
  | _, _ => st
  end.

Definition GetPortfolioValue (prices : gmap bytes float64) (t : Tracker) : float64 * Tracker :=
  let '(total, ps) :=
    foldl (value_step prices) (cash t, positions t) (sortedKeys (positions t)) in
  (total, set_positions ps t).

(** The value of a marked position with its sign: a short is a liability. *)
Definition signed_value (total : float64) (p : Position.t) : float64 :=
  if (Position.Quantity p >? f0)%f64 then (total + Position.MarketValue p)%f64
  else (total - Position.MarketValue p)%f64.

Definition record_step (prices : gmap bytes float64) (st : float64 * gmap bytes Position.t)
    (sym : bytes) : float64 * gmap bytes Position.t :=
  let '(total, ps) := st in
  match ps !! sym, prices !! sym with
  | Some pos, Some price =>
      let pos := mark_position price pos in
      (signed_value total pos, <[sym := pos]> ps)
  | _, _ => st
  end.

Definition RecordDailyValue (date : Time) (prices : gmap bytes float64) (t : Tracker)
    : PortfolioValue.t * Tracker :=
  let '(positionsValue, ps) :=
    foldl (record_step prices) (f0, positions t) (sortedKeys (positions t)) in
  let pv := PortfolioValue.Mk date (cash t + positionsValue)%f64 (cash t) positionsValue in
  (pv, set_history (portfolioValues t ++ [pv]) (equityCurve t ++ [pv]) (set_positions ps t)).

(** The priced positions of a snapshot. *)
Definition snapshot_positions (prices : gmap bytes float64) (t : Tracker) : gmap bytes Position.t :=
  map_imap (fun sym pos => price ← prices !! sym; Some (mark_position price pos)) (positions t).

(** [now] is the wall clock, used when the engine has set no date. *)
Definition GetPortfolio (prices : gmap bytes float64) (now : Time) (t : Tracker) : Portfolio.t :=
  let ps := snapshot_positions prices t in
  let totalValue :=
    foldl (fun total sym => match ps !! sym with
                            | Some p => signed_value total p
                            | None => total
                            end) (cash t) (sortedKeys ps) in
  Portfolio.Mk (cash t) ps totalValue f0 (if IsZero (asOf t) then now else asOf t).

(** ** Closing and inspection *)

Definition ClosePosition (symbol : bytes) (price : float64) (timestamp : Time) (t : Tracker)
    : res trade_error Trade.t * Tracker :=
  match positions t !! symbol with
  | None => (Err (PositionNotFound symbol), t)
  | Some pos =>
      ExecuteTrade symbol DirectionClose (fabs (Position.Quantity pos)) price timestamp None t
  end.

Definition HasPosition (symbol : bytes) (t : Tracker) : bool :=
  match positions t !! symbol with
  | Some pos => negb (IsFlat (Position.Quantity pos))
  | None => false
  end.
