(* ===== verification/TrackerLedger.v ===== *)
(** * TrackerLedger: T+1 settlement as a refinement

    Long-only trading in whole shares through [ApplyTrade], with
    [AdvanceDay] between trading days, dividends and valuations in between,
    refines the ledger of [ShareLedger]: the float64 share counts of the
    tracker are always the ledger's integers, and a sale takes exactly what
    the ledger allows. *)

From stdpp Require Import base list strings gmap sorting.
From Stdlib Require Import ZArith Lia Ascii SpecFloat.
From S2P Require Import Prelude GoMap GoFloat FloatInt FloatRound Domain ShareLedger MarketRules Tracker TrackerProps.

Open Scope Z_scope.

(** ** Trading days *)

Inductive day_event :=
| EvBuy (e : event)
| EvSell (e : event)
| EvAdvance (order : list bytes) (next : Time)
| EvDividend (symbol : bytes) (dividend : Dividend.t)
| EvRecord (date : Time) (prices : gmap bytes float64)
| EvValue (prices : gmap bytes float64).

(** What the tracker answers to a trade; the other events always succeed. *)
Definition tracker_step (ev : day_event) (t : Tracker) : res trade_error Z * Tracker :=
  match ev with
  | EvBuy e | EvSell e =>
      match ApplyTrade (ev_trade e) t with
      | (Ok tr, t') => (Ok (f64_to_int64 (Trade.Quantity tr)), t')
      | (Err er, t') => (Err er, t')
      end
  | EvAdvance order _ => (Ok 0, AdvanceDay order t)
  | EvDividend symbol dividend => (Ok 0, ProcessDividend symbol dividend t)
  | EvRecord date prices => (Ok 0, snd (RecordDailyValue date prices t))
  | EvValue prices => (Ok 0, snd (GetPortfolioValue prices t))
  end.

(** The ledger's steps on day [d], with the shares traded: a buy is booked or
    refused (for want of cash or by the daily cap), a sale is refused exactly
    when nothing is sellable. *)
Inductive ledger_step : ledger * Time -> day_event -> option Z -> ledger * Time -> Prop :=
| ls_buy L d e : Truncate24h (ev_time e) = d -> ev_dir e = DirectionLong -> 0 < ev_qty e ->
    ledger_step (L, d) (EvBuy e) (Some (ev_qty e)) (lbuy (ev_symbol e) (ev_qty e) L, d)
| ls_buy_refused L d e : Truncate24h (ev_time e) = d -> ev_dir e = DirectionLong ->
    ledger_step (L, d) (EvBuy e) None (L, d)
| ls_sell L d e : Truncate24h (ev_time e) = d -> ev_dir e = DirectionClose -> 0 < ev_qty e ->
    0 < settled (held (ev_symbol e) L) ->
    ledger_step (L, d) (EvSell e) (Some (sellable (ev_symbol e) (ev_qty e) L))
      (lsell (ev_symbol e) (ev_qty e) L, d)
| ls_sell_refused L d e : Truncate24h (ev_time e) = d -> ev_dir e = DirectionClose -> 0 < ev_qty e ->
    settled (held (ev_symbol e) L) = 0 ->
    ledger_step (L, d) (EvSell e) None (L, d)
| ls_advance L d order d' : d < d' ->
    ledger_step (L, d) (EvAdvance order d') (Some 0) (ladvance L, d')
| ls_dividend L d s dv : ledger_step (L, d) (EvDividend s dv) (Some 0) (L, d)
| ls_record L d dt ps : ledger_step (L, d) (EvRecord dt ps) (Some 0) (L, d)
| ls_value L d ps : ledger_step (L, d) (EvValue ps) (Some 0) (L, d).

(** Well-timed long-only events: trades carry the current day, days only move
    forward. *)
Definition well_timed (ev : day_event) (d : Time) : Prop :=
  match ev with
  | EvBuy e => Truncate24h (ev_time e) = d /\ ev_dir e = DirectionLong /\ 0 < ev_qty e
  | EvSell e => Truncate24h (ev_time e) = d /\ ev_dir e = DirectionClose /\ 0 < ev_qty e < 2 ^ 53
  | EvAdvance _ next => d < next
  | _ => True
  end.

Definition next_day (ev : day_event) (d : Time) : Time :=
  match ev with EvAdvance _ next => next | _ => d end.

(** The shares an event may add. *)
Definition adds (ev : day_event) : Z := match ev with EvBuy e => ev_qty e | _ => 0 end.

(** ** The refinement relation *)

(** The tracker's position carries the holding's integers, at most [B] in
    all, bought on day [d] at the latest, and on day [d] when some are of
    today. *)
Definition position_rep (B : Z) (d : Time) (p : Position.t) (h : holding) : Prop :=
  0 <= settled h /\ 0 <= today h /\ 0 < settled h + today h <= B
  /\ Position.Quantity p = f64_of_Z (settled h + today h)
  /\ Position.QuantityYesterday p = f64_of_Z (settled h)
  /\ Position.QuantityToday p = f64_of_Z (today h)
  /\ Truncate24h (Position.BuyDate p) <= d
  /\ (0 < today h -> Truncate24h (Position.BuyDate p) = d).

Definition rep (B : Z) (d : Time) (t : Tracker) (L : ledger) : Prop :=
  shares_rep (position_rep B d) (positions t) L.

Lemma position_rep_mono B B' d p h : B <= B' -> position_rep B d p h -> position_rep B' d p h.
Proof. unfold position_rep. naive_solver lia. Qed.

(** ** Whole share counts in float64 *)

Lemma fabs_whole n : 0 <= n < 2 ^ 53 -> fabs (f64_of_Z n) = f64_of_Z n.
Proof.
  intros Hn. unfold fabs. change f0 with (f64_of_Z 0). rewrite flt_whole by whole.
  by replace (n <? 0) with false by lia.
Qed.

Lemma IsFlat_whole n : 0 <= n < 2 ^ 53 -> IsFlat (f64_of_Z n) = (n =? 0).
Proof.
  intros Hn. destruct (n =? 0) eqn:E; bool_to_prop; [by subst|].
  unfold IsFlat. assert (Habs : Abs (f64_of_Z n) = f64_of_Z n).
  { destruct n as [|p|p]; [lia| |lia]. by rewrite f64_of_Z_pos by lia. }
  rewrite Habs. apply (fle_trans_nan _ (f64_of_Z 1)); try done.
  - apply whole_not_nan. whole.
  - rewrite flt_whole by whole. lia.
Qed.

(** ** One step *)

(** Replacing one position and one holding. *)
Lemma rep_put B B' d t L s p h :
  rep B d t L -> B <= B' ->
  (if settled h + today h =? 0 then p = None
   else exists q, p = Some q /\ position_rep B' d q h) ->
  rep B' d (put_position s p t) (put_holding s h L).
Proof.
  intros Hr HB Hp. unfold rep, put_position. cbn [positions set_positions].
  apply shares_rep_put; [|done]. eapply shares_rep_mono; [|exact Hr]. intros; by eapply position_rep_mono.
Qed.

(** Positions that agree but for marks. *)
Definition same_core (p p' : Position.t) : Prop :=
  Position.Quantity p' = Position.Quantity p
  /\ Position.QuantityToday p' = Position.QuantityToday p
  /\ Position.QuantityYesterday p' = Position.QuantityYesterday p
  /\ Position.BuyDate p' = Position.BuyDate p.

Definition same_core_map (m m' : gmap bytes Position.t) : Prop :=
  forall s, option_relation same_core (fun _ => False) (fun _ => False) (m !! s) (m' !! s).

#[global] Instance same_core_map_preorder : PreOrder same_core_map.
Proof.
  split.
  - intros m s. by destruct (m !! s).
  - intros m1 m2 m3 H1 H2 s. specialize (H1 s). specialize (H2 s). unfold same_core in *.
    destruct (m1 !! s), (m2 !! s), (m3 !! s); cbn in *; naive_solver congruence.
Qed.

Lemma rep_core B d t t' L :
  same_core_map (positions t) (positions t') -> rep B d t L -> rep B d t' L.
Proof.
  intros Hc Hr s. specialize (Hc s). specialize (Hr s).
  destruct (positions t !! s) as [p|], (positions t' !! s) as [p'|], (L !! s) as [h|]; cbn in *; try done.
  destruct Hc as (E1 & E2 & E3 & E4). unfold position_rep. by rewrite E1, E2, E3, E4.
Qed.

Lemma same_core_mark symbol price m : same_core_map m (alter (mark_position price) symbol m).
Proof.
  intros s. rewrite lookup_alter. case_decide as E; [subst s|]; by destruct (m !! _).
Qed.

Lemma same_core_insert m s p p' : m !! s = Some p -> same_core p p' -> same_core_map m (<[s := p']> m).
Proof.
  intros Hp Hc s'. destruct (decide (s' = s)) as [->|].
  - by rewrite lookup_insert_eq, Hp.
  - rewrite lookup_insert_ne by done. by destruct (m !! s').
Qed.

Lemma fold_core {A} (f : A * gmap bytes Position.t -> bytes -> A * gmap bytes Position.t) :
  (forall st s, same_core_map (snd st) (snd (f st s))) ->
  forall keys st, same_core_map (snd st) (snd (foldl f st keys)).
Proof.
  intros Hf keys. induction keys as [|k keys IH]; intros st; cbn [foldl]; [done|].
  by rewrite <- IH.
Qed.

Lemma value_core prices t :
  same_core_map (positions t) (positions (snd (GetPortfolioValue prices t))).
Proof.
  unfold GetPortfolioValue.
  pose proof (fold_core (value_step prices)) as Hf. specialize (Hf ltac:(
    intros [v m] s; cbn; destruct (m !! s) as [p|] eqn:Hp; [|done];
    destruct (prices !! s); [by eapply same_core_insert|done])
    (sortedKeys (positions t)) (cash t, positions t)).
  by destruct (foldl _ _ _) as [total ps].
Qed.

Lemma record_core date prices t :
  same_core_map (positions t) (positions (snd (RecordDailyValue date prices t))).
Proof.
  unfold RecordDailyValue.
  pose proof (fold_core (record_step prices)) as Hf. specialize (Hf ltac:(
    intros [v m] s; cbn; destruct (m !! s) as [p|] eqn:Hp; [|done];
    destruct (prices !! s); [by eapply same_core_insert|done])
    (sortedKeys (positions t)) (f0, positions t)).
  by destruct (foldl _ _ _) as [total ps].
Qed.

(** A buy of [n] shares on day [d]. *)
Lemma long_position_rep B d t L s n price ts :
  rep B d t L -> Truncate24h ts = d -> 0 < n -> 0 <= B -> B + n < 2 ^ 53 ->
  exists q, long_position s (f64_of_Z n) price ts (positions t !! s) = Some q
    /\ position_rep (B + n) d q (MkHolding (settled (held s L)) (today (held s L) + n)).
Proof.
  intros Hr Hts Hn HB Hlim.
  destruct (shares_rep_held _ _ _ s Hr) as [[Hp ->]|(p & Hp & Ha & Hb & Hab & EQ & EY & ET & Hbd & Hbt)];
    rewrite Hp; cbn [long_position].
  - eexists. split; [done|]. unfold position_rep; cbn -[f64_of_Z]. rewrite Hts.
    replace (0 + n) with n by lia. repeat split; try done; lia.
  - set (a := settled (held s L)) in *. set (b := today (held s L)) in *.
    rewrite EQ, fadd_whole, IsFlat_whole by whole. replace (a + b + n =? 0) with false by lia.
    eexists. split; [done|]. unfold position_rep; cbn -[f64_of_Z]. rewrite Hts.
    assert (Htoday : (if Truncate24h (Position.BuyDate p) =? d then Position.QuantityToday p else f0)
                     = f64_of_Z b).
    { destruct (_ =? _) eqn:E; [done|]. bool_to_prop.
      assert (b = 0) as ->; [|done]. destruct (Z.eq_dec b 0); [done|]. exfalso. apply E, Hbt. lia. }
    rewrite Htoday, fadd_whole by whole.
    repeat split; try done; try lia. f_equal. lia.
Qed.

(** A close of [n] shares on day [d]. *)
Lemma close_position_rep B d t L s n price ts tr :
  rep B d t L -> Truncate24h ts = d -> 0 < n < 2 ^ 53 -> 0 <= B < 2 ^ 53 ->
  match close_position s (f64_of_Z n) price ts tr t with
  | Ok (tr', t') =>
      0 < settled (held s L) /\ Trade.Quantity tr' = f64_of_Z (sellable s n L)
      /\ rep B d t' (lsell s n L)
  | Err _ => settled (held s L) = 0
  end.
Proof.
  intros Hr Hts Hn HB. unfold close_position.
  destruct (shares_rep_held _ _ _ s Hr) as [[Hp ->]|(p & Hp & Ha & Hb & Hab & EQ & EY & ET & Hbd & Hbt)];
    rewrite Hp; [done|].
  unfold lsell, sellable. set (h := held s L) in *.
  set (a := settled h) in *. set (b := today h) in *. change f0 with (f64_of_Z 0).
  rewrite EQ, fabs_whole, fle_whole, flt_whole by whole.
  replace (a + b <=? 0) with false by lia. replace (0 <? a + b) with true by lia.
  unfold close_long. rewrite Hts, EY. change f0 with (f64_of_Z 0). rewrite feq_whole by whole.
  destruct ((_ =? _) && _) eqn:Et; bool_to_prop; [lia|]. clear Et.
  assert (Hk : close_long_qty p (f64_of_Z n) = f64_of_Z (Z.min a n)).
  { unfold close_long_qty. rewrite EY, EQ, fabs_whole, !fmin_whole by whole. f_equal. lia. }
  rewrite Hk, fle_whole by whole.
  destruct (_ <=? 0) eqn:Ek; bool_to_prop; [lia|].
  set (k := Z.min a n) in *. split; [lia|]. split; [done|].
  eapply rep_put; [exact Hr|lia|]. cbn [settled today].
  unfold drop_flat. cbn [Position.Quantity Position.set_Quantity Position.set_RealizedPnL
    Position.set_QuantityYesterday]. rewrite EQ, fsub_whole, IsFlat_whole by whole.
  replace (a + b - k =? 0) with (a - k + b =? 0) by (f_equal; lia).
  destruct (a - k + b =? 0) eqn:Ez; bool_to_prop; [done|].
  eexists. split; [done|]. unfold position_rep; cbn -[f64_of_Z]. rewrite fsub_whole by whole.
  fold b. repeat split; try done; try lia. f_equal. lia.
Qed.

(** [ApplyTrade] of a buy: booked as the ledger says, or nothing changes. *)
Lemma apply_buy_rep B d t L e :
  rep B d t L -> Truncate24h (ev_time e) = d -> ev_dir e = DirectionLong ->
  0 < ev_qty e -> 0 <= B -> B + ev_qty e < 2 ^ 53 ->
  match ApplyTrade (ev_trade e) t with
  | (Ok tr, t') => Trade.Quantity tr = f64_of_Z (ev_qty e)
                   /\ rep (B + ev_qty e) d t' (lbuy (ev_symbol e) (ev_qty e) L)
  | (Err _, t') => rep B d t' L
  end.
Proof.
  intros Hr Hts Hdir Hn HB Hlim. unfold ApplyTrade, apply_fill.
  cbn [Trade.Quantity Trade.Symbol Trade.Timestamp Trade.Direction Trade.Price ev_trade].
  rewrite Hdir. destruct (f64_of_Z (ev_qty e) <=? f0)%f64; [done|].
  destruct (flt (cash t) _); [done|].
  pose proof (enforce_same (ev_symbol e) (f64_of_Z (ev_qty e)) (ev_time e) t) as Hs.
  destruct (enforceRiskWarningDailyBuy _ _ _ _) as [[u|er] t1]; cbn [snd] in Hs;
    apply same_portfolio_fields in Hs as (_ & Ep & _).
  2:{ intros s. rewrite Ep. apply Hr. }
  split; [done|]. eapply rep_core; [apply same_core_mark|].
  assert (Hr1 : rep B d (set_cash (cash t1 - (f64_of_Z (ev_qty e) * ev_price e + ev_commission e
                  + ev_transferFee e))%f64 t1) L) by (intros s; cbn; rewrite Ep; apply Hr).
  rewrite Ep. destruct (long_position_rep B d t L (ev_symbol e) (ev_qty e) (ev_price e) (ev_time e)
                          Hr Hts Hn HB Hlim) as (q & -> & Hq).
  eapply rep_put; [exact Hr1|lia|]. cbn [settled today].
  pose proof Hq as (Ha & Hb & Hab & _). cbn [settled today] in *.
  replace (_ =? 0) with false by lia. by exists q.
Qed.

Lemma apply_sell_rep B d t L e :
  rep B d t L -> Truncate24h (ev_time e) = d -> ev_dir e = DirectionClose ->
  0 < ev_qty e < 2 ^ 53 -> 0 <= B < 2 ^ 53 ->
  match ApplyTrade (ev_trade e) t with
  | (Ok tr, t') => 0 < settled (held (ev_symbol e) L)
                   /\ Trade.Quantity tr = f64_of_Z (sellable (ev_symbol e) (ev_qty e) L)
                   /\ rep B d t' (lsell (ev_symbol e) (ev_qty e) L)
  | (Err _, t') => settled (held (ev_symbol e) L) = 0 /\ rep B d t' L
  end.
Proof.
  intros Hr Hts Hdir Hn HB. unfold ApplyTrade, apply_fill.
  cbn [Trade.Quantity Trade.Symbol Trade.Timestamp Trade.Direction Trade.Price ev_trade].
  rewrite Hdir. change f0 with (f64_of_Z 0) at 1. rewrite fle_whole by whole.
  replace (ev_qty e <=? 0) with false by lia.
  pose proof (close_position_rep B d t L (ev_symbol e) (ev_qty e) (ev_price e) (ev_time e)
                (ev_trade e) Hr Hts Hn HB) as Hc. unfold ev_trade in *.
  destruct (close_position _ _ _ _ _ _) as [[tr t1]|er]; [|done].
  destruct Hc as (H0 & Hq & Hr1). split; [done|]. split; [done|].
  eapply rep_core; [apply same_core_mark|exact Hr1].
Qed.

Lemma advance_rep B d d' order t L :
  rep B d t L -> d < d' -> B < 2 ^ 53 -> rep B d' (AdvanceDay order t) (ladvance L).
Proof.
  intros Hr Hd HB.
  assert (Hroll : rep B d' (set_positions (roll_position <$> positions t) t) (ladvance L)).
  { intros s. cbn [positions set_positions]. unfold ladvance. rewrite !lookup_fmap.
    specialize (Hr s). destruct (positions t !! s) as [p|], (L !! s) as [h|]; cbn in Hr |- *; try done.
    destruct Hr as (Ha & Hb & Hab & EQ & EY & ET & Hbd & _).
    unfold roll_position. change f0 with (f64_of_Z 0). rewrite ET, flt_whole by whole.
    unfold position_rep; cbn [settled today].
    replace (settled h + today h + 0) with (settled h + today h) by lia.
    destruct (0 <? today h) eqn:E; bool_to_prop; cbn [Position.Quantity Position.QuantityYesterday
      Position.QuantityToday Position.BuyDate Position.set_QuantityToday Position.set_QuantityYesterday].
    - rewrite EY, ?ET, fadd_whole by whole. repeat split; try done; lia.
    - assert (today h = 0) as Hz by lia. rewrite Hz, Z.add_0_r in *. repeat split; try done; lia. }
  unfold AdvanceDay. destruct (_ <=? _)%f64; [done|]. exact Hroll.
Qed.

(** The simulation, one event at a time. *)
Lemma step_refines B d t L ev r t' :
  rep B d t L -> well_timed ev d -> 0 <= B -> 0 <= adds ev -> B + adds ev < 2 ^ 53 ->
  tracker_step ev t = (r, t') ->
  exists L', ledger_step (L, d) ev (match r with Ok k => Some k | Err _ => None end)
               (L', next_day ev d)
             /\ rep (B + adds ev) (next_day ev d) t' L'.
Proof.
  intros Hr Hw HB Ha Hlim. destruct ev; cbn [tracker_step well_timed next_day adds] in *.
  - destruct Hw as (Hts & Hdir & Hn).
    pose proof (apply_buy_rep B d t L e Hr Hts Hdir Hn HB Hlim) as Hstep.
    destruct (ApplyTrade _ _) as [[tr|er] t1]; intros [= <- <-].
    + destruct Hstep as [Hq Hr']. exists (lbuy (ev_symbol e) (ev_qty e) L).
      rewrite Hq, int64_of_whole by lia. split; [by constructor|done].
    + exists L. split; [by constructor|]. intros s. specialize (Hstep s).
      destruct (positions t1 !! s), (L !! s); cbn in *; try done.
      unfold position_rep in *. naive_solver lia.
  - destruct Hw as (Hts & Hdir & Hn). rewrite Z.add_0_r in *.
    pose proof (apply_sell_rep B d t L e Hr Hts Hdir Hn ltac:(lia)) as Hstep.
    destruct (ApplyTrade _ _) as [[tr|er] t1]; intros [= <- <-].
    + destruct Hstep as (H0 & Hq & Hr'). exists (lsell (ev_symbol e) (ev_qty e) L).
      rewrite Hq, int64_of_whole by (unfold sellable; lia). split; [constructor; (done || lia)|done].
    + destruct Hstep as [H0 Hr']. exists L. split; [constructor; (done || lia)|done].
  - intros [= <- <-]. exists (ladvance L). split; [by constructor|].
    rewrite Z.add_0_r in *. by eapply advance_rep.
  - intros [= <- <-]. exists L. split; [by constructor|]. rewrite Z.add_0_r.
    unfold ProcessDividend. by repeat case_match.
  - intros [= <- <-]. exists L. split; [by constructor|]. rewrite Z.add_0_r.
    eapply rep_core; [apply record_core|done].
  - intros [= <- <-]. exists L. split; [by constructor|]. rewrite Z.add_0_r.
    eapply rep_core; [apply value_core|done].
Qed.

(** ** Runs *)

Fixpoint tracker_run (evs : list day_event) (t : Tracker) : list (option Z) * Tracker :=
  match evs with
  | [] => ([], t)
  | ev :: evs' =>
      let '(r, t1) := tracker_step ev t in
      let '(outs, t2) := tracker_run evs' t1 in
      (match r with Ok k => Some k | Err _ => None end :: outs, t2)
  end.

Inductive ledger_run : ledger * Time -> list day_event -> list (option Z) -> ledger * Time -> Prop :=
| lr_nil st : ledger_run st [] [] st
| lr_cons st1 ev out st2 evs outs st3 :
    ledger_step st1 ev out st2 -> ledger_run st2 evs outs st3 ->
    ledger_run st1 (ev :: evs) (out :: outs) st3.

Fixpoint all_timed (evs : list day_event) (d : Time) : Prop :=
  match evs with
  | [] => True
  | ev :: evs' => well_timed ev d /\ 0 <= adds ev /\ all_timed evs' (next_day ev d)
  end.

Definition total_adds (evs : list day_event) : Z := foldr (fun ev n => adds ev + n) 0 evs.

Lemma total_adds_nonneg evs : forall d, all_timed evs d -> 0 <= total_adds evs.
Proof.
  induction evs as [|ev evs IH]; intros d H; cbn [total_adds foldr]; [lia|].
  destruct H as (_ & Ha & Hrest). specialize (IH _ Hrest). unfold total_adds in IH. lia.
Qed.

Lemma run_refines evs : forall B d t L,
  rep B d t L -> all_timed evs d -> 0 <= B -> B + total_adds evs < 2 ^ 53 ->
  exists L' d', ledger_run (L, d) evs (fst (tracker_run evs t)) (L', d')
                /\ rep (B + total_adds evs) d' (snd (tracker_run evs t)) L'.
Proof.
  induction evs as [|ev evs IH]; intros B d t L Hr Ht HB Hlim;
    cbn [tracker_run total_adds foldr].
  { exists L, d. rewrite Z.add_0_r. split; [constructor|done]. }
  destruct Ht as (Hw & Ha & Hrest). pose proof (total_adds_nonneg evs _ Hrest) as Hn.
  cbn [total_adds foldr] in Hlim. change (foldr _ 0 evs) with (total_adds evs) in *.
  destruct (tracker_step ev t) as [r t1] eqn:Es.
  destruct (step_refines B d t L ev r t1 Hr Hw HB Ha ltac:(lia) Es) as (L1 & Hs & Hr1).
  destruct (IH _ _ _ _ Hr1 Hrest ltac:(lia) ltac:(lia)) as (L' & d' & Hrun & Hrep).
  destruct (tracker_run evs t1) as [outs t2]. cbn [fst snd] in *.
  exists L', d'. split; [by econstructor|]. by rewrite Z.add_assoc.
Qed.

(** C1. Long-only trading in whole shares refines the T+1 ledger: whatever
    the buys, sales, dividends, valuations and day changes, run from a
    tracker without positions and below 2^53 shares in all, the answers of
    the tracker are those of a run of the ledger (a sale takes exactly the
    lesser of what is asked and what was held before the day, and is refused
    exactly when that is nothing), and its positions hold the ledger's
    shares. *)
Theorem tracker_refines_ledger evs d t
    (Hinit : positions t = ∅) (Htimed : all_timed evs d) (Hlim : total_adds evs < 2 ^ 53) :
  exists L' d',
    ledger_run (∅, d) evs (fst (tracker_run evs t)) (L', d')
    /\ rep (total_adds evs) d' (snd (tracker_run evs t)) L'.
Proof.
  assert (Hr : rep 0 d t ∅) by (intros s; by rewrite Hinit, lookup_empty).
  by apply (run_refines evs 0 d t ∅ Hr).
Qed.

(** Two days: a same-day sale is refused; the next day 100 shares are
    sellable, of which 60 and then the remaining 40 (of 100 asked) are sold
    while 30 bought that day stay. *)
Definition demo_event (dir : Direction) (n : Z) (ts : Time) : event :=
  MkEvent (lit "600000.SH") dir n (f64_of_Z 10) (f64_of_Z 5) f0 f0 ts.
Definition demo_run : list day_event :=
  [EvBuy (demo_event DirectionLong 100 demo_day);
   EvSell (demo_event DirectionClose 60 demo_day);
   EvAdvance [] (demo_day + day_ns);
   EvSell (demo_event DirectionClose 60 (demo_day + day_ns));
   EvBuy (demo_event DirectionLong 30 (demo_day + day_ns));
   EvSell (demo_event DirectionClose 100 (demo_day + day_ns))].

Lemma tracker_refines_ledger_witness :
  fst (tracker_run demo_run demo) = [Some 100; None; Some 0; Some 60; Some 30; Some 40]
  /\ exists L' d', ledger_run (∅, demo_day) demo_run (fst (tracker_run demo_run demo)) (L', d')
       /\ rep (total_adds demo_run) d' (snd (tracker_run demo_run demo)) L'.
Proof.
  split; [vm_compute; reflexivity|].
  apply (tracker_refines_ledger demo_run demo_day demo);
    [reflexivity| |vm_compute; reflexivity].
  repeat (split; [first [repeat split; (vm_compute; reflexivity) | vm_compute; reflexivity
                        | vm_compute; discriminate]|]).
  exact I.
Defined.
