(* ===== verification/TrackerValue.v ===== *)
(** * TrackerValue: valuations and behaviours worth knowing

    The two valuations of the tracker agree on every portfolio without flat
    positions. Then three behaviours of the code that contradict what its
    comments say or what accounting asks, each on a concrete run: closing a
    short credits its cost, the lending interest depends on the iteration
    order of a Go map, and a buy on the day of a split loses the bonus
    shares. *)

From stdpp Require Import base list strings gmap sorting.
From Stdlib Require Import ZArith Lia Ascii SpecFloat.
From S2P Require Import Prelude GoMap GoFloat FloatInt FloatRound Domain MarketRules Tracker TrackerProps.

Open Scope Z_scope.

(** ** The two valuations *)

Lemma fmul_neg_l x y : fmul (fneg x) y = fneg (fmul x y).
Proof.
  destruct x as [[]|[]| |sx mx ex], y as [[]|[]| |sy my ey]; try done;
    try (by destruct sx); try (by destruct sy).
  unfold fmul, fneg, SFmul, SFopp. fold SFopp.
  replace (xorb (negb sx) sy) with (negb (xorb sx sy)) by (by destruct sx, sy).
  generalize (xorb sx sy) as s. intros s. unfold binary_round_aux.
  destruct (shr_fexp _ _ (Zpos _) _ _) as [r1 e1].
  destruct (shr_fexp _ _ _ _ _) as [r2 e2]. destruct (shr_m r2); try done. by case_match.
Qed.

Lemma fsub_neg_r x y : fsub x (fneg y) = fadd x y.
Proof.
  destruct x as [[]|[]| |sx mx ex], y as [[]|[]| |sy my ey]; try done; try (by destruct sy).
Qed.

(** The signed value of a marked position is its quantity times the price. *)
Lemma signed_value_mark total price p :
  IsFlat (Position.Quantity p) = false ->
  signed_value total (mark_position price p) = (total + Position.Quantity p * price)%f64.
Proof.
  intros Hf. unfold signed_value, mark_position. cbn. set (q := Position.Quantity p) in *.
  destruct (flt f0 q) eqn:Hpos.
  - unfold fabs. by rewrite (flt_asym f0 q Hpos).
  - destruct (is_nan q) eqn:Hn.
    + destruct q; try discriminate. unfold fsub, fadd, fmul. by destruct total as [[]|[]| |], price.
    + assert (Hneg : flt q f0 = true) by (by destruct q as [[]|[]| |[]]).
      unfold fabs. rewrite Hneg, fmul_neg_l. apply fsub_neg_r.
Qed.

Definition add_value (ps : gmap bytes Position.t) (prices : gmap bytes float64) (total : float64)
    (s : bytes) : float64 :=
  match ps !! s, prices !! s with
  | Some p, Some price => (total + Position.Quantity p * price)%f64
  | _, _ => total
  end.

(** Two maps with the same quantities. *)
Definition same_quantities (m m' : gmap bytes Position.t) : Prop :=
  forall s, Position.Quantity <$> m !! s = Position.Quantity <$> m' !! s.

Lemma add_value_same m m' prices total s :
  same_quantities m m' -> add_value m prices total s = add_value m' prices total s.
Proof.
  intros H. specialize (H s). unfold add_value.
  destruct (m !! s), (m' !! s); simplify_eq/=; try done. case_match; congruence.
Qed.

Lemma value_fold prices m keys : forall total m',
  same_quantities m m' ->
  fst (foldl (value_step prices) (total, m') keys) = foldl (add_value m prices) total keys.
Proof.
  induction keys as [|k keys IH]; intros total m' H; cbn [foldl]; [done|].
  rewrite (add_value_same m m' prices total k H). unfold value_step at 2, add_value at 2.
  destruct (m' !! k) as [p|] eqn:Hp; [|by apply IH]. destruct (prices !! k) as [price|]; [|by apply IH].
  apply IH. intros s. rewrite (H s). destruct (decide (s = k)) as [->|].
  - by rewrite lookup_insert_eq, Hp.
  - by rewrite lookup_insert_ne.
Qed.

(** The valuation that re-marks the portfolio and the total of the
    snapshot are the same float64, for long and short positions alike, when
    no position is flat: the sums run over the same keys in the same order,
    and a short's value enters once as a negative product and once as a
    subtracted one. *)
Theorem valuations_agree prices now t (Hsolid : all_solid t) :
  fst (GetPortfolioValue prices t) = Portfolio.TotalValue (GetPortfolio prices now t).
Proof.
  assert (Hl : fst (GetPortfolioValue prices t)
               = foldl (add_value (positions t) prices) (cash t) (sortedKeys (positions t))).
  { rewrite <- (value_fold prices (positions t) _ (cash t) (positions t)) by done.
    unfold GetPortfolioValue. by destruct (foldl _ _ _). }
  rewrite Hl. unfold GetPortfolio. cbn [Portfolio.TotalValue]. symmetry.
  rewrite (sortedKeys_filter (positions t) (snapshot_positions prices t)
             (fun s => is_Some (prices !! s))).
  2:{ intros s. unfold snapshot_positions. rewrite map_lookup_imap.
      destruct (positions t !! s), (prices !! s); cbn;
        split; try (by intros []); try (by intros [[] []]); eauto. }
  apply foldl_filter_skip.
  - intros a s Hs [price Hprice]. destruct (elem_of_sortedKeys _ _ Hs) as [p Hp].
    unfold snapshot_positions, add_value. rewrite map_lookup_imap, Hp. cbn. rewrite Hprice. cbn.
    apply signed_value_mark. apply (Hsolid s p Hp).
  - intros a s Hnone%eq_None_not_Some. unfold add_value. rewrite Hnone. by case_match.
Qed.

(** A long and a short position, marked at new prices. *)
Definition trade_of (sym : string) (d : Direction) (n price : Z) (ts : Time) : Trade.t :=
  Trade.Mk (lit sym) d (f64_of_Z n) (f64_of_Z price) f0 f0 f0 ts f0 (f64_of_Z n).
Definition mixed : Tracker :=
  run [OpApply (trade_of "600000.SH" DirectionLong 100 10 demo_day);
       OpApply (trade_of "000001.SZ" DirectionShort 200 7 demo_day)] demo.
Definition mixed_prices : gmap bytes float64 :=
  <[lit "600000.SH" := f64_of_Z 11]> {[ lit "000001.SZ" := f64_of_Z 6 ]}.

Lemma valuations_agree_witness :
  fst (GetPortfolioValue mixed_prices mixed)
  = Portfolio.TotalValue (GetPortfolio mixed_prices 0 mixed)
  /\ fst (GetPortfolioValue mixed_prices mixed) = f64_of_Z 100300.
Proof.
  split; [|vm_compute; reflexivity].
  apply (valuations_agree mixed_prices 0 mixed).
  apply run_solid; [|apply map_Forall_empty].
  repeat split; vm_compute; reflexivity.
Defined.

(** ** Behaviours worth knowing *)

Definition short_open : Tracker :=
  snd (ApplyTrade (trade_of "600000.SH" DirectionShort 100 10 demo_day) demo).

(** Closing a short credits the price of the shares bought back instead
    of debiting it: selling 100 shares short at 10 and closing at the same
    price ends without a position and with 1994.99 more cash than at the
    start. Buying the same shares back with a long order, which also ends
    flat, returns the cash to where it was. *)
Theorem closing_a_short_credits_cash :
  let closed := snd (ApplyTrade (trade_of "600000.SH" DirectionClose 100 10 demo_day) short_open) in
  let bought_back := snd (ApplyTrade (trade_of "600000.SH" DirectionLong 100 10 demo_day) short_open) in
  cash demo = f64_of_Z 100000
  /\ positions closed = ∅ /\ cash closed = flit 10199499 2
  /\ positions bought_back = ∅ /\ cash bought_back = f64_of_Z 100000.
Proof. repeat split; vm_compute; reflexivity. Qed.

(** Two shorts that leave the cash just above 2^17. *)
Definition two_shorts : Tracker :=
  run [OpApply (trade_of "600000.SH" DirectionShort 100 10 demo_day);
       OpApply (trade_of "000001.SZ" DirectionShort 100 25 demo_day)]
    (set_cash (f64_of_Z (131073 - 3500)) demo).

(** The lending interest is taken from the cash position by position in
    the iteration order of a Go map, which the runtime randomizes: on two
    open shorts the two orders leave different cash, so two runs of the same
    back-test can differ. *)
Theorem lending_interest_order_dependent :
  feq (cash (AdvanceDay [lit "600000.SH"; lit "000001.SZ"] two_shorts))
      (cash (AdvanceDay [lit "000001.SZ"; lit "600000.SH"] two_shorts)) = false
  /\ (sortedKeys (positions two_shorts) = [lit "000001.SZ"; lit "600000.SH"]).
Proof. split; vm_compute; reflexivity. Qed.

(** 100 shares held overnight, doubled by a split, 100 more bought that day,
    then a new day. *)
Definition after_split : Tracker :=
  run [OpApply (trade_of "600000.SH" DirectionLong 100 10 demo_day);
       OpAdvance [];
       OpSplit (lit "600000.SH") (Split.Mk (lit "600000.SH") f1 f0);
       OpApply (trade_of "600000.SH" DirectionLong 100 5 (demo_day + day_ns));
       OpAdvance []] demo.

(** Bonus shares of a split are counted as bought today without moving
    the buy date, so a buy on the same day restarts today's count and drops
    them: of 300 shares held, 200 become sellable, and once those are sold
    the remaining 100 cannot be closed on the following day nor on the day
    after. *)
Theorem split_bonus_shares_stranded :
  let sold := ApplyTrade (trade_of "600000.SH" DirectionClose 300 5 (demo_day + 2 * day_ns)) after_split in
  let stuck := AdvanceDay [] (snd sold) in
  (Position.Quantity <$> positions after_split !! lit "600000.SH") = Some (f64_of_Z 300)
  /\ (Position.QuantityYesterday <$> positions after_split !! lit "600000.SH") = Some (f64_of_Z 200)
  /\ (Position.Quantity <$> positions stuck !! lit "600000.SH") = Some (f64_of_Z 100)
  /\ fst (ApplyTrade (trade_of "600000.SH" DirectionClose 100 5 (demo_day + 3 * day_ns)) stuck)
     = Err T1NothingSellable
  /\ fst (ApplyTrade (trade_of "600000.SH" DirectionClose 100 5 (demo_day + 4 * day_ns))
            (AdvanceDay [] stuck)) = Err T1NothingSellable.
Proof. repeat split; vm_compute; reflexivity. Qed.
