(* ===== verification/PaperParity.v ===== *)
(** * PaperParity: the paper account and the back-test portfolio

    The back-test tracker (src/pkg/backtest/tracker) and the paper trader
    (src/pkg/live/mock_trader.go) implement T+1 settlement twice, over
    different records. Both refine the ledger of [ShareLedger]; so fed the
    same requests they answer alike and hold the same shares. *)

From stdpp Require Import base list strings gmap.
From Stdlib Require Import ZArith Lia.
From S2P Require Import Prelude GoFloat FloatInt Domain ShareLedger MarketRules.
From S2P Require Import MockTrader MockProps.
From S2P Require Import Tracker TrackerProps TrackerLedger.

Open Scope Z_scope.

(** The same request put to both: a trade of the same shares, a day change,
    or a valuation here and a price move there. *)
Definition same_request (ev : day_event) (op : trader_op) : Prop :=
  match ev, op with
  | EvBuy e, OpOrder r =>
      rq_dir r = DirectionLong /\ rq_symbol r = ev_symbol e /\ rq_qty r = ev_qty e
  | EvSell e, OpOrder r =>
      rq_dir r = DirectionClose /\ rq_symbol r = ev_symbol e /\ rq_qty r = ev_qty e
  | EvAdvance _ _, MockProps.OpAdvance => True
  | (EvDividend _ _ | EvRecord _ _ | EvValue _), (OpBars _ | OpPrices _) => True
  | _, _ => False
  end.

(** The two accounts decide alike on money matters: a buy is accepted by both
    or by neither (they may hold different cash), and no sale is refused for
    want of a price. *)
Definition alike_on_money (ev : day_event) (o : option Z) (o' : trader_out) : Prop :=
  match ev with
  | EvBuy _ => o = None <-> exists e, o' = Refused e
  | EvSell _ => forall e, o' = Refused e -> ~ MockProps.unpriced e
  | _ => True
  end.

Inductive alike : list day_event -> list (option Z) -> list trader_out -> Prop :=
| alike_nil : alike [] [] []
| alike_cons ev o o' evs os os' :
    alike_on_money ev o o' -> alike evs os os' -> alike (ev :: evs) (o :: os) (o' :: os').

(** The same answer. *)
Definition same_answer (o : option Z) (o' : trader_out) : Prop :=
  match o' with
  | Traded k => o = Some k
  | Refused _ => o = None
  | Silent => o = Some 0
  | Flattened _ => False
  end.

(** The same shares. *)
Definition same_shares (p : Position.t) (q : MockTrader.PositionInfo.t) : Prop :=
  MockTrader.PositionInfo.Quantity q = Position.Quantity p
  /\ MockTrader.PositionInfo.QuantityYesterday q = Position.QuantityYesterday p
  /\ MockTrader.PositionInfo.QuantityToday q = Position.QuantityToday p.

(** One step of the ledger, driven from either side. *)
Lemma steps_agree L d ev o L1 d1 op o' L2 :
  ledger_step (L, d) ev o (L1, d1) -> paper_step L op o' L2 -> same_request ev op -> alike_on_money ev o o' ->
  L2 = L1 /\ same_answer o o'.
Proof.
  intros Ht Hp Hreq Hmoney.
  inversion Ht; subst; inversion Hp; subst; cbn in Hreq; try done;
    destruct Hreq as (? & E1 & E2) || idtac; cbn in Hmoney; try congruence; rewrite ?E1, ?E2 in *; try done.
  - exfalso. assert (H' : Some (ev_qty e) = None) by (apply Hmoney; eauto). done.
  - exfalso. assert (H' : exists e0, Traded (ev_qty e) = Refused e0) by (by apply Hmoney). naive_solver.
  - exfalso. match goal with H : _ \/ _ \/ _ |- _ => destruct H as [|[|Hu]] end; [lia|lia|by eapply Hmoney].
  - exfalso. lia.
Qed.

Lemma runs_agree st evs os st' :
  ledger_run st evs os st' -> forall ops os' L2,
  paper_run (fst st) ops os' L2 -> Forall2 same_request evs ops -> alike evs os os' ->
  L2 = fst st' /\ Forall2 same_answer os os'.
Proof.
  induction 1 as [[L d]|[L d] ev o [L1 d1] evs os st3 Hs Hr IH]; intros ops os' L2 Hp Hreq Hal; cbn [fst] in *.
  - inversion Hreq; subst. inversion Hp; subst. done.
  - inversion Hreq; subst. inversion Hp; subst. inversion Hal; subst.
    match goal with H1 : paper_step L _ _ ?Lm, H2 : alike_on_money _ _ _, H3 : same_request _ _ |- _ =>
      destruct (steps_agree _ _ _ _ _ _ _ _ _ Hs H1 H3 H2) as [-> Ha] end.
    edestruct IH as [-> Hrest]; eauto.
Qed.

Lemma adds_agree evs ops d :
  Forall2 same_request evs ops -> all_timed evs d ->
  MockProps.run_adds ops = total_adds evs.
Proof.
  intros Hreq. revert d. induction Hreq as [|ev op evs ops Hr _ IH]; intros d Ht; [done|].
  destruct Ht as (_ & Ha & Ht). unfold MockProps.run_adds, total_adds in *. cbn [foldr].
  rewrite (IH _ Ht). f_equal.
  destruct ev, op; cbn in Hr; try done; cbn [MockProps.op_adds adds] in *;
    destruct Hr as (-> & _ & ->); case_bool_decide; try done; lia.
Qed.

Lemma requests_whole evs ops d :
  Forall2 same_request evs ops -> all_timed evs d -> total_adds evs < 2 ^ 53 -> Forall MockProps.op_whole ops.
Proof.
  intros Hreq. revert d. induction Hreq as [|ev op evs ops Hr _ IH]; intros d Ht Hlim; [done|].
  pose proof (total_adds_nonneg _ _ Ht) as H0. destruct Ht as (Hw & Ha & Ht).
  pose proof (total_adds_nonneg _ _ Ht) as H1. cbn [total_adds foldr] in *.
  change (foldr _ 0 evs) with (total_adds evs) in *.
  constructor; [|apply (IH _ Ht); lia].
  destruct ev, op; cbn in Hr; try done; cbn [MockProps.op_whole adds well_timed] in *;
    destruct Hr as (_ & _ & ->); unfold whole_range; lia.
Qed.

Section Parity.
Context {S : Type} (Save : MockTrader.OrderRecord.t -> S -> bool * S).

(** C11. Paper trading mirrors the back-test. Put the same long-only requests
    in whole shares to a back-test tracker and to a paper account, both
    without positions: if they accept the same buys and no sale lacks a
    price, then every request gets the same answer, the sales included, and
    the two end with the same shares of the same symbols, today's and
    sellable, to the last bit. *)
Theorem paper_mirrors_backtest evs ops d t m
    (Ht : positions t = ∅) (Hm : MockTrader.positions m = ∅) (Ho : MockTrader.orders m = ∅)
    (Htimed : all_timed evs d) (Hlim : total_adds evs < 2 ^ 53)
    (Hreq : Forall2 same_request evs ops)
    (Hal : alike evs (fst (tracker_run evs t)) (fst (MockProps.trader_run Save ops m))) :
  Forall2 same_answer (fst (tracker_run evs t)) (fst (MockProps.trader_run Save ops m))
  /\ forall s, option_relation same_shares (fun _ => False) (fun _ => False)
       (positions (snd (tracker_run evs t)) !! s)
       (MockTrader.positions (snd (MockProps.trader_run Save ops m)) !! s).
Proof.
  assert (Hr : rep 0 d t ∅) by (unfold rep; rewrite Ht; apply shares_rep_empty).
  destruct (run_refines evs 0 d t ∅ Hr Htimed ltac:(lia) Hlim) as (L1 & d1 & Hrun1 & Hrep1).
  destruct (MockProps.run_refines_ledger Save ops 0 m ∅) as (L2 & Hrun2 & Hrep2).
  { unfold MockProps.paper_rep. rewrite Hm. apply shares_rep_empty. }
  { unfold MockProps.all_final. rewrite Ho. apply map_Forall_empty. }
  { by eapply requests_whole. }
  { lia. }
  { by rewrite (adds_agree evs ops d). }
  destruct (runs_agree _ _ _ _ Hrun1 _ _ _ Hrun2 Hreq Hal) as [-> Hans]. split; [done|].
  intros s. specialize (Hrep1 s). specialize (Hrep2 s). cbn [fst] in *.
  destruct (positions _ !! s) as [p|], (MockTrader.positions _ !! s) as [q|], (L1 !! s) as [h|]; cbn in *; try done.
  destruct Hrep1 as (_ & _ & _ & E1 & E2 & E3 & _). destruct Hrep2 as (_ & _ & _ & F1 & F2 & F3).
  unfold same_shares. by rewrite E1, E2, E3, F1, F2, F3.
Qed.
End Parity.

(** The two days of [demo_run] put to the demonstration paper account. *)
Definition mirror_ops : list trader_op :=
  [demo_req DirectionLong 100 "a"; demo_req DirectionClose 60 "b"; MockProps.OpAdvance;
   demo_req DirectionClose 60 "c"; demo_req DirectionLong 30 "d"; demo_req DirectionClose 100 "e"].

Lemma paper_mirrors_backtest_witness :
  fst (tracker_run demo_run demo) = [Some 100; None; Some 0; Some 60; Some 30; Some 40]
  /\ Forall2 same_answer (fst (tracker_run demo_run demo))
       (fst (MockProps.trader_run demo_store mirror_ops demo_trader)).
Proof.
  split; [vm_compute; reflexivity|].
  assert (Hal : alike demo_run (fst (tracker_run demo_run demo))
                  (fst (MockProps.trader_run demo_store mirror_ops demo_trader))).
  { replace (fst (tracker_run demo_run demo)) with [Some 100; None; Some 0; Some 60; Some 30; Some 40]
      by (vm_compute; reflexivity).
    replace (fst (MockProps.trader_run demo_store mirror_ops demo_trader))
      with [Traded 100; Refused (T1Violation (lit "600000.SH") (f64_of_Z 100)); Silent; Traded 60; Traded 30; Traded 40]
      by (vm_compute; reflexivity).
    repeat (constructor; cbn [alike_on_money demo_run]); try done; try (intros [e He]; discriminate He).
    intros e [= <-] [H|(p & H & _)]; discriminate H. }
  assert (Ht : all_timed demo_run demo_day).
  { repeat (split; [first [repeat split; (vm_compute; reflexivity) | vm_compute; reflexivity
                          | vm_compute; discriminate]|]). exact I. }
  assert (Hlim : total_adds demo_run < 2 ^ 53) by (vm_compute; reflexivity).
  assert (Hreq : Forall2 same_request demo_run mirror_ops) by (repeat constructor).
  exact (proj1 (paper_mirrors_backtest demo_store demo_run mirror_ops demo_day demo demo_trader
                  eq_refl eq_refl eq_refl Ht Hlim Hreq Hal)).
Defined.
