(* ===== verification/Margin.v ===== *)
(** * Margin: the margin account (src/pkg/live/margin)

    The calculator ([margin_calc.go]), the registry of shortable stocks
    ([margin_shortable.go]) and the account itself ([margin_account.go]):
    margin purchases, short sales, covers, repayments, interest, forced
    liquidation, deposits and withdrawals. Trade identifiers, time stamps
    and logging are left out of the results; a context is [Some] error when
    cancelled; the iteration order of the position maps is the [MapOrder] of
    [GoMap]. Each operation runs under the account's lock, but for the check
    of the shortable quantity in [ShortSell], which is a step of its own. *)

From stdpp Require Import base list strings gmap.
From Stdlib Require Import ZArith Lia SpecFloat.
From S2P Require Import Prelude GoMap GoFloat Domain.

Open Scope Z_scope.

(** ** Configuration and calculator *)

Record MarginConfig := MkMarginConfig {
  InitialMarginRate : float64;
  MaintenanceRatioFloor : float64;
  WarningRatio : float64;
  FinancingRate : float64;
  SecuritiesLendingRate : float64;
  DaysPerYear : Z
}.

Definition DefaultMarginConfig : MarginConfig :=
  MkMarginConfig (flit 5 1) (flit 13 1) (flit 15 1) (flit 6 2) (flit 106 3) 365.

Inductive margin_error :=
| ConfigRange (field : bytes)
| AccountIDRequired
| InitialCashNegative (c : float64)
| MSymbolRequired
| MQuantity (q : float64)
| MPrice (p : float64)
| Cancelled (e : bytes)
| InsufficientMargin (required available : float64)
| NotShortable (symbol : bytes)
| ShortCapExceeded (qty maxQty existing : float64)
| NoShort (symbol : bytes)
| ShortTooSmall (have want : float64)
| NoLong (symbol : bytes)
| LongTooSmall (have want : float64)
| DaysNegative (days : Z)
| AmountNotPositive (amount : float64)
| CashTooSmall (have want : float64)
| WouldBreach (ratio floor : float64).

Definition ValidateConfig (c : MarginConfig) : res margin_error unit :=
  if (InitialMarginRate c <? f0)%f64 || (InitialMarginRate c >? f1)%f64 then Err (ConfigRange (lit "initial_margin_rate"))
  else if (MaintenanceRatioFloor c <? f1)%f64 then Err (ConfigRange (lit "maintenance_ratio_floor"))
  else if (WarningRatio c <? MaintenanceRatioFloor c)%f64 then Err (ConfigRange (lit "warning_ratio"))
  else if (FinancingRate c <? f0)%f64 || (FinancingRate c >? f1)%f64 then Err (ConfigRange (lit "financing_rate"))
  else if (SecuritiesLendingRate c <? f0)%f64 || (SecuritiesLendingRate c >? f1)%f64
  then Err (ConfigRange (lit "securities_lending_rate"))
  else if DaysPerYear c <=? 0 then Err (ConfigRange (lit "days_per_year"))
  else Ok tt.

(** The calculator is its configuration, with defaults for zero fields. *)
Definition NewMarginCalculator (c : MarginConfig) : MarginConfig :=
  MkMarginConfig
    (if (InitialMarginRate c =? f0)%f64 then flit 5 1 else InitialMarginRate c)
    (if (MaintenanceRatioFloor c =? f0)%f64 then flit 13 1 else MaintenanceRatioFloor c)
    (if (WarningRatio c =? f0)%f64 then flit 15 1 else WarningRatio c)
    (FinancingRate c) (SecuritiesLendingRate c)
    (if DaysPerYear c <=? 0 then 365 else DaysPerYear c).

Definition RequiredMarginForBuy (c : MarginConfig) (tradeValue : float64) : float64 :=
  if (tradeValue <=? f0)%f64 then f0 else (tradeValue * InitialMarginRate c)%f64.

Definition RequiredMarginForShort (c : MarginConfig) (tradeValue : float64) : float64 :=
  if (tradeValue <=? f0)%f64 then f0 else (tradeValue * InitialMarginRate c)%f64.

Definition DailyFinancingInterest (c : MarginConfig) (balance : float64) : float64 :=
  if (balance <=? f0)%f64 then f0 else (balance * FinancingRate c / f64_of_Z (DaysPerYear c))%f64.

Definition DailyLendingInterest (c : MarginConfig) (balance : float64) : float64 :=
  if (balance <=? f0)%f64 then f0 else (balance * SecuritiesLendingRate c / f64_of_Z (DaysPerYear c))%f64.

Definition AccruedFinancingInterest (c : MarginConfig) (balance : float64) (days : Z) : float64 :=
  (DailyFinancingInterest c balance * f64_of_Z days)%f64.

Definition AccruedLendingInterest (c : MarginConfig) (balance : float64) (days : Z) : float64 :=
  (DailyLendingInterest c balance * f64_of_Z days)%f64.

Definition CalcMaintenanceRatio (totalAssets totalDebt : float64) : float64 :=
  if (totalDebt <=? f0)%f64 then (if (totalAssets <? f0)%f64 then f0 else S754_infinity false)
  else if (totalAssets <=? f0)%f64 then f0
  else (totalAssets / totalDebt)%f64.

Definition IsForcedLiquidation (c : MarginConfig) (ratio : float64) : bool := (ratio <? MaintenanceRatioFloor c)%f64.
Definition IsWarning (c : MarginConfig) (ratio : float64) : bool :=
  (ratio >=? MaintenanceRatioFloor c)%f64 && (ratio <? WarningRatio c)%f64.
Definition IsSafe (c : MarginConfig) (ratio : float64) : bool := (ratio >=? WarningRatio c)%f64.

Definition CalcAvailableMargin (c : MarginConfig) (totalAssets totalDebt usedMargin : float64) : float64 :=
  let maintenanceMargin :=
    if (totalDebt >? f0)%f64 then (totalDebt * (f1 - f1 / MaintenanceRatioFloor c))%f64 else f0 in
  (totalAssets - usedMargin - maintenanceMargin)%f64.

Definition HasSufficientMargin (available required : float64) : bool := (available >=? required)%f64.

(** ** The registry of shortable stocks *)

Record ShortableEntry := MkShortable { se_Symbol : bytes; MaxQty : float64; AddedAt : Time }.

Abbreviation ShortableList := (gmap bytes ShortableEntry).

Definition AddShortable (symbol : bytes) (maxQty : float64) (addedAt : Time) (s : ShortableList) : ShortableList :=
  if bool_decide (symbol = []) then s else <[symbol := MkShortable symbol maxQty addedAt]> s.

Definition RemoveShortable (symbol : bytes) (s : ShortableList) : ShortableList := delete symbol s.

Definition IsShortable (symbol : bytes) (s : ShortableList) : bool := bool_decide (is_Some (s !! symbol)).

Definition MaxShortableQty (symbol : bytes) (s : ShortableList) : float64 * bool :=
  match s !! symbol with None => (f64_of_Z (-1), false) | Some e => (MaxQty e, true) end.

(** ** The account *)

Module Long.
Record t := Mk { Quantity : float64; AvgCost : float64; FinancingAmount : float64 }.
End Long.

Module Short.
Record t := Mk { Quantity : float64; SalePrice : float64; Proceeds : float64; LendingAmount : float64 }.
End Short.

Inductive MarginOperation := OpMarginBuy | OpShortSell | OpBuyToCover | OpMarginSell.

Record MarginTradeResult := MkTradeResult {
  Operation : MarginOperation;
  tr_Symbol : bytes;
  tr_Quantity : float64;
  tr_Price : float64;
  TradeValue : float64;
  FinancingDelta : float64;
  LendingDelta : float64;
  CashDelta : float64;
  MarginRequired : float64;
  tr_MaintenanceRatio : float64;
  Warning : bool
}.

Inductive MarginStatus := MarginStatusSafe | MarginStatusWarning | MarginStatusForcedLiquidation.

Record MarginRiskStatus := MkRiskStatus {
  rs_TotalAssets : float64;
  rs_TotalDebt : float64;
  rs_NetAssets : float64;
  rs_MaintenanceRatio : float64;
  rs_AvailableMargin : float64;
  rs_FinancingBalance : float64;
  rs_LendingBalance : float64;
  rs_AccruedInterest : float64;
  rs_Status : MarginStatus;
  rs_ForcedLiquidation : bool
}.

Record ForceLiquidateEntry := MkEntry {
  fe_Symbol : bytes;
  fe_Quantity : float64;
  fe_Price : float64;
  fe_TradeValue : float64
}.

Record ForceLiquidateResult := MkLiquidation {
  LongSold : list ForceLiquidateEntry;
  ShortCovered : list ForceLiquidateEntry;
  FinalCash : float64
}.

Record MarginAccount := MkAccount {
  accountID : bytes;
  cash : float64;
  financingBalance : float64;
  longPositions : gmap bytes Long.t;
  shortPositions : gmap bytes Short.t;
  accruedFinancingInterest : float64;
  accruedLendingInterest : float64;
  cfg : MarginConfig;
  calc : MarginConfig;
  shortable : ShortableList;
  tradeSeq : Z
}.

Definition NewMarginAccount (accountID : bytes) (initialCash : float64) (cfg : MarginConfig)
    (shortable : option ShortableList) : res margin_error MarginAccount :=
  if bool_decide (accountID = []) then Err AccountIDRequired
  else if (initialCash <? f0)%f64 then Err (InitialCashNegative initialCash)
  else
    let? _ := ValidateConfig cfg in
    Ok (MkAccount accountID initialCash f0 ∅ ∅ f0 f0 cfg (NewMarginCalculator cfg) (default ∅ shortable) 0).

Definition set_money (c fin : float64) (a : MarginAccount) : MarginAccount :=
  MkAccount (accountID a) c fin (longPositions a) (shortPositions a) (accruedFinancingInterest a)
    (accruedLendingInterest a) (cfg a) (calc a) (shortable a) (tradeSeq a).
Definition set_longs (ls : gmap bytes Long.t) (a : MarginAccount) : MarginAccount :=
  MkAccount (accountID a) (cash a) (financingBalance a) ls (shortPositions a) (accruedFinancingInterest a)
    (accruedLendingInterest a) (cfg a) (calc a) (shortable a) (tradeSeq a).
Definition set_shorts (ss : gmap bytes Short.t) (a : MarginAccount) : MarginAccount :=
  MkAccount (accountID a) (cash a) (financingBalance a) (longPositions a) ss (accruedFinancingInterest a)
    (accruedLendingInterest a) (cfg a) (calc a) (shortable a) (tradeSeq a).
Definition set_interest (fi li : float64) (a : MarginAccount) : MarginAccount :=
  MkAccount (accountID a) (cash a) (financingBalance a) (longPositions a) (shortPositions a) fi li (cfg a)
    (calc a) (shortable a) (tradeSeq a).
Definition set_shortable (s : ShortableList) (a : MarginAccount) : MarginAccount :=
  MkAccount (accountID a) (cash a) (financingBalance a) (longPositions a) (shortPositions a)
    (accruedFinancingInterest a) (accruedLendingInterest a) (cfg a) (calc a) s (tradeSeq a).

(** [nextTradeID]: the counter wraps like any int64. *)
Definition nextTradeID (a : MarginAccount) : MarginAccount :=
  MkAccount (accountID a) (cash a) (financingBalance a) (longPositions a) (shortPositions a)
    (accruedFinancingInterest a) (accruedLendingInterest a) (cfg a) (calc a) (shortable a)
    (wrap64 (tradeSeq a + 1)).

Definition AccruedInterest (a : MarginAccount) : float64 :=
  (accruedFinancingInterest a + accruedLendingInterest a)%f64.

Section Account.
Context `{!MapOrder}.

Abbreviation Prices := (gmap bytes float64).

(** [prices[sym]], or the fallback when that is not positive. *)
Definition price_or (prices : Prices) (sym : bytes) (fallback : float64) : float64 :=
  let price := default f0 (prices !! sym) in if (price <=? f0)%f64 then fallback else price.

Definition long_value (prices : Prices) (e : bytes * Long.t) : float64 :=
  (Long.Quantity e.2 * price_or prices e.1 (Long.AvgCost e.2))%f64.

Definition short_value (prices : Prices) (e : bytes * Short.t) : float64 :=
  (Short.Quantity e.2 * price_or prices e.1 (Short.SalePrice e.2))%f64.

(** The traversals are numbered: [k] is the first one an operation makes. *)
Definition totalAssetsLocked (k : nat) (prices : Prices) (a : MarginAccount) : float64 :=
  foldl (fun t e => t + long_value prices e)%f64 (cash a) (range k (longPositions a)).

Definition totalDebtLocked (k : nat) (prices : Prices) (a : MarginAccount) : float64 :=
  (foldl (fun t e => t + short_value prices e)%f64 (financingBalance a) (range k (shortPositions a))
   + (accruedFinancingInterest a + accruedLendingInterest a))%f64.

Definition LendingBalance (k : nat) (prices : Prices) (a : MarginAccount) : float64 :=
  foldl (fun t e => t + short_value prices e)%f64 f0 (range k (shortPositions a)).

Definition usedMarginLocked (k : nat) (prices : Prices) (a : MarginAccount) : float64 :=
  let rate := InitialMarginRate (cfg a) in
  foldl (fun t e => t + short_value prices e * rate)%f64
    (foldl (fun t e => t + long_value prices e * rate)%f64 f0 (range k (longPositions a)))
    (range (S k) (shortPositions a)).

Definition MaintenanceRatio (k : nat) (prices : Prices) (a : MarginAccount) : float64 :=
  CalcMaintenanceRatio (totalAssetsLocked k prices a) (totalDebtLocked (S k) prices a).

Definition AvailableMargin (k : nat) (prices : Prices) (a : MarginAccount) : float64 :=
  CalcAvailableMargin (calc a) (totalAssetsLocked k prices a) (totalDebtLocked (1 + k) prices a)
    (usedMarginLocked (2 + k) prices a).

Definition RiskStatus (prices : Prices) (a : MarginAccount) : MarginRiskStatus :=
  let assets := totalAssetsLocked 0 prices a in
  let debt := totalDebtLocked 1 prices a in
  let used := usedMarginLocked 2 prices a in
  let ratio := CalcMaintenanceRatio assets debt in
  let available := CalcAvailableMargin (calc a) assets debt used in
  let lendingBal := LendingBalance 4 prices a in
  let '(status, forced) :=
    if (ratio <? MaintenanceRatioFloor (cfg a))%f64 then (MarginStatusForcedLiquidation, true)
    else if (ratio <? WarningRatio (cfg a))%f64 then (MarginStatusWarning, false)
    else (MarginStatusSafe, false) in
  MkRiskStatus assets debt (assets - debt)%f64 ratio available (financingBalance a) lendingBal
    (AccruedInterest a) status forced.

(** ** Trades *)

Definition validateTrade (symbol : bytes) (qty price : float64) : res margin_error unit :=
  if bool_decide (symbol = []) then Err MSymbolRequired
  else if (qty <=? f0)%f64 then Err (MQuantity qty)
  else if (price <=? f0)%f64 then Err (MPrice price)
  else Ok tt.

Definition checkCtx (ctx : option bytes) : res margin_error unit :=
  match ctx with Some e => Err (Cancelled e) | None => Ok tt end.

Definition addToLongPosition (symbol : bytes) (qty price financingAmount : float64) (a : MarginAccount)
    : MarginAccount :=
  let pos := match longPositions a !! symbol with
             | None => Long.Mk qty price financingAmount
             | Some p =>
                 let totalQty := (Long.Quantity p + qty)%f64 in
                 let totalCost := (Long.Quantity p * Long.AvgCost p + qty * price)%f64 in
                 Long.Mk totalQty (totalCost / totalQty)%f64 (Long.FinancingAmount p + financingAmount)%f64
             end in
  set_longs (<[symbol := pos]> (longPositions a)) a.

Definition addToShortPosition (symbol : bytes) (qty price lendingAmount : float64) (a : MarginAccount)
    : MarginAccount :=
  let pos := match shortPositions a !! symbol with
             | None => Short.Mk qty price (qty * price)%f64 lendingAmount
             | Some p =>
                 let totalQty := (Short.Quantity p + qty)%f64 in
                 let totalProceeds := (Short.Proceeds p + qty * price)%f64 in
                 Short.Mk totalQty (totalProceeds / totalQty)%f64 totalProceeds
                   (Short.LendingAmount p + lendingAmount)%f64
             end in
  set_shorts (<[symbol := pos]> (shortPositions a)) a.

(** What the trades report: the ratio after the trade, valued at the traded
    price alone, and whether it is below the warning line. *)
Definition report (op : MarginOperation) (k : nat) (symbol : bytes) (qty price tradeValue financing lending cashd
    required : float64) (a : MarginAccount) : MarginTradeResult :=
  let postRatio := MaintenanceRatio k {[symbol := price]} a in
  MkTradeResult op symbol qty price tradeValue financing lending cashd required postRatio
    (postRatio <? WarningRatio (cfg a))%f64.

Definition MarginBuy (ctx : option bytes) (symbol : bytes) (qty price : float64) (a : MarginAccount)
    : res margin_error MarginTradeResult * MarginAccount :=
  match validateTrade symbol qty price, checkCtx ctx with
  | Err e, _ => (Err e, a)
  | _, Err e => (Err e, a)
  | Ok _, Ok _ =>
      let tradeValue := (qty * price)%f64 in
      let requiredMargin := RequiredMarginForBuy (calc a) tradeValue in
      let available := AvailableMargin 0 {[symbol := price]} a in
      if negb (HasSufficientMargin available requiredMargin)
      then (Err (InsufficientMargin requiredMargin available), a)
      else
        let a := set_money (cash a) (financingBalance a + tradeValue)%f64 a in
        let a := addToLongPosition symbol qty price tradeValue a in
        (Ok (report OpMarginBuy 4 symbol qty price tradeValue tradeValue f0 f0 requiredMargin a), nextTradeID a)
  end.

(** The check of the shortable quantity, made before the lock is taken. *)
Definition shortCheck (symbol : bytes) (qty : float64) (a : MarginAccount) : res margin_error unit :=
  let '(maxQty, ok) := MaxShortableQty symbol (shortable a) in
  if negb ok then Err (NotShortable symbol)
  else if (maxQty >? f0)%f64 then
    let existing := match shortPositions a !! symbol with Some p => Short.Quantity p | None => f0 end in
    if (existing + qty >? maxQty)%f64 then Err (ShortCapExceeded qty maxQty existing) else Ok tt
  else Ok tt.

(** The rest of the short sale, under the lock. *)
Definition shortBook (symbol : bytes) (qty price : float64) (a : MarginAccount)
    : res margin_error MarginTradeResult * MarginAccount :=
  let tradeValue := (qty * price)%f64 in
  let requiredMargin := RequiredMarginForShort (calc a) tradeValue in
  let available := AvailableMargin 0 {[symbol := price]} a in
  if negb (HasSufficientMargin available requiredMargin)
  then (Err (InsufficientMargin requiredMargin available), a)
  else
    let a := set_money (cash a + tradeValue)%f64 (financingBalance a) a in
    let a := addToShortPosition symbol qty price tradeValue a in
    (Ok (report OpShortSell 4 symbol qty price tradeValue f0 tradeValue tradeValue requiredMargin a), nextTradeID a).

Definition ShortSell (ctx : option bytes) (symbol : bytes) (qty price : float64) (a : MarginAccount)
    : res margin_error MarginTradeResult * MarginAccount :=
  match validateTrade symbol qty price, checkCtx ctx, shortCheck symbol qty a with
  | Err e, _, _ => (Err e, a)
  | _, Err e, _ => (Err e, a)
  | _, _, Err e => (Err e, a)
  | Ok _, Ok _, Ok _ => shortBook symbol qty price a
  end.

(** The short position after a cover: gone when nothing is left. *)
Definition covered (qty : float64) (p : Short.t) : option Short.t :=
  let '(lending, proceeds) :=
    if (Short.Quantity p >? f0)%f64 then
      let ratio := (qty / Short.Quantity p)%f64 in
      ((Short.LendingAmount p - Short.LendingAmount p * ratio)%f64,
       (Short.Proceeds p - Short.Proceeds p * ratio)%f64)
    else (Short.LendingAmount p, Short.Proceeds p) in
  let left := (Short.Quantity p - qty)%f64 in
  if (left <=? f0)%f64 then None else Some (Short.Mk left f0 proceeds lending).

Definition BuyToCover (ctx : option bytes) (symbol : bytes) (qty price : float64) (a : MarginAccount)
    : res margin_error MarginTradeResult * MarginAccount :=
  match validateTrade symbol qty price, checkCtx ctx with
  | Err e, _ => (Err e, a)
  | _, Err e => (Err e, a)
  | Ok _, Ok _ =>
      match shortPositions a !! symbol with
      | None => (Err (NoShort symbol), a)
      | Some p =>
          if (Short.Quantity p <? qty)%f64 then (Err (ShortTooSmall (Short.Quantity p) qty), a)
          else
            let tradeValue := (qty * price)%f64 in
            let a := set_money (cash a - tradeValue)%f64 (financingBalance a) a in
            let a := set_shorts (partial_alter (fun _ => covered qty p) symbol (shortPositions a)) a in
            (Ok (report OpBuyToCover 0 symbol qty price tradeValue f0 (fneg tradeValue) (fneg tradeValue) f0 a),
             nextTradeID a)
      end
  end.

(** The financing repaid by a sale of [qty] for [tradeValue], and the
    position left. *)
Definition repaid (qty tradeValue : float64) (p : Long.t) : float64 :=
  if (Long.Quantity p >? f0)%f64 then
    let financingForQty := (Long.FinancingAmount p * (qty / Long.Quantity p))%f64 in
    if (tradeValue <? financingForQty)%f64 then tradeValue else financingForQty
  else f0.

Definition long_left (qty : float64) (p : Long.t) : option Long.t :=
  let fin := if (Long.Quantity p >? f0)%f64
             then (Long.FinancingAmount p - Long.FinancingAmount p * (qty / Long.Quantity p))%f64
             else Long.FinancingAmount p in
  let left := (Long.Quantity p - qty)%f64 in
  if (left <=? f0)%f64 then None else Some (Long.Mk left (Long.AvgCost p) fin).

Definition MarginSell (ctx : option bytes) (symbol : bytes) (qty price : float64) (a : MarginAccount)
    : res margin_error MarginTradeResult * MarginAccount :=
  match validateTrade symbol qty price, checkCtx ctx with
  | Err e, _ => (Err e, a)
  | _, Err e => (Err e, a)
  | Ok _, Ok _ =>
      match longPositions a !! symbol with
      | None => (Err (NoLong symbol), a)
      | Some p =>
          if (Long.Quantity p <? qty)%f64 then (Err (LongTooSmall (Long.Quantity p) qty), a)
          else
            let tradeValue := (qty * price)%f64 in
            let fin := if (Long.Quantity p >? f0)%f64
                       then (financingBalance a - repaid qty tradeValue p)%f64 else financingBalance a in
            let a := set_money (cash a + tradeValue)%f64 fin a in
            let a := set_longs (partial_alter (fun _ => long_left qty p) symbol (longPositions a)) a in
            (Ok (report OpMarginSell 0 symbol qty price tradeValue (fneg tradeValue) f0 tradeValue f0 a),
             nextTradeID a)
      end
  end.

(** ** Interest, liquidation, deposits *)

(** (financing interest, lending interest). *)
Definition AccrueInterest (ctx : option bytes) (days : Z) (prices : Prices) (a : MarginAccount)
    : res margin_error (float64 * float64) * MarginAccount :=
  if days <? 0 then (Err (DaysNegative days), a)
  else if days =? 0 then (Ok (f0, f0), a)
  else match checkCtx ctx with
       | Err e => (Err e, a)
       | Ok _ =>
           let fi := AccruedFinancingInterest (calc a) (financingBalance a) days in
           let li := AccruedLendingInterest (calc a) (LendingBalance 0 prices a) days in
           (Ok (fi, li), set_interest (accruedFinancingInterest a + fi)%f64 (accruedLendingInterest a + li)%f64 a)
       end.

Definition liquidate_long (prices : Prices) (st : float64 * float64 * list ForceLiquidateEntry) (e : bytes * Long.t)
    : float64 * float64 * list ForceLiquidateEntry :=
  let '(c, fin, sold) := st in
  let value := long_value prices e in
  let fin := (fin - Long.FinancingAmount e.2)%f64 in
  let fin := if (fin <? f0)%f64 then f0 else fin in
  ((c + value)%f64, fin,
   sold ++ [MkEntry e.1 (Long.Quantity e.2) (price_or prices e.1 (Long.AvgCost e.2)) value]).

Definition liquidate_short (prices : Prices) (st : float64 * list ForceLiquidateEntry) (e : bytes * Short.t)
    : float64 * list ForceLiquidateEntry :=
  let value := short_value prices e in
  ((fst st - value)%f64,
   snd st ++ [MkEntry e.1 (Short.Quantity e.2) (price_or prices e.1 (Short.SalePrice e.2)) value]).

Definition ForceLiquidate (ctx : option bytes) (prices : Prices) (a : MarginAccount)
    : res margin_error ForceLiquidateResult * MarginAccount :=
  match checkCtx ctx with
  | Err e => (Err e, a)
  | Ok _ =>
      let '(c, fin, longs) :=
        foldl (liquidate_long prices) (cash a, financingBalance a, []) (range 0 (longPositions a)) in
      let '(c, shorts) := foldl (liquidate_short prices) (c, []) (range 1 (shortPositions a)) in
      (Ok (MkLiquidation longs shorts c),
       set_interest f0 f0 (set_shorts ∅ (set_longs ∅ (set_money c fin a))))
  end.

Definition Deposit (ctx : option bytes) (amount : float64) (a : MarginAccount) : res margin_error unit * MarginAccount :=
  if (amount <=? f0)%f64 then (Err (AmountNotPositive amount), a)
  else match checkCtx ctx with
       | Err e => (Err e, a)
       | Ok _ => (Ok tt, set_money (cash a + amount)%f64 (financingBalance a) a)
       end.

Definition Withdraw (ctx : option bytes) (amount : float64) (prices : Prices) (a : MarginAccount)
    : res margin_error unit * MarginAccount :=
  if (amount <=? f0)%f64 then (Err (AmountNotPositive amount), a)
  else match checkCtx ctx with
       | Err e => (Err e, a)
       | Ok _ =>
           if (cash a <? amount)%f64 then (Err (CashTooSmall (cash a) amount), a)
           else
             let a' := set_money (cash a - amount)%f64 (financingBalance a) a in
             let ratio := MaintenanceRatio 0 prices a' in
             if (ratio <? MaintenanceRatioFloor (cfg a))%f64
             then (Err (WouldBreach ratio (MaintenanceRatioFloor (cfg a))), a)
             else (Ok tt, a')
       end.
End Account.
