(* ===== verification/MarginProps.v ===== *)
(** * MarginProps: what the margin account guarantees

    Trading at the marked prices conserves the net assets the account
    reports, exactly, for purchases on margin, short sales and covers in
    whole shares at whole prices; the operations that do not conserve them
    and the checks that do not protect the maintenance floor. *)

From stdpp Require Import base list strings gmap.
From Stdlib Require Import ZArith Lia SpecFloat.
From S2P Require Import Prelude GoMap GoFloat FloatInt ShareLedger Domain Margin.

Open Scope Z_scope.

(** ** Exact sums over a position map *)

Section Exact.
Context `{!MapOrder} (P : gmap bytes Z).

(** The mark of a symbol, in whole yuan. *)
Definition mark (s : bytes) : Z := default 0 (P !! s).

Definition marks : gmap bytes float64 := f64_of_Z <$> P.

(** A whole position of a marked symbol. *)
Definition whole_pos {V} (qty : V -> float64) (s : bytes) (v : V) : Prop :=
  1 <= mark s < 2 ^ 53 /\ exists q, qty v = f64_of_Z q /\ 0 < q < 2 ^ 53.

Definition term {V} (qty : V -> float64) (e : bytes * V) : Z := f64_to_int64 (qty e.2) * mark e.1.

Definition worth_list {V} (qty : V -> float64) (l : list (bytes * V)) : Z := foldr (fun e n => term qty e + n) 0 l.

(** The exact value of a position map at the marks. *)
Definition worth {V} (qty : V -> float64) (m : gmap bytes V) : Z := worth_list qty (map_to_list m).

Lemma worth_list_perm {V} (qty : V -> float64) l l' : l ≡ₚ l' -> worth_list qty l = worth_list qty l'.
Proof. unfold worth_list. induction 1; cbn [foldr] in *; lia. Qed.

Lemma term_whole {V} (qty : V -> float64) s v q : qty v = f64_of_Z q -> 0 <= q < 2 ^ 53 -> term qty (s, v) = q * mark s.
Proof. intros Hq Hr. unfold term. cbn. by rewrite Hq, int64_of_whole. Qed.

Definition term_at {V} (qty : V -> float64) (s : bytes) (o : option V) : Z :=
  match o with Some v => term qty (s, v) | None => 0 end.

Lemma worth_delete {V} (qty : V -> float64) m s : worth qty m = term_at qty s (m !! s) + worth qty (delete s m).
Proof.
  destruct (m !! s) as [v|] eqn:E; cbn [term_at].
  - unfold worth. rewrite (worth_list_perm qty _ _ (symmetry (map_to_list_delete m s v E))). done.
  - by rewrite delete_id.
Qed.

Lemma worth_alter {V} (qty : V -> float64) m s (o : option V) :
  worth qty (partial_alter (fun _ => o) s m) = worth qty m - term_at qty s (m !! s) + term_at qty s o.
Proof.
  rewrite (worth_delete qty (partial_alter _ s m) s), (worth_delete qty m s), lookup_partial_alter_eq.
  rewrite delete_partial_alter_eq. lia.
Qed.

Lemma term_nonneg {V} (qty : V -> float64) s v : whole_pos qty s v -> 0 <= term qty (s, v).
Proof. intros (Hm & q & Hq & H0). rewrite (term_whole _ _ _ _ Hq) by lia. nia. Qed.

Lemma worth_list_nonneg {V} (qty : V -> float64) l :
  Forall (fun e => whole_pos qty e.1 e.2) l -> 0 <= worth_list qty l.
Proof.
  unfold worth_list. induction 1 as [|[s v] l Hw _ IH]; cbn [foldr]; [lia|]. pose proof (term_nonneg qty s v Hw). lia.
Qed.

Lemma entries_whole {V} (qty : V -> float64) m :
  map_Forall (whole_pos qty) m -> Forall (fun e => whole_pos qty e.1 e.2) (map_to_list m).
Proof. intros Hm. apply Forall_forall. intros [s v] Hin. apply Hm. by apply elem_of_map_to_list. Qed.

Lemma worth_nonneg {V} (qty : V -> float64) m : map_Forall (whole_pos qty) m -> 0 <= worth qty m.
Proof. intros Hm. by apply worth_list_nonneg, entries_whole. Qed.

Lemma worth_term_le {V} (qty : V -> float64) m s v :
  map_Forall (whole_pos qty) m -> m !! s = Some v -> term qty (s, v) <= worth qty m.
Proof.
  intros Hm Hs. rewrite (worth_delete qty m s), Hs. cbn [term_at].
  pose proof (worth_nonneg qty (delete s m) (map_Forall_delete _ _ s Hm)). lia.
Qed.

Lemma price_marked s fb : 1 <= mark s < 2 ^ 53 -> price_or marks s fb = f64_of_Z (mark s).
Proof.
  intros Hm. unfold price_or, marks. rewrite lookup_fmap. unfold mark in *. destruct (P !! s) as [p|]; cbn in *; [|lia].
  change f0 with (f64_of_Z 0). rewrite fle_whole by whole. by replace (p <=? 0) with false by lia.
Qed.

(** The code's running sum is the exact sum, in whatever order. *)
Lemma sum_exact {V} (qty fb : V -> float64) l : forall z,
  Forall (fun e => whole_pos qty e.1 e.2) l -> - 2 ^ 53 < z -> z + worth_list qty l < 2 ^ 53 -> worth_list qty l < 2 ^ 53 ->
  foldl (fun t (e : bytes * V) => t + qty e.2 * price_or marks e.1 (fb e.2))%f64 (f64_of_Z z) l
  = f64_of_Z (z + worth_list qty l).
Proof.
  induction l as [|[s v] l IH]; intros z Hl Hz Hb Hw; cbn [foldl worth_list foldr]; [by rewrite Z.add_0_r|].
  apply Forall_cons in Hl as [(Hm & q & Hq & H0) Hl]. cbn [fst snd] in *.
  pose proof (worth_list_nonneg qty l Hl) as Hn. cbn [worth_list foldr] in Hb, Hw.
  change (foldr _ 0 l) with (worth_list qty l) in *.
  rewrite (term_whole qty s v q Hq) in * by lia.
  rewrite Hq, price_marked, fmul_whole by (whole || (unfold whole_range; nia)).
  rewrite fadd_whole by (unfold whole_range; nia).
  rewrite IH; [f_equal; lia|done|nia|lia|lia].
Qed.

Lemma range_exact {V} (qty fb : V -> float64) k m z :
  map_Forall (whole_pos qty) m -> - 2 ^ 53 < z -> z + worth qty m < 2 ^ 53 -> worth qty m < 2 ^ 53 ->
  foldl (fun t (e : bytes * V) => t + qty e.2 * price_or marks e.1 (fb e.2))%f64 (f64_of_Z z) (range k m)
  = f64_of_Z (z + worth qty m).
Proof.
  intros Hm Hz Hb Hw. unfold worth in *. rewrite <- (worth_list_perm qty _ _ (range_perm k m)) in *.
  apply sum_exact; try done. rewrite range_perm. by apply entries_whole.
Qed.

(** ** The whole account *)

(** Every amount is whole and below [B], no interest has accrued, and the net
    assets at the marks are [N]. *)
Definition whole_account (B N : Z) (a : MarginAccount) : Prop :=
  exists c f, cash a = f64_of_Z c /\ financingBalance a = f64_of_Z f
  /\ - B <= c <= B /\ 0 <= f <= B
  /\ accruedFinancingInterest a = f0 /\ accruedLendingInterest a = f0
  /\ map_Forall (whole_pos Long.Quantity) (longPositions a) /\ worth Long.Quantity (longPositions a) <= B
  /\ map_Forall (whole_pos Short.Quantity) (shortPositions a) /\ worth Short.Quantity (shortPositions a) <= B
  /\ N = c + worth Long.Quantity (longPositions a) - f - worth Short.Quantity (shortPositions a).

Lemma net_assets_exact B N a :
  whole_account B N a -> 4 * B < 2 ^ 53 -> rs_NetAssets (RiskStatus marks a) = f64_of_Z N.
Proof.
  intros (c & f & Ec & Ef & Hc & Hf & Ei1 & Ei2 & HL & HLB & HS & HSB & ->) HB.
  pose proof (worth_nonneg _ _ HL). pose proof (worth_nonneg _ _ HS).
  unfold RiskStatus. match goal with |- context [let '(_, _) := ?x in _] => destruct x as [st forced] end.
  cbn [rs_NetAssets].
  unfold totalAssetsLocked, totalDebtLocked. rewrite Ec, Ef, Ei1, Ei2.
  unfold long_value, short_value. rewrite !range_exact by (done || lia).
  change (f0 + f0)%f64 with (f64_of_Z 0). rewrite fadd_whole, fsub_whole by whole. f_equal. lia.
Qed.

(** ** Requests at the marks *)

Inductive mreq :=
| RBuy (s : bytes) (q : Z)
| RShort (s : bytes) (q : Z)
| RCover (s : bytes) (q : Z)
| RDeposit (n : Z)
| RWithdraw (n : Z).

(** The request, put to the account at the mark of its symbol: whether it was
    accepted, and the account. *)
Definition mstep (r : mreq) (a : MarginAccount) : bool * MarginAccount :=
  match r with
  | RBuy s q => let '(o, a') := MarginBuy None s (f64_of_Z q) (f64_of_Z (mark s)) a in (is_ok o, a')
  | RShort s q => let '(o, a') := ShortSell None s (f64_of_Z q) (f64_of_Z (mark s)) a in (is_ok o, a')
  | RCover s q => let '(o, a') := BuyToCover None s (f64_of_Z q) (f64_of_Z (mark s)) a in (is_ok o, a')
  | RDeposit n => let '(o, a') := Deposit None (f64_of_Z n) a in (is_ok o, a')
  | RWithdraw n => let '(o, a') := Withdraw None (f64_of_Z n) marks a in (is_ok o, a')
  end.

(** The money that moves. *)
Definition turnover (r : mreq) : Z :=
  match r with
  | RBuy s q | RShort s q | RCover s q => q * mark s
  | RDeposit n | RWithdraw n => n
  end.

(** What an accepted request adds to the net assets. *)
Definition inflow (r : mreq) : Z :=
  match r with RDeposit n => n | RWithdraw n => - n | _ => 0 end.

Definition mreq_ok (r : mreq) : Prop :=
  match r with
  | RBuy s q | RShort s q | RCover s q => 1 <= mark s < 2 ^ 53 /\ 0 < q < 2 ^ 53
  | RDeposit n | RWithdraw n => 0 < n
  end.

Lemma whole_account_mono B B' N a : B <= B' -> whole_account B N a -> whole_account B' N a.
Proof.
  intros HB (c & f & Ec & Ef & Hc & Hf & Ei1 & Ei2 & HL & HLB & HS & HSB & EN).
  exists c, f. split_and!; try done; lia.
Qed.

(** Adding [q] shares to the position of [s], if any. *)
Lemma add_shares {V} (qty : V -> float64) m s q (v : V) B :
  map_Forall (whole_pos qty) m -> worth qty m <= B -> 1 <= mark s < 2 ^ 53 -> 0 < q ->
  B + q * mark s < 2 ^ 53 ->
  qty v = match m !! s with Some u => (qty u + f64_of_Z q)%f64 | None => f64_of_Z q end ->
  map_Forall (whole_pos qty) (<[s := v]> m) /\ worth qty (<[s := v]> m) = worth qty m + q * mark s.
Proof.
  intros Hm HB Hmk Hq Hlim Hv.
  assert (Hone : exists n, qty v = f64_of_Z n /\ 0 < n < 2 ^ 53
                           /\ n * mark s = term_at qty s (m !! s) + q * mark s).
  { pose proof (worth_nonneg qty m Hm). destruct (m !! s) as [u|] eqn:Eu; cbn [term_at].
    - pose proof (worth_term_le qty m s u Hm Eu) as Hle. destruct (Hm s u Eu) as (_ & n & En & Hn).
      rewrite (term_whole qty s u n En) in * by lia. exists (n + q).
      rewrite Hv, En, fadd_whole by (unfold whole_range; nia). split; [done|]. nia.
    - exists q. split; [done|]. nia. }
  destruct Hone as (n & En & Hn & Et). split.
  - apply map_Forall_insert_2; [|done]. split; [done|]. by exists n.
  - change (<[s := v]> m) with (partial_alter (fun _ => Some v) s m). rewrite worth_alter. cbn [term_at].
    rewrite (term_whole qty s v n En) by lia. lia.
Qed.

(** The prologue every trade shares passes on a well-formed request. *)
Lemma validateTrade_whole s q : s <> [] -> 1 <= mark s < 2 ^ 53 -> 0 < q < 2 ^ 53 ->
  validateTrade s (f64_of_Z q) (f64_of_Z (mark s)) = Ok tt.
Proof.
  intros Hs Hm Hq. unfold validateTrade. rewrite bool_decide_false by done. change f0 with (f64_of_Z 0).
  rewrite !fle_whole by whole. replace (q <=? 0) with false by lia. by replace (mark s <=? 0) with false by lia.
Qed.

Lemma buy_conserves B N a s q :
  whole_account B N a -> 0 <= B -> mreq_ok (RBuy s q) -> B + q * mark s < 2 ^ 53 ->
  whole_account (B + q * mark s) N (snd (mstep (RBuy s q) a)).
Proof.
  intros HW HB (Hm & Hq) Hlim. assert (Hle : B <= B + q * mark s) by nia. cbn [mstep]. unfold MarginBuy.
  destruct (validateTrade _ _ _) as [[]|e]; [|by eapply whole_account_mono]. cbn [checkCtx].
  destruct (negb _); [by eapply whole_account_mono|]. cbn [snd].
  destruct HW as (c & f & Ec & Ef & Hc & Hf & Ei1 & Ei2 & HL & HLB & HS & HSB & EN).
  unfold addToLongPosition. cbn [longPositions set_money].
  match goal with |- context [<[s := ?v]> (longPositions a)] => set (pos := v) end.
  destruct (add_shares Long.Quantity (longPositions a) s q pos B HL HLB Hm ltac:(lia) Hlim) as [HL' EW].
  { subst pos. by destruct (longPositions a !! s). }
  exists c, (f + q * mark s). cbn [cash financingBalance accruedFinancingInterest accruedLendingInterest
    longPositions shortPositions nextTradeID set_longs set_money].
  rewrite Ef, fmul_whole, fadd_whole by (unfold whole_range; nia).
  rewrite EW. split_and!; try done; lia.
Qed.

Lemma short_conserves B N a s q :
  whole_account B N a -> 0 <= B -> mreq_ok (RShort s q) -> B + q * mark s < 2 ^ 53 ->
  whole_account (B + q * mark s) N (snd (mstep (RShort s q) a)).
Proof.
  intros HW HB (Hm & Hq) Hlim. assert (Hle : B <= B + q * mark s) by nia. cbn [mstep]. unfold ShortSell.
  destruct (validateTrade _ _ _) as [[]|e]; [|by eapply whole_account_mono]. cbn [checkCtx].
  destruct (shortCheck _ _ _) as [[]|e]; [|by eapply whole_account_mono]. unfold shortBook.
  destruct (negb _); [by eapply whole_account_mono|]. cbn [snd].
  destruct HW as (c & f & Ec & Ef & Hc & Hf & Ei1 & Ei2 & HL & HLB & HS & HSB & EN).
  unfold addToShortPosition. cbn [shortPositions set_money].
  match goal with |- context [<[s := ?v]> (shortPositions a)] => set (pos := v) end.
  destruct (add_shares Short.Quantity (shortPositions a) s q pos B HS HSB Hm ltac:(lia) Hlim) as [HS' EW].
  { subst pos. by destruct (shortPositions a !! s). }
  exists (c + q * mark s), f. cbn [cash financingBalance accruedFinancingInterest accruedLendingInterest
    longPositions shortPositions nextTradeID set_shorts set_money].
  rewrite Ec, fmul_whole, fadd_whole by (unfold whole_range; nia).
  rewrite EW. split_and!; try done; lia.
Qed.

Lemma cover_conserves B N a s q :
  whole_account B N a -> 0 <= B -> mreq_ok (RCover s q) -> B + q * mark s < 2 ^ 53 ->
  whole_account (B + q * mark s) N (snd (mstep (RCover s q) a)).
Proof.
  intros HW HB (Hm & Hq) Hlim. assert (Hle : B <= B + q * mark s) by nia. cbn [mstep]. unfold BuyToCover.
  destruct (validateTrade _ _ _) as [[]|e]; [|by eapply whole_account_mono]. cbn [checkCtx].
  destruct (shortPositions a !! s) as [p|] eqn:Ep; [|by eapply whole_account_mono].
  destruct (Short.Quantity p <? _)%f64 eqn:Elt; [by eapply whole_account_mono|]. cbn [snd].
  destruct HW as (c & f & Ec & Ef & Hc & Hf & Ei1 & Ei2 & HL & HLB & HS & HSB & EN).
  pose proof (worth_term_le _ _ _ _ HS Ep) as Hle'. destruct (HS s p Ep) as (_ & n & En & Hn).
  rewrite En, flt_whole in Elt by whole. bool_to_prop.
  assert (Hcov : if n - q =? 0 then covered (f64_of_Z q) p = None
                 else exists v, covered (f64_of_Z q) p = Some v /\ Short.Quantity v = f64_of_Z (n - q)).
  { unfold covered. match goal with |- context [let '(_, _) := ?x in _] => destruct x as [le pr] end.
    change f0 with (f64_of_Z 0). rewrite En, fsub_whole, fle_whole by whole.
    destruct (n - q =? 0) eqn:E; bool_to_prop.
    - by replace (n - q <=? 0) with true by lia.
    - replace (n - q <=? 0) with false by lia. eauto. }
  assert (Hnew : term_at Short.Quantity s (covered (f64_of_Z q) p) = (n - q) * mark s
                 /\ map_Forall (whole_pos Short.Quantity)
                      (partial_alter (fun _ => covered (f64_of_Z q) p) s (shortPositions a))).
  { destruct (n - q =? 0) eqn:E; bool_to_prop.
    - rewrite Hcov. split; [cbn; lia|]. exact (map_Forall_delete _ _ s HS).
    - destruct Hcov as (v & -> & Ev). split; [by apply term_whole; [|lia]|].
      refine (map_Forall_insert_2 _ (shortPositions a) s v _ HS). split; [done|]. exists (n - q). split; [done|lia]. }
  destruct Hnew as [Et HS'].
  assert (EW : worth Short.Quantity (partial_alter (fun _ => covered (f64_of_Z q) p) s (shortPositions a))
               = worth Short.Quantity (shortPositions a) - q * mark s).
  { rewrite worth_alter, Ep, Et. cbn [term_at]. rewrite (term_whole _ _ _ _ En) by lia. lia. }
  exists (c - q * mark s), f. cbn [cash financingBalance accruedFinancingInterest accruedLendingInterest
    longPositions shortPositions nextTradeID set_shorts set_money].
  rewrite Ec, fmul_whole, fsub_whole by (unfold whole_range; nia).
  rewrite EW. split_and!; try done; nia.
Qed.

Lemma money_moves B N a r :
  (exists n, r = RDeposit n \/ r = RWithdraw n) ->
  whole_account B N a -> 0 <= B -> mreq_ok r -> B + turnover r < 2 ^ 53 ->
  whole_account (B + turnover r) (N + if fst (mstep r a) then inflow r else 0) (snd (mstep r a)).
Proof.
  intros [n Hr] HW HB Hn Hlim.
  assert (Hno : whole_account (B + n) (N + 0) a) by (rewrite Z.add_0_r; eapply whole_account_mono; [|done];
    destruct Hr; subst; cbn in Hn; lia).
  destruct HW as (c & f & Ec & Ef & Hc & Hf & Ei1 & Ei2 & HL & HLB & HS & HSB & EN).
  destruct Hr as [-> | ->]; cbn [mstep turnover inflow mreq_ok] in *.
  - unfold Deposit. destruct (_ <=? _)%f64; [done|]. cbn [checkCtx fst snd is_ok].
    exists (c + n), f. cbn [cash financingBalance accruedFinancingInterest accruedLendingInterest
      longPositions shortPositions set_money]. rewrite Ec, fadd_whole by whole. split_and!; try done; lia.
  - unfold Withdraw. destruct (_ <=? _)%f64; [done|]. cbn [checkCtx]. rewrite Ec, flt_whole by whole.
    destruct (c <? n) eqn:E; [done|]. bool_to_prop. destruct (_ <? _)%f64; [done|]. cbn [fst snd is_ok].
    exists (c - n), f. cbn [cash financingBalance accruedFinancingInterest accruedLendingInterest
      longPositions shortPositions set_money]. rewrite fsub_whole by whole. split_and!; try done; lia.
Qed.

Lemma mstep_conserves B N a r :
  whole_account B N a -> 0 <= B -> mreq_ok r -> B + turnover r < 2 ^ 53 ->
  whole_account (B + turnover r) (N + if fst (mstep r a) then inflow r else 0) (snd (mstep r a)).
Proof.
  intros HW HB Hr Hlim. destruct r as [s q|s q|s q|n|n]; try (apply money_moves; eauto; done);
    replace (N + _) with N by (cbn [inflow]; destruct (fst _); lia); cbn [turnover] in *.
  - by apply buy_conserves.
  - by apply short_conserves.
  - by apply cover_conserves.
Qed.

(** ** Runs *)

(** The net inflow of the accepted requests, and the account. *)
Fixpoint mrun (rs : list mreq) (a : MarginAccount) : Z * MarginAccount :=
  match rs with
  | [] => (0, a)
  | r :: rs' =>
      let '(ok, a1) := mstep r a in
      let '(n, a2) := mrun rs' a1 in ((if ok then inflow r else 0) + n, a2)
  end.

Definition run_turnover (rs : list mreq) : Z := foldr (fun r n => turnover r + n) 0 rs.

Lemma turnover_nonneg r : mreq_ok r -> 0 <= turnover r.
Proof. destruct r; cbn; nia. Qed.

Lemma run_turnover_nonneg rs : Forall mreq_ok rs -> 0 <= run_turnover rs.
Proof. unfold run_turnover. induction 1 as [|r rs Hr _ IH]; cbn [foldr]; [lia|]. pose proof (turnover_nonneg r Hr). lia. Qed.

Lemma mrun_conserves rs : forall B N a,
  whole_account B N a -> 0 <= B -> Forall mreq_ok rs -> B + run_turnover rs < 2 ^ 53 ->
  whole_account (B + run_turnover rs) (N + fst (mrun rs a)) (snd (mrun rs a)).
Proof.
  induction rs as [|r rs IH]; intros B N a HW HB Hrs Hlim; cbn [mrun run_turnover foldr]; [by rewrite !Z.add_0_r|].
  apply Forall_cons in Hrs as [Hr Hrs]. pose proof (turnover_nonneg r Hr). pose proof (run_turnover_nonneg rs Hrs).
  cbn [run_turnover foldr] in Hlim. change (foldr _ 0 rs) with (run_turnover rs) in *.
  pose proof (mstep_conserves B N a r HW HB Hr ltac:(lia)) as HW1.
  destruct (mstep r a) as [ok a1]. cbn [fst snd] in *.
  specialize (IH _ _ _ HW1 ltac:(lia) Hrs ltac:(lia)). destruct (mrun rs a1) as [n a2]. cbn [fst snd] in *.
  by rewrite !Z.add_assoc.
Qed.

(** C24. Trading at the marked prices conserves the net assets. Open a margin
    account with whole cash C and put any sequence of margin purchases, short
    sales and covers of whole shares at whole marks to it, with deposits and
    withdrawals in between: whatever is accepted or refused, and in whatever
    order the position maps are traversed, the net assets the account
    reports at the marks are exactly C plus what was deposited less what was
    withdrawn. *)
Theorem trading_conserves_net_assets id C c0 sl a0 rs
    (Hnew : NewMarginAccount id (f64_of_Z C) c0 sl = Ok a0)
    (Hok : Forall mreq_ok rs) (HC : 0 <= C) (Hlim : 4 * (C + run_turnover rs) < 2 ^ 53) :
  rs_NetAssets (RiskStatus marks (snd (mrun rs a0))) = f64_of_Z (C + fst (mrun rs a0)).
Proof.
  pose proof (run_turnover_nonneg rs Hok).
  assert (HW : whole_account C C a0).
  { unfold NewMarginAccount in Hnew. case_bool_decide; [done|]. destruct (_ <? _)%f64; [done|].
    destruct (ValidateConfig c0) as [[]|e]; [|done]. cbn [res_bind] in Hnew. injection Hnew as <-.
    exists C, 0. cbn. unfold worth. rewrite !map_to_list_empty. cbn. split_and!; try done; try lia;
      apply map_Forall_empty. }
  eapply net_assets_exact; [apply mrun_conserves; [exact HW|lia|done|lia]|lia].
Qed.
End Exact.

(** ** A concrete account *)

Definition sym_a : bytes := lit "600000.SH".
Definition sym_b : bytes := lit "000001.SZ".
Definition demo_marks : gmap bytes Z := <[sym_a := 10]> (<[sym_b := 20]> ∅).

Definition demo_account : MarginAccount :=
  MkAccount (lit "m") (f64_of_Z 100000) f0 ∅ ∅ f0 f0 DefaultMarginConfig (NewMarginCalculator DefaultMarginConfig)
    (AddShortable sym_b (f64_of_Z 500) 0 ∅) 0.

Definition demo_requests : list mreq :=
  [RBuy sym_a 2000; RShort sym_b 300; RShort sym_b 300; RCover sym_b 100; RWithdraw 5000; RDeposit 200].

Lemma trading_conserves_net_assets_witness :
  fst (@mrun sorted_order demo_marks demo_requests demo_account) = -4800
  /\ rs_NetAssets (@RiskStatus sorted_order (marks demo_marks)
                     (snd (@mrun sorted_order demo_marks demo_requests demo_account))) = f64_of_Z 95200.
Proof.
  assert (Hflow : fst (@mrun sorted_order demo_marks demo_requests demo_account) = -4800) by (vm_compute; reflexivity).
  split; [exact Hflow|].
  assert (Hnew : NewMarginAccount (lit "m") (f64_of_Z 100000) DefaultMarginConfig
                   (Some (AddShortable sym_b (f64_of_Z 500) 0 ∅)) = Ok demo_account).
  { unfold NewMarginAccount. rewrite bool_decide_false by discriminate.
    replace (flt (f64_of_Z 100000) f0) with false by (vm_compute; reflexivity).
    replace (ValidateConfig DefaultMarginConfig) with (Ok tt : res margin_error unit) by (vm_compute; reflexivity).
    reflexivity. }
  pose proof (@trading_conserves_net_assets sorted_order demo_marks (lit "m") 100000 DefaultMarginConfig
    (Some (AddShortable sym_b (f64_of_Z 500) 0 ∅)) demo_account demo_requests Hnew
    ltac:(repeat constructor; vm_compute; (reflexivity || discriminate)) ltac:(vm_compute; discriminate)
    ltac:(vm_compute; reflexivity)) as H.
  rewrite H, Hflow. reflexivity.
Defined.

(** ** What is not conserved *)

Definition books (a : MarginAccount) : float64 * float64 * nat * nat :=
  (cash a, financingBalance a, size (longPositions a), size (shortPositions a)).

(** Closing a financed purchase creates money. With 100000 in cash, buy
    2000 shares at 10 on margin and sell them at 10 again: the account ends
    flat and without debt, but with 120000 in cash, because the sale credits
    the full proceeds to the cash and also repays the loan. A forced
    liquidation at the purchase price does the same. *)
Theorem repayment_creates_money :
  let buy := @MarginBuy sorted_order None sym_a (f64_of_Z 2000) (f64_of_Z 10) demo_account in
  is_ok (fst buy) = true
  /\ books (snd (@MarginSell sorted_order None sym_a (f64_of_Z 2000) (f64_of_Z 10) (snd buy)))
     = (f64_of_Z 120000, f0, 0%nat, 0%nat)
  /\ books (snd (@ForceLiquidate sorted_order None (marks demo_marks) (snd buy)))
     = (f64_of_Z 120000, f0, 0%nat, 0%nat).
Proof. split; [|split]; vm_compute; reflexivity. Qed.

(** The margin check lets an account sink below the maintenance floor.
    With 100000 in cash and the default configuration, two margin purchases
    at an unchanged price of 10 are both accepted, and after the second one
    the account is up for forced liquidation: its assets of 600000 cover only
    1.2 times its debt of 500000. *)
Theorem purchase_under_the_floor :
  let buy1 := @MarginBuy sorted_order None sym_a (f64_of_Z 20000) (f64_of_Z 10) demo_account in
  let buy2 := @MarginBuy sorted_order None sym_a (f64_of_Z 30000) (f64_of_Z 10) (snd buy1) in
  is_ok (fst buy1) = true /\ is_ok (fst buy2) = true
  /\ rs_TotalAssets (@RiskStatus sorted_order (marks demo_marks) (snd buy2)) = f64_of_Z 600000
  /\ rs_TotalDebt (@RiskStatus sorted_order (marks demo_marks) (snd buy2)) = f64_of_Z 500000
  /\ rs_Status (@RiskStatus sorted_order (marks demo_marks) (snd buy2)) = MarginStatusForcedLiquidation.
Proof. do 4 (split; [vm_compute; reflexivity|]). vm_compute. reflexivity. Qed.

(** The check of the shortable quantity precedes the lock: two sales of 300
    that both pass it are both booked, 600 shares against a limit of 500. *)
Lemma short_cap_race :
  shortCheck sym_b (f64_of_Z 300) demo_account = Ok tt
  /\ let a1 := snd (@shortBook sorted_order sym_b (f64_of_Z 300) (f64_of_Z 20) demo_account) in
     let '(r, a2) := @shortBook sorted_order sym_b (f64_of_Z 300) (f64_of_Z 20) a1 in
     is_ok r = true /\ (Short.Quantity <$> shortPositions a2 !! sym_b) = Some (f64_of_Z 600)
     /\ shortCheck sym_b (f64_of_Z 300) a1
        = Err (ShortCapExceeded (f64_of_Z 300) (f64_of_Z 500) (f64_of_Z 300)).
Proof. vm_compute. repeat split. Qed.

(** After a partial cover the position has no sale price, so without a quote
    the debt of the shares still owed is valued at nothing. *)
Lemma partial_cover_hides_debt :
  let a1 := snd (@ShortSell sorted_order None sym_b (f64_of_Z 300) (f64_of_Z 20) demo_account) in
  let a2 := snd (@BuyToCover sorted_order None sym_b (f64_of_Z 100) (f64_of_Z 20) a1) in
  @totalDebtLocked sorted_order 0 ∅ a1 = f64_of_Z 6000 /\ @totalDebtLocked sorted_order 0 ∅ a2 = f0.
Proof. split; vm_compute; reflexivity. Qed.
