(* ===== verification/LiveEngine.v ===== *)
(** * LiveEngine: quote-driven live trading (src/pkg/live)

    The order manager ([order_manager.go]), the position manager
    ([position_manager.go]), the engine that fills pending orders against
    quotes ([engine.go]) and the simulated broker ([simulated_broker.go]).
    The broker is an interface ([Class Broker]) with the simulated one as an
    instance. Clock readings are arguments. The callbacks of the engine are
    the events an operation returns. Identifiers of the order manager carry
    the clock and a process-wide counter; trade identifiers are left out. *)

From stdpp Require Import base list strings gmap.
From Stdlib Require Import ZArith Lia Ascii.
From S2P Require Import Prelude GoMap GoFloat Domain MarketRules ExecCost.

Open Scope Z_scope.

(** ** Data *)

Module LiveQuote.
Record t := Mk {
  Symbol : bytes;
  Timestamp : Time;
  High : float64;
  Close : float64;
  Bid : float64;
  Ask : float64
}.
End LiveQuote.

Definition with_status (status : bytes) (o : Order.t) : Order.t :=
  Order.Make (Order.ID o) (Order.Symbol o) (Order.Direction o) (Order.OrderType o) (Order.Quantity o)
    (Order.LimitPrice o) (Order.StopPrice o) (Order.TrailAmount o) (Order.TrailPercent o) (Order.HighWaterMark o)
    (Order.Timestamp o) (Order.FilledQty o) (Order.FillPrice o) status.

Definition with_id (id : bytes) (o : Order.t) : Order.t :=
  Order.Make id (Order.Symbol o) (Order.Direction o) (Order.OrderType o) (Order.Quantity o)
    (Order.LimitPrice o) (Order.StopPrice o) (Order.TrailAmount o) (Order.TrailPercent o) (Order.HighWaterMark o)
    (Order.Timestamp o) (Order.FilledQty o) (Order.FillPrice o) (Order.Status o).

Definition with_time (ts : Time) (o : Order.t) : Order.t :=
  Order.Make (Order.ID o) (Order.Symbol o) (Order.Direction o) (Order.OrderType o) (Order.Quantity o)
    (Order.LimitPrice o) (Order.StopPrice o) (Order.TrailAmount o) (Order.TrailPercent o) (Order.HighWaterMark o)
    ts (Order.FilledQty o) (Order.FillPrice o) (Order.Status o).

Definition with_mark (hwm : float64) (o : Order.t) : Order.t :=
  Order.Make (Order.ID o) (Order.Symbol o) (Order.Direction o) (Order.OrderType o) (Order.Quantity o)
    (Order.LimitPrice o) (Order.StopPrice o) (Order.TrailAmount o) (Order.TrailPercent o) hwm
    (Order.Timestamp o) (Order.FilledQty o) (Order.FillPrice o) (Order.Status o).

Definition with_fill (qty price : float64) (o : Order.t) : Order.t :=
  Order.Make (Order.ID o) (Order.Symbol o) (Order.Direction o) (Order.OrderType o) (Order.Quantity o)
    (Order.LimitPrice o) (Order.StopPrice o) (Order.TrailAmount o) (Order.TrailPercent o) (Order.HighWaterMark o)
    (Order.Timestamp o) qty price (lit "filled").

(** ** The broker interface *)

Class Broker (B : Type) := {
  Connect : B -> option bytes * B;
  Disconnect : B -> option bytes * B;
  BrokerSubmit : Time -> Order.t -> B -> res bytes bytes * B;
  BrokerCancel : bytes -> B -> option bytes * B;
  GetOrderStatus : bytes -> B -> res bytes bytes;
  BrokerPositions : B -> res bytes (list Position.t);
  GetAccountBalance : B -> res bytes float64
}.

(** ** The simulated broker *)

Record SimulatedBroker := MkSim {
  connected : bool;
  sim_orders : gmap bytes Order.t;
  sim_positions : gmap bytes Position.t;
  balance : float64;
  orderCount : Z;
  sim_fees : AShareFees;
  costModel : ExecutionConfig
}.

Definition DefaultExecutionConfig : ExecutionConfig :=
  MkExecutionConfig (lit "fixed") DefaultCommissionRate DefaultMinCommission f0 f0.

Definition NewSimulatedBroker (initialBalance : float64) : SimulatedBroker :=
  MkSim false ∅ ∅ initialBalance 0 DefaultAShareFees DefaultExecutionConfig.

Definition SetExecutionConfig (c : ExecutionConfig) (b : SimulatedBroker) : SimulatedBroker :=
  MkSim (connected b) (sim_orders b) (sim_positions b) (balance b) (orderCount b) (sim_fees b) c.

Definition set_connected (c : bool) (b : SimulatedBroker) : SimulatedBroker :=
  MkSim c (sim_orders b) (sim_positions b) (balance b) (orderCount b) (sim_fees b) (costModel b).

Definition empty_position (symbol : bytes) : Position.t :=
  Position.Mk symbol f0 f0 f0 f0 f0 f0 f0 0 0 f0 f0.

(** [fillOrder]: the price is the limit or 100, slipped and rounded to the
    cent. *)
Definition fillOrder (orderID : bytes) (b : SimulatedBroker) : SimulatedBroker :=
  match sim_orders b !! orderID with
  | None => b
  | Some order =>
      let ref := if (Order.LimitPrice order =? f0)%f64 then f64_of_Z 100 else Order.LimitPrice order in
      let fillPrice := SlippagePrice (costModel b) ref (Order.Direction order) (Order.Quantity order) f0 ref ref in
      let fillPrice := (Round (fillPrice * f64_of_Z 100) / f64_of_Z 100)%f64 in
      let position := default (empty_position (Order.Symbol order)) (sim_positions b !! Order.Symbol order) in
      let amount := (fillPrice * Order.Quantity order)%f64 in
      let commission := MathMax (amount * CommissionRate (sim_fees b))%f64 (MinCommission (sim_fees b)) in
      let '(position, money) :=
        if bool_decide (Order.Direction order = DirectionLong) then
          let q := (Position.Quantity position + Order.Quantity order)%f64 in
          (Position.set_AvgCost ((Position.AvgCost position * (q - Order.Quantity order) + amount) / q)%f64
             (Position.set_Quantity q position),
           (balance b - (amount + commission))%f64)
        else
          let q := (Position.Quantity position - Order.Quantity order)%f64 in
          let position := Position.set_Quantity q position in
          (if (q =? f0)%f64 then Position.set_AvgCost f0 position else position,
           (balance b + (amount - commission))%f64) in
      MkSim (connected b) (<[orderID := with_fill (Order.Quantity order) fillPrice order]> (sim_orders b))
        (<[Order.Symbol order := position]> (sim_positions b)) money (orderCount b) (sim_fees b) (costModel b)
  end.

(** ["SIM-ORD-%d"]; the counter would need 2^63 orders to wrap. *)
Definition simOrderID (n : Z) : bytes := lit "SIM-ORD-" ++ FormatInt n.

Definition SimSubmit (now : Time) (order : Order.t) (b : SimulatedBroker) : res bytes bytes * SimulatedBroker :=
  if negb (connected b) then (Err (lit "broker not connected"), b)
  else
    let n := orderCount b + 1 in
    let orderID := simOrderID n in
    let order := with_time now (with_status (lit "submitted") (with_id orderID order)) in
    let b := MkSim (connected b) (<[orderID := order]> (sim_orders b)) (sim_positions b) (balance b) n
               (sim_fees b) (costModel b) in
    (Ok orderID, if bool_decide (Order.OrderType order = OrderTypeMarket) then fillOrder orderID b else b).

Definition SimCancel (orderID : bytes) (b : SimulatedBroker) : option bytes * SimulatedBroker :=
  match sim_orders b !! orderID with
  | None => (Some (lit "order not found"), b)
  | Some order =>
      if bool_decide (Order.Status order = lit "filled") then (Some (lit "cannot cancel filled order"), b)
      else (None, MkSim (connected b) (<[orderID := with_status (lit "cancelled") order]> (sim_orders b))
                    (sim_positions b) (balance b) (orderCount b) (sim_fees b) (costModel b))
  end.

Definition SimStatus (orderID : bytes) (b : SimulatedBroker) : res bytes bytes :=
  match sim_orders b !! orderID with
  | None => Err (lit "order not found")
  | Some order => Ok (Order.Status order)
  end.

Definition SetPrice (symbol : bytes) (price : float64) (b : SimulatedBroker) : SimulatedBroker :=
  MkSim (connected b) (sim_orders b)
    (alter (fun p => Position.set_marks price (price * Position.Quantity p)%f64
                       (price * Position.Quantity p - Position.AvgCost p * Position.Quantity p)%f64 p)
       symbol (sim_positions b))
    (balance b) (orderCount b) (sim_fees b) (costModel b).

#[global] Instance Simulated_broker : Broker SimulatedBroker := {|
  Connect := fun b => (None, set_connected true b);
  Disconnect := fun b => (None, set_connected false b);
  BrokerSubmit := SimSubmit;
  BrokerCancel := SimCancel;
  GetOrderStatus := SimStatus;
  BrokerPositions := fun b => Ok (map snd (map_to_list (sim_positions b)));
  GetAccountBalance := fun b => Ok (balance b)
|}.

(** ** The order manager *)

Record OrderManager := MkManager {
  orders : gmap bytes Order.t;
  trades : list Trade.t;
  pending : list bytes;
  priceCage : option (option (bytes -> Board));
  priceRefProvider : option (bytes -> ReferencePrice)
}.

Definition NewOrderManager : OrderManager := MkManager ∅ [] [] None None.

Inductive submit_error :=
| EmptySymbol
| OrderQuantityNotPositive (q : float64)
| LimitPriceRequired
| StopPriceRequired
| TrailRequired
| PriceCage (e : PriceCageError)
| BrokerRefused (e : bytes).

Definition validateOrderShape (order : Order.t) : res submit_error unit :=
  if bool_decide (Order.Symbol order = []) then Err EmptySymbol
  else if (Order.Quantity order <=? f0)%f64 then Err (OrderQuantityNotPositive (Order.Quantity order))
  else match Order.OrderType order with
       | OrderTypeLimit => if (Order.LimitPrice order <=? f0)%f64 then Err LimitPriceRequired else Ok tt
       | OrderTypeStop => if (Order.StopPrice order <=? f0)%f64 then Err StopPriceRequired else Ok tt
       | OrderTypeTrailing =>
           if (Order.TrailAmount order <=? f0)%f64 && (Order.TrailPercent order <=? f0)%f64
           then Err TrailRequired else Ok tt
       | _ => Ok tt
       end.

(** ["ORD-%d-%06d"] of the clock and the counter. *)
Definition pad6 (n : Z) : bytes := let d := FormatInt n in replicate (6 - length d) "0"%char ++ d.
Definition generateOrderID (nanos seq : Z) : bytes := lit "ORD-" ++ FormatInt nanos ++ lit "-" ++ pad6 seq.

Definition saveOrder (order : Order.t) (om : OrderManager) : OrderManager :=
  MkManager (<[Order.ID order := order]> (orders om)) (trades om) (pending om) (priceCage om) (priceRefProvider om).

Definition addPending (id : bytes) (om : OrderManager) : OrderManager :=
  MkManager (orders om) (trades om) (pending om ++ [id]) (priceCage om) (priceRefProvider om).

(** The first occurrence goes. *)
Fixpoint remove_first (id : bytes) (l : list bytes) : list bytes :=
  match l with
  | [] => []
  | x :: l' => if bool_decide (x = id) then l' else x :: remove_first id l'
  end.

Definition removePending (id : bytes) (om : OrderManager) : OrderManager :=
  MkManager (orders om) (trades om) (remove_first id (pending om)) (priceCage om) (priceRefProvider om).

Definition SetPriceCageValidator (v : option (option (bytes -> Board))) (p : option (bytes -> ReferencePrice))
    (om : OrderManager) : OrderManager :=
  MkManager (orders om) (trades om) (pending om) v p.

Definition AddTrade (t : Trade.t) (om : OrderManager) : OrderManager :=
  MkManager (orders om) (trades om ++ [t]) (pending om) (priceCage om) (priceRefProvider om).

(** [GetOrder] is the lookup; [GetPendingOrders] skips identifiers without a
    record. *)
Definition GetPendingOrders (om : OrderManager) : list Order.t :=
  omap (fun id => orders om !! id) (pending om).

(** The statuses that end an order. *)
Definition settles (status : bytes) : bool :=
  bool_decide (status = lit "filled") || bool_decide (status = lit "cancelled") || bool_decide (status = lit "rejected").

Definition UpdateOrderStatus (id status : bytes) (om : OrderManager) : OrderManager :=
  match orders om !! id with
  | None => om
  | Some order =>
      let om := MkManager (<[id := with_status status order]> (orders om)) (trades om) (pending om)
                  (priceCage om) (priceRefProvider om) in
      if settles status then removePending id om else om
  end.

Definition UpdateOrder (id : bytes) (order : option Order.t) (om : OrderManager) : OrderManager :=
  match order with
  | None => om
  | Some order =>
      let aligned := if bool_decide (Order.ID order = []) then with_id id order else order in
      MkManager (<[id := aligned]> (orders om)) (trades om) (pending om) (priceCage om) (priceRefProvider om)
  end.

(** The cage, when a validator and a provider are wired. *)
Definition cage_check (order : Order.t) (om : OrderManager) : res submit_error unit :=
  match priceCage om, priceRefProvider om with
  | Some override, Some ref =>
      match ValidatePrice override (Some order) (ref (Order.Symbol order)) with
      | Ok _ => Ok tt
      | Err e => Err (PriceCage e)
      end
  | _, _ => Ok tt
  end.

Section Engine.
Context {B : Type} `{!Broker B}.

(** [OrderManager.SubmitOrder] at clock [now] with the counter at [seq]. *)
Definition ManagerSubmit (now nanos seq : Z) (order : Order.t) (st : OrderManager * B)
    : res submit_error bytes * (OrderManager * B) :=
  let '(om, br) := st in
  match validateOrderShape order, cage_check order om with
  | Err e, _ => (Err e, st)
  | _, Err e => (Err e, st)
  | Ok _, Ok _ =>
      let order := with_time now (with_status (lit "pending") (with_id (generateOrderID nanos seq) order)) in
      match BrokerSubmit now order br with
      | (Err e, br) => (Err (BrokerRefused e), (saveOrder (with_status (lit "rejected") order) om, br))
      | (Ok brokerID, br) =>
          let order := if bool_decide (brokerID = []) then order else with_id brokerID order in
          let order := with_status (lit "submitted") order in
          (Ok (Order.ID order), (addPending (Order.ID order) (saveOrder order om), br))
      end
  end.

Inductive cancel_error :=
| CancelNotFound (id : bytes)
| CancelStatus (status : bytes)
| CancelRefused (e : bytes).

Definition ManagerCancel (id : bytes) (st : OrderManager * B) : res cancel_error unit * (OrderManager * B) :=
  let '(om, br) := st in
  match orders om !! id with
  | None => (Err (CancelNotFound id), st)
  | Some order =>
      if negb (bool_decide (Order.Status order = lit "pending") || bool_decide (Order.Status order = lit "submitted"))
      then (Err (CancelStatus (Order.Status order)), st)
      else match BrokerCancel id br with
           | (Some e, br) => (Err (CancelRefused e), (om, br))
           | (None, br) =>
               (Ok tt, (removePending id (saveOrder (with_status (lit "cancelled") order) om), br))
           end
  end.

Definition sync_one (br : B) (om : OrderManager) (id : bytes) : OrderManager :=
  match GetOrderStatus id br with
  | Err _ => om
  | Ok status => UpdateOrderStatus id status om
  end.

Definition syncOrderStatus (st : OrderManager * B) : OrderManager * B :=
  (foldl (sync_one (snd st)) (fst st) (pending (fst st)), snd st).
End Engine.

(** ** The position manager *)

Abbreviation PositionManager := (gmap bytes Position.t).

Definition UpdatePosition (p : Position.t) (pm : PositionManager) : PositionManager := <[Position.Symbol p := p]> pm.

Definition traded_position (trade : Trade.t) (position : Position.t) : Position.t :=
  if bool_decide (Trade.Direction trade = DirectionLong) then
    let totalCost := (Position.AvgCost position * Position.Quantity position
                      + Trade.Price trade * Trade.Quantity trade)%f64 in
    let position := Position.set_Quantity (Position.Quantity position + Trade.Quantity trade)%f64 position in
    if (Position.Quantity position >? f0)%f64
    then Position.set_AvgCost (totalCost / Position.Quantity position)%f64 position else position
  else
    let position :=
      if (Position.Quantity position >? f0)%f64
      then Position.set_RealizedPnL
             (Position.RealizedPnL position
              + (Trade.Price trade - Position.AvgCost position) * Trade.Quantity trade)%f64 position
      else position in
    let position := Position.set_Quantity (Position.Quantity position - Trade.Quantity trade)%f64 position in
    if (Position.Quantity position =? f0)%f64 then Position.set_AvgCost f0 position else position.

Definition UpdateFromTrade (trade : Trade.t) (pm : PositionManager) : PositionManager :=
  let position := default (empty_position (Trade.Symbol trade)) (pm !! Trade.Symbol trade) in
  <[Trade.Symbol trade := traded_position trade position]> pm.

Definition quoted (price : float64) (position : Position.t) : Position.t :=
  let value := (price * Position.Quantity position)%f64 in
  Position.set_marks price value (value - Position.AvgCost position * Position.Quantity position)%f64 position.

Definition ApplyQuote (symbol : bytes) (price : float64) (pm : PositionManager)
    : option Position.t * PositionManager :=
  match pm !! symbol with
  | None => (None, pm)
  | Some p => let p := quoted price p in (Some p, <[symbol := p]> pm)
  end.

Definition PM_HasPosition (symbol : bytes) (pm : PositionManager) : bool :=
  match pm !! symbol with Some p => negb (Position.Quantity p =? f0)%f64 | None => false end.

Definition RemovePosition (symbol : bytes) (pm : PositionManager) : PositionManager := delete symbol pm.

Definition total_of `{!MapOrder} (f : Position.t -> float64) (pm : PositionManager) : float64 :=
  foldl (fun t (e : bytes * Position.t) => t + f e.2)%f64 f0 (range 0 pm).
Definition GetTotalMarketValue `{!MapOrder} : PositionManager -> float64 := total_of Position.MarketValue.
Definition GetTotalUnrealizedPnL `{!MapOrder} : PositionManager -> float64 := total_of Position.UnrealizedPnL.
Definition GetTotalRealizedPnL `{!MapOrder} : PositionManager -> float64 := total_of Position.RealizedPnL.

(** ** Filling against a quote *)

Definition trailingTriggerPrice (order : Order.t) : float64 :=
  if (Order.HighWaterMark order <=? f0)%f64 then f0
  else
    let offset := if (Order.TrailAmount order <=? f0)%f64 && (Order.TrailPercent order >? f0)%f64
                  then (Order.HighWaterMark order * Order.TrailPercent order)%f64
                  else Order.TrailAmount order in
    (Order.HighWaterMark order - offset)%f64.

Definition shouldFill (order : Order.t) (q : LiveQuote.t) : bool :=
  let ask := LiveQuote.Ask q in
  let bid := LiveQuote.Bid q in
  match Order.OrderType order with
  | OrderTypeMarket => true
  | OrderTypeLimit =>
      if (Order.LimitPrice order <=? f0)%f64 then false
      else match Order.Direction order with
           | DirectionLong => (ask >? f0)%f64 && (ask <=? Order.LimitPrice order)%f64
           | DirectionShort | DirectionClose => (bid >? f0)%f64 && (bid >=? Order.LimitPrice order)%f64
           | _ => false
           end
  | OrderTypeStop =>
      if (Order.StopPrice order <=? f0)%f64 then false
      else match Order.Direction order with
           | DirectionLong => (ask >=? Order.StopPrice order)%f64
           | DirectionShort | DirectionClose => (bid >? f0)%f64 && (bid <=? Order.StopPrice order)%f64
           | _ => false
           end
  | OrderTypeTrailing =>
      let trigger := trailingTriggerPrice order in
      if (trigger <=? f0)%f64 then false
      else match Order.Direction order with
           | DirectionLong => (ask >? f0)%f64 && (ask <=? trigger)%f64
           | DirectionShort | DirectionClose => (bid >? f0)%f64 && (bid <=? trigger)%f64
           | _ => false
           end
  | OrderTypeOther _ => false
  end.

(** The market side a taker hits. *)
Definition market_side (order : Order.t) (q : LiveQuote.t) : float64 :=
  if bool_decide (Order.Direction order = DirectionLong) then LiveQuote.Ask q else LiveQuote.Bid q.

Definition computeFillPrice (order : Order.t) (q : LiveQuote.t) : float64 :=
  match Order.OrderType order with
  | OrderTypeLimit =>
      let ask := LiveQuote.Ask q in
      let bid := LiveQuote.Bid q in
      if bool_decide (Order.Direction order = DirectionLong) then
        if (ask >? f0)%f64 && (ask <? Order.LimitPrice order)%f64 then ask else Order.LimitPrice order
      else if (bid >? f0)%f64 && (bid >? Order.LimitPrice order)%f64 then bid else Order.LimitPrice order
  | _ => market_side order q
  end.

(** The new high-water mark of a trailing order, if it moves. *)
Definition trailingHWM (order : Order.t) (q : LiveQuote.t) : option float64 :=
  let candidate := LiveQuote.Bid q in
  let candidate := if (LiveQuote.Ask q >? candidate)%f64 then LiveQuote.Ask q else candidate in
  let candidate := if (LiveQuote.High q >? candidate)%f64 then LiveQuote.High q else candidate in
  if (candidate <=? f0)%f64 then None
  else if (Order.HighWaterMark order =? f0)%f64 || (candidate >? Order.HighWaterMark order)%f64
  then Some candidate else None.

(** ** The engine *)

(** What the callbacks see: the filled order, and the trade with the
    identifier of its order. *)
Inductive engine_event :=
| EvOrderUpdate (order : Order.t)
| EvTrade (orderID : bytes) (trade : Trade.t).

Record LiveEngine (B : Type) := MkEngine {
  broker : B;
  orderManager : OrderManager;
  positionManager : PositionManager;
  config : ExecutionConfig;
  running : bool;
  stopClosed : bool
}.
Arguments MkEngine {B}.
Arguments broker {B}.
Arguments orderManager {B}.
Arguments positionManager {B}.
Arguments config {B}.
Arguments running {B}.
Arguments stopClosed {B}.

Section Live.
Context {B : Type} `{!Broker B}.

Definition NewLiveEngine (br : B) (c : ExecutionConfig) : LiveEngine B :=
  MkEngine br NewOrderManager ∅ c false false.

Definition set_manager (om : OrderManager) (e : LiveEngine B) : LiveEngine B :=
  MkEngine (broker e) om (positionManager e) (config e) (running e) (stopClosed e).
Definition set_book (pm : PositionManager) (e : LiveEngine B) : LiveEngine B :=
  MkEngine (broker e) (orderManager e) pm (config e) (running e) (stopClosed e).
Definition set_both (st : OrderManager * B) (e : LiveEngine B) : LiveEngine B :=
  MkEngine (snd st) (fst st) (positionManager e) (config e) (running e) (stopClosed e).

Definition SubmitOrder (now nanos seq : Z) (order : Order.t) (e : LiveEngine B)
    : res submit_error bytes * LiveEngine B :=
  let '(r, st) := ManagerSubmit now nanos seq order (orderManager e, broker e) in (r, set_both st e).

Definition CancelOrder (id : bytes) (e : LiveEngine B) : res cancel_error unit * LiveEngine B :=
  let '(r, st) := ManagerCancel id (orderManager e, broker e) in (r, set_both st e).

(** [updateTrailingHWM]: the order with its new mark, which is also written
    back to the manager. *)
Definition updateTrailingHWM (order : Order.t) (q : LiveQuote.t) (om : OrderManager) : Order.t * OrderManager :=
  match trailingHWM order q with
  | None => (order, om)
  | Some hwm => let order := with_mark hwm order in (order, UpdateOrder (Order.ID order) (Some order) om)
  end.

Definition trade_of (c : ExecutionConfig) (order : Order.t) (fillPrice : float64) (q : LiveQuote.t) : Trade.t :=
  Trade.Mk (Order.Symbol order) (Order.Direction order) (Order.Quantity order) fillPrice
    (ModelCommission c (fillPrice * Order.Quantity order)%f64) f0 f0 (LiveQuote.Timestamp q) f0 f0.

Definition tryFillOrder (order : Order.t) (q : LiveQuote.t) (e : LiveEngine B) : list engine_event * LiveEngine B :=
  let '(order, om) :=
    if bool_decide (Order.OrderType order = OrderTypeTrailing)
    then updateTrailingHWM order q (orderManager e) else (order, orderManager e) in
  let e := set_manager om e in
  if negb (shouldFill order q) then ([], e)
  else
    let fillPrice := computeFillPrice order q in
    let trade := trade_of (config e) order fillPrice q in
    let e := set_manager (UpdateOrderStatus (Order.ID order) (lit "filled") (orderManager e)) e in
    let e := set_book (UpdateFromTrade trade (positionManager e)) e in
    ([EvOrderUpdate (with_fill (Order.Quantity order) fillPrice order); EvTrade (Order.ID order) trade], e).

(** The orders a quote is tried on, from a snapshot of the pending ones. *)
Definition quote_orders (q : LiveQuote.t) (om : OrderManager) : list Order.t :=
  List.filter (fun o => bool_decide (Order.Symbol o = LiveQuote.Symbol q)) (GetPendingOrders om).

Definition fill_step (q : LiveQuote.t) (st : list engine_event * LiveEngine B) (order : Order.t)
    : list engine_event * LiveEngine B :=
  let '(evs, e) := tryFillOrder order q (snd st) in (fst st ++ evs, e).

Definition handleQuote (q : LiveQuote.t) (e : LiveEngine B) : list engine_event * LiveEngine B :=
  foldl (fill_step q) ([], e) (quote_orders q (orderManager e)).

(** [updatePortfolio] against the feed's current quotes. *)
Definition mark_step (feed : bytes -> option LiveQuote.t) (pm : PositionManager) (symbol : bytes) : PositionManager :=
  match feed symbol with
  | None => pm
  | Some q => if (LiveQuote.Close q <=? f0)%f64 then pm else snd (ApplyQuote symbol (LiveQuote.Close q) pm)
  end.

Definition updatePortfolio `{!MapOrder} (feed : bytes -> option LiveQuote.t) (e : LiveEngine B) : LiveEngine B :=
  set_book (foldl (mark_step feed) (positionManager e)
              (map (fun x => Position.Symbol x.2) (range 0 (positionManager e)))) e.

(** ** Life cycle *)

Inductive start_error := AlreadyRunning | ConnectFailed (e : bytes) | PositionsFailed (e : bytes) | SubscribeFailed (e : bytes).

(** [subscribe]: what the data feed answers. *)
Definition Start (subscribe : option bytes) (e : LiveEngine B) : res start_error unit * LiveEngine B :=
  if running e then (Err AlreadyRunning, e)
  else match Connect (broker e) with
       | (Some err, br) => (Err (ConnectFailed err), set_both (orderManager e, br) e)
       | (None, br) =>
           let e := set_both (orderManager e, br) e in
           match BrokerPositions br with
           | Err err => (Err (PositionsFailed err), e)
           | Ok ps =>
               let e := set_book (foldl (fun pm p => UpdatePosition p pm) (positionManager e) ps) e in
               match subscribe with
               | Some err => (Err (SubscribeFailed err), e)
               | None => (Ok tt, MkEngine (broker e) (orderManager e) (positionManager e) (config e) true (stopClosed e))
               end
           end
       end.

(** [Stop] closes the stop channel, and closing a closed channel panics. *)
Inductive stop_result := Stopped (err : option bytes) | StopPanics.

Definition Stop (unsubscribe : option bytes) (e : LiveEngine B) : stop_result * LiveEngine B :=
  if negb (running e) then (Stopped None, e)
  else if stopClosed e then (StopPanics, e)
  else
    let e := MkEngine (broker e) (orderManager e) (positionManager e) (config e) false true in
    let '(err, br) := Disconnect (broker e) in
    (Stopped (match unsubscribe with Some u => Some u | None => err end), set_both (orderManager e, br) e).
End Live.
