(* ===== verification/LiveProps.v ===== *)
(** * LiveProps: what the live engine books

    Runs of the engine as sequences of submissions, cancellations, quotes,
    broker status polls and portfolio ticks, one after the other (interleaved
    runs are in [LiveThreads]). What the engine relies on of its
    broker is the class [BrokerLaws], discharged by the simulated broker. *)

From stdpp Require Import base list strings gmap sorting.
From Stdlib Require Import ZArith Lia Ascii SpecFloat.
From S2P Require Import Prelude GoMap GoFloat Domain MarketRules ExecCost LiveEngine.

Open Scope Z_scope.

(** ** What a broker promises *)

(** Identifiers are issued once, are not empty and are not the order
    manager's own ([ORD-...]). [ready n]: the broker can number [n] more
    orders. *)
Class BrokerLaws (B : Type) `{!Broker B} := {
  issued : B -> bytes -> Prop;
  ready : nat -> B -> Prop;
  submit_law n now o b r b' :
    ready (S n) b -> BrokerSubmit now o b = (r, b') ->
    ready n b' /\ (forall i, issued b i -> issued b' i)
    /\ (forall id, r = Ok id -> id <> [] /\ ~ issued b id /\ issued b' id /\ strip_prefix (lit "ORD-") id = None);
  cancel_law n id b r b' :
    ready n b -> BrokerCancel id b = (r, b') -> ready n b' /\ (forall i, issued b i -> issued b' i);
  ready_less n b : ready (S n) b -> ready n b
}.

Definition sim_issued (b : SimulatedBroker) (id : bytes) : Prop :=
  exists k, 0 < k <= orderCount b /\ id = simOrderID k.
Definition sim_ready (n : nat) (b : SimulatedBroker) : Prop :=
  0 <= orderCount b /\ orderCount b + Z.of_nat n < 2 ^ 63.

Lemma simOrderID_inj a b : 0 <= a < 2 ^ 63 -> 0 <= b < 2 ^ 63 -> simOrderID a = simOrderID b -> a = b.
Proof.
  intros Ha Hb E. unfold simOrderID in E. apply app_inv_head in E. unfold FormatInt in E.
  rewrite !(proj2 (Z.ltb_ge _ 0)) in E by lia.
  destruct (FormatUint_spec a ltac:(lia)) as (_ & _ & Va).
  destruct (FormatUint_spec b ltac:(lia)) as (_ & _ & Vb). congruence.
Qed.

Lemma fillOrder_count id b : orderCount (fillOrder id b) = orderCount b.
Proof.
  unfold fillOrder. destruct (sim_orders b !! id) as [o|]; [|reflexivity]. cbv zeta.
  destruct (bool_decide _); reflexivity.
Qed.

Lemma sim_submit_law n now o b r b' :
  sim_ready (S n) b -> SimSubmit now o b = (r, b') ->
  sim_ready n b' /\ (forall i, sim_issued b i -> sim_issued b' i)
  /\ (forall id, r = Ok id -> id <> [] /\ ~ sim_issued b id /\ sim_issued b' id /\ strip_prefix (lit "ORD-") id = None).
Proof.
  intros [H0 Hn] E. unfold SimSubmit in E. destruct (connected b); simpl in E.
  - assert (orderCount b' = orderCount b + 1 /\ r = Ok (simOrderID (orderCount b + 1))) as [Ec ->].
    { case_bool_decide; injection E as <- <-; rewrite ?fillOrder_count; split; reflexivity. }
    unfold sim_ready, sim_issued. rewrite Ec. split; [lia|]. split.
    + intros i (k & Hk & ->). exists k. split; [lia|reflexivity].
    + intros id [= <-]. split; [discriminate|]. split; [|split; [|reflexivity]].
      * intros (k & Hk & Ek). apply simOrderID_inj in Ek; lia.
      * exists (orderCount b + 1). split; [lia|reflexivity].
  - injection E as <- <-. unfold sim_ready. split; [lia|]. split; [tauto|]. discriminate.
Qed.

Lemma SimCancel_count id b : orderCount (snd (SimCancel id b)) = orderCount b.
Proof. unfold SimCancel. destruct (sim_orders b !! id); [|reflexivity]. by case_bool_decide. Qed.

#[global] Program Instance Simulated_laws : BrokerLaws SimulatedBroker := {|
  issued := sim_issued;
  ready := sim_ready
|}.
Next Obligation. intros. by eapply sim_submit_law. Qed.
Next Obligation.
  intros n id b r b' Hr E. pose proof (SimCancel_count id b) as Hc. simpl in E. rewrite E in Hc. simpl in Hc.
  unfold sim_ready, sim_issued in *. rewrite Hc. tauto.
Qed.
Next Obligation. intros n b [H0 Hn]. split; lia. Qed.

(** ** Runs *)

Inductive live_op :=
| OpSubmit (now nanos seq : Z) (order : Order.t)
| OpCancel (id : bytes)
| OpQuote (q : LiveQuote.t)
| OpSync
| OpTick (feed : bytes -> option LiveQuote.t).

Definition trade_id (ev : engine_event) : option bytes :=
  match ev with EvTrade id _ => Some id | _ => None end.
Definition trade_ids (evs : list engine_event) : list bytes := omap trade_id evs.
Definition trades_of (symbol : bytes) (evs : list engine_event) : list Trade.t :=
  omap (fun ev => match ev with
                  | EvTrade _ t => if bool_decide (Trade.Symbol t = symbol) then Some t else None
                  | _ => None end) evs.

(** The share count a trade leaves. *)
Definition book_trade (q : float64) (t : Trade.t) : float64 :=
  if bool_decide (Trade.Direction t = DirectionLong) then (q + Trade.Quantity t)%f64 else (q - Trade.Quantity t)%f64.
Definition held_quantity (symbol : bytes) (pm : PositionManager) : float64 :=
  match pm !! symbol with Some p => Position.Quantity p | None => f0 end.

(** The price an order of each type may trade at. *)
Definition price_ok (p : float64) (o : Order.t) : bool :=
  match Order.OrderType o, Order.Direction o with
  | OrderTypeMarket, _ => true
  | OrderTypeLimit, DirectionLong => (p >? f0)%f64 && (p <=? Order.LimitPrice o)%f64
  | OrderTypeLimit, (DirectionShort | DirectionClose) => (p >? f0)%f64 && (p >=? Order.LimitPrice o)%f64
  | OrderTypeStop, DirectionLong => (p >=? Order.StopPrice o)%f64
  | OrderTypeStop, (DirectionShort | DirectionClose) => (p >? f0)%f64 && (p <=? Order.StopPrice o)%f64
  | OrderTypeTrailing, (DirectionLong | DirectionShort | DirectionClose) =>
      (p >? f0)%f64 && (p <=? trailingTriggerPrice o)%f64
  | _, _ => false
  end.

(** The trade is the order's: symbol, side, the whole quantity, and a price
    the order allows. *)
Definition trade_of_order (t : Trade.t) (o : Order.t) : Prop :=
  Trade.Symbol t = Order.Symbol o /\ Trade.Direction t = Order.Direction o /\ Trade.Quantity t = Order.Quantity o
  /\ price_ok (Trade.Price t) o = true.

Lemma fle_at_bound x y : flt f0 x = true -> fle x y = true \/ fle y x = true ->
  flt x y = false -> flt y x = false -> y = x.
Proof.
  intros H0 Hle H1 H2. apply feq_same; [|done]. rewrite !fle_lt_or_eq, H1, H2 in Hle.
  destruct Hle as [Hle|Hle]; simpl in Hle; [by rewrite feq_comm|done].
Qed.

(** A limit order the quote crosses trades on the market side. *)
Lemma crossed_buy x y : flt f0 x = true -> fle x y = true -> (if flt f0 x && flt x y then x else y) = x.
Proof.
  intros H0 Hle. rewrite H0. simpl. destruct (flt x y) eqn:E; [done|].
  apply fle_at_bound; auto. by apply fle_not_gt.
Qed.

Lemma crossed_sell x y : flt f0 x = true -> fle y x = true -> (if flt f0 x && flt y x then x else y) = x.
Proof.
  intros H0 Hle. rewrite H0. simpl. destruct (flt y x) eqn:E; [done|].
  apply fle_at_bound; auto. by apply fle_not_gt.
Qed.

(** A triggered order trades on the market side, at a price it allows. *)
Lemma triggered_price o q :
  shouldFill o q = true -> computeFillPrice o q = market_side o q /\ price_ok (computeFillPrice o q) o = true.
Proof.
  unfold shouldFill, computeFillPrice, price_ok, market_side.
  destruct (Order.OrderType o), (Order.Direction o); try discriminate; intros Hs;
    rewrite ?(bool_decide_true (DirectionLong = DirectionLong)) by reflexivity;
    rewrite ?bool_decide_false by discriminate; try (split; [reflexivity|reflexivity]);
    match type of Hs with (if ?b then _ else _) = _ => destruct b; [discriminate|] end;
    try discriminate; try (split; [reflexivity|exact Hs]);
    apply andb_true_iff in Hs as [H0 Hle];
    rewrite ?crossed_buy, ?crossed_sell by assumption; by rewrite H0, Hle.
Qed.

Section Runs.
Context {B : Type} `{!Broker B} `{!BrokerLaws B} `{!MapOrder}.
Implicit Types e : LiveEngine B.

(** One operation after the other, each to its end; [LiveThreads] interleaves
    them lock by lock, and these are the goroutines that run alone there. *)
Definition live_step (st : list engine_event * LiveEngine B) (op : live_op) : list engine_event * LiveEngine B :=
  let '(evs, e) := st in
  match op with
  | OpSubmit now nanos seq order => (evs, snd (SubmitOrder now nanos seq order e))
  | OpCancel id => (evs, snd (CancelOrder id e))
  | OpQuote q => let '(new, e) := handleQuote q e in (evs ++ new, e)
  | OpSync => (evs, set_both (syncOrderStatus (orderManager e, broker e)) e)
  | OpTick feed => (evs, updatePortfolio feed e)
  end.

Definition live_run (ops : list live_op) (e : LiveEngine B) : list engine_event * LiveEngine B :=
  foldl live_step ([], e) ops.

(** ** The invariant *)

Definition foreign (id : bytes) : Prop := id <> [] /\ strip_prefix (lit "ORD-") id = None.

Definition open_order (e : LiveEngine B) (id : bytes) : Prop :=
  issued (broker e) id /\ foreign id
  /\ exists o, orders (orderManager e) !! id = Some o /\ settles (Order.Status o) = false.

Definition done_order (e : LiveEngine B) (id : bytes) (t : Trade.t) : Prop :=
  issued (broker e) id /\ foreign id /\ id ∉ pending (orderManager e)
  /\ exists o, orders (orderManager e) !! id = Some o /\ Order.Status o = lit "filled" /\ trade_of_order t o.

Record books (evs : list engine_event) (e : LiveEngine B) : Prop := {
  bk_pending : NoDup (pending (orderManager e));
  bk_keys : forall id o, orders (orderManager e) !! id = Some o -> Order.ID o = id;
  bk_open : forall id, id ∈ pending (orderManager e) -> open_order e id;
  bk_once : NoDup (trade_ids evs);
  bk_done : forall id t, EvTrade id t ∈ evs -> done_order e id t;
  bk_held : forall s, held_quantity s (positionManager e) = foldl book_trade f0 (trades_of s evs)
}.

Lemma trade_ids_elem id evs : id ∈ trade_ids evs <-> exists t, EvTrade id t ∈ evs.
Proof.
  unfold trade_ids. rewrite list_elem_of_omap. split.
  - intros ([o|i t] & Hin & E); simpl in E; [discriminate|]. injection E as ->. by exists t.
  - intros (t & Hin). by exists (EvTrade id t).
Qed.

Lemma remove_first_elem id x l : x ∈ remove_first id l -> x ∈ l.
Proof.
  induction l as [|y l IH]; simpl; [done|]. case_bool_decide; rewrite ?elem_of_cons; [tauto|].
  intros [->|Hx]; auto.
Qed.

Lemma remove_first_NoDup id l : NoDup l -> NoDup (remove_first id l) /\ id ∉ remove_first id l.
Proof.
  induction l as [|y l IH]; simpl; [intros _; split; [constructor|apply not_elem_of_nil]|].
  intros Hnd. apply NoDup_cons in Hnd as [Hy Hnd]. destruct (IH Hnd) as [IH1 IH2].
  case_bool_decide; [by subst|]. rewrite NoDup_cons, not_elem_of_cons. split; [|split; congruence].
  split; [|done]. intros Hin. by apply remove_first_elem in Hin.
Qed.

Lemma remove_first_ne id x l : x ≠ id -> x ∈ l -> x ∈ remove_first id l.
Proof.
  intros Hne. induction l as [|y l IH]; simpl; [done|]. rewrite elem_of_cons.
  intros [->|Hx]; case_bool_decide; subst; rewrite ?elem_of_cons; auto; congruence.
Qed.

Lemma books_new br c : books [] (NewLiveEngine br c).
Proof.
  constructor; simpl.
  - constructor.
  - intros id o. by rewrite lookup_empty.
  - intros id Hin. by apply not_elem_of_nil in Hin.
  - constructor.
  - intros id t Hin. by apply not_elem_of_nil in Hin.
  - intros s. unfold held_quantity. by rewrite lookup_empty.
Qed.

(** An operation that emits no trade keeps the books when it leaves the
    records of the traded orders and the share counts alone. *)
Lemma books_frame evs e e' :
  books evs e ->
  (forall i, issued (broker e) i -> issued (broker e') i) ->
  NoDup (pending (orderManager e')) ->
  (forall id o, orders (orderManager e') !! id = Some o -> Order.ID o = id) ->
  (forall id, id ∈ pending (orderManager e') -> open_order e' id) ->
  (forall id, id ∈ trade_ids evs ->
     orders (orderManager e') !! id = orders (orderManager e) !! id /\ id ∉ pending (orderManager e')) ->
  (forall s, held_quantity s (positionManager e') = held_quantity s (positionManager e)) ->
  books evs e'.
Proof.
  intros [Hp Hk Ho H1 Hd Hh] Hi Hnd Hky Hop Hf Hq. constructor; [done|done|done|done| |].
  - intros id t Hin. destruct (Hd id t Hin) as (Hs & Hfo & Hnp & o & Eo & Hst).
    assert (id ∈ trade_ids evs) as Hid by (rewrite trade_ids_elem; by exists t).
    destruct (Hf id Hid) as [Ef Hn]. split; [by apply Hi|]. split; [done|]. split; [done|].
    exists o. by rewrite Ef.
  - intros s. by rewrite Hq, Hh.
Qed.

Lemma traded_facts evs e id :
  books evs e -> id ∈ trade_ids evs ->
  issued (broker e) id /\ foreign id /\ id ∉ pending (orderManager e)
  /\ exists o, orders (orderManager e) !! id = Some o /\ Order.Status o = lit "filled".
Proof.
  intros Hb Hid. apply trade_ids_elem in Hid as [t Hin].
  destruct (bk_done _ _ Hb id t Hin) as (H1 & H2 & H3 & o & E & Hs & _). eauto 8.
Qed.

Lemma generateOrderID_own nanos seq : ~ foreign (generateOrderID nanos seq).
Proof. unfold foreign, generateOrderID. intros [_ E]. discriminate E. Qed.

Lemma keys_insert (m : gmap bytes Order.t) id o :
  (forall i o, m !! i = Some o -> Order.ID o = i) -> Order.ID o = id ->
  forall i o', <[id := o]> m !! i = Some o' -> Order.ID o' = i.
Proof.
  intros Hm Ho i o'. destruct (decide (i = id)) as [->|Hne].
  - rewrite lookup_insert_eq. by intros [= <-].
  - rewrite lookup_insert_ne by done. apply Hm.
Qed.

Lemma submit_keeps_books n evs e now nanos seq order :
  books evs e -> ready (S n) (broker e) ->
  let e' := snd (SubmitOrder now nanos seq order e) in books evs e' /\ ready n (broker e').
Proof.
  intros Hb Hr. unfold SubmitOrder, ManagerSubmit.
  destruct (validateOrderShape order); [|split; [destruct e; exact Hb|exact (ready_less _ _ Hr)]].
  destruct (cage_check order (orderManager e)); [|split; [destruct e; exact Hb|exact (ready_less _ _ Hr)]].
  cbv zeta. set (ord := with_time _ _).
  destruct (BrokerSubmit now ord (broker e)) as [[id|err] br] eqn:E;
    destruct (submit_law n _ _ _ _ _ Hr E) as (Hr' & Hi & Hid); (split; [|exact Hr']).
  - destruct (Hid id eq_refl) as (Hne & Hfresh & Hiss & Hpre); pose proof (conj Hne Hpre : foreign id) as Hfor. rewrite bool_decide_false by done.
    apply (books_frame _ e); [done|exact Hi| |apply keys_insert; [apply (bk_keys _ _ Hb)|reflexivity]| | |reflexivity]; simpl.
    + apply NoDup_app. split; [apply (bk_pending _ _ Hb)|]. split; [|apply NoDup_singleton].
      intros x Hx. rewrite list_elem_of_singleton. intros ->.
      by destruct (bk_open _ _ Hb _ Hx) as (Hxi & _).
    + intros x. rewrite elem_of_app, list_elem_of_singleton. unfold open_order; simpl.
      intros [Hx| ->].
      * destruct (bk_open _ _ Hb _ Hx) as (Hxi & Hxf & o & Eo & Ho). split; [by apply Hi|]. split; [done|].
        exists o. rewrite lookup_insert_ne by (intros ->; done). done.
      * split; [done|]. split; [done|]. eexists. rewrite lookup_insert_eq. split; reflexivity.
    + intros x Hx. destruct (traded_facts _ _ _ Hb Hx) as (Hxi & _ & Hxp & _).
      assert (x ≠ id) by (intros ->; done). rewrite lookup_insert_ne by done. split; [done|].
      rewrite elem_of_app, list_elem_of_singleton. tauto.
  - apply (books_frame _ e);
      [done|exact Hi|apply (bk_pending _ _ Hb)|apply keys_insert; [apply (bk_keys _ _ Hb)|reflexivity]| | |reflexivity];
      simpl.
    + intros x Hx. destruct (bk_open _ _ Hb _ Hx) as (Hxi & Hxf & o & Eo & Ho). unfold open_order; simpl.
      split; [by apply Hi|]. split; [done|]. exists o.
      rewrite lookup_insert_ne by (intros <-; by apply generateOrderID_own in Hxf). done.
    + intros x Hx. destruct (traded_facts _ _ _ Hb Hx) as (_ & Hxf & Hxp & _).
      rewrite lookup_insert_ne by (intros <-; by apply generateOrderID_own in Hxf). done.
Qed.

(** Settling an untraded order, as a cancellation or a status poll does. *)
Lemma settle_keeps_books evs e br om id o :
  books evs e -> (forall i, issued (broker e) i -> issued br i) -> id ∉ trade_ids evs -> Order.ID o = id ->
  om = MkManager (<[id := o]> (orders (orderManager e))) (trades (orderManager e))
         (remove_first id (pending (orderManager e))) (priceCage (orderManager e)) (priceRefProvider (orderManager e)) ->
  books evs (set_both (om, br) e).
Proof.
  intros Hb Hi Hid Hk ->. destruct (remove_first_NoDup id _ (bk_pending _ _ Hb)) as [Hnd Hnin].
  apply (books_frame _ e); [done|exact Hi|exact Hnd|apply keys_insert; [apply (bk_keys _ _ Hb)|exact Hk]| | |reflexivity]; simpl.
  - intros x Hx. assert (x ≠ id) by (intros ->; done). apply remove_first_elem in Hx.
    destruct (bk_open _ _ Hb _ Hx) as (Hxi & Hxf & o' & Eo & Ho). unfold open_order; simpl.
    split; [by apply Hi|]. split; [done|]. exists o'. by rewrite lookup_insert_ne.
  - intros x Hx. assert (x ≠ id) by (intros ->; done). rewrite lookup_insert_ne by done. split; [done|].
    intros Hp. apply remove_first_elem in Hp. by destruct (traded_facts _ _ _ Hb Hx) as (_ & _ & ? & _).
Qed.

(** Only the broker moves. *)
Lemma broker_keeps_books evs e br :
  books evs e -> (forall i, issued (broker e) i -> issued br i) -> books evs (set_both (orderManager e, br) e).
Proof.
  intros Hb Hi. apply (books_frame _ e); [done|exact Hi|apply (bk_pending _ _ Hb)|apply (bk_keys _ _ Hb)| | |reflexivity].
  - intros x Hx. destruct (bk_open _ _ Hb _ Hx) as (Hxi & Hxf & Hxo). split; [by apply Hi|done].
  - intros x Hx. destruct (traded_facts _ _ _ Hb Hx) as (_ & _ & Hxp & _). done.
Qed.

Lemma cancel_keeps_books n evs e id :
  books evs e -> ready n (broker e) ->
  let e' := snd (CancelOrder id e) in books evs e' /\ ready n (broker e').
Proof.
  intros Hb Hr. unfold CancelOrder, ManagerCancel.
  destruct (orders (orderManager e) !! id) as [o|] eqn:Eo; [|split; [destruct e; exact Hb|exact Hr]].
  destruct (negb _) eqn:Hst; [split; [destruct e; exact Hb|exact Hr]|].
  destruct (BrokerCancel id (broker e)) as [[err|] br] eqn:E;
    destruct (cancel_law n _ _ _ _ Hr E) as (Hr' & Hi); (split; [|exact Hr']); [by apply broker_keeps_books|].
  pose proof (bk_keys _ _ Hb _ _ Eo) as Hk.
  apply (settle_keeps_books _ e br _ id (with_status (lit "cancelled") o)); [done|done| |done|].
  - intros Hid. destruct (traded_facts _ _ _ Hb Hid) as (_ & _ & _ & o' & Eo' & Hf).
    assert (o' = o) as -> by congruence. rewrite Hf in Hst. discriminate.
  - unfold removePending, saveOrder. simpl. by rewrite Hk.
Qed.

Lemma sync_one_keeps_books evs e id br :
  books evs e -> id ∉ trade_ids evs ->
  books evs (set_manager (sync_one br (orderManager e) id) e).
Proof.
  intros Hb Hid. unfold sync_one. destruct (GetOrderStatus id br) as [status|]; [|destruct e; exact Hb].
  unfold UpdateOrderStatus. destruct (orders (orderManager e) !! id) as [o|] eqn:Eo; [|destruct e; exact Hb].
  pose proof (bk_keys _ _ Hb _ _ Eo) as Hk. destruct (settles status) eqn:Es.
  { apply (settle_keeps_books _ e (broker e) _ id (with_status status o)); auto. }
  apply (books_frame _ e); [done|tauto|apply (bk_pending _ _ Hb)|apply keys_insert; [apply (bk_keys _ _ Hb)|exact Hk]| | |reflexivity];
    simpl.
  - intros x Hx. destruct (bk_open _ _ Hb _ Hx) as (Hxi & Hxf & o' & Eo' & Ho). unfold open_order; simpl.
    split; [done|]. split; [done|]. destruct (decide (x = id)) as [->|Hne].
    + eexists. rewrite lookup_insert_eq. split; [reflexivity|]. exact Es.
    + exists o'. by rewrite lookup_insert_ne.
  - intros x Hx. rewrite lookup_insert_ne by (intros ->; done).
    destruct (traded_facts _ _ _ Hb Hx) as (_ & _ & Hxp & _). done.
Qed.

Lemma sync_keeps_books evs e :
  books evs e -> books evs (set_both (syncOrderStatus (orderManager e, broker e)) e).
Proof.
  intros Hb. unfold syncOrderStatus. simpl.
  assert (forall id, id ∈ pending (orderManager e) -> id ∉ trade_ids evs) as Hdis.
  { intros id Hp Hid. by destruct (traded_facts _ _ _ Hb Hid) as (_ & _ & ? & _). }
  revert Hdis. generalize (pending (orderManager e)) as l. intros l. revert e Hb.
  induction l as [|id l IH]; intros e Hb Hdis; simpl; [destruct e; exact Hb|].
  specialize (IH (set_manager (sync_one (broker e) (orderManager e) id) e)). simpl in IH. apply IH.
  - apply sync_one_keeps_books; [done|]. apply Hdis. left.
  - intros x Hx. apply Hdis. by right.
Qed.

Lemma tick_keeps_books evs e feed : books evs e -> books evs (updatePortfolio feed e).
Proof.
  intros Hb. unfold updatePortfolio.
  apply (books_frame _ e); [done|tauto|apply (bk_pending _ _ Hb)|apply (bk_keys _ _ Hb)|apply (bk_open _ _ Hb)| |].
  { intros x Hx. destruct (traded_facts _ _ _ Hb Hx) as (_ & _ & Hxp & _). done. }
  intros s. simpl. generalize (map (fun x : bytes * Position.t => Position.Symbol x.2) (range 0 (positionManager e))).
  intros l. generalize (positionManager e). induction l as [|y l IH]; intros pm; simpl; [done|].
  rewrite IH. unfold mark_step. destruct (feed y) as [q|]; [|done]. destruct (LiveQuote.Close q <=? f0)%f64; [done|].
  unfold ApplyQuote, held_quantity. destruct (pm !! y) as [p|] eqn:Ep; [|done]. simpl.
  destruct (decide (s = y)) as [->|Hne]; [by rewrite lookup_insert_eq, Ep|by rewrite lookup_insert_ne].
Qed.

(** ** One quote *)

(** The order as a quote sees it: a trailing order with its mark moved. *)
Definition ratcheted (o : Order.t) (q : LiveQuote.t) : Order.t :=
  if bool_decide (Order.OrderType o = OrderTypeTrailing)
  then match trailingHWM o q with Some hwm => with_mark hwm o | None => o end
  else o.

Definition triggered (q : LiveQuote.t) (o : Order.t) : bool := shouldFill (ratcheted o q) q.

Definition fill_of (c : ExecutionConfig) (o : Order.t) (q : LiveQuote.t) : Trade.t :=
  trade_of c (ratcheted o q) (computeFillPrice (ratcheted o q) q) q.

(** What the callbacks see of an order at a quote. *)
Definition reported (c : ExecutionConfig) (q : LiveQuote.t) (o : Order.t) : list engine_event :=
  if triggered q o
  then [EvOrderUpdate (with_fill (Order.Quantity o) (computeFillPrice (ratcheted o q) q) (ratcheted o q));
        EvTrade (Order.ID o) (fill_of c o q)]
  else [].

Lemma ratcheted_fields o q :
  Order.ID (ratcheted o q) = Order.ID o /\ Order.Symbol (ratcheted o q) = Order.Symbol o
  /\ Order.Direction (ratcheted o q) = Order.Direction o /\ Order.Quantity (ratcheted o q) = Order.Quantity o
  /\ Order.Status (ratcheted o q) = Order.Status o.
Proof. unfold ratcheted. case_bool_decide; [destruct (trailingHWM o q)|]; repeat split. Qed.

(** The whole effect of trying an order that is on file. *)
Lemma tryFillOrder_effect o q e :
  orders (orderManager e) !! Order.ID o = Some o -> Order.ID o <> [] ->
  let om := orderManager e in
  let fill := triggered q o in
  tryFillOrder o q e =
    (reported (config e) q o,
     MkEngine (broker e)
       (MkManager
          (<[Order.ID o := if fill then with_status (lit "filled") (ratcheted o q) else ratcheted o q]> (orders om))
          (trades om) (if fill then remove_first (Order.ID o) (pending om) else pending om)
          (priceCage om) (priceRefProvider om))
       (if fill then UpdateFromTrade (fill_of (config e) o q) (positionManager e) else positionManager e)
       (config e) (running e) (stopClosed e)).
Proof.
  intros Eo Hne om fill. subst om fill. destruct (ratcheted_fields o q) as (Hi & _ & _ & Hq & _).
  assert ((if bool_decide (Order.OrderType o = OrderTypeTrailing)
           then updateTrailingHWM o q (orderManager e) else (o, orderManager e))
          = (ratcheted o q,
             MkManager (<[Order.ID o := ratcheted o q]> (orders (orderManager e))) (trades (orderManager e))
               (pending (orderManager e)) (priceCage (orderManager e)) (priceRefProvider (orderManager e)))) as E.
  { unfold ratcheted. destruct (orderManager e) as [os ts ps pc pr]. simpl in *.
    case_bool_decide; [|by rewrite insert_id by done].
    unfold updateTrailingHWM. destruct (trailingHWM o q) as [h|]; [|by rewrite insert_id by done].
    unfold UpdateOrder. simpl. rewrite bool_decide_false by done. done. }
  unfold tryFillOrder. rewrite E. unfold reported, fill_of, triggered.
  destruct (shouldFill (ratcheted o q) q); simpl.
  - unfold UpdateOrderStatus. simpl. rewrite Hi, Hq, lookup_insert_eq.
    rewrite insert_insert_eq. reflexivity.
  - destruct e. reflexivity.
Qed.

Lemma held_traded s t pm :
  held_quantity s (UpdateFromTrade t pm)
  = if bool_decide (Trade.Symbol t = s) then book_trade (held_quantity s pm) t else held_quantity s pm.
Proof.
  unfold held_quantity, UpdateFromTrade. case_bool_decide as Hs.
  - subst s. rewrite lookup_insert_eq. unfold traded_position, book_trade.
    destruct (pm !! Trade.Symbol t) as [p|]; simpl; case_bool_decide; cbv zeta;
      repeat match goal with |- context [if ?b then _ else _] => destruct b end; reflexivity.
  - rewrite lookup_insert_ne by done. done.
Qed.

Lemma fill_keeps_books evs q o e :
  books evs e -> Order.ID o ∈ pending (orderManager e) -> orders (orderManager e) !! Order.ID o = Some o ->
  books (evs ++ fst (tryFillOrder o q e)) (snd (tryFillOrder o q e)).
Proof.
  intros Hb Hp Eo. pose proof (bk_open _ _ Hb _ Hp) as (_ & [Hne _] & _).
  rewrite tryFillOrder_effect by done. cbv zeta. unfold fst, snd.
  destruct (ratcheted_fields o q) as (Hi & Hsy & Hdi & Hqu & Hst).
  destruct (bk_open _ _ Hb _ Hp) as (Hiss & Hfor & o' & Eo' & Hopen).
  assert (o' = o) as -> by congruence. clear Eo'.
  assert (Order.ID o ∉ trade_ids evs) as Hnt.
  { intros Hid. by destruct (traded_facts _ _ _ Hb Hid) as (_ & _ & ? & _). }
  unfold reported. destruct (triggered q o) eqn:Ht.
  - destruct (settle_keeps_books evs e (broker e) _ (Order.ID o) (with_status (lit "filled") (ratcheted o q)) Hb
                ltac:(tauto) Hnt Hi eq_refl) as [H1 H2 H3 H4 H5 H6].
    constructor; [exact H1|exact H2|exact H3| | |].
    + unfold trade_ids. rewrite omap_app. simpl. apply NoDup_app. split; [exact H4|].
      split; [|apply NoDup_singleton]. intros x Hx. rewrite list_elem_of_singleton. intros E. apply Hnt. by rewrite <- E.
    + intros id t. rewrite elem_of_app, !elem_of_cons. intros [Hin|[Hin|[Hin|Hin]]].
      * destruct (H5 id t Hin) as (Ha & Hb' & Hc & Hd). done.
      * discriminate.
      * injection Hin as -> ->. split; [done|]. split; [done|]. simpl.
        split; [apply remove_first_NoDup, (bk_pending _ _ Hb)|].
        exists (with_status (lit "filled") (ratcheted o q)). rewrite lookup_insert_eq. split; [reflexivity|]. split; [reflexivity|].
        split; [reflexivity|]. split; [reflexivity|]. split; [reflexivity|].
        exact (proj2 (triggered_price _ _ Ht)).
      * by apply not_elem_of_nil in Hin.
    + intros s. simpl. unfold trades_of. rewrite omap_app, foldl_app. rewrite held_traded, H6. simpl.
      case_bool_decide; reflexivity.
  - rewrite app_nil_r.
    apply (books_frame _ e);
      [done|tauto|apply (bk_pending _ _ Hb)|apply keys_insert; [apply (bk_keys _ _ Hb)|exact Hi]| | |reflexivity]; simpl.
    + intros x Hx. destruct (bk_open _ _ Hb _ Hx) as (Hxi & Hxf & o' & Eo' & Ho). unfold open_order; simpl.
      split; [done|]. split; [done|]. destruct (decide (x = Order.ID o)) as [->|Hx'].
      * eexists. rewrite lookup_insert_eq. split; [reflexivity|]. by rewrite Hst.
      * exists o'. by rewrite lookup_insert_ne.
    + intros x Hx. rewrite lookup_insert_ne by (intros <-; done).
      destruct (traded_facts _ _ _ Hb Hx) as (_ & _ & Hxp & _). done.
Qed.

(** The orders still to be tried are on file as the snapshot has them. *)
Definition on_file (e : LiveEngine B) (o : Order.t) : Prop :=
  Order.ID o ∈ pending (orderManager e) /\ orders (orderManager e) !! Order.ID o = Some o.

Lemma on_file_other e q o o' :
  on_file e o -> Order.ID o <> [] -> on_file e o' -> Order.ID o' <> Order.ID o -> on_file (snd (tryFillOrder o q e)) o'.
Proof.
  intros [Hp Eo] Hne [Hp' Eo'] Hd. rewrite tryFillOrder_effect by done. unfold on_file. simpl.
  rewrite lookup_insert_ne by done. split; [|done]. destruct (triggered q o); [by apply remove_first_ne|done].
Qed.

Lemma fill_step_fst (q : LiveQuote.t) (st : list engine_event * LiveEngine B) o :
  fill_step q st o = (fst st ++ fst (tryFillOrder o q (snd st)), snd (tryFillOrder o q (snd st))).
Proof. unfold fill_step. by destruct (tryFillOrder o q (snd st)). Qed.

(** What a quote leaves of the pending list, and what it reports. *)
Definition survives (q : LiveQuote.t) (os : list Order.t) (id : bytes) : bool :=
  forallb (fun o => negb (bool_decide (Order.ID o = id)) || negb (triggered q o)) os.

Lemma remove_first_filter id l :
  NoDup l -> remove_first id l = List.filter (fun x => negb (bool_decide (x = id))) l.
Proof.
  induction l as [|y l IH]; intros Hnd; [done|]. apply NoDup_cons in Hnd as [Hy Hnd]. simpl.
  case_bool_decide as E; simpl.
  - subst y. symmetry. rewrite <- IH by done. clear IH Hnd. induction l as [|z l IH]; [done|].
    apply not_elem_of_cons in Hy as [Hz Hy]. simpl. rewrite bool_decide_false by done. by rewrite IH.
  - by rewrite IH.
Qed.

Lemma filter_filter_and {A} (p r : A -> bool) l : List.filter p (List.filter r l) = List.filter (fun x => r x && p x) l.
Proof. induction l as [|x l IH]; simpl; [done|]. destruct (r x); simpl; rewrite ?IH; destruct (p x); done. Qed.

Lemma quote_fold q os : forall evs acc e,
  books evs e -> NoDup (map Order.ID os) -> Forall (on_file e) os ->
  let r := foldl (fill_step q) (acc, e) os in
  fst r = acc ++ concat (map (reported (config e) q) os)
  /\ books (evs ++ concat (map (reported (config e) q) os)) (snd r)
  /\ broker (snd r) = broker e
  /\ pending (orderManager (snd r)) = List.filter (survives q os) (pending (orderManager e))
  /\ (forall o, on_file e o -> Order.ID o ∉ map Order.ID os -> on_file (snd r) o)
  /\ (forall o, o ∈ os -> triggered q o = false -> orders (orderManager (snd r)) !! Order.ID o = Some (ratcheted o q)).
Proof.
  induction os as [|o os IH]; intros evs acc e Hb Hnd Hall; simpl.
  { rewrite !app_nil_r. split; [done|]. split; [done|]. split; [done|]. split; [|split].
    - induction (pending (orderManager e)) as [|x l IHl]; simpl; [done|]. by f_equal.
    - done.
    - intros o Ho. by apply not_elem_of_nil in Ho. }
  apply NoDup_cons in Hnd as [Hno Hnd]. apply Forall_cons in Hall as [[Hp Eo] Hall].
  assert (Order.ID o <> []) as Hne by (by destruct (bk_open _ _ Hb _ Hp) as (_ & [? _] & _)).
  rewrite fill_step_fst. cbn [fst snd].
  pose proof (fill_keeps_books evs q o e Hb Hp Eo) as Hb1.
  assert (Forall (on_file (snd (tryFillOrder o q e))) os) as Hall1.
  { rewrite Forall_forall in Hall |- *. intros o' Ho'. apply on_file_other; [done|done|by apply Hall|].
    intros E. apply Hno. rewrite <- E. apply list_elem_of_fmap. eauto. }
  specialize (IH _ (acc ++ fst (tryFillOrder o q e)) _ Hb1 Hnd Hall1). cbv zeta in IH.
  set (r := foldl (fill_step q) _ os) in *.
  assert (forall o' : Order.t, on_file e o' -> Order.ID o' ∉ Order.ID o :: map Order.ID os -> on_file (snd r) o') as Hframe.
  { intros o' Ho' Hn. apply not_elem_of_cons in Hn as [Hn1 Hn2].
    apply IH; [by apply on_file_other|done]. }
  pose proof (tryFillOrder_effect o q e Eo Hne) as Eff. cbv zeta in Eff. rewrite Eff in IH. simpl in IH.
  destruct IH as (IH1 & IH2 & IH3 & IH4 & IH5 & IH6).
  split; [by rewrite IH1, app_assoc|]. split; [by rewrite app_assoc|]. split; [done|]. split; [|split; [done|]].
  - rewrite IH4. destruct (triggered q o) eqn:Et.
    + rewrite remove_first_filter by apply (bk_pending _ _ Hb). rewrite filter_filter_and.
      apply List.filter_ext. intros x. unfold survives at 2. simpl. rewrite Et, orb_false_r.
      by rewrite (bool_decide_ext (x = Order.ID o) (Order.ID o = x)) by done.
    + apply List.filter_ext. intros x. unfold survives at 2. simpl. by rewrite Et, orb_true_r.
  - intros o' Ho' Ht. apply elem_of_cons in Ho' as [->|Ho']; [|by apply IH6].
    destruct (ratcheted_fields o q) as (Hi & _).
    specialize (IH5 (ratcheted o q)). rewrite Hi in IH5. unfold on_file in IH5. simpl in IH5. rewrite Hi, Ht in IH5.
    destruct IH5 as [_ IH5]; [|done|done]. by rewrite lookup_insert_eq.
Qed.

Lemma pending_records evs e :
  books evs e -> map Order.ID (GetPendingOrders (orderManager e)) = pending (orderManager e).
Proof.
  intros Hb. unfold GetPendingOrders. pose proof (bk_open _ _ Hb) as Ho. pose proof (bk_keys _ _ Hb) as Hk.
  induction (pending (orderManager e)) as [|id l IH]; simpl; [done|].
  destruct (Ho id ltac:(left)) as (_ & _ & o & Eo & _). rewrite Eo. simpl. rewrite (Hk _ _ Eo). f_equal.
  apply IH. intros x Hx. apply Ho. by right.
Qed.

Lemma quote_orders_on_file evs e q :
  books evs e -> NoDup (map Order.ID (quote_orders q (orderManager e)))
  /\ Forall (on_file e) (quote_orders q (orderManager e)).
Proof.
  intros Hb. unfold quote_orders. split.
  - pose proof (bk_pending _ _ Hb) as Hnd. rewrite <- (pending_records evs e Hb) in Hnd.
    refine (sublist_NoDup _ _ Hnd _). clear Hnd. induction (GetPendingOrders (orderManager e)) as [|o l IH]; simpl; [constructor|].
    case_bool_decide; by constructor.
  - apply Forall_forall. intros o. rewrite list_elem_of_In, filter_In, <- list_elem_of_In.
    unfold GetPendingOrders. rewrite list_elem_of_omap. intros [(id & Hp & Eo) _].
    pose proof (bk_keys _ _ Hb _ _ Eo) as Hk. unfold on_file. by rewrite Hk.
Qed.

Lemma quote_effect evs e q :
  books evs e ->
  let os := quote_orders q (orderManager e) in
  let r := handleQuote q e in
  fst r = concat (map (reported (config e) q) os)
  /\ books (evs ++ fst r) (snd r)
  /\ broker (snd r) = broker e
  /\ pending (orderManager (snd r)) = List.filter (survives q os) (pending (orderManager e))
  /\ (forall o, o ∈ os -> triggered q o = false -> orders (orderManager (snd r)) !! Order.ID o = Some (ratcheted o q)).
Proof.
  intros Hb os r. destruct (quote_orders_on_file evs e q Hb) as [Hnd Hall].
  destruct (quote_fold q os evs [] e Hb Hnd Hall) as (H1 & H2 & H3 & H4 & _ & H6).
  rewrite app_nil_l in H1. change (foldl (fill_step q) ([], e) os) with r in *.
  split; [exact H1|]. split; [rewrite H1; exact H2|]. done.
Qed.

Lemma step_keeps_books n evs e op :
  books evs e -> ready (S n) (broker e) ->
  books (fst (live_step (evs, e) op)) (snd (live_step (evs, e) op))
  /\ ready n (broker (snd (live_step (evs, e) op))).
Proof.
  intros Hb Hr. destruct op as [now nanos seq o|id|q| |feed]; simpl.
  - by apply submit_keeps_books.
  - apply cancel_keeps_books; [done|]. by apply ready_less.
  - destruct (quote_effect evs e q Hb) as (_ & H2 & H3 & _).
    destruct (handleQuote q e) as [new e']. simpl in *. rewrite H3. split; [done|]. by apply ready_less.
  - split; [by apply sync_keeps_books|]. by apply ready_less.
  - split; [by apply tick_keeps_books|]. by apply ready_less.
Qed.

Lemma run_ready_books ops n : forall evs e,
  books evs e -> ready (length ops + n) (broker e) ->
  let r := foldl live_step (evs, e) ops in books (fst r) (snd r) /\ ready n (broker (snd r)).
Proof.
  induction ops as [|op ops IH]; intros evs e Hb Hr; [done|]. cbn [foldl length Nat.add] in *.
  destruct (step_keeps_books _ evs e op Hb Hr) as [Hb' Hr'].
  destruct (live_step (evs, e) op) as [evs' e']. by apply IH.
Qed.

Lemma run_keeps_books ops evs e :
  books evs e -> ready (length ops) (broker e) ->
  books (fst (foldl live_step (evs, e) ops)) (snd (foldl live_step (evs, e) ops)).
Proof. intros Hb Hr. apply (run_ready_books ops 0); [done|]. by rewrite Nat.add_0_r. Qed.

Lemma submit_pending now nanos seq order e id e' :
  SubmitOrder now nanos seq order e = (Ok id, e') -> id ∈ pending (orderManager e').
Proof.
  unfold SubmitOrder, ManagerSubmit. destruct (validateOrderShape order); [|by intros [= ?]].
  destruct (cage_check order (orderManager e)); [|by intros [= ?]]. cbv zeta.
  destruct (BrokerSubmit _ _ (broker e)) as [[bid|err] br]; [|by intros [= ?]].
  intros [= <- <-]. simpl. apply elem_of_app. right. by apply list_elem_of_singleton.
Qed.

Lemma forallb_false_exists {A} (p : A -> bool) l : forallb p l = false -> exists x, x ∈ l /\ p x = false.
Proof.
  induction l as [|x l IH]; simpl; [done|]. destruct (p x) eqn:E; simpl; intros Hl.
  - destruct (IH Hl) as (y & Hy & Ep). exists y. split; [by right|done].
  - exists x. split; [left|done].
Qed.

(** Whatever the submissions, cancellations, quotes, status polls and ticks,
    in any order, an order yields at most one trade; an order that traded ends
    filled and off the pending list, and the trade carries its symbol, its
    side, its whole quantity and a price the order allows (never worse than
    the limit, on the triggered side of a stop or of a trailing stop). The
    shares the position manager holds of a symbol are the ones those trades
    bought and sold, booked in order. *)
Theorem sequential_fills_are_booked_once (br : B) (c : ExecutionConfig) (ops : list live_op) :
  ready (length ops) br ->
  let '(evs, e) := live_run ops (NewLiveEngine br c) in
  NoDup (trade_ids evs)
  /\ (forall id t, EvTrade id t ∈ evs ->
        id ∉ pending (orderManager e)
        /\ exists o, orders (orderManager e) !! id = Some o /\ Order.Status o = lit "filled" /\ trade_of_order t o)
  /\ (forall s, held_quantity s (positionManager e) = foldl book_trade f0 (trades_of s evs)).
Proof.
  intros Hr. unfold live_run. pose proof (run_keeps_books ops [] (NewLiveEngine br c) (books_new br c) Hr) as Hb.
  destruct (foldl live_step _ ops) as [evs e]. destruct Hb as [_ _ _ H1 H2 H3]. split; [done|]. split; [|done].
  intros id t Hin. by destruct (H2 id t Hin) as (_ & _ & ? & ?).
Qed.

(** In any state a run reaches, a quote fills exactly the pending orders of
    its symbol that it triggers (a trailing order with its mark already moved
    by this quote), reporting them in the order they were submitted, each on
    the market side of the quote; the other orders stay pending, and the
    untriggered trailing ones keep the mark they moved to. *)
Theorem quote_fills_exactly_triggered (br : B) (c : ExecutionConfig) (ops : list live_op) (q : LiveQuote.t) :
  ready (length ops) br ->
  let e := snd (live_run ops (NewLiveEngine br c)) in
  let os := quote_orders q (orderManager e) in
  let '(evs, e') := handleQuote q e in
  evs = concat (map (reported (config e) q) os)
  /\ (forall o, o ∈ os -> triggered q o = true ->
        Trade.Price (fill_of (config e) o q) = market_side o q)
  /\ pending (orderManager e') = List.filter (survives q os) (pending (orderManager e))
  /\ (forall o, o ∈ os -> triggered q o = false -> orders (orderManager e') !! Order.ID o = Some (ratcheted o q)).
Proof.
  intros Hr e os. pose proof (run_keeps_books ops [] (NewLiveEngine br c) (books_new br c) Hr) as Hb.
  destruct (quote_effect _ e q Hb) as (H1 & _ & _ & H4 & H5). destruct (handleQuote q e) as [evs e'].
  split; [exact H1|]. split; [|split; [exact H4|exact H5]].
  intros o _ Ht. destruct (triggered_price _ _ Ht) as [Hp _]. destruct (ratcheted_fields o q) as (_ & _ & Hd & _).
  unfold fill_of. simpl. rewrite Hp. unfold market_side. by rewrite Hd.
Qed.

(** ** Progress *)

(** The operation neither cancels the order nor polls the broker. *)
Definition leaves (id : bytes) (op : live_op) : bool :=
  match op with
  | OpCancel id' => negb (bool_decide (id' = id))
  | OpSync => false
  | _ => true
  end.

Lemma reported_trade_ids c q o : trade_ids (reported c q o) = if triggered q o then [Order.ID o] else [].
Proof. unfold reported. by destruct (triggered q o). Qed.

Lemma concat_trade_ids c q os o :
  o ∈ os -> triggered q o = true -> Order.ID o ∈ trade_ids (concat (map (reported c q) os)).
Proof.
  induction os as [|o' os IH]; [intros Ho; by apply not_elem_of_nil in Ho|]. simpl. unfold trade_ids.
  rewrite omap_app, elem_of_app. fold trade_ids. intros Ho Ht. apply elem_of_cons in Ho as [<-|Ho]; [left|right; by apply IH].
  fold (trade_ids (reported c q o)). rewrite reported_trade_ids, Ht. apply list_elem_of_singleton. done.
Qed.

Lemma live_step_stays n evs e op id :
  books evs e -> ready (S n) (broker e) -> leaves id op = true ->
  id ∈ pending (orderManager e) \/ id ∈ trade_ids evs ->
  id ∈ pending (orderManager (snd (live_step (evs, e) op))) \/ id ∈ trade_ids (fst (live_step (evs, e) op)).
Proof.
  intros Hb Hr Hl [Hp|Ht].
  2: { right. destruct op as [| |q| |]; try exact Ht. simpl. destruct (handleQuote q e). simpl.
       unfold trade_ids. rewrite omap_app, elem_of_app. by left. }
  destruct op as [now nanos seq o|id'|q| |feed]; simpl in *; [| | |discriminate|by left].
  - left. unfold SubmitOrder, ManagerSubmit. destruct (validateOrderShape o); [|exact Hp].
    destruct (cage_check o (orderManager e)); [|exact Hp]. cbv zeta.
    destruct (BrokerSubmit _ _ (broker e)) as [[bid|err] br]; simpl; [|exact Hp]. apply elem_of_app. by left.
  - left. apply negb_true_iff, bool_decide_eq_false in Hl. unfold CancelOrder, ManagerCancel.
    destruct (orders (orderManager e) !! id') as [o|]; [|exact Hp].
    destruct (negb _); [exact Hp|]. destruct (BrokerCancel id' (broker e)) as [[err|] br]; simpl; [exact Hp|].
    apply remove_first_ne; [congruence|done].
  - destruct (quote_effect evs e q Hb) as (H1 & _ & _ & H4 & _). destruct (handleQuote q e) as [new e']. simpl in *.
    destruct (survives q (quote_orders q (orderManager e)) id) eqn:Es.
    + left. rewrite H4. apply list_elem_of_In, filter_In. split; [by apply list_elem_of_In|done].
    + right. unfold trade_ids. rewrite omap_app, elem_of_app. right. rewrite H1.
      unfold survives in Es. apply forallb_false_exists in Es as (o & Ho & Hs).
      apply orb_false_iff in Hs as [Hi Ht]. apply negb_false_iff in Hi, Ht. apply bool_decide_eq_true in Hi as <-.
      by apply concat_trade_ids.
Qed.

Lemma live_run_stays ops : forall evs e id,
  books evs e -> ready (length ops) (broker e) -> forallb (leaves id) ops = true ->
  id ∈ pending (orderManager e) \/ id ∈ trade_ids evs ->
  let r := foldl live_step (evs, e) ops in id ∈ pending (orderManager (snd r)) \/ id ∈ trade_ids (fst r).
Proof.
  induction ops as [|op ops IH]; intros evs e id Hb Hr Hl Hid; [done|]. cbn [foldl length forallb] in *.
  apply andb_true_iff in Hl as [Hl1 Hl2]. destruct (step_keeps_books _ evs e op Hb Hr) as [Hb' Hr'].
  pose proof (live_step_stays _ evs e op id Hb Hr Hl1 Hid) as Hid'.
  destruct (live_step (evs, e) op) as [evs' e']. by apply IH.
Qed.

(** Progress: once a submission is accepted, the order cannot be lost. After
    any later submissions, quotes, ticks and cancellations of other orders it
    has traded, or it is still pending and the next quote of its symbol that
    triggers it trades it. *)
Theorem accepted_order_trades (br : B) (c : ExecutionConfig) (ops rest : list live_op)
    (now nanos seq : Z) (order : Order.t) (id : bytes) (e1 : LiveEngine B) :
  ready (length ops + S (length rest)) br ->
  SubmitOrder now nanos seq order (snd (live_run ops (NewLiveEngine br c))) = (Ok id, e1) ->
  forallb (leaves id) rest = true ->
  let '(evs, e) := live_run (ops ++ OpSubmit now nanos seq order :: rest) (NewLiveEngine br c) in
  id ∈ trade_ids evs
  \/ exists o, orders (orderManager e) !! id = Some o
       /\ (forall q, LiveQuote.Symbol q = Order.Symbol o -> triggered q o = true ->
             id ∈ trade_ids (fst (handleQuote q e))).
Proof.
  intros Hr Es Hl. unfold live_run in *. rewrite foldl_app. cbn [foldl].
  pose proof (run_ready_books ops (S (length rest)) [] (NewLiveEngine br c) (books_new br c) Hr) as [Hb Hr1].
  destruct (foldl live_step ([], NewLiveEngine br c) ops) as [evs0 e0]. cbn [fst snd] in *.
  destruct (step_keeps_books _ evs0 e0 (OpSubmit now nanos seq order) Hb Hr1) as [Hb2 Hr2].
  assert (id ∈ pending (orderManager (snd (live_step (evs0, e0) (OpSubmit now nanos seq order))))) as Hp.
  { cbn [live_step snd]. rewrite Es. simpl. by eapply submit_pending. }
  destruct (live_step (evs0, e0) _) as [evs2 e2]. cbn [fst snd] in *.
  pose proof (live_run_stays rest evs2 e2 id Hb2 Hr2 Hl (or_introl Hp)) as Hs.
  pose proof (run_keeps_books rest evs2 e2 Hb2 Hr2) as Hb3. cbv zeta in Hs.
  destruct (foldl live_step (evs2, e2) rest) as [evs e]. cbn [fst snd] in *. destruct Hs as [Hs|Hs]; [right|by left].
  destruct (bk_open _ _ Hb3 _ Hs) as (_ & _ & o & Eo & _). exists o. split; [done|]. intros q Hq Ht.
  destruct (quote_effect evs e q Hb3) as (H1 & _). rewrite H1, <- (bk_keys _ _ Hb3 _ _ Eo).
  apply concat_trade_ids; [|done]. unfold quote_orders, GetPendingOrders.
  apply list_elem_of_In, filter_In. rewrite <- list_elem_of_In, list_elem_of_omap.
  split; [by exists id|]. by apply bool_decide_eq_true.
Qed.

(** ** Quotes that overlap *)

(** Filling reads nothing of the order's present state: an order taken from a
    snapshot trades whenever the quote triggers it, even when another quote
    has already filled it or a cancellation has already succeeded. The
    position moves again and the record, cancelled or not, becomes filled. *)
Theorem stale_order_trades_again (q : LiveQuote.t) (o : Order.t) (e : LiveEngine B) :
  triggered q o = true ->
  let '(evs, e') := tryFillOrder o q e in
  trade_ids evs = [Order.ID o]
  /\ held_quantity (Order.Symbol o) (positionManager e')
     = book_trade (held_quantity (Order.Symbol o) (positionManager e)) (fill_of (config e) o q)
  /\ (forall o', orders (orderManager e) !! Order.ID o = Some o' -> Order.ID o <> [] ->
        exists o'', orders (orderManager e') !! Order.ID o = Some o'' /\ Order.Status o'' = lit "filled").
Proof.
  intros Ht. destruct (ratcheted_fields o q) as (Hi & Hs & _). unfold tryFillOrder.
  destruct (if bool_decide _ then updateTrailingHWM o q _ else _) as [o1 om] eqn:E.
  assert (o1 = ratcheted o q /\
    forall o', orders (orderManager e) !! Order.ID o = Some o' -> exists o'', orders om !! Order.ID o = Some o'') as [-> Hom].
  { unfold ratcheted. unfold updateTrailingHWM, UpdateOrder in E.
    case_bool_decide; [destruct (trailingHWM o q) as [h|]|]; injection E as <- <-; (split; [reflexivity|]); eauto.
    intros o' _. simpl. case_bool_decide; rewrite lookup_insert_eq; eauto. }
  unfold triggered in Ht. rewrite Ht. simpl. split; [by rewrite Hi|]. split.
  - rewrite held_traded. simpl. rewrite Hs. by rewrite bool_decide_true.
  - intros o' Eo Hne. destruct (Hom o' Eo) as [o2 E2]. unfold UpdateOrderStatus. rewrite Hi, E2.
    exists (with_status (lit "filled") o2). simpl. by rewrite lookup_insert_eq.
Qed.

(** The engine cannot be restarted: the stop channel is made once, so the
    second [Stop] closes a closed channel and panics. *)
Theorem second_stop_panics (br : B) (c : ExecutionConfig) (sub1 sub2 uns1 uns2 : option bytes)
    (e1 e2 e3 : LiveEngine B) (r : stop_result) :
  Start sub1 (NewLiveEngine br c) = (Ok tt, e1) ->
  Stop uns1 e1 = (r, e2) ->
  Start sub2 e2 = (Ok tt, e3) ->
  r <> StopPanics /\ fst (Stop uns2 e3) = StopPanics.
Proof.
  assert (forall s e e', Start s e = (Ok tt, e') -> running e' = true /\ stopClosed e' = stopClosed e) as HS.
  { intros s e e'. unfold Start. destruct (running e); [discriminate|].
    destruct (Connect (broker e)) as [[err|] b']; [discriminate|]. cbv zeta.
    destruct (BrokerPositions b'); [|discriminate]. destruct s; [discriminate|]. by intros [= <-]. }
  intros H1 H2 H3. destruct (HS _ _ _ H1) as [R1 C1']. destruct (HS _ _ _ H3) as [R3 C3].
  unfold Stop in H2. rewrite R1, C1' in H2. cbn [negb NewLiveEngine stopClosed] in H2.
  destruct (Disconnect _) as [err b']. injection H2 as <- <-. split; [discriminate|].
  unfold Stop. rewrite R3, C3. reflexivity.
Qed.
End Runs.

(** ** Concrete runs *)

Module LiveSample.
Definition br : SimulatedBroker := set_connected true (NewSimulatedBroker (f64_of_Z 1000000)).
Definition sym : bytes := lit "600000.SH".
Definition buy (id : bytes) : Order.t :=
  Order.Make id sym DirectionLong OrderTypeLimit (f64_of_Z 100) (f64_of_Z 10) f0 f0 f0 f0 0 f0 f0 (lit "submitted").
Definition quote (ask : Z) : LiveQuote.t := LiveQuote.Mk sym 7 f0 (f64_of_Z ask) f0 (f64_of_Z ask).
Definition ops : list live_op := [OpSubmit 1 2 3 (buy []); OpQuote (quote 11)].
Definition id : bytes := lit "SIM-ORD-1".
End LiveSample.

Lemma sequential_fills_are_booked_once_witness :
  sim_ready 3 LiveSample.br
  /\ trade_ids (fst (live_run (H := sorted_order) (LiveSample.ops ++ [OpQuote (LiveSample.quote 9)])
                       (NewLiveEngine LiveSample.br DefaultExecutionConfig))) = [LiveSample.id]
  /\ NoDup (trade_ids (fst (live_run (H := sorted_order) (LiveSample.ops ++ [OpQuote (LiveSample.quote 9)])
                       (NewLiveEngine LiveSample.br DefaultExecutionConfig)))).
Proof.
  assert (sim_ready 3 LiveSample.br) as Hr by (split; [discriminate|reflexivity]).
  split; [exact Hr|]. split; [vm_compute; reflexivity|].
  pose proof (sequential_fills_are_booked_once (H := sorted_order) LiveSample.br DefaultExecutionConfig
                (LiveSample.ops ++ [OpQuote (LiveSample.quote 9)]) Hr) as T.
  destruct (live_run _ _) as [evs e]. exact (proj1 T).
Defined.

Lemma quote_fills_exactly_triggered_witness :
  let e := snd (live_run (H := sorted_order) LiveSample.ops (NewLiveEngine LiveSample.br DefaultExecutionConfig)) in
  sim_ready 2 LiveSample.br
  /\ pending (orderManager e) = [LiveSample.id]
  /\ fst (handleQuote (LiveSample.quote 9) e)
     = concat (map (reported (config e) (LiveSample.quote 9)) (quote_orders (LiveSample.quote 9) (orderManager e))).
Proof.
  assert (sim_ready 2 LiveSample.br) as Hr by (split; [discriminate|reflexivity]).
  intros e. split; [exact Hr|]. split; [vm_compute; reflexivity|].
  pose proof (quote_fills_exactly_triggered (H := sorted_order) LiveSample.br DefaultExecutionConfig
                LiveSample.ops (LiveSample.quote 9) Hr) as T. fold e in T. cbv zeta in T.
  destruct (handleQuote _ e) as [evs e']. exact (proj1 T).
Defined.

Lemma accepted_order_trades_witness :
  fst (SubmitOrder 1 2 3 (LiveSample.buy []) (NewLiveEngine LiveSample.br DefaultExecutionConfig)) = Ok LiveSample.id
  /\ let '(evs, e) := live_run (H := sorted_order) LiveSample.ops (NewLiveEngine LiveSample.br DefaultExecutionConfig) in
     LiveSample.id ∈ trade_ids evs
     \/ exists o, orders (orderManager e) !! LiveSample.id = Some o
          /\ (forall q, LiveQuote.Symbol q = Order.Symbol o -> triggered q o = true ->
                LiveSample.id ∈ trade_ids (fst (handleQuote q e))).
Proof.
  assert (fst (SubmitOrder 1 2 3 (LiveSample.buy []) (NewLiveEngine LiveSample.br DefaultExecutionConfig))
          = Ok LiveSample.id) as Hs by (vm_compute; reflexivity).
  split; [exact Hs|].
  destruct (SubmitOrder 1 2 3 (LiveSample.buy []) (NewLiveEngine LiveSample.br DefaultExecutionConfig)) as [r e1] eqn:E.
  simpl in Hs. subst r. assert (sim_ready 2 LiveSample.br) as Hr by (split; [discriminate|reflexivity]).
  exact (accepted_order_trades (H := sorted_order) LiveSample.br DefaultExecutionConfig []
           [OpQuote (LiveSample.quote 11)] 1 2 3 (LiveSample.buy []) LiveSample.id e1
           Hr E eq_refl).
Defined.

(** An order cancelled between the snapshot and the fill. *)
Lemma stale_order_trades_again_witness :
  let e1 := snd (live_run (H := sorted_order) LiveSample.ops (NewLiveEngine LiveSample.br DefaultExecutionConfig)) in
  let '(r, e2) := CancelOrder LiveSample.id e1 in
  r = Ok tt /\ trade_ids (fst (tryFillOrder (LiveSample.buy LiveSample.id) (LiveSample.quote 9) e2)) = [LiveSample.id].
Proof.
  intros e1. destruct (CancelOrder LiveSample.id e1) as [r e2] eqn:E. split.
  - change r with (fst (r, e2)). rewrite <- E. vm_compute. reflexivity.
  - pose proof (stale_order_trades_again (LiveSample.quote 9) (LiveSample.buy LiveSample.id) e2
                  ltac:(vm_compute; reflexivity)) as T.
    destruct (tryFillOrder _ _ e2) as [evs e3]. exact (proj1 T).
Defined.

Lemma second_stop_panics_witness :
  let e1 := snd (Start None (NewLiveEngine LiveSample.br DefaultExecutionConfig)) in
  let e2 := snd (Stop None e1) in
  let e3 := snd (Start None e2) in
  fst (Stop None e1) = Stopped None /\ fst (Start None e2) = Ok tt /\ fst (Stop None e3) = StopPanics.
Proof.
  intros e1 e2 e3. split; [reflexivity|]. split; [reflexivity|].
  exact (proj2 (second_stop_panics LiveSample.br DefaultExecutionConfig None None None None e1 e2 e3 (Stopped None)
                  eq_refl eq_refl eq_refl)).
Defined.
