(* ===== verification/LiveThreads.v ===== *)
(** * LiveThreads: the live engine under concurrent goroutines

    [LiveEngine] has one definition per function of the source, as if it ran
    alone. Here the same functions are cut at their locks: a goroutine is a
    stack of tasks, each of which is one critical section of the order
    manager or the position manager or one call of the broker, and a
    schedule interleaves the goroutines task by task. A quote handler works
    on a snapshot of the pending orders taken without holding the lock, and
    the data feed may start handlers in goroutines of their own
    ([data_feed.go], [SetQuote]). *)

From stdpp Require Import base list strings gmap sorting.
From Stdlib Require Import ZArith Lia Ascii.
From S2P Require Import Prelude GoMap GoFloat Domain MarketRules ExecCost LiveEngine LiveProps.

Open Scope Z_scope.

(** ** Tasks *)

Inductive task :=
| TSubmit (now nanos seq : Z) (order : Order.t)   (** validate, then call the broker *)
| TSave (order : Order.t)                         (** [saveOrder] *)
| TPend (id : bytes)                              (** [addPending] *)
| TCancel (id : bytes)                            (** [GetOrder] of a cancellation *)
| TBrokerCancel (id : bytes) (order : Order.t)
| TUnpend (id : bytes)                            (** [removePending] *)
| TSync                                           (** the snapshot of [syncOrderStatus] *)
| TPoll (id : bytes)
| TStatus (id status : bytes)                     (** [UpdateOrderStatus] of a poll *)
| TQuote (q : LiveQuote.t)                        (** the snapshot of [handleQuote] *)
| TTry (q : LiveQuote.t) (order : Order.t)        (** [tryFillOrder] up to its decision *)
| TFill (q : LiveQuote.t) (order : Order.t)       (** its [UpdateOrderStatus] *)
| TBook (q : LiveQuote.t) (order : Order.t)       (** its [UpdateFromTrade] and callbacks *)
| TTick (feed : bytes -> option LiveQuote.t)      (** the snapshot of [updatePortfolio] *)
| TMark (feed : bytes -> option LiveQuote.t) (symbol : bytes).

(** The order a quote handler still works on. *)
Definition quote_order (t : task) : option Order.t :=
  match t with TTry _ o | TFill _ o | TBook _ o => Some o | _ => None end.

(** How a goroutine begins. *)
Definition entry (op : live_op) : task :=
  match op with
  | OpSubmit now nanos seq order => TSubmit now nanos seq order
  | OpCancel id => TCancel id
  | OpQuote q => TQuote q
  | OpSync => TSync
  | OpTick feed => TTick feed
  end.

Section Threads.
Context {B : Type} `{!Broker B} `{!MapOrder}.
Implicit Types e : LiveEngine B.

(** The task of [SubmitOrder] up to the answer of the broker. *)
Definition submit_task (now nanos seq : Z) (order : Order.t) (e : LiveEngine B) : list task * LiveEngine B :=
  match validateOrderShape order, cage_check order (orderManager e) with
  | Ok _, Ok _ =>
      let order := with_time now (with_status (lit "pending") (with_id (generateOrderID nanos seq) order)) in
      match BrokerSubmit now order (broker e) with
      | (Err _, br) => ([TSave (with_status (lit "rejected") order)], set_both (orderManager e, br) e)
      | (Ok brokerID, br) =>
          let order := if bool_decide (brokerID = []) then order else with_id brokerID order in
          let order := with_status (lit "submitted") order in
          ([TSave order; TPend (Order.ID order)], set_both (orderManager e, br) e)
      end
  | _, _ => ([], e)
  end.

Definition cancel_task (id : bytes) (e : LiveEngine B) : list task :=
  match orders (orderManager e) !! id with
  | None => []
  | Some order =>
      if negb (bool_decide (Order.Status order = lit "pending") || bool_decide (Order.Status order = lit "submitted"))
      then [] else [TBrokerCancel id order]
  end.

Definition broker_cancel_task (id : bytes) (order : Order.t) (e : LiveEngine B) : list task * LiveEngine B :=
  match BrokerCancel id (broker e) with
  | (Some _, br) => ([], set_both (orderManager e, br) e)
  | (None, br) => ([TSave (with_status (lit "cancelled") order); TUnpend id], set_both (orderManager e, br) e)
  end.

Definition poll_task (id : bytes) (e : LiveEngine B) : list task :=
  match GetOrderStatus id (broker e) with Err _ => [] | Ok status => [TStatus id status] end.

Definition try_task (q : LiveQuote.t) (order : Order.t) (e : LiveEngine B) : list task * LiveEngine B :=
  let '(order, om) :=
    if bool_decide (Order.OrderType order = OrderTypeTrailing)
    then updateTrailingHWM order q (orderManager e) else (order, orderManager e) in
  (if negb (shouldFill order q) then [] else [TFill q order], set_manager om e).

Definition book_task (q : LiveQuote.t) (order : Order.t) (e : LiveEngine B) : list engine_event * LiveEngine B :=
  let fillPrice := computeFillPrice order q in
  let trade := trade_of (config e) order fillPrice q in
  ([EvOrderUpdate (with_fill (Order.Quantity order) fillPrice order); EvTrade (Order.ID order) trade],
   set_book (UpdateFromTrade trade (positionManager e)) e).

(** One task: the events it emits, what its goroutine does next, and the
    engine it leaves. *)
Definition task_step (t : task) (e : LiveEngine B) : list engine_event * list task * LiveEngine B :=
  let om := orderManager e in
  match t with
  | TSubmit now nanos seq order => let '(k, e) := submit_task now nanos seq order e in ([], k, e)
  | TSave order => ([], [], set_manager (saveOrder order om) e)
  | TPend id => ([], [], set_manager (addPending id om) e)
  | TCancel id => ([], cancel_task id e, e)
  | TBrokerCancel id order => let '(k, e) := broker_cancel_task id order e in ([], k, e)
  | TUnpend id => ([], [], set_manager (removePending id om) e)
  | TSync => ([], map TPoll (pending om), e)
  | TPoll id => ([], poll_task id e, e)
  | TStatus id status => ([], [], set_manager (UpdateOrderStatus id status om) e)
  | TQuote q => ([], map (TTry q) (quote_orders q om), e)
  | TTry q order => let '(k, e) := try_task q order e in ([], k, e)
  | TFill q order => ([], [TBook q order], set_manager (UpdateOrderStatus (Order.ID order) (lit "filled") om) e)
  | TBook q order => let '(evs, e) := book_task q order e in (evs, [], e)
  | TTick feed => ([], map (fun x => TMark feed (Position.Symbol x.2)) (range 0 (positionManager e)), e)
  | TMark feed symbol => ([], [], set_book (mark_step feed (positionManager e) symbol) e)
  end.

(** ** Schedules *)

Record system := MkSystem {
  sy_engine : LiveEngine B;
  sy_threads : list (list task);
  sy_events : list engine_event
}.

(** A new goroutine, or one task of a running one. *)
Inductive choice := Spawn (op : live_op) | Run (i : nat).

(** Some quote handler has orders left to try. *)
Definition quoting (threads : list (list task)) : bool :=
  existsb (fun t => bool_decide (is_Some (quote_order t))) (concat threads).

(** With [serial], a quote waits until the handler before it has finished, as
    in the feed's own loop, which calls the handler itself. *)
Definition waits (serial : bool) (t : task) (threads : list (list task)) : bool :=
  match t with TQuote _ => serial && quoting threads | _ => false end.

Definition sched_step (serial : bool) (s : system) (c : choice) : system :=
  match c with
  | Spawn op => MkSystem (sy_engine s) (sy_threads s ++ [[entry op]]) (sy_events s)
  | Run i =>
      match sy_threads s !! i with
      | Some (t :: rest) =>
          if waits serial t (sy_threads s) then s
          else let '(new, k, e) := task_step t (sy_engine s) in
               MkSystem e (<[i := k ++ rest]> (sy_threads s)) (sy_events s ++ new)
      | _ => s
      end
  end.

Definition run_sched (serial : bool) (choices : list choice) (s : system) : system :=
  foldl (sched_step serial) s choices.
End Threads.
Arguments system B : clear implicits.

(** ** Operations that run alone

    A goroutine whose tasks are not interrupted does what the function of
    [LiveEngine] does, so that the runs of [LiveProps] are the schedules
    that finish each goroutine before the next begins. *)

Section Alone.
Context {B : Type} `{!Broker B} `{!MapOrder}.
Variable threads : list (list task).

(** The last goroutine with tasks [k]. *)
Definition top (e : LiveEngine B) (k : list task) (evs : list engine_event) : system B :=
  MkSystem e (threads ++ [k]) evs.

Definition turns (n : nat) : list choice := replicate n (Run (length threads)).

(** Turns of the last goroutine alone lead from one to the other. *)
Definition leads (s s' : system B) : Prop := exists n, run_sched false (turns n) s = s'.

#[local] Instance leads_preorder : PreOrder leads.
Proof.
  split; [by exists 0%nat|]. intros s1 s2 s3 [n H1] [m H2]. exists (n + m)%nat.
  unfold run_sched, turns in *. by rewrite replicate_add, foldl_app, H1.
Qed.

Lemma leads_task t rest e evs :
  let '(new, k, e') := task_step t e in leads (top e (t :: rest) evs) (top e' (k ++ rest) (evs ++ new)).
Proof.
  destruct (task_step t e) as [[new k] e'] eqn:E. exists 1%nat.
  unfold run_sched, turns, top. cbn [replicate foldl sched_step sy_threads sy_engine sy_events].
  rewrite list_lookup_middle by done.
  assert (waits false t (threads ++ [t :: rest]) = false) as -> by (by destruct t).
  rewrite E. f_equal. by rewrite insert_app_r_alt, Nat.sub_diag by done.
Qed.

Lemma leads_silent t rest e evs k e' :
  task_step t e = ([], k, e') -> leads (top e (t :: rest) evs) (top e' (k ++ rest) evs).
Proof. intros E. pose proof (leads_task t rest e evs) as Hl. by rewrite E, app_nil_r in Hl. Qed.

Lemma submit_alone now nanos seq order e evs :
  leads (top e [TSubmit now nanos seq order] evs) (top (snd (SubmitOrder now nanos seq order e)) [] evs).
Proof.
  destruct (submit_task now nanos seq order e) as [k e'] eqn:Es.
  etransitivity; [eapply leads_silent; cbn; by rewrite Es|]. revert Es.
  unfold submit_task, SubmitOrder, ManagerSubmit.
  destruct (validateOrderShape order); [|intros [= <- <-]; destruct e; reflexivity].
  destruct (cage_check order (orderManager e)); [|intros [= <- <-]; destruct e; reflexivity]. cbv zeta.
  destruct (BrokerSubmit _ _ (broker e)) as [[id|err] br]; intros [= <- <-]; cbn [app].
  - etransitivity; [by eapply leads_silent|]. cbn [app]. etransitivity; [by eapply leads_silent|]. reflexivity.
  - etransitivity; [by eapply leads_silent|]. reflexivity.
Qed.

Lemma cancel_alone id e evs : leads (top e [TCancel id] evs) (top (snd (CancelOrder id e)) [] evs).
Proof.
  etransitivity; [by eapply leads_silent|]. unfold cancel_task, CancelOrder, ManagerCancel.
  destruct (orders (orderManager e) !! id) as [o|]; [|destruct e; reflexivity].
  destruct (negb _); [destruct e; reflexivity|]. cbn [app].
  destruct (broker_cancel_task id o e) as [k e'] eqn:Es.
  etransitivity; [eapply leads_silent; cbn; by rewrite Es|]. revert Es. unfold broker_cancel_task.
  destruct (BrokerCancel id (broker e)) as [[err|] br]; intros [= <- <-]; cbn [app]; [reflexivity|].
  etransitivity; [by eapply leads_silent|]. cbn [app]. etransitivity; [by eapply leads_silent|]. reflexivity.
Qed.

Lemma fills_alone q os : forall acc e evs,
  leads (top e (map (TTry q) os) (evs ++ acc))
    (let r := foldl (fill_step q) (acc, e) os in top (snd r) [] (evs ++ fst r)).
Proof.
  induction os as [|o os IH]; intros acc e evs; [reflexivity|]. cbn [map foldl].
  destruct (fill_step q (acc, e) o) as [acc' e'] eqn:Ef. etransitivity; [|apply IH].
  destruct (try_task q o e) as [k e1] eqn:Et.
  etransitivity; [eapply leads_silent; cbn; by rewrite Et|]. revert Et Ef. unfold try_task, fill_step, tryFillOrder.
  cbn [fst snd]. destruct (if bool_decide _ then _ else _) as [o1 om].
  destruct (shouldFill o1 q); cbn [negb]; intros [= <- <-]; cbv zeta; intros [= <- <-]; cbn [app].
  - etransitivity; [by eapply leads_silent|]. cbn [app]. rewrite app_assoc.
    exact (leads_task (TBook q o1) (map (TTry q) os)
      (set_manager (UpdateOrderStatus (Order.ID o1) (lit "filled") om) e) (evs ++ acc)).
  - by rewrite app_nil_r.
Qed.

Lemma quote_alone q e evs :
  leads (top e [TQuote q] evs) (let '(new, e') := handleQuote q e in top e' [] (evs ++ new)).
Proof.
  etransitivity; [by eapply leads_silent|]. pose proof (fills_alone q (quote_orders q (orderManager e)) [] e evs) as Hf.
  rewrite !app_nil_r in *. cbv zeta in Hf. fold (handleQuote q e) in Hf. by destruct (handleQuote q e).
Qed.

Lemma sync_alone e evs :
  leads (top e [TSync] evs) (top (set_both (syncOrderStatus (orderManager e, broker e)) e) [] evs).
Proof.
  etransitivity; [by eapply leads_silent|]. rewrite app_nil_r. unfold syncOrderStatus. cbn [fst snd].
  generalize (pending (orderManager e)). intros ids. revert e. induction ids as [|id ids IH]; intros e.
  { destruct e. reflexivity. }
  cbn [map foldl]. etransitivity; [by eapply leads_silent|].
  specialize (IH (set_manager (sync_one (broker e) (orderManager e) id) e)). etransitivity; [|exact IH].
  unfold poll_task, sync_one. destruct (GetOrderStatus id (broker e)) as [status|]; cbn [app];
    [by apply (leads_silent (TStatus id status) _ e evs [])|].
  destruct e. reflexivity.
Qed.

Lemma tick_alone feed e evs : leads (top e [TTick feed] evs) (top (updatePortfolio feed e) [] evs).
Proof.
  etransitivity; [by eapply leads_silent|]. rewrite app_nil_r. unfold updatePortfolio.
  generalize (range 0 (positionManager e)). intros l. revert e. induction l as [|x l IH]; intros e.
  { destruct e. reflexivity. }
  cbn [map foldl]. etransitivity; [by eapply leads_silent|]. cbn [app].
  exact (IH (set_book (mark_step feed (positionManager e) (Position.Symbol x.2)) e)).
Qed.

(** A goroutine that is not interrupted is the operation of [live_step]. *)
Theorem goroutine_alone op e evs :
  exists n, run_sched false (Spawn op :: turns n) (MkSystem e threads evs)
            = let '(evs', e') := live_step (evs, e) op in top e' [] evs'.
Proof.
  assert (Hl : leads (top e [entry op] evs) (let '(evs', e') := live_step (evs, e) op in top e' [] evs')).
  { destruct op as [now nanos seq o|id|q| |feed]; cbn [entry live_step].
    - apply submit_alone.
    - apply cancel_alone.
    - pose proof (quote_alone q e evs) as Hq. by destruct (handleQuote q e).
    - apply sync_alone.
    - apply tick_alone. }
  destruct Hl as [n Hn]. exists n. exact Hn.
Qed.
End Alone.

(** ** What every schedule keeps *)

(** What the client asked for. *)
Definition terms (o : Order.t) : bytes * Direction * OrderType * float64 * float64 * float64 * float64 * float64 :=
  (Order.Symbol o, Order.Direction o, Order.OrderType o, Order.Quantity o, Order.LimitPrice o, Order.StopPrice o,
   Order.TrailAmount o, Order.TrailPercent o).

Abbreviation terms_book := (gmap bytes (bytes * Direction * OrderType * float64 * float64 * float64 * float64 * float64)).

(** The identifiers on their way to the pending list, those a quote handler
    works on, and those it has taken off the list but not yet booked. *)
Definition pend_id (t : task) : option bytes := match t with TPend id => Some id | _ => None end.
Definition quote_id (t : task) : option bytes := Order.ID <$> quote_order t.
Definition book_id (t : task) : option bytes := match t with TBook _ o => Some (Order.ID o) | _ => None end.

Abbreviation pend_ids := (omap (M := list) pend_id).
Abbreviation quote_ids := (omap (M := list) quote_id).
Abbreviation book_ids := (omap (M := list) book_id).

Lemma book_quote ts id : id ∈ book_ids ts -> id ∈ quote_ids ts.
Proof.
  rewrite !list_elem_of_omap. intros (t & Ht & E). exists t. split; [done|].
  destruct t; try discriminate E. exact E.
Qed.

Section Booking.
Context {B : Type} `{!Broker B} `{!BrokerLaws B} `{!MapOrder}.
(** The orders the clients submit, and whether quotes wait for each other. *)
Variable subs : list Order.t.
Variable serial : bool.
Implicit Types (tm : terms_book) (br : B) (om : OrderManager) (ts : list task) (evs : list engine_event).

(** A copy of an order the broker numbered has the terms of that number. *)
Definition copy_ok tm br (o : Order.t) : Prop :=
  foreign (Order.ID o) -> issued br (Order.ID o) /\ tm !! Order.ID o = Some (terms o).

Definition working tm br om (o : Order.t) : Prop :=
  foreign (Order.ID o) /\ copy_ok tm br o /\ is_Some (orders om !! Order.ID o).

Definition task_ok tm br om (t : task) : Prop :=
  match t with
  | TSubmit _ _ _ o => o ∈ subs
  | TSave o | TBrokerCancel _ o => copy_ok tm br o
  | TPend id => issued br id /\ foreign id
  | TTry _ o => working tm br om o
  | TFill q o | TBook q o => working tm br om o /\ shouldFill o q = true
  | _ => True
  end.

Record sound tm br om ts evs : Prop := {
  sn_subs : forall id x, tm !! id = Some x -> issued br id /\ exists o, o ∈ subs /\ terms o = x;
  sn_records : forall id o, orders om !! id = Some o -> Order.ID o = id /\ copy_ok tm br o;
  sn_pending : forall id, id ∈ pending om -> issued br id /\ foreign id;
  sn_tasks : Forall (task_ok tm br om) ts;
  sn_updates : forall o, EvOrderUpdate o ∈ evs -> working tm br om o;
  sn_trades : forall id t, EvTrade id t ∈ evs ->
    exists o, EvOrderUpdate o ∈ evs /\ Order.ID o = id /\ trade_of_order t o
}.

Record placed om ts evs : Prop := {
  pl_once : NoDup (pending om ++ pend_ids ts);
  pl_early : forall id, id ∈ quote_ids ts -> id ∉ pend_ids ts;
  pl_gone : forall id, id ∈ trade_ids evs ++ book_ids ts -> id ∉ pending om ++ pend_ids ts;
  pl_single : serial = true -> NoDup (trade_ids evs ++ quote_ids ts)
}.

Lemma sound_perm tm br om ts ts' evs : ts ≡ₚ ts' -> sound tm br om ts evs -> sound tm br om ts' evs.
Proof. intros Hp [H1 H2 H3 H4 H5 H6]. constructor; auto. by rewrite <- Hp. Qed.

Lemma placed_perm om ts ts' evs : ts ≡ₚ ts' -> placed om ts evs -> placed om ts' evs.
Proof.
  intros Hp [H1 H2 H3 H4]. constructor.
  - by rewrite <- Hp.
  - intros id. rewrite <- Hp. apply H2.
  - intros id. rewrite <- Hp. apply H3.
  - by rewrite <- Hp.
Qed.

Lemma working_mono tm tm' br br' om om' o :
  (forall i, issued br i -> issued br' i) -> tm ⊆ tm' ->
  (forall id, is_Some (orders om !! id) -> is_Some (orders om' !! id)) ->
  working tm br om o -> working tm' br' om' o.
Proof.
  intros Hi Ht Hd (H1 & H2 & H3). split; [done|]. split; [|by apply Hd].
  intros Hf. destruct (H2 Hf). split; [by apply Hi|by eapply lookup_weaken].
Qed.

Lemma copy_ok_mono tm tm' br br' o :
  (forall i, issued br i -> issued br' i) -> tm ⊆ tm' -> copy_ok tm br o -> copy_ok tm' br' o.
Proof. intros Hi Ht H2 Hf. destruct (H2 Hf). split; [by apply Hi|by eapply lookup_weaken]. Qed.

Lemma task_ok_mono tm tm' br br' om om' t :
  (forall i, issued br i -> issued br' i) -> tm ⊆ tm' ->
  (forall id, is_Some (orders om !! id) -> is_Some (orders om' !! id)) ->
  task_ok tm br om t -> task_ok tm' br' om' t.
Proof.
  intros Hi Ht Hd. destruct t; simpl; try done; eauto using copy_ok_mono, working_mono.
  - intros [H1 H2]. split; [by apply Hi|done].
  - intros [H1 H2]. split; [by eapply working_mono|done].
  - intros [H1 H2]. split; [by eapply working_mono|done].
Qed.

(** A step that emits nothing. *)
Lemma sound_step tm tm' br br' om om' t others k evs :
  sound tm br om (t :: others) evs ->
  (forall i, issued br i -> issued br' i) -> tm ⊆ tm' ->
  (forall id x, tm' !! id = Some x -> issued br' id /\ exists o, o ∈ subs /\ terms o = x) ->
  (forall id o, orders om' !! id = Some o -> Order.ID o = id /\ copy_ok tm' br' o) ->
  (forall id, is_Some (orders om !! id) -> is_Some (orders om' !! id)) ->
  (forall id, id ∈ pending om' -> issued br' id /\ foreign id) ->
  Forall (task_ok tm' br' om') k ->
  sound tm' br' om' (k ++ others) evs.
Proof.
  intros [H1 H2 H3 H4 H5 H6] Hi Ht Hs Hr Hd Hp Hk. constructor; [done|done|done| | |done].
  - apply Forall_app. split; [done|]. apply Forall_cons in H4 as [_ H4].
    eapply Forall_impl; [exact H4|]. intros x. by apply task_ok_mono.
  - intros o Ho. eapply working_mono; eauto.
Qed.

(** The records change at most by one copy with the terms of its number. *)
Definition refiled tm br om om' : Prop :=
  orders om' = orders om \/ exists o, copy_ok tm br o /\ orders om' = <[Order.ID o := o]> (orders om).

Lemma refiled_records tm br om om' :
  (forall id o, orders om !! id = Some o -> Order.ID o = id /\ copy_ok tm br o) -> refiled tm br om om' ->
  (forall id o, orders om' !! id = Some o -> Order.ID o = id /\ copy_ok tm br o)
  /\ (forall id, is_Some (orders om !! id) -> is_Some (orders om' !! id)).
Proof.
  intros Hr [->|(o & Ho & ->)]; [by split|]. split.
  - intros id o'. destruct (decide (id = Order.ID o)) as [->|Hne].
    + rewrite lookup_insert_eq. by intros [= <-].
    + rewrite lookup_insert_ne by done. apply Hr.
  - intros id Hid. destruct (decide (id = Order.ID o)) as [->|Hne].
    + rewrite lookup_insert_eq. by eexists.
    + by rewrite lookup_insert_ne.
Qed.

(** A step of the order manager alone that emits nothing. *)
Lemma sound_local tm br om om' t others k evs :
  sound tm br om (t :: others) evs -> refiled tm br om om' ->
  (forall id, id ∈ pending om' -> issued br id /\ foreign id) ->
  (refiled tm br om om' -> (forall id, is_Some (orders om !! id) -> is_Some (orders om' !! id)) ->
   Forall (task_ok tm br om') k) ->
  sound tm br om' (k ++ others) evs.
Proof.
  intros Hs Hf Hp Hk. destruct (refiled_records tm br om om' (sn_records _ _ _ _ _ Hs) Hf) as [Hr Hd].
  eapply sound_step; eauto. apply (sn_subs _ _ _ _ _ Hs).
Qed.

(** *** Where the identifiers are *)

(** Tasks that carry no identifier to the pending list nor work on a quote. *)
Definition quiet (t : task) : Prop := pend_id t = None /\ quote_id t = None.

Lemma quiet_ids ts : Forall quiet ts -> pend_ids ts = [] /\ quote_ids ts = [] /\ book_ids ts = [].
Proof.
  induction 1 as [|t ts [H1 H2] _ (IH1 & IH2 & IH3)]; [done|]. cbn. rewrite H1, H2, IH1, IH2, IH3.
  by destruct t.
Qed.

Lemma placed_quiet om om' t others k evs :
  placed om (t :: others) evs -> quiet t -> Forall quiet k -> sublist (pending om') (pending om) ->
  placed om' (k ++ others) evs.
Proof.
  intros [H1 H2 H3 H4] Ht Hk Hs.
  destruct (quiet_ids [t]) as (E1 & E2 & E3); [by constructor|]. destruct (quiet_ids k Hk) as (F1 & F2 & F3).
  change (t :: others) with ([t] ++ others) in *.
  rewrite !omap_app, E1, ?E2, ?E3 in H1. setoid_rewrite omap_app in H2. rewrite E1, E2 in H2.
  setoid_rewrite omap_app in H3. rewrite E1, E3 in H3. rewrite omap_app, E2 in H4. cbn [app] in *.
  constructor; rewrite ?omap_app, ?F1, ?F2, ?F3; cbn [app].
  - eapply sublist_NoDup; [exact H1|]. by apply sublist_app.
  - exact H2.
  - intros id Hid Hin. apply (H3 id Hid). rewrite elem_of_app in *. destruct Hin as [Hin|Hin]; [|by right].
    left. by eapply elem_of_sublist.
  - exact H4.
Qed.

Lemma remove_first_sublist id l : sublist (remove_first id l) l.
Proof. induction l as [|x l IH]; simpl; [done|]. case_bool_decide; by constructor. Qed.

(** The broker knows every identifier in use. *)
Lemma used_issued tm br om ts evs id :
  sound tm br om ts evs -> id ∈ pending om ++ pend_ids ts \/ id ∈ quote_ids ts \/ id ∈ trade_ids evs -> issued br id.
Proof.
  intros [_ _ H3 H4 H5 H6]. rewrite Forall_forall in H4. rewrite elem_of_app. intros [[Hp|Hp]|[Hq|Ht]].
  - by apply H3.
  - apply list_elem_of_omap in Hp as (t & Ht & E). destruct t; try discriminate E. injection E as ->.
    by apply (H4 _ Ht).
  - apply list_elem_of_omap in Hq as (t & Ht & E). specialize (H4 _ Ht).
    destruct t; try discriminate E; injection E as <-; cbn in H4; [|destruct H4 as [H4 _]..];
      destruct H4 as (Hf & Hc & _); by apply Hc.
  - apply trade_ids_elem in Ht as (t & Ht). destruct (H6 _ _ Ht) as (o & Ho & <- & _).
    destruct (H5 _ Ho) as (Hf & Hc & _). by apply Hc.
Qed.

(** A new order: its number is nowhere in use. *)
Lemma placed_submit om t others evs o id :
  placed om (t :: others) evs -> quiet t ->
  (forall i, i ∈ pending om ++ pend_ids others \/ i ∈ quote_ids others \/ i ∈ trade_ids evs -> i <> id) ->
  placed om ([TSave o; TPend id] ++ others) evs.
Proof.
  intros Hp Ht Hnew. destruct (placed_quiet om om t others [] evs Hp Ht ltac:(constructor) ltac:(done)) as [H1 H2 H3 H4].
  cbn [app] in *. constructor; cbn.
  - apply NoDup_app in H1 as (N1 & N2 & N3). apply NoDup_app. split; [done|]. split.
    + intros x Hx. apply not_elem_of_cons. split; [|by apply N2].
      apply Hnew. left. apply elem_of_app. by left.
    + apply NoDup_cons. split; [|done]. intros Hin. apply (Hnew id); [|done]. left. apply elem_of_app. by right.
  - intros x Hx. apply not_elem_of_cons. split; [|by apply H2]. apply Hnew. by right; left.
  - intros x Hx Hin. rewrite elem_of_app, elem_of_cons in Hin. destruct Hin as [Hin|[->|Hin]].
    + apply (H3 x Hx). apply elem_of_app. by left.
    + apply elem_of_app in Hx as [Hx|Hx]; [by eapply Hnew; [right; right; exact Hx|]|].
      eapply Hnew; [right; left; by apply book_quote|done].
    + apply (H3 x Hx). apply elem_of_app. by right.
  - exact H4.
Qed.

Lemma placed_pend om others evs id :
  placed om (TPend id :: others) evs -> placed (addPending id om) others evs.
Proof.
  intros [H1 H2 H3 H4]. cbn in *. constructor; cbn.
  - by rewrite <- app_assoc.
  - intros x Hx. specialize (H2 x Hx). by apply not_elem_of_cons in H2 as [_ H2].
  - intros x Hx. specialize (H3 x Hx). by rewrite <- app_assoc.
  - exact H4.
Qed.

Lemma try_ids q os : pend_ids (map (TTry q) os) = [] /\ quote_ids (map (TTry q) os) = map Order.ID os
  /\ book_ids (map (TTry q) os) = [].
Proof. induction os as [|o os (IH1 & IH2 & IH3)]; [done|]. cbn. by rewrite IH1, IH2, IH3. Qed.

(** A snapshot has pending orders of different numbers. *)
Lemma snapshot_ids q om :
  (forall id o, orders om !! id = Some o -> Order.ID o = id) ->
  sublist (map Order.ID (quote_orders q om)) (pending om).
Proof.
  intros Hk. unfold quote_orders, GetPendingOrders. induction (pending om) as [|id l IH]; [done|]. cbn.
  destruct (orders om !! id) as [o|] eqn:E; [|by constructor]. cbn. case_bool_decide; [|by constructor].
  cbn. rewrite (Hk _ _ E). by constructor.
Qed.

Lemma placed_quote q om others evs :
  (forall id o, orders om !! id = Some o -> Order.ID o = id) ->
  placed om (TQuote q :: others) evs -> (serial = true -> quote_ids others = []) ->
  placed om (map (TTry q) (quote_orders q om) ++ others) evs.
Proof.
  intros Hk [H1 H2 H3 H4] Hser. cbn in *. pose proof (snapshot_ids q om Hk) as Hs.
  destruct (try_ids q (quote_orders q om)) as (E1 & E2 & E3).
  assert (Hin : forall x, x ∈ map Order.ID (quote_orders q om) -> x ∈ pending om)
    by (intros x Hx; by eapply elem_of_sublist).
  constructor; rewrite ?omap_app, ?E1, ?E2, ?E3; cbn [app].
  - exact H1.
  - intros x Hx. apply elem_of_app in Hx as [Hx|Hx]; [|by apply H2].
    apply NoDup_app in H1 as (_ & N2 & _). apply N2. by apply Hin.
  - exact H3.
  - intros Hb. rewrite (Hser Hb), app_nil_r. specialize (H4 Hb). rewrite (Hser Hb), app_nil_r in H4.
    apply NoDup_app. split; [done|]. split.
    + intros x Hx Hx'. apply (H3 x); [apply elem_of_app; by left|]. apply elem_of_app. left. by apply Hin.
    + eapply sublist_NoDup; [|exact Hs]. by apply NoDup_app in H1 as (N1 & _).
Qed.

Lemma placed_try q om om' o k others evs :
  placed om (TTry q o :: others) evs -> pending om' = pending om ->
  (k = [] \/ exists o', k = [TFill q o'] /\ Order.ID o' = Order.ID o) ->
  placed om' (k ++ others) evs.
Proof.
  intros [H1 H2 H3 H4] Hp Hk. cbn in *.
  assert (Hids : pend_ids k = [] /\ book_ids k = [] /\ sublist (quote_ids k) [Order.ID o]).
  { destruct Hk as [->|(o' & -> & E)]; cbn; [split_and!; try done; by constructor|].
    unfold quote_id. cbn. by rewrite E. }
  destruct Hids as (E1 & E2 & E3). constructor; rewrite ?omap_app, ?E1, ?E2, ?Hp; cbn [app]; [done| |done|].
  - intros x Hx. apply H2. change (Order.ID o :: quote_ids others) with ([Order.ID o] ++ quote_ids others).
    eapply elem_of_sublist; [exact Hx|]. by apply sublist_app.
  - intros Hb. eapply sublist_NoDup; [by apply H4|]. apply sublist_app; [done|].
    change (Order.ID o :: quote_ids others) with ([Order.ID o] ++ quote_ids others). by apply sublist_app.
Qed.

Lemma placed_fill q om om' o others evs :
  placed om (TFill q o :: others) evs -> pending om' = remove_first (Order.ID o) (pending om) ->
  placed om' (TBook q o :: others) evs.
Proof.
  intros [H1 H2 H3 H4] Hp. cbn in *.
  assert (Hs : sublist (pending om' ++ pend_ids others) (pending om ++ pend_ids others))
    by (rewrite Hp; apply sublist_app; [apply remove_first_sublist|done]).
  constructor; cbn.
  - by eapply sublist_NoDup.
  - exact H2.
  - intros x Hx Hin. rewrite elem_of_app, elem_of_cons in Hx.
    assert (Hx' : x = Order.ID o \/ x ∈ trade_ids evs ++ book_ids others) by (rewrite elem_of_app; tauto).
    destruct Hx' as [->|Hx']; [|apply (H3 x Hx'); exact (elem_of_sublist _ _ _ Hin Hs)].
    apply elem_of_app in Hin as [Hin|Hin]; [|by apply (H2 (Order.ID o)); [left|]].
    rewrite Hp in Hin. apply NoDup_app in H1 as (N1 & _). by destruct (remove_first_NoDup (Order.ID o) _ N1) as [_ N1'].
  - exact H4.
Qed.

Lemma placed_book q om o others evs new :
  placed om (TBook q o :: others) evs -> trade_ids new = [Order.ID o] -> placed om others (evs ++ new).
Proof.
  intros [H1 H2 H3 H4] Hn. cbn in *.
  assert (Hev : trade_ids (evs ++ new) = trade_ids evs ++ [Order.ID o])
    by (unfold trade_ids in *; by rewrite omap_app, Hn).
  constructor; rewrite ?Hev, <- ?app_assoc; cbn [app]; [done| |done|done].
  intros x Hx. apply H2. by right.
Qed.

(** *** Every task keeps both *)

Lemma status_refiled tm br om id status :
  (forall id o, orders om !! id = Some o -> Order.ID o = id /\ copy_ok tm br o) ->
  refiled tm br om (UpdateOrderStatus id status om)
  /\ sublist (pending (UpdateOrderStatus id status om)) (pending om).
Proof.
  intros Hr. unfold UpdateOrderStatus. destruct (orders om !! id) as [o|] eqn:E; [|split; [by left|done]].
  destruct (Hr _ _ E) as [<- Hc]. cbv zeta. split.
  - right. exists (with_status status o). split; [exact Hc|]. by destruct (settles status).
  - destruct (settles status); [apply remove_first_sublist|done].
Qed.

Lemma filled_pending om id :
  is_Some (orders om !! id) ->
  pending (UpdateOrderStatus id (lit "filled") om) = remove_first id (pending om).
Proof. intros [o E]. unfold UpdateOrderStatus. by rewrite E. Qed.

(** The mark of a trailing order moves, its number and terms do not. *)
Lemma ratchet_refiled tm br om q o o1 om1 :
  working tm br om o ->
  (if bool_decide (Order.OrderType o = OrderTypeTrailing) then updateTrailingHWM o q om else (o, om)) = (o1, om1) ->
  refiled tm br om om1 /\ pending om1 = pending om /\ Order.ID o1 = Order.ID o /\ terms o1 = terms o.
Proof.
  intros ((Hne & _) & Hc & _) E. case_bool_decide; [|injection E as <- <-; by split_and!; [left|..]].
  unfold updateTrailingHWM in E. destruct (trailingHWM o q) as [h|]; injection E as <- <-; [|by split_and!; [left|..]].
  split_and!; [|done..]. right. exists (with_mark h o). split; [exact Hc|].
  unfold UpdateOrder. cbn. by rewrite bool_decide_false.
Qed.

Lemma pending_kept tm br om ts evs om' :
  sound tm br om ts evs -> sublist (pending om') (pending om) ->
  forall id, id ∈ pending om' -> issued br id /\ foreign id.
Proof. intros Hs Hsub id Hid. apply (sn_pending _ _ _ _ _ Hs). by eapply elem_of_sublist. Qed.

(** A step of the broker alone. *)
Lemma sound_broker tm br br' om t others k evs :
  sound tm br om (t :: others) evs -> (forall i, issued br i -> issued br' i) ->
  Forall (task_ok tm br' om) k -> sound tm br' om (k ++ others) evs.
Proof.
  intros Hs Hi Hk. eapply sound_step; [exact Hs|exact Hi|done| | |done| |exact Hk].
  - intros id x E. destruct (sn_subs _ _ _ _ _ Hs _ _ E). split; [by apply Hi|done].
  - intros id o E. destruct (sn_records _ _ _ _ _ Hs _ _ E). split; [done|]. by eapply copy_ok_mono.
  - intros id Hid. destruct (sn_pending _ _ _ _ _ Hs _ Hid). split; [by apply Hi|done].
Qed.

Lemma submit_step n tm others evs e now nanos seq order k e' :
  sound tm (broker e) (orderManager e) (TSubmit now nanos seq order :: others) evs ->
  placed (orderManager e) (TSubmit now nanos seq order :: others) evs -> ready (S n) (broker e) ->
  submit_task now nanos seq order e = (k, e') ->
  exists tm', sound tm' (broker e') (orderManager e') (k ++ others) evs
    /\ placed (orderManager e') (k ++ others) evs /\ ready n (broker e').
Proof.
  intros Hs Hp Hr. assert (Hnone : exists tm', sound tm' (broker e) (orderManager e) ([] ++ others) evs
    /\ placed (orderManager e) ([] ++ others) evs /\ ready n (broker e)).
  { exists tm. split; [eapply sound_broker; [exact Hs|done|constructor]|]. split; [|by apply ready_less].
    by eapply placed_quiet; [exact Hp|done|constructor|]. }
  unfold submit_task.
  destruct (validateOrderShape order); [|by intros [= <- <-]].
  destruct (cage_check order (orderManager e)); [|by intros [= <- <-]]. cbv zeta. set (ord := with_time _ _).
  pose proof (sn_tasks _ _ _ _ _ Hs) as Hsub. apply Forall_cons in Hsub as [Hsub _]. cbn in Hsub.
  destruct (BrokerSubmit now ord (broker e)) as [[id|err] br] eqn:E;
    destruct (submit_law n _ _ _ _ _ Hr E) as (Hr' & Hi & Hid); intros [= <- <-]; cbn [broker orderManager set_both fst snd].
  - destruct (Hid id eq_refl) as (Hne & Hfresh & Hiss & Hpre). rewrite bool_decide_false by done.
    set (o := with_status _ _). change (Order.ID o) with id.
    assert (Hnew : tm !! id = None).
    { destruct (tm !! id) as [x|] eqn:Ex; [|done]. by destruct (sn_subs _ _ _ _ _ Hs _ _ Ex). }
    assert (Hinc : tm ⊆ <[id := terms order]> tm) by (by apply insert_subseteq).
    exists (<[id := terms order]> tm). split; [|split; [|exact Hr']].
    + eapply sound_step; [exact Hs|exact Hi|exact Hinc| | |done| |].
      * intros i x. destruct (decide (i = id)) as [->|Hn].
        -- rewrite lookup_insert_eq. intros [= <-]. split; [done|]. by exists order.
        -- rewrite lookup_insert_ne by done. intros Ex. destruct (sn_subs _ _ _ _ _ Hs _ _ Ex).
           split; [by apply Hi|done].
      * intros i x Ex. destruct (sn_records _ _ _ _ _ Hs _ _ Ex). split; [done|]. by eapply copy_ok_mono.
      * intros i Hin. destruct (sn_pending _ _ _ _ _ Hs _ Hin). split; [by apply Hi|done].
      * apply Forall_cons. split; [|apply Forall_singleton; done].
        intros _. split; [done|]. change (Order.ID o) with id. by rewrite lookup_insert_eq.
    + eapply placed_submit; [exact Hp|done|]. intros i Hin ->. apply Hfresh.
      eapply used_issued; [exact Hs|]. exact Hin.
  - exists tm. split; [|split; [|exact Hr']].
    + eapply sound_broker; [exact Hs|exact Hi|]. apply Forall_singleton. intros Hf.
      by destruct (generateOrderID_own nanos seq Hf).
    + eapply placed_quiet; [exact Hp|done|by apply Forall_singleton|done].
Qed.

Lemma book_step tm others evs e q o new e' :
  sound tm (broker e) (orderManager e) (TBook q o :: others) evs ->
  placed (orderManager e) (TBook q o :: others) evs ->
  book_task q o e = (new, e') ->
  sound tm (broker e') (orderManager e') others (evs ++ new) /\ placed (orderManager e') others (evs ++ new).
Proof.
  intros [H1 H2 H3 H4 H5 H6] Hp. unfold book_task. cbv zeta. intros [= <- <-].
  apply Forall_cons in H4 as [[Hw Hf] H4]. cbn [broker orderManager set_book]. split; [|by eapply placed_book].
  constructor; [done|done|done|done| |].
  - intros o'. rewrite elem_of_app, !elem_of_cons. intros [Ho|[Ho|[Ho|Ho]]];
      [by apply H5|injection Ho as ->; exact Hw|discriminate Ho|by apply not_elem_of_nil in Ho].
  - intros id t. rewrite elem_of_app, !elem_of_cons. intros [Ho|[Ho|[Ho|Ho]]].
    + destruct (H6 _ _ Ho) as (o' & Ho' & Hid & Ht). exists o'. rewrite elem_of_app. auto.
    + discriminate Ho.
    + injection Ho as -> ->. eexists. rewrite elem_of_app, elem_of_cons. split; [by right; left|].
      split; [done|]. split_and!; [done|done|done|]. exact (proj2 (triggered_price _ _ Hf)).
    + by apply not_elem_of_nil in Ho.
Qed.

Lemma quiet_step tm others evs e t k om' :
  sound tm (broker e) (orderManager e) (t :: others) evs -> placed (orderManager e) (t :: others) evs ->
  quiet t -> Forall quiet k -> refiled tm (broker e) (orderManager e) om' ->
  sublist (pending om') (pending (orderManager e)) -> Forall (task_ok tm (broker e) om') k ->
  sound tm (broker e) om' (k ++ others) evs /\ placed om' (k ++ others) evs.
Proof.
  intros Hs Hp Ht Hk Hf Hsub Hok. split; [|by eapply placed_quiet].
  eapply sound_local; [exact Hs|exact Hf|by eapply pending_kept|done].
Qed.

Lemma quote_step tm others evs e q :
  sound tm (broker e) (orderManager e) (TQuote q :: others) evs ->
  placed (orderManager e) (TQuote q :: others) evs -> (serial = true -> quote_ids others = []) ->
  let k := map (TTry q) (quote_orders q (orderManager e)) in
  sound tm (broker e) (orderManager e) (k ++ others) evs /\ placed (orderManager e) (k ++ others) evs.
Proof.
  intros Hs Hp Hser k. pose proof (sn_records _ _ _ _ _ Hs) as Hr. split.
  - eapply sound_local; [exact Hs|by left|apply (sn_pending _ _ _ _ _ Hs)|]. intros _ _.
    apply Forall_forall. intros t Ht. apply list_elem_of_fmap in Ht as (o & -> & Ho).
    unfold quote_orders, GetPendingOrders in Ho. apply list_elem_of_In, filter_In in Ho as [Ho _].
    apply list_elem_of_In, list_elem_of_omap in Ho as (id & Hid & Eo). destruct (Hr _ _ Eo) as [<- Hc].
    destruct (sn_pending _ _ _ _ _ Hs _ Hid) as [_ Hf]. split; [done|]. split; [done|]. by exists o.
  - apply placed_quote; [|done|done]. intros id o Eo. by apply Hr.
Qed.

Lemma try_step tm others evs e q o k e' :
  sound tm (broker e) (orderManager e) (TTry q o :: others) evs ->
  placed (orderManager e) (TTry q o :: others) evs -> try_task q o e = (k, e') ->
  sound tm (broker e') (orderManager e') (k ++ others) evs /\ placed (orderManager e') (k ++ others) evs
  /\ broker e' = broker e.
Proof.
  intros Hs Hp. pose proof (sn_tasks _ _ _ _ _ Hs) as Hw. apply Forall_cons in Hw as [Hw _]. cbn in Hw.
  unfold try_task. destruct (if bool_decide _ then _ else _) as [o1 om1] eqn:E.
  destruct (ratchet_refiled tm (broker e) _ q o o1 om1 Hw E) as (Hf & Hpe & Hi & Ht).
  intros [= <- <-]. cbn [broker orderManager set_manager]. split_and!; [| |done].
  - eapply sound_local; [exact Hs|exact Hf| |].
    + eapply pending_kept; [exact Hs|]. by rewrite Hpe.
    + intros _ Hd. destruct (shouldFill o1 q) eqn:Ef; cbn [negb]; [|constructor]. apply Forall_singleton.
      split; [|done]. destruct Hw as (W1 & W2 & W3). unfold working, copy_ok. rewrite Hi, Ht.
      split; [done|]. split; [done|]. by apply Hd.
  - eapply placed_try; [exact Hp|exact Hpe|]. destruct (shouldFill o1 q); cbn [negb]; [right; by exists o1|by left].
Qed.

Lemma fill_step_keeps tm others evs e q o :
  sound tm (broker e) (orderManager e) (TFill q o :: others) evs ->
  placed (orderManager e) (TFill q o :: others) evs ->
  let om' := UpdateOrderStatus (Order.ID o) (lit "filled") (orderManager e) in
  sound tm (broker e) om' ([TBook q o] ++ others) evs /\ placed om' ([TBook q o] ++ others) evs.
Proof.
  intros Hs Hp om'. pose proof (sn_tasks _ _ _ _ _ Hs) as Hw. apply Forall_cons in Hw as [[Hw Hf] _].
  destruct (status_refiled tm (broker e) _ (Order.ID o) (lit "filled") (sn_records _ _ _ _ _ Hs)) as [Hre Hsub].
  split.
  - eapply sound_local; [exact Hs|exact Hre|by eapply pending_kept|]. intros _ Hd. apply Forall_singleton.
    split; [|done]. by eapply working_mono; [| | |exact Hw].
  - eapply placed_fill; [exact Hp|]. apply filled_pending. by destruct Hw as (_ & _ & ?).
Qed.

Lemma task_step_keeps n tm t others evs e new k e' :
  sound tm (broker e) (orderManager e) (t :: others) evs -> placed (orderManager e) (t :: others) evs ->
  ready (S n) (broker e) -> (forall q, t = TQuote q -> serial = true -> quote_ids others = []) ->
  task_step t e = (new, k, e') ->
  exists tm', sound tm' (broker e') (orderManager e') (k ++ others) (evs ++ new)
    /\ placed (orderManager e') (k ++ others) (evs ++ new) /\ ready n (broker e').
Proof.
  intros Hs Hp Hr Hser E. pose proof (ready_less _ _ Hr) as Hr'.
  pose proof (sn_records _ _ _ _ _ Hs) as Hrec. pose proof (sn_tasks _ _ _ _ _ Hs) as Hok.
  apply Forall_cons in Hok as [Hok _].
  assert (Hquiet : quiet t -> new = [] -> broker e' = broker e -> Forall quiet k ->
    refiled tm (broker e) (orderManager e) (orderManager e') ->
    sublist (pending (orderManager e')) (pending (orderManager e)) ->
    Forall (task_ok tm (broker e) (orderManager e')) k ->
    exists tm', sound tm' (broker e') (orderManager e') (k ++ others) (evs ++ new)
      /\ placed (orderManager e') (k ++ others) (evs ++ new) /\ ready n (broker e')).
  { intros Q1 -> -> Q2 Q3 Q4 Q5. rewrite app_nil_r. exists tm.
    destruct (quiet_step tm others evs e t k (orderManager e')) as [? ?]; auto. }
  destruct t as [now nanos seq o|o|id|id|id o|id| |id|id st|q|q o|q o|q o|feed|feed sym]; cbn [task_step] in E.
  - destruct (submit_task now nanos seq o e) as [k' e1] eqn:Es. injection E as <- <- <-. rewrite app_nil_r.
    by eapply submit_step.
  - injection E as <- <- <-. apply Hquiet; [done|done|done|constructor| |done|constructor].
    right. by exists o.
  - injection E as <- <- <-. rewrite app_nil_r. exists tm. cbn in Hok.
    split_and!; [|by apply placed_pend|done]. eapply (sound_local _ _ _ _ _ _ []); [exact Hs|by left| |constructor].
    cbn. intros x. rewrite elem_of_app, list_elem_of_singleton. intros [Hx| ->]; [|done].
    by apply (sn_pending _ _ _ _ _ Hs).
  - injection E as <- <- <-. assert (Hc : Forall quiet (cancel_task id e)
      /\ Forall (task_ok tm (broker e) (orderManager e)) (cancel_task id e)).
    { unfold cancel_task. destruct (orders _ !! id) as [o|] eqn:Eo; [|by split].
      destruct (negb _); [by split|]. rewrite !Forall_singleton. split; [done|]. by apply Hrec in Eo as [_ Eo]. }
    apply Hquiet; [done|done|done|apply Hc|by left|done|apply Hc].
  - unfold broker_cancel_task in E.
    destruct (BrokerCancel id (broker e)) as [[err|] br] eqn:Eb;
      destruct (cancel_law (S n) _ _ _ _ Hr Eb) as (Hr1 & Hi); injection E as <- <- <-; rewrite app_nil_r; exists tm;
      cbn [broker orderManager set_both fst snd]; (split_and!; [|eapply placed_quiet; [exact Hp|done| |done]|by apply ready_less]).
    + eapply sound_broker; [exact Hs|exact Hi|constructor].
    + constructor.
    + eapply sound_broker; [exact Hs|exact Hi|]. apply Forall_cons. split; [|by apply Forall_singleton].
      exact (copy_ok_mono _ _ _ _ _ Hi (reflexivity tm) Hok).
    + apply Forall_cons. split; [done|by apply Forall_singleton].
  - injection E as <- <- <-. apply Hquiet; [done|done|done|constructor|by left| |constructor].
    apply remove_first_sublist.
  - injection E as <- <- <-. apply Hquiet; [done|done|done| |by left|done|].
    + apply Forall_forall. intros t Ht. by apply list_elem_of_fmap in Ht as (x & -> & _).
    + apply Forall_forall. intros t Ht. by apply list_elem_of_fmap in Ht as (x & -> & _).
  - injection E as <- <- <-. assert (Hc : Forall quiet (poll_task id e)
      /\ Forall (task_ok tm (broker e) (orderManager e)) (poll_task id e)).
    { unfold poll_task. destruct (GetOrderStatus id (broker e)); [|by split]. by rewrite !Forall_singleton. }
    apply Hquiet; [done|done|done|apply Hc|by left|done|apply Hc].
  - injection E as <- <- <-. destruct (status_refiled tm (broker e) _ id st Hrec) as [Hre Hsub].
    apply Hquiet; [done|done|done|constructor|exact Hre|exact Hsub|constructor].
  - injection E as <- <- <-. rewrite app_nil_r. exists tm.
    destruct (quote_step tm others evs e q Hs Hp ltac:(by apply (Hser q))) as [? ?]. done.
  - destruct (try_task q o e) as [k' e1] eqn:Et. injection E as <- <- <-. rewrite app_nil_r. exists tm.
    destruct (try_step tm others evs e q o k' e1 Hs Hp Et) as (? & ? & Eb). by rewrite Eb in *.
  - injection E as <- <- <-. rewrite app_nil_r. exists tm.
    destruct (fill_step_keeps tm others evs e q o Hs Hp) as [? ?]. done.
  - destruct (book_task q o e) as [new' e1] eqn:Et. injection E as <- <- <-. exists tm.
    destruct (book_step tm others evs e q o new' e1 Hs Hp Et) as (? & ?).
    unfold book_task in Et. injection Et as <- <-. done.
  - injection E as <- <- <-. apply Hquiet; [done|done|done| |by left|done|].
    + apply Forall_forall. intros t Ht. by apply list_elem_of_fmap in Ht as (x & -> & _).
    + apply Forall_forall. intros t Ht. by apply list_elem_of_fmap in Ht as (x & -> & _).
  - injection E as <- <- <-. apply Hquiet; [done|done|done|constructor|by left|done|constructor].
Qed.

(** The shares of every symbol follow the trades a task emits. *)
Lemma task_step_held t e new k e' s :
  task_step t e = (new, k, e') ->
  held_quantity s (positionManager e') = foldl book_trade (held_quantity s (positionManager e)) (trades_of s new).
Proof.
  assert (Hsame : new = [] -> positionManager e' = positionManager e -> held_quantity s (positionManager e')
    = foldl book_trade (held_quantity s (positionManager e)) (trades_of s new)) by (by intros -> ->).
  destruct t as [now nanos seq o|o|id|id|id o|id| |id|id st|q|q o|q o|q o|feed|feed sym]; cbn [task_step]; intros E;
    try (injection E as <- <- <-; by apply Hsame).
  - destruct (submit_task now nanos seq o e) as [k' e1] eqn:Es. injection E as <- <- <-. apply Hsame; [done|].
    revert Es. unfold submit_task. destruct (validateOrderShape o); [|by intros [= <- <-]].
    destruct (cage_check o _); [|by intros [= <- <-]]. cbv zeta.
    destruct (BrokerSubmit _ _ _) as [[]]; by intros [= <- <-].
  - destruct (broker_cancel_task id o e) as [k' e1] eqn:Es. injection E as <- <- <-. apply Hsame; [done|].
    revert Es. unfold broker_cancel_task. destruct (BrokerCancel _ _) as [[]]; by intros [= <- <-].
  - destruct (try_task q o e) as [k' e1] eqn:Es. injection E as <- <- <-. apply Hsame; [done|].
    revert Es. unfold try_task. destruct (if bool_decide _ then _ else _). by intros [= <- <-].
  - destruct (book_task q o e) as [new' e1] eqn:Es. injection E as <- <- <-. unfold book_task in Es.
    cbv zeta in Es. injection Es as <- <-. cbn [positionManager set_book]. rewrite held_traded. cbn.
    by case_bool_decide.
  - injection E as <- <- <-. cbn. unfold mark_step. destruct (feed sym) as [q|]; [|done].
    destruct (fle _ _); [done|]. unfold ApplyQuote, held_quantity.
    destruct (positionManager e !! sym) as [p|] eqn:Ep; [|done]. cbn [snd].
    destruct (decide (s = sym)) as [->|Hne]; [by rewrite lookup_insert_eq, Ep|by rewrite lookup_insert_ne].
Qed.

(** *** Schedules *)

Lemma concat_insert (threads : list (list task)) i t rest :
  threads !! i = Some (t :: rest) ->
  exists others, concat threads ≡ₚ t :: others /\ forall k, concat (<[i := k ++ rest]> threads) ≡ₚ k ++ others.
Proof.
  intros Hi. pose proof (take_drop_middle threads i _ Hi) as E.
  exists (rest ++ concat (take i threads) ++ concat (drop (S i) threads)). split.
  - rewrite <- E at 1. rewrite concat_app. cbn [concat]. rewrite Permutation_app_comm.
    cbn [app]. constructor. rewrite <- app_assoc. apply Permutation_app_head, Permutation_app_comm.
  - intros k. rewrite insert_take_drop by (by eapply lookup_lt_Some). rewrite concat_app. cbn [concat].
    rewrite Permutation_app_comm, <- !app_assoc. do 2 apply Permutation_app_head. apply Permutation_app_comm.
Qed.

Lemma quoting_ids threads : quoting threads = false -> quote_ids (concat threads) = [].
Proof.
  unfold quoting. induction (concat threads) as [|t ts IH]; [done|]. cbn. intros [Ht Hts]%orb_false_iff.
  rewrite (IH Hts). apply bool_decide_eq_false in Ht. destruct t; try done; destruct Ht; by eexists.
Qed.

(** The state of a schedule with [n] choices left. *)
Record kept (held0 : bytes -> float64) (n : nat) (s : system B) : Prop := {
  kp_ready : ready n (broker (sy_engine s));
  kp_books : exists tm, sound tm (broker (sy_engine s)) (orderManager (sy_engine s)) (concat (sy_threads s)) (sy_events s);
  kp_placed : placed (orderManager (sy_engine s)) (concat (sy_threads s)) (sy_events s);
  kp_held : forall sym, held_quantity sym (positionManager (sy_engine s))
              = foldl book_trade (held0 sym) (trades_of sym (sy_events s))
}.

Definition offered (c : choice) : option Order.t :=
  match c with Spawn (OpSubmit _ _ _ o) => Some o | _ => None end.

Lemma kept_less held0 n s : kept held0 (S n) s -> kept held0 n s.
Proof. intros [H1 H2 H3 H4]. constructor; auto. by apply ready_less. Qed.

Lemma spawn_keeps held0 n s op :
  kept held0 (S n) s -> (forall o, offered (Spawn op) = Some o -> o ∈ subs) ->
  kept held0 n (sched_step serial s (Spawn op)).
Proof.
  intros [H1 [tm H2] H3 H4] Ho. assert (Hc : concat (sy_threads s) ++ [entry op] ≡ₚ entry op :: concat (sy_threads s))
    by (symmetry; apply Permutation_cons_append).
  constructor; cbn; [by apply ready_less| | |done]; rewrite concat_app; cbn [concat app].
  - exists tm. eapply sound_perm; [symmetry; exact Hc|]. destruct H2 as [S1 S2 S3 S4 S5 S6].
    constructor; auto. apply Forall_cons. split; [|done].
    destruct op as [now nanos seq o| | | |]; try exact I. by apply Ho.
  - eapply placed_perm; [symmetry; exact Hc|]. destruct H3 as [P1 P2 P3 P4].
    destruct op; constructor; cbn; done.
Qed.

Lemma run_keeps held0 n s i : kept held0 (S n) s -> kept held0 n (sched_step serial s (Run i)).
Proof.
  intros Hk. cbn [sched_step]. destruct (sy_threads s !! i) as [[|t rest]|] eqn:Ei; [by apply kept_less| |by apply kept_less].
  destruct (waits serial t (sy_threads s)) eqn:Hw; [by apply kept_less|]. destruct Hk as [H1 [tm H2] H3 H4].
  destruct (concat_insert _ _ _ _ Ei) as (others & Hc & Hc').
  destruct (task_step t (sy_engine s)) as [[new k] e'] eqn:Et.
  destruct (task_step_keeps n tm t others (sy_events s) (sy_engine s) new k e') as (tm' & R1 & R2 & R3);
    [by eapply sound_perm|by eapply placed_perm|done| |done|].
  { intros q -> Hb. cbn in Hw. rewrite Hb in Hw. apply quoting_ids in Hw.
    assert (Hq : quote_ids (TQuote q :: others) ≡ₚ []) by (by rewrite <- Hc, Hw).
    symmetry in Hq. by apply Permutation_nil in Hq. }
  constructor; cbn [sy_engine sy_threads sy_events].
  - exact R3.
  - exists tm'. eapply sound_perm; [symmetry; apply Hc'|exact R1].
  - eapply placed_perm; [symmetry; apply Hc'|exact R2].
  - intros sym. rewrite (task_step_held _ _ _ _ _ sym Et), H4. unfold trades_of. by rewrite omap_app, foldl_app.
Qed.

Lemma sched_keeps held0 choices : forall s,
  kept held0 (length choices) s -> (forall o, o ∈ omap offered choices -> o ∈ subs) ->
  kept held0 0 (run_sched serial choices s).
Proof.
  induction choices as [|c choices IH]; intros s Hk Hs; [done|]. cbn. apply IH.
  - destruct c as [op|i]; [|by apply run_keeps]. apply spawn_keeps; [done|]. intros o Ho. apply Hs.
    apply list_elem_of_omap. exists (Spawn op). split; [left|done].
  - intros o Ho. apply Hs. apply list_elem_of_omap in Ho as (c' & Hc & E).
    apply list_elem_of_omap. exists c'. split; [by right|done].
Qed.
End Booking.

(** The orders a schedule submits. *)
Definition submitted (choices : list choice) : list Order.t := omap offered choices.

(** C4. Fills are booked, under every interleaving. For a broker that numbers
    each order once, never with an empty number or one of the manager's own,
    and can number as many more as the schedule has steps ([BrokerLaws], as
    the simulated broker does), from an engine whose order manager is fresh and whose position book is
    anything, so after [Start] has loaded the broker's positions as well as
    before: however submissions, cancellations, quote handlers, status polls
    and portfolio ticks interleave, lock by lock, the shares held of every
    symbol are those of the start with the reported trades booked in their
    order; and every trade reported is of an order some client submitted:
    its symbol, side and whole quantity, at a price its terms allow (never
    worse than the limit, on the triggered side of a stop or of a trailing
    stop), the order is on record with those terms, and it is no longer
    pending. When each quote handler finishes before the next takes its
    snapshot, as when the feed's own loop calls it, no order trades twice;
    handlers that overlap can fill the same order again. *)
Theorem fills_are_booked_once {B : Type} `{!Broker B} `{!BrokerLaws B} `{!MapOrder}
    (serial : bool) (choices : list choice) (e0 : LiveEngine B) :
  orders (orderManager e0) = ∅ -> pending (orderManager e0) = [] -> ready (length choices) (broker e0) ->
  let s := run_sched serial choices (MkSystem e0 [] []) in
  let om := orderManager (sy_engine s) in
  (forall sym, held_quantity sym (positionManager (sy_engine s))
     = foldl book_trade (held_quantity sym (positionManager e0)) (trades_of sym (sy_events s)))
  /\ (forall id t, EvTrade id t ∈ sy_events s ->
        id ∉ pending om
        /\ exists asked filled o, asked ∈ submitted choices
             /\ EvOrderUpdate filled ∈ sy_events s /\ Order.ID filled = id /\ terms filled = terms asked
             /\ trade_of_order t filled
             /\ orders om !! id = Some o /\ terms o = terms asked)
  /\ (serial = true -> NoDup (trade_ids (sy_events s))).
Proof.
  intros Ho Hp Hr s om.
  assert (Hk : kept (submitted choices) serial (fun sym => held_quantity sym (positionManager e0)) 0 s).
  { apply sched_keeps; [|done]. constructor; cbn; [exact Hr| | |done].
    - exists ∅. constructor; cbn.
      + intros id x. by rewrite lookup_empty.
      + intros id o. by rewrite Ho, lookup_empty.
      + intros id. rewrite Hp. by intros Hin%not_elem_of_nil.
      + constructor.
      + intros o Hin. by apply not_elem_of_nil in Hin.
      + intros id t Hin. by apply not_elem_of_nil in Hin.
    - constructor; cbn; rewrite ?Hp; [constructor| | |constructor];
        intros id Hin; by apply not_elem_of_nil in Hin. }
  destruct Hk as [_ [tm [S1 S2 S3 S4 S5 S6]] [P1 P2 P3 P4] Hh]. split; [exact Hh|]. split.
  - intros id t Hin. split.
    { intros Hpe. apply (P3 id); apply elem_of_app; [left|by left]. apply trade_ids_elem. by exists t. }
    destruct (S6 _ _ Hin) as (filled & Hf & Hid & Ht). destruct (S5 _ Hf) as (Hfo & Hc & [o Eo]).
    destruct (Hc Hfo) as [_ Htm]. destruct (S1 _ _ Htm) as [_ (asked & Ha & Et)].
    exists asked, filled, o. rewrite <- Hid. split_and!; [done|done|done|done|done|done|].
    destruct (S2 _ _ Eo) as [Eid Hco]. unfold copy_ok in Hco. rewrite Eid in Hco. destruct (Hco Hfo) as [_ Htm2]. congruence.
  - intros Hb. specialize (P4 Hb). by apply NoDup_app in P4 as [P4 _].
Qed.

(** ** Concrete schedules *)

(** One buy is accepted; then two quotes at the limit arrive, and the second
    takes its snapshot before the first has filled the order. *)
Definition overlapping : list choice :=
  [Spawn (OpSubmit 1 2 3 (LiveSample.buy [])); Run 0; Run 0; Run 0;
   Spawn (OpQuote (LiveSample.quote 9)); Spawn (OpQuote (LiveSample.quote 9)); Run 1; Run 2;
   Run 1; Run 1; Run 1; Run 2; Run 2; Run 2].

Abbreviation sample_run serial :=
  (run_sched (H := sorted_order) serial overlapping
     (MkSystem (NewLiveEngine LiveSample.br DefaultExecutionConfig) [] [])).

(** The order trades twice when the handlers overlap, and once when they do
    not. *)
Example overlapping_quotes_fill_twice :
  trade_ids (sy_events (sample_run false)) = [LiveSample.id; LiveSample.id]
  /\ held_quantity LiveSample.sym (positionManager (sy_engine (sample_run false))) = f64_of_Z 200
  /\ trade_ids (sy_events (sample_run true)) = [LiveSample.id].
Proof. vm_compute. repeat split. Qed.

Lemma fills_are_booked_once_witness :
  trade_ids (sy_events (sample_run true)) = [LiveSample.id] /\ NoDup (trade_ids (sy_events (sample_run true)))
  /\ LiveSample.id ∉ pending (orderManager (sy_engine (sample_run true))).
Proof.
  assert (Ht : trade_ids (sy_events (sample_run true)) = [LiveSample.id]) by (vm_compute; reflexivity).
  split; [exact Ht|].
  pose proof (fills_are_booked_once (H := sorted_order) true overlapping
    (NewLiveEngine LiveSample.br DefaultExecutionConfig) eq_refl eq_refl) as T.
  cbv zeta in T. generalize dependent (sample_run true). intros s Ht T.
  destruct T as (_ & T2 & T3); [split; [discriminate|reflexivity]|]. split; [exact (T3 eq_refl)|].
  assert (Hin : LiveSample.id ∈ trade_ids (sy_events s)) by (rewrite Ht; left).
  apply trade_ids_elem in Hin as [t Hin]. exact (proj1 (T2 _ _ Hin)).
Defined.
