(* ===== verification/ExecSchedule.v ===== *)
(** * ExecSchedule: slicing a parent order (src/pkg/execalgo)

    The scheduling half of the execution algorithms: interfaces.go,
    schedule.go, twap.go and vwap.go. A parent order is cut into child orders
    over its execution window; an algorithm keeps the plan, a cursor of the
    children already released and the filled quantity. [ExecAlgorithm] is the
    interface the dispatcher calls; [PlannedAlgorithm] states what an
    implementation promises, and the TWAP and VWAP instances discharge it. *)

From stdpp Require Import base list strings gmap.
From Stdlib Require Import ZArith Lia Ascii SpecFloat.
From S2P Require Import Prelude GoFloat Domain.

Open Scope Z_scope.

(** ** Orders and fills *)

Module ParentOrder.
Record t := Mk {
  OrderID : bytes;
  RunID : bytes;
  Symbol : bytes;
  Side : Direction;
  Qty : float64;
  LimitPrice : float64;
  Style : bytes;
  StartAt : Time;
  EndAt : Time
}.
End ParentOrder.

Module ChildOrder.
Record t := Mk {
  OrderID : bytes;
  ParentID : bytes;
  RunID : bytes;
  Symbol : bytes;
  Side : Direction;
  Qty : float64;
  LimitPrice : float64;
  SubmitAt : Time
}.
End ChildOrder.

Module Fill.
Record t := Mk {
  OrderID : bytes;
  Symbol : bytes;
  Side : Direction;
  Qty : float64;
  Price : float64;
  Ts : Time
}.
End Fill.

(** ** Pure helpers *)

(** [time.Duration] arithmetic: [Sub] saturates at the int64 range. *)
Definition TimeSub (t u : Time) : Z := Z.max min_int64 (Z.min max_int64 (t - u)).
Definition After (t u : Time) : bool := u <? t.

Definition DefaultSliceInterval : Z := 5 * 60 * 1000000000.

Inductive schedule_error :=
| EmptySymbol (orderID : bytes)
| QtyNotPositive (orderID : bytes) (qty : float64)
| WindowNotForward (orderID : bytes) (endAt startAt : Time)
| OnBarBeforeSchedule.

Definition validateParent (parent : ParentOrder.t) : res schedule_error unit :=
  let id := ParentOrder.OrderID parent in
  if decide (ParentOrder.Symbol parent = []) then Err (EmptySymbol id)
  else if (ParentOrder.Qty parent <=? f0)%f64 then Err (QtyNotPositive id (ParentOrder.Qty parent))
  else if negb (After (ParentOrder.EndAt parent) (ParentOrder.StartAt parent))
  then Err (WindowNotForward id (ParentOrder.EndAt parent) (ParentOrder.StartAt parent))
  else Ok tt.

Definition deriveSlices (window : Z) : Z :=
  if window <=? 0 then 1
  else
    let n := f64_to_int64 (Ceil (f64_of_Z window / f64_of_Z DefaultSliceInterval)%f64) in
    if n <? 1 then 1 else n.

Definition effectiveSlices (n : Z) (qty : float64) : Z :=
  if (qty =? Trunc qty)%f64 && (qty >=? f1)%f64 && (f64_of_Z n >? qty)%f64
  then f64_to_int64 qty else n.

(** The slice starts: [time.Duration(i) * step] from the window's start. *)
Definition splitWindow (start endAt : Time) (n : Z) : list Time :=
  if n <=? 0 then []
  else
    let step := quot64 (TimeSub endAt start) n in
    map (fun i => start + wrap64 (Z.of_nat i * step)) (seq 0 (Z.to_nat n)).

(** The first n-1 slices with their running float sum, the total rounded
    slice by slice when it is a whole number of shares. *)
Fixpoint allocate_front (integral : bool) (total acc : float64) (weights : list float64)
    : list float64 * float64 :=
  match weights with
  | [] => ([], acc)
  | w :: ws =>
      let q := (total * w)%f64 in
      let q := if integral then Round q else q in
      let '(out, acc) := allocate_front integral total (acc + q)%f64 ws in
      (q :: out, acc)
  end.

Definition allocateQty (total : float64) (weights : list float64) : list float64 :=
  match weights with
  | [] => []
  | [_] => [total]
  | _ =>
      let integral := (total =? Trunc total)%f64 in
      let '(out, acc) := allocate_front integral total f0 (removelast weights) in
      let last := (total - acc)%f64 in
      let last := if (last <? f0)%f64 then f0 else last in
      out ++ [last]
  end.

(** [fmt.Sprintf("%s-C%04d", parentID, i)] for an index i. *)
Definition decimal_digits (i : Z) : bytes := format_digits (S (Z.to_nat (Z.log2 i))) i [].
Definition pad4 (i : Z) : bytes :=
  let d := decimal_digits i in replicate (4 - length d) "0"%char ++ d.
Definition childOrderID (parentID : bytes) (i : Z) : bytes := parentID ++ lit "-C" ++ pad4 i.

Definition child_order (parent : ParentOrder.t) (i : nat) (qt : float64 * Time) : ChildOrder.t :=
  ChildOrder.Mk (childOrderID (ParentOrder.OrderID parent) (Z.of_nat i)) (ParentOrder.OrderID parent)
    (ParentOrder.RunID parent) (ParentOrder.Symbol parent) (ParentOrder.Side parent)
    (fst qt) (ParentOrder.LimitPrice parent) (snd qt).

Definition buildPlan (parent : ParentOrder.t) (qtys : list float64) (times : list Time)
    : list ChildOrder.t :=
  imap (child_order parent) (zip qtys times).

(** ** The running state of one parent order *)

Record planState := MkPlanState {
  ps_parent : ParentOrder.t;
  ps_plan : list ChildOrder.t;
  ps_childIDs : gset bytes;
  ps_nextIdx : nat;
  ps_due : list ChildOrder.t;
  ps_filled : float64;
  ps_total : float64;
  ps_done : bool
}.

Definition no_parent : ParentOrder.t :=
  ParentOrder.Mk [] [] [] (DirectionOther []) f0 f0 [] 0 0.
Definition zero_state : planState := MkPlanState no_parent [] ∅ 0 [] f0 f0 false.

Definition plan_total (plan : list ChildOrder.t) : float64 :=
  foldl (fun acc c => acc + ChildOrder.Qty c)%f64 f0 plan.

Definition reset (parent : ParentOrder.t) (plan : list ChildOrder.t) : planState :=
  MkPlanState parent plan (list_to_set (map ChildOrder.OrderID plan)) 0 [] f0 (plan_total plan) false.

(** The children from the cursor on whose time has come. *)
Fixpoint due_prefix (date : Time) (rest : list ChildOrder.t) : list ChildOrder.t :=
  match rest with
  | c :: rest' => if After (ChildOrder.SubmitAt c) date then [] else c :: due_prefix date rest'
  | [] => []
  end.

Definition onBar (bar : OHLCV.t) (s : planState) : option schedule_error * planState :=
  if decide (ParentOrder.OrderID (ps_parent s) = []) then (Some OnBarBeforeSchedule, s)
  else
    let now := due_prefix (OHLCV.Date bar) (drop (ps_nextIdx s) (ps_plan s)) in
    (None, MkPlanState (ps_parent s) (ps_plan s) (ps_childIDs s) (ps_nextIdx s + length now)
             (ps_due s ++ now) (ps_filled s) (ps_total s) (ps_done s)).

Definition dueChildOrders (s : planState) : list ChildOrder.t * planState :=
  (ps_due s, MkPlanState (ps_parent s) (ps_plan s) (ps_childIDs s) (ps_nextIdx s) []
               (ps_filled s) (ps_total s) (ps_done s)).

Definition onFill (f : Fill.t) (s : planState) : option schedule_error * planState :=
  if decide (Fill.OrderID f ∈ ps_childIDs s) then
    let filled := (ps_filled s + Fill.Qty f)%f64 in
    let filled := if (filled >? ps_total s)%f64 then ps_total s else filled in
    let done := if (filled >=? ps_total s)%f64 then true else ps_done s in
    (None, MkPlanState (ps_parent s) (ps_plan s) (ps_childIDs s) (ps_nextIdx s) (ps_due s)
             filled (ps_total s) done)
  else (None, s).

Definition progress (s : planState) : float64 * float64 * bool :=
  (ps_filled s, ps_total s, ps_done s).

(** ** The interface *)

Class ExecAlgorithm (A : Type) := {
  Name : A -> bytes;
  OnBar : OHLCV.t -> A -> option schedule_error * A;
  OnFill : Fill.t -> A -> option schedule_error * A;
  Schedule : ParentOrder.t -> A -> res schedule_error (list ChildOrder.t) * A;
  DueChildOrders : A -> list ChildOrder.t * A
}.

(** ** TWAP *)

Record TWAP := MkTWAP { twap_slices : Z; twap_st : planState }.

Definition NewTWAP (slices : Z) : TWAP := MkTWAP slices zero_state.

Definition equal_weights (n : Z) : list float64 :=
  replicate (Z.to_nat n) (f1 / f64_of_Z n)%f64.

Definition TWAP_slices (a : TWAP) (parent : ParentOrder.t) : Z :=
  let n := twap_slices a in
  let n := if n <=? 0
           then deriveSlices (TimeSub (ParentOrder.EndAt parent) (ParentOrder.StartAt parent))
           else n in
  effectiveSlices n (ParentOrder.Qty parent).

Definition TWAP_Schedule (parent : ParentOrder.t) (a : TWAP)
    : res schedule_error (list ChildOrder.t) * TWAP :=
  match validateParent parent with
  | Err e => (Err e, a)
  | Ok _ =>
      let n := TWAP_slices a parent in
      let qtys := allocateQty (ParentOrder.Qty parent) (equal_weights n) in
      let times := splitWindow (ParentOrder.StartAt parent) (ParentOrder.EndAt parent) n in
      let plan := buildPlan parent qtys times in
      (Ok plan, MkTWAP (twap_slices a) (reset parent plan))
  end.

Definition TWAP_lift {R : Type} (f : planState -> R * planState) (a : TWAP) : R * TWAP :=
  let '(r, st) := f (twap_st a) in (r, MkTWAP (twap_slices a) st).

#[global] Instance TWAP_algorithm : ExecAlgorithm TWAP := {
  Name := fun _ => lit "twap";
  OnBar := fun bar => TWAP_lift (onBar bar);
  OnFill := fun f => TWAP_lift (onFill f);
  Schedule := TWAP_Schedule;
  DueChildOrders := TWAP_lift dueChildOrders
}.

(** ** VWAP *)

Record VWAP := MkVWAP {
  vwap_slices : Z;
  vwap_profile : list float64;
  vwap_degraded : bool;
  vwap_st : planState
}.

Definition NewVWAP (slices : Z) (profile : list float64) : VWAP :=
  MkVWAP slices profile false zero_state.

(** The running sum of the profile, or nothing when a volume is negative. *)
Fixpoint profile_sum (sum : float64) (profile : list float64) : option float64 :=
  match profile with
  | [] => Some sum
  | v :: profile' => if (v <? f0)%f64 then None else profile_sum (sum + v)%f64 profile'
  end.

Definition vwapWeights (n : Z) (profile : list float64) : list float64 * bool :=
  match (if (Z.of_nat (length profile) =? n) && (0 <? n) then profile_sum f0 profile else None) with
  | Some sum =>
      if (sum >? f0)%f64 then (map (fun v => v / sum)%f64 profile, false)
      else (equal_weights n, true)
  | None => (equal_weights n, true)
  end.

Definition VWAP_slices (a : VWAP) (parent : ParentOrder.t) : Z :=
  let n := vwap_slices a in
  let n := if n <=? 0
           then if decide (vwap_profile a = [])
                then deriveSlices (TimeSub (ParentOrder.EndAt parent) (ParentOrder.StartAt parent))
                else Z.of_nat (length (vwap_profile a))
           else n in
  effectiveSlices n (ParentOrder.Qty parent).

Definition VWAP_Schedule (parent : ParentOrder.t) (a : VWAP)
    : res schedule_error (list ChildOrder.t) * VWAP :=
  match validateParent parent with
  | Err e => (Err e, a)
  | Ok _ =>
      let n := VWAP_slices a parent in
      let '(weights, degraded) := vwapWeights n (vwap_profile a) in
      let qtys := allocateQty (ParentOrder.Qty parent) weights in
      let times := splitWindow (ParentOrder.StartAt parent) (ParentOrder.EndAt parent) n in
      let plan := buildPlan parent qtys times in
      (Ok plan, MkVWAP (vwap_slices a) (vwap_profile a) degraded (reset parent plan))
  end.

Definition VWAP_lift {R : Type} (f : planState -> R * planState) (a : VWAP) : R * VWAP :=
  let '(r, st) := f (vwap_st a) in (r, MkVWAP (vwap_slices a) (vwap_profile a) (vwap_degraded a) st).

#[global] Instance VWAP_algorithm : ExecAlgorithm VWAP := {
  Name := fun _ => lit "vwap";
  OnBar := fun bar => VWAP_lift (onBar bar);
  OnFill := fun f => VWAP_lift (onFill f);
  Schedule := VWAP_Schedule;
  DueChildOrders := VWAP_lift dueChildOrders
}.

(** ** What the algorithms promise the dispatcher *)

(** A plan for [parent]: the children carry its fields and the numbered
    identifiers, and start at equal steps from the start of the window, the
    steps together not longer than the window. *)
Definition plan_of (parent : ParentOrder.t) (plan : list ChildOrder.t) : Prop :=
  exists step, 0 <= step
    /\ Z.of_nat (length plan) * step <= ParentOrder.EndAt parent - ParentOrder.StartAt parent
    /\ forall i c, plan !! i = Some c ->
         c = child_order parent i (ChildOrder.Qty c, ParentOrder.StartAt parent + Z.of_nat i * step).

(** An algorithm whose behaviour is that of the plan state it carries. *)
Class PlannedAlgorithm (A : Type) `{!ExecAlgorithm A} := {
  plan_state : A -> planState;
  OnBar_planned bar a :
    fst (OnBar bar a) = fst (onBar bar (plan_state a))
    /\ plan_state (snd (OnBar bar a)) = snd (onBar bar (plan_state a));
  OnFill_planned f a :
    fst (OnFill f a) = fst (onFill f (plan_state a))
    /\ plan_state (snd (OnFill f a)) = snd (onFill f (plan_state a));
  DueChildOrders_planned a :
    fst (DueChildOrders a) = fst (dueChildOrders (plan_state a))
    /\ plan_state (snd (DueChildOrders a)) = snd (dueChildOrders (plan_state a));
  Schedule_planned parent a :
    match fst (Schedule parent a) with
    | Ok plan => validateParent parent = Ok tt /\ plan_of parent plan
                 /\ plan_state (snd (Schedule parent a)) = reset parent plan
    | Err e => validateParent parent = Err e /\ snd (Schedule parent a) = a
    end
}.

(** ** The identifiers of the children *)

Lemma decimal_digits_spec i :
  0 <= i -> forallb is_digit (decimal_digits i) = true /\ digits_val 0 (decimal_digits i) = i.
Proof.
  intros Hi. unfold decimal_digits.
  destruct (format_digits_spec (S (Z.to_nat (Z.log2 i))) i []) as (ds & -> & Hd & _ & Hv).
  - split; [done|]. rewrite Nat2Z.inj_succ, Z2Nat.id by apply Z.log2_nonneg.
    destruct (Z.eq_dec i 0) as [->|]; [done|]. pose proof (Z.log2_spec i ltac:(lia)).
    pose proof (Z.pow_le_mono_l 2 10 (Z.succ (Z.log2 i))). lia.
  - rewrite app_nil_r. specialize (Hv 0). split; [done|lia].
Qed.

Lemma pad4_spec i : 0 <= i -> forallb is_digit (pad4 i) = true /\ digits_val 0 (pad4 i) = i.
Proof.
  intros Hi. destruct (decimal_digits_spec i Hi) as [H1 H2]. unfold pad4. split.
  - rewrite forallb_app, H1, andb_true_r. by apply forallb_replicate.
  - by rewrite digits_val_replicate0.
Qed.

(** A run of digits after a byte that is not a digit is found again. *)
Lemma digits_suffix_inj c (l l' d d' : bytes) :
  is_digit c = false -> forallb is_digit d = true -> forallb is_digit d' = true ->
  l ++ c :: d = l' ++ c :: d' -> l = l' /\ d = d'.
Proof.
  intros Hc. assert (Hlen : forall d d' : bytes, forallb is_digit d = true ->
    forall k k', k ++ c :: d = k' ++ c :: d' -> (length k' <= length k)%nat).
  { clear d d' l l'. intros d d' Hd k. induction k as [|x k IH]; intros [|y k']; cbn; try lia.
    - intros [= Hxc E]. assert (Hin : In c d) by (subst d; apply in_or_app; right; by left).
      rewrite forallb_forall in Hd. apply Hd in Hin. congruence.
    - intros [= _ E]. apply IH in E. lia. }
  intros Hd Hd' E. pose proof (Hlen _ _ Hd _ _ E). pose proof (Hlen _ _ Hd' _ _ (eq_sym E)).
  apply app_inj_1 in E as [-> [= ->]]; [done|lia].
Qed.

Lemma childOrderID_inj p i p' i' :
  0 <= i -> 0 <= i' -> childOrderID p i = childOrderID p' i' -> p = p' /\ i = i'.
Proof.
  intros Hi Hi' E. destruct (pad4_spec i Hi) as [D V], (pad4_spec i' Hi') as [D' V'].
  unfold childOrderID in E. change (lit "-C") with (lit "-" ++ lit "C") in E.
  rewrite <- !app_assoc, !(app_assoc p), !(app_assoc p') in E.
  apply (digits_suffix_inj "C"%char) in E as [E1 E2]; [|done..].
  apply app_inj_2 in E1 as [-> _]; [|done]. split; [done|congruence].
Qed.

(** ** Plans *)

Lemma splitWindow_spec start endAt n i t :
  start <= endAt -> splitWindow start endAt n !! i = Some t ->
  exists step, 0 <= step /\ n * step <= endAt - start /\ Z.of_nat i < n
    /\ step = quot64 (TimeSub endAt start) n /\ t = start + Z.of_nat i * step.
Proof.
  intros Hle. unfold splitWindow. case_if; [done|]. bool_to_prop.
  rewrite list_lookup_fmap_Some. intros (j & -> & [-> Hj]%lookup_seq).
  assert (Hsub : 0 <= TimeSub endAt start <= endAt - start /\ in_int64 (TimeSub endAt start))
    by (unfold TimeSub, in_int64, min_int64, max_int64; lia).
  destruct Hsub as [Hw Hin]. rewrite quot64_pos by (done || lia).
  rewrite Z.quot_div_nonneg by lia. set (w := TimeSub endAt start) in *.
  pose proof (Z.mul_div_le w n ltac:(lia)). pose proof (Z.div_pos w n ltac:(lia) ltac:(lia)).
  exists (w / n). rewrite wrap64_id by (unfold in_int64 in *; int64_unfold; nia).
  split; [done|]. split; [lia|]. split; [lia|]. done.
Qed.

Lemma splitWindow_length start endAt n : length (splitWindow start endAt n) = Z.to_nat n.
Proof. unfold splitWindow. case_if; bool_to_prop; [cbn; lia|]. by rewrite length_map, length_seq. Qed.

Lemma buildPlan_plan_of parent qtys n :
  validateParent parent = Ok tt ->
  plan_of parent
    (buildPlan parent qtys (splitWindow (ParentOrder.StartAt parent) (ParentOrder.EndAt parent) n)).
Proof.
  unfold validateParent. case_decide; [done|]. case_if; [done|]. destruct (negb _) eqn:Ew; [done|]. intros _.
  unfold After in Ew. bool_to_prop. set (s := ParentOrder.StartAt parent) in *.
  set (e := ParentOrder.EndAt parent) in *.
  assert (Hlen : (length (buildPlan parent qtys (splitWindow s e n)) <= Z.to_nat n)%nat).
  { unfold buildPlan. rewrite length_imap, length_zip_with, splitWindow_length. lia. }
  destruct (Z.le_gt_cases n 0) as [Hn|Hn].
  { exists 0. split; [done|]. split; [lia|]. intros i c Hc.
    apply lookup_lt_Some in Hc. lia. }
  exists (quot64 (TimeSub e s) n).
  assert (Hstep : 0 <= quot64 (TimeSub e s) n /\ n * quot64 (TimeSub e s) n <= e - s).
  { destruct (splitWindow s e n !! 0%nat) as [t|] eqn:E0.
    - destruct (splitWindow_spec s e n 0 t ltac:(lia) E0) as (st & ? & ? & ? & -> & _). done.
    - apply lookup_ge_None in E0. rewrite splitWindow_length in E0. lia. }
  destruct Hstep as [Hs0 Hs1]. split; [done|]. split; [nia|].
  intros i c. unfold buildPlan. rewrite list_lookup_imap, fmap_Some.
  intros ([q t] & Hz%lookup_zip_with_Some & ->). destruct Hz as (q' & t' & [= -> ->] & _ & Ht).
  destruct (splitWindow_spec s e n i t' ltac:(lia) Ht) as (st & _ & _ & _ & -> & ->). done.
Qed.

(** ** The implementations *)

#[global] Program Instance TWAP_planned : PlannedAlgorithm TWAP := {| plan_state := twap_st |}.
Next Obligation. intros bar [n st]. cbn. unfold TWAP_lift. cbn. by destruct (onBar bar st). Qed.
Next Obligation. intros f [n st]. cbn. unfold TWAP_lift. cbn. by destruct (onFill f st). Qed.
Next Obligation. intros [n st]. done. Qed.
Next Obligation.
  intros parent a. cbn. unfold TWAP_Schedule.
  destruct (validateParent parent) as [[]|e] eqn:E; cbn; [|done].
  split; [done|]. split; [by apply buildPlan_plan_of|done].
Qed.

#[global] Program Instance VWAP_planned : PlannedAlgorithm VWAP := {| plan_state := vwap_st |}.
Next Obligation. intros bar [n p g st]. cbn. unfold VWAP_lift. cbn. by destruct (onBar bar st). Qed.
Next Obligation. intros f [n p g st]. cbn. unfold VWAP_lift. cbn. by destruct (onFill f st). Qed.
Next Obligation. intros [n p g st]. done. Qed.
Next Obligation.
  intros parent a. cbn. unfold VWAP_Schedule.
  destruct (validateParent parent) as [[]|e] eqn:E; cbn; [|done].
  destruct (vwapWeights _ _) as [ws g]. cbn.
  split; [done|]. split; [by apply buildPlan_plan_of|done].
Qed.
