(* ===== verification/ExecDispatch.v ===== *)
(** * ExecDispatch: many parent orders at once (src/pkg/execalgo/dispatch.go)

    The dispatcher keeps one running algorithm per parent order and routes
    bars and fills to it. Every operation holds the dispatcher's lock for its
    whole body, so a run is a sequence of operations; a bar visits the parents
    in the order of their identifiers. *)

From stdpp Require Import base list strings gmap sorting.
From Stdlib Require Import ZArith Lia Ascii.
From S2P Require Import Prelude GoMap GoFloat Domain ExecSchedule.

Open Scope Z_scope.

(** ** The interface value a run holds *)

Inductive algo :=
| AlgoTWAP (a : TWAP)
| AlgoVWAP (a : VWAP).

Definition algo_lift {R : Type} (f : TWAP -> R * TWAP) (g : VWAP -> R * VWAP) (a : algo) : R * algo :=
  match a with
  | AlgoTWAP a => let '(r, a) := f a in (r, AlgoTWAP a)
  | AlgoVWAP a => let '(r, a) := g a in (r, AlgoVWAP a)
  end.

#[global] Instance algo_algorithm : ExecAlgorithm algo := {
  Name := fun a => match a with AlgoTWAP a => Name a | AlgoVWAP a => Name a end;
  OnBar := fun bar => algo_lift (OnBar bar) (OnBar bar);
  OnFill := fun f => algo_lift (OnFill f) (OnFill f);
  Schedule := fun p => algo_lift (Schedule p) (Schedule p);
  DueChildOrders := algo_lift DueChildOrders DueChildOrders
}.

(** ** Types *)

Definition StyleTWAP : bytes := lit "twap".
Definition StyleVWAP : bytes := lit "vwap".

Definition IsKnownStyle (style : bytes) : bool :=
  bool_decide (style = StyleTWAP) || bool_decide (style = StyleVWAP).

Record AttachSpec := MkAttachSpec {
  as_ParentID : bytes;
  as_RunID : bytes;
  as_Symbol : bytes;
  as_Side : Direction;
  as_Qty : float64;
  as_LimitPrice : float64;
  as_Style : bytes;
  as_Slices : Z;
  as_Profile : list float64;
  as_OrderType : OrderType;
  as_StartAt : Time;
  as_EndAt : Time
}.

Record ParentProgress := MkProgress {
  pp_ParentID : bytes;
  pp_Symbol : bytes;
  pp_Side : Direction;
  pp_Filled : float64;
  pp_Total : float64;
  pp_Reason : bytes
}.

Record DueChild := MkDueChild { dc_child : ChildOrder.t; dc_OrderType : OrderType }.

Record parentRun := MkRun {
  pr_spec : AttachSpec;
  pr_algo : algo;
  pr_plan : list ChildOrder.t;
  pr_filled : float64;
  pr_submitted : float64;
  pr_cancelled : bool;
  pr_cancelReason : bytes
}.

Record Dispatcher := MkDispatcher {
  parents : gmap bytes parentRun;
  childIdx : gmap bytes bytes
}.

Definition NewDispatcher : Dispatcher := MkDispatcher ∅ ∅.

(** The failures of [Attach]; the four sentinels of the package are named
    as the source names them. *)
Inductive attach_error :=
| EmptyParentID
| ErrUnknownAlgo (style parent : bytes)
| ErrInvalidSchedule (parent : bytes) (e : schedule_error)
| EmptyPlan (parent : bytes)
| NonPositiveSlice (parent : bytes) (i : nat) (qty : float64)
| ErrDuplicateParent (parent : bytes)
| ChildCollision (child parent : bytes)
| PlanSumMismatch (parent : bytes) (sum qty diff : float64).

Inductive AttachFailureKind :=
| AttachFailureUnknownStyle
| AttachFailureDuplicateParent
| AttachFailureQtySumMismatch
| AttachFailureInvalidSchedule
| AttachFailureOther.

(** The error of a sum mismatch is built with [%v] only and wraps no
    sentinel, so [errors.Is] matches none of the four. *)
Definition ClassifyAttachError (e : attach_error) : AttachFailureKind :=
  match e with
  | ErrUnknownAlgo _ _ => AttachFailureUnknownStyle
  | ErrDuplicateParent _ => AttachFailureDuplicateParent
  | ErrInvalidSchedule _ _ => AttachFailureInvalidSchedule
  | EmptyParentID | EmptyPlan _ | NonPositiveSlice _ _ _ | ChildCollision _ _
  | PlanSumMismatch _ _ _ _ => AttachFailureOther
  end.

(** ** Operations *)

(** [start.AddDate(0, 0, n)] on instants: n days. *)
Definition ResolveExecWindow (start : Time) (slices : Z) (profile : list float64) : Z * Time :=
  let n := if (slices <=? 0) && (0 <? Z.of_nat (length profile))
           then Z.of_nat (length profile) else slices in
  let n := if n <=? 0 then 1 else n in
  (n, start + n * day_ns).

(** [1e-9 * math.Max(1, math.Abs(qty))]. *)
Definition qtySumTolerance (qty : float64) : float64 := (flit 1 9 * MathMax f1 (Abs qty))%f64.

Definition newAlgo (spec : AttachSpec) : option algo :=
  if decide (as_Style spec = StyleTWAP) then Some (AlgoTWAP (NewTWAP (as_Slices spec)))
  else if decide (as_Style spec = StyleVWAP)
  then Some (AlgoVWAP (NewVWAP (as_Slices spec) (as_Profile spec)))
  else None.

Definition parent_of (spec : AttachSpec) : ParentOrder.t :=
  ParentOrder.Mk (as_ParentID spec) (as_RunID spec) (as_Symbol spec) (as_Side spec) (as_Qty spec)
    (as_LimitPrice spec) (as_Style spec) (as_StartAt spec) (as_EndAt spec).

(** The loop that sums the plan and refuses a slice that is not positive. *)
Fixpoint sum_positive (parent : bytes) (i : nat) (sum : float64) (plan : list ChildOrder.t)
    : res attach_error float64 :=
  match plan with
  | [] => Ok sum
  | c :: plan' =>
      if (ChildOrder.Qty c <=? f0)%f64 then Err (NonPositiveSlice parent i (ChildOrder.Qty c))
      else sum_positive parent (S i) (sum + ChildOrder.Qty c)%f64 plan'
  end.

Definition first_clash (d : Dispatcher) (plan : list ChildOrder.t) : option bytes :=
  find (fun id => bool_decide (is_Some (childIdx d !! id))) (map ChildOrder.OrderID plan).

Definition Attach (spec : AttachSpec) (d : Dispatcher)
    : res attach_error (list ChildOrder.t) * Dispatcher :=
  let pid := as_ParentID spec in
  if decide (pid = []) then (Err EmptyParentID, d)
  else match newAlgo spec with
  | None => (Err (ErrUnknownAlgo (as_Style spec) pid), d)
  | Some a =>
  match Schedule (parent_of spec) a with
  | (Err e, _) => (Err (ErrInvalidSchedule pid e), d)
  | (Ok plan, a) =>
  if decide (plan = []) then (Err (EmptyPlan pid), d)
  else match sum_positive pid 0 f0 plan with
  | Err e => (Err e, d)
  | Ok sum =>
  match parents d !! pid with
  | Some _ => (Err (ErrDuplicateParent pid), d)
  | None =>
  match first_clash d plan with
  | Some id => (Err (ChildCollision id pid), d)
  | None =>
      let diff := Abs (sum - as_Qty spec)%f64 in
      if (diff >? qtySumTolerance (as_Qty spec))%f64
      then (Err (PlanSumMismatch pid sum (as_Qty spec) diff), d)
      else
        (Ok plan,
         MkDispatcher (<[pid := MkRun spec a plan f0 f0 false []]> (parents d))
           (foldl (fun idx c => <[ChildOrder.OrderID c := pid]> idx) (childIdx d) plan))
  end end end end end.

(** One parent's turn at a bar: the children it releases, with its run
    after the bar, or the error of its algorithm. *)
Definition run_bar (bar : OHLCV.t) (run : parentRun) : res schedule_error (list DueChild * parentRun) :=
  match OnBar bar (pr_algo run) with
  | (Some e, _) => Err e
  | (None, a) =>
      let '(cs, a) := DueChildOrders a in
      let submitted := foldl (fun acc c => acc + ChildOrder.Qty c)%f64 (pr_submitted run) cs in
      Ok (map (fun c => MkDueChild c (as_OrderType (pr_spec run))) cs,
          MkRun (pr_spec run) a (pr_plan run) (pr_filled run) submitted
            (pr_cancelled run) (pr_cancelReason run))
  end.

Definition bar_step (bar : OHLCV.t)
    (st : gmap bytes parentRun * list DueChild * list (bytes * schedule_error)) (pid : bytes)
    : gmap bytes parentRun * list DueChild * list (bytes * schedule_error) :=
  let '(ps, out, errs) := st in
  match ps !! pid with
  | None => st
  | Some run =>
      if pr_cancelled run then st
      else if negb (bool_decide (as_Symbol (pr_spec run) = OHLCV.Symbol bar)) then st
      else match run_bar bar run with
           | Err e => (ps, out, errs ++ [(pid, e)])
           | Ok (cs, run) => (<[pid := run]> ps, out ++ cs, errs)
           end
  end.

(** [Dispatcher.OnBar]: the children due, the errors joined, the state. *)
Definition DispatchBar (bar : OHLCV.t) (d : Dispatcher)
    : list DueChild * list (bytes * schedule_error) * Dispatcher :=
  let '(ps, out, errs) := foldl (bar_step bar) (parents d, [], []) (sortedKeys (parents d)) in
  (out, errs, MkDispatcher ps (childIdx d)).

Inductive fill_error := OverFilled (parent : bytes) (filled qty total diff : float64) (child : bytes).

Definition set_filled (x : float64) (run : parentRun) : parentRun :=
  MkRun (pr_spec run) (pr_algo run) (pr_plan run) x (pr_submitted run)
    (pr_cancelled run) (pr_cancelReason run).

(** [Dispatcher.OnFill]. *)
Definition DispatchFill (f : Fill.t) (d : Dispatcher) : res fill_error unit * Dispatcher :=
  match childIdx d !! Fill.OrderID f with
  | None => (Ok tt, d)
  | Some pid =>
      match parents d !! pid with
      | None => (Ok tt, d)
      | Some run =>
          let next := (pr_filled run + Fill.Qty f)%f64 in
          let diff := (next - as_Qty (pr_spec run))%f64 in
          if (diff >? qtySumTolerance (as_Qty (pr_spec run)))%f64
          then (Err (OverFilled pid (pr_filled run) (Fill.Qty f) (as_Qty (pr_spec run)) diff (Fill.OrderID f)), d)
          else (Ok tt, MkDispatcher (<[pid := set_filled next run]> (parents d)) (childIdx d))
      end
  end.

Definition Progress (parentID : bytes) (d : Dispatcher) : option (float64 * float64) :=
  run ← parents d !! parentID; Some (pr_filled run, as_Qty (pr_spec run)).

Definition cancellable (run : parentRun) : bool :=
  negb (pr_cancelled run)
  && (pr_filled run <? as_Qty (pr_spec run) - qtySumTolerance (as_Qty (pr_spec run)))%f64.

Definition progressOf (parentID : bytes) (run : parentRun) : ParentProgress :=
  MkProgress parentID (as_Symbol (pr_spec run)) (as_Side (pr_spec run)) (pr_filled run)
    (as_Qty (pr_spec run)) (pr_cancelReason run).

Definition cancel_run (reason : bytes) (run : parentRun) : parentRun :=
  MkRun (pr_spec run) (pr_algo run) (pr_plan run) (pr_filled run) (pr_submitted run) true reason.

Definition Cancel (parentID reason : bytes) (d : Dispatcher) : option ParentProgress * Dispatcher :=
  match parents d !! parentID with
  | Some run =>
      if cancellable run then
        let run := cancel_run reason run in
        (Some (progressOf parentID run), MkDispatcher (<[parentID := run]> (parents d)) (childIdx d))
      else (None, d)
  | None => (None, d)
  end.

Definition cancel_step (symbol reason : bytes) (st : gmap bytes parentRun * list ParentProgress)
    (pid : bytes) : gmap bytes parentRun * list ParentProgress :=
  let '(ps, out) := st in
  match ps !! pid with
  | Some run =>
      if bool_decide (as_Symbol (pr_spec run) = symbol) && cancellable run then
        let run := cancel_run reason run in (<[pid := run]> ps, out ++ [progressOf pid run])
      else st
  | None => st
  end.

Definition CancelSymbol (symbol reason : bytes) (d : Dispatcher) : list ParentProgress * Dispatcher :=
  let '(ps, out) := foldl (cancel_step symbol reason) (parents d, []) (sortedKeys (parents d)) in
  (out, MkDispatcher ps (childIdx d)).

(** The progress of the parents a test selects, in the order of their ids. *)
Definition progress_where (p : parentRun -> bool) (d : Dispatcher) : list ParentProgress :=
  omap (fun pid => run ← parents d !! pid; if p run then Some (progressOf pid run) else None)
    (sortedKeys (parents d)).

Definition ActiveParents (d : Dispatcher) : list ParentProgress :=
  progress_where (fun run => negb (pr_cancelled run)) d.

Definition Unfinished (d : Dispatcher) : list ParentProgress := progress_where cancellable d.

Definition active (d : Dispatcher) : gmap bytes parentRun :=
  filter (fun kr => pr_cancelled (snd kr) = false) (parents d).

Definition Symbols (d : Dispatcher) : list bytes :=
  merge_sort bytes_le (remove_dups (map (fun kr => as_Symbol (pr_spec (snd kr))) (map_to_list (active d)))).

Definition Len (d : Dispatcher) : nat := size (active d).

Definition Plan (parentID : bytes) (d : Dispatcher) : option (list ChildOrder.t) :=
  pr_plan <$> parents d !! parentID.
