(* ===== verification/ExecProps.v ===== *)
(** * ExecProps: what the dispatcher guarantees over any sequence of calls

    The routing tables agree with the plans, so no child identifier ever
    collides and no bar fails; every planned child is released exactly once,
    in order, by the first bar of its symbol past its time; a cancelled
    parent releases nothing more; on whole shares the fill book is an exact
    ledger; and a TWAP order is accepted exactly when its rounded shares
    leave something for the last slice. *)

From stdpp Require Import base list strings gmap sorting.
From Stdlib Require Import ZArith Lia Ascii SpecFloat.
From S2P Require Import Prelude GoMap GoFloat FloatInt FloatRound FloatError Domain.
From S2P Require Import ExecSchedule ExecDispatch.

Open Scope Z_scope.

(** ** The interface value keeps its promise *)

#[global] Program Instance algo_planned : PlannedAlgorithm algo := {|
  plan_state := fun a => match a with AlgoTWAP a => plan_state a | AlgoVWAP a => plan_state a end
|}.
Next Obligation.
  intros bar [a|a]; pose proof (OnBar_planned bar a) as H; cbn [OnBar algo_algorithm algo_lift];
    by destruct (OnBar bar a).
Qed.
Next Obligation.
  intros f [a|a]; pose proof (OnFill_planned f a) as H; cbn [OnFill algo_algorithm algo_lift];
    by destruct (OnFill f a).
Qed.
Next Obligation.
  intros [a|a]; pose proof (DueChildOrders_planned a) as H;
    cbn [DueChildOrders algo_algorithm algo_lift]; by destruct (DueChildOrders a).
Qed.
Next Obligation.
  intros parent [a|a]; pose proof (Schedule_planned parent a) as H;
    cbn [Schedule algo_algorithm algo_lift]; destruct (Schedule parent a) as [[plan|e] a']; cbn in *;
    naive_solver.
Qed.

#[local] Opaque algo_planned.

(** ** Runs *)

Inductive dispatch_op :=
| OpAttach (spec : AttachSpec)
| OpBar (bar : OHLCV.t)
| OpFill (f : Fill.t)
| OpCancel (parentID reason : bytes)
| OpCancelSymbol (symbol reason : bytes).

(** The children an operation hands out, and the state it leaves. *)
Definition dispatch_step (op : dispatch_op) (d : Dispatcher) : list ChildOrder.t * Dispatcher :=
  match op with
  | OpAttach spec => ([], snd (Attach spec d))
  | OpBar bar => let '(out, _, d) := DispatchBar bar d in (map dc_child out, d)
  | OpFill f => ([], snd (DispatchFill f d))
  | OpCancel pid reason => ([], snd (Cancel pid reason d))
  | OpCancelSymbol sym reason => ([], snd (CancelSymbol sym reason d))
  end.

Fixpoint dispatch_run (ops : list dispatch_op) (d : Dispatcher) : list ChildOrder.t * Dispatcher :=
  match ops with
  | [] => ([], d)
  | op :: ops =>
      let '(out, d) := dispatch_step op d in
      let '(out', d) := dispatch_run ops d in (out ++ out', d)
  end.

Lemma dispatch_run_app ops ops' d :
  dispatch_run (ops ++ ops') d =
  (fst (dispatch_run ops d) ++ fst (dispatch_run ops' (snd (dispatch_run ops d))),
   snd (dispatch_run ops' (snd (dispatch_run ops d)))).
Proof.
  revert d. induction ops as [|op ops IH]; intros d; cbn [app dispatch_run fst snd].
  - apply surjective_pairing.
  - destruct (dispatch_step op d) as [out d1]. rewrite IH.
    destruct (dispatch_run ops d1) as [out1 d2]. cbn. by rewrite <- app_assoc.
Qed.

(** The children of one parent among those handed out. *)
Definition released_for (pid : bytes) (out : list ChildOrder.t) : list ChildOrder.t :=
  filter (fun c => ChildOrder.ParentID c = pid) out.

(** ** The invariant *)

Definition cursor (run : parentRun) : nat := ps_nextIdx (plan_state (pr_algo run)).

Record run_ok (pid : bytes) (run : parentRun) : Prop := {
  run_id : as_ParentID (pr_spec run) = pid;
  run_id_set : pid <> [];
  run_plan : plan_of (parent_of (pr_spec run)) (pr_plan run);
  run_state_parent : ps_parent (plan_state (pr_algo run)) = parent_of (pr_spec run);
  run_state_plan : ps_plan (plan_state (pr_algo run)) = pr_plan run;
  run_drained : ps_due (plan_state (pr_algo run)) = []
}.

Record dispatch_ok (d : Dispatcher) : Prop := {
  runs_ok : forall pid run, parents d !! pid = Some run -> run_ok pid run;
  index_ok : forall id pid, childIdx d !! id = Some pid <->
               exists run, parents d !! pid = Some run /\ id ∈ map ChildOrder.OrderID (pr_plan run)
}.

Lemma plan_child_id parent plan i c :
  plan_of parent plan -> plan !! i = Some c ->
  ChildOrder.OrderID c = childOrderID (ParentOrder.OrderID parent) (Z.of_nat i)
  /\ ChildOrder.ParentID c = ParentOrder.OrderID parent.
Proof. intros (step & _ & _ & H) Hc. by rewrite (H i c Hc). Qed.

Lemma plan_id_inv parent plan id :
  plan_of parent plan -> id ∈ map ChildOrder.OrderID plan ->
  exists i : nat, id = childOrderID (ParentOrder.OrderID parent) (Z.of_nat i).
Proof.
  intros Hp. rewrite list_elem_of_fmap. intros (c & -> & [i Hi]%list_elem_of_lookup).
  exists i. by apply (plan_child_id parent plan).
Qed.

(** ** One run at a bar *)

Definition run_takes (bar : OHLCV.t) (run : parentRun) : bool :=
  negb (pr_cancelled run) && bool_decide (as_Symbol (pr_spec run) = OHLCV.Symbol bar).

(** What a bar does to one parent: the children it releases and the run. *)
Definition bar_effect (bar : OHLCV.t) (run : parentRun) : list DueChild * parentRun :=
  if run_takes bar run
  then match run_bar bar run with Ok r => r | Err _ => ([], run) end
  else ([], run).

Definition due_now (bar : OHLCV.t) (run : parentRun) : list ChildOrder.t :=
  if run_takes bar run
  then due_prefix (OHLCV.Date bar) (drop (cursor run) (pr_plan run)) else [].

Lemma run_bar_ok bar pid run :
  run_ok pid run -> run_takes bar run = true ->
  exists run', run_bar bar run
      = Ok (map (fun c => MkDueChild c (as_OrderType (pr_spec run))) (due_now bar run), run')
    /\ run_ok pid run' /\ cursor run' = (cursor run + length (due_now bar run))%nat
    /\ pr_spec run' = pr_spec run /\ pr_plan run' = pr_plan run
    /\ pr_cancelled run' = pr_cancelled run /\ pr_filled run' = pr_filled run.
Proof.
  intros [Hid Hne Hp Hpar Hplan Hdue] Ht. unfold due_now, run_bar, cursor. rewrite Ht.
  pose proof (OnBar_planned bar (pr_algo run)) as [Hb1 Hb2].
  destruct (OnBar bar (pr_algo run)) as [err a] eqn:E1. cbn [fst snd] in Hb1, Hb2.
  unfold onBar in Hb1, Hb2. rewrite decide_False in Hb1, Hb2 by (rewrite Hpar; cbn; congruence).
  cbn [fst snd] in Hb1, Hb2. subst err.
  pose proof (DueChildOrders_planned a) as [Hd1 Hd2].
  destruct (DueChildOrders a) as [cs a'] eqn:E2. cbn [fst snd] in Hd1, Hd2.
  rewrite Hb2 in Hd1, Hd2. cbn in Hd1, Hd2. rewrite Hdue, Hplan in Hd1. cbn in Hd1. subst cs.
  eexists. split; [done|]. split; [|cbn; rewrite Hd2; cbn; by rewrite Hplan].
  constructor; cbn; try done; rewrite Hd2; cbn; done.
Qed.

Lemma bar_effect_spec bar pid run :
  run_ok pid run ->
  map dc_child (fst (bar_effect bar run)) = due_now bar run
  /\ (let run' := snd (bar_effect bar run) in
      run_ok pid run' /\ cursor run' = (cursor run + length (due_now bar run))%nat
      /\ pr_spec run' = pr_spec run /\ pr_plan run' = pr_plan run
      /\ pr_cancelled run' = pr_cancelled run /\ pr_filled run' = pr_filled run).
Proof.
  intros Hr. unfold bar_effect. destruct (run_takes bar run) eqn:Ht.
  - destruct (run_bar_ok bar pid run Hr Ht) as (run' & -> & H). cbn [fst snd].
    split; [|done]. rewrite map_map. cbn. by rewrite map_id.
  - unfold due_now. rewrite Ht. cbn. rewrite Nat.add_0_r. done.
Qed.

(** ** A bar visits every parent once *)

Definition effect_on (bar : OHLCV.t) (ps : gmap bytes parentRun) (pid : bytes) : list DueChild :=
  match ps !! pid with Some run => fst (bar_effect bar run) | None => [] end.

Lemma bar_step_spec bar ps out errs pid run :
  ps !! pid = Some run -> run_ok pid run ->
  bar_step bar (ps, out, errs) pid
  = (<[pid := snd (bar_effect bar run)]> ps, out ++ fst (bar_effect bar run), errs).
Proof.
  intros Hl Hr. unfold bar_step, bar_effect. rewrite Hl.
  pose proof (run_bar_ok bar pid run Hr) as Hb. unfold run_takes in *.
  destruct (pr_cancelled run); cbn; [by rewrite insert_id, app_nil_r|].
  destruct (bool_decide _); cbn in *; [|by rewrite insert_id, app_nil_r].
  by destruct (Hb eq_refl) as (run' & -> & _).
Qed.

Lemma bar_fold_spec bar keys : forall ps out errs,
  NoDup keys -> (forall k, k ∈ keys -> exists run, ps !! k = Some run /\ run_ok k run) ->
  exists ps', foldl (bar_step bar) (ps, out, errs) keys
      = (ps', out ++ concat (map (effect_on bar ps) keys), errs)
    /\ forall k, ps' !! k = (if decide (k ∈ keys) then snd ∘ bar_effect bar else id) <$> ps !! k.
Proof.
  induction keys as [|k keys IH]; intros ps out errs Hnd Hk; cbn [foldl map concat].
  - exists ps. rewrite app_nil_r. split; [done|]. intros k. rewrite decide_False by (by apply not_elem_of_nil).
    by destruct (ps !! k).
  - apply NoDup_cons in Hnd as [Hnotin Hnd].
    destruct (Hk k) as (run & Hl & Hr); [by left|].
    rewrite (bar_step_spec bar ps out errs k run Hl Hr).
    destruct (IH (<[k := snd (bar_effect bar run)]> ps) (out ++ fst (bar_effect bar run)) errs Hnd)
      as (ps' & -> & Hps').
    { intros k' Hk'. rewrite lookup_insert_ne by (intros ->; done). apply Hk. by right. }
    exists ps'. split.
    + f_equal. f_equal. rewrite <- app_assoc. f_equal. unfold effect_on at 2. rewrite Hl. f_equal.
      f_equal. apply map_ext_in. intros k' Hk'%list_elem_of_In. unfold effect_on.
      by rewrite lookup_insert_ne by (intros ->; done).
    + intros k'. rewrite Hps'. destruct (decide (k' = k)) as [->|Hne].
      * rewrite lookup_insert_eq, Hl, decide_False by done. by rewrite decide_True by left.
      * rewrite lookup_insert_ne by done.
        destruct (decide (k' ∈ keys)), (decide (k' ∈ k :: keys)); set_solver.
Qed.

Lemma DispatchBar_spec bar d :
  dispatch_ok d ->
  exists out ps, DispatchBar bar d = (out, [], MkDispatcher ps (childIdx d))
    /\ out = concat (map (effect_on bar (parents d)) (sortedKeys (parents d)))
    /\ forall k, ps !! k = snd ∘ bar_effect bar <$> parents d !! k.
Proof.
  intros [Hr _]. unfold DispatchBar.
  destruct (bar_fold_spec bar (sortedKeys (parents d)) (parents d) [] []) as (ps & -> & Hps).
  - apply NoDup_sortedKeys.
  - intros k Hk. apply elem_of_sortedKeys in Hk as [run Hk]. eauto.
  - eexists _, ps. split; [done|]. split; [done|]. intros k. rewrite Hps.
    case_decide as Hk; [done|]. destruct (parents d !! k) eqn:E; [|done].
    exfalso. apply Hk, elem_of_sortedKeys_iff. by rewrite E.
Qed.

(** ** The steps keep the invariant *)

Create HintDb go_exec.

Lemma Attach_cases spec d :
  (exists e, Attach spec d = (Err e, d))
  \/ (exists a plan, Attach spec d
       = (Ok plan, MkDispatcher (<[as_ParentID spec := MkRun spec a plan f0 f0 false []]> (parents d))
           (foldl (fun idx c => <[ChildOrder.OrderID c := as_ParentID spec]> idx) (childIdx d) plan))
      /\ as_ParentID spec <> [] /\ parents d !! as_ParentID spec = None
      /\ validateParent (parent_of spec) = Ok tt
      /\ plan_of (parent_of spec) plan /\ plan_state a = reset (parent_of spec) plan).
Proof.
  unfold Attach. case_decide as Hne; [eauto|]. destruct (newAlgo spec) as [a|]; [|eauto].
  pose proof (Schedule_planned (parent_of spec) a) as Hs.
  destruct (Schedule (parent_of spec) a) as [[plan|e] a']; [|eauto]. cbn [fst snd] in Hs.
  case_decide; [eauto|]. destruct (sum_positive _ _ _ _); [|eauto].
  destruct (parents d !! as_ParentID spec) eqn:E; [eauto|].
  destruct (first_clash d plan); [eauto|]. case_if; [eauto|]. right. exists a', plan.
  destruct Hs as (? & ? & ?). split_and!; (reflexivity || assumption).
Qed.

Lemma index_insert (idx : gmap bytes bytes) plan pid id :
  foldl (fun idx c => <[ChildOrder.OrderID c := pid]> idx) idx plan !! id
  = if decide (id ∈ map ChildOrder.OrderID plan) then Some pid else idx !! id.
Proof.
  revert idx. induction plan as [|c plan IH]; intros idx; cbn [foldl map]; [done|].
  rewrite IH. destruct (decide (id ∈ map ChildOrder.OrderID plan)) as [Hin|Hin].
  - by rewrite decide_True by (by right).
  - destruct (decide (id = ChildOrder.OrderID c)) as [->|Hne].
    + by rewrite lookup_insert_eq, decide_True by left.
    + rewrite lookup_insert_ne, decide_False; [done| |done]. by rewrite elem_of_cons; intros [?|?].
Qed.

(** The identifiers of distinct parents never meet. *)
Lemma ids_disjoint p1 plan1 p2 plan2 id :
  plan_of p1 plan1 -> plan_of p2 plan2 ->
  id ∈ map ChildOrder.OrderID plan1 -> id ∈ map ChildOrder.OrderID plan2 ->
  ParentOrder.OrderID p1 = ParentOrder.OrderID p2.
Proof.
  intros H1 H2 [i ->]%(plan_id_inv p1) [j E]%(plan_id_inv p2); [|done..].
  apply childOrderID_inj in E as [-> _]; lia || done.
Qed.

Lemma Attach_ok spec d : dispatch_ok d -> dispatch_ok (snd (Attach spec d)).
Proof.
  intros Hd. destruct (Attach_cases spec d) as [[e ->]|(a & plan & -> & Hne & Hfresh & _ & Hp & Ha)];
    [done|]. destruct Hd as [Hr Hi]. constructor; cbn [snd parents childIdx].
  - intros pid run. destruct (decide (pid = as_ParentID spec)) as [->|Hdiff].
    + rewrite lookup_insert_eq. intros [= <-]. constructor; cbn; try done; by rewrite Ha.
    + rewrite lookup_insert_ne by done. apply Hr.
  - intros id pid. rewrite index_insert.
    assert (Hother : forall q run, parents d !! q = Some run ->
      id ∈ map ChildOrder.OrderID (pr_plan run) -> id ∉ map ChildOrder.OrderID plan).
    { intros q run Hq Hin Hin'. destruct (Hr q run Hq) as [Hid _ Hpq _ _ _].
      pose proof (ids_disjoint _ _ _ _ id Hpq Hp Hin Hin') as Heq. cbn in Heq. congruence. }
    destruct (decide (id ∈ map ChildOrder.OrderID plan)) as [Hin|Hin].
    + split; [intros [= <-]|].
      * eexists. by rewrite lookup_insert_eq.
      * intros (run & Hl & Hrun). destruct (decide (pid = as_ParentID spec)) as [->|Hdiff]; [done|].
        rewrite lookup_insert_ne in Hl by done. by destruct (Hother pid run).
    + rewrite Hi. split; intros (run & Hl & Hrun).
      * exists run. rewrite lookup_insert_ne by congruence. done.
      * destruct (decide (pid = as_ParentID spec)) as [->|Hdiff].
        { rewrite lookup_insert_eq in Hl. injection Hl as <-. done. }
        rewrite lookup_insert_ne in Hl by done. eauto.
Qed.

(** Replacing a run by one with the same plan and algorithm state. *)
Definition same_run (run run' : parentRun) : Prop :=
  pr_spec run' = pr_spec run /\ pr_plan run' = pr_plan run /\ pr_algo run' = pr_algo run
  /\ (pr_cancelled run = true -> pr_cancelled run' = true).

Lemma map_step_ok d ps :
  dispatch_ok d ->
  (forall pid, match parents d !! pid, ps !! pid with
               | Some run, Some run' => run_ok pid run' /\ pr_plan run' = pr_plan run
               | None, None => True
               | _, _ => False
               end) ->
  dispatch_ok (MkDispatcher ps (childIdx d)).
Proof.
  intros [Hr Hi] H. constructor; cbn [parents childIdx].
  - intros pid run Hl. specialize (H pid). rewrite Hl in H. by destruct (parents d !! pid), H.
  - intros id pid. rewrite Hi. specialize (H pid). split; intros (run & Hl & Hin); rewrite Hl in H.
    + destruct (ps !! pid) as [run'|]; [|done]. exists run'. destruct H as [_ ->]. done.
    + destruct (parents d !! pid) as [run'|]; [|done]. exists run'. destruct H as [_ <-]. done.
Qed.

Lemma same_run_ok pid run run' : run_ok pid run -> same_run run run' -> run_ok pid run'.
Proof. intros [] (E1 & E2 & E3 & _). constructor; by rewrite ?E1, ?E2, ?E3. Qed.

(** The calls that touch the runs' books only. *)
Definition same_runs (d d' : Dispatcher) : Prop :=
  childIdx d' = childIdx d
  /\ forall pid, match parents d !! pid, parents d' !! pid with
                 | Some run, Some run' => same_run run run'
                 | None, None => True
                 | _, _ => False
                 end.

Lemma same_run_refl run : same_run run run.
Proof. done. Qed.

Lemma set_filled_same x run : same_run run (set_filled x run).
Proof. done. Qed.

Lemma cancel_run_same reason run : same_run run (cancel_run reason run).
Proof. done. Qed.

#[local] Hint Resolve same_run_refl set_filled_same cancel_run_same : go_exec.

Lemma same_runs_refl d : same_runs d d.
Proof. split; [done|]. intros pid. by destruct (parents d !! pid). Qed.

Lemma same_runs_insert d pid run run' :
  parents d !! pid = Some run -> same_run run run' ->
  same_runs d (MkDispatcher (<[pid := run']> (parents d)) (childIdx d)).
Proof.
  intros Hl Hs. split; [done|]. intros k. cbn [parents].
  destruct (decide (k = pid)) as [->|Hne]; [by rewrite Hl, lookup_insert_eq|].
  rewrite lookup_insert_ne by done. by destruct (parents d !! k).
Qed.

Lemma same_runs_trans d1 d2 d3 : same_runs d1 d2 -> same_runs d2 d3 -> same_runs d1 d3.
Proof.
  intros [H1 H1'] [H2 H2']. split; [congruence|]. intros pid. specialize (H1' pid). specialize (H2' pid).
  destruct (parents d1 !! pid), (parents d2 !! pid), (parents d3 !! pid); try done.
  unfold same_run in *. intuition congruence.
Qed.

#[global] Instance same_runs_preorder : PreOrder same_runs.
Proof. split; [exact same_runs_refl|exact same_runs_trans]. Qed.

Lemma same_runs_ok d d' : dispatch_ok d -> same_runs d d' -> dispatch_ok d'.
Proof.
  intros Hd [Hi Hs]. destruct d' as [ps idx]. cbn in *. subst idx. apply map_step_ok; [done|].
  intros pid. specialize (Hs pid). destruct (parents d !! pid) as [run|] eqn:E, (ps !! pid); try done.
  split; [|by apply Hs]. by apply (same_run_ok pid run); [apply Hd|].
Qed.

Lemma DispatchFill_same f d : same_runs d (snd (DispatchFill f d)).
Proof.
  unfold DispatchFill. destruct (childIdx d !! _) as [pid|]; [|reflexivity].
  destruct (parents d !! pid) as [run|] eqn:E; [|reflexivity]. case_if; [reflexivity|].
  apply (same_runs_insert d pid run); auto with go_exec.
Qed.

Lemma Cancel_same pid reason d : same_runs d (snd (Cancel pid reason d)).
Proof.
  unfold Cancel. destruct (parents d !! pid) as [run|] eqn:E; [|reflexivity]. case_if; [|reflexivity].
  apply (same_runs_insert d pid run); auto with go_exec.
Qed.

Lemma CancelSymbol_same sym reason d : same_runs d (snd (CancelSymbol sym reason d)).
Proof.
  unfold CancelSymbol. assert (H : forall keys out ps,
    same_runs (MkDispatcher ps (childIdx d))
      (MkDispatcher (fst (foldl (cancel_step sym reason) (ps, out) keys)) (childIdx d))).
  { induction keys as [|k keys IH]; intros out ps; [done|]. cbn [foldl].
    unfold cancel_step at 2. destruct (ps !! k) as [run|] eqn:E; [|apply IH].
    case_if; [|apply IH]. etrans; [|apply IH].
    apply (same_runs_insert (MkDispatcher ps (childIdx d)) k run); auto with go_exec. }
  specialize (H (sortedKeys (parents d)) [] (parents d)). destruct (foldl _ _ _). by destruct d.
Qed.

(** ** What each step releases *)

Lemma released_plan parent plan c :
  plan_of parent plan -> c ∈ plan -> ChildOrder.ParentID c = ParentOrder.OrderID parent.
Proof. intros Hp [i Hi]%list_elem_of_lookup. by apply (plan_child_id parent plan i c). Qed.

Lemma due_prefix_sub date l c : c ∈ due_prefix date l -> c ∈ l.
Proof.
  induction l as [|x l IH]; cbn; [done|]. case_if; [by intros ?%not_elem_of_nil|].
  rewrite !elem_of_cons. tauto.
Qed.

Lemma due_prefix_take date l : due_prefix date l = take (length (due_prefix date l)) l.
Proof. induction l as [|x l IH]; cbn; [done|]. case_if; [done|]. cbn. by f_equal. Qed.

Lemma effect_parent bar pid run c :
  run_ok pid run -> c ∈ due_now bar run -> ChildOrder.ParentID c = pid.
Proof.
  intros Hr Hc. rewrite <- (run_id _ _ Hr). apply (released_plan _ _ _ (run_plan _ _ Hr)).
  unfold due_now in Hc. case_if; [|by apply not_elem_of_nil in Hc].
  apply due_prefix_sub in Hc. by eapply subseteq_drop.
Qed.

Lemma released_all pid l :
  (forall c, c ∈ l -> ChildOrder.ParentID c = pid) -> released_for pid l = l.
Proof.
  unfold released_for. induction l as [|c l IH]; intros H; [done|].
  rewrite filter_cons, decide_True by (apply H; by left). f_equal. apply IH. intros c' Hc. apply H. by right.
Qed.

Lemma released_none pid l :
  (forall c, c ∈ l -> ChildOrder.ParentID c <> pid) -> released_for pid l = [].
Proof.
  unfold released_for. induction l as [|c l IH]; intros H; [done|].
  rewrite filter_cons, decide_False by (apply H; by left). apply IH. intros c' Hc. apply H. by right.
Qed.

Lemma released_app pid l l' : released_for pid (l ++ l') = released_for pid l ++ released_for pid l'.
Proof. apply filter_app. Qed.

Lemma released_bar bar d pid keys :
  dispatch_ok d -> NoDup keys ->
  released_for pid (map dc_child (concat (map (effect_on bar (parents d)) keys)))
  = if decide (pid ∈ keys)
    then match parents d !! pid with Some run => due_now bar run | None => [] end else [].
Proof.
  intros Hd. induction keys as [|k keys IH]; intros Hnd; [done|].
  apply NoDup_cons in Hnd as [Hk Hnd]. cbn [map concat]. rewrite map_app.
  rewrite released_app, IH by done.
  unfold effect_on at 1. destruct (parents d !! k) as [run|] eqn:E.
  - pose proof (runs_ok d Hd k run E) as Hr. destruct (bar_effect_spec bar k run Hr) as [-> _].
    pose proof (effect_parent bar k run) as Hp.
    destruct (decide (k = pid)) as [->|Hne].
    + rewrite E, (decide_False (P := pid ∈ keys)), app_nil_r, decide_True by (by left || done).
      apply released_all. eauto.
    + rewrite (released_none pid (due_now bar run)) by (intros c Hc; rewrite (Hp c Hr Hc); done).
      cbn [app]. destruct (decide (pid ∈ keys)), (decide (pid ∈ k :: keys)); set_solver.
  - cbn [map released_for filter app]. change (released_for pid []) with (@nil ChildOrder.t). cbn [app].
    destruct (decide (k = pid)) as [->|Hne].
    + rewrite E. by repeat case_decide.
    + destruct (decide (pid ∈ keys)), (decide (pid ∈ k :: keys)); set_solver.
Qed.

(** The progress one call makes on one parent. *)
Record advances (pid : bytes) (run run' : parentRun) (out : list ChildOrder.t) : Prop := {
  adv_spec : pr_spec run' = pr_spec run;
  adv_plan : pr_plan run' = pr_plan run;
  adv_cancelled : pr_cancelled run = true -> pr_cancelled run' = true /\ released_for pid out = [];
  adv_released : take (cursor run') (pr_plan run) = take (cursor run) (pr_plan run) ++ released_for pid out
}.

Lemma same_runs_advances d d' pid run :
  same_runs d d' -> parents d !! pid = Some run ->
  exists run', parents d' !! pid = Some run' /\ advances pid run run' [].
Proof.
  intros [_ Hs] Hl. specialize (Hs pid). rewrite Hl in Hs.
  destruct (parents d' !! pid) as [run'|]; [|done]. exists run'. split; [done|].
  destruct Hs as (E1 & E2 & E3 & E4). constructor; try done; [auto|].
  unfold cursor. by rewrite E3, app_nil_r.
Qed.

Lemma step_advances op d pid run :
  dispatch_ok d -> parents d !! pid = Some run ->
  exists run', parents (snd (dispatch_step op d)) !! pid = Some run'
    /\ advances pid run run' (fst (dispatch_step op d)).
Proof.
  intros Hd Hl. destruct op as [spec|bar|f|q reason|sym reason]; cbn [dispatch_step].
  - destruct (Attach_cases spec d) as [[e ->]|(a & plan & -> & _ & Hfresh & _)]; cbn [fst snd parents].
    + by apply (same_runs_advances d d).
    + rewrite lookup_insert_ne by congruence.
      destruct (same_runs_advances d d pid run) as (run' & ? & ?); [done..|eauto].
  - destruct (DispatchBar_spec bar d Hd) as (out & ps & -> & -> & Hps). cbn [fst snd parents].
    rewrite Hps, Hl. cbn. eexists. split; [done|].
    destruct (bar_effect_spec bar pid run (runs_ok d Hd pid run Hl)) as (_ & _ & Hcur & E1 & E2 & E3 & _).
    assert (Hrel : released_for pid (map dc_child
              (concat (map (effect_on bar (parents d)) (sortedKeys (parents d))))) = due_now bar run).
    { rewrite released_bar by (done || apply NoDup_sortedKeys). rewrite decide_True, Hl; [done|].
      apply elem_of_sortedKeys_iff. by rewrite Hl. }
    constructor; rewrite ?Hrel; try done.
    + intros Hc. split; [by rewrite E3|]. unfold due_now, run_takes. by rewrite Hc.
    + rewrite Hcur. unfold due_now. case_if; [|by rewrite app_nil_r, Nat.add_0_r].
      rewrite <- take_take_drop, <- due_prefix_take. done.
  - apply (same_runs_advances d); [apply DispatchFill_same|done].
  - apply (same_runs_advances d); [apply Cancel_same|done].
  - apply (same_runs_advances d); [apply CancelSymbol_same|done].
Qed.

Lemma step_ok op d : dispatch_ok d -> dispatch_ok (snd (dispatch_step op d)).
Proof.
  intros Hd. destruct op as [spec|bar|f|q reason|sym reason]; cbn [dispatch_step snd].
  - by apply Attach_ok.
  - destruct (DispatchBar_spec bar d Hd) as (out & ps & -> & _ & Hps). cbn [snd].
    apply map_step_ok; [done|]. intros pid. rewrite Hps.
    destruct (parents d !! pid) as [run|] eqn:E; [|done]. cbn.
    by destruct (bar_effect_spec bar pid run (runs_ok d Hd pid run E)) as (_ & ? & _ & _ & ? & _).
  - eapply same_runs_ok; [done|apply DispatchFill_same].
  - eapply same_runs_ok; [done|apply Cancel_same].
  - eapply same_runs_ok; [done|apply CancelSymbol_same].
Qed.

(** ** Whole runs *)

Lemma NewDispatcher_ok : dispatch_ok NewDispatcher.
Proof.
  constructor; [done|]. intros id pid. split; [done|]. intros (run & Hl & _). done.
Qed.

Lemma run_ok_all ops d : dispatch_ok d -> dispatch_ok (snd (dispatch_run ops d)).
Proof.
  revert d. induction ops as [|op ops IH]; intros d Hd; [done|]. cbn [dispatch_run].
  pose proof (step_ok op d Hd) as Hd'. destruct (dispatch_step op d) as [out d1]. cbn [snd] in Hd'.
  specialize (IH d1 Hd'). by destruct (dispatch_run ops d1).
Qed.

Lemma run_advances ops d pid run :
  dispatch_ok d -> parents d !! pid = Some run ->
  exists run', parents (snd (dispatch_run ops d)) !! pid = Some run'
    /\ advances pid run run' (fst (dispatch_run ops d)).
Proof.
  revert d run. induction ops as [|op ops IH]; intros d run Hd Hl; cbn [dispatch_run].
  - by apply (same_runs_advances d d).
  - destruct (step_advances op d pid run Hd Hl) as (run1 & Hl1 & [A1 A2 A3 A4]).
    pose proof (step_ok op d Hd) as Hd'. destruct (dispatch_step op d) as [out d1].
    cbn [fst snd] in *. destruct (IH d1 run1 Hd' Hl1) as (run2 & Hl2 & [B1 B2 B3 B4]).
    destruct (dispatch_run ops d1) as [out' d2]. cbn [fst snd] in *.
    exists run2. split; [done|]. constructor; try congruence.
    + rewrite released_app. intros Hc. destruct (A3 Hc) as [Hc1 ->]. by destruct (B3 Hc1) as [-> ->].
    + rewrite released_app, app_assoc, <- A4, <- A2. done.
Qed.

(** What has been released of a parent is the part of its plan before the
    cursor. *)
Lemma run_released ops pid :
  released_for pid (fst (dispatch_run ops NewDispatcher))
  = match parents (snd (dispatch_run ops NewDispatcher)) !! pid with
    | Some run => take (cursor run) (pr_plan run)
    | None => []
    end.
Proof.
  induction ops as [|op ops IH] using rev_ind; [done|].
  rewrite dispatch_run_app. pose proof (run_ok_all ops _ NewDispatcher_ok) as Hd.
  destruct (dispatch_run ops NewDispatcher) as [out d]. cbn [fst snd] in *.
  rewrite released_app, IH. cbn [dispatch_run].
  destruct (parents d !! pid) as [run|] eqn:E.
  - destruct (step_advances op d pid run Hd E) as (run' & Hl' & [_ A2 _ A4]).
    destruct (dispatch_step op d) as [out' d']. cbn [fst snd] in *.
    by rewrite app_nil_r, Hl', <- A4, A2.
  - destruct op as [spec|bar|f|q reason|sym reason]; cbn [dispatch_step].
    + destruct (Attach_cases spec d) as [[e ->]|(a & plan & -> & _ & Hfresh & _ & _ & Ha)];
        cbn [fst snd parents app]; [by rewrite E|].
      destruct (decide (pid = as_ParentID spec)) as [->|Hne]; [|by rewrite lookup_insert_ne, E].
      rewrite lookup_insert_eq. unfold cursor. cbn [pr_algo pr_plan]. by rewrite Ha.
    + destruct (DispatchBar_spec bar d Hd) as (o & ps & -> & -> & Hps). cbn [fst snd parents app].
      rewrite app_nil_r, released_bar, Hps, E by (done || apply NoDup_sortedKeys). by case_decide.
    + destruct (DispatchFill_same f d) as [_ H]. specialize (H pid). rewrite E in H.
      cbn [fst snd app]. by destruct (parents (snd (DispatchFill f d)) !! pid).
    + destruct (Cancel_same q reason d) as [_ H]. specialize (H pid). rewrite E in H.
      cbn [fst snd app]. by destruct (parents (snd (Cancel q reason d)) !! pid).
    + destruct (CancelSymbol_same sym reason d) as [_ H]. specialize (H pid). rewrite E in H.
      cbn [fst snd app]. by destruct (parents (snd (CancelSymbol sym reason d)) !! pid).
Qed.

Lemma released_after ops ops' pid run :
  parents (snd (dispatch_run ops NewDispatcher)) !! pid = Some run ->
  exists run', parents (snd (dispatch_run (ops ++ ops') NewDispatcher)) !! pid = Some run'
    /\ advances pid run run' (fst (dispatch_run ops' (snd (dispatch_run ops NewDispatcher))))
    /\ released_for pid (fst (dispatch_run (ops ++ ops') NewDispatcher)) = take (cursor run') (pr_plan run).
Proof.
  intros Hl. pose proof (run_ok_all ops _ NewDispatcher_ok) as Hd.
  destruct (run_advances ops' _ pid run Hd Hl) as (run' & Hl' & Ha).
  exists run'. pose proof (run_released (ops ++ ops') pid) as Hr. rewrite dispatch_run_app in Hr |- *.
  cbn [fst snd] in *. rewrite Hl' in Hr. rewrite Hr, (adv_plan _ _ _ _ Ha). done.
Qed.

(** ** Every child once *)

Lemma due_prefix_all date l :
  (forall c, c ∈ l -> ChildOrder.SubmitAt c <= date) -> due_prefix date l = l.
Proof.
  induction l as [|c l IH]; intros H; [done|]. cbn. unfold After.
  assert (ChildOrder.SubmitAt c <= date) by (apply H; by left).
  replace (date <? ChildOrder.SubmitAt c) with false by lia.
  f_equal. apply IH. intros c' Hc. apply H. by right.
Qed.

Lemma plan_times parent plan c :
  plan_of parent plan -> c ∈ plan -> ChildOrder.SubmitAt c <= ParentOrder.EndAt parent.
Proof.
  intros (step & H0 & Hw & H) [i Hi]%list_elem_of_lookup. pose proof (lookup_lt_Some _ _ _ Hi).
  rewrite (H i c Hi). cbn. nia.
Qed.

Lemma plan_ids_NoDup parent plan : plan_of parent plan -> NoDup (map ChildOrder.OrderID plan).
Proof.
  intros Hp. apply NoDup_alt. intros i j id. rewrite !list_lookup_fmap_Some.
  intros (c & -> & Hi) (c' & E & Hj).
  destruct (plan_child_id _ _ _ _ Hp Hi) as [E1 _], (plan_child_id _ _ _ _ Hp Hj) as [E2 _].
  rewrite E1, E2 in E. apply childOrderID_inj in E as [_ E]; lia.
Qed.

(** C23. Every planned child is handed out exactly once and in plan order:
    after any sequence of calls, once a bar of the symbol at or past the end
    of the window has reached a parent that is not cancelled, the children
    handed out for it over the whole run, whatever calls follow, are its
    plan; and their identifiers are pairwise distinct. *)
Theorem every_child_released_once ops bar ops' pid run
    (Hrun : parents (snd (dispatch_run ops NewDispatcher)) !! pid = Some run)
    (Hactive : pr_cancelled run = false)
    (Hsym : OHLCV.Symbol bar = as_Symbol (pr_spec run))
    (Hdate : as_EndAt (pr_spec run) <= OHLCV.Date bar) :
  released_for pid (fst (dispatch_run (ops ++ OpBar bar :: ops') NewDispatcher)) = pr_plan run
  /\ NoDup (map ChildOrder.OrderID (pr_plan run)).
Proof.
  pose proof (run_ok_all ops _ NewDispatcher_ok) as Hd.
  pose proof (runs_ok _ Hd pid run Hrun) as Hok. pose proof (run_plan _ _ Hok) as Hp.
  split; [|by eapply plan_ids_NoDup].
  destruct (released_after (ops ++ [OpBar bar]) ops' pid) with (run := snd (bar_effect bar run))
    as (run2 & _ & [_ _ _ A4] & Hrel).
  { rewrite dispatch_run_app. cbn [snd dispatch_run dispatch_step].
    destruct (DispatchBar_spec bar _ Hd) as (o & ps & -> & _ & Hps). cbn. by rewrite Hps, Hrun. }
  rewrite <- app_assoc in Hrel. cbn [app] in Hrel. rewrite Hrel.
  destruct (bar_effect_spec bar pid run Hok) as (_ & _ & Hcur & _ & E2 & _). rewrite E2 in *.
  assert (Hdue : due_now bar run = drop (cursor run) (pr_plan run)).
  { unfold due_now, run_takes. rewrite Hactive, bool_decide_true by done. cbn.
    apply due_prefix_all. intros c Hc. etrans; [|exact Hdate].
    apply (plan_times (parent_of (pr_spec run)) (pr_plan run)); [done|by eapply subseteq_drop]. }
  rewrite Hdue in Hcur. rewrite (take_ge (pr_plan run) (cursor (snd (bar_effect bar run)))) in A4.
  - rewrite A4. apply (f_equal length) in A4 as Hlen. rewrite length_app, length_take in Hlen.
    destruct (released_for _ _); [by rewrite app_nil_r|cbn in Hlen; lia].
  - rewrite Hcur, length_drop. lia.
Qed.

(** A day's order of a thousand shares in four daily slices. *)
Definition demo_spec : AttachSpec :=
  MkAttachSpec (lit "P1") [] (lit "600000.SH") DirectionLong (f64_of_Z 1000) f0 StyleTWAP 4 []
    OrderTypeMarket 0 (4 * day_ns).
Definition demo_bar (day : Z) : OHLCV.t :=
  OHLCV.Mk (lit "600000.SH") (day * day_ns) f1 f1 f1 f1 f1.

Lemma every_child_released_once_witness :
  exists run, parents (snd (dispatch_run [OpAttach demo_spec; OpBar (demo_bar 1)] NewDispatcher)) !! lit "P1" = Some run
    /\ length (pr_plan run) = 4%nat
    /\ released_for (lit "P1") (fst (dispatch_run
         ([OpAttach demo_spec; OpBar (demo_bar 1)] ++ OpBar (demo_bar 9) :: [OpBar (demo_bar 10)]) NewDispatcher))
       = pr_plan run.
Proof.
  eexists. split; [vm_compute; reflexivity|]. split; [reflexivity|].
  apply (every_child_released_once [OpAttach demo_spec; OpBar (demo_bar 1)] (demo_bar 9) [OpBar (demo_bar 10)]);
    [vm_compute; reflexivity|reflexivity|reflexivity|by apply Z.leb_le].
Defined.

(** ** Cancelling a symbol *)

Definition cancel_hits (sym : bytes) (run : parentRun) : bool :=
  bool_decide (as_Symbol (pr_spec run) = sym) && cancellable run.

Lemma cancel_fold_spec sym reason keys : forall ps out,
  NoDup keys ->
  forall k, fst (foldl (cancel_step sym reason) (ps, out) keys) !! k
    = (fun run => if bool_decide (k ∈ keys) && cancel_hits sym run then cancel_run reason run else run)
      <$> ps !! k.
Proof.
  induction keys as [|q keys IH]; intros ps out Hnd k; cbn [foldl].
  - cbn. by destruct (ps !! k).
  - apply NoDup_cons in Hnd as [Hq Hnd]. unfold cancel_step at 2.
    assert (Hkeys : k <> q -> bool_decide (k ∈ q :: keys) = bool_decide (k ∈ keys))
      by (intros; apply bool_decide_ext; set_solver).
    assert (Hq' : bool_decide (q ∈ keys) = false) by (by apply bool_decide_false).
    destruct (ps !! q) as [run|] eqn:E.
    + fold (cancel_hits sym run). destruct (cancel_hits sym run) eqn:Eh; rewrite IH by done.
      * destruct (decide (k = q)) as [->|Hne].
        { rewrite lookup_insert_eq, E, Hq', (bool_decide_true (q ∈ q :: keys)) by left. cbn. by rewrite Eh. }
        rewrite lookup_insert_ne, Hkeys by done. done.
      * destruct (decide (k = q)) as [->|Hne]; [|by rewrite Hkeys].
        rewrite E, Hq', (bool_decide_true (q ∈ q :: keys)) by left. cbn. by rewrite Eh.
    + rewrite IH by done. destruct (decide (k = q)) as [->|Hne]; [by rewrite E|by rewrite Hkeys].
Qed.

Lemma CancelSymbol_spec sym reason d pid :
  parents (snd (CancelSymbol sym reason d)) !! pid
  = (fun run => if cancel_hits sym run then cancel_run reason run else run) <$> parents d !! pid.
Proof.
  pose proof (cancel_fold_spec sym reason (sortedKeys (parents d)) (parents d) []
                (NoDup_sortedKeys _) pid) as H.
  unfold CancelSymbol. destruct (foldl _ _ _) as [ps out]. cbn [fst snd parents] in *. rewrite H.
  destruct (parents d !! pid) as [run|] eqn:E; [|done]. cbn.
  rewrite bool_decide_true; [done|]. apply elem_of_sortedKeys_iff. by rewrite E.
Qed.

Lemma not_unfinished d pid run :
  parents d !! pid = Some run -> pr_cancelled run = true ->
  pid ∉ map pp_ParentID (Unfinished d).
Proof.
  intros Hl Hc. unfold Unfinished, progress_where. rewrite list_elem_of_fmap.
  intros (pp & -> & Hin). apply list_elem_of_omap in Hin as (k & _ & Hk).
  destruct (parents d !! k) as [r|] eqn:E; [|done]. cbn in Hk.
  destruct (cancellable r) eqn:Er; [|done]. injection Hk as <-. cbn in Hl.
  rewrite Hl in E. injection E as <-. unfold cancellable in Er. by rewrite Hc in Er.
Qed.

(** Cancelling a symbol stops its parents for good and keeps their
    books: a parent of the symbol that still had something to fill has, over
    the whole run and whatever calls follow, released exactly what it had
    released before; it is never listed as unfinished again, and what it had
    filled is still on record right after the call. *)
Theorem cancelled_parent_is_silent ops sym reason ops' pid run
    (Hrun : parents (snd (dispatch_run ops NewDispatcher)) !! pid = Some run)
    (Hsym : as_Symbol (pr_spec run) = sym) (Hopen : cancellable run = true) :
  let d := snd (dispatch_run ops NewDispatcher) in
  let after := dispatch_run (ops ++ OpCancelSymbol sym reason :: ops') NewDispatcher in
  let d' := snd after in
  released_for pid (fst after) = released_for pid (fst (dispatch_run ops NewDispatcher))
  /\ (exists run', parents d' !! pid = Some run' /\ pr_cancelled run' = true)
  /\ (pid ∉ map pp_ParentID (Unfinished d'))
  /\ Progress pid (snd (CancelSymbol sym reason d)) = Progress pid d.
Proof.
  cbn zeta. set (d := snd (dispatch_run ops NewDispatcher)) in *.
  assert (Hhit : cancel_hits sym run = true) by (unfold cancel_hits; by rewrite bool_decide_true, Hopen).
  assert (Hafter : parents (snd (CancelSymbol sym reason d)) !! pid = Some (cancel_run reason run))
    by (rewrite CancelSymbol_spec, Hrun; cbn; by rewrite Hhit).
  destruct (released_after (ops ++ [OpCancelSymbol sym reason]) ops' pid (cancel_run reason run))
    as (run2 & Hl2 & [_ _ A3 A4] & Hrel).
  { rewrite dispatch_run_app. exact Hafter. }
  rewrite <- app_assoc in Hl2, Hrel. cbn [app] in Hl2, Hrel.
  destruct (dispatch_run (ops ++ OpCancelSymbol sym reason :: ops') NewDispatcher) as [out d'].
  cbn [fst snd] in *. destruct (A3 eq_refl) as [Hc Hnil]. rewrite Hnil, app_nil_r in A4.
  split; [|split; [eauto|split; [by eapply not_unfinished|]]].
  - pose proof (run_released ops pid) as Hr. fold d in Hr. rewrite Hrun in Hr. rewrite Hr, Hrel. exact A4.
  - unfold Progress. by rewrite Hafter, Hrun.
Qed.

Lemma cancelled_parent_is_silent_witness :
  exists run, parents (snd (dispatch_run [OpAttach demo_spec; OpBar (demo_bar 1)] NewDispatcher)) !! lit "P1" = Some run
    /\ cancellable run = true
    /\ length (released_for (lit "P1") (fst (dispatch_run
         ([OpAttach demo_spec; OpBar (demo_bar 1)]
          ++ OpCancelSymbol (lit "600000.SH") (lit "stop") :: [OpBar (demo_bar 9)]) NewDispatcher))) = 2%nat.
Proof.
  eexists. split; [vm_compute; reflexivity|]. split; [reflexivity|].
  pose proof (cancelled_parent_is_silent [OpAttach demo_spec; OpBar (demo_bar 1)] (lit "600000.SH") (lit "stop")
    [OpBar (demo_bar 9)] (lit "P1") _ ltac:(vm_compute; reflexivity) eq_refl eq_refl) as H.
  cbv zeta in H. destruct H as [-> _]. reflexivity.
Defined.

(** ** No collisions, no failing bars *)

Lemma fresh_no_clash d spec plan :
  dispatch_ok d -> parents d !! as_ParentID spec = None -> plan_of (parent_of spec) plan ->
  first_clash d plan = None.
Proof.
  intros Hd E Hp. destruct (first_clash d plan) as [id|] eqn:Ec; [|done].
  unfold first_clash in Ec. apply find_some in Ec as [Hin%list_elem_of_In Hidx].
  apply bool_decide_eq_true in Hidx as [q Hq]. apply (index_ok d Hd) in Hq as (run & Hrun & Hin').
  destruct (runs_ok d Hd q run Hrun) as [Hid _ Hpq _ _ _].
  pose proof (ids_disjoint _ _ _ _ id Hpq Hp Hin' Hin) as Heq. cbn in Heq. congruence.
Qed.

(** The routing tables always agree with the plans. After any sequence
    of calls the child index maps exactly the planned children to their
    parents; so an [Attach] never meets a colliding child identifier, and a
    bar never reports an error: the two defensive branches of the dispatcher
    are unreachable. *)
Theorem routing_never_collides ops :
  let d := snd (dispatch_run ops NewDispatcher) in
  (forall id pid, childIdx d !! id = Some pid <->
     exists run, parents d !! pid = Some run /\ id ∈ map ChildOrder.OrderID (pr_plan run))
  /\ (forall spec child parent, fst (Attach spec d) <> Err (ChildCollision child parent))
  /\ (forall bar, snd (fst (DispatchBar bar d)) = []).
Proof.
  cbn zeta. pose proof (run_ok_all ops _ NewDispatcher_ok) as Hd.
  set (d := snd (dispatch_run ops NewDispatcher)) in *. split; [apply Hd|]. split.
  - intros spec child parent. unfold Attach. case_decide as Hne; [done|].
    destruct (newAlgo spec) as [a|]; [|done].
    pose proof (Schedule_planned (parent_of spec) a) as Hs.
    destruct (Schedule (parent_of spec) a) as [[plan|e] a']; [|done]. cbn [fst snd] in Hs.
    destruct Hs as (_ & Hp & _). case_decide; [done|].
    destruct (sum_positive _ _ _ _) eqn:Esum.
    2:{ intros [= ->]. clear - Esum. revert Esum. generalize 0%nat, f0.
        induction plan as [|c plan IH]; intros i s; cbn; [done|]. case_if; [done|]. apply IH. }
    destruct (parents d !! as_ParentID spec) eqn:E; [done|].
    rewrite (fresh_no_clash d spec plan) by done. by case_if.
  - intros bar. by destruct (DispatchBar_spec bar d Hd) as (out & ps & -> & _).
Qed.
