(* ===== verification/ExecQty.v ===== *)
(** * ExecQty: quantities of the execution algorithms

    On whole shares the float64 books are exact. The fill book of the
    dispatcher accepts a fill exactly when it fits, and a TWAP order of Q
    shares in n slices is accepted exactly when n-1 rounded shares leave
    something for the last slice. *)

From stdpp Require Import base list strings gmap sorting.
From Stdlib Require Import ZArith Lia Ascii SpecFloat.
From S2P Require Import Prelude GoMap GoFloat FloatInt FloatRound FloatError Domain.
From S2P Require Import ExecSchedule ExecDispatch ExecProps.

Open Scope Z_scope.

(** ** The tolerance is below one share *)

(** The parent quantities for which it is: less than a billion shares. *)
Definition share_range (Q : Z) : Prop := 1 <= Q <= 999999998.

Lemma tolerance_small Q :
  share_range Q ->
  let tol := qtySumTolerance (f64_of_Z Q) in
  fvalid tol = true /\ ffinite tol = true /\ 0 < fmag tol < ulp1.
Proof.
  unfold share_range. intros HQ. cbn zeta. unfold qtySumTolerance.
  assert (Hw : whole_range Q) by (unfold whole_range; lia).
  rewrite Abs_whole by (done || lia).
  assert (HM : MathMax f1 (f64_of_Z Q) = f64_of_Z Q).
  { unfold MathMax. change f1 with (f64_of_Z 1). change f0 with (f64_of_Z 0).
    rewrite feq_whole, flt_whole by (done || unfold whole_range; lia).
    replace (Q <? 1) with false by lia. cbn [Z.eqb andb].
    destruct (whole_cases Q Hw) as [[-> _]|(s & p & _ & _ & _ & ->)]; [lia|]. done. }
  rewrite HM. clear HM. pose proof (fmag_whole Q Hw) as MQ. fold ulp1 in MQ.
  set (eps := flit 1 9) in *.
  assert (Heps : fmag eps * 999999999 <= ulp1 /\ ulp1 <= fmag eps * 1000000001) by (by vm_compute).
  assert (Veps : fvalid eps = true) by (by vm_compute).
  assert (Feps : ffinite eps = true) by (by vm_compute).
  clearbody eps. pose proof ulp1_pos as Hu. assert (Heps0 : 0 < fmag eps) by lia.
  destruct (fmul_near eps (f64_of_Z Q) Veps (fvalid_of_Z Q) Feps (ffinite_whole Q Hw)) as (V & F & P & E).
  - exact Heps0.
  - rewrite MQ. apply Z.mul_pos_pos; lia.
  - rewrite MQ. split.
    + apply Z.le_trans with (2 ^ 1044 * 2 ^ 1074); [by apply Z.leb_le|].
      apply Z.mul_le_mono_nonneg; [done| |done|unfold ulp1 in *; nia].
      apply (Z.mul_le_mono_pos_r _ _ 1000000001); [done|].
      apply Z.le_trans with ulp1; [by apply Z.leb_le|lia].
    + apply Z.le_lt_trans with (2 ^ 1074 * (2 ^ 30 * 2 ^ 1074)); [|by apply Z.ltb_lt].
      change (2 ^ 1074) with ulp1. apply Z.mul_le_mono_nonneg; [lia|lia|nia|].
      apply Z.mul_le_mono_nonneg_r; lia.
  - split; [done|]. split; [done|]. split; [done|]. rewrite MQ in E.
    set (T := fmag (eps * f64_of_Z Q)%f64) in *. clearbody T. clear V F.
    replace (T * ulp1 - fmag eps * (Q * ulp1)) with ((T - fmag eps * Q) * ulp1) in E by ring.
    rewrite Z.abs_mul, (Z.abs_eq ulp1), Z.mul_assoc in E by lia.
    assert (E' : Z.abs (T - fmag eps * Q) * 2 ^ 52 <= fmag eps * Q).
    { apply (Z.mul_le_mono_pos_r _ _ ulp1); [done|]. lia. }
    assert (fmag eps * Q <= fmag eps * 999999998) by (apply Z.mul_le_mono_nonneg_l; lia).
    lia.
Qed.

(** Against a whole difference the tolerance is a test for zero. *)
Lemma tolerance_cmp Q z :
  share_range Q -> whole_range z -> flt (qtySumTolerance (f64_of_Z Q)) (f64_of_Z z) = (0 <? z).
Proof.
  intros HQ Hz. destruct (tolerance_small Q HQ) as (V & F & P).
  set (tol := qtySumTolerance (f64_of_Z Q)) in *. clearbody tol.
  apply eq_bool_prop_intro. rewrite !Is_true_true.
  rewrite (flt_fmag tol (f64_of_Z z) V (fvalid_of_Z z) F (ffinite_whole z Hz)).
  rewrite (fmag_whole z Hz). fold ulp1. pose proof ulp1_pos. rewrite Z.ltb_lt. nia.
Qed.

(** ** The fill book *)

(** Calls with whole quantities: parents of less than a billion shares,
    fills of any whole number of shares below 2^52. *)
Definition whole_op (op : dispatch_op) : Prop :=
  match op with
  | OpAttach spec => exists Q, as_Qty spec = f64_of_Z Q /\ share_range Q
  | OpFill f => exists q, Fill.Qty f = f64_of_Z q /\ 0 <= q < 2 ^ 52
  | _ => True
  end.

(** The book of a parent: Q shares, F of them filled. *)
Definition book (run : parentRun) (Q F : Z) : Prop :=
  as_Qty (pr_spec run) = f64_of_Z Q /\ share_range Q /\ pr_filled run = f64_of_Z F /\ 0 <= F <= Q.

Definition books_ok (d : Dispatcher) : Prop :=
  forall pid run, parents d !! pid = Some run -> exists Q F, book run Q F.

Lemma fill_on_book f d pid run Q F q :
  childIdx d !! Fill.OrderID f = Some pid -> parents d !! pid = Some run -> book run Q F ->
  Fill.Qty f = f64_of_Z q -> 0 <= q < 2 ^ 52 ->
  DispatchFill f d
  = if F + q <=? Q
    then (Ok tt, MkDispatcher (<[pid := set_filled (f64_of_Z (F + q)) run]> (parents d)) (childIdx d))
    else (Err (OverFilled pid (f64_of_Z F) (f64_of_Z q) (f64_of_Z Q) (f64_of_Z (F + q - Q))
                 (Fill.OrderID f)), d).
Proof.
  intros Hidx Hl (HQ & HR & HF & HB) Hq Hq0. unfold DispatchFill. rewrite Hidx, Hl. cbn zeta.
  unfold share_range in HR. rewrite HQ, HF, Hq.
  rewrite fadd_whole by (unfold whole_range; lia). rewrite fsub_whole by (unfold whole_range; lia).
  rewrite tolerance_cmp by (done || unfold whole_range; lia).
  destruct (F + q <=? Q) eqn:E; bool_to_prop.
  - by replace (0 <? F + q - Q) with false by lia.
  - by replace (0 <? F + q - Q) with true by lia.
Qed.

Lemma same_books d ps idx :
  books_ok d ->
  (forall pid, match parents d !! pid, ps !! pid with
               | Some run, Some run' => pr_spec run' = pr_spec run /\ pr_filled run' = pr_filled run
               | None, None => True
               | _, _ => False
               end) ->
  books_ok (MkDispatcher ps idx).
Proof.
  intros Hb H pid run Hl. cbn in Hl. specialize (H pid). rewrite Hl in H.
  destruct (parents d !! pid) as [run0|] eqn:E; [|done]. destruct H as [E1 E2].
  destruct (Hb pid run0 E) as (Q & F & HB). exists Q, F. unfold book. by rewrite E1, E2.
Qed.

Lemma step_books op d :
  dispatch_ok d -> books_ok d -> whole_op op -> books_ok (snd (dispatch_step op d)).
Proof.
  intros Hd Hb Hw. destruct op as [spec|bar|f|q reason|sym reason]; cbn [dispatch_step snd].
  - destruct (Attach_cases spec d) as [[e ->]|(a & plan & -> & _)]; [done|]. cbn [snd].
    intros pid run. cbn [parents]. destruct (decide (pid = as_ParentID spec)) as [->|Hne].
    + rewrite lookup_insert_eq. intros [= <-]. destruct Hw as (Q & HQ & HR). exists Q, 0.
      unfold share_range in HR. split_and!; cbn; try done; unfold share_range; lia.
    + rewrite lookup_insert_ne by done. apply Hb.
  - destruct (DispatchBar_spec bar d Hd) as (out & ps & -> & _ & Hps). cbn [snd].
    apply (same_books d); [done|]. intros pid. rewrite Hps.
    destruct (parents d !! pid) as [run|] eqn:E; [|done]. cbn.
    by destruct (bar_effect_spec bar pid run (runs_ok d Hd pid run E)) as (_ & _ & _ & ? & _ & _ & ?).
  - destruct (childIdx d !! Fill.OrderID f) as [pid|] eqn:Eidx.
    2:{ unfold DispatchFill. by rewrite Eidx. }
    destruct (parents d !! pid) as [run|] eqn:E.
    2:{ unfold DispatchFill. by rewrite Eidx, E. }
    destruct (Hb pid run E) as (Q & F & HB). destruct Hw as (q & Hq & Hq0).
    rewrite (fill_on_book f d pid run Q F q) by done.
    destruct (F + q <=? Q) eqn:Eq; [|done]. bool_to_prop. cbn [snd].
    intros k run'. cbn [parents]. destruct (decide (k = pid)) as [->|Hne].
    + rewrite lookup_insert_eq. intros [= <-]. destruct HB as (? & ? & _ & ?).
      exists Q, (F + q). unfold book. cbn [pr_spec pr_filled set_filled]. split_and!; auto; lia.
    + rewrite lookup_insert_ne by done. apply Hb.
  - unfold Cancel. destruct (parents d !! q) as [run|] eqn:E; [|done]. case_if; [|done]. cbn [snd].
    apply (same_books d); [done|]. intros pid. destruct (decide (pid = q)) as [->|Hne].
    + by rewrite lookup_insert_eq, E.
    + rewrite lookup_insert_ne by done. by destruct (parents d !! pid).
  - pose proof (CancelSymbol_spec sym reason d) as H. unfold CancelSymbol in *.
    destruct (foldl _ _ _) as [ps out]. cbn [snd parents] in *.
    apply (same_books d); [done|]. intros pid. rewrite H.
    destruct (parents d !! pid) as [run|]; [|done]. cbn. by case_if.
Qed.

Lemma run_books ops d :
  dispatch_ok d -> books_ok d -> Forall whole_op ops -> books_ok (snd (dispatch_run ops d)).
Proof.
  revert d. induction ops as [|op ops IH]; intros d Hd Hb Hw; [done|].
  apply Forall_cons in Hw as [Hop Hw]. cbn [dispatch_run].
  pose proof (step_ok op d Hd) as Hd'. pose proof (step_books op d Hd Hb Hop) as Hb'.
  destruct (dispatch_step op d) as [out d1]. cbn [snd] in *. specialize (IH d1 Hd' Hb' Hw).
  by destruct (dispatch_run ops d1).
Qed.

(** C10. On whole shares the fill book is an exact ledger. After any sequence
    of calls with whole quantities, every parent's filled quantity is a whole
    number F between nothing and its Q shares, and a fill of q shares of one
    of its children is booked exactly when F + q is at most Q, which makes it
    F + q; otherwise it is refused and the dispatcher is unchanged. *)
Theorem fill_book_is_exact ops pid run
    (Hops : Forall whole_op ops)
    (Hrun : parents (snd (dispatch_run ops NewDispatcher)) !! pid = Some run) :
  let d := snd (dispatch_run ops NewDispatcher) in
  exists Q F, as_Qty (pr_spec run) = f64_of_Z Q /\ pr_filled run = f64_of_Z F /\ 0 <= F <= Q
    /\ forall f q, Fill.OrderID f ∈ map ChildOrder.OrderID (pr_plan run) ->
         Fill.Qty f = f64_of_Z q -> 0 <= q < 2 ^ 52 ->
         DispatchFill f d
         = if F + q <=? Q
           then (Ok tt, MkDispatcher (<[pid := set_filled (f64_of_Z (F + q)) run]> (parents d)) (childIdx d))
           else (Err (OverFilled pid (f64_of_Z F) (f64_of_Z q) (f64_of_Z Q) (f64_of_Z (F + q - Q))
                        (Fill.OrderID f)), d).
Proof.
  cbn zeta. pose proof (run_ok_all ops _ NewDispatcher_ok) as Hd.
  assert (Hb : books_ok (snd (dispatch_run ops NewDispatcher))) by (by apply run_books; try apply NewDispatcher_ok).
  destruct (Hb pid run Hrun) as (Q & F & HB). exists Q, F. pose proof HB as (? & _ & ? & ?).
  split_and!; try done; try lia. intros f q Hin Hq Hq0. apply fill_on_book; try done.
  apply (index_ok _ Hd). eauto.
Qed.

Definition demo_fill (q : Z) : Fill.t :=
  Fill.Mk (childOrderID (lit "P1") 0) (lit "600000.SH") DirectionLong (f64_of_Z q) f1 0.

Definition demo_ops : list dispatch_op := [OpAttach demo_spec; OpFill (demo_fill 999)].

Lemma demo_ops_whole : Forall whole_op demo_ops.
Proof.
  repeat constructor; [exists 1000|exists 999]; (split; [reflexivity|unfold share_range; lia]).
Qed.

(** With 999 of a thousand shares filled, one more fits and two do not. *)
Lemma fill_book_is_exact_witness :
  exists run, parents (snd (dispatch_run demo_ops NewDispatcher)) !! lit "P1" = Some run
    /\ is_ok (fst (DispatchFill (demo_fill 1) (snd (dispatch_run demo_ops NewDispatcher)))) = true
    /\ is_ok (fst (DispatchFill (demo_fill 2) (snd (dispatch_run demo_ops NewDispatcher)))) = false
    /\ exists Q F, as_Qty (pr_spec run) = f64_of_Z Q /\ pr_filled run = f64_of_Z F /\ 0 <= F <= Q.
Proof.
  destruct (parents (snd (dispatch_run demo_ops NewDispatcher)) !! lit "P1") as [run|] eqn:E;
    [|vm_compute in E; discriminate E].
  exists run. split; [reflexivity|]. split; [vm_compute; reflexivity|]. split; [vm_compute; reflexivity|].
  destruct (fill_book_is_exact demo_ops (lit "P1") run demo_ops_whole E) as (Q & F & H1 & H2 & H3 & _).
  exists Q, F. split_and!; [exact H1|exact H2|apply H3|apply H3].
Defined.

(** ** TWAP on whole shares *)

Lemma allocate_front_equal T w z m : forall A,
  Round (T * w)%f64 = f64_of_Z z -> 0 <= A -> 0 <= z -> A + Z.of_nat m * z < 2 ^ 53 ->
  allocate_front true T (f64_of_Z A) (replicate m w)
  = (replicate m (f64_of_Z z), f64_of_Z (A + Z.of_nat m * z)).
Proof.
  induction m as [|m IH]; intros A Hz HA Hz0 Hlt.
  - cbn. by rewrite Z.add_0_r.
  - cbn [replicate allocate_front]. rewrite Hz.
    rewrite fadd_whole by (unfold whole_range; nia). rewrite IH by (done || nia).
    do 2 f_equal. lia.
Qed.

(** The slices of an equal split of [Q] shares over [n]: n-1 shares of
    [z] and the rest, with nothing left when they already exceed it. *)
Definition equal_split (Q n z : Z) : list Z :=
  replicate (Z.to_nat (n - 1)) z ++ [Z.max 0 (Q - (n - 1) * z)].

Lemma removelast_replicate {A} (x : A) m : removelast (replicate (S m) x) = replicate m x.
Proof. induction m as [|m IH]; [done|]. exact (f_equal (cons x) IH). Qed.

Lemma allocateQty_equal Q n :
  1 <= Q < 2 ^ 49 -> 1 <= n <= Q ->
  exists z, 1 <= z /\ 2 * Z.abs (z * n - Q) <= n
    /\ allocateQty (f64_of_Z Q) (equal_weights n) = map f64_of_Z (equal_split Q n z).
Proof.
  intros HQ Hn. destruct (share_near Q n) as (z & Hz & Hzr & Hnear); [lia..|].
  assert (H1 : 1 <= z) by nia. exists z. split; [done|]. split; [done|].
  unfold equal_weights, equal_split. destruct (Z.eq_dec n 1) as [->|Hne].
  { replace (Z.max 0 (Q - (1 - 1) * z)) with Q by lia. done. }
  replace (Z.to_nat n) with (S (S (Z.to_nat (n - 2)))) by lia.
  set (w := (f1 / f64_of_Z n)%f64) in *. clearbody w.
  unfold allocateQty. cbn [replicate]. change (w :: w :: replicate (Z.to_nat (n - 2)) w)
    with (replicate (S (S (Z.to_nat (n - 2)))) w). rewrite removelast_replicate.
  rewrite Trunc_of_Z by lia. rewrite feq_whole, Z.eqb_refl by (unfold whole_range; lia).
  change f0 with (f64_of_Z 0).
  assert (Hsum : (n - 1) * z <= 2 * Q) by nia.
  rewrite (allocate_front_equal _ _ z) by (done || lia).
  replace (0 + Z.of_nat (S (Z.to_nat (n - 2))) * z) with ((n - 1) * z) by nia.
  rewrite fsub_whole by (unfold whole_range; nia). rewrite flt_whole by (unfold whole_range; nia).
  replace (Z.to_nat (n - 1)) with (S (Z.to_nat (n - 2))) by lia.
  rewrite map_app, fmap_replicate. f_equal. cbn [map]. f_equal.
  destruct (_ <? 0) eqn:E; bool_to_prop; f_equal; lia.
Qed.

Lemma effectiveSlices_whole k Q :
  1 <= Q < 2 ^ 49 -> 1 <= k < 2 ^ 49 -> effectiveSlices k (f64_of_Z Q) = Z.min k Q.
Proof.
  intros HQ Hk. unfold effectiveSlices. rewrite Trunc_of_Z by lia. change f1 with (f64_of_Z 1).
  rewrite feq_whole, fle_whole, flt_whole by (unfold whole_range; lia).
  rewrite Z.eqb_refl. replace (1 <=? Q) with true by lia. cbn [andb].
  destruct (Q <? k) eqn:E; bool_to_prop; [rewrite int64_of_whole by lia; lia|lia].
Qed.

Lemma map_Qty_plan parent qtys times :
  length qtys = length times -> map ChildOrder.Qty (buildPlan parent qtys times) = qtys.
Proof.
  intros Hlen. apply list_eq. intros i. unfold buildPlan.
  rewrite list_lookup_fmap, list_lookup_imap, lookup_zip_with.
  destruct (qtys !! i) as [q|] eqn:E; [|done]. cbn.
  destruct (times !! i) as [t|] eqn:Et; [done|].
  apply lookup_ge_None in Et. apply lookup_lt_Some in E. lia.
Qed.

(** Summing whole positive slices, up to the first that is not. *)
Lemma sum_positive_whole pid zs : forall i A plan,
  map ChildOrder.Qty plan = map f64_of_Z zs -> Forall (fun z => 1 <= z) zs -> 0 <= A ->
  A + foldr Z.add 0 zs < 2 ^ 53 ->
  sum_positive pid i (f64_of_Z A) plan = Ok (f64_of_Z (A + foldr Z.add 0 zs)).
Proof.
  induction zs as [|z zs IH]; intros i A plan Hm Hpos HA Hlt; destruct plan as [|c plan]; try done.
  - cbn. by rewrite Z.add_0_r.
  - cbn [map foldr] in *. injection Hm as Hc Hm. apply Forall_cons in Hpos as [Hz Hpos].
    assert (0 <= foldr Z.add 0 zs).
    { clear - Hpos. induction Hpos; cbn; lia. }
    cbn [sum_positive]. rewrite Hc. change f0 with (f64_of_Z 0).
    rewrite fle_whole by (unfold whole_range; lia). replace (z <=? 0) with false by lia.
    rewrite fadd_whole by (unfold whole_range; lia). rewrite IH by (done || lia).
    do 2 f_equal. lia.
Qed.

Lemma sum_positive_last pid zs z : forall i s plan,
  map ChildOrder.Qty plan = map f64_of_Z (zs ++ [z]) ->
  Forall (fun z => 1 <= z < 2 ^ 53) zs -> - 2 ^ 53 < z <= 0 ->
  sum_positive pid i s plan = Err (NonPositiveSlice pid (i + length zs) (f64_of_Z z)).
Proof.
  induction zs as [|y zs IH]; intros i s plan Hm Hpos Hz; destruct plan as [|c plan]; try done;
    cbn [app map] in Hm; injection Hm as Hc Hm; cbn [sum_positive]; rewrite Hc; change f0 with (f64_of_Z 0).
  - rewrite fle_whole by (unfold whole_range; lia). replace (z <=? 0) with true by lia.
    cbn [length]. by rewrite Nat.add_0_r.
  - apply Forall_cons in Hpos as [Hy Hpos]. rewrite fle_whole by (unfold whole_range; lia).
    replace (y <=? 0) with false by lia. rewrite IH by done. do 2 f_equal. cbn [length]. lia.
Qed.

Definition share_total (zs : list Z) : Z := foldr Z.add 0 zs.

Lemma share_total_app a b : share_total (a ++ b) = share_total a + share_total b.
Proof. unfold share_total. induction a; cbn; lia. Qed.

Lemma share_total_replicate m z : share_total (replicate m z) = Z.of_nat m * z.
Proof. unfold share_total. induction m; cbn [replicate foldr]; lia. Qed.

(** A well-formed TWAP request of [Q] whole shares in [k] slices. *)
Record twap_request (spec : AttachSpec) (Q k : Z) : Prop := {
  req_id : as_ParentID spec <> [];
  req_symbol : as_Symbol spec <> [];
  req_style : as_Style spec = StyleTWAP;
  req_window : as_StartAt spec < as_EndAt spec;
  req_qty : as_Qty spec = f64_of_Z Q;
  req_range : share_range Q;
  req_slices : as_Slices spec = k /\ 1 <= k < 2 ^ 49
}.

Lemma twap_schedule spec Q k :
  twap_request spec Q k ->
  exists z a plan, 1 <= z /\ 2 * Z.abs (z * Z.min k Q - Q) <= Z.min k Q
    /\ newAlgo spec = Some a /\ fst (Schedule (parent_of spec) a) = Ok plan
    /\ map ChildOrder.Qty plan = map f64_of_Z (equal_split Q (Z.min k Q) z).
Proof.
  intros [Hid Hsym Hst Hwin HQ HR [Hk Hkr]]. unfold share_range in HR.
  destruct (allocateQty_equal Q (Z.min k Q)) as (z & Hz & Hnear & Halloc); [lia..|].
  exists z, (AlgoTWAP (NewTWAP (as_Slices spec))). unfold newAlgo. rewrite decide_True by done.
  cbn [Schedule algo_algorithm algo_lift TWAP_algorithm]. unfold TWAP_Schedule.
  assert (Hv : validateParent (parent_of spec) = Ok tt).
  { unfold validateParent, parent_of. cbn. rewrite decide_False, HQ by done.
    change f0 with (f64_of_Z 0). rewrite fle_whole by (unfold whole_range; lia).
    replace (Q <=? 0) with false by lia. unfold After. by replace (_ <? _) with true by lia. }
  rewrite Hv. cbn [fst]. eexists. split; [done|]. split; [done|]. split; [done|]. split; [done|].
  assert (Hn : TWAP_slices (NewTWAP (as_Slices spec)) (parent_of spec) = Z.min k Q).
  { unfold TWAP_slices. cbn [twap_slices NewTWAP parent_of ParentOrder.Qty]. rewrite Hk, HQ.
    replace (k <=? 0) with false by lia. apply effectiveSlices_whole; lia. }
  rewrite Hn. cbn [parent_of ParentOrder.Qty]. rewrite HQ, Halloc. apply map_Qty_plan.
  unfold equal_split. rewrite splitWindow_length, length_map, length_app, length_replicate. cbn. lia.
Qed.

(** When a TWAP order of Q whole shares in k slices is accepted. With
    n = min(k, Q) slices each but the last takes z shares, z a whole number
    nearest to Q/n. If (n-1) z < Q the order is attached, the last slice
    takes the rest and the slices sum to Q exactly; otherwise [Attach]
    refuses it because its last slice is empty, whatever else the dispatcher
    holds. *)
Theorem twap_attach_exact ops spec Q k
    (Hreq : twap_request spec Q k)
    (Hfresh : parents (snd (dispatch_run ops NewDispatcher)) !! as_ParentID spec = None) :
  let d := snd (dispatch_run ops NewDispatcher) in
  let n := Z.min k Q in
  exists z, 2 * Z.abs (z * n - Q) <= n
    /\ if (n - 1) * z <? Q
       then exists plan, fst (Attach spec d) = Ok plan
              /\ map ChildOrder.Qty plan = map f64_of_Z (equal_split Q n z)
              /\ share_total (equal_split Q n z) = Q
       else fst (Attach spec d) = Err (NonPositiveSlice (as_ParentID spec) (Z.to_nat (n - 1)) f0).
Proof.
  cbn zeta. pose proof (run_ok_all ops _ NewDispatcher_ok) as Hd.
  set (d := snd (dispatch_run ops NewDispatcher)) in *.
  destruct (twap_schedule spec Q k Hreq) as (z & a & plan & Hz & Hnear & Halgo & Hplan & Hqty).
  destruct Hreq as [Hid Hsym Hst Hwin HQ HR [Hk Hkr]]. unfold share_range in HR.
  set (n := Z.min k Q) in *. assert (Hn : 1 <= n <= Q) by lia.
  exists z. split; [done|]. unfold Attach. rewrite decide_False, Halgo by done.
  pose proof (Schedule_planned (parent_of spec) a) as Hs.
  destruct (Schedule (parent_of spec) a) as [r a']. cbn [fst snd] in Hplan, Hs. subst r.
  destruct Hs as (_ & Hp & _).
  assert (Hne : plan <> []) by (intros ->; unfold equal_split in Hqty; by destruct (replicate _ _)).
  rewrite decide_False by done.
  assert (Hrep : Forall (fun y => 1 <= y < 2 ^ 53) (replicate (Z.to_nat (n - 1)) z)).
  { apply Forall_replicate. nia. }
  destruct ((n - 1) * z <? Q) eqn:E; bool_to_prop.
  - assert (Htot : share_total (equal_split Q n z) = Q).
    { unfold equal_split. rewrite share_total_app, share_total_replicate. cbn. nia. }
    change f0 with (f64_of_Z 0). rewrite (sum_positive_whole _ (equal_split Q n z)); try done.
    2:{ unfold equal_split. apply Forall_app. split; [eapply Forall_impl; [done|]; cbn; lia|].
        constructor; [lia|done]. }
    2:{ fold (share_total (equal_split Q n z)). lia. }
    rewrite Hfresh, (fresh_no_clash d spec plan) by done. cbn zeta.
    fold (share_total (equal_split Q n z)). rewrite Htot, HQ, Z.add_0_l.
    rewrite fsub_whole, Z.sub_diag by (unfold whole_range; lia).
    change (Abs (f64_of_Z 0)) with (f64_of_Z 0).
    rewrite tolerance_cmp by (done || unfold whole_range; lia). cbn [Z.ltb Z.compare].
    exists plan. done.
  - unfold equal_split in Hqty. replace (Z.max 0 _) with 0 in Hqty by lia.
    rewrite (sum_positive_last _ (replicate (Z.to_nat (n - 1)) z) 0) by done.
    by rewrite length_replicate.
Qed.

(** One lot of a hundred shares over a day of 5-minute slices, and over ten. *)
Definition lot_spec (k : Z) : AttachSpec :=
  MkAttachSpec (lit "P2") [] (lit "600000.SH") DirectionLong (f64_of_Z 100) f0 StyleTWAP k []
    OrderTypeMarket 0 day_ns.

Lemma lot_request k : 1 <= k < 2 ^ 49 -> twap_request (lot_spec k) 100 k.
Proof. intros Hk. by constructor. Qed.

(** Ten slices of ten are attached; sixty-six slices, each 100/66 rounded up
    to two shares, are refused. *)
Lemma twap_attach_exact_witness :
  is_ok (fst (Attach (lot_spec 10) NewDispatcher)) = true
  /\ is_ok (fst (Attach (lot_spec 66) NewDispatcher)) = false
  /\ exists z, 2 * Z.abs (z * 66 - 100) <= 66.
Proof.
  split; [vm_compute; reflexivity|]. split; [vm_compute; reflexivity|].
  destruct (twap_attach_exact [] (lot_spec 66) 100 66 (lot_request 66 ltac:(lia)) eq_refl)
    as (z & Hz & _).
  exists z. exact Hz.
Defined.
