(* ===== verification/EventBus.v ===== *)
(** * EventBus: clock, event store and message bus
      (src/pkg/clock, src/pkg/eventstore, src/pkg/msgbus)

    The bus records a message in the audit table before it hands it to the
    subscribers. The clock is the source of the messages' times, the event
    store is the bus's [Tap]. The database answers each statement from a
    script of outcomes, so that every failure, a lost acknowledgement
    included, is a run of the model. What PostgreSQL does to a time and to a
    JSON document on the way through the table is a parameter, and so are the
    JSON encoder and the subscribers. *)

From stdpp Require Import base list strings gmap sorting.
From Stdlib Require Import ZArith Lia Ascii.
From S2P Require Import Prelude GoMap Domain.

Open Scope Z_scope.

(** ** The clock *)

Module Clock.

Inductive Mode := ModeBacktest | ModeLive.

(** Nanoseconds from year one to the Unix epoch. *)
Definition unix_epoch : Time := 62135596800 * 1000000000.

(** [t.UTC().UnixNano()]: an int64. *)
Definition UnixNano (t : Time) : Z := wrap64 (t - unix_epoch).

Inductive clock_error :=
| ErrTimeRewind (now ts : Time)
| ErrLiveClockImmutable (ts : Time).

(** The only source of time of the kernel's modules. *)
Class Clock (C : Type) := {
  Now : C -> Time;
  Advance : Time -> C -> res clock_error unit * C;
  ClockMode : C -> Mode
}.

(** The back-test's clock: moved by the data, never backwards. *)
Record VirtualClock := MkVirtual { nanos : Z }.

Definition NewVirtualClock (start : Time) : VirtualClock := MkVirtual (UnixNano start).

Definition VirtualNow (c : VirtualClock) : Time := unix_epoch + nanos c.

Definition VirtualAdvance (ts : Time) (c : VirtualClock) : res clock_error unit * VirtualClock :=
  let n := UnixNano ts in
  if n <? nanos c then (Err (ErrTimeRewind (VirtualNow c) ts), c) else (Ok tt, MkVirtual n).

#[global] Instance Virtual_clock : Clock VirtualClock := {|
  Now := VirtualNow; Advance := VirtualAdvance; ClockMode := fun _ => ModeBacktest
|}.

(** The wall clock: its reading is the machine's, advancing it is an error. *)
Record LiveClock := NewLiveClock { wall : Time }.

Definition LiveAdvance (ts : Time) (c : LiveClock) : res clock_error unit * LiveClock :=
  (Err (ErrLiveClockImmutable ts), c).

#[global] Instance Live_clock : Clock LiveClock := {|
  Now := wall; Advance := LiveAdvance; ClockMode := fun _ => ModeLive
|}.

Lemma VirtualAdvance_monotone ts c : nanos c <= nanos (snd (VirtualAdvance ts c)).
Proof. unfold VirtualAdvance. case_if; bool_to_prop; cbn; lia. Qed.

End Clock.

(** ** Topics *)

Module Topics.

Definition is_lower (c : ascii) : bool := in_rng 97 122 (byteZ c).
Definition is_lower_us (c : ascii) : bool := is_lower c || Ascii.eqb c "_"%char.

(** The segments of a name between its dots. *)
Fixpoint segments (s : bytes) : list bytes :=
  match s with
  | [] => [[]]
  | c :: s' =>
      if Ascii.eqb c "."%char then [] :: segments s'
      else match segments s' with
           | seg :: rest => (c :: seg) :: rest
           | [] => [[c]]
           end
  end.

(** The pattern ^[a-z]+(\.[a-z_]+)+$. *)
Definition topicNameOK (name : bytes) : bool :=
  match segments name with
  | first :: (_ :: _) as rest =>
      negb (bool_decide (first = [])) && forallb is_lower first
      && forallb (fun seg => negb (bool_decide (seg = [])) && forallb is_lower_us seg) (tail (segments name))
  | _ => false
  end.

(** One declaration: a bad or a repeated name panics. *)
Definition topic (name : bytes) (registry : gset bytes) : option (gset bytes) :=
  if negb (topicNameOK name) then None
  else if decide (name ∈ registry) then None
  else Some ({[ name ]} ∪ registry).

Definition declared : list bytes := map lit
  ["data.bar"; "exec.order_intent"; "exec.fill"; "portfolio.updated"; "risk.verdict";
   "run.start"; "run.done"; "kernel.boot"; "kernel.shutdown";
   "risk.order_verdict"; "exec.order_rejected"; "portfolio.filled"; "recon.diff";
   "strategy.state_saved"; "indicator.warmup_done"; "execalgo.child_order"]%string.

Definition TopicKernelBoot : bytes := lit "kernel.boot".
Definition TopicKernelShutdown : bytes := lit "kernel.shutdown".

(** The package's initialisation, in declaration order. *)
Definition registry_init : option (gset bytes) :=
  foldl (fun r name => r ≫= topic name) (Some ∅) declared.

Definition registry : gset bytes := default ∅ registry_init.

Definition IsRegisteredTopic (name : bytes) : bool := bool_decide (name ∈ registry).

Definition RegisteredTopics : list bytes := merge_sort bytes_le (elements registry).

(** The sixteen declarations go through: no panic, no name lost. *)
Lemma registry_init_ok :
  exists r, registry_init = Some r /\ forall name, name ∈ r <-> name ∈ declared.
Proof.
  exists (list_to_set declared). split; [|intros name; apply elem_of_list_to_set].
  apply (bool_decide_eq_true (registry_init = Some (list_to_set declared))). vm_compute. reflexivity.
Qed.

End Topics.
Import Topics.

(** ** Messages and the interface of the recorder *)

Record Envelope (P : Type) := NewEnvelope { env_topic : bytes; env_ts : Time; env_payload : P }.
Arguments NewEnvelope {P} _ _ _.
Arguments env_topic {P} _.
Arguments env_ts {P} _.
Arguments env_payload {P} _.

(** A call's context: live, or cancelled for a reason. *)
Definition Ctx : Type := option bytes.

Class Tap (P E T : Type) := {
  Append : Ctx -> Envelope P -> T -> res E unit * T
}.

(** ** The event store *)

Module EventStore.

(** What the database does with a statement. *)
Inductive outcome :=
| Done
| Refused
| LostAck.

Record Row := MkRow {
  row_ts : Time;
  row_topic : bytes;
  row_payload : bytes;
  row_publisher : bytes;
  row_run_id : option bytes
}.

(** The table [audit.message_log], rows in id order, with the outcomes of
    the next statements; past the end of the script statements succeed. *)
Record DB := MkDB { rows : list Row; script : list outcome }.

Definition next_outcome (db : DB) : outcome * DB :=
  match script db with
  | [] => (Done, db)
  | o :: os => (o, MkDB (rows db) os)
  end.

Record PGEventStore := MkStore {
  publisher : bytes;
  runID : bytes;
  appended : Z;
  baselineSet : bool;
  baseline : Z;
  db : DB
}.

Inductive store_error :=
| ErrNilPool
| ErrEmptyPublisher
| ErrEmptyTopic
| ErrPayloadNotMarshalable
| AppendCanceled (topic reason : bytes)
| BaselineFailed
| InsertFailed (topic : bytes)
| ReplayRange
| QueryFailed
| ErrIntegrity (got baseline appended : Z)
| ErrCorrupt (n : Z).

Definition NewPGEventStore (pool : option DB) (publisher runID : bytes) : res store_error PGEventStore :=
  match pool with
  | None => Err ErrNilPool
  | Some d =>
      if decide (publisher = []) then Err ErrEmptyPublisher
      else Ok (MkStore publisher runID 0 false 0 d)
  end.

Definition textOrNull (s : bytes) : option bytes := if decide (s = []) then None else Some s.

Definition set_db (d : DB) (s : PGEventStore) : PGEventStore :=
  MkStore (publisher s) (runID s) (appended s) (baselineSet s) (baseline s) d.

(** The rows of this publisher and run. *)
Definition is_mine (s : PGEventStore) (r : Row) : bool :=
  bool_decide (row_publisher r = publisher s) && bool_decide (row_run_id r = textOrNull (runID s)).

Definition mine (s : PGEventStore) : list Row := List.filter (is_mine s) (rows (db s)).

(** [verifyCountSQL]. *)
Definition count_query (s : PGEventStore) : option Z * PGEventStore :=
  let '(o, d) := next_outcome (db s) in
  (match o with Done => Some (Z.of_nat (length (mine s))) | _ => None end, set_db d s).

Definition ensureBaseline (s : PGEventStore) : res store_error unit * PGEventStore :=
  if baselineSet s then (Ok tt, s)
  else match count_query s with
       | (None, s) => (Err BaselineFailed, s)
       | (Some n, s) => (Ok tt, MkStore (publisher s) (runID s) (appended s) true n (db s))
       end.

Section Store.

Context {P : Type}.
(** The JSON encoder, the resolution of a timestamp column and the form in
    which a jsonb column keeps a document. *)
Context (Marshal : P -> option bytes) (pg_time : Time -> Time) (pg_jsonb : bytes -> bytes).

(** A nil payload is the caller's [P] value that encodes to null. *)
Definition marshalPayload (p : P) : res store_error bytes :=
  match Marshal p with Some b => Ok b | None => Err ErrPayloadNotMarshalable end.

(** [appendSQL] with its acknowledgement. *)
Definition insert_row (r : Row) (s : PGEventStore) : bool * PGEventStore :=
  let '(o, d) := next_outcome (db s) in
  match o with
  | Done => (true, set_db (MkDB (rows d ++ [r]) (script d)) s)
  | Refused => (false, set_db d s)
  | LostAck => (false, set_db (MkDB (rows d ++ [r]) (script d)) s)
  end.

Definition StoreAppend (ctx : Ctx) (msg : Envelope P) (s : PGEventStore)
    : res store_error unit * PGEventStore :=
  if decide (env_topic msg = []) then (Err ErrEmptyTopic, s)
  else match marshalPayload (env_payload msg) with
  | Err e => (Err e, s)
  | Ok payload =>
  match ctx with
  | Some reason => (Err (AppendCanceled (env_topic msg) reason), s)
  | None =>
  match ensureBaseline s with
  | (Err e, s) => (Err e, s)
  | (Ok _, s) =>
  match insert_row (MkRow (pg_time (env_ts msg)) (env_topic msg) (pg_jsonb payload)
                      (publisher s) (textOrNull (runID s))) s with
  | (false, s) => (Err (InsertFailed (env_topic msg)), s)
  | (true, s) =>
      (Ok tt, MkStore (publisher s) (runID s) (wrap64 (appended s + 1)) (baselineSet s) (baseline s) (db s))
  end end end end.

#[global] Instance PGTap : Tap P store_error PGEventStore := {| Append := StoreAppend |}.

(** [ORDER BY ts ASC, id ASC]: rows numbered in id order, then sorted. *)
Definition row_le (a b : nat * Row) : Prop :=
  row_ts a.2 < row_ts b.2 \/ (row_ts a.2 = row_ts b.2 /\ (a.1 <= b.1)%nat).

#[global] Instance row_le_dec : RelDecision row_le.
Proof. intros a b. unfold row_le. apply _. Defined.

Definition Replay (from to : Time) (s : PGEventStore)
    : res store_error (list (Envelope bytes)) * PGEventStore :=
  if to <? from then (Err ReplayRange, s)
  else
    let '(o, d) := next_outcome (db s) in
    match o with
    | Done =>
        let hit r := (pg_time from <=? row_ts r.2) && (row_ts r.2 <=? pg_time to) in
        let found := List.filter hit (imap pair (rows d)) in
        (Ok (map (fun r => NewEnvelope (row_topic r.2) (row_ts r.2) (row_payload r.2))
               (merge_sort row_le found)), set_db d s)
    | _ => (Err QueryFailed, set_db d s)
    end.

(** A topic of blanks only; the payload column is NOT NULL. *)
Definition is_corrupt (r : Row) : bool := bool_decide (trim_both (Ascii.eqb " "%char) (row_topic r) = []).

Definition Verify (s : PGEventStore) : res store_error unit * PGEventStore :=
  match ensureBaseline s with
  | (Err e, s) => (Err e, s)
  | (Ok _, s) =>
      let want := wrap64 (baseline s + appended s) in
      match count_query s with
      | (None, s) => (Err QueryFailed, s)
      | (Some got, s) =>
          if negb (got =? want) then (Err (ErrIntegrity got (baseline s) (appended s)), s)
          else
            let '(o, d) := next_outcome (db s) in
            match o with
            | Done =>
                let corrupt := Z.of_nat (length (List.filter is_corrupt (mine s))) in
                if corrupt =? 0 then (Ok tt, set_db d s) else (Err (ErrCorrupt corrupt), set_db d s)
            | _ => (Err QueryFailed, set_db d s)
            end
      end
  end.

End Store.
End EventStore.

(** ** The bus *)

Section Bus.

Context {P E T C : Type} `{!Tap P E T} `{!Clock.Clock C}.

(** A subscriber is a function of the message and of the state it shares
    with the rest of the process. *)
Context {W F : Type}.

Record SyncBus := MkBus {
  tap : option T;
  clk : C;
  handlers : gmap bytes (list (Envelope P -> W -> option F * W))
}.

Inductive bus_error :=
| ErrUnknownTopic (topic : bytes)
| ErrNilHandler
| ErrNoTap
| ErrContextCanceled (topic reason : bytes)
| ErrAppendFailed (topic : bytes) (e : E)
| HandlerErrors (errs : list F).

Definition NewSyncBus (tap : option T) (clk : C) : SyncBus := MkBus tap clk ∅.

Definition Subscribe (topic : bytes) (h : option (Envelope P -> W -> option F * W)) (b : SyncBus)
    : res bus_error unit * SyncBus :=
  if negb (IsRegisteredTopic topic) then (Err (ErrUnknownTopic topic), b)
  else match h with
       | None => (Err ErrNilHandler, b)
       | Some h =>
           (Ok tt, MkBus (tap b) (clk b)
                     (<[topic := default [] (handlers b !! topic) ++ [h]]> (handlers b)))
       end.

(** The handlers in registration order, each called whatever the others
    returned. *)
Fixpoint dispatch (hs : list (Envelope P -> W -> option F * W)) (msg : Envelope P) (w : W)
    : list F * W :=
  match hs with
  | [] => ([], w)
  | h :: hs =>
      let '(e, w) := h msg w in
      let '(errs, w) := dispatch hs msg w in
      (match e with Some e => e :: errs | None => errs end, w)
  end.

Definition Publish (ctx : Ctx) (topic : bytes) (payload : P) (bw : SyncBus * W)
    : res bus_error unit * (SyncBus * W) :=
  let '(b, w) := bw in
  if negb (IsRegisteredTopic topic) then (Err (ErrUnknownTopic topic), bw)
  else match tap b with
  | None => (Err ErrNoTap, bw)
  | Some t =>
  match ctx with
  | Some reason => (Err (ErrContextCanceled topic reason), bw)
  | None =>
      let msg := NewEnvelope topic (Clock.Now (clk b)) payload in
      match Append ctx msg t with
      | (Err e, t) => (Err (ErrAppendFailed topic e), (MkBus (Some t) (clk b) (handlers b), w))
      | (Ok _, t) =>
          let b := MkBus (Some t) (clk b) (handlers b) in
          let '(errs, w) := dispatch (default [] (handlers b !! topic)) msg w in
          (if decide (errs = []) then Ok tt else Err (HandlerErrors errs), (b, w))
      end
  end end.

End Bus.
Arguments SyncBus P T C W F : clear implicits.
Arguments bus_error E F : clear implicits.
