(* ===== verification/BusProps.v ===== *)
(** * BusProps: recording before dispatching

    What the message bus over the event store guarantees on every run, with
    any handlers and any database failures: a subscriber only ever sees a
    message that is in the audit table; with a back-test clock a replay
    returns the published messages in the order of publication; and the
    store's self-check finds every lost row. *)

From stdpp Require Import base list strings gmap sorting.
From Stdlib Require Import ZArith Lia Ascii.
From S2P Require Import Prelude GoMap Domain EventBus.
Import Topics EventStore.

Open Scope Z_scope.

Section Runs.

Context {P W F : Type}.
Context (Marshal : P -> option bytes) (pg_time : Time -> Time) (pg_jsonb : bytes -> bytes).

#[local] Instance run_tap : Tap P store_error PGEventStore := PGTap Marshal pg_time pg_jsonb.

(** The subscribers' world, with the messages they were handed. *)
Definition seen_world : Type := W * list (Envelope P).

(** A handler, with a note of each message it is handed. *)
Definition observe (h : Envelope P -> W -> option F * W) (msg : Envelope P) (w : seen_world)
    : option F * seen_world :=
  let '(e, w') := h msg (fst w) in (e, (w', snd w ++ [msg])).

Inductive bus_op :=
| BusSubscribe (topic : bytes) (h : option (Envelope P -> W -> option F * W))
| BusPublish (ctx : Ctx) (topic : bytes) (payload : P)
| BusAdvance (ts : Time).

Definition bus_state : Type := SyncBus P PGEventStore Clock.VirtualClock seen_world F * seen_world.

(** Whether a publication recorded its message. *)
Definition recorded_by (r : res (bus_error store_error F) unit) : bool :=
  match r with Ok _ | Err (HandlerErrors _) => true | _ => false end.

Definition bus_step (op : bus_op) (st : bus_state) : list (Envelope P) * bus_state :=
  let '(b, w) := st in
  match op with
  | BusSubscribe topic h => ([], (snd (Subscribe (E := store_error) topic (observe <$> h) b), w))
  | BusPublish ctx topic payload =>
      let '(r, st') := Publish ctx topic payload st in
      (if recorded_by r then [NewEnvelope topic (Clock.Now (clk b)) payload] else [], st')
  | BusAdvance ts =>
      ([], (MkBus (tap b) (snd (Clock.Advance ts (clk b))) (handlers b), w))
  end.

(** A run: the messages recorded by the publications that went through. *)
Fixpoint bus_run (ops : list bus_op) (st : bus_state) : list (Envelope P) * bus_state :=
  match ops with
  | [] => ([], st)
  | op :: ops =>
      let '(rec, st) := bus_step op st in
      let '(rec', st) := bus_run ops st in (rec ++ rec', st)
  end.

Definition start (store : PGEventStore) (clk : Clock.VirtualClock) (w : W) : bus_state :=
  (NewSyncBus (Some store) clk, (w, [])).

(** The row a message becomes. *)
Definition row_of (s : PGEventStore) (payload : bytes) (msg : Envelope P) : Row :=
  MkRow (pg_time (env_ts msg)) (env_topic msg) (pg_jsonb payload) (publisher s) (textOrNull (runID s)).

Definition rows_of (s : PGEventStore) (msgs : list (Envelope P)) : list Row :=
  omap (fun msg => payload ← Marshal (env_payload msg); Some (row_of s payload msg)) msgs.

#[local] Arguments rows_of : simpl never.

(** ** One append *)

Record appends (msg : Envelope P) (ok : bool) (s s' : PGEventStore) : Prop := {
  app_ident : publisher s' = publisher s /\ runID s' = runID s;
  app_script : exists used, script (db s) = used ++ script (db s');
  app_ok : ok = true -> is_Some (Marshal (env_payload msg))
             /\ rows (db s') = rows (db s) ++ rows_of s [msg];
  app_fail : ok = false -> rows (db s') = rows (db s)
             \/ (rows (db s') = rows (db s) ++ rows_of s [msg] /\ LostAck ∈ script (db s));
  app_count : appended s' = (if ok then wrap64 (appended s + 1) else appended s);
  app_base : baselineSet s = true -> baselineSet s' = true /\ baseline s' = baseline s;
  app_first : baselineSet s = false ->
     if baselineSet s' then baseline s' = Z.of_nat (length (mine s)) else ok = false /\ rows (db s') = rows (db s)
}.

Lemma next_outcome_spec d :
  let '(o, d') := next_outcome d in
  rows d' = rows d /\ (exists used, script d = used ++ script d') /\ (o = LostAck -> LostAck ∈ script d).
Proof.
  unfold next_outcome. destruct d as [rs [|o os]]; cbn.
  - split; [done|]. split; [by exists []|done].
  - split; [done|]. split; [by exists [o]|]. intros ->. by left.
Qed.

Lemma ensureBaseline_spec s :
  let '(r, s') := ensureBaseline s in
  publisher s' = publisher s /\ runID s' = runID s /\ appended s' = appended s
  /\ rows (db s') = rows (db s) /\ (exists used, script (db s) = used ++ script (db s'))
  /\ (baselineSet s = true -> r = Ok tt /\ baselineSet s' = true /\ baseline s' = baseline s)
  /\ (baselineSet s = false ->
        (is_ok r = true -> baselineSet s' = true /\ baseline s' = Z.of_nat (length (mine s)))
        /\ (is_ok r = false -> baselineSet s' = false)).
Proof.
  unfold ensureBaseline. destruct (baselineSet s) eqn:Eb.
  - split_and!; try done. by exists [].
  - unfold count_query. pose proof (next_outcome_spec (db s)) as H.
    destruct (next_outcome (db s)) as [o d]. destruct H as (Hr & Hs & _).
    by destruct o; cbn; split_and!.
Qed.

Lemma Append_spec ctx msg s :
  let '(r, s') := Append ctx msg s in appends msg (is_ok r) s s'.
Proof.
  assert (Hsame : forall e : store_error, appends msg (is_ok (E := store_error) (A := unit) (Err e)) s s).
  { intros e. constructor; cbn; try done; [by exists []|by left|]. intros ->. done. }
  cbn [Append run_tap PGTap]. unfold StoreAppend. case_decide; [apply Hsame|].
  unfold marshalPayload. destruct (Marshal (env_payload msg)) as [payload|] eqn:Em; [|apply Hsame].
  destruct ctx as [reason|]; [apply Hsame|].
  pose proof (ensureBaseline_spec s) as Hb. destruct (ensureBaseline s) as [[[]|e] s1].
  2:{ destruct Hb as (? & ? & ? & Hrows & Hscr & Hset & Hunset). constructor; cbn; try done.
      - by left.
      - intros Hx. by destruct (Hset Hx).
      - intros Hx. destruct (Hunset Hx) as [_ Hy]. by rewrite (Hy eq_refl). }
  destruct Hb as (Hp & Hrun & Happ & Hrows & [used Hscr] & Hset & Hunset).
  assert (Hro : rows_of s [msg] = [row_of s payload msg]) by (unfold rows_of; cbn; by rewrite Em).
  assert (Hrow : MkRow (pg_time (env_ts msg)) (env_topic msg) (pg_jsonb payload) (publisher s1)
                   (textOrNull (runID s1)) = row_of s payload msg) by (unfold row_of; by rewrite Hp, Hrun).
  rewrite Hrow. unfold insert_row. pose proof (next_outcome_spec (db s1)) as Hn.
  destruct (next_outcome (db s1)) as [o d]. destruct Hn as (Hr1 & [used1 Hs1] & Hlost).
  assert (Hs : script (db s) = (used ++ used1) ++ script d) by (by rewrite Hscr, Hs1, app_assoc).
  assert (Hbase : baselineSet s = true -> baselineSet s1 = true /\ baseline s1 = baseline s)
    by (intros Hx; by destruct (Hset Hx) as (_ & ? & ?)).
  assert (Hfirst : baselineSet s = false -> baselineSet s1 = true /\ baseline s1 = Z.of_nat (length (mine s)))
    by (intros Hx; by apply (proj1 (Hunset Hx))).
  destruct o; constructor; cbn; rewrite ?Hro, ?Hr1, ?Hrows, ?Happ; try done; try (by eexists);
    try (intros Hx; by destruct (Hfirst Hx) as [-> ->]).
  - intros _. by left.
  - intros _. right. split; [done|]. rewrite Hscr. apply elem_of_app. right. by apply Hlost.
Qed.

(** ** One step *)

Definition store_of (st : bus_state) : option PGEventStore := tap (fst st).
Definition seen (st : bus_state) : list (Envelope P) := snd (snd st).

(** Every handler on the bus takes note of what it is handed. *)
Definition observing (b : SyncBus P PGEventStore Clock.VirtualClock seen_world F) : Prop :=
  forall topic hs, handlers b !! topic = Some hs -> Forall (fun g => exists h, g = observe h) hs.

Lemma dispatch_seen hs msg : forall w,
  Forall (fun g => exists h, g = observe h) hs ->
  snd (snd (dispatch hs msg w)) = snd w ++ replicate (length hs) msg.
Proof.
  induction hs as [|g hs IH]; intros w Hobs; cbn [dispatch length replicate]; [by rewrite app_nil_r|].
  apply Forall_cons in Hobs as [[h ->] Hobs]. unfold observe at 1.
  destruct (h msg (fst w)) as [e w'] eqn:Eh. specialize (IH (w', snd w ++ [msg]) Hobs).
  destruct (dispatch hs msg (w', snd w ++ [msg])) as [errs w2]. cbn in *. rewrite IH.
  by rewrite <- app_assoc.
Qed.

Lemma Publish_store ctx topic payload (st : bus_state) s :
  store_of st = Some s -> observing (fst st) ->
  let msg := NewEnvelope topic (Clock.Now (clk (fst st))) payload in
  let '(r, st') := Publish ctx topic payload st in
  clk (fst st') = clk (fst st) /\ handlers (fst st') = handlers (fst st)
  /\ exists s', store_of st' = Some s'
     /\ ((appends msg (recorded_by r) s s' /\ IsRegisteredTopic topic = true)
         \/ (recorded_by r = false /\ s' = s))
     /\ seen st' = seen st ++ replicate (if recorded_by r then length (default [] (handlers (fst st) !! topic)) else 0) msg.
Proof.
  destruct st as [b w]. unfold store_of, seen. cbn [fst snd]. intros Hs Hobs. cbn zeta.
  unfold Publish. rewrite Hs. destruct (IsRegisteredTopic topic) eqn:Et; cbn [negb].
  2:{ split; [done|]. split; [done|]. exists s. rewrite app_nil_r. auto. }
  destruct ctx as [reason|].
  { split; [done|]. split; [done|]. exists s. rewrite app_nil_r. auto. }
  pose proof (Append_spec None (NewEnvelope topic (Clock.Now (clk b)) payload) s) as Ha.
  destruct (Append None _ s) as [[[]|e] s'].
  2:{ split; [done|]. split; [done|]. exists s'. rewrite app_nil_r. cbn [recorded_by fst snd tap]. auto. }
  cbn [handlers]. assert (Ho : Forall (fun g => exists h, g = observe h) (default [] (handlers b !! topic))).
  { destruct (handlers b !! topic) eqn:E; [by eapply Hobs|constructor]. }
  pose proof (dispatch_seen _ (NewEnvelope topic (Clock.Now (clk b)) payload) w Ho) as Hd.
  destruct (dispatch _ _ w) as [errs w']. cbn [fst snd] in Hd.
  split; [done|]. split; [done|]. exists s'. cbn [fst snd tap].
  case_decide; cbn [recorded_by]; auto.
Qed.

(** ** The invariant of a run *)

(** What a run over [s0] has done: the rows it added are those of the
    recorded messages, possibly with rows whose insertion was not
    acknowledged; every message seen is one of the recorded; times do not
    decrease. *)
Record bus_inv (s0 : PGEventStore) (rec : list (Envelope P)) (st : bus_state) : Prop := {
  inv_observing : observing (fst st);
  inv_store : exists s, store_of st = Some s /\ publisher s = publisher s0 /\ runID s = runID s0
    /\ (exists added, rows (db s) = rows (db s0) ++ added /\ rows_of s0 rec `sublist_of` added
          /\ (LostAck ∉ script (db s0) -> added = rows_of s0 rec))
    /\ (exists used, script (db s0) = used ++ script (db s))
    /\ appended s = wrap64 (Z.of_nat (length rec))
    /\ (if baselineSet s then baseline s = Z.of_nat (length (mine s0))
        else rec = [] /\ rows (db s) = rows (db s0));
  inv_seen : forall msg, msg ∈ seen st -> msg ∈ rec;
  inv_marshal : Forall (fun m => is_Some (Marshal (env_payload m))) rec;
  inv_topics : Forall (fun m => IsRegisteredTopic (env_topic m) = true) rec;
  inv_times : StronglySorted Z.le (map env_ts rec)
              /\ Forall (fun m => env_ts m <= Clock.Now (clk (fst st))) rec
}.

Lemma start_inv s0 clk w :
  appended s0 = 0 -> baselineSet s0 = false -> bus_inv s0 [] (start s0 clk w).
Proof.
  intros Ha Hb. constructor; cbn; try done.
  - exists s0. rewrite Hb. split_and!; try done.
    + exists []. rewrite app_nil_r. done.
    + by exists [].
  - split; constructor.
Qed.

Lemma rows_of_app s m m' : rows_of s (m ++ m') = rows_of s m ++ rows_of s m'.
Proof. apply omap_app. Qed.

Lemma rows_of_ident s s' m : publisher s' = publisher s -> runID s' = runID s -> rows_of s' m = rows_of s m.
Proof. intros H1 H2. unfold rows_of, row_of. by rewrite H1, H2. Qed.

Lemma mine_ident s s' :
  publisher s' = publisher s -> runID s' = runID s -> rows (db s') = rows (db s) -> mine s' = mine s.
Proof. intros H1 H2 H3. unfold mine, is_mine. by rewrite H1, H2, H3. Qed.

Lemma sorted_snoc (l : list Z) x :
  StronglySorted Z.le l -> Forall (fun y => y <= x) l -> StronglySorted Z.le (l ++ [x]).
Proof.
  induction 1 as [|y l Hl IH Hy]; intros Hx; cbn; [by repeat constructor|].
  apply Forall_cons in Hx as [Hyx Hx]. constructor; [by apply IH|].
  apply Forall_app. split; [done|by constructor].
Qed.

Lemma wrap64_succ a : wrap64 (wrap64 a + 1) = wrap64 (a + 1).
Proof.
  unfold wrap64. replace ((a + two63) mod two64 - two63 + 1 + two63) with ((a + two63) mod two64 + 1) by lia.
  rewrite Zplus_mod_idemp_l. do 2 f_equal. lia.
Qed.

Lemma store_step_inv s0 rec st st' msg ok s s' :
  bus_inv s0 rec st -> store_of st = Some s -> appends msg ok s s' -> store_of st' = Some s' ->
  exists s2, store_of st' = Some s2 /\ publisher s2 = publisher s0 /\ runID s2 = runID s0
    /\ (exists added, rows (db s2) = rows (db s0) ++ added
          /\ rows_of s0 (rec ++ if ok then [msg] else []) `sublist_of` added
          /\ (LostAck ∉ script (db s0) -> added = rows_of s0 (rec ++ if ok then [msg] else [])))
    /\ (exists used, script (db s0) = used ++ script (db s2))
    /\ appended s2 = wrap64 (Z.of_nat (length (rec ++ if ok then [msg] else [])))
    /\ (if baselineSet s2 then baseline s2 = Z.of_nat (length (mine s0))
        else (rec ++ if ok then [msg] else []) = [] /\ rows (db s2) = rows (db s0)).
Proof.
  intros [_ (s1 & Hs1 & Hp & Hr & (added & Hrows & Hsub & Hexact) & [used Hscr] & Happ & Hbase) _ _ _ _] Hs.
  rewrite Hs1 in Hs. injection Hs as ->.
  intros [[Ip Ir] [used' Ascr] Aok Afail Acount Abase Afirst] Hs'.
  assert (Hro : rows_of s [msg] = rows_of s0 [msg]) by (by apply rows_of_ident).
  exists s'. split; [done|]. split; [congruence|]. split; [congruence|]. split; [|split; [|split]].
  - destruct ok.
    + destruct (Aok eq_refl) as [_ Hrows']. exists (added ++ rows_of s0 [msg]).
      rewrite Hrows', Hrows, Hro, <- app_assoc, rows_of_app. split; [done|].
      split; [by apply sublist_app|]. intros Hl. by rewrite <- Hexact.
    + rewrite app_nil_r. destruct (Afail eq_refl) as [Hrows'|[Hrows' Hl]].
      * exists added. by rewrite Hrows', Hrows.
      * exists (added ++ rows_of s0 [msg]). rewrite Hrows', Hrows, Hro, <- app_assoc. split; [done|].
        split; [by apply sublist_inserts_r|]. intros []. rewrite Hscr. apply elem_of_app. by right.
  - exists (used ++ used'). by rewrite Hscr, Ascr, app_assoc.
  - rewrite Acount. destruct ok; [|by rewrite app_nil_r].
    rewrite Happ, wrap64_succ, length_app. cbn. f_equal. lia.
  - destruct (baselineSet s) eqn:Eb.
    + destruct (Abase eq_refl) as [-> ->]. done.
    + destruct Hbase as [-> Hr0]. specialize (Afirst eq_refl). destruct (baselineSet s').
      * rewrite Afirst, (mine_ident s0 s) by done. done.
      * destruct Afirst as [-> ->]. done.
Qed.

Lemma bus_step_inv op s0 rec st :
  bus_inv s0 rec st ->
  bus_inv s0 (rec ++ fst (bus_step op st)) (snd (bus_step op st)).
Proof.
  intros Hinv. destruct op as [topic h|ctx topic payload|ts]; destruct st as [b w].
  - cbn [bus_step fst snd]. rewrite app_nil_r. destruct Hinv as [H1 H2 H3 H4 H5 H6].
    unfold Subscribe. destruct (negb _); [by constructor|]. destruct h as [h|]; [|by constructor].
    cbn [fmap option_fmap option_map snd]. constructor; try done.
    intros t hs. cbn [fst handlers]. destruct (decide (t = topic)) as [->|Hne].
    + rewrite lookup_insert_eq. intros [= <-]. apply Forall_app. split; [|by repeat constructor; eexists].
      destruct (handlers b !! topic) eqn:E; [by eapply H1|constructor].
    + rewrite lookup_insert_ne by done. apply H1.
  - cbn [bus_step]. pose proof Hinv as [H1 (s & Hs & _) H3 H4 H5 [H6 H7]].
    pose proof (Publish_store ctx topic payload (b, w) s Hs H1) as HP. cbn zeta in HP. cbn [fst] in HP.
    set (msg := NewEnvelope topic (Clock.Now (clk b)) payload) in *.
    destruct (Publish ctx topic payload (b, w)) as [r st'].
    destruct HP as (Hclk & Hh & s' & Hs' & Hcase & Hseen). cbn [fst snd].
    assert (Hstore : exists s2, store_of st' = Some s2 /\ publisher s2 = publisher s0 /\ runID s2 = runID s0
      /\ (exists added, rows (db s2) = rows (db s0) ++ added
          /\ rows_of s0 (rec ++ if recorded_by r then [msg] else []) `sublist_of` added
          /\ (LostAck ∉ script (db s0) -> added = rows_of s0 (rec ++ if recorded_by r then [msg] else [])))
      /\ (exists used, script (db s0) = used ++ script (db s2))
      /\ appended s2 = wrap64 (Z.of_nat (length (rec ++ if recorded_by r then [msg] else [])))
      /\ (if baselineSet s2 then baseline s2 = Z.of_nat (length (mine s0))
          else (rec ++ if recorded_by r then [msg] else []) = [] /\ rows (db s2) = rows (db s0))).
    { destruct Hcase as [[Ha _]|[-> ->]].
      - by apply (store_step_inv s0 rec (b, w) st' msg (recorded_by r) s s').
      - rewrite app_nil_r, Hs'. rewrite <- Hs. by destruct Hinv. }
    assert (Hrec : recorded_by r = true -> is_Some (Marshal payload) /\ IsRegisteredTopic topic = true).
    { intros Hr. rewrite Hr in Hcase. destruct Hcase as [[Ha Ht]|[? _]]; [|done].
      split; [|done]. by destruct (app_ok _ _ _ _ Ha eq_refl). }
    constructor; [|exact Hstore|..].
    + intros t hs. rewrite Hh. apply H1.
    + intros m. rewrite Hseen. intros [Hm|Hm]%elem_of_app; apply elem_of_app; [left; by apply H3|right].
      destruct (recorded_by r); [apply elem_of_replicate in Hm as [-> _]; by left|].
      by apply not_elem_of_nil in Hm.
    + apply Forall_app. split; [done|]. destruct (recorded_by r); [|constructor].
      constructor; [by apply Hrec|constructor].
    + apply Forall_app. split; [done|]. destruct (recorded_by r); [|constructor].
      constructor; [by apply Hrec|constructor].
    + rewrite Hclk. cbn [fst]. destruct (recorded_by r); [|by rewrite app_nil_r].
      rewrite map_app. cbn [map]. split; [apply sorted_snoc; [done|by apply Forall_fmap]|].
      apply Forall_app. split; [done|]. constructor; [cbn; lia|constructor].
  - cbn [bus_step fst snd]. rewrite app_nil_r. destruct Hinv as [H1 H2 H3 H4 H5 [H6 H7]].
    constructor; try done. split; [done|]. eapply Forall_impl; [exact H7|]. cbn. intros m Hm.
    pose proof (Clock.VirtualAdvance_monotone ts (clk b)). unfold Clock.VirtualNow in *. lia.
Qed.

Lemma bus_run_inv ops s0 : forall rec st,
  bus_inv s0 rec st -> bus_inv s0 (rec ++ fst (bus_run ops st)) (snd (bus_run ops st)).
Proof.
  induction ops as [|op ops IH]; intros rec st Hinv; cbn [bus_run fst snd]; [by rewrite app_nil_r|].
  pose proof (bus_step_inv op s0 rec st Hinv) as H1. destruct (bus_step op st) as [r1 st1].
  cbn [fst snd] in H1. specialize (IH _ _ H1). destruct (bus_run ops st1) as [r2 st2]. cbn [fst snd] in *.
  by rewrite app_assoc.
Qed.

(** A freshly constructed store. *)
Lemma NewPGEventStore_inv d pub rid s0 clk w :
  NewPGEventStore (Some d) pub rid = Ok s0 -> db s0 = d /\ bus_inv s0 [] (start s0 clk w).
Proof.
  unfold NewPGEventStore. case_decide; [done|]. intros [= <-]. split; [done|]. by apply start_inv.
Qed.

(** ** Nothing is seen that is not recorded *)

(** C9. A subscriber only ever sees recorded messages: whatever the
    handlers do, whatever the clock is told and however the database fails,
    every message handed to a handler has its row in the audit table. *)
Theorem subscribers_see_only_recorded d pub rid s0 clk w ops msg
    (Hnew : NewPGEventStore (Some d) pub rid = Ok s0)
    (Hseen : msg ∈ seen (snd (bus_run ops (start s0 clk w)))) :
  exists s payload, store_of (snd (bus_run ops (start s0 clk w))) = Some s
    /\ Marshal (env_payload msg) = Some payload
    /\ row_of s0 payload msg ∈ rows (db s).
Proof.
  destruct (NewPGEventStore_inv d pub rid s0 clk w Hnew) as [_ Hinv].
  apply (bus_run_inv ops) in Hinv. cbn [app] in Hinv.
  destruct Hinv as [_ (s & Hs & _ & _ & (added & Hrows & Hsub & _) & _) Hin Hm _ _].
  apply Hin in Hseen. rewrite Forall_forall in Hm. destruct (Hm msg Hseen) as [payload Hp].
  exists s, payload. split; [done|]. split; [done|]. rewrite Hrows. apply elem_of_app. right.
  eapply elem_of_sublist; [|exact Hsub]. unfold rows_of. apply list_elem_of_omap.
  exists msg. rewrite Hp. done.
Qed.

(** ** Replay *)

Lemma list_filter_all {A} (p : A -> bool) l : (forall x, x ∈ l -> p x = true) -> List.filter p l = l.
Proof.
  induction l as [|x l IH]; intros H; [done|]. cbn. rewrite H by left. f_equal. apply IH.
  intros y Hy. apply H. by right.
Qed.

Lemma imap_pair_snd {A} (l : list A) : forall n, map snd (imap (fun i => pair (n + i)%nat) l) = l.
Proof.
  induction l as [|x l IH]; intros n; [done|]. cbn. f_equal.
  rewrite (imap_ext _ (fun i => pair (S n + i)%nat)) by (intros; unfold compose; f_equal; lia). apply IH.
Qed.

Context (Hmono : forall t t', t <= t' -> pg_time t <= pg_time t').

(** The message a replay gives back for a recorded one. *)
Definition replayed (msgs : list (Envelope P)) : list (Envelope bytes) :=
  omap (fun m => payload ← Marshal (env_payload m);
                 Some (NewEnvelope (env_topic m) (pg_time (env_ts m)) (pg_jsonb payload))) msgs.

Lemma replayed_rows s msgs :
  map (fun r => NewEnvelope (row_topic r) (row_ts r) (row_payload r)) (rows_of s msgs) = replayed msgs.
Proof.
  unfold rows_of, replayed. induction msgs as [|m msgs IH]; [done|]. cbn.
  destruct (Marshal (env_payload m)); cbn; by rewrite IH.
Qed.

Lemma rows_of_lookup s msgs i r :
  rows_of s msgs !! i = Some r -> exists m, m ∈ msgs /\ row_ts r = pg_time (env_ts m).
Proof.
  intros [m [Hm Hr]]%list_elem_of_lookup_2%list_elem_of_omap. exists m. split; [done|].
  destruct (Marshal (env_payload m)); [|done]. by injection Hr as <-.
Qed.

Lemma rows_of_sorted s msgs :
  StronglySorted Z.le (map env_ts msgs) -> StronglySorted Z.le (map row_ts (rows_of s msgs)).
Proof.
  induction msgs as [|m msgs IH]; intros Hs; [constructor|]. cbn in Hs.
  apply StronglySorted_inv in Hs as [Hs Hm].
  change (m :: msgs) with ([m] ++ msgs). rewrite rows_of_app, map_app.
  unfold rows_of at 1. cbn. destruct (Marshal (env_payload m)) as [p|]; cbn; [|by apply IH].
  constructor; [by apply IH|]. apply Forall_fmap, Forall_forall. intros r [i Hi]%list_elem_of_lookup.
  apply rows_of_lookup in Hi as (m' & Hm' & E). cbn. rewrite E. apply Hmono.
  rewrite Forall_fmap, Forall_forall in Hm. by apply Hm.
Qed.

#[local] Instance row_le_trans : Transitive row_le.
Proof. intros a b c. unfold row_le. lia. Qed.
#[local] Instance row_le_total : base.Total row_le.
Proof. intros a b. unfold row_le. lia. Qed.

(** Rows already in time order are replayed in id order. *)
Lemma merge_sort_numbered rs :
  StronglySorted Z.le (map row_ts rs) -> merge_sort row_le (imap pair rs) = imap pair rs.
Proof.
  intros Hs. apply (StronglySorted_unique_strong row_le).
  - intros [i a] [j b]. rewrite merge_sort_Permutation.
    intros (i' & a' & [= -> ->] & Ha)%elem_of_lookup_imap (j' & b' & [= -> ->] & Hb)%elem_of_lookup_imap.
    unfold row_le. cbn. intros H1 H2. assert (i' = j') as -> by lia. congruence.
  - apply (StronglySorted_merge_sort row_le).
  - clear -Hs. assert (Hgen : forall n, StronglySorted row_le (imap (fun i => pair (n + i)%nat) rs)).
    { induction rs as [|r rs IH]; intros n; cbn; [constructor|].
      cbn in Hs. apply StronglySorted_inv in Hs as [Hs Hr]. constructor.
      - rewrite (imap_ext _ (fun i => pair (S n + i)%nat)) by (intros; unfold compose; f_equal; lia). by apply IH.
      - apply Forall_forall. intros p (i & a & -> & Ha)%elem_of_lookup_imap.
        rewrite Forall_fmap, Forall_forall in Hr. apply list_elem_of_lookup_2, Hr in Ha.
        unfold row_le. cbn in *. lia. }
    apply (Hgen 0%nat).
  - apply merge_sort_Permutation.
Qed.

(** Replay is the inverse of publishing. Over an empty audit table, with
    the back-test clock, any handlers and any statement refusals, replaying a
    window that covers the recorded messages returns exactly the messages of
    the publications that went through, in the order of publication, with
    the table's form of their times and payloads. *)
Theorem replay_returns_published d pub rid s0 clk w ops from to
    (Hnew : NewPGEventStore (Some d) pub rid = Ok s0)
    (Hempty : rows d = []) (Hacks : LostAck ∉ script d) (Hrange : from <= to)
    (Hwindow : Forall (fun m => from <= env_ts m <= to) (fst (bus_run ops (start s0 clk w)))) :
  exists s, store_of (snd (bus_run ops (start s0 clk w))) = Some s
    /\ (script (db s) = [] ->
        fst (Replay pg_time from to s) = Ok (replayed (fst (bus_run ops (start s0 clk w))))).
Proof.
  destruct (NewPGEventStore_inv d pub rid s0 clk w Hnew) as [<- Hinv].
  apply (bus_run_inv ops) in Hinv. cbn [app] in Hinv. set (rec := fst (bus_run ops (start s0 clk w))) in *.
  destruct Hinv as [_ (s & Hs & _ & _ & (added & Hrows & _ & Hexact) & _) _ _ _ [Hsorted _]].
  rewrite Hempty, (Hexact Hacks) in Hrows. cbn [app] in Hrows.
  exists s. split; [done|]. intros Hscr. unfold Replay, next_outcome. rewrite Hscr.
  replace (to <? from) with false by lia. cbn [fst]. rewrite Hrows. f_equal.
  rewrite list_filter_all; [rewrite merge_sort_numbered by (by apply rows_of_sorted)|].
  - rewrite <- (replayed_rows s0). rewrite <- (imap_pair_snd (rows_of s0 rec) 0) at 2. by rewrite map_map.
  - intros p (i & r & -> & Hi)%elem_of_lookup_imap. apply rows_of_lookup in Hi as (m & Hm & E).
    cbn. rewrite E. rewrite Forall_forall in Hwindow. destruct (Hwindow m Hm).
    apply andb_true_iff. split; apply Z.leb_le; by apply Hmono.
Qed.

(** ** The self-check *)

Lemma registered_not_blank r : IsRegisteredTopic (row_topic r) = true -> is_corrupt r = false.
Proof.
  unfold IsRegisteredTopic. rewrite bool_decide_eq_true. intros Hin.
  destruct registry_init_ok as (reg & Hreg & Hdecl). unfold registry in Hin. rewrite Hreg in Hin.
  apply Hdecl in Hin.
  assert (Hall : Forall (fun t => bool_decide (trim_both (Ascii.eqb " "%char) t = []) = false) declared)
    by (repeat constructor).
  rewrite Forall_forall in Hall. by apply Hall.
Qed.

Lemma filter_sublist {A} (p : A -> bool) l l' : l `sublist_of` l' -> List.filter p l `sublist_of` List.filter p l'.
Proof. induction 1; cbn; try case_match; eauto using sublist. Qed.

Lemma sublist_same_length {A} (l l' : list A) : l `sublist_of` l' -> length l = length l' -> l = l'.
Proof.
  induction 1 as [|x l l' H IH|x l l' H IH]; cbn; intros Hlen; [done|f_equal; apply IH; lia|].
  pose proof (sublist_length _ _ H). lia.
Qed.

Lemma rows_of_mine s msgs : List.filter (is_mine s) (rows_of s msgs) = rows_of s msgs.
Proof.
  apply list_filter_all. intros r (m & _ & Hr)%list_elem_of_omap.
  destruct (Marshal (env_payload m)); [|done]. injection Hr as <-.
  unfold is_mine, row_of. cbn. by rewrite !bool_decide_true.
Qed.

Lemma rows_of_length s msgs :
  Forall (fun m => is_Some (Marshal (env_payload m))) msgs -> length (rows_of s msgs) = length msgs.
Proof.
  unfold rows_of. induction 1 as [|m msgs [p Hp] _ IH]; [done|]. cbn. rewrite Hp. cbn. by rewrite IH.
Qed.

Lemma Verify_exact s rs :
  baselineSet s = true -> 0 <= baseline s + appended s <= max_int64 ->
  Forall (fun r => is_corrupt r = false) (List.filter (is_mine s) rs) ->
  is_ok (fst (Verify (set_db (MkDB rs []) s))) = true
  <-> Z.of_nat (length (List.filter (is_mine s) rs)) = baseline s + appended s.
Proof.
  intros Hset Hrange Hok. unfold Verify, ensureBaseline. cbn [set_db baselineSet]. rewrite Hset.
  unfold count_query. cbn [next_outcome db set_db script].
  change (mine (set_db (MkDB rs []) s)) with (List.filter (is_mine s) rs).
  cbn [baseline appended set_db]. rewrite wrap64_id by (int64_unfold; lia).
  destruct (Z.of_nat (length (List.filter (is_mine s) rs)) =? baseline s + appended s) eqn:E;
    cbn [negb]; bool_to_prop; [|split; [done|lia]].
  assert (Hc : List.filter is_corrupt (List.filter (is_mine s) rs) = []).
  { clear E. induction Hok as [|r l Hr _ IH]; [done|]. cbn. by rewrite Hr. }
  cbn [next_outcome db set_db script]. change (mine _) with (List.filter (is_mine s) rs). by rewrite Hc.
Qed.

(** The store's self-check finds every lost row. After any run that
    recorded something (without lost acknowledgements), whatever rows are
    removed from the audit table, [Verify] passes exactly when every row of
    this publisher and run is still there. *)
Theorem verify_finds_lost_rows d pub rid s0 clk w ops s rows'
    (Hnew : NewPGEventStore (Some d) pub rid = Ok s0)
    (Hacks : LostAck ∉ script d)
    (Hclean : Forall (fun r => is_corrupt r = false) (mine s0))
    (Hsize : Z.of_nat (length (mine s0)) + Z.of_nat (length (fst (bus_run ops (start s0 clk w)))) <= max_int64)
    (Hsome : fst (bus_run ops (start s0 clk w)) <> [])
    (Hs : store_of (snd (bus_run ops (start s0 clk w))) = Some s)
    (Hlost : rows' `sublist_of` rows (db s)) :
  is_ok (fst (Verify (set_db (MkDB rows' []) s))) = true <-> List.filter (is_mine s) rows' = mine s.
Proof.
  destruct (NewPGEventStore_inv d pub rid s0 clk w Hnew) as [<- Hinv].
  apply (bus_run_inv ops) in Hinv. cbn [app] in Hinv. set (rec := fst (bus_run ops (start s0 clk w))) in *.
  destruct Hinv as [_ (s1 & Hs1 & Hp & Hr & (added & Hrows & _ & Hexact) & _ & Happ & Hbase) _ Hm Ht _].
  rewrite Hs1 in Hs. injection Hs as ->. destruct (baselineSet s) eqn:Eb; [|by destruct Hbase].
  assert (Hmine : mine s = mine s0 ++ rows_of s0 rec).
  { unfold mine. rewrite Hrows, (Hexact Hacks), List.filter_app.
    assert (He : is_mine s = is_mine s0) by (unfold is_mine; by rewrite Hp, Hr).
    by rewrite He, rows_of_mine. }
  assert (Hsum : baseline s + appended s = Z.of_nat (length (mine s0)) + Z.of_nat (length rec)).
  { rewrite Hbase, Happ, wrap64_id by (int64_unfold; lia). lia. }
  assert (Hlen : Z.of_nat (length (mine s)) = baseline s + appended s).
  { rewrite Hmine, length_app, rows_of_length, Hsum by done. lia. }
  pose proof (filter_sublist (is_mine s) _ _ Hlost) as Hsub. fold (mine s) in Hsub.
  rewrite Verify_exact; [|done|int64_unfold; lia|].
  - rewrite <- Hlen. split; [|by intros ->]. intros Heq. by apply sublist_same_length; [|lia].
  - apply Forall_forall. intros r Hrin. eapply elem_of_sublist in Hsub; [|exact Hrin].
    rewrite Hmine in Hsub. apply elem_of_app in Hsub as [H1|H1].
    + rewrite Forall_forall in Hclean. by apply Hclean.
    + apply list_elem_of_omap in H1 as (m & Hmin & Hrow).
      destruct (Marshal (env_payload m)); [|done]. injection Hrow as <-.
      apply registered_not_blank. cbn. rewrite Forall_forall in Ht. by apply Ht.
Qed.

End Runs.

(** ** Instances: text payloads over microsecond columns *)

Definition micro (t : Time) : Time := t - t mod 1000.

Lemma micro_mono t t' : t <= t' -> micro t <= micro t'.
Proof.
  intros H. unfold micro. pose proof (Z.div_mod t 1000 ltac:(lia)). pose proof (Z.div_mod t' 1000 ltac:(lia)).
  pose proof (Z.div_le_mono t t' 1000 ltac:(lia) H). lia.
Qed.

Lemma window_check {P : Type} (from to : Time) (msgs : list (Envelope P)) :
  forallb (fun m => (from <=? env_ts m) && (env_ts m <=? to)) msgs = true ->
  Forall (fun m => from <= env_ts m <= to) msgs.
Proof. induction msgs as [|m msgs IH]; intros H; [constructor|]. cbn in H. bool_to_prop. constructor; [lia|auto]. Qed.

Definition counting (msg : Envelope bytes) (n : nat) : option unit * nat :=
  (if Nat.even n then None else Some tt, S n).

Definition demo_bus_ops : list (@bus_op bytes nat unit) :=
  [ BusSubscribe (lit "data.bar") (Some counting);
    BusSubscribe (lit "data.bar") (Some counting);
    BusPublish None (lit "data.bar") (lit "1");
    BusAdvance (Clock.unix_epoch + 1500);
    BusPublish (Some (lit "deadline")) (lit "data.bar") (lit "2");
    BusPublish None (lit "no.such") (lit "3");
    BusPublish None (lit "data.bar") (lit "4") ].

Definition demo_db (script : list outcome) : DB := MkDB [] script.
Definition demo_store (script : list outcome) : PGEventStore :=
  MkStore (lit "kernel") [] 0 false 0 (demo_db script).

Definition demo_bus_run (script : list outcome) : list (Envelope bytes) * bus_state :=
  bus_run Some micro id demo_bus_ops (start (demo_store script) (Clock.NewVirtualClock Clock.unix_epoch) 0%nat).

(** The second of the two publications that reach the database loses its
    acknowledgement: it is in the table, and nobody saw it. *)
Lemma subscribers_see_only_recorded_witness :
  length (seen (snd (demo_bus_run [Done; Done; LostAck]))) = 2%nat
  /\ forall msg, msg ∈ seen (snd (demo_bus_run [Done; Done; LostAck])) ->
       exists s payload, store_of (snd (demo_bus_run [Done; Done; LostAck])) = Some s
         /\ Some (env_payload msg) = Some payload
         /\ row_of micro id (demo_store [Done; Done; LostAck]) payload msg ∈ rows (db s).
Proof.
  split; [vm_compute; reflexivity|]. intros msg Hmsg.
  exact (subscribers_see_only_recorded Some micro id (demo_db [Done; Done; LostAck]) (lit "kernel") []
    (demo_store [Done; Done; LostAck]) (Clock.NewVirtualClock Clock.unix_epoch) 0%nat demo_bus_ops msg eq_refl Hmsg).
Defined.

Lemma replay_returns_published_witness :
  length (fst (demo_bus_run [])) = 2%nat
  /\ exists s, store_of (snd (demo_bus_run [])) = Some s
     /\ (script (db s) = [] ->
         fst (Replay micro Clock.unix_epoch (Clock.unix_epoch + 2000) s)
         = Ok (replayed Some micro id (fst (demo_bus_run [])))).
Proof.
  split; [vm_compute; reflexivity|].
  apply (replay_returns_published Some micro id micro_mono (demo_db []) (lit "kernel") []
    (demo_store []) (Clock.NewVirtualClock Clock.unix_epoch) 0%nat demo_bus_ops
    Clock.unix_epoch (Clock.unix_epoch + 2000));
    [reflexivity|reflexivity|by apply not_elem_of_nil|lia|].
  apply window_check. vm_compute. reflexivity.
Defined.

Lemma verify_finds_lost_rows_witness :
  exists s, store_of (snd (demo_bus_run [])) = Some s /\ length (rows (db s)) = 2%nat
    /\ (is_ok (fst (Verify (set_db (MkDB (rows (db s)) []) s))) = true
        <-> List.filter (is_mine s) (rows (db s)) = mine s)
    /\ (is_ok (fst (Verify (set_db (MkDB [] []) s))) = true
        <-> List.filter (is_mine s) [] = mine s).
Proof.
  destruct (store_of (snd (demo_bus_run []))) as [s|] eqn:E; [|vm_compute in E; discriminate E].
  exists s. split; [reflexivity|]. split; [vm_compute in E; injection E as <-; reflexivity|].
  split; (apply (verify_finds_lost_rows Some micro id (demo_db []) (lit "kernel") [] (demo_store [])
      (Clock.NewVirtualClock Clock.unix_epoch) 0%nat demo_bus_ops s);
    [reflexivity|by apply not_elem_of_nil|constructor|vm_compute; discriminate|vm_compute; discriminate|exact E|]).
  - reflexivity.
  - apply sublist_nil_l.
Defined.
