(* ===== verification/Kernel.v ===== *)
(** * Kernel: assembling and stopping the modules (src/pkg/kernel)

    The kernel registers modules, boots them in a fixed order with a rollback
    on the first failure, and stops them in reverse. A module is three
    functions of the process's state; the message bus is the function that
    publishes a lifecycle message. The operations also return the events they
    caused, in order, so that the theorems can speak of what was started and
    stopped. Each operation holds the kernel's lock for its whole body. *)

From stdpp Require Import base list strings gmap.
From Stdlib Require Import ZArith Lia Ascii.
From S2P Require Import Prelude Domain EventBus.

Definition BootOrder : list bytes := map lit
  ["eventstore"; "clock"; "data-engine"; "portfolio"; "risk-engine"; "exec-engine";
   "strategy-runtime"; "indicators"; "exec-algo"; "msgbus"]%string.

(** What a lifecycle call did, in order. *)
Inductive event :=
| EvInit (name : bytes) (ok : bool)
| EvStart (name : bytes) (ok : bool)
| EvStop (name : bytes)
| EvPublish (topic : bytes) (modules : list bytes).

Section Kernel.

(** The process's state and its errors. *)
Context {W E : Type}.

Record Module := MkModule {
  Name : bytes;
  Init : W -> option E * W;
  Start : W -> option E * W;
  Stop : W -> option E * W
}.

Record StandardKernel := MkKernel {
  bus : option (bytes -> list bytes -> W -> option E * W);
  modules : gmap bytes Module;
  booted : list bytes;
  shutdown : bool;
  bootAttempted : bool
}.

Definition NewKernel (bus : option (bytes -> list bytes -> W -> option E * W)) : StandardKernel :=
  MkKernel bus ∅ [] false false.

Inductive kernel_error :=
| ErrNilModule
| ErrModuleNameEmpty
| ErrModuleAlreadyRegistered (name : bytes)
| ErrModuleNotFound (name : bytes)
| ErrMissingModule (name : bytes) (position : nat)
| InitFailed (name : bytes) (e : E)
| StartFailed (name : bytes) (e : E)
| PublishFailed (topic : bytes) (e : E)
| ErrNoBus
| ErrAlreadyBooted
| StopFailed (name : bytes) (e : E)
| RolledBack (root : kernel_error) (stops : list kernel_error)
| Joined (errs : list kernel_error).

Definition Register (m : option Module) (k : StandardKernel) : res kernel_error unit * StandardKernel :=
  match m with
  | None => (Err ErrNilModule, k)
  | Some m =>
      if decide (Name m = []) then (Err ErrModuleNameEmpty, k)
      else match modules k !! Name m with
           | Some _ => (Err (ErrModuleAlreadyRegistered (Name m)), k)
           | None => (Ok tt, MkKernel (bus k) (<[Name m := m]> (modules k)) (booted k)
                               (shutdown k) (bootAttempted k))
           end
  end.

Definition LookupModule (name : bytes) (k : StandardKernel) : res kernel_error Module :=
  match modules k !! name with Some m => Ok m | None => Err (ErrModuleNotFound name) end.

Definition publishLocked (k : StandardKernel) (topic : bytes) (w : W)
    : option kernel_error * list event * W :=
  match bus k with
  | None => (Some ErrNoBus, [], w)
  | Some publish =>
      let '(e, w) := publish topic (booted k) w in
      (PublishFailed topic <$> e, [EvPublish topic (booted k)], w)
  end.

(** Stopping a list of modules, the errors collected. *)
Fixpoint stop_all (ms : gmap bytes Module) (names : list bytes) (w : W)
    : list kernel_error * list event * W :=
  match names with
  | [] => ([], [], w)
  | name :: names =>
      let '(e, w) := match ms !! name with Some m => Stop m w | None => (None, w) end in
      let '(errs, evs, w) := stop_all ms names w in
      (match e with Some e => StopFailed name e :: errs | None => errs end, EvStop name :: evs, w)
  end.

(** [bootFailedLocked] with [rollbackLocked]: the root error, with the
    errors of the stops beside it. *)
Definition bootFailedLocked (ms : gmap bytes Module) (up : list bytes) (root : kernel_error) (w : W)
    : kernel_error * list event * W :=
  let '(errs, evs, w) := stop_all ms (rev up) w in
  (if decide (length errs = 0%nat) then root else RolledBack root errs, evs, w).

(** The loop over the boot order; [up] are the modules started so far. *)
Fixpoint boot_loop (ms : gmap bytes Module) (names up : list bytes) (w : W)
    : res kernel_error unit * list bytes * list event * W :=
  match names with
  | [] => (Ok tt, up, [], w)
  | name :: names =>
      match ms !! name with
      | None =>
          let '(e, evs, w) := bootFailedLocked ms up (ErrMissingModule name (length up + 1)) w in
          (Err e, [], evs, w)
      | Some m =>
          match Init m w with
          | (Some e, w) =>
              let '(e, evs, w) := bootFailedLocked ms up (InitFailed name e) w in
              (Err e, [], EvInit name false :: evs, w)
          | (None, w) =>
              match Start m w with
              | (Some e, w) =>
                  let '(e, evs, w) := bootFailedLocked ms up (StartFailed name e) w in
                  (Err e, [], EvInit name true :: EvStart name false :: evs, w)
              | (None, w) =>
                  let '(r, up, evs, w) := boot_loop ms names (up ++ [name]) w in
                  (r, up, EvInit name true :: EvStart name true :: evs, w)
              end
          end
      end
  end.

Definition Boot (kw : StandardKernel * W) : res kernel_error unit * list event * (StandardKernel * W) :=
  let '(k, w) := kw in
  if bootAttempted k then (Err ErrAlreadyBooted, [], kw)
  else
    let '(r, up, evs, w) := boot_loop (modules k) BootOrder (booted k) w in
    let k := MkKernel (bus k) (modules k) up (shutdown k) true in
    match r with
    | Err e => (Err e, evs, (k, w))
    | Ok _ =>
        match publishLocked k Topics.TopicKernelBoot w with
        | (None, pub, w) => (Ok tt, evs ++ pub, (k, w))
        | (Some e, pub, w) =>
            let '(e, stops, w) := bootFailedLocked (modules k) up e w in
            (Err e, evs ++ pub ++ stops, (MkKernel (bus k) (modules k) [] (shutdown k) true, w))
        end
    end.

Definition Shutdown (kw : StandardKernel * W) : res kernel_error unit * list event * (StandardKernel * W) :=
  let '(k, w) := kw in
  if shutdown k then (Ok tt, [], kw)
  else
    let k := MkKernel (bus k) (modules k) (booted k) true (bootAttempted k) in
    let '(pubErr, pub, w) := publishLocked k Topics.TopicKernelShutdown w in
    let '(errs, stops, w) := stop_all (modules k) (rev (booted k)) w in
    let errs := errs ++ option_list pubErr in
    (if decide (length errs = 0%nat) then Ok tt else Err (Joined errs), pub ++ stops,
     (MkKernel (bus k) (modules k) [] true (bootAttempted k), w)).

(** ** Base modules *)

Definition NewBaseModule (name : bytes) : Module :=
  MkModule name (fun w => (None, w)) (fun w => (None, w)) (fun w => (None, w)).

Definition NewNoopModule (name : bytes) : Module := NewBaseModule name.
Definition NewClockModule : Module := NewBaseModule (lit "clock").
Definition NewMsgBusModule : Module := NewBaseModule (lit "msgbus").

(** The event store's module: its [Init] creates the table. *)
Definition NewEventStoreModule (EnsureSchema : W -> option E * W) : Module :=
  MkModule (lit "eventstore") EnsureSchema (fun w => (None, w)) (fun w => (None, w)).

(** ** Runs *)

Inductive kernel_op :=
| KRegister (m : option Module)
| KBoot
| KShutdown.

Definition kernel_step (op : kernel_op) (kw : StandardKernel * W) : list event * (StandardKernel * W) :=
  match op with
  | KRegister m => ([], (snd (Register m (fst kw)), snd kw))
  | KBoot => let '(_, evs, kw) := Boot kw in (evs, kw)
  | KShutdown => let '(_, evs, kw) := Shutdown kw in (evs, kw)
  end.

Fixpoint kernel_run (ops : list kernel_op) (kw : StandardKernel * W) : list event * (StandardKernel * W) :=
  match ops with
  | [] => ([], kw)
  | op :: ops =>
      let '(evs, kw) := kernel_step op kw in
      let '(evs', kw) := kernel_run ops kw in (evs ++ evs', kw)
  end.

End Kernel.
Arguments Module W E : clear implicits.
Arguments StandardKernel W E : clear implicits.
Arguments kernel_op W E : clear implicits.

(** The modules an event list starts and stops, in order. *)
Definition started (evs : list event) : list bytes :=
  omap (fun e => match e with EvStart n true => Some n | _ => None end) evs.
Definition stopped (evs : list event) : list bytes :=
  omap (fun e => match e with EvStop n => Some n | _ => None end) evs.
Definition published (evs : list event) : list (bytes * list bytes) :=
  omap (fun e => match e with EvPublish t ms => Some (t, ms) | _ => None end) evs.

Lemma started_app a b : started (a ++ b) = started a ++ started b.
Proof. apply omap_app. Qed.
Lemma stopped_app a b : stopped (a ++ b) = stopped a ++ stopped b.
Proof. apply omap_app. Qed.
Lemma published_app a b : published (a ++ b) = published a ++ published b.
Proof. apply omap_app. Qed.

Create HintDb go_kernel.
#[export] Hint Rewrite started_app stopped_app published_app : go_kernel.
