(* ===== verification/KernelProps.v ===== *)
(** * KernelProps: the life cycle of the modules

    Over any sequence of registrations, boots and shutdowns, with modules and
    a bus that fail as they please: the modules started are a prefix of the
    boot order, each at most once, and either none of them has been stopped
    or all of them have, once each and in reverse. A boot is all or nothing
    and leaves its row in the audit table. *)

From stdpp Require Import base list strings gmap.
From Stdlib Require Import ZArith Lia Ascii.
From S2P Require Import Prelude GoMap Domain EventBus BusProps Kernel.

Section Life.

Context {W E : Type}.
Implicit Types (k : StandardKernel W E) (w : W) (ms : gmap bytes (Module W E)).

Lemma stop_all_events ms names : forall w,
  snd (fst (stop_all ms names w)) = map EvStop names.
Proof.
  induction names as [|n names IH]; intros w; [done|]. cbn [stop_all map].
  destruct (match ms !! n with Some m => Stop m w | None => (None, w) end) as [e w1].
  specialize (IH w1). destruct (stop_all ms names w1) as [[errs evs] w2]. cbn in *. by rewrite IH.
Qed.

Lemma stopped_stops names : stopped (map EvStop names) = names /\ started (map EvStop names) = []
  /\ published (map EvStop names) = [].
Proof. unfold stopped, started, published. induction names as [|n names (H1 & H2 & H3)]; cbn; [done|]. by rewrite H1. Qed.

Lemma bootFailed_events ms up root w :
  snd (fst (bootFailedLocked ms up root w)) = map EvStop (rev up).
Proof.
  unfold bootFailedLocked. pose proof (stop_all_events ms (rev up) w) as H.
  by destruct (stop_all ms (rev up) w) as [[errs evs] w1].
Qed.

(** The loop either starts every name left, or stops all it had started. *)
Lemma boot_loop_events ms names : forall up w,
  let '(r, up', evs, _) := boot_loop ms names up w in
  published evs = [] /\ started evs `prefix_of` names
  /\ (if is_ok r then started evs = names /\ stopped evs = [] /\ up' = up ++ names
      else stopped evs = rev (up ++ started evs) /\ up' = []).
Proof.
  induction names as [|n names IH]; intros up w; cbn [boot_loop].
  { cbn. rewrite app_nil_r. done. }
  assert (Hfail : forall root w pre, started pre = [] -> stopped pre = [] -> published pre = [] ->
    let '(_, evs, _) := bootFailedLocked ms up root w in
    published (pre ++ evs) = [] /\ started (pre ++ evs) `prefix_of` n :: names
    /\ stopped (pre ++ evs) = rev (up ++ started (pre ++ evs))).
  { intros root w0 pre H1 H2 H3. pose proof (bootFailed_events ms up root w0) as Hb.
    destruct (bootFailedLocked ms up root w0) as [[e evs] w1]. cbn [fst snd] in Hb. subst evs.
    destruct (stopped_stops (rev up)) as (S1 & S2 & S3).
    autorewrite with go_kernel. rewrite H1, H2, H3, S1, S2, S3. cbn [app]. rewrite app_nil_r.
    split; [done|]. split; [apply prefix_nil|done]. }
  destruct (ms !! n) as [m|].
  2:{ specialize (Hfail (ErrMissingModule n (length up + 1)) w [] eq_refl eq_refl eq_refl).
      destruct (bootFailedLocked _ _ _ _) as [[e evs] w1]. cbn in *. naive_solver. }
  destruct (Init m w) as [[e|] w1].
  { specialize (Hfail (InitFailed n e) w1 [EvInit n false] eq_refl eq_refl eq_refl).
    destruct (bootFailedLocked _ _ _ _) as [[e' evs] w2]. cbn in *. naive_solver. }
  destruct (Start m w1) as [[e|] w2].
  { specialize (Hfail (StartFailed n e) w2 [EvInit n true; EvStart n false] eq_refl eq_refl eq_refl).
    destruct (bootFailedLocked _ _ _ _) as [[e' evs] w3]. cbn in *. naive_solver. }
  specialize (IH (up ++ [n]) w2).
  destruct (boot_loop ms names (up ++ [n]) w2) as [[[r up'] evs] w3]. destruct IH as (I1 & I2 & I3).
  change (EvInit n true :: EvStart n true :: evs) with ([EvInit n true; EvStart n true] ++ evs).
  autorewrite with go_kernel.
  change (started [EvInit n true; EvStart n true]) with [n].
  change (stopped [EvInit n true; EvStart n true]) with (@nil bytes).
  change (published [EvInit n true; EvStart n true]) with (@nil (bytes * list bytes)). cbn [app].
  split; [done|]. split; [by apply prefix_cons|]. rewrite <- !app_assoc in I3. cbn [app] in I3.
  destruct (is_ok r); [|done]. destruct I3 as (-> & -> & ->). done.
Qed.

Lemma publish_events k topic w :
  let '(e, evs, _) := publishLocked k topic w in
  started evs = [] /\ stopped evs = []
  /\ (published evs = [] \/ published evs = [(topic, booted k)]) /\ (e = None -> published evs = [(topic, booted k)]).
Proof.
  unfold publishLocked. destruct (bus k) as [publish|]; [|by split_and!; [| |left|]].
  destruct (publish topic (booted k) w) as [[e|] w1]; by split_and!; [| |right|].
Qed.

(** What a first boot does. *)
Lemma Boot_spec k w :
  bootAttempted k = false -> booted k = [] ->
  let '(r, evs, (k', _)) := Boot (k, w) in
  bootAttempted k' = true /\ shutdown k' = shutdown k /\ modules k' = modules k
  /\ started evs `prefix_of` BootOrder
  /\ (if is_ok r then started evs = BootOrder /\ stopped evs = [] /\ booted k' = BootOrder
                      /\ published evs = [(Topics.TopicKernelBoot, BootOrder)]
      else stopped evs = rev (started evs) /\ booted k' = []).
Proof.
  intros Ha Hb. unfold Boot. rewrite Ha, Hb.
  pose proof (boot_loop_events (modules k) BootOrder [] w) as Hl. cbn [app] in Hl.
  destruct (boot_loop (modules k) BootOrder [] w) as [[[r up] evs] w1]. destruct Hl as (L1 & L2 & L3).
  destruct r as [[]|e]; cbn [is_ok] in L3; [|naive_solver]. destruct L3 as (S1 & S2 & ->).
  set (k1 := MkKernel (bus k) (modules k) BootOrder (shutdown k) true).
  pose proof (publish_events k1 Topics.TopicKernelBoot w1) as Hp.
  destruct (publishLocked k1 Topics.TopicKernelBoot w1) as [[[e|] pub] w2]; destruct Hp as (P1 & P2 & P3 & P4).
  - pose proof (bootFailed_events (modules k1) BootOrder e w2) as Hf. fold k1.
    destruct (bootFailedLocked (modules k1) BootOrder e w2) as [[e' stops] w3]. cbn [fst snd] in Hf. subst stops.
    destruct (stopped_stops (rev BootOrder)) as (T1 & T2 & _).
    autorewrite with go_kernel. rewrite S1, S2, P1, P2, T1, T2, app_nil_r. split_and!; done.
  - autorewrite with go_kernel. rewrite S1, S2, P1, P2, L1, (P4 eq_refl). cbn [app is_ok].
    rewrite app_nil_r. split_and!; done.
Qed.

(** What a kernel puts on its bus, when it has one. *)
Definition announced (k : StandardKernel W E) (topic : bytes) : list event :=
  match bus k with Some _ => [EvPublish topic (booted k)] | None => [] end.

Lemma publish_announces k topic w : snd (fst (publishLocked k topic w)) = announced k topic.
Proof. unfold publishLocked, announced. destruct (bus k) as [p|]; [|done]. by destruct (p topic (booted k) w). Qed.

(** A boot that succeeds has a bus to announce itself on. *)
Lemma Boot_bus k w :
  bootAttempted k = false ->
  let '(r, _, (k', _)) := Boot (k, w) in is_ok r = true -> exists publish, bus k' = Some publish.
Proof.
  intros Ha. unfold Boot. rewrite Ha. destruct (boot_loop _ _ _ _) as [[[[[]|e] up] evs] w1]; [|done].
  unfold publishLocked. cbn [bus]. destruct (bus k) as [p|].
  - destruct (p _ _ _) as [[e|] w2]; cbn; [|by exists p]. by destruct (bootFailedLocked _ _ _ _) as [[? ?] ?].
  - by destruct (bootFailedLocked _ _ _ _) as [[? ?] ?].
Qed.

Lemma Shutdown_spec k w :
  let '(r, evs, (k', _)) := Shutdown (k, w) in
  bootAttempted k' = bootAttempted k /\ shutdown k' = true /\ modules k' = modules k
  /\ started evs = []
  /\ (if shutdown k then evs = [] /\ r = Ok tt /\ booted k' = booted k
      else stopped evs = rev (booted k) /\ booted k' = []
           /\ evs = announced k Topics.TopicKernelShutdown ++ map EvStop (rev (booted k))).
Proof.
  unfold Shutdown. destruct (shutdown k) eqn:Es; [done|].
  set (k1 := MkKernel (bus k) (modules k) (booted k) true (bootAttempted k)).
  pose proof (publish_events k1 Topics.TopicKernelShutdown w) as Hp.
  pose proof (publish_announces k1 Topics.TopicKernelShutdown w) as Hpub.
  destruct (publishLocked k1 Topics.TopicKernelShutdown w) as [[pe pub] w1]. destruct Hp as (P1 & P2 & _).
  cbn [fst snd] in Hpub.
  pose proof (stop_all_events (modules k1) (rev (booted k1)) w1) as Hs.
  destruct (stop_all (modules k1) (rev (booted k1)) w1) as [[errs stops] w2]. cbn [fst snd] in Hs. subst stops.
  destruct (stopped_stops (rev (booted k))) as (T1 & T2 & _). cbn [booted k1].
  autorewrite with go_kernel. rewrite P1, P2, T1, T2. cbn [app]. split_and!; try done. by rewrite Hpub.
Qed.

(** ** Runs *)

(** What has been started and stopped, against the kernel's own book. *)
Definition life_ok (evs : list event) (k : StandardKernel W E) : Prop :=
  started evs `prefix_of` BootOrder
  /\ ((stopped evs = [] /\ booted k = started evs) \/ (stopped evs = rev (started evs) /\ booted k = []))
  /\ (bootAttempted k = false -> started evs = []).

Lemma kernel_step_life op evs k w :
  life_ok evs k ->
  let '(evs', (k', _)) := kernel_step op (k, w) in life_ok (evs ++ evs') k'.
Proof.
  intros (L1 & L2 & L3). destruct op as [m| |]; cbn [kernel_step].
  - cbn [fst snd]. rewrite app_nil_r. unfold Register. destruct m as [m|]; [|done].
    case_decide; [done|]. by destruct (modules k !! Name m).
  - destruct (bootAttempted k) eqn:Ea.
    + unfold Boot. rewrite Ea. rewrite app_nil_r. split_and!; auto. intros; congruence.
    + assert (Hnone : started evs = [] /\ stopped evs = [] /\ booted k = []).
      { specialize (L3 eq_refl). rewrite L3 in L2. by destruct L2 as [[? ?]|[? ?]]. }
      destruct Hnone as (N1 & N2 & N3). pose proof (Boot_spec k w Ea N3) as Hb.
      destruct (Boot (k, w)) as [[r evs'] [k' w']]. destruct Hb as (B1 & _ & _ & B4 & B5).
      unfold life_ok. autorewrite with go_kernel. rewrite N1, N2. cbn [app].
      split; [done|]. split; [|congruence]. destruct (is_ok r); [left|right; done].
      by destruct B5 as (-> & -> & -> & _).
  - pose proof (Shutdown_spec k w) as Hs.
    destruct (Shutdown (k, w)) as [[r evs'] [k' w']]. destruct Hs as (B1 & _ & _ & B4 & B5).
    unfold life_ok. autorewrite with go_kernel. rewrite B4, app_nil_r, B1. split; [done|]. split; [|done].
    destruct (shutdown k).
    + destruct B5 as (-> & _ & ->). cbn [stopped omap list_omap]. by rewrite app_nil_r.
    + destruct B5 as (-> & -> & _). right. split; [|done]. destruct L2 as [[-> ->]|[-> ->]]; [done|].
      cbn. by rewrite app_nil_r.
Qed.

Lemma kernel_run_life ops : forall evs k w,
  life_ok evs k ->
  let '(evs', (k', _)) := kernel_run ops (k, w) in life_ok (evs ++ evs') k'.
Proof.
  induction ops as [|op ops IH]; intros evs k w Hl; cbn [kernel_run]; [by rewrite app_nil_r|].
  pose proof (kernel_step_life op evs k w Hl) as Hs.
  destruct (kernel_step op (k, w)) as [evs1 [k1 w1]]. specialize (IH _ k1 w1 Hs).
  destruct (kernel_run ops (k1, w1)) as [evs2 [k2 w2]]. by rewrite app_assoc.
Qed.

(** The life cycle of the modules over any sequence of registrations,
    boots and shutdowns, with modules and a bus that may fail at any call:
    the modules that were started are a prefix of the boot order, in order
    and without repetition, and either none of them has been stopped and the
    kernel lists exactly them as running, or each has been stopped exactly
    once, in reverse order, and it lists none. *)
Theorem module_life_cycle (b : option (bytes -> list bytes -> W -> option E * W)) ops w :
  let '(evs, (k, _)) := kernel_run ops (NewKernel b, w) in
  started evs `prefix_of` BootOrder /\ NoDup (started evs)
  /\ ((stopped evs = [] /\ booted k = started evs) \/ (stopped evs = rev (started evs) /\ booted k = [])).
Proof.
  pose proof (kernel_run_life ops [] (NewKernel b) w) as H.
  destruct (kernel_run ops (NewKernel b, w)) as [evs [k w']].
  destruct H as (H1 & H2 & _); [split_and!; [apply prefix_nil|by left|done]|].
  split; [done|]. split; [|done]. destruct H1 as [rest Hrest].
  assert (Hnd : NoDup BootOrder) by (apply (bool_decide_unpack _); by vm_compute).
  rewrite Hrest in Hnd. by apply NoDup_app in Hnd as [? _].
Qed.


End Life.

(** ** The kernel over the bus and the event store *)

Section Audit.

Context {W F C : Type} `{!Clock.Clock C}.
Context (Marshal : list bytes -> option bytes) (pg_time : Time -> Time) (pg_jsonb : bytes -> bytes).

#[local] Instance audit_tap : Tap (list bytes) EventStore.store_error EventStore.PGEventStore :=
  EventStore.PGTap Marshal pg_time pg_jsonb.

Definition audit_world : Type := SyncBus (list bytes) EventStore.PGEventStore C W F * W.
Definition audit_error : Type := bus_error EventStore.store_error F.

(** The kernel's bus is the synchronous bus. *)
Definition kernel_publish (topic : bytes) (modules : list bytes) (bw : audit_world)
    : option audit_error * audit_world :=
  let '(r, bw) := Publish None topic modules bw in
  (match r with Ok _ => None | Err e => Some e end, bw).

Lemma Publish_recorded topic modules (bw : audit_world) r bw' :
  Publish None topic modules bw = (r, bw') -> r = Ok tt ->
  exists s payload rest, tap (fst bw') = Some s /\ Marshal modules = Some payload
    /\ EventStore.rows (EventStore.db s)
       = rest ++ [EventStore.MkRow (pg_time (Clock.Now (clk (fst bw)))) topic (pg_jsonb payload)
                    (EventStore.publisher s) (EventStore.textOrNull (EventStore.runID s))].
Proof.
  destruct bw as [b w]. unfold Publish. destruct (negb _); [by intros [= <- <-]|].
  destruct (tap b) as [t|]; [|by intros [= <- <-]]. cbn [fst].
  pose proof (Append_spec Marshal pg_time pg_jsonb None (NewEnvelope topic (Clock.Now (clk b)) modules) t) as Ha.
  destruct (Append None _ t) as [[[]|e] t']; [|by intros [= <- <-]].
  cbn [handlers]. destruct (dispatch _ _ w) as [errs w']. intros [= _ <-] _. cbn [fst tap].
  destruct Ha as [[Ip Ir] _ Hok _ _ _ _]. destruct (Hok eq_refl) as [[payload Hp] Hrows].
  exists t', payload, (EventStore.rows (EventStore.db t)). split; [done|]. split; [done|].
  rewrite Hrows, Ip, Ir. f_equal. unfold rows_of. cbn in *. by rewrite Hp.
Qed.

(** A kernel that is up is on record. When the kernel's bus is the
    synchronous bus over the event store, a [Boot] that returns success has
    left, as the last row of the audit table, the announcement of the boot
    with the ten modules as its payload, whatever the modules did to the
    process while they started. *)
Theorem boot_is_on_record (k : StandardKernel audit_world audit_error) w kw evs
    (Hbus : bus k = Some kernel_publish) (Hnone : booted k = [])
    (Hboot : Boot (k, w) = (Ok tt, evs, kw)) :
  exists s payload rest t, tap (fst (snd kw)) = Some s /\ Marshal BootOrder = Some payload
    /\ EventStore.rows (EventStore.db s)
       = rest ++ [EventStore.MkRow t Topics.TopicKernelBoot (pg_jsonb payload)
                    (EventStore.publisher s) (EventStore.textOrNull (EventStore.runID s))].
Proof.
  unfold Boot in Hboot. destruct (bootAttempted k); [done|]. rewrite Hnone in Hboot.
  pose proof (boot_loop_events (modules k) BootOrder [] w) as Hl. cbn [app] in Hl.
  destruct (boot_loop (modules k) BootOrder [] w) as [[[r up] evs1] w1]. destruct Hl as (_ & _ & Hl).
  destruct r as [[]|e]; [|done]. destruct Hl as (_ & _ & ->).
  unfold publishLocked in Hboot. cbn [bus booted] in Hboot. rewrite Hbus in Hboot. unfold kernel_publish in Hboot.
  destruct (Publish None Topics.TopicKernelBoot BootOrder w1) as [r bw'] eqn:Ep.
  destruct r as [[]|e]; cbn [fmap option_fmap option_map] in Hboot.
  - injection Hboot as _ <-. cbn [snd]. destruct (Publish_recorded _ _ _ _ _ Ep eq_refl) as (s & p & rest & Hrec).
    by exists s, p, rest, (pg_time (Clock.Now (clk (fst w1)))).
  - by destruct (bootFailedLocked _ _ _ _) as [[e' stops] w3].
Qed.

End Audit.

(** ** Instances *)

(** The ten modules, the one named [broken] failing its [Start]. *)
Definition demo_module (broken name : bytes) : Module (list bytes) bytes :=
  MkModule name (fun w => (None, w ++ [lit "init"])) 
    (fun w => (if decide (name = broken) then Some (lit "boom") else None, w ++ [lit "start"]))
    (fun w => (None, w ++ [lit "stop"])).

Definition demo_kernel (broken : bytes) : StandardKernel (list bytes) bytes :=
  MkKernel (Some (fun topic _ w => (None, w ++ [topic])))
    (list_to_map (map (fun n => (n, demo_module broken n)) BootOrder)) [] false false.


Definition demo_audit_bus : SyncBus (list bytes) EventStore.PGEventStore Clock.VirtualClock nat unit :=
  NewSyncBus (Some (EventStore.MkStore (lit "kernel") [] 0 false 0 (EventStore.MkDB [] [])))
    (Clock.NewVirtualClock Clock.unix_epoch).
Definition demo_audit_kernel
    : StandardKernel (audit_world (W := nat) (F := unit) (C := Clock.VirtualClock)) (audit_error (F := unit)) :=
  MkKernel (Some (kernel_publish (fun ms => Some (concat ms)) micro id))
    (list_to_map (map (fun n => (n, NewBaseModule n)) BootOrder)) [] false false.

Lemma boot_is_on_record_witness :
  exists s payload rest t, tap (fst (snd (snd (Boot (demo_audit_kernel, (demo_audit_bus, 0%nat)))))) = Some s
    /\ Some (concat BootOrder) = Some payload
    /\ EventStore.rows (EventStore.db s)
       = rest ++ [EventStore.MkRow t Topics.TopicKernelBoot (id payload)
                    (EventStore.publisher s) (EventStore.textOrNull (EventStore.runID s))].
Proof.
  assert (Hok : is_ok (fst (fst (Boot (demo_audit_kernel, (demo_audit_bus, 0%nat))))) = true)
    by (vm_compute; reflexivity).
  destruct (Boot (demo_audit_kernel, (demo_audit_bus, 0%nat))) as [[r evs] kw] eqn:E.
  destruct r as [[]|e]; [|discriminate Hok]. cbn [fst snd].
  exact (boot_is_on_record (fun ms => Some (concat ms)) micro id demo_audit_kernel
    (demo_audit_bus, 0%nat) kw evs eq_refl eq_refl E).
Defined.

(** A shutdown before the boot disarms the one after it: the ten modules
    are started and never stopped. *)
Lemma early_shutdown_leaks_modules :
  let '(evs, (k, _)) := kernel_run [KShutdown; KBoot; KShutdown] (demo_kernel [], []) in
  started evs = BootOrder /\ stopped evs = [] /\ booted k = BootOrder.
Proof. vm_compute. repeat split. Qed.
