(* ===== verification/BacktestEngine.v ===== *)
(** * BacktestEngine: the day loop of a back-test

    pkg/backtest/engine_daily.go, exec_algo.go and the run of engine.go: one
    trading day after the other, the engine filters the pool, fetches the
    market data, closes delisted holdings, sizes and executes the strategy's
    signals, releases the due slices of algorithmic orders, applies stop
    losses and corporate actions and records the day's value. It composes the
    tracker (Tracker), the risk manager (RiskManager, ExitRules), the order
    dispatcher (ExecDispatch), the execution service (ExecCost) and the price
    limits (MarketRules).

    The market-data provider, the stock table, the strategy, the external risk
    service and the run time's order of visiting a map are parameters. A bar
    carries the two limit flags the engine computes; the workers that fetch
    the day's data in parallel fill maps keyed by symbol, so their order does
    not show. *)

From stdpp Require Import base list strings gmap sorting.
From Stdlib Require Import ZArith Lia Ascii.
From S2P Require Import Prelude GoMap GoFloat FloatInt Domain GoSlice MarketRules ExitRules RiskManager.
From S2P Require Import ExecCost Tracker ExecSchedule ExecDispatch.

Open Scope Z_scope.

(** ** Data *)

Record Bar := MkBar { b_ohlcv : OHLCV.t; LimitUp : bool; LimitDown : bool }.

(** The fields of [domain.Stock] the engine reads; the zero value stands for
    a stock that could not be fetched. *)
Record Stock := MkStockInfo { sk_Name : bytes; sk_ListDate : Time }.
Definition zero_stock : Stock := MkStockInfo [] 0.

(** [domain.Signal] without its free-form maps. *)
Record DomainSignal := MkDomainSignal {
  ds_Symbol : bytes; ds_Date : Time; ds_Direction : Direction;
  ds_Strength : float64; ds_CompositeScore : float64;
  ds_LimitPrice : float64; ds_OrderType : OrderType;
  ds_ExecAlgo : bytes; ds_ExecSlices : Z; ds_ExecProfile : list float64
}.

(** [strategy.Signal]: the date is the value of its [any] field when that is
    a time. *)
Record StrategySignal := MkStrategySignal {
  ss_Symbol : bytes; ss_Action : bytes; ss_Strength : float64; ss_Price : float64;
  ss_Date : option Time; ss_Direction : Direction; ss_OrderType : OrderType;
  ss_LimitPrice : float64; ss_ExecAlgo : bytes; ss_ExecSlices : Z; ss_ExecProfile : list float64
}.

Record TargetPosition := MkTarget {
  TargetQty : float64; ActualQty : float64; PendingQty : float64; LastUpdated : Time
}.

(** [storage.ListingWindow]. *)
Record ListingWindow := MkListing { lw_List : Time; lw_Delist : option Time }.

Definition IsListed (w : ListingWindow) (date : Time) : bool :=
  negb (negb (IsZero (lw_List w)) && Before date (lw_List w))
  && negb (match lw_Delist w with Some d => d <? date | None => false end).

(** Attach failures of a run, counted by kind with the first parent each. *)
Record execAlgoRunDiag := MkDiag {
  fails : AttachFailureKind -> Z;
  samples : AttachFailureKind -> option bytes
}.

#[global] Instance AttachFailureKind_eq_dec : EqDecision AttachFailureKind.
Proof. solve_decision. Defined.

Definition newExecAlgoRunDiag : execAlgoRunDiag := MkDiag (fun _ => 0) (fun _ => None).

Definition diag_record (kind : AttachFailureKind) (parentID : bytes) (dg : execAlgoRunDiag)
    : execAlgoRunDiag :=
  MkDiag (fun k => if decide (k = kind) then fails dg k + 1 else fails dg k)
    (fun k => if decide (k = kind)
              then Some (default parentID (samples dg k)) else samples dg k).

Definition InvalidExecAlgoUnknownStyle : bytes := lit "exec_algo_unknown_style".
Definition InvalidExecAlgoAttachFailed : bytes := lit "exec_algo_attach_failed".

Definition invalidReasonCodes (dg : execAlgoRunDiag) : list bytes :=
  (if 0 <? fails dg AttachFailureUnknownStyle then [InvalidExecAlgoUnknownStyle] else [])
  ++ (if existsb (fun k => 0 <? fails dg k)
           [AttachFailureDuplicateParent; AttachFailureQtySumMismatch;
            AttachFailureInvalidSchedule; AttachFailureOther]
      then [InvalidExecAlgoAttachFailed] else []).

Record BacktestState := MkState {
  st_ID : bytes;
  st_tracker : Tracker;
  st_targets : gmap bytes TargetPosition;
  st_algo : Dispatcher;
  st_diag : execAlgoRunDiag
}.

Definition set_tracker (t : Tracker) (st : BacktestState) : BacktestState :=
  MkState (st_ID st) t (st_targets st) (st_algo st) (st_diag st).
Definition set_targets (m : gmap bytes TargetPosition) (st : BacktestState) : BacktestState :=
  MkState (st_ID st) (st_tracker st) m (st_algo st) (st_diag st).
Definition set_algo (d : Dispatcher) (st : BacktestState) : BacktestState :=
  MkState (st_ID st) (st_tracker st) (st_targets st) d (st_diag st).
Definition set_diag (dg : execAlgoRunDiag) (st : BacktestState) : BacktestState :=
  MkState (st_ID st) (st_tracker st) (st_targets st) (st_algo st) dg.

(** ** Dates *)

(** [date.Format("20060102")]. *)
Definition format_day (t : Time) : bytes :=
  let '(y, m, d) := civil t in
  [digit (y / 1000); digit (y / 100); digit (y / 10); digit y;
   digit (m / 10); digit m; digit (d / 10); digit d].

Definition direction_string (d : Direction) : bytes :=
  match d with
  | DirectionLong => lit "long" | DirectionShort => lit "short"
  | DirectionClose => lit "close" | DirectionHold => lit "hold"
  | DirectionOther s => s
  end.

Definition execAlgoParentID (date : Time) (symbol : bytes) (dir : Direction) : bytes :=
  lit "EA-" ++ format_day date ++ lit "-" ++ symbol ++ lit "-" ++ direction_string dir.

(** [date.Sub(list).Hours()], a duration in int64 nanoseconds. *)
Definition hours_between (a b : Time) : float64 :=
  let d := Z.max min_int64 (Z.min max_int64 (a - b)) in
  let hour := 3600000000000 in
  (f64_of_Z (Z.quot d hour) + f64_of_Z (Z.rem d hour) / f64_of_Z hour)%f64.

(** ** Signals (engine.go) *)

Definition resolveDirection (s : StrategySignal) : option Direction :=
  if bool_decide (ss_Direction s <> DirectionOther [] /\ ss_Direction s <> DirectionHold)
  then Some (ss_Direction s)
  else if bool_decide (ss_Action s = lit "buy") then Some DirectionLong
  else if bool_decide (ss_Action s = lit "sell") then Some DirectionClose
  else None.

Definition convert_signal (defaultDate : Time) (s : StrategySignal) : option DomainSignal :=
  if bool_decide (ss_Action s = lit "hold") then None
  else match resolveDirection s with
       | None => None
       | Some dir =>
           let sigDate := match ss_Date s with
                          | Some d => if IsZero d then defaultDate else d
                          | None => defaultDate
                          end in
           let limitPrice := if (ss_LimitPrice s =? f0)%f64 then ss_Price s else ss_LimitPrice s in
           let orderType := if bool_decide (ss_OrderType s = OrderTypeOther [])
                            then OrderTypeMarket else ss_OrderType s in
           Some (MkDomainSignal (ss_Symbol s) sigDate dir (ss_Strength s) (ss_Strength s)
                   limitPrice orderType (ss_ExecAlgo s) (ss_ExecSlices s) (ss_ExecProfile s))
       end.

Definition convertStrategySignals (signals : list StrategySignal) (defaultDate : Time)
    : list DomainSignal := omap (convert_signal defaultDate) signals.

Abbreviation market := (gmap bytes (list Bar)).

Definition ohlcvs (bars : list Bar) : list OHLCV.t := b_ohlcv <$> bars.

Definition extractLatestPrices (marketData : market) : gmap bytes float64 :=
  omap (fun bars => OHLCV.Close ∘ b_ohlcv <$> last bars) marketData.

Definition risk_signal (s : DomainSignal) : Signal :=
  MkSignal (ds_Symbol s) (ds_Strength s) (ds_CompositeScore s).

(** ** The universe (engine.go) *)

Definition held_threshold : float64 := flit 1 8.

Definition heldSymbols (t : Tracker) : gset bytes :=
  dom (filter (fun kv => (fabs (Position.Quantity kv.2) >? held_threshold)%f64 = true) (positions t)).

Definition eligible (listing : gmap bytes ListingWindow) (date : Time) (held : gset bytes)
    (s : bytes) : bool :=
  match listing !! s with
  | None => false
  | Some w => IsListed w date || bool_decide (s ∈ held)
  end.

Definition eligibleUniverse (listing : gmap bytes ListingWindow) (pool : list bytes) (date : Time)
    (held : gset bytes) : list bytes :=
  if bool_decide (listing = ∅) then pool
  else filter (fun s => eligible listing date held s = true) pool.

(** ** Target bookkeeping (engine_daily.go) *)

Definition heldQty (st : BacktestState) (symbol : bytes) : float64 :=
  match positions (st_tracker st) !! symbol with
  | Some pos => if (Position.Quantity pos <? f0)%f64 then f0 else Position.Quantity pos
  | None => f0
  end.

Definition is_open (d : Direction) : bool :=
  bool_decide (d = DirectionLong \/ d = DirectionShort).

(** -1 stands for no order. *)
Definition computeEffectiveTarget (st : BacktestState) (symbol : bytes) (targetQty : float64)
    (direction : Direction) : float64 :=
  if negb (is_open direction) then targetQty
  else
    let effectiveTarget := (targetQty - heldQty st symbol)%f64 in
    if (effectiveTarget <=? f0)%f64 then fneg f1 else effectiveTarget.

Definition reconcileTargetPosition (symbol : bytes) (date : Time) (st : BacktestState) : BacktestState :=
  match st_targets st !! symbol with
  | None => st
  | Some tp =>
      let held := heldQty st symbol in
      if (held =? ActualQty tp)%f64 then st
      else set_targets (<[symbol := MkTarget (TargetQty tp) held (TargetQty tp - held)%f64 date]>
                          (st_targets st)) st
  end.

(** [tp.PendingQty = tp.TargetQty - tp.ActualQty] after a rejection. *)
Definition mark_pending (symbol : bytes) (date : Time) (st : BacktestState) : BacktestState :=
  match st_targets st !! symbol with
  | None => st
  | Some tp =>
      set_targets (<[symbol := MkTarget (TargetQty tp) (ActualQty tp)
                                 (TargetQty tp - ActualQty tp)%f64 date]> (st_targets st)) st
  end.

(** The bookkeeping of a filled opening order. *)
Definition updateTargetPositionAfterTrade (trade : Trade.t) (symbol : bytes) (date : Time)
    (st : BacktestState) : BacktestState :=
  match st_targets st !! symbol with
  | None => st
  | Some tp =>
      let actual := (ActualQty tp + Trade.Quantity trade)%f64 in
      let pending := (TargetQty tp - actual)%f64 in
      if (pending <=? f0)%f64 && (TargetQty tp <=? f0)%f64
      then set_targets (delete symbol (st_targets st)) st
      else set_targets (<[symbol := MkTarget (TargetQty tp) actual pending date]> (st_targets st)) st
  end.

(** The target of the day, written before the order is sized. *)
Definition set_target (symbol : bytes) (targetQty : float64) (date : Time) (st : BacktestState)
    : BacktestState :=
  let tp := default (MkTarget f0 f0 f0 date) (st_targets st !! symbol) in
  set_targets (<[symbol := MkTarget targetQty (ActualQty tp) (PendingQty tp) date]> (st_targets st)) st.

(** ** Algorithmic orders (exec_algo.go) *)

Definition attachExecAlgoSignal (signal : DomainSignal) (qty : float64) (date : Time)
    (st : BacktestState) : res attach_error bool * Dispatcher :=
  let d := st_algo st in
  let pid := execAlgoParentID date (ds_Symbol signal) (ds_Direction signal) in
  if bool_decide (ds_ExecAlgo signal = []) then (Ok false, d)
  else if negb (IsKnownStyle (ds_ExecAlgo signal))
  then (Err (ErrUnknownAlgo (ds_ExecAlgo signal) pid), d)
  else
    let '(n, end_) := ResolveExecWindow date (ds_ExecSlices signal) (ds_ExecProfile signal) in
    let orderType := if bool_decide (ds_OrderType signal = OrderTypeOther [])
                     then OrderTypeMarket else ds_OrderType signal in
    let spec := MkAttachSpec pid (st_ID st) (ds_Symbol signal) (ds_Direction signal) qty
                  (ds_LimitPrice signal) (ds_ExecAlgo signal) n (ds_ExecProfile signal)
                  orderType date end_ in
    match Attach spec d with
    | (Err e, d) => (Err e, d)
    | (Ok _, d) => (Ok true, d)
    end.

(** [Dispatcher.CancelSymbol] when a parent is active. *)
Definition cancelExecAlgoParentsForSymbol (symbol : bytes) (reason : string) (st : BacktestState)
    : BacktestState :=
  if (Len (st_algo st) =? 0)%nat then st
  else set_algo (snd (CancelSymbol symbol (lit reason) (st_algo st))) st.

(** The session's end only reports what is unfinished. *)
Definition finalizeExecAlgo (st : BacktestState) : list ParentProgress := Unfinished (st_algo st).

(** ** The engine *)

Record EngineConfig := MkEngine {
  e_trading : TradingConfig;
  e_risk : option RiskManagerConfig;                (** the in-process risk manager *)
  e_exec : option BacktestExecutionService;         (** the execution bridge's service *)
  e_listing : gmap bytes ListingWindow
}.

(** The quote an order is executed against: the day's bar, else the price. *)
Definition quote_of (symbol : bytes) (price : float64) (date : Time) (dayBar : option OHLCV.t)
    : OHLCV.t :=
  match dayBar with
  | Some b => OHLCV.Mk symbol date (OHLCV.Open b) (OHLCV.High b) (OHLCV.Low b) (OHLCV.Close b)
                (OHLCV.Volume b)
  | None => OHLCV.Mk symbol date f0 f0 f0 price f0
  end.

Inductive exec_error := EService (e : cost_error) | ETracker (e : trade_error).

(** [executeViaExecutionService]: the fill of the service, booked. *)
Definition executeViaExecutionService (svc : BacktestExecutionService) (signal : DomainSignal)
    (quantity price : float64) (date : Time) (opts : OrderExecutionOpts) (t : Tracker)
    : res exec_error Trade.t * Tracker :=
  let order := Order.Mk (ds_Symbol signal) (ds_Direction signal) (Opt_OrderType opts) quantity
                 (Opt_LimitPrice opts) date f0 f0 [] in
  match ExecuteOrder svc order (quote_of (ds_Symbol signal) price date (Opt_DayBar opts)) with
  | Err e => (Err (EService e), t)
  | Ok trade =>
      match ApplyTrade trade t with
      | (Err e, t) => (Err (ETracker e), t)
      | (Ok tr, t) => (Ok tr, t)
      end
  end.

(** One order for [quantity] by the service, or else by the tracker. *)
Definition open_trade (e : EngineConfig) (signal : DomainSignal) (quantity price : float64)
    (date : Time) (opts : OrderExecutionOpts) (t : Tracker) : res exec_error Trade.t * Tracker :=
  match e_exec e with
  | Some svc => executeViaExecutionService svc signal quantity price date opts t
  | None =>
      match ExecuteTrade (ds_Symbol signal) (ds_Direction signal) quantity price date (Some opts) t with
      | (Err x, t) => (Err (ETracker x), t)
      | (Ok tr, t) => (Ok tr, t)
      end
  end.

Definition close_trade (e : EngineConfig) (signal : DomainSignal) (quantity price : float64)
    (date : Time) (opts : OrderExecutionOpts) (t : Tracker) : res exec_error Trade.t * Tracker :=
  match e_exec e with
  | Some svc => executeViaExecutionService svc signal quantity price date opts t
  | None =>
      match ClosePosition (ds_Symbol signal) price date t with
      | (Err x, t) => (Err (ETracker x), t)
      | (Ok tr, t) => (Ok tr, t)
      end
  end.

(** The whole-order path of [executeSignalTrade]. *)
Definition execute_whole (e : EngineConfig) (signal : DomainSignal) (effectiveTarget price : float64)
    (date : Time) (opts : OrderExecutionOpts) (st : BacktestState) : BacktestState :=
  let sym := ds_Symbol signal in
  match ds_Direction signal with
  | DirectionLong | DirectionShort =>
      match open_trade e signal effectiveTarget price date opts (st_tracker st) with
      | (Err _, t) => mark_pending sym date (set_tracker t st)
      | (Ok trade, t) => updateTargetPositionAfterTrade trade sym date (set_tracker t st)
      end
  | DirectionClose =>
      match close_trade e signal effectiveTarget price date opts (st_tracker st) with
      | (Err _, t) => set_tracker t st
      | (Ok _, t) => set_targets (delete sym (st_targets st)) (set_tracker t st)
      end
  | _ => st
  end.

Definition executeSignalTrade (e : EngineConfig) (signal : DomainSignal) (effectiveTarget : float64)
    (prices : gmap bytes float64) (date : Time) (opts : OrderExecutionOpts) (st : BacktestState)
    : BacktestState :=
  let sym := ds_Symbol signal in
  let price := default f0 (prices !! sym) in
  if (price <=? f0)%f64 then st
  else match attachExecAlgoSignal signal effectiveTarget date st with
       | (Err err, d) =>
           mark_pending sym date
             (set_diag (diag_record (ClassifyAttachError err)
                          (execAlgoParentID date sym (ds_Direction signal)) (st_diag st))
                (set_algo d st))
       | (Ok true, d) => set_algo d st
       | (Ok false, d) => execute_whole e signal effectiveTarget price date opts (set_algo d st)
       end.

(** The bar of the day and whether a price limit bars the signal. *)
Definition today_bar (marketData : market) (symbol : bytes) : option Bar :=
  marketData !! symbol ≫= last.

Definition limit_blocked (signal : DomainSignal) (bar : option Bar) : bool :=
  match bar with
  | None => false
  | Some b => (LimitUp b && is_open (ds_Direction signal))
              || (LimitDown b && bool_decide (ds_Direction signal = DirectionClose))
  end.

(** A sized signal: the target is booked, then the difference is ordered. *)
Definition act_on_signal (e : EngineConfig) (signal : DomainSignal) (targetQty : float64)
    (bar : option Bar) (prices : gmap bytes float64) (date : Time) (st : BacktestState)
    : BacktestState :=
  let sym := ds_Symbol signal in
  let opts := MkOpts (ds_OrderType signal) (ds_LimitPrice signal) (b_ohlcv <$> bar) in
  let st := set_target sym targetQty date st in
  let effectiveTarget := computeEffectiveTarget st sym targetQty (ds_Direction signal) in
  if (effectiveTarget <? f0)%f64 then st
  else if (effectiveTarget >? f0)%f64
  then executeSignalTrade e signal effectiveTarget prices date opts st
  else st.

Section Engine.
Context `{GoMath}.
(** The external risk service, used when no risk manager is set. *)
Variable rs_regime : list OHLCV.t -> option MarketRegime.
Variable rs_position : DomainSignal -> Portfolio.t -> MarketRegime -> float64 -> option PositionSize.
(** The warmed bars of a symbol ([CacheManager.Peek]). *)
Variable peek : bytes -> list OHLCV.t.
(** The provider's bars of a symbol in a date range, the stock table, the
    strategy, the corporate actions paid or effective on a day, the wall clock
    and the order in which the run time visits the positions. *)
Variable getOHLCV : bytes -> Time -> Time -> option (list Bar).
Variable getStock : bytes -> option Stock.
Variable provider_signals : list bytes -> market -> Portfolio.t -> Time -> option (list StrategySignal).
Variable dividendsByDate : Time -> list Dividend.t.
Variable splitsByDate : Time -> list Split.t.
Variable wall_clock : Time.
Variable visit : gmap bytes Position.t -> list bytes.
Variable e : EngineConfig.

Definition calculatePosition (signal : DomainSignal) (portfolio : Portfolio.t) (regime : MarketRegime)
    (currentPrice : float64) : option PositionSize :=
  match e_risk e with
  | Some rm =>
      match CalculatePosition rm (risk_signal signal) (Some (Portfolio.TotalValue portfolio))
              (Some regime) currentPrice (peek (ds_Symbol signal)) with
      | Ok pos => Some pos
      | Err _ => None
      end
  | None => rs_position signal portfolio regime currentPrice
  end.

(** [None] is the error that sends the day to the fallback. *)
Definition calculatePositionsBatch (signals : list DomainSignal) (portfolio : Portfolio.t)
    (regime : MarketRegime) (prices : gmap bytes float64) (marketData : market)
    : option (gmap bytes PositionSize) :=
  match e_risk e with
  | Some rm =>
      match CalculatePositionsBatch rm (risk_signal <$> signals)
              (Some (Portfolio.TotalValue portfolio)) (Some regime) prices (ohlcvs <$> marketData) with
      | Ok sizes => Some (default ∅ sizes)
      | Err _ => None
      end
  | None =>
      Some (foldl (fun results sig =>
              match calculatePosition sig portfolio regime (default f0 (prices !! ds_Symbol sig)) with
              | Some ps => <[ds_Symbol sig := ps]> results
              | None => results
              end) ∅ signals)
  end.

Definition signal_step (sizes : gmap bytes PositionSize) (marketData : market)
    (prices : gmap bytes float64) (date : Time) (st : BacktestState) (signal : DomainSignal)
    : BacktestState :=
  let bar := today_bar marketData (ds_Symbol signal) in
  if limit_blocked signal bar then st
  else match sizes !! ds_Symbol signal with
       | None => st
       | Some size =>
           if (ps_Size size <=? f0)%f64 then st
           else act_on_signal e signal (ps_Size size) bar prices date st
       end.

Definition fallback_step (marketData : market) (prices : gmap bytes float64) (regime : MarketRegime)
    (date : Time) (st : BacktestState) (signal : DomainSignal) : BacktestState :=
  let bar := today_bar marketData (ds_Symbol signal) in
  if limit_blocked signal bar then st
  else
    let portfolio := GetPortfolio prices wall_clock (st_tracker st) in
    match calculatePosition signal portfolio regime (default f0 (prices !! ds_Symbol signal)) with
    | None => st
    | Some size =>
        if (ps_Size size <=? f0)%f64 then st
        else act_on_signal e signal (ps_Size size) bar prices date st
    end.

Definition processSignalsFallback (signals : list DomainSignal) (marketData : market)
    (prices : gmap bytes float64) (regime : MarketRegime) (date : Time) (st : BacktestState)
    : BacktestState :=
  foldl (fallback_step marketData prices regime date) st signals.

Definition processSignalsAndExecuteTrades (signals : list DomainSignal) (marketData : market)
    (prices : gmap bytes float64) (regime : MarketRegime) (date : Time) (st : BacktestState)
    : BacktestState :=
  let validSignals := filter (fun sig => Before (ds_Date sig) date = false) signals in
  match validSignals with
  | [] => st
  | _ =>
      let portfolio := GetPortfolio prices wall_clock (st_tracker st) in
      match calculatePositionsBatch validSignals portfolio regime prices marketData with
      | None => processSignalsFallback validSignals marketData prices regime date st
      | Some sizes => foldl (signal_step sizes marketData prices date) st validSignals
      end
  end.

(** ** Due slices (exec_algo.go) *)

Definition executeExecAlgoChild (svc : BacktestExecutionService) (dayBar : OHLCV.t) (date : Time)
    (st : BacktestState) (dc : DueChild) : BacktestState :=
  let c := dc_child dc in
  let sym := ChildOrder.Symbol c in
  let order := Order.Mk sym (ChildOrder.Side c) (dc_OrderType dc) (ChildOrder.Qty c)
                 (ChildOrder.LimitPrice c) date f0 f0 [] in
  match ExecuteOrder svc order (quote_of sym f0 date (Some dayBar)) with
  | Err _ => st
  | Ok trade =>
      match DispatchFill (Fill.Mk (ChildOrder.OrderID c) sym (ChildOrder.Side c)
                            (Trade.Quantity trade) (Trade.Price trade) date) (st_algo st) with
      | (Err _, d) => set_algo d st
      | (Ok _, d) =>
          let st := set_algo d st in
          match ApplyTrade trade (st_tracker st) with
          | (Err _, t) => set_tracker t st
          | (Ok tr, t) =>
              let st := set_tracker t st in
              match st_targets st !! sym with
              | None => st
              | Some tp =>
                  let actual := (ActualQty tp + Trade.Quantity tr)%f64 in
                  set_targets (<[sym := MkTarget (TargetQty tp) actual (TargetQty tp - actual)%f64 date]>
                                 (st_targets st)) st
              end
          end
      end
  end.

Definition algo_symbol_step (svc : BacktestExecutionService) (marketData : market) (date : Time)
    (st : BacktestState) (sym : bytes) : BacktestState :=
  match today_bar marketData sym with
  | None => st
  | Some bar =>
      let '(due, _, d) := DispatchBar (b_ohlcv bar) (st_algo st) in
      foldl (executeExecAlgoChild svc (b_ohlcv bar) date) (set_algo d st) due
  end.

Definition processExecAlgoChildren (marketData : market) (date : Time) (st : BacktestState)
    : BacktestState :=
  if (Len (st_algo st) =? 0)%nat then st
  else match e_exec e with
       | None => st
       | Some svc => foldl (algo_symbol_step svc marketData date) st (Symbols (st_algo st))
       end.

(** ** Stop losses, corporate actions and forced closes *)

Definition checkStopLossesWithATR (rm : RiskManagerConfig) (t : Tracker) (prices : gmap bytes float64)
    (precomputedATR : gmap bytes float64) : list StopLossEvent :=
  if bool_decide (positions t = ∅) then []
  else
    let positionsList := omap (fun sym => positions t !! sym) (sortedKeys (positions t)) in
    CheckStopLossWithRegime (rm_stops rm) positionsList prices precomputedATR
      (Some (InferRegimeFromMarket positionsList prices)).

Definition stop_step (date : Time) (st : BacktestState) (event : StopLossEvent) : BacktestState :=
  let isTake := bool_decide (se_Type event = lit "take_profit") in
  if negb (bool_decide (se_Type event = lit "stop_loss") || isTake) then st
  else match ExecuteTrade (se_Symbol event) DirectionClose (se_Quantity event) (se_Price event)
               date None (st_tracker st) with
       | (Err _, t) => set_tracker t st
       | (Ok _, t) =>
           cancelExecAlgoParentsForSymbol (se_Symbol event)
             (if isTake then "take_profit" else "stop_loss")
             (reconcileTargetPosition (se_Symbol event) date (set_tracker t st))
       end.

Definition processStopLosses (prices : gmap bytes float64) (marketData : market) (date : Time)
    (st : BacktestState) : BacktestState :=
  match e_risk e with
  | None => st
  | Some rm =>
      let precomputedATR := ATRFromOHLCV (rm_stops rm) (ohlcvs <$> marketData) in
      foldl (stop_step date) st (checkStopLossesWithATR rm (st_tracker st) prices precomputedATR)
  end.

(** Dividends, then splits; the symbols split that day. *)
Definition processCorporateActions (date : Time) (st : BacktestState) : list bytes * BacktestState :=
  let day := Truncate24h date in
  let st := foldl (fun st d => set_tracker (ProcessDividend (Dividend.Symbol d) d (st_tracker st)) st)
              st (dividendsByDate day) in
  foldl (fun '(syms, st) s =>
           (syms ++ [Split.Symbol s],
            reconcileTargetPosition (Split.Symbol s) day
              (set_tracker (ProcessSplit (Split.Symbol s) s (st_tracker st)) st)))
    ([], st) (splitsByDate day).

(** The price of a forced close: the day's, else the last known one. *)
Definition forced_price (prices : gmap bytes float64) (symbol : bytes) (pos : Position.t)
    : option float64 :=
  let fallback := if (Position.CurrentPrice pos >? f0)%f64 then Some (Position.CurrentPrice pos)
                  else None in
  match prices !! symbol with
  | Some price => if (price <=? f0)%f64 then fallback else Some price
  | None => fallback
  end.

Definition force_close_step (ps : gmap bytes Position.t) (prices : gmap bytes float64) (date : Time)
    (st : BacktestState) (symbol : bytes) : BacktestState :=
  match ps !! symbol with
  | None => st
  | Some pos =>
      if (fabs (Position.Quantity pos) >? held_threshold)%f64 then
        match forced_price prices symbol pos with
        | None => st
        | Some price => set_tracker (snd (ClosePosition symbol price date (st_tracker st))) st
        end
      else st
  end.

Definition forceCloseAllPositions (prices : gmap bytes float64) (lastTradingDay : Time)
    (st : BacktestState) : BacktestState :=
  let ps := positions (st_tracker st) in
  foldl (force_close_step ps prices lastTradingDay) st (sortedKeys ps).

(** One holding: closed when it is known to be no longer listed. *)
Definition delisted_step (ps : gmap bytes Position.t) (prices : gmap bytes float64) (date : Time)
    (acc : list bytes * BacktestState) (symbol : bytes) : list bytes * BacktestState :=
  let '(closed, st) := acc in
  match ps !! symbol, e_listing e !! symbol with
  | Some pos, Some w =>
      if (fabs (Position.Quantity pos) <=? held_threshold)%f64 then acc
      else if IsListed w date then acc
      else match forced_price prices symbol pos with
           | None => acc
           | Some price =>
               match ClosePosition symbol price date (st_tracker st) with
               | (Err _, t) => (closed, set_tracker t st)
               | (Ok _, t) => (closed ++ [symbol],
                               reconcileTargetPosition symbol date (set_tracker t st))
               end
           end
  | _, _ => acc
  end.

Definition forceCloseDelisted (prices : gmap bytes float64) (date : Time) (st : BacktestState)
    : list bytes * BacktestState :=
  if bool_decide (e_listing e = ∅) then ([], st)
  else
    let ps := positions (st_tracker st) in
    foldl (delisted_step ps prices date) ([], st) (sortedKeys ps).

(** ** Market data (engine_daily.go) *)

Record stockResult := MkStockResult {
  sr_stock : Stock; sr_ohlcv : list Bar; sr_price : float64; sr_prevClose : float64
}.

(** The limit verdict on the day's bar: its flags and the limit price hit. *)
Definition limit_verdict (symbol : bytes) (stock : Stock) (prevClose : float64) (date : Time)
    (today : OHLCV.t) : bool * bool * float64 :=
  let tradeDays := if IsZero (sk_ListDate stock) then 0
                   else f64_to_int64 (hours_between date (sk_ListDate stock) / f64_of_Z 24
                                      / f64_of_Z 7 * f64_of_Z 5)%f64 in
  let pl := TC_PriceLimit (e_trading e) in
  let rate := resolvePriceLimit (MkPriceLimitInput symbol (sk_Name stock) tradeDays date)
                (MkPriceLimitConfigValues (PL_Normal pl) (PL_ST pl) (PL_STBefore pl) (PL_New pl)
                   (TC_NewStockDays (e_trading e))) in
  let '(upper, lower) := LimitPrices prevClose rate in
  let up := (OHLCV.Close today >=? upper)%f64 in
  let down := (OHLCV.Close today <=? lower)%f64 in
  (up, down, if up then upper else if down then lower else f0).

Definition processStockJob (symbol : bytes) (prevClose : float64) (startDate date : Time)
    : option stockResult :=
  let stock := default zero_stock (getStock symbol) in
  match getOHLCV symbol startDate date with
  | None => None
  | Some bars =>
      let n := length bars in
      match last bars with
      | None => Some (MkStockResult stock bars f0 f0)
      | Some todayBar =>
          let today := b_ohlcv todayBar in
          let plain := MkStockResult stock bars (OHLCV.Close today) f0 in
          if (n <? 2)%nat then Some plain
          else
            let prev := if (prevClose <=? f0)%f64
                        then match bars !! (n - 2)%nat with
                             | Some b => OHLCV.Close (b_ohlcv b) | None => f0 end
                        else prevClose in
            if negb (prev >? f0)%f64 then Some plain
            else
              let '(up, down, limitPrice) := limit_verdict symbol stock prev date today in
              let bars := <[(n - 1)%nat := MkBar today up down]> bars in
              Some (MkStockResult stock bars
                      (if (limitPrice >? f0)%f64 then limitPrice else OHLCV.Close today)
                      (OHLCV.Close today))
      end
  end.

Record day_data := MkDayData {
  dd_market : market; dd_prices : gmap bytes float64;
  dd_stocks : gmap bytes Stock; dd_prevClose : gmap bytes float64
}.

Definition fetch_step (startDate date : Time) (prevCloseCache : gmap bytes float64)
    (acc : day_data) (symbol : bytes) : day_data :=
  match processStockJob symbol (default f0 (prevCloseCache !! symbol)) startDate date with
  | None => acc
  | Some res =>
      MkDayData (<[symbol := sr_ohlcv res]> (dd_market acc))
        (if (sr_price res >? f0)%f64 then <[symbol := sr_price res]> (dd_prices acc) else dd_prices acc)
        (<[symbol := sr_stock res]> (dd_stocks acc))
        (if (sr_prevClose res >? f0)%f64 then <[symbol := sr_prevClose res]> (dd_prevClose acc)
         else dd_prevClose acc)
  end.

Definition fetchMarketDataForDay (stockPool : list bytes) (startDate date : Time)
    (prevCloseCache : gmap bytes float64) : day_data :=
  foldl (fetch_step startDate date prevCloseCache) (MkDayData ∅ ∅ ∅ prevCloseCache) stockPool.

Definition stockNamesFor (stockCache : gmap bytes Stock) : gmap bytes bytes := sk_Name <$> stockCache.

Definition detectRegime (marketData : market) : option MarketRegime :=
  let allData := concat (map (fun sym => ohlcvs (default [] (marketData !! sym))) (sortedKeys marketData)) in
  if (length allData <? 20)%nat then Some default_regime
  else match e_risk e with
       | Some rm => match DetectRegime (rm_regime rm) allData with
                    | Ok regime => Some regime
                    | Err _ => None
                    end
       | None => rs_regime allData
       end.

Definition getSignals (universe : list bytes) (marketData : market) (date : Time) (t : Tracker)
    : option (list DomainSignal) :=
  let portfolio := GetPortfolio (extractLatestPrices marketData) wall_clock t in
  match provider_signals universe marketData portfolio date with
  | None => None
  | Some signals => Some (convertStrategySignals signals date)
  end.

(** ** The day and the run (engine.go) *)

(** The close that becomes the next day's reference. *)
Definition next_close (marketData : market) (m : gmap bytes float64) (symbol : bytes) : gmap bytes float64 :=
  match today_bar marketData symbol with
  | None => m
  | Some b =>
      if LimitUp b then <[symbol := OHLCV.Close (b_ohlcv b)]> m
      else if (OHLCV.Close (b_ohlcv b) >? f0)%f64 then <[symbol := OHLCV.Close (b_ohlcv b)]> m
      else m
  end.

Record run_state := MkRunState {
  rn_state : BacktestState; rn_prevClose : gmap bytes float64; rn_maxUniverse : Z
}.

Definition cancel_parents (syms : list bytes) (reason : string) (st : BacktestState) : BacktestState :=
  foldl (fun st sym => cancelExecAlgoParentsForSymbol sym reason st) st syms.

Definition trading_day (stockPool : list bytes) (startDate : Time) (rs : run_state) (date : Time)
    : run_state :=
  let st := rn_state rs in
  let universe := eligibleUniverse (e_listing e) stockPool date (heldSymbols (st_tracker st)) in
  let dd := fetchMarketDataForDay universe startDate date (rn_prevClose rs) in
  let st := set_tracker (SetStockNames (stockNamesFor (dd_stocks dd)) (st_tracker st)) st in
  let '(closed, st) := forceCloseDelisted (dd_prices dd) date st in
  let st := cancel_parents closed "delisted" st in
  let st := set_tracker (SetAsOf date (st_tracker st)) st in
  let regime := default default_regime (detectRegime (dd_market dd)) in
  let signals := default [] (getSignals universe (dd_market dd) date (st_tracker st)) in
  let st := processSignalsAndExecuteTrades signals (dd_market dd) (dd_prices dd) regime date st in
  let st := processExecAlgoChildren (dd_market dd) date st in
  let st := processStopLosses (dd_prices dd) (dd_market dd) date st in
  let '(splits, st) := processCorporateActions date st in
  let st := cancel_parents splits "corporate_action_split" st in
  let t := snd (RecordDailyValue date (dd_prices dd) (st_tracker st)) in
  let st := set_tracker (AdvanceDay (visit (positions t)) t) st in
  MkRunState st (foldl (next_close (dd_market dd)) (dd_prevClose dd) universe)
    (Z.max (rn_maxUniverse rs) (Z.of_nat (length universe))).

Inductive run_error := NoTradingDays | ContextDone.

(** The loop; [stop i] says whether the context is done at the [i]-th day. *)
Fixpoint run_days (stop : nat -> bool) (i : nat) (stockPool : list bytes) (startDate : Time)
    (days : list Time) (rs : run_state) : res run_error run_state :=
  match days with
  | [] => Ok rs
  | date :: rest =>
      if stop i then Err ContextDone
      else run_days stop (S i) stockPool startDate rest (trading_day stockPool startDate rs date)
  end.

(** The run up to its metrics. The price map the loop fills is its own: the
    map of the enclosing function, passed to the forced close and to the last
    valuation, is still nil. *)
Definition runBacktestInternal (stop : nat -> bool) (stockPool : list bytes) (startDate : Time)
    (tradingDays : list Time) (st : BacktestState)
    : res run_error (Z * list PortfolioValue.t * list Trade.t * list bytes) :=
  match last tradingDays with
  | None => Err NoTradingDays
  | Some lastTradingDay =>
      match run_days stop 0 stockPool startDate tradingDays (MkRunState st ∅ 0) with
      | Err x => Err x
      | Ok rs =>
          let st := forceCloseAllPositions ∅ lastTradingDay (rn_state rs) in
          let t := snd (RecordDailyValue lastTradingDay ∅ (st_tracker st)) in
          Ok (rn_maxUniverse rs, portfolioValues t, trades t, invalidReasonCodes (st_diag st))
      end
  end.

End Engine.
