(* ===== verification/EngineProps.v ===== *)
(** * EngineProps: what the back-test's day loop guarantees

    Price limits, rebalancing towards a target, the history a run records,
    and what the loop does with short targets and with closes through an
    execution service. *)

From stdpp Require Import base list strings gmap sorting.
From Stdlib Require Import ZArith Lia Ascii.
From S2P Require Import Prelude GoMap GoFloat FloatInt Domain MarketRules ExitRules RiskManager.
From S2P Require Import ExecCost Tracker ShareLedger TrackerProps TrackerLedger ExecSchedule ExecDispatch.
From S2P Require Import BacktestEngine.

Open Scope Z_scope.

(** ** What an order on one symbol may touch *)

Record touches (s : bytes) (t t' : Tracker) : Prop := {
  tc_others : forall sym, sym <> s -> positions t' !! sym = positions t !! sym;
  tc_history : portfolioValues t' = portfolioValues t;
  tc_factor : liquidityFactor t' = liquidityFactor t
}.

#[global] Instance touches_pre s : PreOrder (touches s).
Proof.
  split; [by split|]. intros t1 t2 t3 [H1 H2 H3] [K1 K2 K3].
  split; [|congruence|congruence]. intros sym Hne. rewrite K1, H1 by done. done.
Qed.

Lemma touches_cash s c t : touches s t (set_cash c t).
Proof. by split. Qed.
Lemma touches_trades s l t : touches s t (set_trades l t).
Proof. by split. Qed.
Lemma touches_log s o t : touches s t (Record_order o t).
Proof. by split. Qed.
Lemma touches_rw s m d t : touches s t (set_rwBuy m d t).
Proof. by split. Qed.
Lemma touches_put s p t : touches s t (put_position s p t).
Proof. split; [|done|done]. intros sym Hne. simpl. by rewrite lookup_partial_alter_ne. Qed.
Lemma touches_mark s price t : touches s t (mark_symbol s price t).
Proof. split; [|done|done]. intros sym Hne. simpl. by rewrite lookup_alter_ne. Qed.
Create HintDb touches.
#[export] Hint Resolve touches_cash touches_trades touches_log touches_rw touches_put touches_mark
  : touches.

(** Chain of elementary changes. *)
Ltac touch :=
  repeat first
    [ reflexivity
    | solve [auto with touches]
    | (etransitivity; [|solve [auto with touches]]) ].

Lemma enforce_touches s qty asOf t r t' :
  enforceRiskWarningDailyBuy s qty asOf t = (r, t') -> touches s t t'.
Proof.
  unfold enforceRiskWarningDailyBuy. intros H.
  repeat case_match; simplify_eq; first [reflexivity | touch].
Qed.

Lemma close_touches s q price ts tr t tr' t' :
  close_position s q price ts tr t = Ok (tr', t') -> touches s t t'.
Proof.
  unfold close_position, close_long, close_short. intros H.
  repeat case_match; simplify_eq; touch.
Qed.

Lemma fill_touches s d q fq price ts t r t' :
  execute_fill s d q fq price ts t = (r, t') -> touches s t t'.
Proof.
  unfold execute_fill. intros H. destruct d; simplify_eq; [| |touch..].
  - case_match; simplify_eq; [reflexivity|].
    destruct (enforceRiskWarningDailyBuy _ _ _ _) as [[] t1] eqn:E; simplify_eq;
      apply enforce_touches in E; [|done]. etransitivity; [exact E|]. touch.
  - touch.
  - destruct (close_position _ _ _ _ _ _) as [[tr' t1]|] eqn:E; simplify_eq; [|reflexivity].
    by eapply close_touches.
Qed.

Lemma execute_touches s d q price ts opts t r t' :
  ExecuteTrade s d q price ts opts t = (r, t') -> touches s t t'.
Proof.
  unfold ExecuteTrade. intros H. case_match; simplify_eq; [|touch].
  destruct (liquidity_fill _ _ _) as [fq status].
  destruct (execute_fill _ _ _ _ _ _ _) as [[tr|x] t1] eqn:E; simplify_eq;
    apply fill_touches in E; [|done].
  etransitivity; [exact E|]. touch.
Qed.

Lemma closing_touches s price ts t r t' :
  ClosePosition s price ts t = (r, t') -> touches s t t'.
Proof.
  unfold ClosePosition. destruct (positions t !! s); intros H; [by eapply execute_touches|].
  by simplify_eq.
Qed.

Lemma apply_touches tr t r t' : ApplyTrade tr t = (r, t') -> touches (Trade.Symbol tr) t t'.
Proof.
  unfold ApplyTrade. intros H. case_match; simplify_eq; [reflexivity|].
  destruct (apply_fill tr t) as [[tr'|x] t1] eqn:E; simplify_eq.
  - enough (touches (Trade.Symbol tr) t t1) by (etransitivity; [eassumption|]; touch).
    revert E. unfold apply_fill. intros E. repeat case_match; simplify_eq; try touch.
    all: repeat match goal with
         | H : enforceRiskWarningDailyBuy _ _ _ _ = _ |- _ => apply enforce_touches in H
         | H : close_position _ _ _ _ _ _ = _ |- _ => apply close_touches in H
         end; try done; (etransitivity; [eassumption|]; touch).
  - revert E. unfold apply_fill. intros E. repeat case_match; simplify_eq; try reflexivity.
    by eapply enforce_touches.
Qed.

(** ** The engine's orders *)

Lemma ExecuteOrder_trade svc o quote tr :
  ExecuteOrder svc o quote = Ok tr ->
  Trade.Symbol tr = Order.Symbol o /\ Trade.Direction tr = Order.Direction o
  /\ Trade.Quantity tr = Order.Quantity o.
Proof.
  unfold ExecuteOrder. intros Hx. repeat case_match; try done.
  apply res_bind_ok in Hx as (p & _ & Hx). case_match; by simplify_eq.
Qed.

Lemma service_touches svc sig q price date opts t r t' :
  executeViaExecutionService svc sig q price date opts t = (r, t') -> touches (ds_Symbol sig) t t'.
Proof.
  unfold executeViaExecutionService. intros Hx.
  destruct (ExecuteOrder _ _ _) as [tr|x] eqn:E; [|by simplify_eq].
  apply ExecuteOrder_trade in E as (Hs & _). simpl in Hs.
  destruct (ApplyTrade tr t) as [[] t1] eqn:Ea; simplify_eq;
    apply apply_touches in Ea; by rewrite Hs in Ea.
Qed.

Lemma open_touches e sig q price date opts t r t' :
  open_trade e sig q price date opts t = (r, t') -> touches (ds_Symbol sig) t t'.
Proof.
  unfold open_trade. destruct (e_exec e); [apply service_touches|].
  destruct (ExecuteTrade _ _ _ _ _ _ _) as [[] t1] eqn:E; intros; simplify_eq; by eapply execute_touches.
Qed.

Lemma close_trade_touches e sig q price date opts t r t' :
  close_trade e sig q price date opts t = (r, t') -> touches (ds_Symbol sig) t t'.
Proof.
  unfold close_trade. destruct (e_exec e); [apply service_touches|].
  destruct (ClosePosition _ _ _ _) as [[] t1] eqn:E; intros; simplify_eq; by eapply closing_touches.
Qed.

Lemma mark_pending_tracker sym date st : st_tracker (mark_pending sym date st) = st_tracker st.
Proof. unfold mark_pending. by case_match. Qed.
Lemma update_target_tracker tr sym date st :
  st_tracker (updateTargetPositionAfterTrade tr sym date st) = st_tracker st.
Proof. unfold updateTargetPositionAfterTrade. repeat case_match; done. Qed.
Lemma reconcile_tracker sym date st :
  st_tracker (reconcileTargetPosition sym date st) = st_tracker st.
Proof. unfold reconcileTargetPosition. repeat case_match; done. Qed.
Lemma cancel_tracker sym reason st :
  st_tracker (cancelExecAlgoParentsForSymbol sym reason st) = st_tracker st.
Proof. unfold cancelExecAlgoParentsForSymbol. by case_match. Qed.
Create Rewrite HintDb tracker_of.
#[export] Hint Rewrite mark_pending_tracker update_target_tracker reconcile_tracker cancel_tracker
  : tracker_of.

Lemma whole_touches e sig q price date opts st :
  touches (ds_Symbol sig) (st_tracker st) (st_tracker (execute_whole e sig q price date opts st)).
Proof.
  unfold execute_whole. destruct (ds_Direction sig); try reflexivity.
  - destruct (open_trade _ _ _ _ _ _ _) as [[] t1] eqn:E; autorewrite with tracker_of;
      by eapply open_touches.
  - destruct (open_trade _ _ _ _ _ _ _) as [[] t1] eqn:E; autorewrite with tracker_of;
      by eapply open_touches.
  - destruct (close_trade _ _ _ _ _ _ _) as [[] t1] eqn:E; by eapply close_trade_touches.
Qed.

Lemma act_touches e sig q bar prices date st :
  touches (ds_Symbol sig) (st_tracker st) (st_tracker (act_on_signal e sig q bar prices date st)).
Proof.
  unfold act_on_signal. cbv zeta. case_match; [reflexivity|]. case_match; [|reflexivity].
  unfold executeSignalTrade. case_match; [reflexivity|].
  destruct (attachExecAlgoSignal _ _ _ _) as [[[]|err] d]; autorewrite with tracker_of; try reflexivity.
  etransitivity; [|apply whole_touches]. reflexivity.
Qed.

(** The slices of a symbol: what execution algorithms have still to send. *)
Definition parents_of (sym : bytes) (d : Dispatcher) : gmap bytes parentRun :=
  filter (fun kr => as_Symbol (pr_spec (snd kr)) = sym) (parents d).

(** Position, target and execution algorithms of a symbol are as they were. *)
Record stands (sym : bytes) (st st' : BacktestState) : Prop := {
  sd_position : positions (st_tracker st') !! sym = positions (st_tracker st) !! sym;
  sd_target : st_targets st' !! sym = st_targets st !! sym;
  sd_parents : parents_of sym (st_algo st') = parents_of sym (st_algo st)
}.

#[export] Instance stands_preorder sym : PreOrder (stands sym).
Proof.
  split; [done|]. intros a b c [p1 t1 a1] [p2 t2 a2].
  constructor; [by rewrite p2|by rewrite t2|by rewrite a2].
Qed.

Lemma Attach_elsewhere spec d r d' sym :
  Attach spec d = (r, d') -> as_Symbol spec <> sym -> parents_of sym d' = parents_of sym d.
Proof.
  unfold Attach. cbv zeta. intros Ha Hne. destruct (decide _); [by injection Ha as _ <-|].
  destruct (newAlgo spec) as [a|]; [|by injection Ha as _ <-].
  destruct (Schedule _ a) as [[plan|err] a']; [|by injection Ha as _ <-].
  destruct (decide _); [by injection Ha as _ <-|].
  destruct (sum_positive _ _ _ _) as [sum|]; [|by injection Ha as _ <-].
  destruct (parents d !! as_ParentID spec) as [run|] eqn:Ef; [by injection Ha as _ <-|].
  destruct (first_clash d plan); [by injection Ha as _ <-|].
  destruct (flt _ _); injection Ha as _ <-; [done|].
  unfold parents_of. cbn [parents]. apply map_filter_insert_not'; [exact Hne|].
  intros run Hrun. by rewrite Hrun in Ef.
Qed.

Lemma attach_elsewhere sig q date st r d' sym :
  attachExecAlgoSignal sig q date st = (r, d') -> ds_Symbol sig <> sym ->
  parents_of sym d' = parents_of sym (st_algo st).
Proof.
  unfold attachExecAlgoSignal. cbv zeta. intros Ha Hne. do 2 (case_match; [by simplify_eq|]).
  destruct (ResolveExecWindow _ _ _) as [n end_].
  destruct (Attach _ (st_algo st)) as [[] d] eqn:E; simplify_eq; by eapply Attach_elsewhere in E.
Qed.

Lemma mark_pending_elsewhere sym sym' date st :
  sym <> sym' ->
  st_targets (mark_pending sym date st) !! sym' = st_targets st !! sym'
  /\ st_algo (mark_pending sym date st) = st_algo st.
Proof. intros Hne. unfold mark_pending. case_match; simpl; by rewrite ?lookup_insert_ne by done. Qed.

Lemma update_target_elsewhere trade sym sym' date st :
  sym <> sym' ->
  st_targets (updateTargetPositionAfterTrade trade sym date st) !! sym' = st_targets st !! sym'
  /\ st_algo (updateTargetPositionAfterTrade trade sym date st) = st_algo st.
Proof.
  intros Hne. unfold updateTargetPositionAfterTrade. repeat case_match; simpl;
    by rewrite ?lookup_insert_ne, ?lookup_delete_ne by done.
Qed.

Lemma whole_elsewhere e sig q price date opts st sym :
  ds_Symbol sig <> sym ->
  st_targets (execute_whole e sig q price date opts st) !! sym = st_targets st !! sym
  /\ st_algo (execute_whole e sig q price date opts st) = st_algo st.
Proof.
  intros Hne. unfold execute_whole. destruct (ds_Direction sig); try done.
  - destruct (open_trade _ _ _ _ _ _ _) as [[tr|x] t1];
      [by apply (update_target_elsewhere _ _ _ _ (set_tracker t1 st))|
       by apply (mark_pending_elsewhere _ _ _ (set_tracker t1 st))].
  - destruct (open_trade _ _ _ _ _ _ _) as [[tr|x] t1];
      [by apply (update_target_elsewhere _ _ _ _ (set_tracker t1 st))|
       by apply (mark_pending_elsewhere _ _ _ (set_tracker t1 st))].
  - destruct (close_trade _ _ _ _ _ _ _) as [[tr|x] t1]; simpl; [by rewrite lookup_delete_ne|done].
Qed.

(** Acting on a signal leaves every other symbol as it stands. *)
Lemma act_elsewhere e sig q bar prices date st sym :
  ds_Symbol sig <> sym -> stands sym st (act_on_signal e sig q bar prices date st).
Proof.
  intros Hne. pose proof (act_touches e sig q bar prices date st) as [Hp _ _].
  assert (Ht : st_targets (set_target (ds_Symbol sig) q date st) !! sym = st_targets st !! sym)
    by (unfold set_target; simpl; by rewrite lookup_insert_ne).
  enough (st_targets (act_on_signal e sig q bar prices date st) !! sym = st_targets st !! sym
          /\ parents_of sym (st_algo (act_on_signal e sig q bar prices date st)) = parents_of sym (st_algo st))
    as [H1 H2] by (constructor; [by apply Hp|done|done]).
  rewrite <- Ht. set (st1 := set_target (ds_Symbol sig) q date st).
  change (parents_of sym (st_algo st)) with (parents_of sym (st_algo st1)).
  unfold act_on_signal. cbv zeta. fold st1. case_match; [done|]. case_match; [|done].
  unfold executeSignalTrade. case_match; [done|].
  destruct (attachExecAlgoSignal _ _ _ _) as [r d] eqn:E. apply (attach_elsewhere _ _ _ _ _ _ sym) in E; [|done].
  destruct r as [[]|err]; [by simpl| |].
  - edestruct (whole_elsewhere e sig) as [-> ->]; [done|]. by simpl.
  - edestruct (mark_pending_elsewhere (ds_Symbol sig) sym) as [-> ->]; [done|]. by simpl.
Qed.

(** ** Price limits *)

(** A symbol all of whose signals the day's limit bars. *)
Definition locked (marketData : market) (sym : bytes) (signals : list DomainSignal) : Prop :=
  forall sig, sig ∈ signals -> ds_Symbol sig = sym ->
    limit_blocked sig (today_bar marketData sym) = true.

Lemma locked_filter marketData sym p `{!forall x, Decision (p x)} signals :
  locked marketData sym signals -> locked marketData sym (filter p signals).
Proof. intros Hl sig Hin. apply Hl. by apply list_elem_of_filter in Hin as [_ ?]. Qed.

Lemma locked_fold (f : BacktestState -> DomainSignal -> BacktestState) marketData sym signals :
  (forall st sig, (limit_blocked sig (today_bar marketData (ds_Symbol sig)) = true -> f st sig = st)
                  /\ (ds_Symbol sig <> sym -> stands sym st (f st sig))) ->
  locked marketData sym signals -> forall st, stands sym st (foldl f st signals).
Proof.
  intros Hf. induction signals as [|sig l IH]; intros Hl st; [done|].
  simpl. etransitivity; [|apply IH; intros s ?; apply Hl; set_solver].
  destruct (Hf st sig) as [Hb Ht]. destruct (decide (ds_Symbol sig = sym)) as [<-|Hne]; [|by apply Ht].
  rewrite Hb; [done|]. apply Hl; set_solver.
Qed.

Section Signals.
Context `{GoMath}.
Variable rs_position : DomainSignal -> Portfolio.t -> MarketRegime -> float64 -> option PositionSize.
Variable peek : bytes -> list OHLCV.t.
Variable wall_clock : Time.

(** C5. A limit-locked symbol is not ordered on a signal. On a day whose bar of
    a symbol is locked limit up, opening signals (long or short) for it leave
    its position, its target and its execution algorithms exactly as they
    were: nothing is traded, no target is booked and no algorithm is
    attached whose slices would trade it later in the day; on a limit-down
    day so do closing signals. This holds whatever the other signals of the
    day trade, whether the batch or the per-signal sizing is used and
    whether orders go through the execution service, an algorithm or the
    tracker; slices of algorithms attached on earlier days are not signals
    and are sent as planned. *)
Theorem limit_locked_symbol_untraded e signals marketData prices regime date st sym b :
  today_bar marketData sym = Some b ->
  (forall sig, sig ∈ signals -> ds_Symbol sig = sym ->
     (LimitUp b = true /\ is_open (ds_Direction sig) = true)
     \/ (LimitDown b = true /\ ds_Direction sig = DirectionClose)) ->
  stands sym st (processSignalsAndExecuteTrades rs_position peek wall_clock e signals
                   marketData prices regime date st).
Proof.
  intros Hb Hsig.
  assert (Hl : locked marketData sym signals).
  { intros sig Hin Hs. rewrite Hb. unfold limit_blocked. apply orb_true_iff.
    destruct (Hsig sig Hin Hs) as [[-> ->]|[-> ->]]; [by left|right]. done. }
  unfold processSignalsAndExecuteTrades.
  pose proof (locked_filter _ _ (fun sig => Before (ds_Date sig) date = false) _ Hl) as Hl'.
  cbv zeta. destruct (filter _ signals) as [|s l] eqn:E; [done|].
  destruct (calculatePositionsBatch _ _ _ _ _ _ _ _) as [sizes|].
  - eapply locked_fold; [|exact Hl']. intros st' sig. unfold signal_step. split; [by intros ->|].
    intros Hne. repeat case_match; try reflexivity. by apply act_elsewhere.
  - unfold processSignalsFallback. eapply locked_fold; [|exact Hl'].
    intros st' sig. unfold fallback_step. split; [by intros ->|].
    intros Hne. repeat case_match; try reflexivity. by apply act_elsewhere.
Qed.
End Signals.

(** ** The history of a run *)

Definition history (st : BacktestState) : list PortfolioValue.t := portfolioValues (st_tracker st).

Lemma history_fold {A} (f : BacktestState -> A -> BacktestState) l :
  (forall st x, history (f st x) = history st) -> forall st, history (foldl f st l) = history st.
Proof. intros Hf. induction l as [|x l IH]; intros st; [done|]. simpl. by rewrite IH, Hf. Qed.

Lemma history_fold_snd {A B} (f : B * BacktestState -> A -> B * BacktestState) l :
  (forall acc x, history (f acc x).2 = history acc.2) ->
  forall acc, history (foldl f acc l).2 = history acc.2.
Proof. intros Hf. induction l as [|x l IH]; intros acc; [done|]. simpl. by rewrite IH, Hf. Qed.

Lemma history_tracker st t' s : touches s (st_tracker st) t' -> history (set_tracker t' st) = history st.
Proof. intros [_ Hh _]. exact Hh. Qed.

Lemma history_act e sig q bar prices date st :
  history (act_on_signal e sig q bar prices date st) = history st.
Proof. by destruct (act_touches e sig q bar prices date st). Qed.

Lemma history_child svc bar date st dc : history (executeExecAlgoChild svc bar date st dc) = history st.
Proof.
  unfold executeExecAlgoChild. cbv zeta. destruct (ExecuteOrder _ _ _) as [tr|]; [|done].
  destruct (DispatchFill _ _) as [[] d]; [|done]. simpl.
  destruct (ApplyTrade tr (st_tracker st)) as [[tr'|x] t1] eqn:E; apply apply_touches in E as [_ Hh _].
  - case_match; exact Hh.
  - exact Hh.
Qed.

Lemma history_stop date st ev : history (stop_step date st ev) = history st.
Proof.
  unfold stop_step. cbv zeta. case_match; [done|].
  destruct (ExecuteTrade _ _ _ _ _ _ _) as [[] t1] eqn:E; apply execute_touches in E as [_ Hh _];
    unfold history; autorewrite with tracker_of; exact Hh.
Qed.

Lemma history_cancel_parents syms reason st : history (cancel_parents syms reason st) = history st.
Proof.
  unfold cancel_parents. apply history_fold. intros. unfold history. by autorewrite with tracker_of.
Qed.

Lemma history_corporate divs splits date st :
  history (processCorporateActions divs splits date st).2 = history st.
Proof.
  unfold processCorporateActions. rewrite history_fold_snd.
  - simpl. apply history_fold. intros st' d. unfold history, ProcessDividend; simpl.
    repeat case_match; done.
  - intros [syms st'] s. unfold history; simpl. autorewrite with tracker_of. simpl.
    unfold ProcessSplit. repeat case_match; done.
Qed.

Lemma history_delisted e prices date st : history (forceCloseDelisted e prices date st).2 = history st.
Proof.
  unfold forceCloseDelisted. case_match; [done|]. rewrite history_fold_snd; [done|].
  intros [closed st'] sym. unfold delisted_step. repeat case_match; try done; simplify_eq/=;
    unfold history; autorewrite with tracker_of; simpl;
    by match goal with E : ClosePosition _ _ _ _ = _ |- _ => apply closing_touches in E as [_ ? _] end.
Qed.

Lemma history_force prices date st : history (forceCloseAllPositions prices date st) = history st.
Proof.
  unfold forceCloseAllPositions. apply history_fold. intros st' sym. unfold force_close_step.
  repeat case_match; try done.
  destruct (ClosePosition _ _ _ _) as [r t1] eqn:E. apply closing_touches in E as [_ Hh _]. exact Hh.
Qed.

Lemma history_record date prices st :
  portfolioValues (RecordDailyValue date prices (st_tracker st)).2
  = history st ++ [(RecordDailyValue date prices (st_tracker st)).1]
  /\ PortfolioValue.Date (RecordDailyValue date prices (st_tracker st)).1 = date.
Proof. unfold RecordDailyValue. destruct (foldl _ _ _). done. Qed.

Section Run.
Context `{GoMath}.
Variable rs_regime : list OHLCV.t -> option MarketRegime.
Variable rs_position : DomainSignal -> Portfolio.t -> MarketRegime -> float64 -> option PositionSize.
Variable peek : bytes -> list OHLCV.t.
Variable getOHLCV : bytes -> Time -> Time -> option (list Bar).
Variable getStock : bytes -> option Stock.
Variable provider_signals : list bytes -> market -> Portfolio.t -> Time -> option (list StrategySignal).
Variable dividendsByDate : Time -> list Dividend.t.
Variable splitsByDate : Time -> list Split.t.
Variable wall_clock : Time.
Variable visit : gmap bytes Position.t -> list bytes.
Variable e : EngineConfig.

Lemma history_signals signals marketData prices regime date st :
  history (processSignalsAndExecuteTrades rs_position peek wall_clock e signals marketData prices
             regime date st) = history st.
Proof.
  unfold processSignalsAndExecuteTrades. cbv zeta. destruct (filter _ _); [done|].
  case_match; (apply history_fold; intros st' sig; unfold signal_step, fallback_step;
               repeat case_match; try done; apply history_act).
Qed.

Lemma history_algo marketData date st :
  history (processExecAlgoChildren e marketData date st) = history st.
Proof.
  unfold processExecAlgoChildren. repeat case_match; try done. apply history_fold.
  intros st' sym. unfold algo_symbol_step. case_match; [|done].
  destruct (DispatchBar _ _) as [[due errs] d].
  change (history st') with (history (set_algo d st')). apply history_fold. apply history_child.
Qed.

Lemma history_stops prices marketData date st :
  history (processStopLosses e prices marketData date st) = history st.
Proof. unfold processStopLosses. case_match; [|done]. apply history_fold. apply history_stop. Qed.

Abbreviation day := (trading_day rs_regime rs_position peek getOHLCV getStock provider_signals
                   dividendsByDate splitsByDate wall_clock visit e).

Lemma day_dates pool start rs date :
  PortfolioValue.Date <$> history (rn_state (day pool start rs date))
  = (PortfolioValue.Date <$> history (rn_state rs)) ++ [date].
Proof.
  unfold trading_day. cbv zeta.
  set (dd := fetchMarketDataForDay _ _ _ _ _ _ _).
  set (st0 := set_tracker (SetStockNames _ _) (rn_state rs)).
  pose proof (history_delisted e (dd_prices dd) date st0) as Hd.
  destruct (forceCloseDelisted e (dd_prices dd) date st0) as [closed st1]. cbn [fst snd] in Hd.
  set (st2 := set_tracker (SetAsOf date _) (cancel_parents closed "delisted" st1)).
  assert (H2 : history st2 = history (rn_state rs)).
  { transitivity (history (cancel_parents closed "delisted" st1)); [done|].
    rewrite history_cancel_parents. by rewrite Hd. }
  set (st5 := processStopLosses _ _ _ _ _).
  assert (H5 : history st5 = history (rn_state rs)).
  { subst st5. by rewrite history_stops, history_algo, history_signals. }
  pose proof (history_corporate dividendsByDate splitsByDate date st5) as Hc.
  destruct (processCorporateActions _ _ date st5) as [splits st6]. cbn [fst snd] in Hc.
  set (st7 := cancel_parents splits "corporate_action_split" st6).
  assert (H7 : history st7 = history (rn_state rs)).
  { subst st7. by rewrite history_cancel_parents, Hc, H5. }
  destruct (history_record date (dd_prices dd) st7) as [Hr Hdate].
  cbn [rn_state]. unfold history at 1. cbn [st_tracker set_tracker].
  assert (Ha : forall o t, portfolioValues (AdvanceDay o t) = portfolioValues t).
  { intros o t. unfold AdvanceDay. by case_match. }
  rewrite Ha, Hr, fmap_app, H7. simpl. by rewrite Hdate.
Qed.

Lemma run_days_dates stop pool start days : forall i rs rs',
  run_days rs_regime rs_position peek getOHLCV getStock provider_signals dividendsByDate splitsByDate
    wall_clock visit e stop i pool start days rs = Ok rs' ->
  PortfolioValue.Date <$> history (rn_state rs')
  = (PortfolioValue.Date <$> history (rn_state rs)) ++ days.
Proof.
  induction days as [|d days IH]; intros i rs rs' Hr; simpl in Hr.
  - injection Hr as <-. by rewrite app_nil_r.
  - case_match; [done|]. rewrite (IH _ _ _ Hr), day_dates, <- app_assoc. done.
Qed.

Lemma run_days_total pool start stop days : (forall i, stop i = false) -> forall i rs,
  exists rs', run_days rs_regime rs_position peek getOHLCV getStock provider_signals dividendsByDate
    splitsByDate wall_clock visit e stop i pool start days rs = Ok rs'.
Proof.
  intros Hs. induction days as [|d days IH]; intros i rs; simpl; [eauto|].
  rewrite Hs. apply IH.
Qed.

(** C15. A run records every trading day once, and the last one twice. A run
    that is not cancelled always ends, whatever the provider, the strategy and
    the orders do; the dates of the values it reports are the trading days in
    order followed by the last day again, which is valued a second time after
    the forced close. Without a trading day it fails. *)
Theorem run_records_every_day stop pool start days st :
  history st = [] ->
  match last days with
  | None => runBacktestInternal rs_regime rs_position peek getOHLCV getStock provider_signals
              dividendsByDate splitsByDate wall_clock visit e stop pool start days st = Err NoTradingDays
  | Some d =>
      (forall i, stop i = false) ->
      exists n values trs codes,
        runBacktestInternal rs_regime rs_position peek getOHLCV getStock provider_signals
          dividendsByDate splitsByDate wall_clock visit e stop pool start days st
        = Ok (n, values, trs, codes)
        /\ PortfolioValue.Date <$> values = days ++ [d]
  end.
Proof.
  intros Hh. unfold runBacktestInternal. destruct (last days) as [d|]; [|done]. intros Hs.
  destruct (run_days_total pool start stop days Hs 0 (MkRunState st ∅ 0)) as (rs & Hr).
  rewrite Hr. do 4 eexists. split; [reflexivity|].
  destruct (history_record d ∅ (forceCloseAllPositions ∅ d (rn_state rs))) as [-> Hd].
  rewrite history_force, fmap_app, (run_days_dates _ _ _ _ _ _ _ Hr). simpl. by rewrite Hh, Hd.
Qed.
End Run.

(** ** Targets in whole shares *)

(** The signed number of shares of a symbol. *)
Definition holds (t : Tracker) (sym : bytes) (n : Z) : Prop :=
  match positions t !! sym with
  | None => n = 0
  | Some p => Position.Quantity p = f64_of_Z n /\ n <> 0
  end.

(** A market signal without an execution algorithm. *)
Definition plain (sig : DomainSignal) (d : Direction) : Prop :=
  ds_Direction sig = d /\ ds_ExecAlgo sig = [] /\ ds_OrderType sig = OrderTypeMarket.

(** A share of the day's volume covers an order of [q] shares; without a
    bar or a volume nothing limits it. *)
Definition liquid (lf : float64) (q : Z) (bar : option Bar) : Prop :=
  match bar with
  | Some b => flt f0 (OHLCV.Volume (b_ohlcv b))
              && flt (fmul (OHLCV.Volume (b_ohlcv b)) lf) (f64_of_Z q) = false
  | None => True
  end.

(** One day for a symbol: a positive price and a bar liquid enough. *)
Record quoted (sym : bytes) (lf : float64) (q : Z) (bar : option Bar) (prices : gmap bytes float64)
    (price : float64) : Prop := {
  qd_price : prices !! sym = Some price;
  qd_positive : fle price f0 = false;
  qd_liquid : liquid lf q bar
}.

Lemma liquidity_full q bar t :
  liquid (liquidityFactor t) q bar ->
  (liquidity_fill (f64_of_Z q) (b_ohlcv <$> bar) t).1 = f64_of_Z q.
Proof. unfold liquid, liquidity_fill. intros Hl. destruct bar as [b|]; [|done]. simpl. by rewrite Hl. Qed.

(** What the engine passes on of a signal and the day's bar. *)
Definition opts_of (sig : DomainSignal) (bar : option Bar) : OrderExecutionOpts :=
  MkOpts (ds_OrderType sig) (ds_LimitPrice sig) (b_ohlcv <$> bar).

(** The order an opening signal without an algorithm becomes. *)
Lemma act_open e sig q bar prices date st price :
  is_open (ds_Direction sig) = true -> ds_ExecAlgo sig = [] ->
  prices !! ds_Symbol sig = Some price -> fle price f0 = false ->
  let eff := computeEffectiveTarget st (ds_Symbol sig) q (ds_Direction sig) in
  flt f0 eff = true ->
  st_tracker (act_on_signal e sig q bar prices date st)
  = (open_trade e sig eff price date (opts_of sig bar) (st_tracker st)).2.
Proof.
  intros Hop Ha Hp Hpos eff Heff. unfold act_on_signal. cbv zeta.
  change (computeEffectiveTarget (set_target _ _ _ st) (ds_Symbol sig) q (ds_Direction sig)) with eff.
  rewrite (flt_asym _ _ Heff), Heff. unfold executeSignalTrade. rewrite Hp. simpl. rewrite Hpos.
  unfold attachExecAlgoSignal. rewrite Ha, bool_decide_eq_true_2 by done.
  unfold execute_whole. fold (opts_of sig bar). destruct (ds_Direction sig); try done; simpl;
    destruct (open_trade _ _ _ _ _ _ _) as [[] t1]; by autorewrite with tracker_of.
Qed.

Lemma open_directly e sig q price date opts t :
  e_exec e = None ->
  (open_trade e sig q price date opts t).2
  = (ExecuteTrade (ds_Symbol sig) (ds_Direction sig) q price date (Some opts) t).2.
Proof. unfold open_trade. intros ->. by destruct (ExecuteTrade _ _ _ _ _ _ _) as [[]]. Qed.

(** An opening signal at or below its target's holding orders nothing. *)
Lemma act_met e sig d q bar prices date st :
  ds_Direction sig = d -> is_open d = true ->
  fle (fsub q (heldQty st (ds_Symbol sig))) f0 = true ->
  st_tracker (act_on_signal e sig q bar prices date st) = st_tracker st.
Proof.
  intros Hd Hop Hle. unfold act_on_signal. cbv zeta. rewrite Hd.
  unfold computeEffectiveTarget. rewrite Hop. simpl.
  change (heldQty (set_target _ _ _ st) _) with (heldQty st (ds_Symbol sig)). rewrite Hle. done.
Qed.

Lemma fneg_whole n : 0 < n < 2 ^ 53 -> fneg (f64_of_Z n) = f64_of_Z (- n).
Proof.
  intros Hn. destruct n as [|p|p]; try lia. rewrite f64_of_Z_pos by lia.
  change (- Zpos p) with (Zneg p). by rewrite f64_of_Z_neg by lia.
Qed.

Lemma IsFlat_whole_neg n : 0 < n < 2 ^ 53 -> IsFlat (f64_of_Z (- n)) = false.
Proof. intros Hn. rewrite <- fneg_whole, IsFlat_neg, IsFlat_whole by lia. lia. Qed.

(** The position an order leaves, marked. *)
Lemma holds_booked t0 sym p price tr n :
  match p with None => n = 0 | Some q => Position.Quantity q = f64_of_Z n /\ n <> 0 end ->
  holds (set_trades tr (mark_symbol sym price (put_position sym p t0))) sym n.
Proof.
  intros Hp. unfold holds. simpl. rewrite lookup_alter_eq, lookup_partial_alter_eq. by destruct p.
Qed.

Lemma holds_put t0 sym p price tr o n :
  match p with None => n = 0 | Some q => Position.Quantity q = f64_of_Z n /\ n <> 0 end ->
  holds (Record_order o (set_trades tr (mark_symbol sym price (put_position sym p t0)))) sym n.
Proof. apply holds_booked. Qed.

Lemma short_order sym q bar prices price date lp n t :
  holds t sym n -> n <= 0 -> 0 < q -> - 2 ^ 53 < n - q ->
  quoted sym (liquidityFactor t) q bar prices price ->
  holds (ExecuteTrade sym DirectionShort (f64_of_Z q) price date
           (Some (MkOpts OrderTypeMarket lp (b_ohlcv <$> bar))) t).2 sym (n - q).
Proof.
  intros Hh Hn Hq Hr Hb. unfold ExecuteTrade. simpl.
  replace (match b_ohlcv <$> bar with Some _ => Some price | None => Some price end)
    with (Some price) by (by destruct bar).
  pose proof (liquidity_full _ _ _ (qd_liquid _ _ _ _ _ _ Hb)) as Hl.
  destruct (liquidity_fill _ _ _) as [fq status]. simpl in Hl. subst fq.
  unfold execute_fill. cbn [fst snd]. apply holds_put.
  unfold holds in Hh. unfold short_position. simpl.
  destruct (positions t !! sym) as [p|]; simpl.
  - destruct Hh as [-> Hn0]. rewrite fsub_whole by whole.
    replace (n - q) with (- (q - n)) by lia. rewrite IsFlat_whole_neg by lia. simpl. split; [done|lia].
  - subst n. rewrite fneg_whole by lia. split; [f_equal; lia|lia].
Qed.

Lemma heldQty_short st sym n : holds (st_tracker st) sym n -> - 2 ^ 53 < n <= 0 -> heldQty st sym = f0.
Proof.
  unfold holds, heldQty. intros Hh Hn. destruct (positions _ !! sym) as [p|]; [|done].
  destruct Hh as [-> Hn0]. change f0 with (f64_of_Z 0). rewrite flt_whole by whole.
  by replace (n <? 0) with true by lia.
Qed.

Lemma heldQty_long st sym n : holds (st_tracker st) sym n -> 0 <= n < 2 ^ 53 -> heldQty st sym = f64_of_Z n.
Proof.
  unfold holds, heldQty. intros Hh Hn. destruct (positions _ !! sym) as [p|]; [|by subst].
  destruct Hh as [-> Hn0]. change f0 with (f64_of_Z 0). rewrite flt_whole by whole.
  by replace (n <? 0) with false by lia.
Qed.

Lemma effective_open st sym d q h :
  is_open d = true -> heldQty st sym = f64_of_Z h -> 0 <= h < q -> q < 2 ^ 53 ->
  computeEffectiveTarget st sym (f64_of_Z q) d = f64_of_Z (q - h).
Proof.
  intros Hd Hh Hq Hr. unfold computeEffectiveTarget. rewrite Hd, Hh. simpl.
  rewrite fsub_whole by whole. change f0 with (f64_of_Z 0). rewrite fle_whole by whole.
  by replace (q - h <=? 0) with false by lia.
Qed.

(** The days of a signal: the bar, the prices and the date of each. *)
Abbreviation quote_day := (option Bar * gmap bytes float64 * Time)%type.

Definition repeat_signal (e : EngineConfig) (sig : DomainSignal) (q : float64)
    (days : list quote_day) (st : BacktestState) : BacktestState :=
  foldl (fun st (x : quote_day) => act_on_signal e sig q x.1.1 x.1.2 x.2 st) st days.

(** A short target is never recognised as met. Without an execution
    service, a short signal with a target of [q] shares sells [q] shares again
    on every day it is repeated, however large the short position already is:
    from flat, after [n] quoted days the position is [n * q] shares short for a
    target of [q]. *)
Theorem short_target_is_never_met e sig q days st :
  plain sig DirectionShort -> e_exec e = None -> 0 < q ->
  Z.of_nat (length days) * q < 2 ^ 53 ->
  positions (st_tracker st) !! ds_Symbol sig = None ->
  Forall (fun x => exists price, quoted (ds_Symbol sig) (liquidityFactor (st_tracker st)) q
                                   x.1.1 x.1.2 price) days ->
  holds (st_tracker (repeat_signal e sig (f64_of_Z q) days st)) (ds_Symbol sig)
    (- (Z.of_nat (length days) * q)).
Proof.
  intros Hpl He Hq Hr Hp Hdays.
  enough (Hgen : forall ds n st', n <= 0 -> - 2 ^ 53 < n - Z.of_nat (length ds) * q ->
            holds (st_tracker st') (ds_Symbol sig) n ->
            Forall (fun x => exists price, quoted (ds_Symbol sig) (liquidityFactor (st_tracker st')) q
                                             x.1.1 x.1.2 price) ds ->
            holds (st_tracker (repeat_signal e sig (f64_of_Z q) ds st')) (ds_Symbol sig)
              (n - Z.of_nat (length ds) * q)).
  { apply (Hgen days 0 st); [lia|lia| |done]. unfold holds. by rewrite Hp. }
  clear - Hpl He Hq. induction ds as [|[[bar prices] date] ds IH]; intros n st' Hn Hr Hh Hds.
  { simpl. by replace (n - Z.of_nat 0 * q) with n by lia. }
  apply Forall_cons in Hds as [(price & Hqd) Hds]. cbn [fst snd] in Hqd.
  cbn [length] in Hr |- *. unfold repeat_signal. cbn [foldl fst snd]. fold (repeat_signal e sig (f64_of_Z q) ds).
  pose proof (heldQty_short _ _ _ Hh ltac:(nia)) as Hheld.
  pose proof (effective_open st' (ds_Symbol sig) DirectionShort q 0 ltac:(done) Hheld ltac:(lia) ltac:(nia))
    as Heff. rewrite Z.sub_0_r in Heff.
  destruct (Hpl) as (Hd & Ha & Ho).
  pose proof (act_open e sig (f64_of_Z q) bar prices date st' price ltac:(by rewrite Hd) Ha
                (qd_price _ _ _ _ _ _ Hqd) (qd_positive _ _ _ _ _ _ Hqd)) as Hact.
  cbv zeta in Hact. rewrite open_directly, Hd, Heff in Hact by done. unfold opts_of in Hact. rewrite Ho in Hact.
  specialize (Hact ltac:(change f0 with (f64_of_Z 0); rewrite flt_whole by (unfold whole_range; nia); lia)).
  replace (n - Z.of_nat (S (length ds)) * q) with ((n - q) - Z.of_nat (length ds) * q) by lia.
  apply IH; [lia|nia| |].
  - rewrite Hact. eapply short_order; [exact Hh|lia|lia|nia|exact Hqd].
  - rewrite Hact. destruct (ExecuteTrade _ _ _ _ _ _ _) as [r t1] eqn:E.
    apply execute_touches in E as [_ _ Hf]. simpl. by rewrite Hf.
Qed.

(** The position a buy of [m] shares leaves. *)
Lemma long_position_whole sym m price ts t h :
  holds t sym h -> 0 <= h -> 0 < m -> h + m < 2 ^ 53 ->
  match long_position sym (f64_of_Z m) price ts (positions t !! sym) with
  | None => h + m = 0
  | Some q => Position.Quantity q = f64_of_Z (h + m) /\ h + m <> 0
  end.
Proof.
  intros Hh Hn Hm Hr. unfold holds in Hh. unfold long_position. destruct (positions t !! sym) as [p|]; simpl.
  - destruct Hh as [-> Hn0]. rewrite fadd_whole, IsFlat_whole by whole.
    replace (h + m =? 0) with false by lia. simpl. split; [done|lia].
  - subst h. split; [done|lia].
Qed.

Lemma enforce_positions sym q date t r t' :
  enforceRiskWarningDailyBuy sym q date t = (r, t') -> positions t' = positions t.
Proof.
  intros E. pose proof (enforce_same sym q date t) as Hs. rewrite E in Hs.
  by apply same_portfolio_fields in Hs as (_ & Hpos & _).
Qed.

(** Buying by the tracker. *)
Lemma long_order sym m bar price date o lp h t tr t' :
  holds t sym h -> 0 <= h -> 0 < m -> h + m < 2 ^ 53 -> liquid (liquidityFactor t) m bar ->
  ExecuteTrade sym DirectionLong (f64_of_Z m) price date (Some (MkOpts o lp (b_ohlcv <$> bar))) t = (Ok tr, t') ->
  Trade.Quantity tr = f64_of_Z m /\ holds t' sym (h + m).
Proof.
  intros Hh Hn Hm Hr Hb. unfold ExecuteTrade.
  destruct (match Some (MkOpts o lp (b_ohlcv <$> bar)) ≫= Opt_DayBar with Some _ => _ | None => _ end)
    as [ep|]; [|done]. simpl.
  pose proof (liquidity_full _ _ _ Hb) as Hl.
  destruct (liquidity_fill _ _ _) as [fq status]. simpl in Hl. subst fq.
  unfold execute_fill. cbv zeta.
  match goal with |- context [if flt ?a ?b then _ else _] => destruct (flt a b) end; [done|].
  destruct (enforceRiskWarningDailyBuy sym (f64_of_Z m) date t) as [[u|x] t1] eqn:E; [|done].
  apply enforce_positions in E.
  cbn [fst snd]. intros [= <- <-]. split; [done|]. apply holds_put. rewrite E. by apply long_position_whole.
Qed.

(** Buying by the execution service, whose fill is booked. *)
Lemma long_service svc sig m price date opts h t tr t' :
  ds_Direction sig = DirectionLong -> holds t (ds_Symbol sig) h -> 0 <= h -> 0 < m -> h + m < 2 ^ 53 ->
  executeViaExecutionService svc sig (f64_of_Z m) price date opts t = (Ok tr, t') ->
  Trade.Quantity tr = f64_of_Z m /\ holds t' (ds_Symbol sig) (h + m).
Proof.
  intros Hd Hh Hn Hm Hr. unfold executeViaExecutionService. cbv zeta.
  destruct (ExecuteOrder _ _ _) as [trade|] eqn:Ex; [|done].
  apply ExecuteOrder_trade in Ex as (Hs & Hdir & Hq). simpl in Hs, Hdir, Hq. rewrite Hd in Hdir.
  unfold ApplyTrade, apply_fill. rewrite Hdir, Hs, Hq.
  destruct (fle (f64_of_Z m) f0); [done|]. cbv zeta.
  match goal with |- context [if flt ?a ?b then _ else _] => destruct (flt a b) end; [done|].
  destruct (enforceRiskWarningDailyBuy _ _ _ t) as [[u|x] t1] eqn:E; [|done].
  apply enforce_positions in E. intros [= <- <-]. split; [done|].
  apply holds_booked. simpl. rewrite E. by apply long_position_whole.
Qed.

Lemma open_refused e sig q price date opts t x t' :
  open_trade e sig q price date opts t = (Err x, t') -> positions t' = positions t.
Proof.
  unfold open_trade, executeViaExecutionService, ApplyTrade, ExecuteTrade. cbv zeta. intros Ho.
  repeat case_match; simplify_eq; try done;
    match goal with
    | H : execute_fill _ _ _ _ _ _ _ = (Err _, _) |- _ => apply execute_fill_refused in H as [Hs _]
    | H : apply_fill _ _ = (Err _, _) |- _ => apply apply_fill_refused in H as [Hs _]
    end; by apply same_portfolio_fields in Hs as (_ & Hpos & _).
Qed.

(** C6. A long target is met once. For a long signal without an execution
    algorithm, of any order type, and whole shares below 2^53: a signal for
    [q] shares while [h] are held leaves the tracker as it was when
    [h >= q]; when [h < q] and the day has a positive price, exactly the
    difference is ordered, of the execution service when the engine has
    one, as both of its constructors set it, and of the tracker otherwise.
    When that order fills (where the tracker executes it, on a bar whose
    volume covers it), the trade is for the difference, the holding is [q],
    and repeating the signal on any later days, at any prices, trades
    nothing more. When it is refused, every position is as it was. *)
Theorem long_target_is_met_once e sig q h bar prices date price st days :
  ds_Direction sig = DirectionLong -> ds_ExecAlgo sig = [] ->
  0 <= h < 2 ^ 53 -> 0 < q < 2 ^ 53 -> holds (st_tracker st) (ds_Symbol sig) h ->
  let after := act_on_signal e sig (f64_of_Z q) bar prices date st in
  (q <= h -> st_tracker after = st_tracker st)
  /\ (h < q -> prices !! ds_Symbol sig = Some price -> fle price f0 = false ->
      (e_exec e = None -> liquid (liquidityFactor (st_tracker st)) (q - h) bar) ->
      exists r, open_trade e sig (f64_of_Z (q - h)) price date (opts_of sig bar) (st_tracker st)
                = (r, st_tracker after)
        /\ match r with
           | Ok trade =>
               Trade.Quantity trade = f64_of_Z (q - h) /\ holds (st_tracker after) (ds_Symbol sig) q
               /\ st_tracker (repeat_signal e sig (f64_of_Z q) days after) = st_tracker after
           | Err _ => positions (st_tracker after) = positions (st_tracker st)
           end).
Proof.
  intros Hd Ha Hh Hq Hholds after.
  assert (Hmet : forall st' k b ps d, holds (st_tracker st') (ds_Symbol sig) k -> q <= k < 2 ^ 53 ->
            st_tracker (act_on_signal e sig (f64_of_Z q) b ps d st') = st_tracker st').
  { intros st' k b ps d Hk Hle. apply (act_met _ _ DirectionLong); [done|done|].
    rewrite (heldQty_long _ _ k), fsub_whole by (done || whole).
    change f0 with (f64_of_Z 0). rewrite fle_whole by whole. lia. }
  split; [intros Hle; by eapply Hmet; [exact Hholds|lia]|]. intros Hlt Hp Hpos Hliq.
  pose proof (effective_open st (ds_Symbol sig) DirectionLong q h ltac:(done)
                (heldQty_long _ _ _ Hholds ltac:(lia)) ltac:(lia) ltac:(lia)) as Heff.
  pose proof (act_open e sig (f64_of_Z q) bar prices date st price ltac:(by rewrite Hd) Ha Hp Hpos) as Hact.
  cbv zeta in Hact. rewrite Hd, Heff in Hact.
  specialize (Hact ltac:(change f0 with (f64_of_Z 0); rewrite flt_whole by whole; lia)). fold after in Hact.
  destruct (open_trade _ _ _ _ _ _ _) as [r t'] eqn:Ho. simpl in Hact. exists r. rewrite Hact. split; [done|].
  destruct r as [tr|x]; [|by eapply open_refused].
  assert (Ht' : Trade.Quantity tr = f64_of_Z (q - h) /\ holds t' (ds_Symbol sig) (h + (q - h))).
  { unfold open_trade in Ho. destruct (e_exec e) as [svc|].
    - eapply long_service; [exact Hd|exact Hholds|lia|lia|lia|exact Ho].
    - rewrite Hd in Ho. destruct (ExecuteTrade _ _ _ _ _ _ _) as [[tr'|y] t1] eqn:E; [|done].
      injection Ho as -> ->. eapply long_order; [exact Hholds|lia|lia|lia|by apply Hliq|exact E]. }
  replace (h + (q - h)) with q in Ht' by lia. destruct Ht' as [Hqt Ht']. split; [done|].
  split; [exact Ht'|]. unfold repeat_signal. clearbody after.
  clear - Hmet Ht' Hq Hact. revert after Hact. induction days as [|x days IH]; intros after Hact; [done|].
  simpl. apply IH. rewrite (Hmet after q); [done|by rewrite Hact|lia].
Qed.

(** A close of [n] shares of a position of [h] settled ones. *)
Lemma close_settled t sym p h n price ts tr :
  positions t !! sym = Some p -> Position.Quantity p = f64_of_Z h ->
  Position.QuantityYesterday p = f64_of_Z h -> 0 < h < 2 ^ 53 -> 0 < n < 2 ^ 53 ->
  exists tr' t', close_position sym (f64_of_Z n) price ts tr t = Ok (tr', t')
    /\ holds t' sym (h - Z.min n h).
Proof.
  intros Hp Hq Hy Hh Hn. unfold close_position. rewrite Hp, Hq. change f0 with (f64_of_Z 0).
  rewrite fabs_whole, fle_whole, flt_whole by whole.
  replace (h <=? 0) with false by lia. replace (0 <? h) with true by lia.
  unfold close_long. rewrite Hy. change f0 with (f64_of_Z 0). rewrite feq_whole by whole.
  replace (h =? 0) with false by lia. rewrite andb_false_r.
  assert (Hk : close_long_qty p (f64_of_Z n) = f64_of_Z (Z.min n h)).
  { unfold close_long_qty. rewrite Hy, Hq, fabs_whole, !fmin_whole by whole. f_equal. lia. }
  rewrite Hk, fle_whole by whole. replace (Z.min n h <=? 0) with false by lia.
  do 2 eexists. split; [reflexivity|]. unfold holds. simpl. rewrite lookup_partial_alter_eq.
  unfold drop_flat. simpl. rewrite Hq, fsub_whole, IsFlat_whole by whole.
  destruct (h - Z.min n h =? 0) eqn:E; simpl; bool_to_prop; [done|]. done.
Qed.

Lemma holds_mark t sym n price : holds t sym n -> holds (mark_symbol sym price t) sym n.
Proof.
  unfold holds. simpl. rewrite lookup_alter_eq. by destruct (positions t !! sym).
Qed.

(** A close signal books what [close_trade] does and drops the target. *)
Lemma act_close e sig q bar prices date st price :
  plain sig DirectionClose -> flt f0 q = true ->
  prices !! ds_Symbol sig = Some price -> fle price f0 = false ->
  let opts := MkOpts OrderTypeMarket (ds_LimitPrice sig) (b_ohlcv <$> bar) in
  let st' := act_on_signal e sig q bar prices date st in
  forall tr t', close_trade e sig q price date opts (st_tracker st) = (Ok tr, t') ->
  st_tracker st' = t' /\ st_targets st' !! ds_Symbol sig = None.
Proof.
  intros (Hd & Ha & Ho) Hq Hp Hpos opts st' tr t' Hc. subst st'. unfold act_on_signal. cbv zeta.
  rewrite Hd. unfold computeEffectiveTarget. simpl. rewrite (flt_asym _ _ Hq), Hq.
  unfold executeSignalTrade. rewrite Hp. simpl. rewrite Hpos.
  unfold attachExecAlgoSignal. rewrite Ha, bool_decide_eq_true_2 by done.
  unfold execute_whole. rewrite Hd, Ho. fold opts.
  replace (st_tracker (set_algo _ _)) with (st_tracker st) by (by autorewrite with tracker_of).
  rewrite Hc. split; [by autorewrite with tracker_of|]. apply lookup_delete_eq.
Qed.

(** What a close signal sells. With no execution service a close signal
    sells the whole settled position, whatever quantity the signal was sized
    to, and forgets the target. Through an execution service that fills it, it
    sells only the sized quantity, so that the rest of the position stays,
    while the target is forgotten all the same. *)
Theorem close_signal_quantity e sig q h bar prices date price st p :
  plain sig DirectionClose -> 0 < q < 2 ^ 53 -> 0 < h < 2 ^ 53 ->
  prices !! ds_Symbol sig = Some price -> fle price f0 = false ->
  positions (st_tracker st) !! ds_Symbol sig = Some p ->
  Position.Quantity p = f64_of_Z h -> Position.QuantityYesterday p = f64_of_Z h ->
  let st' := act_on_signal e sig (f64_of_Z q) bar prices date st in
  (e_exec e = None ->
     holds (st_tracker st') (ds_Symbol sig) 0 /\ st_targets st' !! ds_Symbol sig = None)
  /\ (forall svc trade, e_exec e = Some svc ->
        ExecuteOrder svc
          (Order.Mk (ds_Symbol sig) DirectionClose OrderTypeMarket (f64_of_Z q) (ds_LimitPrice sig)
             date f0 f0 [])
          (quote_of (ds_Symbol sig) price date (b_ohlcv <$> bar)) = Ok trade ->
        holds (st_tracker st') (ds_Symbol sig) (h - Z.min q h)
        /\ st_targets st' !! ds_Symbol sig = None).
Proof.
  intros Hpl Hq Hh Hpr Hpos Hp HQ HY. cbv zeta.
  assert (Hq0 : flt f0 (f64_of_Z q) = true)
    by (change f0 with (f64_of_Z 0); rewrite flt_whole by whole; lia).
  pose proof (act_close e sig _ bar prices date st price Hpl Hq0 Hpr Hpos) as Hact. cbv zeta in Hact.
  split.
  - intros He. unfold close_trade in Hact. rewrite He in Hact. unfold ClosePosition, ExecuteTrade in Hact.
    rewrite Hp, HQ, fabs_whole in Hact by whole. simpl in Hact.
    edestruct (close_settled (st_tracker st)) as (tr' & t' & Hc & Hh'); [exact Hp|exact HQ|exact HY|lia|exact Hh|].
    rewrite Hc in Hact. destruct (Hact _ _ eq_refl) as [-> ->]. split; [|done].
    replace 0 with (h - Z.min h h) by lia. by apply (holds_mark t').
  - intros svc trade He Hx. unfold close_trade, executeViaExecutionService in Hact.
    destruct Hpl as (Hd & _ & _). rewrite He, Hd in Hact. simpl in Hact. rewrite Hx in Hact.
    apply ExecuteOrder_trade in Hx as (Hs & Hdir & Hqt). simpl in Hs, Hdir, Hqt.
    unfold ApplyTrade, apply_fill in Hact. rewrite Hs, Hdir, Hqt in Hact.
    change (fle (f64_of_Z q) f0) with (fle (f64_of_Z q) (f64_of_Z 0)) in Hact.
    rewrite fle_whole in Hact by whole. replace (q <=? 0) with false in Hact by lia.
    edestruct (close_settled (st_tracker st)) as (tr' & t' & Hc & Hh'); [exact Hp|exact HQ|exact HY|lia|exact Hq|].
    rewrite Hc in Hact. destruct (Hact _ _ eq_refl) as [-> ->]. split; [|done]. by apply (holds_mark t').
Qed.

(** ** Sample runs *)

Module EngineSample.
Definition math : GoMath := {| Log := fun x => x; Exp := fun x => x; Pow := fun x _ => x |}.
Definition sym : bytes := lit "600000.SH".
Definition day1 : Time := 20000 * 86400000000000.
Definition bar (up : bool) : Bar :=
  MkBar (OHLCV.Mk sym day1 (f64_of_Z 10) (f64_of_Z 11) (f64_of_Z 9) (f64_of_Z 10) (f64_of_Z 1000000)) up false.
Definition signal (d : Direction) : DomainSignal :=
  MkDomainSignal sym day1 d f1 f1 f0 OrderTypeMarket [] 0 [].
Definition sliced : DomainSignal :=
  MkDomainSignal sym day1 DirectionLong f1 f1 f0 OrderTypeMarket (lit "twap") 10 [].
Definition prices : gmap bytes float64 := {[sym := f64_of_Z 10]}.
Definition flat : BacktestState :=
  MkState (lit "bt") (NewTracker (f64_of_Z 1000000) (flit 3 4) f0 DefaultTradingConfig) ∅ NewDispatcher
    newExecAlgoRunDiag.
Definition engine : EngineConfig := MkEngine DefaultTradingConfig None None ∅.
Definition service : BacktestExecutionService :=
  MkService (MkExecutionConfig (lit "none") (flit 3 4) (f64_of_Z 5) f0 f0) (lit "none").
Definition bridged : EngineConfig := MkEngine DefaultTradingConfig None (Some service) ∅.
Definition lots : Position.t :=
  Position.Mk sym (f64_of_Z 300) (f64_of_Z 9) f0 f0 f0 f0 f0 0 0 f0 (f64_of_Z 300).
Definition holding : BacktestState :=
  set_tracker (set_positions {[sym := lots]} (st_tracker flat)) flat.
Definition sizer (s : DomainSignal) (p : Portfolio.t) (r : MarketRegime) (x : float64)
    : option PositionSize := None.
End EngineSample.

(** A signal to buy in ten slices attaches an algorithm on an ordinary day,
    and leaves the symbol as it stands on a limit-up day. *)
Lemma limit_locked_symbol_untraded_witness :
  let day up := processSignalsAndExecuteTrades
    (fun _ _ _ _ => Some (MkSize (f64_of_Z 1000) f0 f0 f0 f0)) (fun _ => []) 0 EngineSample.engine
    [EngineSample.sliced] {[EngineSample.sym := [EngineSample.bar up]]} EngineSample.prices default_regime
    EngineSample.day1 EngineSample.flat in
  parents_of EngineSample.sym (st_algo (day false)) <> ∅ /\ stands EngineSample.sym EngineSample.flat (day true).
Proof.
  cbv zeta. split; [vm_compute; discriminate|].
  apply (limit_locked_symbol_untraded _ _ _ _ _ _ _ _ _ _ _ (EngineSample.bar true));
    [reflexivity|].
  intros sig Hin _. apply list_elem_of_singleton in Hin as ->. by left.
Defined.

Lemma run_records_every_day_witness :
  exists n values trs codes,
    @runBacktestInternal EngineSample.math (fun _ => None) EngineSample.sizer (fun _ => [])
      (fun _ _ _ => Some [EngineSample.bar false]) (fun _ => None) (fun _ _ _ _ => Some [])
      (fun _ => []) (fun _ => []) 0 sortedKeys EngineSample.engine (fun _ => false)
      [EngineSample.sym] EngineSample.day1 [EngineSample.day1] EngineSample.flat
    = Ok (n, values, trs, codes)
    /\ PortfolioValue.Date <$> values = [EngineSample.day1; EngineSample.day1].
Proof.
  refine (@run_records_every_day EngineSample.math _ _ _ _ _ _ _ _ _ _ _ _ _ _ [EngineSample.day1] _ _ _);
    [reflexivity|done].
Defined.

Lemma short_target_is_never_met_witness :
  plain (EngineSample.signal DirectionShort) DirectionShort
  /\ holds (st_tracker (repeat_signal EngineSample.engine (EngineSample.signal DirectionShort)
        (f64_of_Z 100) (replicate 3 (None, EngineSample.prices, EngineSample.day1)) EngineSample.flat))
       EngineSample.sym (- 300).
Proof.
  split; [done|].
  refine (short_target_is_never_met _ _ 100 (replicate 3 (None, EngineSample.prices, EngineSample.day1))
            _ _ _ _ _ _ _); [done|done|lia|simpl; lia|done|].
  repeat constructor; exists (f64_of_Z 10); (constructor; [reflexivity|reflexivity|exact I]).
Defined.

Lemma long_target_is_met_once_witness :
  let after := act_on_signal EngineSample.bridged (EngineSample.signal DirectionLong)
      (f64_of_Z 500) None EngineSample.prices EngineSample.day1 EngineSample.holding in
  (exists trade, open_trade EngineSample.bridged (EngineSample.signal DirectionLong) (f64_of_Z 200) (f64_of_Z 10)
     EngineSample.day1 (opts_of (EngineSample.signal DirectionLong) None) (st_tracker EngineSample.holding)
     = (Ok trade, st_tracker after)
     /\ Trade.Quantity trade = f64_of_Z 200)
  /\ holds (st_tracker after) EngineSample.sym 500.
Proof.
  intros after.
  destruct (long_target_is_met_once EngineSample.bridged (EngineSample.signal DirectionLong) 500 300 None
              EngineSample.prices EngineSample.day1 (f64_of_Z 10) EngineSample.holding []) as [_ Hs];
    [reflexivity|reflexivity|lia|lia| |].
  { change (Position.Quantity EngineSample.lots = f64_of_Z 300 /\ 300 <> 0). split; [reflexivity|lia]. }
  destruct (Hs ltac:(lia) ltac:(reflexivity) ltac:(reflexivity) ltac:(discriminate)) as ([trade|x] & Ho & Hr).
  - destruct Hr as (Hq & Hh & _). split; [|exact Hh]. exists trade. split; [exact Ho|exact Hq].
  - exfalso. assert (Hok : (match (open_trade EngineSample.bridged (EngineSample.signal DirectionLong)
        (f64_of_Z (500 - 300)) (f64_of_Z 10) EngineSample.day1 (opts_of (EngineSample.signal DirectionLong) None)
        (st_tracker EngineSample.holding)).1 with Ok _ => true | Err _ => false end) = true)
      by (vm_compute; reflexivity).
    rewrite Ho in Hok. discriminate Hok.
Defined.

Lemma close_signal_quantity_witness :
  holds (st_tracker (act_on_signal EngineSample.bridged (EngineSample.signal DirectionClose) (f64_of_Z 100)
           None EngineSample.prices EngineSample.day1 EngineSample.holding)) EngineSample.sym 200.
Proof.
  destruct (close_signal_quantity EngineSample.bridged (EngineSample.signal DirectionClose) 100 300 None
              EngineSample.prices EngineSample.day1 (f64_of_Z 10) EngineSample.holding EngineSample.lots)
    as [_ Hs]; [done|lia|lia|done|done|done|done|done|].
  destruct (ExecuteOrder EngineSample.service
              (Order.Mk EngineSample.sym DirectionClose OrderTypeMarket (f64_of_Z 100) f0
                 EngineSample.day1 f0 f0 [])
              (quote_of EngineSample.sym (f64_of_Z 10) EngineSample.day1 None)) as [trade|x] eqn:E.
  - exact (proj1 (Hs EngineSample.service trade eq_refl E)).
  - exfalso. assert (Hok : (match ExecuteOrder EngineSample.service
        (Order.Mk EngineSample.sym DirectionClose OrderTypeMarket (f64_of_Z 100) f0 EngineSample.day1 f0 f0 [])
        (quote_of EngineSample.sym (f64_of_Z 10) EngineSample.day1 None)
        with Ok _ => true | Err _ => false end) = true) by (vm_compute; reflexivity).
    rewrite E in Hok. discriminate Hok.
Defined.
