(* ===== verification/BacktestJob.v ===== *)
(** * BacktestJob: asynchronous back-test jobs

    pkg/backtest/job/job.go (the [JobService]), the kernel registry and run
    specification it routes with (pkg/backtest/contracts registry.go,
    runspec.go, validity.go) and the table behind it
    (pkg/storage/backtest_jobs.go).

    Each method is a program over the effects it performs, [Vis c k]: one SQL
    statement under a context, one operation on the service's maps, channels
    and counters, one call of an engine. [exec] gives each effect its meaning
    on a [world]; [run] runs a program alone and [pool_step] interleaves the
    programs of many goroutines effect by effect.

    PostgreSQL, the JSON text and the engines are outside the program: a
    statement may fail before or after it took effect, a statement whose
    context is already cancelled is not sent, a JSON document is represented
    by the value it denotes, the conversion of a text to a DATE is the
    parameter [pg_date], and an engine's answer is an input of the step. *)

From stdpp Require Import base list strings gmap sorting.
From Stdlib Require Import ZArith Lia Ascii.
From S2P Require Import Prelude GoMap GoFloat Domain.

Open Scope Z_scope.

(** ** JSON values and the maps of [any] the store exchanges *)

Inductive json :=
| JNull
| JBool (b : bool)
| JNum (x : float64)
| JStr (s : bytes)
| JArr (l : list json)
| JObj (kvs : list (bytes * json)).

(** [json.Marshal] refuses a value that holds a NaN or an infinity. *)
Fixpoint json_finite (v : json) : bool :=
  match v with
  | JNum x => isFinite x
  | JArr l => forallb json_finite l
  | JObj kvs => forallb (fun kv => json_finite kv.2) kvs
  | _ => true
  end.

Abbreviation params := (gmap bytes json).

Definition marshal_params (m : params) : option json :=
  let doc := JObj (map_to_list m) in
  if json_finite doc then Some doc else None.

(** [json.Unmarshal] into a [map[string]any]: only an object fills it. *)
Definition unmarshal_params (doc : option json) : params :=
  match doc with Some (JObj kvs) => list_to_map kvs | _ => ∅ end.

(** What a run produced (pkg/backtest/contracts/contracts.go). *)
Module BacktestResponse.
Record t := Mk {
  ID : bytes; Status : bytes; Strategy : bytes; StrategyGitHash : bytes;
  StartDate : bytes; EndDate : bytes;
  TotalReturn : float64; AnnualReturn : float64; SharpeRatio : float64;
  SortinoRatio : float64; MaxDrawdown : float64; MaxDrawdownDate : bytes;
  WinRate : float64; TotalTrades : Z; WinTrades : Z; LoseTrades : Z;
  AvgHoldingDays : float64; CalmarRatio : float64;
  StartedAt : bytes; CompletedAt : bytes; Error : bytes;
  PortfolioValues : list PortfolioValue.t; Trades : list Trade.t;
  StockPool : list bytes; InitialCapital : float64;
  InvalidReasons : list bytes; UniverseMaxSize : option Z
}.
End BacktestResponse.

Definition trade_floats (t : Trade.t) : list float64 :=
  [Trade.Quantity t; Trade.Price t; Trade.Commission t; Trade.TransferFee t;
   Trade.StampTax t; Trade.PendingQty t; Trade.FilledQty t].
Definition value_floats (v : PortfolioValue.t) : list float64 :=
  [PortfolioValue.TotalValue v; PortfolioValue.Cash v; PortfolioValue.Positions v].

(** [json.Marshal(result)]: the document stands for the response itself. *)
Definition marshal_response (r : BacktestResponse.t) : option BacktestResponse.t :=
  let metrics := [BacktestResponse.TotalReturn r; BacktestResponse.AnnualReturn r;
    BacktestResponse.SharpeRatio r; BacktestResponse.SortinoRatio r;
    BacktestResponse.MaxDrawdown r; BacktestResponse.WinRate r;
    BacktestResponse.AvgHoldingDays r; BacktestResponse.CalmarRatio r;
    BacktestResponse.InitialCapital r] in
  if forallb isFinite (metrics
       ++ concat (value_floats <$> BacktestResponse.PortfolioValues r)
       ++ concat (trade_floats <$> BacktestResponse.Trades r))
  then Some r else None.

(** Why a job failed, as the column error_message words it. *)
Inductive db_error := DBCanceled | DBFault.

Inductive job_msg :=
| MShuttingDown
| MMarkStarted (e : db_error)
| MNotFound (e : option db_error)
| MMalformedKey (key : bytes)
| MNotRegistered (kernel : bytes) (registered : list bytes)
| MEngine (err : bytes)
| MInvalidRun (codes : list bytes)
| MMarshalResult
| MCleanup.

(** A value of the [map[string]any] between the service and its store. *)
Inductive any :=
| AString (s : bytes)
| ABytes (doc : option json)
| AResult (doc : option BacktestResponse.t)
| AMsg (m : option job_msg)
| ATime (t : Time).

Abbreviation anymap := (gmap bytes any).

(** ** Records *)

Record JobRecord := MkRecord {
  ID : bytes; StrategyID : bytes; Params : option json; Universe : bytes;
  StartDate : bytes; EndDate : bytes; Status : bytes;
  Result : option BacktestResponse.t; ErrorMsg : option job_msg;
  CreatedAt : Time; StartedAt : option Time; CompletedAt : option Time
}.

Definition put_time (k : string) (t : option Time) (m : anymap) : anymap :=
  match t with Some t => <[lit k := ATime t]> m | None => m end.

Definition jobRecordToMap (j : JobRecord) : anymap :=
  put_time "completed_at" (CompletedAt j)
    (put_time "started_at" (StartedAt j)
      (list_to_map
        [(lit "id", AString (ID j)); (lit "strategy_id", AString (StrategyID j));
         (lit "params", ABytes (Params j)); (lit "universe", AString (Universe j));
         (lit "start_date", AString (StartDate j)); (lit "end_date", AString (EndDate j));
         (lit "status", AString (Status j)); (lit "result", AResult (Result j));
         (lit "error_msg", AMsg (ErrorMsg j)); (lit "created_at", ATime (CreatedAt j))])).

(** Type assertions [m[k].(string)] and the optional ones. *)
Definition get_string (m : anymap) (k : string) : option bytes :=
  match m !! lit k with Some (AString s) => Some s | _ => None end.
Definition get_bytes (m : anymap) (k : string) : option json :=
  match m !! lit k with Some (ABytes d) => d | _ => None end.
Definition get_result (m : anymap) (k : string) : option BacktestResponse.t :=
  match m !! lit k with Some (AResult d) => d | _ => None end.
Definition get_msg (m : anymap) (k : string) : option job_msg :=
  match m !! lit k with Some (AMsg e) => e | _ => None end.
Definition get_time (m : anymap) (k : string) : option Time :=
  match m !! lit k with Some (ATime t) => Some t | _ => None end.

(** The required assertions panic ([None]); the zero time is 0. *)
Definition mapToJobRecord (m : anymap) : option JobRecord :=
  id ← get_string m "id"; strategy ← get_string m "strategy_id";
  universe ← get_string m "universe"; start ← get_string m "start_date";
  end_ ← get_string m "end_date"; status ← get_string m "status";
  Some (MkRecord id strategy (get_bytes m "params") universe start end_ status
          (get_result m "result") (get_msg m "error_msg")
          (default 0 (get_time m "created_at")) (get_time m "started_at")
          (get_time m "completed_at")).

(** The public view of a record. *)
Module Job.
Record t := Mk {
  ID : bytes; StrategyID : bytes; Params : option json; Universe : bytes;
  StartDate : bytes; EndDate : bytes; Status : bytes;
  Result : option BacktestResponse.t; Error : option job_msg;
  CreatedAt : Time; StartedAt : option Time; CompletedAt : option Time
}.
End Job.

Definition recordToJob (r : JobRecord) : Job.t :=
  Job.Mk (ID r) (StrategyID r) (Params r) (Universe r) (StartDate r) (EndDate r) (Status r)
    (Result r) (ErrorMsg r) (CreatedAt r) (StartedAt r) (CompletedAt r).

(** ** Run specifications and kernels (pkg/backtest/contracts) *)

Record SignalWeight := MkSignalWeight { sw_Symbol : bytes; sw_Weight : float64; sw_AsOf : bytes }.

Module BacktestRequest.
Record t := Mk {
  Strategy : bytes; StockPool : list bytes; IndexCode : bytes;
  StartDate : bytes; EndDate : bytes; InitialCapital : float64; RiskFreeRate : float64;
  Kernel : bytes; EngineParams : params; Signals : list SignalWeight
}.
End BacktestRequest.

Definition DefaultKernel : bytes := lit "go".

Definition EffectiveKernel (r : BacktestRequest.t) : bytes :=
  match BacktestRequest.Kernel r with [] => DefaultKernel | k => k end.

(** [sort.Strings]. *)
Definition sort_strings (l : list bytes) : list bytes := merge_sort bytes_le l.

(** The runners, each a handle; a nil runner is [None]. *)
Definition EngineRegistry : Type := gmap bytes (option nat).

Definition Names (reg : EngineRegistry) : list bytes := sort_strings (map_to_list reg).*1.

(** Misuse panics ([None]) and leaves the registry as it was. *)
Definition Register (name : bytes) (runner : option nat) (reg : EngineRegistry)
    : option EngineRegistry :=
  match name, runner, reg !! name with
  | [], _, _ => None
  | _, None, _ => None
  | _, _, Some _ => None
  | _, Some r, None => Some (<[name := Some r]> reg)
  end.

Definition Resolve (name : bytes) (reg : EngineRegistry) : res job_msg nat :=
  match reg !! name with
  | Some (Some runner) => Ok runner
  | _ => Err (MNotRegistered name (Names reg))
  end.

(** Engine parameters each kernel knows; none is registered yet. *)
Definition engineParamsByKernel : gmap bytes (list bytes) := {[ DefaultKernel := [] ]}.

Definition KnownEngineParams (kernel : bytes) : list bytes :=
  sort_strings (default [] (engineParamsByKernel !! kernel)).

Inductive spec_error :=
| EBlankSymbol (i : nat)
| EWeight (i : nat)
| EAsOf (i : nat)
| EUnknownParams (unknown : list bytes) (kernel : bytes).

(** [time.Parse("2006-01-02", s)]. *)
Definition two_digits (a b : ascii) : option Z :=
  if is_digit a && is_digit b then Some (10 * digit_val a + digit_val b) else None.
Definition days_in (y m : Z) : Z :=
  if m =? 2 then (if ((y mod 4 =? 0) && negb (y mod 100 =? 0)) || (y mod 400 =? 0) then 29 else 28)
  else if (m =? 4) || (m =? 6) || (m =? 9) || (m =? 11) then 30 else 31.
Definition parse_date (s : bytes) : bool :=
  match s with
  | [a; b; c; d; "-"; e; f; "-"; g; h]%char =>
      match two_digits a b, two_digits c d, two_digits e f, two_digits g h with
      | Some y1, Some y2, Some m, Some dd =>
          (1 <=? m) && (m <=? 12) && (1 <=? dd) && (dd <=? days_in (100 * y1 + y2) m)
      | _, _, _, _ => false
      end
  | _ => false
  end.

Fixpoint validate_signals (i : nat) (l : list SignalWeight) : res spec_error unit :=
  match l with
  | [] => Ok tt
  | sig :: rest =>
      let w := sw_Weight sig in
      if bool_decide (TrimSpace (sw_Symbol sig) = []) then Err (EBlankSymbol i)
      else if is_nan w || is_inf w || flt w f0 || flt f1 w then Err (EWeight i)
      else if negb (parse_date (sw_AsOf sig)) then Err (EAsOf i)
      else validate_signals (S i) rest
  end.

Definition validateSignals (r : BacktestRequest.t) : res spec_error unit :=
  validate_signals 0 (BacktestRequest.Signals r).

Definition ValidateRunSpec (r : BacktestRequest.t) : res spec_error unit :=
  match validateSignals r with
  | Err e => Err e
  | Ok _ =>
      let known := KnownEngineParams (EffectiveKernel r) in
      let unknown := filter (.∉ known) (map_to_list (BacktestRequest.EngineParams r)).*1 in
      match unknown with
      | [] => Ok tt
      | _ => Err (EUnknownParams (sort_strings unknown) (EffectiveKernel r))
      end
  end.

(** ** The validity verdict (pkg/backtest/contracts/validity.go) *)

Definition InvalidEmptyUniverse : bytes := lit "empty_universe".
Definition InvalidZeroTrades : bytes := lit "zero_trades".
Definition InvalidZeroStartDate : bytes := lit "zero_start_date".
Definition InvalidGarbageMetric : bytes := lit "garbage_metric".

Definition maxMetricAbs : float64 := f64_of_Z 1000000000000.

(** The fields of a [domain.BacktestResult] the verdict reads. *)
Record BacktestResult := MkBacktestResult {
  br_StartDate : Time; br_TotalReturn : float64; br_AnnualReturn : float64;
  br_SharpeRatio : float64; br_SortinoRatio : float64; br_MaxDrawdown : float64;
  br_WinRate : float64; br_TotalTrades : Z; br_AvgHoldingDays : float64;
  br_CalmarRatio : float64; br_UniverseMaxSize : option Z
}.

Definition resultMetrics (res : BacktestResult) : list (bytes * float64) :=
  [(lit "total_return", br_TotalReturn res); (lit "annual_return", br_AnnualReturn res);
   (lit "sharpe_ratio", br_SharpeRatio res); (lit "sortino_ratio", br_SortinoRatio res);
   (lit "max_drawdown", br_MaxDrawdown res); (lit "win_rate", br_WinRate res);
   (lit "avg_holding_days", br_AvgHoldingDays res); (lit "calmar_ratio", br_CalmarRatio res)].

Definition garbage (x : float64) : bool := is_nan x || is_inf x || flt maxMetricAbs (Abs x).

(** The codes of [InvalidReasonCodes(CheckValidity(res))], with the metric a
    [garbage_metric] reason names. *)
Definition CheckValidity (res : option BacktestResult) : list (bytes * bytes) :=
  match res with
  | None => []
  | Some res =>
      (match br_UniverseMaxSize res with
       | Some n => if n <=? 0 then [(InvalidEmptyUniverse, [])] else []
       | None => []
       end)
      ++ (if br_TotalTrades res =? 0 then [(InvalidZeroTrades, [])] else [])
      ++ (if IsZero (br_StartDate res) then [(InvalidZeroStartDate, [])] else [])
      ++ ((fun m => (InvalidGarbageMetric, m.1)) <$>
            filter (fun m => garbage m.2 = true) (resultMetrics res))
  end.

Definition InvalidReasonCodes (reasons : list (bytes * bytes)) : list bytes := reasons.*1.

(** ** The table (pkg/storage/backtest_jobs.go) *)

(** A row: the columns of [JobRecord], the document columns never null but
    the result. *)
Record row := MkRow {
  r_strategy : bytes; r_params : json; r_universe : bytes; r_start : bytes; r_end : bytes;
  r_status : bytes; r_result : option BacktestResponse.t; r_error : option job_msg;
  r_created : Time; r_started : option Time; r_completed : option Time
}.

Abbreviation table := (gmap bytes row).

Definition Pending : bytes := lit "pending".
Definition Running : bytes := lit "running".
Definition Completed : bytes := lit "completed".
Definition Failed : bytes := lit "failed".

(** A VARCHAR(n) column counts UTF-8 characters; an overlong text is refused
    unless the excess is blanks, which are cut. *)
Definition char_count (s : bytes) : nat :=
  length (filter (fun c => ~ (128 <= byteZ c < 192)) s).
Definition varchar (n : nat) (s : bytes) : option bytes :=
  let excess := (char_count s - n)%nat in
  let keep := (length s - excess)%nat in
  if forallb (Ascii.eqb " ") (drop keep s) then Some (take keep s) else None.

Definition started_row (now : Time) (r : row) : row :=
  MkRow (r_strategy r) (r_params r) (r_universe r) (r_start r) (r_end r) Running
    (r_result r) (r_error r) (r_created r) (Some now) (r_completed r).
Definition completed_row (now : Time) (result : BacktestResponse.t) (r : row) : row :=
  MkRow (r_strategy r) (r_params r) (r_universe r) (r_start r) (r_end r) Completed
    (Some result) (r_error r) (r_created r) (r_started r) (Some now).
Definition failed_row (now : Time) (m : job_msg) (r : row) : row :=
  MkRow (r_strategy r) (r_params r) (r_universe r) (r_start r) (r_end r) Failed
    (r_result r) (Some m) (r_created r) (r_started r) (Some now).

(** [UPDATE ... WHERE id = $1]: no matching row is no error. *)
Definition update_row (f : row -> row) (id : bytes) (t : table) : table :=
  match t !! id with Some r => <[id := f r]> t | None => t end.

Definition UpdateJobStarted (now : Time) (id : bytes) (t : table) : table :=
  update_row (started_row now) id t.
Definition UpdateJobCompleted (now : Time) (id : bytes) (result : BacktestResponse.t)
    (t : table) : table :=
  update_row (completed_row now result) id t.
Definition UpdateJobFailed (now : Time) (id : bytes) (m : job_msg) (t : table) : table :=
  update_row (failed_row now m) id t.

(** The map a row is read as: null error and times are left out. *)
Definition put_msg (m : option job_msg) (t : anymap) : anymap :=
  match m with Some e => <[lit "error_msg" := AMsg (Some e)]> t | None => t end.
Definition row_map (id : bytes) (r : row) : anymap :=
  put_time "completed_at" (r_completed r)
    (put_time "started_at" (r_started r)
      (put_msg (r_error r)
        (list_to_map
          [(lit "id", AString id); (lit "strategy_id", AString (r_strategy r));
           (lit "params", ABytes (Some (r_params r))); (lit "universe", AString (r_universe r));
           (lit "start_date", AString (r_start r)); (lit "end_date", AString (r_end r));
           (lit "status", AString (r_status r)); (lit "result", AResult (r_result r));
           (lit "created_at", ATime (r_created r))]))).

Definition GetBacktestJob (id : bytes) (t : table) : option anymap := row_map id <$> t !! id.

Definition newest_first (a b : bytes * row) : Prop := r_created b.2 <= r_created a.2.
#[global] Instance newest_first_dec a b : Decision (newest_first a b).
Proof. unfold newest_first. apply _. Defined.

Definition newest (limit : Z) (t : table) : list (bytes * row) :=
  take (Z.to_nat limit) (merge_sort newest_first (map_to_list t)).

Definition ListBacktestJobs (limit : Z) (t : table) : list anymap :=
  (fun kv => row_map kv.1 kv.2) <$> newest limit t.

(** [DELETE ... WHERE id = $1 AND status = 'pending']; [None] when no row
    was affected. *)
Definition DeleteBacktestJob (id : bytes) (t : table) : option table :=
  match t !! id with
  | Some r => if bool_decide (r_status r = Pending) then Some (delete id t) else None
  | None => None
  end.

Section Store.
Variable pg_date : bytes -> option bytes.

(** [INSERT]: [None] when a value does not fit its column or the key exists. *)
Definition CreateBacktestJob (now : Time) (m : anymap) (t : table) : option table :=
  id ← get_string m "id" ≫= varchar 64;
  strategy ← get_string m "strategy_id" ≫= varchar 50;
  doc ← get_bytes m "params";
  universe ← get_string m "universe" ≫= varchar 100;
  start ← get_string m "start_date" ≫= pg_date;
  end_ ← get_string m "end_date" ≫= pg_date;
  status ← get_string m "status" ≫= varchar 20;
  match t !! id with
  | Some _ => None
  | None => Some (<[id := MkRow strategy doc universe start end_ status None None now None None]> t)
  end.

End Store.

(** ** Effects *)

(** A context is a number; 0 is [context.Background()]. *)
Abbreviation ctx := nat.
Definition Background : ctx := 0%nat.

(** The goroutines [StartJob] starts. *)
Inductive thread := TMonitor (parent job : ctx) | TJob (job : ctx) (id : bytes).

Inductive cmd :=
| CCreate (c : ctx) (m : anymap)
| CStarted (c : ctx) (id : bytes)
| CCompleted (c : ctx) (id : bytes) (result : BacktestResponse.t)
| CFailed (c : ctx) (id : bytes) (msg : job_msg)
| CGet (c : ctx) (id : bytes)
| CList (c : ctx) (limit : Z)
| CDelete (c : ctx) (id : bytes)
| CNow
| CUuid
| CIsShutdown
| CCloseShutdown
| CNewCtx
| CCancelCtx (c : ctx)
| CWaitCtx (a b : ctx)
| CStoreCancel (id : bytes) (c : ctx)
| CLoadCancel (id : bytes)
| CDeleteCancel (id : bytes)
| CRangeCancel
| CWgAdd
| CWgDone
| CWgWait (c : ctx)
| CSpawn (t : thread)
| CRun (c : ctx) (id : bytes) (runner : nat) (req : BacktestRequest.t).

(** What the deletion answers: the row was deleted, or none was pending. *)
Definition reply (c : cmd) : Type :=
  match c with
  | CCreate _ _ | CStarted _ _ | CCompleted _ _ _ | CFailed _ _ _ => res db_error unit
  | CGet _ _ => res db_error (option anymap)
  | CList _ _ => res db_error (list anymap)
  | CDelete _ _ => res db_error bool
  | CNow => Time
  | CUuid => bytes
  | CIsShutdown => bool
  | CCloseShutdown => bool               (** false: the channel was closed already *)
  | CNewCtx => ctx
  | CWaitCtx _ _ => bool                 (** true: the first context was done *)
  | CLoadCancel _ => option ctx
  | CRangeCancel => list ctx
  | CWgWait _ => bool                    (** true: every goroutine is done *)
  | CRun _ _ _ _ => res bytes BacktestResponse.t
  | _ => unit
  end.

Inductive prog (A : Type) : Type :=
| Ret (a : A)
| Panic
| Vis (c : cmd) (k : reply c -> prog A).
Arguments Ret {A}. Arguments Panic {A}. Arguments Vis {A}.

Fixpoint bind {A B} (p : prog A) (f : A -> prog B) : prog B :=
  match p with
  | Ret a => f a
  | Panic => Panic
  | Vis c k => Vis c (fun r => bind (k r) f)
  end.

Definition call (c : cmd) : prog (reply c) := Vis c Ret.

Declare Scope job_scope.
Delimit Scope job_scope with job.
Notation "x <- p ;; q" := (bind p (fun x => q))
  (at level 100, p at next level, right associativity) : job_scope.
Notation "p ;; q" := (bind p (fun _ => q))
  (at level 100, right associativity) : job_scope.
Open Scope job_scope.

(** ** The service (pkg/backtest/job/job.go) *)

Inductive job_error :=
| JStore (e : db_error)                   (** a wrapped failure of the store *)
| JMarshal
| JNotFound
| JNotPending                             (** the DELETE affected no row *)
| JAlready (status : bytes)
| JDeadline.                              (** ctx.Err() of the drain *)

Record CreateJobRequest := MkCreateJobRequest {
  rq_StrategyID : bytes; rq_Params : params; rq_Universe : bytes;
  rq_StartDate : bytes; rq_EndDate : bytes; rq_InitialCapital : float64;
  rq_CommissionRate : float64; rq_SlippageRate : float64;
  rq_Kernel : bytes; rq_EngineParams : params
}.

Definition put_positive (k : string) (x : float64) (m : params) : params :=
  if flt f0 x then <[lit k := JNum x]> m else m.

(** The params a job is stored with: the caller's, then the top-level fields
    and the two reserved routing keys over them. *)
Definition job_params (req : CreateJobRequest) : params :=
  let m := put_positive "initial_capital" (rq_InitialCapital req) (rq_Params req) in
  let m := put_positive "commission_rate" (rq_CommissionRate req) m in
  let m := put_positive "slippage_rate" (rq_SlippageRate req) m in
  let m := if bool_decide (rq_Kernel req = []) then m
           else <[lit "kernel" := JStr (rq_Kernel req)]> m in
  if bool_decide (rq_EngineParams req = ∅) then m
  else <[lit "engine_params" := JObj (map_to_list (rq_EngineParams req))]> m.

Definition StartJob (parentCtx : ctx) (jobID : bytes) : prog unit :=
  closed <- call CIsShutdown ;;
  if (closed : bool)
  then (_ <- call (CFailed Background jobID MShuttingDown) ;; Ret tt)
  else
    jobCtx <- call CNewCtx ;;
    call (CStoreCancel jobID jobCtx) ;;
    call (CSpawn (TMonitor parentCtx jobCtx)) ;;
    call CWgAdd ;;
    call (CSpawn (TJob jobCtx jobID)).

Definition CreateJob (c : ctx) (req : CreateJobRequest) : prog (res job_error Job.t) :=
  jobID <- call CUuid ;;
  match marshal_params (job_params req) with
  | None => Ret (Err JMarshal)
  | Some paramsJSON =>
      now <- call CNow ;;
      let record := MkRecord jobID (rq_StrategyID req) (Some paramsJSON) (rq_Universe req)
                      (rq_StartDate req) (rq_EndDate req) Pending None None now None None in
      r <- call (CCreate c (jobRecordToMap record)) ;;
      match r with
      | Err e => Ret (Err (JStore e))
      | Ok _ => StartJob Background jobID ;;
                Ret (Ok (recordToJob record))
      end
  end.

(** [strings.Split(s, ",")]. *)
Fixpoint split_comma (s : bytes) : list bytes :=
  match s with
  | [] => [[]]
  | c :: s' =>
      if Ascii.eqb c "," then [] :: split_comma s'
      else match split_comma s' with [] => [[c]] | w :: ws => (c :: w) :: ws end
  end.

Definition parseUniverse (universe : bytes) : list bytes :=
  if bool_decide (universe = []) || bool_decide (universe = lit "all") then []
  else
    let universe := default universe (strip_prefix (lit "universe:") universe) in
    filter (fun p => p <> []) (TrimSpace <$> split_comma universe).

(** The goroutine's writes of a failure: the error is only logged. *)
Definition fail_job (c : ctx) (jobID : bytes) (m : job_msg) : prog unit :=
  _ <- call (CFailed c jobID m) ;; call (CDeleteCancel jobID).

Definition failMalformedReservedKey (c : ctx) (jobID : bytes) (key : string) : prog unit :=
  fail_job c jobID (MMalformedKey (lit key)).

(** The routing keys read back from the stored params, or the malformed one. *)
Definition read_routing (m : params) : res string (bytes * params) :=
  match m !! lit "kernel" with
  | Some (JStr _) | None =>
      let kernel := match m !! lit "kernel" with Some (JStr k) => k | _ => [] end in
      match m !! lit "engine_params" with
      | Some (JObj kvs) => Ok (kernel, list_to_map kvs)
      | None => Ok (kernel, ∅)
      | Some _ => Err "engine_params"
      end
  | Some _ => Err "kernel"
  end.

Definition job_request (record : JobRecord) (kernel : bytes) (engineParams : params)
    (m : params) : BacktestRequest.t :=
  let capital := match m !! lit "initial_capital" with
                 | Some (JNum v) => if flt f0 v then v else f0
                 | _ => f0
                 end in
  BacktestRequest.Mk (StrategyID record) (parseUniverse (Universe record)) []
    (StartDate record) (EndDate record) capital f0 kernel engineParams [].

(** What is left of the goroutine once the engine answered. *)
Definition settle (c : ctx) (jobID : bytes) (answer : res bytes BacktestResponse.t) : prog unit :=
  match answer with
  | Err err => fail_job c jobID (MEngine err)
  | Ok result =>
      match BacktestResponse.InvalidReasons result with
      | (_ :: _) as codes => fail_job c jobID (MInvalidRun codes)
      | [] =>
          match marshal_response result with
          | None => fail_job c jobID MMarshalResult
          | Some doc => _ <- call (CCompleted c jobID doc) ;; call (CDeleteCancel jobID)
          end
      end
  end.

Definition route_and_run (reg : EngineRegistry) (c : ctx) (jobID : bytes) (record : JobRecord)
    : prog unit :=
  let m := unmarshal_params (Params record) in
  match read_routing m with
  | Err key => failMalformedReservedKey c jobID key
  | Ok (kernel, engineParams) =>
      let req := job_request record kernel engineParams m in
      match Resolve (EffectiveKernel req) reg with
      | Err e => fail_job c jobID e
      | Ok runner => answer <- call (CRun c jobID runner req) ;; settle c jobID answer
      end
  end.

(** After the claim: load the record and run it. *)
Definition load_and_run (reg : EngineRegistry) (c : ctx) (jobID : bytes) : prog unit :=
  r <- call (CGet c jobID) ;;
  match r with
  | Err e => fail_job c jobID (MNotFound (Some e))
  | Ok None => fail_job c jobID (MNotFound None)
  | Ok (Some recordMap) =>
      match mapToJobRecord recordMap with
      | None => Panic
      | Some record => route_and_run reg c jobID record
      end
  end.

(** The body of the goroutine; its deferred calls cancel the context, then
    leave the wait group. *)
Definition job_body (reg : EngineRegistry) (c : ctx) (jobID : bytes) : prog unit :=
  r <- call (CStarted c jobID) ;;
  match r with
  | Err e => fail_job c jobID (MMarkStarted e)
  | Ok _ => load_and_run reg c jobID
  end.

Definition deferred (c : ctx) : prog unit := call (CCancelCtx c) ;; call CWgDone.

Definition job_goroutine (reg : EngineRegistry) (c : ctx) (jobID : bytes) : prog unit :=
  job_body reg c jobID ;; deferred c.

(** The goroutine that forwards the parent's cancellation. *)
Definition monitor (parent c : ctx) : prog unit :=
  parentDone <- call (CWaitCtx parent c) ;;
  if (parentDone : bool) then call (CCancelCtx c) else Ret tt.

Definition thread_prog (reg : EngineRegistry) (t : thread) : prog unit :=
  match t with
  | TMonitor parent c => monitor parent c
  | TJob c jobID => job_goroutine reg c jobID
  end.

Definition GetJob (c : ctx) (jobID : bytes) : prog (res job_error (option Job.t)) :=
  r <- call (CGet c jobID) ;;
  match r with
  | Err e => Ret (Err (JStore e))
  | Ok None => Ret (Ok None)
  | Ok (Some m) => match mapToJobRecord m with
                   | None => Panic
                   | Some rec => Ret (Ok (Some (recordToJob rec)))
                   end
  end.

Definition ListJobs (c : ctx) (limit : Z) : prog (res job_error (list Job.t)) :=
  let limit := if limit <=? 0 then 20 else limit in
  r <- call (CList c limit) ;;
  match r with
  | Err e => Ret (Err (JStore e))
  | Ok ms => match mapM mapToJobRecord ms with
             | None => Panic
             | Some recs => Ret (Ok (recordToJob <$> recs))
             end
  end.

Definition CancelJob (c : ctx) (jobID : bytes) : prog (res job_error unit) :=
  r <- call (CGet c jobID) ;;
  match r with
  | Err e => Ret (Err (JStore e))
  | Ok None => Ret (Err JNotFound)
  | Ok (Some m) =>
      match mapToJobRecord m with
      | None => Panic
      | Some record =>
          if bool_decide (Status record = Pending) then
            d <- call (CDelete c jobID) ;;
            match d with
            | Err e => Ret (Err (JStore e))
            | Ok deleted => Ret (if (deleted : bool) then Ok tt else Err JNotPending)
            end
          else if bool_decide (Status record = Running) then
            o <- call (CLoadCancel jobID) ;;
            match o with
            | Some jobCtx => call (CCancelCtx jobCtx) ;;
                             call (CDeleteCancel jobID) ;; Ret (Ok tt)
            | None => Ret (Ok tt)
            end
          else Ret (Err (JAlready (Status record)))
      end
  end.

Fixpoint cancel_all (cs : list ctx) : prog unit :=
  match cs with
  | [] => Ret tt
  | c :: rest => call (CCancelCtx c) ;; cancel_all rest
  end.

(** A second close of the channel panics. *)
Definition Shutdown (c : ctx) : prog (res job_error unit) :=
  closed <- call CIsShutdown ;;
  if (closed : bool) then Ret (Ok tt)
  else
    ok <- call CCloseShutdown ;;
    if negb ok then Panic
    else
      cs <- call CRangeCancel ;;
      cancel_all cs ;;
      drained <- call (CWgWait c) ;;
      Ret (if (drained : bool) then Ok tt else Err JDeadline).

Definition cleanupWindowLimit : Z := 1000.

(** [status, _ := r["status"].(string)]: a failed assertion gives "". *)
Definition string_or_empty (m : anymap) (k : string) : bytes := default [] (get_string m k).

Fixpoint cleanup_loop (c : ctx) (records : list anymap) (transitioned : Z) : prog Z :=
  match records with
  | [] => Ret transitioned
  | r :: rest =>
      if bool_decide (string_or_empty r "status" <> Running) then cleanup_loop c rest transitioned
      else
        let id := string_or_empty r "id" in
        if bool_decide (id = []) then cleanup_loop c rest transitioned
        else
          x <- call (CFailed c id MCleanup) ;;
          match x with
          | Err _ => cleanup_loop c rest transitioned
          | Ok _ => cleanup_loop c rest (transitioned + 1)
          end
  end.

Definition CleanupStaleRunning (c : ctx) : prog (res job_error Z) :=
  r <- call (CList c cleanupWindowLimit) ;;
  match r with
  | Err e => Ret (Err (JStore e))
  | Ok records => n <- cleanup_loop c records 0 ;; Ret (Ok n)
  end.

(** [strings.Join(pool, ",")]. *)
Fixpoint join_comma (l : list bytes) : bytes :=
  match l with
  | [] => []
  | [w] => w
  | w :: rest => w ++ lit "," ++ join_comma rest
  end.

Definition sync_job (resp : BacktestResponse.t) : anymap :=
  list_to_map
    [(lit "id", AString (BacktestResponse.ID resp));
     (lit "strategy_id", AString (BacktestResponse.Strategy resp));
     (lit "params", ABytes (Some (JObj [])));
     (lit "universe", AString (join_comma (BacktestResponse.StockPool resp)));
     (lit "start_date", AString (BacktestResponse.StartDate resp));
     (lit "end_date", AString (BacktestResponse.EndDate resp));
     (lit "status", AString Pending)].

Definition SaveSyncResult (c : ctx) (resp : BacktestResponse.t) : prog (res job_error unit) :=
  match marshal_response resp with
  | None => Ret (Err JMarshal)
  | Some doc =>
      r <- call (CCreate c (sync_job resp)) ;;
      match r with
      | Err e => Ret (Err (JStore e))
      | Ok _ =>
          r <- call (CStarted c (BacktestResponse.ID resp)) ;;
          match r with
          | Err e => Ret (Err (JStore e))
          | Ok _ =>
              r <- call (CCompleted c (BacktestResponse.ID resp) doc) ;;
              match r with
              | Err e => Ret (Err (JStore e))
              | Ok _ => Ret (Ok tt)
              end
          end
      end
  end.

(** ** Worlds and runs *)

Inductive fault := NoFault | FailBefore | FailAfter.

(** What the environment supplies to a step. *)
Record input := MkInput {
  in_fault : fault; in_now : Time; in_uuid : bytes; in_pick : bool;
  in_answer : res bytes BacktestResponse.t
}.

Record world := MkWorld {
  rows : table;
  cancelled : gset ctx;
  next_ctx : ctx;
  cancelFuncs : gmap bytes ctx;
  shutdown : bool;
  inflight : Z;
  spawned : list thread;
  runs : list (bytes * nat * BacktestRequest.t);  (** the engine calls so far *)
  deleted : gset bytes;                           (** the jobs deleted so far *)
  used : gset bytes                               (** the identifiers drawn so far *)
}.

Definition set_rows (t : table) (w : world) : world :=
  MkWorld t (cancelled w) (next_ctx w) (cancelFuncs w) (shutdown w) (inflight w)
    (spawned w) (runs w) (deleted w) (used w).
Definition set_cancelled (s : gset ctx) (w : world) : world :=
  MkWorld (rows w) s (next_ctx w) (cancelFuncs w) (shutdown w) (inflight w)
    (spawned w) (runs w) (deleted w) (used w).
Definition set_cancelFuncs (m : gmap bytes ctx) (w : world) : world :=
  MkWorld (rows w) (cancelled w) (next_ctx w) m (shutdown w) (inflight w)
    (spawned w) (runs w) (deleted w) (used w).
Definition set_inflight (n : Z) (w : world) : world :=
  MkWorld (rows w) (cancelled w) (next_ctx w) (cancelFuncs w) (shutdown w) n
    (spawned w) (runs w) (deleted w) (used w).
Definition set_spawned (l : list thread) (w : world) : world :=
  MkWorld (rows w) (cancelled w) (next_ctx w) (cancelFuncs w) (shutdown w) (inflight w)
    l (runs w) (deleted w) (used w).

Definition done (c : ctx) (w : world) : bool := bool_decide (c ∈ cancelled w).

(** A statement under a context: not sent when the context is done, and
    subject to the fault the environment picks. [f] is its effect and its
    reply, [None] when the database refuses it. *)
Definition statement {R} (c : ctx) (flt : fault) (f : table -> option (R * table)) (w : world)
    : res db_error R * world :=
  if done c w then (Err DBCanceled, w)
  else match flt, f (rows w) with
       | FailBefore, _ | _, None => (Err DBFault, w)
       | FailAfter, Some (_, t) => (Err DBFault, set_rows t w)
       | NoFault, Some (r, t) => (Ok r, set_rows t w)
       end.

Definition mark_deleted (id : bytes) (w0 w : world) : world :=
  match rows w0 !! id, rows w !! id with
  | Some _, None => MkWorld (rows w) (cancelled w) (next_ctx w) (cancelFuncs w) (shutdown w)
                      (inflight w) (spawned w) (runs w) ({[id]} ∪ deleted w) (used w)
  | _, _ => w
  end.

Section Exec.
Variable pg_date : bytes -> option bytes.

(** The effect of one command, [None] while it blocks. An identifier that
    [uuid.New().String()] draws is 36 characters long and was never drawn
    before. *)
Definition exec (e : input) (c : cmd) (w : world) : option (reply c * world) :=
  match c return option (reply c * world) with
  | CCreate x m =>
      Some (statement x (in_fault e)
              (fun t => t' ← CreateBacktestJob pg_date (in_now e) m t; Some (tt, t')) w)
  | CStarted x id =>
      Some (statement x (in_fault e) (fun t => Some (tt, UpdateJobStarted (in_now e) id t)) w)
  | CCompleted x id r =>
      Some (statement x (in_fault e) (fun t => Some (tt, UpdateJobCompleted (in_now e) id r t)) w)
  | CFailed x id m =>
      Some (statement x (in_fault e) (fun t => Some (tt, UpdateJobFailed (in_now e) id m t)) w)
  | CGet x id => Some (statement x (in_fault e) (fun t => Some (GetBacktestJob id t, t)) w)
  | CList x n => Some (statement x (in_fault e) (fun t => Some (ListBacktestJobs n t, t)) w)
  | CDelete x id =>
      let '(r, w') := statement x (in_fault e)
        (fun t => match DeleteBacktestJob id t with
                  | Some t' => Some (true, t')
                  | None => Some (false, t)
                  end) w in
      Some (r, mark_deleted id w w')
  | CNow => Some (in_now e, w)
  | CUuid =>
      if decide (in_uuid e ∉ used w /\ length (in_uuid e) = 36%nat)
      then Some (in_uuid e,
             MkWorld (rows w) (cancelled w) (next_ctx w) (cancelFuncs w) (shutdown w)
               (inflight w) (spawned w) (runs w) (deleted w) ({[in_uuid e]} ∪ used w))
      else None
  | CIsShutdown => Some (shutdown w, w)
  | CCloseShutdown =>
      Some (negb (shutdown w),
        MkWorld (rows w) (cancelled w) (next_ctx w) (cancelFuncs w) true (inflight w)
          (spawned w) (runs w) (deleted w) (used w))
  | CNewCtx =>
      Some (next_ctx w,
        MkWorld (rows w) (cancelled w) (S (next_ctx w)) (cancelFuncs w) (shutdown w)
          (inflight w) (spawned w) (runs w) (deleted w) (used w))
  | CCancelCtx x => Some (tt, set_cancelled ({[x]} ∪ cancelled w) w)
  | CWaitCtx a b =>
      match done a w, done b w with
      | true, true => Some (in_pick e, w)
      | true, false => Some (true, w)
      | false, true => Some (false, w)
      | false, false => None
      end
  | CStoreCancel id x => Some (tt, set_cancelFuncs (<[id := x]> (cancelFuncs w)) w)
  | CLoadCancel id => Some (cancelFuncs w !! id, w)
  | CDeleteCancel id => Some (tt, set_cancelFuncs (delete id (cancelFuncs w)) w)
  | CRangeCancel => Some ((map_to_list (cancelFuncs w)).*2, w)
  | CWgAdd => Some (tt, set_inflight (inflight w + 1) w)
  | CWgDone => Some (tt, set_inflight (inflight w - 1) w)
  | CWgWait x =>
      match inflight w =? 0, done x w with
      | true, true => Some (in_pick e, w)
      | true, false => Some (true, w)
      | false, true => Some (false, w)
      | false, false => None
      end
  | CSpawn t => Some (tt, set_spawned (spawned w ++ [t]) w)
  | CRun x id runner req =>
      Some (in_answer e,
        MkWorld (rows w) (cancelled w) (next_ctx w) (cancelFuncs w) (shutdown w)
          (inflight w) (spawned w) (runs w ++ [(id, runner, req)]) (deleted w) (used w))
  end.

(** A program run alone, one input per effect; [None] when the inputs run
    out, the program panics or it blocks. *)
Fixpoint run {A} (es : list input) (p : prog A) (w : world) {struct p} : option (A * list input * world) :=
  match p with
  | Ret a => Some (a, es, w)
  | Panic => None
  | Vis c k =>
      match es with
      | [] => None
      | e :: es' =>
          match exec e c w with
          | Some (r, w') => run es' (k r) w'
          | None => None
          end
      end
  end.

(** One effect of a program. *)
Definition prog_step {A} (e : input) (p : prog A) (w : world) : option (prog A * world) :=
  match p with
  | Vis c k => match exec e c w with Some (r, w') => Some (k r, w') | None => None end
  | _ => None
  end.

(** The calls the process makes of the service: its handlers, the shutdown
    sequence and the repair at start. A synchronous run draws its own
    identifier before it is saved. *)
Definition with_id (id : bytes) (r : BacktestResponse.t) : BacktestResponse.t :=
  BacktestResponse.Mk id (BacktestResponse.Status r) (BacktestResponse.Strategy r)
    (BacktestResponse.StrategyGitHash r) (BacktestResponse.StartDate r)
    (BacktestResponse.EndDate r) (BacktestResponse.TotalReturn r)
    (BacktestResponse.AnnualReturn r) (BacktestResponse.SharpeRatio r)
    (BacktestResponse.SortinoRatio r) (BacktestResponse.MaxDrawdown r)
    (BacktestResponse.MaxDrawdownDate r) (BacktestResponse.WinRate r)
    (BacktestResponse.TotalTrades r) (BacktestResponse.WinTrades r)
    (BacktestResponse.LoseTrades r) (BacktestResponse.AvgHoldingDays r)
    (BacktestResponse.CalmarRatio r) (BacktestResponse.StartedAt r)
    (BacktestResponse.CompletedAt r) (BacktestResponse.Error r)
    (BacktestResponse.PortfolioValues r) (BacktestResponse.Trades r)
    (BacktestResponse.StockPool r) (BacktestResponse.InitialCapital r)
    (BacktestResponse.InvalidReasons r) (BacktestResponse.UniverseMaxSize r).

Inductive service_call : prog unit -> Prop :=
| call_create c req : service_call (CreateJob c req ;; Ret tt)
| call_get c id : service_call (GetJob c id ;; Ret tt)
| call_list c n : service_call (ListJobs c n ;; Ret tt)
| call_cancel c id : service_call (CancelJob c id ;; Ret tt)
| call_shutdown c : service_call (Shutdown c ;; Ret tt)
| call_cleanup c : service_call (CleanupStaleRunning c ;; Ret tt)
| call_save c resp : service_call (id <- call CUuid ;; SaveSyncResult c (with_id id resp) ;; Ret tt).

(** Interleavings: any goroutine takes its next effect, a call arrives, a
    spawned goroutine starts, a context other than the background one is
    cancelled from outside. *)
Inductive pool_step (reg : EngineRegistry) : world * list (prog unit) -> world * list (prog unit) -> Prop :=
| step_run w ts i p e p' w' :
    ts !! i = Some p -> prog_step e p w = Some (p', w') ->
    pool_step reg (w, ts) (w', <[i := p']> ts)
| step_call w ts p :
    service_call p -> pool_step reg (w, ts) (w, ts ++ [p])
| step_spawn w ts t l :
    spawned w = t :: l ->
    pool_step reg (w, ts) (set_spawned l w, ts ++ [thread_prog reg t])
| step_cancel w ts c :
    c <> Background ->
    pool_step reg (w, ts) (set_cancelled ({[c]} ∪ cancelled w) w, ts).

Inductive reachable (reg : EngineRegistry) (s : world * list (prog unit))
    : world * list (prog unit) -> Prop :=
| reach_refl : reachable reg s s
| reach_step s1 s2 : reachable reg s s1 -> pool_step reg s1 s2 -> reachable reg s s2.

End Exec.
