(* ===== verification/JobProps.v ===== *)
(** * JobProps: what the back-test job service guarantees

    The pool invariant of BacktestJob (only a job that is still on record is
    ever run, on the kernel it names), the settlement of an undisturbed job,
    what a cancellation leaves behind, the repair of stale rows and the saving
    of synchronous results. *)

From stdpp Require Import base list strings gmap sorting.
From Stdlib Require Import ZArith Lia Ascii.
From S2P Require Import Prelude GoMap GoFloat Domain BacktestJob.

Open Scope Z_scope.

(** ** Rows and records *)

Definition record_of (id : bytes) (r : row) : JobRecord :=
  MkRecord id (r_strategy r) (Some (r_params r)) (r_universe r) (r_start r) (r_end r)
    (r_status r) (r_result r) (r_error r) (r_created r) (r_started r) (r_completed r).

Lemma mapToJobRecord_row id r : mapToJobRecord (row_map id r) = Some (record_of id r).
Proof.
  destruct r as [st pa un sd ed su rs er cr sta com].
  destruct er, sta, com; vm_compute; reflexivity.
Qed.

Lemma mapToJobRecord_record j : mapToJobRecord (jobRecordToMap j) = Some j.
Proof. destruct j as [? ? ? ? ? ? ? ? ? ? [] []]; vm_compute; reflexivity. Qed.

(** ** How an effect changes the world *)

(** A job that was claimed: on record and past pending. *)
Definition claimed (w : world) (id : bytes) (r : row) : Prop :=
  rows w !! id = Some r /\ r_status r <> Pending.

(** What two versions of a row share. *)
Definition same_spec (r r' : row) : Prop :=
  r_strategy r' = r_strategy r /\ r_params r' = r_params r /\ r_universe r' = r_universe r
  /\ r_start r' = r_start r /\ r_end r' = r_end r.

#[global] Instance same_spec_pre : PreOrder same_spec.
Proof.
  split; [by intros r; repeat split|].
  intros r1 r2 r3 (?&?&?&?&?) (?&?&?&?&?); repeat split; congruence.
Qed.

(** The effects that neither create a row, nor draw an identifier, nor call
    an engine. *)
Record quiet_effect (w w' : world) : Prop := {
  qe_used : used w' = used w;
  qe_runs : runs w' = runs w;
  qe_rows : forall id, rows w !! id = None -> rows w' !! id = None;
  qe_claimed : forall id r, claimed w id r -> exists r', claimed w' id r' /\ same_spec r r';
  qe_deleted : forall id, id ∈ deleted w' ->
    id ∈ deleted w \/ (rows w !! id <> None /\ rows w' !! id = None)
}.

Lemma quiet_refl w w' :
  used w' = used w -> runs w' = runs w -> rows w' = rows w -> deleted w' = deleted w ->
  quiet_effect w w'.
Proof.
  intros Hu Hr Ht Hd. split; [done|done| | |].
  - by rewrite Ht.
  - unfold claimed. rewrite Ht. intros id r H. exists r. split; [done|reflexivity].
  - rewrite Hd. auto.
Qed.

Lemma quiet_statement {R} (c : ctx) (f : fault) (g : table -> option (R * table)) w r w' :
  statement c f g w = (r, w') ->
  (forall x t', g (rows w) = Some (x, t') -> quiet_effect w (set_rows t' w)) ->
  quiet_effect w w'.
Proof.
  unfold statement. intros H Hg. destruct (done c w); [injection H as <- <-; by apply quiet_refl|].
  destruct f, (g (rows w)) as [[x t']|] eqn:E; injection H as <- <-;
    first [eapply Hg; done | by apply quiet_refl].
Qed.

Lemma quiet_update f id w :
  (forall r, same_spec r (f r) /\ r_status (f r) <> Pending) ->
  quiet_effect w (set_rows (update_row f id (rows w)) w).
Proof.
  intros Hf. split; simpl; [done|done| | |auto].
  - intros i Hi. unfold update_row. destruct (rows w !! id) eqn:E; [|done].
    rewrite lookup_insert_ne; [done|congruence].
  - intros i r (Hi & Hp). unfold claimed, update_row; simpl.
    destruct (rows w !! id) as [r0|] eqn:E; [|exists r; split; [done|reflexivity]].
    destruct (decide (i = id)) as [->|Hne].
    + rewrite lookup_insert_eq. simplify_eq. exists (f r). by destruct (Hf r).
    + rewrite lookup_insert_ne by done. exists r; split; [done|reflexivity].
Qed.

Lemma quiet_delete (x : ctx) (f : fault) id w r w' :
  statement x f (fun t => match DeleteBacktestJob id t with
                          | Some t' => Some (true, t') | None => Some (false, t) end) w = (r, w') ->
  quiet_effect w (mark_deleted id w w').
Proof.
  intros H.
  assert (Hcase : w' = w \/ (exists r0, rows w !! id = Some r0 /\ r_status r0 = Pending
                             /\ w' = set_rows (delete id (rows w)) w)).
  { unfold statement, DeleteBacktestJob in H.
    destruct (done x w); [injection H as <- <-; auto|].
    destruct f, (rows w !! id) as [r0|] eqn:E; try case_bool_decide;
      injection H as <- <-; auto; try (by left; destruct w); right; eauto. }
  destruct Hcase as [->|(r0 & Hr0 & Hp & ->)].
  { unfold mark_deleted. destruct (rows w !! id); by apply quiet_refl. }
  unfold mark_deleted. rewrite Hr0. simpl. rewrite lookup_delete_eq.
  split; simpl; [done|done| | |].
  - intros i Hi. by rewrite lookup_delete_None; right.
  - intros i r' (Hi & Hnp). exists r'. unfold claimed; simpl.
    rewrite lookup_delete_ne by (intros ->; congruence). split; [done|reflexivity].
  - intros i. rewrite elem_of_union, elem_of_singleton. intros [->|?]; [|auto].
    right. rewrite lookup_delete_eq. by split; [rewrite Hr0|].
Qed.

(** A quiet command. [CSpawn] is quiet in a job whose identifier satisfies
    [B]. *)
Definition quiet_cmd (B : bytes -> Prop) (c : cmd) : Prop :=
  match c with
  | CCreate _ _ | CUuid | CRun _ _ _ _ => False
  | CSpawn (TJob _ id) => B id
  | _ => True
  end.

Lemma exec_quiet pg B e c w r w' :
  quiet_cmd B c -> exec pg e c w = Some (r, w') -> quiet_effect w w'.
Proof.
  intros Hq H. destruct c; simpl in Hq; try done; cbn [exec] in H;
    try (injection H as <- <-; by apply quiet_refl);
    try (repeat case_match; simplify_eq; by apply quiet_refl);
    destruct (statement _ _ _ _) as [x s] eqn:E; injection H as <- <-;
    try (by eapply quiet_delete); (eapply quiet_statement; [exact E|]);
    intros ? ? [= <- <-]; first [by apply quiet_update | by apply quiet_refl].
Qed.

(** Only [CSpawn] starts a goroutine. *)
Lemma exec_spawned pg B e c w r w' x id :
  quiet_cmd B c -> exec pg e c w = Some (r, w') ->
  TJob x id ∈ spawned w' -> TJob x id ∈ spawned w \/ B id.
Proof.
  assert (Hst : forall R y f (g : table -> option (R * table)) z w0,
            statement y f g w = (z, w0) -> spawned w0 = spawned w).
  { unfold statement. intros. repeat case_match; simplify_eq; done. }
  intros Hq H Hin. destruct c; simpl in Hq; try done; cbn [exec] in H;
    try (injection H as <- <-; left; exact Hin);
    try (repeat case_match; simplify_eq; left; exact Hin).
  all: try (destruct (statement _ _ _ _) as [y s] eqn:E; injection H as <- <-;
            apply Hst in E; left; try (unfold mark_deleted in Hin; repeat case_match);
            simpl in Hin; by rewrite E in Hin).
  injection H as <- <-. simpl in Hin.
  apply elem_of_app in Hin as [Hin|Hin%list_elem_of_singleton]; [by left|]. subst t. by right.
Qed.

(** ** The pool invariant *)

Fixpoint quiet (B : bytes -> Prop) {A} (p : prog A) : Prop :=
  match p with
  | Vis c k => quiet_cmd B c /\ forall r, quiet B (k r)
  | _ => True
  end.

Lemma quiet_bind (B : bytes -> Prop) {A A'} (p : prog A) (f : A -> prog A') :
  quiet B p -> (forall a, quiet B (f a)) -> quiet B (bind p f).
Proof. induction p as [| |c k IH]; simpl; [auto|auto|]. intros [? Hk]; split; auto. Qed.

Lemma quiet_mono (B B' : bytes -> Prop) {A} (p : prog A) :
  (forall id, B id -> B' id) -> quiet B p -> quiet B' p.
Proof.
  intros HB. induction p as [| |c k IH]; simpl; [done|done|].
  intros [Hc Hk]; split; [|auto]. destruct c; try done. destruct t; simpl in *; auto.
Qed.

(** A program that may still create the row of [id], once. *)
Fixpoint creates (B : bytes -> Prop) (id : bytes) {A} (p : prog A) : Prop :=
  match p with
  | Vis (CCreate _ m) k =>
      get_string m "id" = Some id /\ forall r, quiet (fun i => B i \/ i = id) (k r)
  | Vis CNow k => forall t, creates B id (k t)
  | Vis _ _ => False
  | _ => True
  end.

(** The request a row specifies and the runner it is routed to. *)
Definition routed (reg : EngineRegistry) (id : bytes) (r : row) (runner : nat)
    (req : BacktestRequest.t) : Prop :=
  exists kernel engineParams,
    read_routing (unmarshal_params (Some (r_params r))) = Ok (kernel, engineParams)
    /\ req = job_request (record_of id r) kernel engineParams (unmarshal_params (Some (r_params r)))
    /\ Resolve (EffectiveKernel req) reg = Ok runner.

Lemma routed_spec reg id r r' runner req :
  same_spec r r' -> routed reg id r runner req -> routed reg id r' runner req.
Proof.
  intros (H1 & H2 & H3 & H4 & H5) (k & ep & Hr & Hq & Hv). exists k, ep.
  rewrite H2. split; [done|]. split; [|done].
  rewrite Hq. unfold job_request, record_of; simpl. by rewrite H1, H3, H4, H5.
Qed.

(** Where a goroutine stands. *)
Inductive phase :=
| DQuiet
| DDraw
| DCreate (id : bytes)
| DStart (id : bytes)
| DLoad (id : bytes)
| DRun (id : bytes).

Definition tmatch (reg : EngineRegistry) (w : world) (B : bytes -> Prop) (d : phase) (p : prog unit)
    : Prop :=
  match d with
  | DQuiet => quiet B p
  | DDraw => exists k, p = Vis CUuid k /\ forall id, creates B id (k id)
  | DCreate id => creates B id p
  | DStart id => B id /\ exists c, p = job_goroutine reg c id
  | DLoad id => B id /\ (exists c, p = (load_and_run reg c id ;; deferred c)%job)
                /\ (forall r, rows w !! id = Some r -> r_status r <> Pending)
  | DRun id => exists c runner req k, p = Vis (CRun c id runner req) k
                /\ (forall a, quiet B (k a))
                /\ exists r, claimed w id r /\ routed reg id r runner req
  end.

Definition born (w : world) (ds : list phase) (id : bytes) : Prop :=
  id ∈ used w /\ forall j, ds !! j <> Some (DCreate id).

Record inv (reg : EngineRegistry) (w : world) (ds : list phase) (ts : list (prog unit)) : Prop := {
  i_match : Forall2 (tmatch reg w (born w ds)) ds ts;
  i_uniq : forall i j id, ds !! i = Some (DCreate id) -> ds !! j = Some (DCreate id) -> i = j;
  i_create : forall i id, ds !! i = Some (DCreate id) ->
    id ∈ used w /\ length id = 36%nat /\ rows w !! id = None /\ id ∉ deleted w;
  i_spawn : forall c id, TJob c id ∈ spawned w -> born w ds id;
  i_runs : forall id runner req, (id, runner, req) ∈ runs w ->
    exists r, claimed w id r /\ routed reg id r runner req;
  i_deleted : forall id, id ∈ deleted w -> id ∈ used w /\ rows w !! id = None;
  i_rows : forall id r, rows w !! id = Some r -> id ∈ used w
}.

Lemma creates_mono (B B' : bytes -> Prop) id {A} (p : prog A) :
  (forall i, B i -> B' i) -> creates B id p -> creates B' id p.
Proof.
  intros HB. induction p as [| |c k IH]; simpl; [done|done|].
  destruct c; try done.
  - intros [? Hk]; split; [done|]. intros r. eapply quiet_mono; [|apply Hk]. naive_solver.
  - eauto.
Qed.

Lemma tmatch_mono reg w w' (B B' : bytes -> Prop) d p :
  (forall id, B id -> B' id) ->
  (forall id r, claimed w id r -> exists r', claimed w' id r' /\ same_spec r r') ->
  (forall id, B id -> rows w !! id = None -> rows w' !! id = None) ->
  tmatch reg w B d p -> tmatch reg w' B' d p.
Proof.
  intros HB Hcl Habs. destruct d; simpl.
  - by apply quiet_mono.
  - intros (k & -> & Hk). exists k. split; [done|]. intros i. eapply creates_mono; eauto.
  - by apply creates_mono.
  - intros [? ?]; auto.
  - intros (Hb & Hc & Hp). split; [auto|]. split; [done|]. intros r Hr.
    destruct (rows w !! id) as [r0|] eqn:E; [|rewrite Habs in Hr; done].
    destruct (Hcl id r0) as (r' & [Hr' ?] & _); [by split; [|apply Hp]|]. congruence.
  - intros (c & runner & req & k & -> & Hk & r & Hr & Hrt).
    destruct (Hcl _ _ Hr) as (r' & ? & Hs). exists c, runner, req, k.
    split; [done|]. split; [intros a; eapply quiet_mono; eauto|].
    exists r'. split; [done|]. eapply routed_spec; eauto.
Qed.

(** A step of goroutine [i]: what it must preserve. *)
Lemma inv_step reg w ds ts w' i d p d' p' :
  inv reg w ds ts -> ds !! i = Some d -> ts !! i = Some p ->
  let ds' := <[i := d']> ds in
  used w ⊆ used w' ->
  (forall id r, claimed w id r -> exists r', claimed w' id r' /\ same_spec r r') ->
  (forall id, born w ds id -> rows w !! id = None -> rows w' !! id = None) ->
  (forall id j, j <> i -> ds !! j = Some (DCreate id) ->
     rows w' !! id = None /\ id ∉ deleted w') ->
  (forall id, d' = DCreate id ->
     (d = DCreate id \/ id ∉ used w) /\ id ∈ used w' /\ length id = 36%nat
     /\ rows w' !! id = None /\ id ∉ deleted w') ->
  (forall c id, TJob c id ∈ spawned w' -> TJob c id ∈ spawned w \/ born w' ds' id) ->
  (forall x, x ∈ runs w' -> x ∈ runs w
     \/ exists r, claimed w' x.1.1 r /\ routed reg x.1.1 r x.1.2 x.2) ->
  (forall id, id ∈ deleted w' -> id ∈ used w' /\ rows w' !! id = None) ->
  (forall id r, rows w' !! id = Some r -> id ∈ used w') ->
  tmatch reg w' (born w' ds') d' p' ->
  inv reg w' ds' (<[i := p']> ts).
Proof.
  intros Hinv Hd Hp ds' Hused Hcl Habs Hcr Hd' Hsp Hruns Hdel Hrows Hm.
  assert (Hborn : forall id, born w ds id -> born w' ds' id).
  { intros id [Hu Hno]. split; [set_solver|]. intros j Hj. subst ds'.
    apply list_lookup_insert_Some in Hj as [(<- & -> & _)|(_ & Hj)]; [|by eapply Hno].
    destruct (Hd' id eq_refl) as [[->|?] _]; [by eapply Hno|done]. }
  split.
  - apply Forall2_insert; [|exact Hm]. eapply Forall2_impl; [apply Hinv|].
    intros d0 p0. by apply tmatch_mono.
  - assert (Hone : forall j id, d' = DCreate id -> j <> i -> ds !! j = Some (DCreate id) -> False).
    { intros j id -> Hne Hj. destruct (Hd' id eq_refl) as [[->|Hn] _].
      - by apply Hne; eapply (i_uniq _ _ _ _ Hinv).
      - by destruct (i_create _ _ _ _ Hinv _ _ Hj). }
    intros j k id Hj Hk. subst ds'.
    apply list_lookup_insert_Some in Hj as [(-> & Ej & _)|(Hne & Hj)];
      apply list_lookup_insert_Some in Hk as [(-> & Ek & _)|(Hne' & Hk)].
    + done.
    + by destruct (Hone k id).
    + by destruct (Hone j id).
    + by eapply (i_uniq _ _ _ _ Hinv).
  - intros j id Hj. subst ds'.
    apply list_lookup_insert_Some in Hj as [(<- & -> & _)|(Hne & Hj)].
    + by destruct (Hd' id eq_refl) as (_ & ?).
    + destruct (i_create _ _ _ _ Hinv _ _ Hj) as (? & ? & _). destruct (Hcr id j) as [? ?]; [done|done|].
      split; [set_solver|done].
  - intros c id Hin. destruct (Hsp c id Hin) as [H|H]; [|done]. by eapply Hborn, i_spawn.
  - intros id runner req Hin. destruct (Hruns _ Hin) as [H|H]; [|done].
    destruct (i_runs _ _ _ _ Hinv _ _ _ H) as (r & Hr & Hrt).
    destruct (Hcl _ _ Hr) as (r' & ? & ?). exists r'. split; [done|]. by eapply routed_spec.
  - done.
  - done.
Qed.

(** The step of a goroutine whose effect is quiet. *)
Lemma inv_quiet_step pg reg w ds ts i d c k e r w' d' :
  inv reg w ds ts -> ds !! i = Some d -> ts !! i = Some (Vis c k) ->
  (forall id, d <> DCreate id) -> (forall id, d' <> DCreate id) ->
  quiet_cmd (born w ds) c -> exec pg e c w = Some (r, w') ->
  (forall B : bytes -> Prop, (forall id, born w ds id -> B id) -> tmatch reg w' B d' (k r)) ->
  inv reg w' (<[i := d']> ds) (<[i := k r]> ts).
Proof.
  intros Hinv Hd Hp Hnc Hnc' Hq He Hm.
  pose proof (exec_quiet _ _ _ _ _ _ _ Hq He) as [Hu Hr Hrows Hcl Hdel].
  assert (Hborn : forall id, born w ds id -> born w' (<[i := d']> ds) id).
  { intros id [Hin Hno]. split; [by rewrite Hu|]. intros j Hj.
    apply list_lookup_insert_Some in Hj as [(_ & -> & _)|(_ & Hj)]; [by eapply Hnc'|by eapply Hno]. }
  eapply inv_step; [done|done|done|by rewrite Hu|exact Hcl|auto| | | | | | |by apply Hm].
  - intros id j _ Hj. destruct (i_create _ _ _ _ Hinv _ _ Hj) as (_ & _ & Hn & Hd0).
    split; [auto|]. intros H. destruct (Hdel _ H) as [|[]]; done.
  - intros id ->. by destruct (Hnc' id).
  - intros x id Hin. destruct (exec_spawned _ _ _ _ _ _ _ _ _ Hq He Hin); auto.
  - intros x Hx. left. by rewrite <- Hr.
  - intros id H. rewrite Hu. destruct (Hdel _ H) as [H0|[H0 H1]].
    + destruct (i_deleted _ _ _ _ Hinv _ H0). auto.
    + destruct (rows w !! id) as [r0|] eqn:E; [|done].
      split; [by eapply i_rows|done].
  - intros id r0 Hr0. rewrite Hu. destruct (rows w !! id) as [r1|] eqn:E; [by eapply i_rows|].
    rewrite Hrows in Hr0; done.
Qed.

(** The quiet programs. *)
Create HintDb quiet.

Ltac quiet_prog :=
  repeat first
    [ progress simpl
    | match goal with
      | |- _ /\ _ => split
      | |- forall _, _ => intros ?
      | |- True => exact I
      | |- quiet _ (bind _ _) => apply quiet_bind
      | |- context [match ?x with _ => _ end] => destruct x
      end ]; auto with quiet.

Lemma quiet_fail_job B c id m : quiet B (fail_job c id m).
Proof. quiet_prog. Qed.
Lemma quiet_deferred B c : quiet B (deferred c).
Proof. quiet_prog. Qed.
Lemma quiet_settle B c id a : quiet B (settle c id a).
Proof. unfold settle, fail_job. quiet_prog. Qed.
Lemma quiet_StartJob (B : bytes -> Prop) c id : B id -> quiet B (StartJob c id).
Proof. intros HB. unfold StartJob. quiet_prog. Qed.
Lemma quiet_monitor B a b : quiet B (monitor a b).
Proof. unfold monitor. quiet_prog. Qed.
Lemma quiet_cancel_all B cs : quiet B (cancel_all cs).
Proof. induction cs; simpl; auto. Qed.
Lemma quiet_cleanup_loop B c l : forall n, quiet B (cleanup_loop c l n).
Proof. induction l; intros n; simpl; [done|]. repeat case_bool_decide; [done..|]. quiet_prog. Qed.
#[export] Hint Resolve quiet_fail_job quiet_deferred quiet_settle quiet_StartJob quiet_monitor
  quiet_cancel_all quiet_cleanup_loop : quiet.

Lemma quiet_GetJob B c id : quiet B (GetJob c id).
Proof. unfold GetJob. quiet_prog. Qed.
Lemma quiet_ListJobs B c n : quiet B (ListJobs c n).
Proof. unfold ListJobs. quiet_prog. Qed.
Lemma quiet_CancelJob B c id : quiet B (CancelJob c id).
Proof. unfold CancelJob. quiet_prog. Qed.
Lemma quiet_Shutdown B c : quiet B (Shutdown c).
Proof. unfold Shutdown. quiet_prog. Qed.
Lemma quiet_Cleanup B c : quiet B (CleanupStaleRunning c).
Proof. unfold CleanupStaleRunning. quiet_prog; eauto with quiet. Qed.
#[export] Hint Resolve quiet_GetJob quiet_ListJobs quiet_CancelJob quiet_Shutdown quiet_Cleanup : quiet.

(** Every call starts quiet or by drawing its identifier. *)
Lemma service_call_match reg w B p :
  service_call p -> exists d, (forall id, d <> DCreate id) /\ tmatch reg w B d p.
Proof.
  destruct 1 as [c req|c id|c n|c id|c|c|c resp];
    try (exists DQuiet; split; [done|]; unfold tmatch; apply quiet_bind; [solve [auto with quiet]|done]).
  - exists DDraw. split; [done|]. simpl. eexists. split; [reflexivity|]. intros id.
    cbn [bind call]. destruct (marshal_params _); [|done].
    cbn [bind call creates]. intros t. split; [done|]. intros [[]|e]; [|done].
    quiet_prog.
  - exists DDraw. split; [done|]. simpl. eexists. split; [reflexivity|]. intros id.
    unfold SaveSyncResult. destruct (marshal_response _); [|done]. cbn. split; [done|].
    intros [[]|e]; simpl; [|done]. split; [done|].
    intros [[]|e]; simpl; [|done]. split; [done|]. by intros [[]|e].
Qed.

(** The insert of a fresh identifier. *)
Lemma CreateBacktestJob_row pg now m t t' id :
  get_string m "id" = Some id -> length id = 36%nat ->
  CreateBacktestJob pg now m t = Some t' ->
  t !! id = None /\ exists r, r_error r = None /\ t' = <[id := r]> t.
Proof.
  unfold CreateBacktestJob. intros Hid Hl H.
  assert (Hv : varchar 64 id = Some id).
  { unfold varchar, char_count.
    pose proof (length_filter (fun c => ~ (128 <= byteZ c < 192)) id).
    replace (length _ - 64)%nat with 0%nat by lia.
    by rewrite Nat.sub_0_r, drop_all, firstn_all. }
  rewrite Hid in H. apply bind_Some in H as (id' & Hid' & H).
  simpl in Hid'. rewrite Hv in Hid'. injection Hid' as <-.
  do 6 apply bind_Some in H as (? & _ & H).
  destruct (t !! id) eqn:E; [discriminate|]. split; [done|]. injection H as <-.
  by eexists; split; [|reflexivity].
Qed.

Lemma create_effect pg e x m w r w' id :
  get_string m "id" = Some id -> length id = 36%nat ->
  exec pg e (CCreate x m) w = Some (r, w') ->
  w' = w \/ (rows w !! id = None /\ exists r0, w' = set_rows (<[id := r0]> (rows w)) w).
Proof.
  intros Hid Hl H. cbn [exec] in H. injection H as H. unfold statement in H.
  destruct (done x w); [injection H as <- <-; auto|].
  destruct (CreateBacktestJob pg (in_now e) m (rows w)) as [t'|] eqn:E; simpl in H.
  - destruct (CreateBacktestJob_row _ _ _ _ _ _ Hid Hl E) as (Hn & r0 & _ & ->).
    destruct (in_fault e); injection H as <- <-; eauto.
  - destruct (in_fault e); injection H as <- <-; auto.
Qed.

Lemma inv_phase reg w ds ts i p :
  inv reg w ds ts -> ts !! i = Some p ->
  exists d, ds !! i = Some d /\ tmatch reg w (born w ds) d p.
Proof. intros Hinv Hp. by eapply Forall2_lookup_r; [apply Hinv|]. Qed.

(** A claimed row keeps its specification when another is inserted. *)
Lemma claimed_insert w id r0 i r :
  rows w !! id = None -> claimed w i r ->
  claimed (set_rows (<[id := r0]> (rows w)) w) i r.
Proof.
  intros Hn [Hi Hp]. split; [|done]. simpl. rewrite lookup_insert_ne; [done|congruence].
Qed.

Lemma step_create pg reg w ds ts i id c k e r w' :
  inv reg w ds ts -> ds !! i = Some (DCreate id) -> ts !! i = Some (Vis c k) ->
  creates (born w ds) id (Vis c k) -> exec pg e c w = Some (r, w') ->
  exists d', inv reg w' (<[i := d']> ds) (<[i := k r]> ts).
Proof.
  intros Hinv Hd Hp Hc He. destruct (i_create _ _ _ _ Hinv _ _ Hd) as (Hu & Hl & Hn & Hnd).
  destruct c as [x m| | | | | | | | | | | | | | | | | | | | | |]; simpl in Hc; try done.
  - destruct Hc as [Hid Hk]. exists DQuiet.
    assert (Hborn : forall j, born w ds j \/ j = id -> born w (<[i := DQuiet]> ds) j).
    { intros j Hj. split; [destruct Hj as [[]| ->]; done|]. intros q Hq.
      apply list_lookup_insert_Some in Hq as [(_ & [=] & _)|(Hne & Hq)].
      destruct Hj as [[_ Hno]| ->]; [by eapply Hno|]. by apply Hne; eapply (i_uniq _ _ _ _ Hinv). }
    assert (Hq : quiet (born w (<[i := DQuiet]> ds)) (k r)) by (eapply quiet_mono; [exact Hborn|apply Hk]).
    destruct (create_effect _ _ _ _ _ _ _ _ Hid Hl He) as [->|(_ & r0 & ->)].
    + eapply inv_step; [done|done|done|done| |auto| |done|auto|auto| | |exact Hq].
      * intros j r1 H. exists r1. split; [done|reflexivity].
      * intros j q _ Hj. by destruct (i_create _ _ _ _ Hinv _ _ Hj) as (_ & _ & ? & ?).
      * apply Hinv.
      * apply Hinv.
    + eapply inv_step; [done|done|done|done| | | |done|auto|auto| | |exact Hq]; simpl.
      * intros j r1 H. exists r1. split; [by apply claimed_insert|reflexivity].
      * intros j [_ Hno] Hj. rewrite lookup_insert_ne; [done|]. intros ->. by eapply Hno.
      * intros j q Hq' Hj. destruct (i_create _ _ _ _ Hinv _ _ Hj) as (_ & _ & ? & ?).
        split; [|done]. rewrite lookup_insert_ne; [done|]. intros ->.
        by apply Hq'; eapply (i_uniq _ _ _ _ Hinv).
      * intros j Hj. destruct (i_deleted _ _ _ _ Hinv _ Hj). split; [done|].
        rewrite lookup_insert_ne; [done|]. by intros ->.
      * intros j r1. destruct (decide (j = id)) as [->|]; [done|].
        rewrite lookup_insert_ne by done. apply Hinv.
  - injection He as <- <-. exists (DCreate id).
    eapply inv_step; [done|done|done|done| |auto| | |auto|auto| | |].
    + intros j r1 H. exists r1. split; [done|reflexivity].
    + intros j q _ Hj. by destruct (i_create _ _ _ _ Hinv _ _ Hj) as (_ & _ & ? & ?).
    + intros j [= <-]. auto.
    + apply Hinv.
    + apply Hinv.
    + simpl. eapply creates_mono; [|apply Hc]. intros j.
      by rewrite (list_insert_id ds i (DCreate id)).
Qed.

Lemma step_draw pg reg w ds ts i k e (r : bytes) w' :
  inv reg w ds ts -> ds !! i = Some DDraw -> ts !! i = Some (Vis CUuid k) ->
  (forall id, creates (born w ds) id (k id)) -> exec pg e CUuid w = Some (r, w') ->
  inv reg w' (<[i := DCreate r]> ds) (<[i := k r]> ts).
Proof.
  intros Hinv Hd Hp Hc He. cbn [exec] in He. case_decide as Hf; [|done].
  injection He as <- <-. destruct Hf as [Hf Hl].
  assert (Hn : rows w !! in_uuid e = None).
  { destruct (rows w !! in_uuid e) eqn:E; [|done]. by destruct Hf; eapply i_rows. }
  assert (Hnd : in_uuid e ∉ deleted w).
  { intros H. by destruct (i_deleted _ _ _ _ Hinv _ H). }
  eapply inv_step; [done|done|done|set_solver| |auto| | |auto|auto| | |]; simpl.
  - intros j r1 H. exists r1. split; [done|reflexivity].
  - intros j q _ Hj. by destruct (i_create _ _ _ _ Hinv _ _ Hj) as (_ & _ & ? & ?).
  - intros j [= <-]. set_solver.
  - intros j Hj. destruct (i_deleted _ _ _ _ Hinv _ Hj). set_solver.
  - intros j r1 Hj. apply (i_rows _ _ _ _ Hinv) in Hj. set_solver.
  - eapply creates_mono; [|apply Hc]. intros j [Hu Hno]. split; simpl; [set_solver|].
    intros q Hq. apply list_lookup_insert_Some in Hq as [(_ & [=<-] & _)|(_ & Hq)]; [done|].
    by eapply Hno.
Qed.

Lemma step_engine pg reg w ds ts i id c runner req k e r w' :
  inv reg w ds ts -> ds !! i = Some (DRun id) -> ts !! i = Some (Vis (CRun c id runner req) k) ->
  (forall a, quiet (born w ds) (k a)) ->
  (exists r0, claimed w id r0 /\ routed reg id r0 runner req) ->
  exec pg e (CRun c id runner req) w = Some (r, w') ->
  inv reg w' (<[i := DQuiet]> ds) (<[i := k r]> ts).
Proof.
  intros Hinv Hd Hp Hq (r0 & Hr0 & Hrt) He. cbn [exec] in He. injection He as <- <-.
  eapply inv_step; [done|done|done|done| |auto| |done|auto| | | |]; simpl.
  - intros j r1 H. exists r1. split; [done|reflexivity].
  - intros j q _ Hj. by destruct (i_create _ _ _ _ Hinv _ _ Hj) as (_ & _ & ? & ?).
  - intros x [?| ->%list_elem_of_singleton]%elem_of_app; [auto|]. right. by exists r0.
  - apply Hinv.
  - apply Hinv.
  - eapply quiet_mono; [|apply Hq]. intros j [Hu Hno]. split; [done|]. intros q Hq'.
    apply list_lookup_insert_Some in Hq' as [(_ & [=] & _)|(_ & Hq')]. by eapply Hno.
Qed.

(** After the claim the row, if there is one, is running. *)
Lemma started_effect pg e c id w w' :
  exec pg e (CStarted c id) w = Some (Ok tt, w') ->
  forall r, rows w' !! id = Some r -> r_status r = Running.
Proof.
  cbn [exec]. intros [= H]. unfold statement in H. destruct (done c w); [done|].
  destruct (in_fault e); try done. injection H as <-. intros r. simpl.
  unfold UpdateJobStarted, update_row. destruct (rows w !! id) eqn:E; [|congruence].
  rewrite lookup_insert_eq. by intros [= <-].
Qed.

Lemma step_start pg reg w ds ts i id c e p' w' :
  inv reg w ds ts -> ds !! i = Some (DStart id) -> ts !! i = Some (job_goroutine reg c id) ->
  born w ds id -> prog_step pg e (job_goroutine reg c id) w = Some (p', w') ->
  exists d', inv reg w' (<[i := d']> ds) (<[i := p']> ts).
Proof.
  intros Hinv Hd Hp Hb. unfold job_goroutine, job_body in *. cbn [bind call prog_step] in *.
  destruct (exec pg e (CStarted c id) w) as [[r w1]|] eqn:E; [|done]. intros [= <- <-].
  destruct r as [[]|x].
  - exists (DLoad id).
    refine (inv_quiet_step pg reg w ds ts i _ (CStarted c id) _ e (Ok tt) w1 _ Hinv Hd Hp _ _ _ E _); [done..|].
    intros B HB. split; [auto|]. split; [by eexists|].
    intros r Hr. by rewrite (started_effect _ _ _ _ _ _ E _ Hr).
  - exists DQuiet.
    refine (inv_quiet_step pg reg w ds ts i _ (CStarted c id) _ e (Err x) w1 _ Hinv Hd Hp _ _ _ E _); [done..|].
    intros B HB. unfold tmatch. apply quiet_bind; auto with quiet.
Qed.

(** What loading the record answers. *)
Lemma get_effect pg e c id w m w' :
  exec pg e (CGet c id) w = Some (Ok (Some m), w') ->
  w' = w /\ exists r, rows w !! id = Some r /\ m = row_map id r.
Proof.
  cbn [exec]. intros [= H]. unfold statement, GetBacktestJob in H. destruct (done c w); [done|].
  destruct (in_fault e); try done. injection H as Hm <-. split; [by destruct w|].
  destruct (rows w !! id) as [r|]; simplify_eq/=; eauto.
Qed.

Lemma step_load pg reg w ds ts i id c e p' w' :
  inv reg w ds ts -> ds !! i = Some (DLoad id) ->
  ts !! i = Some (load_and_run reg c id ;; deferred c)%job ->
  (forall r, rows w !! id = Some r -> r_status r <> Pending) ->
  prog_step pg e (load_and_run reg c id ;; deferred c)%job w = Some (p', w') ->
  exists d', inv reg w' (<[i := d']> ds) (<[i := p']> ts).
Proof.
  intros Hinv Hd Hp Hst. unfold load_and_run in *. cbn [bind call prog_step] in *.
  destruct (exec pg e (CGet c id) w) as [[r w1]|] eqn:E; [|done]. intros [= <- <-].
  assert (Hq : forall r0, exec pg e (CGet c id) w = Some (r0, w1) -> forall d',
            (forall j, d' <> DCreate j) -> _) by
    exact (fun r0 E0 d' Hnc => inv_quiet_step pg reg w ds ts i _ (CGet c id) _ e r0 w1 d' Hinv Hd Hp
             ltac:(done) Hnc ltac:(done) E0).
  destruct r as [[m|]|x]; [|exists DQuiet..]; cycle 1.
  1,2: apply (Hq _ E DQuiet); [done|];
    intros B HB; unfold tmatch; apply quiet_bind; auto with quiet.
  pose proof (get_effect _ _ _ _ _ _ _ E) as (-> & r & Hr & ->).
  enough (exists d', (forall j, d' <> DCreate j) /\
            forall B : bytes -> Prop, (forall j, born w ds j -> B j) ->
              tmatch reg w B d'
                (match mapToJobRecord (row_map id r) with
                 | Some record => route_and_run reg c id record | None => Panic
                 end ;; deferred c)%job) as (d' & Hnc & Hm).
  { exists d'. exact (Hq _ E d' Hnc Hm). }
  rewrite mapToJobRecord_row. unfold route_and_run, failMalformedReservedKey. cbn [Params record_of].
  destruct (read_routing (unmarshal_params (Some (r_params r)))) as [[kernel ep]|key] eqn:Hrd.
  2: { exists DQuiet. split; [done|]. intros B _. unfold tmatch. apply quiet_bind; auto with quiet. }
  destruct (Resolve _ reg) as [runner|x] eqn:Hrs.
  2: { exists DQuiet. split; [done|]. intros B _. unfold tmatch. apply quiet_bind; auto with quiet. }
  exists (DRun id). split; [done|]. intros B _. do 4 eexists. split; [reflexivity|].
  split; [intros a; apply quiet_bind; auto with quiet|].
  exists r. split; [by split; [|apply Hst]|]. by exists kernel, ep.
Qed.

(** Adding a goroutine that is not about to create a row. *)
Lemma inv_add reg w ds ts d p :
  inv reg w ds ts -> (forall id, d <> DCreate id) -> tmatch reg w (born w ds) d p ->
  inv reg w (ds ++ [d]) (ts ++ [p]).
Proof.
  intros Hinv Hd Hm.
  assert (Hl : forall j id, (ds ++ [d]) !! j = Some (DCreate id) <-> ds !! j = Some (DCreate id)).
  { intros j id. rewrite lookup_app. destruct (ds !! j) eqn:E; [done|].
    split; [|done]. intros H%list_lookup_singleton_Some. by destruct H as [_ ?%Hd]. }
  assert (Hb : forall id, born w ds id -> born w (ds ++ [d]) id).
  { intros id [? Hno]. split; [done|]. intros j. rewrite Hl. apply Hno. }
  destruct Hinv as [Hma Hun Hcr Hsp Hru Hde Hro]. split; [|..|done|done|done].
  - apply Forall2_app; [|repeat constructor].
    + eapply Forall2_impl; [exact Hma|]. intros ? ?. apply tmatch_mono; [done| |done].
      intros j r1 H. exists r1. split; [done|reflexivity].
    + eapply tmatch_mono; [exact Hb| |done|exact Hm].
      intros j r1 H. exists r1. split; [done|reflexivity].
  - intros i j id. rewrite !Hl. apply Hun.
  - intros i id. rewrite Hl. apply Hcr.
  - intros c id H. by eapply Hb, Hsp.
Qed.

(** The same invariant in a world that differs in its contexts and in fewer
    goroutines waiting to start. *)
Lemma inv_frame reg w w' ds ts :
  inv reg w ds ts -> rows w' = rows w -> used w' = used w -> runs w' = runs w ->
  deleted w' = deleted w -> (forall t, t ∈ spawned w' -> t ∈ spawned w) -> inv reg w' ds ts.
Proof.
  intros [Hma Hun Hcr Hsp Hru Hde Hro] Ht Hu Hr Hd Hs.
  assert (Hb : forall id, born w ds id -> born w' ds id) by (unfold born; by rewrite Hu).
  split; unfold claimed in *; rewrite ?Ht, ?Hu, ?Hr, ?Hd; eauto.
  eapply Forall2_impl; [exact Hma|]. intros ? ?. apply tmatch_mono; [done| |].
  - unfold claimed. rewrite Ht. intros j r1 H. exists r1. split; [done|reflexivity].
  - by rewrite Ht.
Qed.

Lemma pool_inv_step pg reg w ts w' ts' ds :
  inv reg w ds ts -> pool_step pg reg (w, ts) (w', ts') -> exists ds', inv reg w' ds' ts'.
Proof.
  intros Hinv Hs.
  inversion Hs as [w0 ts0 i p e p' w1 Hp Hst|w0 ts0 p Hc|w0 ts0 t l Hsp|w0 ts0 c Hc]; subst.
  - destruct (inv_phase _ _ _ _ _ _ Hinv Hp) as (d & Hd & Hm). destruct d; simpl in Hm.
    + destruct p as [a| |c k]; try discriminate. simpl in Hst.
      destruct (exec pg e c w) as [[r w1]|] eqn:E; [|done]. injection Hst as <- <-.
      destruct Hm as [Hq Hk]. exists (<[i := DQuiet]> ds).
      eapply inv_quiet_step; [done|done|exact Hp|done|done|done|exact E|].
      intros B HB. simpl. by eapply quiet_mono.
    + destruct Hm as (k & -> & Hk). cbn [prog_step] in Hst.
      destruct (exec pg e CUuid w) as [[r w1]|] eqn:E; [|done]. injection Hst as <- <-.
      eexists. by eapply step_draw.
    + destruct p as [a| |c k]; try discriminate. cbn [prog_step] in Hst.
      destruct (exec pg e c w) as [[r w1]|] eqn:E; [|done]. injection Hst as <- <-.
      destruct (step_create _ _ _ _ _ _ _ _ _ _ _ _ Hinv Hd Hp Hm E). eauto.
    + destruct Hm as (Hb & c & ->).
      destruct (step_start _ _ _ _ _ _ _ _ _ _ _ Hinv Hd Hp Hb Hst). eauto.
    + destruct Hm as (Hb & (c & ->) & Hr).
      destruct (step_load _ _ _ _ _ _ _ _ _ _ _ Hinv Hd Hp Hr Hst). eauto.
    + destruct Hm as (c & runner & req & k & -> & Hk & Hr). cbn [prog_step] in Hst.
      destruct (exec pg e _ w) as [[r w1]|] eqn:E; [|done]. injection Hst as <- <-.
      eexists. by eapply step_engine.
  - destruct (service_call_match reg w' (born w' ds) p Hc) as (d & Hd & Hm).
    exists (ds ++ [d]). by apply inv_add.
  - assert (Hinv' : inv reg (set_spawned l w) ds ts).
    { eapply inv_frame; [done..|]. simpl. rewrite Hsp. set_solver. }
    destruct t as [a b|c id].
    + exists (ds ++ [DQuiet]). apply inv_add; [done|done|]. apply quiet_monitor.
    + exists (ds ++ [DStart id]). apply inv_add; [done|done|]. simpl.
      split; [|by eexists]. apply (i_spawn _ _ _ _ Hinv c). rewrite Hsp. set_solver.
  - exists ds. by eapply inv_frame.
Qed.

(** A service that starts: the rows it finds, no goroutine and no call yet. *)
Definition fresh_service (w : world) : Prop :=
  spawned w = [] /\ runs w = [] /\ deleted w = ∅ /\ forall id r, rows w !! id = Some r -> id ∈ used w.

Lemma pool_inv pg reg w s : fresh_service w -> reachable pg reg (w, []) s ->
  exists ds, inv reg s.1 ds s.2.
Proof.
  intros (Hs & Hr & Hd & Hu) H. induction H as [|s1 [w2 ts2] _ (ds & IH) Hst].
  - exists []. split; simpl; rewrite ?Hs, ?Hr, ?Hd; set_solver.
  - destruct s1 as [w1 ts1]. by eapply pool_inv_step.
Qed.

(** C8. Only jobs that are still on record run, each on the kernel it names.
    In every interleaving of creations, cancellations, queries, shutdowns,
    repairs and synchronous saves, with goroutines taking one effect at a
    time, statements failing before or after they took effect and contexts
    cancelled at any moment: for every engine call made so far, the job was
    not and is not deleted (so a job whose cancellation deleted it as pending
    never runs), its row is on record and past pending, the request is the one
    the row specifies, and the engine called is the one registered under that
    request's effective kernel. *)
Theorem only_live_jobs_run pg reg w w' ts id runner req :
  fresh_service w -> reachable pg reg (w, []) (w', ts) -> (id, runner, req) ∈ runs w' ->
  id ∉ deleted w'
  /\ exists r, rows w' !! id = Some r /\ r_status r <> Pending /\ routed reg id r runner req.
Proof.
  intros Hf Hr Hin. destruct (pool_inv _ _ _ _ Hf Hr) as (ds & Hinv). simpl in Hinv.
  destruct (i_runs _ _ _ _ Hinv _ _ _ Hin) as (r & [Hrow Hp] & Hrt). split; [|eauto].
  intros Hd. destruct (i_deleted _ _ _ _ Hinv _ Hd). congruence.
Qed.

(** ** Fault-free runs *)

Definition faultless (e : input) : Prop := in_fault e = NoFault.

Lemma statement_ok {R} (c : ctx) (e : input) (f : table -> option (R * table)) w x t :
  done c w = false -> faultless e -> f (rows w) = Some (x, t) ->
  statement c (in_fault e) f w = (Ok x, set_rows t w).
Proof. unfold statement. intros -> -> ->. done. Qed.

Lemma statement_done {R} (c : ctx) (f : fault) (g : table -> option (R * table)) w :
  done c w = true -> statement c f g w = (Err DBCanceled, w).
Proof. unfold statement. by intros ->. Qed.

Lemma done_set_rows c t w : done c (set_rows t w) = done c w.
Proof. done. Qed.

(** Runs compose. *)
Lemma run_bind {A B} pg es (p : prog A) (f : A -> prog B) w :
  run pg es (bind p f) w =
  match run pg es p w with Some (a, es', w') => run pg es' (f a) w' | None => None end.
Proof.
  revert es w. induction p as [a| |c k IH]; intros es w; simpl; [done|done|].
  destruct es as [|e es]; [done|]. destruct (exec pg e c w) as [[r w']|]; [apply IH|done].
Qed.

(** What a job on record comes to, given the engine's answer. *)
Definition verdict (reg : EngineRegistry) (id : bytes) (r : row) (answer : res bytes BacktestResponse.t)
    : res job_msg BacktestResponse.t :=
  let m := unmarshal_params (Some (r_params r)) in
  match read_routing m with
  | Err key => Err (MMalformedKey (lit key))
  | Ok (kernel, ep) =>
      match Resolve (EffectiveKernel (job_request (record_of id r) kernel ep m)) reg with
      | Err e => Err e
      | Ok _ =>
          match answer with
          | Err err => Err (MEngine err)
          | Ok result =>
              match BacktestResponse.InvalidReasons result with
              | [] => match marshal_response result with
                      | Some doc => Ok doc
                      | None => Err MMarshalResult
                      end
              | codes => Err (MInvalidRun codes)
              end
          end
      end
  end.

(** The row a settled job ends in. *)
Definition settled_row (now : Time) (v : res job_msg BacktestResponse.t) (r : row) : row :=
  match v with Ok doc => completed_row now doc r | Err m => failed_row now m r end.

Lemma run_fail_job pg e1 e2 es c id m w r :
  done c w = false -> faultless e1 -> rows w !! id = Some r ->
  run pg (e1 :: e2 :: es) (fail_job c id m) w =
  Some (tt, es, set_cancelFuncs (delete id (cancelFuncs w))
                  (set_rows (<[id := failed_row (in_now e1) m r]> (rows w)) w)).
Proof.
  intros Hc Hf Hr. unfold fail_job. cbn [bind call run exec].
  rewrite (statement_ok c e1 _ _ tt (<[id := failed_row (in_now e1) m r]> (rows w))); [done|done|done|].
  unfold UpdateJobFailed, update_row. by rewrite Hr.
Qed.

Lemma run_deferred pg e1 e2 es c w :
  run pg (e1 :: e2 :: es) (deferred c) w =
  Some (tt, es, set_inflight (inflight w - 1) (set_cancelled ({[c]} ∪ cancelled w) w)).
Proof. done. Qed.

(** The end of a goroutine: one write of the job's row, then the clean-up. *)
Definition finished (c : ctx) (id : bytes) (now : Time) (v : res job_msg BacktestResponse.t)
    (r : row) (w w' : world) : Prop :=
  rows w' = <[id := settled_row now v r]> (rows w)
  /\ cancelFuncs w' = delete id (cancelFuncs w)
  /\ done c w' = true /\ inflight w' = inflight w - 1.

Lemma fail_finishes pg e1 e2 e3 e4 es c id m w r :
  done c w = false -> faultless e1 -> rows w !! id = Some r ->
  exists w', run pg (e1 :: e2 :: e3 :: e4 :: es) (fail_job c id m ;; deferred c)%job w
             = Some (tt, es, w')
             /\ finished c id (in_now e1) (Err m) r w w'.
Proof.
  intros Hc Hf Hr. rewrite run_bind, (run_fail_job _ _ _ _ _ _ _ _ r) by done.
  rewrite run_deferred. eexists. split; [reflexivity|].
  repeat split; simpl. apply bool_decide_eq_true. set_solver.
Qed.

Lemma settle_finishes pg e1 e2 e3 e4 es c id a w r :
  done c w = false -> faultless e1 -> rows w !! id = Some r ->
  exists w' v, run pg (e1 :: e2 :: e3 :: e4 :: es) (settle c id a ;; deferred c)%job w
             = Some (tt, es, w')
             /\ finished c id (in_now e1) v r w w'
             /\ v = match a with
                    | Err err => Err (MEngine err)
                    | Ok result =>
                        match BacktestResponse.InvalidReasons result with
                        | [] => match marshal_response result with
                                | Some doc => Ok doc
                                | None => Err MMarshalResult
                                end
                        | codes => Err (MInvalidRun codes)
                        end
                    end.
Proof.
  intros Hc Hf Hr. unfold settle.
  assert (Hfail : forall m, exists w' v,
            run pg (e1 :: e2 :: e3 :: e4 :: es) (fail_job c id m ;; deferred c)%job w = Some (tt, es, w')
            /\ finished c id (in_now e1) v r w w' /\ v = Err m).
  { intros m. destruct (fail_finishes pg e1 e2 e3 e4 es c id m w r Hc Hf Hr) as (w' & ? & ?). eauto. }
  destruct a as [result|err]; [|apply Hfail].
  destruct (BacktestResponse.InvalidReasons result) as [|code codes]; [|apply Hfail].
  destruct (marshal_response result) as [doc|]; [|apply Hfail].
  cbn [bind call run exec].
  rewrite (statement_ok c e1 _ _ tt (<[id := completed_row (in_now e1) doc r]> (rows w)));
    [|done|done|by unfold UpdateJobCompleted, update_row; rewrite Hr].
  do 2 eexists. split; [reflexivity|]. split; [|reflexivity].
  repeat split; simpl. apply bool_decide_eq_true. set_solver.
Qed.

(** Loading and running a claimed job. *)
Lemma load_finishes pg reg e1 e2 e3 e4 e5 e6 es c id w r :
  done c w = false -> rows w !! id = Some r ->
  Forall faultless [e1; e2; e3] -> in_answer e1 = in_answer e2 -> in_now e2 = in_now e3 ->
  exists w' es', run pg (e1 :: e2 :: e3 :: e4 :: e5 :: e6 :: es) (load_and_run reg c id ;; deferred c)%job w
             = Some (tt, es', w')
             /\ finished c id (in_now e2) (verdict reg id r (in_answer e2)) r w w'.
Proof.
  intros Hc Hr Hf Ha Hn. rewrite !Forall_cons in Hf. destruct Hf as (Hf1 & Hf2 & Hf3 & _).
  unfold load_and_run. cbn [bind call run exec].
  rewrite (statement_ok c e1 _ _ (GetBacktestJob id (rows w)) (rows w)) by done.
  unfold GetBacktestJob. rewrite Hr. cbn [fmap option_fmap option_map].
  rewrite mapToJobRecord_row. unfold route_and_run, verdict, failMalformedReservedKey.
  cbn [Params record_of].
  destruct (read_routing _) as [[kernel ep]|key].
  2: { destruct (fail_finishes pg e2 e3 e4 e5 (e6 :: es) c id (MMalformedKey (lit key)) w r)
         as (w' & Hrun & Hfin); [done|done|done|]. exists w', (e6 :: es).
       split; [|exact Hfin]. by destruct w. }
  destruct (Resolve _ reg) as [runner|x].
  2: { destruct (fail_finishes pg e2 e3 e4 e5 (e6 :: es) c id x w r)
         as (w' & Hrun & Hfin); [done|done|done|]. exists w', (e6 :: es).
       split; [|exact Hfin]. by destruct w. }
  cbn [bind call run exec].
  edestruct (settle_finishes pg e3 e4 e5 e6 es c id (in_answer e2)) as (w' & v & Hrun & Hfin & Hv);
    [..|exists w', es; split; [exact Hrun|]]; [done|done|exact Hr|].
  rewrite Hv in Hfin. by rewrite Hn.
Qed.

(** C17. An undisturbed job settles. A job on record whose context is live, run
    with no fault of the database, always finishes within seven effects: its
    row ends completed with the engine's result when its routing keys are well
    formed, its kernel is registered and the engine returned a valid, finite
    result, and failed with the corresponding reason in each other case; the
    columns that specify it and every other row are untouched, its
    cancellation entry is gone, its context is released and it has left the
    wait group. *)
Theorem undisturbed_job_settles pg reg es c id w r now a :
  done c w = false -> rows w !! id = Some r -> (7 <= length es)%nat ->
  Forall (fun e => in_fault e = NoFault /\ in_now e = now /\ in_answer e = a) es ->
  exists w' es', run pg es (job_goroutine reg c id) w = Some (tt, es', w')
    /\ rows w' = <[id := settled_row now (verdict reg id r a) (started_row now r)]> (rows w)
    /\ cancelFuncs w' !! id = None /\ done c w' = true /\ inflight w' = inflight w - 1.
Proof.
  intros Hc Hr Hl Hes.
  destruct es as [|e1 [|e2 [|e3 [|e4 [|e5 [|e6 [|e7 es]]]]]]]; simpl in Hl; try lia.
  rewrite !Forall_cons in Hes.
  destruct Hes as ((H1&N1&_)&(H2&N2&A2)&(H3&N3&A3)&(H4&N4&_)&_).
  unfold job_goroutine, job_body. cbn [bind call run exec].
  rewrite (statement_ok c e1 _ _ tt (<[id := started_row now r]> (rows w)));
    [|done|done|by unfold UpdateJobStarted, update_row; rewrite Hr, N1].
  destruct (load_finishes pg reg e2 e3 e4 e5 e6 e7 es c id
              (set_rows (<[id := started_row now r]> (rows w)) w) (started_row now r))
    as (w' & es' & Hrun & Hrows & Hcf & Hdone & Hin);
    [done|apply lookup_insert_eq|by repeat constructor|congruence|congruence|].
  exists w', es'. split; [exact Hrun|]. rewrite N3, A3 in Hrows. simpl in Hrows, Hcf, Hin.
  rewrite insert_insert_eq in Hrows.
  split; [|rewrite Hcf, lookup_delete_eq; done]. rewrite Hrows. f_equal.
Qed.

(** ** Cancelled contexts *)

(** Every statement of the program is issued under [c]. *)
Definition cmd_under (c : ctx) (x : cmd) : Prop :=
  match x with
  | CCreate y _ | CStarted y _ | CCompleted y _ _ | CFailed y _ _ | CGet y _ | CList y _
  | CDelete y _ => y = c
  | _ => True
  end.
Fixpoint under (c : ctx) {A} (p : prog A) : Prop :=
  match p with
  | Vis x k => cmd_under c x /\ forall r, under c (k r)
  | _ => True
  end.

Lemma under_bind c {A B} (p : prog A) (f : A -> prog B) :
  under c p -> (forall a, under c (f a)) -> under c (bind p f).
Proof. induction p as [| |x k IH]; simpl; [auto|auto|]. intros [? Hk]; split; auto. Qed.

Lemma under_job reg c id : under c (job_goroutine reg c id).
Proof.
  assert (Hf : forall m, under c (fail_job c id m)) by (intros m; by repeat split).
  assert (Hs : forall a, under c (settle c id a)).
  { intros a. unfold settle. repeat case_match; try apply Hf. by repeat split. }
  unfold job_goroutine. apply under_bind; [|by repeat split].
  unfold job_body. cbn [call bind]. split; [done|]. intros [[]|x]; [|apply Hf].
  unfold load_and_run. cbn [call bind]. split; [done|].
  intros [[m|]|x]; [|apply Hf|apply Hf]. destruct (mapToJobRecord m) as [rc|]; [|done].
  unfold route_and_run, failMalformedReservedKey. repeat case_match; try apply Hf.
  cbn [call bind]. split; [done|]. apply Hs.
Qed.

(** What may be left of a program at some moment, and the steps it takes. *)
Inductive later {A} (p : prog A) : prog A -> Prop :=
| later_refl : later p p
| later_next c k r : later p (Vis c k) -> later p (k r).

Inductive steps (pg : bytes -> option bytes) {A} (p : prog A) (w : world) : prog A -> world -> Prop :=
| steps_refl : steps pg p w p w
| steps_next p1 w1 e p2 w2 :
    steps pg p w p1 w1 -> prog_step pg e p1 w1 = Some (p2, w2) -> steps pg p w p2 w2.

Lemma under_later c {A} (p p' : prog A) : under c p -> later p p' -> under c p'.
Proof. intros Hp. induction 1 as [|x k r _ IH]; [done|]. apply IH. Qed.

(** A statement under a cancelled context writes nothing; contexts stay
    cancelled. *)
Lemma exec_cancelled pg e c x w r w' :
  cmd_under c x -> done c w = true -> exec pg e x w = Some (r, w') ->
  rows w' = rows w /\ done c w' = true.
Proof.
  intros Hu Hd H. destruct x; simpl in Hu; subst; cbn [exec] in H;
    try (rewrite statement_done in H by done);
    try (repeat case_match; simplify_eq; done).
  - unfold mark_deleted in H. destruct (rows w !! id); by simplify_eq.
  - injection H as <- <-. split; [done|]. apply bool_decide_eq_true.
    apply bool_decide_eq_true in Hd. set_solver.
Qed.

Lemma steps_cancelled pg c {A} (p p' : prog A) w w' :
  under c p -> done c w = true -> steps pg p w p' w' ->
  under c p' /\ done c w' = true /\ rows w' = rows w.
Proof.
  intros Hu Hd. induction 1 as [|p1 w1 e p2 w2 _ (Hu1 & Hd1 & Hr1) Hs]; [done|].
  destruct p1 as [| |x k]; try discriminate. simpl in Hs.
  destruct (exec pg e x w1) as [[r w3]|] eqn:E; [|done]. injection Hs as <- <-.
  destruct Hu1 as [Hx Hk]. destruct (exec_cancelled _ _ _ _ _ _ _ Hx Hd1 E) as [Hr Hd'].
  split; [apply Hk|]. split; [done|congruence].
Qed.

(** ** The repair of stale rows *)

Lemma row_map_status id r : string_or_empty (row_map id r) "status" = r_status r.
Proof. destruct r as [? ? ? ? ? ? ? [] ? [] []]; reflexivity. Qed.
Lemma row_map_id id r : string_or_empty (row_map id r) "id" = id.
Proof. destruct r as [? ? ? ? ? ? ? [] ? [] []]; reflexivity. Qed.

(** The rows the repair fails: running, with a key. *)
Definition stale (l : list (bytes * row)) : list (bytes * row) :=
  filter (fun kv => r_status kv.2 = Running /\ kv.1 <> []) l.

Definition repaired (now : Time) (ids : list bytes) (t t' : table) : Prop :=
  forall id, t' !! id = if decide (id ∈ ids) then failed_row now MCleanup <$> t !! id else t !! id.

Lemma repair_loop_run pg q now l : forall n es w,
  done q w = false -> Forall (fun e => in_fault e = NoFault /\ in_now e = now) es ->
  (length l <= length es)%nat -> NoDup l.*1 -> (forall id r, (id, r) ∈ l -> rows w !! id = Some r) ->
  exists w' es', run pg es (cleanup_loop q ((fun kv => row_map kv.1 kv.2) <$> l) n) w
                 = Some (n + Z.of_nat (length (stale l)), es', w')
    /\ repaired now (stale l).*1 (rows w) (rows w').
Proof.
  induction l as [|[id r] l IH]; intros n es w Hq Hes Hl Hnd Hrows.
  { exists w, es. simpl. split; [by rewrite Z.add_0_r|]. intros i. by rewrite decide_False by set_solver. }
  cbn [fmap list_fmap cleanup_loop fst snd]. rewrite row_map_status, row_map_id.
  apply NoDup_cons in Hnd as [Hnin Hnd].
  unfold stale. rewrite filter_cons. fold (stale l).
  assert (Hrest : forall i r0, (i, r0) ∈ l -> rows w !! i = Some r0) by set_solver.
  destruct (decide (r_status r = Running)) as [Hst|Hst].
  2: { rewrite bool_decide_eq_true_2 by done. rewrite decide_False by naive_solver.
       apply IH; [done|done|simpl in Hl; lia|done|done]. }
  rewrite bool_decide_eq_false_2 by (intros H; by apply H).
  destruct (decide (id = [])) as [->|Hid].
  { rewrite bool_decide_eq_true_2 by done. rewrite decide_False by naive_solver.
    apply IH; [done|done|simpl in Hl; lia|done|done]. }
  rewrite bool_decide_eq_false_2, decide_True by done.
  destruct es as [|e es]; [simpl in Hl; lia|]. apply Forall_cons in Hes as [[Hf Hn] Hes].
  cbn [bind call run exec].
  assert (Hr : rows w !! id = Some r) by (apply Hrows; set_solver).
  rewrite (statement_ok q e _ _ tt (<[id := failed_row now MCleanup r]> (rows w)));
    [|done|done|by unfold UpdateJobFailed, update_row; rewrite Hr, Hn].
  destruct (IH (n + 1) es (set_rows (<[id := failed_row now MCleanup r]> (rows w)) w))
    as (w' & es' & Hrun & Hrep); [done|done|simpl in Hl; lia|done| |].
  { intros i r0 Hi. simpl. rewrite lookup_insert_ne; [by apply Hrest|].
    intros <-. apply Hnin, list_elem_of_fmap. by exists (id, r0). }
  exists w', es'. split; [rewrite Hrun; do 3 f_equal; simpl; lia|].
  intros i. rewrite Hrep. simpl. destruct (decide (i = id)) as [->|Hne].
  - rewrite decide_False, decide_True by
      (first [set_solver | intros H; apply Hnin; unfold stale in H;
              apply list_elem_of_fmap in H as ([i0 r0] & -> & H);
              apply list_elem_of_filter in H as [_ H];
              apply list_elem_of_fmap; by exists (i0, r0)]).
    by rewrite lookup_insert_eq, Hr.
  - rewrite lookup_insert_ne by done.
    destruct (decide (i ∈ (stale l).*1)); [rewrite decide_True|rewrite decide_False]; set_solver.
Qed.

Lemma newest_rows limit t id r : (id, r) ∈ newest limit t -> t !! id = Some r.
Proof.
  unfold newest. intros H. apply elem_of_map_to_list.
  rewrite <- (merge_sort_Permutation newest_first). apply elem_of_take in H as (i & Hi & _). by eapply list_elem_of_lookup_2.
Qed.

Lemma newest_NoDup limit t : NoDup (newest limit t).*1.
Proof.
  unfold newest. rewrite fmap_take. eapply sublist_NoDup; [|apply sublist_take].
  rewrite (merge_sort_Permutation newest_first). apply NoDup_fst_map_to_list.
Qed.

Lemma newest_all limit t id r :
  Z.of_nat (size t) <= limit -> t !! id = Some r -> (id, r) ∈ newest limit t.
Proof.
  intros Hs Hr. unfold newest. rewrite take_ge.
  - rewrite (merge_sort_Permutation newest_first). by apply elem_of_map_to_list.
  - rewrite (merge_sort_Permutation newest_first), length_map_to_list. lia.
Qed.

(** The repair fails exactly the stale rows of its window. With no fault
    of the database [CleanupStaleRunning] always returns, answers the number
    of running rows among the thousand newest, marks exactly those failed and
    leaves every other row as it was; with at most a thousand rows on record
    no keyed row is running afterwards. A running row older than the window is
    never repaired. *)
Theorem cleanup_repairs_window pg q now es w :
  done q w = false -> Forall (fun e => in_fault e = NoFault /\ in_now e = now) es ->
  (1001 <= length es)%nat ->
  let window := newest cleanupWindowLimit (rows w) in
  exists w' es', run pg es (CleanupStaleRunning q) w
                 = Some (Ok (Z.of_nat (length (stale window))), es', w')
    /\ repaired now (stale window).*1 (rows w) (rows w')
    /\ (Z.of_nat (size (rows w)) <= cleanupWindowLimit ->
        forall id r, id <> [] -> rows w' !! id = Some r -> r_status r <> Running).
Proof.
  intros Hq Hes Hl window. destruct es as [|e es]; [simpl in Hl; lia|].
  apply Forall_cons in Hes as [[Hf _] Hes].
  unfold CleanupStaleRunning. cbn [bind call run exec].
  rewrite (statement_ok q e _ _ (ListBacktestJobs cleanupWindowLimit (rows w)) (rows w)) by done.
  rewrite run_bind.
  destruct (repair_loop_run pg q now window 0 es (set_rows (rows w) w)) as (w' & es' & Hrun & Hrep).
  { done. } { done. }
  { subst window. unfold newest. rewrite length_take. simpl in Hl. unfold cleanupWindowLimit. lia. }
  { apply newest_NoDup. } { intros id r. apply newest_rows. }
  unfold ListBacktestJobs. fold window. rewrite Hrun. exists w', es'.
  split; [done|]. split; [exact Hrep|]. intros Hsz id r Hid Hr Hst. rewrite Hrep in Hr. simpl in Hr.
  case_decide as Hin.
  - apply fmap_Some in Hr as (r0 & _ & ->). done.
  - apply Hin, list_elem_of_fmap. exists (id, r). split; [done|].
    apply list_elem_of_filter. split; [done|]. by apply newest_all.
Qed.

(** C38. A cancelled running job waits for the repair. [CancelJob] on a
    running job answers success and cancels the context the job's goroutine
    writes under, so the goroutine cannot settle the job any more: from
    wherever it then is, through every sequence of its remaining effects, the
    job's row stays [running] with no result, no error and no completion time.
    The goroutine does end (the settling of any engine answer takes four more
    effects and leaves the wait group), and the row is left as it is until
    [CleanupStaleRunning], called when the service starts and when it shuts
    down, marks it failed (here with at most a thousand rows on record and no
    fault of the database). *)
Theorem cancelled_job_awaits_cleanup pg reg id r c q w es :
  rows w !! id = Some r -> r_status r = Running -> cancelFuncs w !! id = Some c -> id <> [] ->
  done q w = false -> Forall faultless es -> (4 <= length es)%nat ->
  exists w1 es1, run pg es (CancelJob q id) w = Some (Ok tt, es1, w1)
    /\ rows w1 = rows w /\ cancelFuncs w1 !! id = None
    /\ (forall p p' w2, later (job_goroutine reg c id) p -> steps pg p w1 p' w2 ->
          rows w2 !! id = Some r)
    /\ (forall a es', (4 <= length es')%nat -> exists w2 es2,
          run pg es' (settle c id a ;; deferred c)%job w1 = Some (tt, es2, w2)
          /\ rows w2 = rows w /\ inflight w2 = inflight w - 1)
    /\ (forall w2 q' now es', rows w2 = rows w -> done q' w2 = false ->
          Forall (fun e => in_fault e = NoFault /\ in_now e = now) es' -> (1001 <= length es')%nat ->
          Z.of_nat (size (rows w)) <= cleanupWindowLimit ->
          exists w3 es3 n, run pg es' (CleanupStaleRunning q') w2 = Some (Ok n, es3, w3)
            /\ rows w3 !! id = Some (failed_row now MCleanup r)).
Proof.
  intros Hr Hst Hcf Hid Hq Hes Hl.
  destruct es as [|e1 [|e2 [|e3 [|e4 es]]]]; simpl in Hl; try lia.
  rewrite !Forall_cons in Hes. destruct Hes as (H1 & _).
  pose (w1 := set_cancelFuncs (delete id (cancelFuncs w)) (set_cancelled ({[c]} ∪ cancelled w) w)).
  exists w1, es. assert (Hd : done c w1 = true) by (apply bool_decide_eq_true; set_solver).
  split; [|split; [done|split; [apply lookup_delete_eq|split; [|split]]]].
  - unfold CancelJob. cbn [bind call run exec].
    rewrite (statement_ok q e1 _ _ (GetBacktestJob id (rows w)) (rows w)) by done.
    unfold GetBacktestJob. rewrite Hr. cbn [fmap option_fmap option_map].
    rewrite mapToJobRecord_row. cbn [Status record_of]. rewrite Hst.
    rewrite bool_decide_eq_false_2, bool_decide_eq_true_2 by done.
    cbn [bind call run exec set_rows cancelFuncs]. by rewrite Hcf.
  - intros p p' w2 Hlt Hs.
    destruct (steps_cancelled pg c p p' w1 w2) as (_ & _ & ->); [|done|done|done].
    eapply under_later; [apply under_job|done].
  - intros a es' Hl'. destruct es' as [|f1 [|f2 [|f3 [|f4 es']]]]; simpl in Hl'; try lia.
    unfold settle, fail_job. repeat case_match; cbn [bind call run exec];
      rewrite statement_done by done; do 2 eexists; split; done.
  - intros w2 q' now es' Hw2 Hq' Hes' Hl' Hsz. rewrite <- Hw2 in Hr, Hsz.
    destruct (cleanup_repairs_window pg q' now es' w2 Hq' Hes' Hl') as (w3 & es3 & Hrun & Hrep & _).
    exists w3, es3. eexists. split; [exact Hrun|]. rewrite Hrep, decide_True, Hr; [done|].
    apply list_elem_of_fmap. exists (id, r). split; [done|].
    apply list_elem_of_filter. split; [done|]. by apply newest_all.
Qed.

(** ** Synchronous results and requests *)

Lemma join_comma_length l n :
  Forall (fun s => length s = n) l -> l <> [] ->
  (length (join_comma l) + 1 = length l * (n + 1))%nat.
Proof.
  induction l as [|w [|w' l] IH]; [done| |]; intros Hf _.
  - apply Forall_cons in Hf as [Hw _]. simpl. lia.
  - apply Forall_cons in Hf as [Hw Hf]. specialize (IH Hf ltac:(done)).
    cbn [join_comma] in *. rewrite !length_app. simpl (length (lit ",")). simpl in IH |- *. lia.
Qed.

(** A symbol code: nine bytes of ASCII, none blank, such as 600000.SH. *)
Definition symbol_code (s : bytes) : Prop :=
  length s = 9%nat /\ Forall (fun c => 33 <= byteZ c < 128) s.

Lemma join_comma_ascii l :
  Forall symbol_code l -> Forall (fun c => 33 <= byteZ c < 128) (join_comma l).
Proof.
  induction l as [|w [|w' l] IH]; intros Hf; [constructor| |].
  - by apply Forall_cons in Hf as [[_ ?] _].
  - apply Forall_cons in Hf as [[_ Hw] Hf]. cbn [join_comma].
    apply Forall_app. split; [done|]. apply Forall_app. split; [|by apply IH].
    by repeat constructor.
Qed.

Lemma varchar_overflow n s :
  Forall (fun c => 33 <= byteZ c < 128) s -> (n < length s)%nat -> varchar n s = None.
Proof.
  intros Hs Hl. unfold varchar.
  assert (Hc : char_count s = length s).
  { unfold char_count. clear Hl. induction Hs as [|c s Hc _ IH]; [done|].
    rewrite filter_cons, decide_True by lia. simpl. by rewrite IH. }
  rewrite Hc. replace (length s - (length s - n))%nat with n by lia.
  destruct (drop n s) as [|c d] eqn:E.
  { apply (f_equal length) in E. rewrite length_drop in E. simpl in E. lia. }
  cbn [forallb]. destruct (Ascii.eqb " " c) eqn:Eq; [|done].
  apply Ascii.eqb_eq in Eq. subst c.
  assert (Hin : " "%char ∈ s) by (rewrite <- (take_drop n s), E; set_solver).
  rewrite Forall_forall in Hs. specialize (Hs _ Hin). vm_compute in Hs. destruct Hs as [Hs _].
  by destruct Hs.
Qed.

(** What a synchronous result becomes on record. With no fault of the
    database and a live context, a result with finite metrics is stored as a
    completed job with that result, whatever its invalid reasons, when the
    insert fits the table, and is refused, leaving the table as it was, when
    it does not; a pool of eleven or more symbol codes never fits the
    hundred-character universe column, so the result of such a run is lost. *)
Theorem sync_result_on_record pg q now es resp w :
  done q w = false -> Forall (fun e => in_fault e = NoFault /\ in_now e = now) es ->
  (3 <= length es)%nat -> marshal_response resp = Some resp ->
  length (BacktestResponse.ID resp) = 36%nat ->
  (exists w' es' x, run pg es (SaveSyncResult q resp) w = Some (x, es', w')
    /\ match CreateBacktestJob pg now (sync_job resp) (rows w) with
       | None => x = Err (JStore DBFault) /\ rows w' = rows w
       | Some _ => x = Ok tt
           /\ exists r, rows w' = <[BacktestResponse.ID resp := r]> (rows w)
                /\ r_status r = Completed /\ r_result r = Some resp /\ r_error r = None
       end)
  /\ ((11 <= length (BacktestResponse.StockPool resp))%nat ->
      Forall symbol_code (BacktestResponse.StockPool resp) ->
      CreateBacktestJob pg now (sync_job resp) (rows w) = None).
Proof.
  intros Hq Hes Hl Hm Hid. split.
  - destruct es as [|e1 [|e2 [|e3 es]]]; simpl in Hl; try lia.
    rewrite !Forall_cons in Hes. destruct Hes as ((F1&N1)&(F2&N2)&(F3&N3)&_).
    unfold SaveSyncResult. rewrite Hm. cbn [bind call run exec].
    destruct (CreateBacktestJob pg now (sync_job resp) (rows w)) as [t1|] eqn:E.
    + destruct (CreateBacktestJob_row pg now (sync_job resp) (rows w) t1 (BacktestResponse.ID resp))
        as (Hn & r0 & Hno & ->); [done|done|done|].
      erewrite (statement_ok q e1); [|done|done|rewrite N1, E; reflexivity].
      cbn [bind call run exec]. erewrite (statement_ok q e2); [|done|done|reflexivity].
      cbn [bind call run exec]. erewrite (statement_ok q e3); [|done|done|reflexivity].
      do 3 eexists. split; [reflexivity|]. split; [done|]. simpl.
      unfold UpdateJobCompleted, UpdateJobStarted, update_row.
      rewrite lookup_insert_eq, insert_insert_eq, lookup_insert_eq, insert_insert_eq.
      eexists. split; [reflexivity|]. split; [done|]. by split.
    + unfold statement. rewrite Hq, F1, N1, E. simpl. eauto 10.
  - intros Hp Hc. unfold CreateBacktestJob.
    assert (Hv : varchar 100 (join_comma (BacktestResponse.StockPool resp)) = None).
    { apply varchar_overflow; [by apply join_comma_ascii|].
      enough (length (join_comma (BacktestResponse.StockPool resp)) + 1
              = length (BacktestResponse.StockPool resp) * (9 + 1))%nat by lia.
      apply join_comma_length; [by eapply Forall_impl; [exact Hc|]; intros ? []|].
      intros E. rewrite E in Hp. simpl in Hp. lia. }
    change (get_string (sync_job resp) "universe")
      with (Some (join_comma (BacktestResponse.StockPool resp))).
    cbn [mbind option_bind]. rewrite Hv.
    repeat match goal with |- mbind _ ?x = None => destruct x; cbn [mbind option_bind]; [|done] end.
    done.
Qed.

(** A job runs what its creation asked for, and nothing more. When the
    caller's params hold none of the three keys the service reads back, the
    request an engine receives for a row stored by [CreateJob] names the row's
    strategy, pool and dates, the requested kernel and engine parameters and,
    when positive, the requested capital: the commission and slippage rates and
    the strategy's own params are stored but never reach the engine. *)
Theorem job_runs_as_requested reg req doc id r runner breq :
  rq_Params req !! lit "kernel" = None -> rq_Params req !! lit "engine_params" = None ->
  rq_Params req !! lit "initial_capital" = None ->
  marshal_params (job_params req) = Some doc -> r_params r = doc ->
  routed reg id r runner breq ->
  breq = BacktestRequest.Mk (r_strategy r) (parseUniverse (r_universe r)) [] (r_start r) (r_end r)
           (if flt f0 (rq_InitialCapital req) then rq_InitialCapital req else f0) f0
           (rq_Kernel req) (rq_EngineParams req) []
  /\ Resolve (EffectiveKernel breq) reg = Ok runner.
Proof.
  intros Hk He Hi Hm <- (kernel & ep & Hrd & Hq & Hrs). split; [|done].
  assert (Hdoc : unmarshal_params (Some (r_params r)) = job_params req).
  { unfold marshal_params in Hm. case_if; [|done]. injection Hm as <-. apply list_to_map_to_list. }
  rewrite Hdoc in Hrd, Hq.
  assert (Hkernel : job_params req !! lit "kernel"
                    = if bool_decide (rq_Kernel req = []) then None else Some (JStr (rq_Kernel req))).
  { unfold job_params, put_positive. repeat case_match; by simplify_map_eq. }
  assert (Hep : job_params req !! lit "engine_params"
                = if bool_decide (rq_EngineParams req = ∅) then None
                  else Some (JObj (map_to_list (rq_EngineParams req)))).
  { unfold job_params, put_positive. repeat case_match; by simplify_map_eq. }
  assert (Hcap : job_params req !! lit "initial_capital"
                 = if flt f0 (rq_InitialCapital req) then Some (JNum (rq_InitialCapital req)) else None).
  { unfold job_params, put_positive. repeat case_match; by simplify_map_eq. }
  unfold read_routing in Hrd. rewrite Hkernel, Hep in Hrd.
  subst breq. unfold job_request. rewrite Hcap. simpl.
  repeat case_bool_decide; simplify_eq; rewrite ?list_to_map_to_list;
    f_equal; try congruence;
    by destruct (flt f0 (rq_InitialCapital req)) eqn:Hf; rewrite ?Hf.
Qed.

(** ** Witnesses *)

(** A schedule, executable: goroutine [i] takes a step, a job is created, a
    spawned goroutine starts. *)
Inductive action := ARun (i : nat) (e : input) | ACreate (req : CreateJobRequest) | ASpawn.

Definition act (pg : bytes -> option bytes) (reg : EngineRegistry) (a : action)
    (s : world * list (prog unit)) : option (world * list (prog unit)) :=
  match a with
  | ARun i e =>
      p ← s.2 !! i; '(p', w') ← prog_step pg e p s.1; Some (w', <[i := p']> s.2)
  | ACreate req => Some (s.1, s.2 ++ [(CreateJob Background req ;; Ret tt)%job])
  | ASpawn => match spawned s.1 with
              | t :: l => Some (set_spawned l s.1, s.2 ++ [thread_prog reg t])
              | [] => None
              end
  end.

Fixpoint schedule pg reg (l : list action) (s : world * list (prog unit)) :=
  match l with
  | [] => Some s
  | a :: l' => s' ← schedule pg reg l' s; act pg reg a s'
  end.

Lemma schedule_reachable pg reg l s s' :
  schedule pg reg l s = Some s' -> reachable pg reg s s'.
Proof.
  revert s'. induction l as [|a l IH]; simpl; intros s' H; [injection H as <-; constructor|].
  apply bind_Some in H as ([w1 ts1] & H1%IH & Ha). eapply reach_step; [exact H1|].
  destruct a as [i e|req|]; simpl in Ha.
  - apply bind_Some in Ha as (p & Hp & Ha). apply bind_Some in Ha as ([p' w'] & Hst & [= <-]).
    by eapply step_run.
  - injection Ha as <-. apply step_call. constructor.
  - destruct (spawned w1) eqn:E; [done|]. injection Ha as <-. by apply step_spawn.
Qed.

Definition demo_uuid : bytes := replicate 36 "a"%char.
Definition demo_input : input := MkInput NoFault 100 demo_uuid false (Err (lit "no data")).
Definition demo_world : world := MkWorld ∅ ∅ 1%nat ∅ false 0 [] [] ∅ ∅.
Definition demo_request : CreateJobRequest :=
  MkCreateJobRequest (lit "momentum") ∅ (lit "600000.SH") (lit "2024-01-01") (lit "2024-06-30")
    (f64_of_Z 1000000) f0 f0 [] ∅.
Definition demo_registry : EngineRegistry := {[ DefaultKernel := Some 7%nat ]}.

(** Create a job, start its goroutines and let the job reach the engine;
    the latest action first. *)
Definition demo_schedule : list action :=
  [ARun 2 demo_input; ARun 2 demo_input; ARun 2 demo_input; ASpawn; ASpawn]
  ++ replicate 9 (ARun 0 demo_input) ++ [ACreate demo_request].

Definition demo_state := schedule Some demo_registry demo_schedule (demo_world, []).

Lemma only_live_jobs_run_witness :
  exists w' ts, reachable Some demo_registry (demo_world, []) (w', ts) /\ demo_uuid ∉ deleted w'.
Proof.
  destruct demo_state as [[w' ts]|] eqn:E; [|exfalso; revert E; vm_compute; discriminate].
  assert (Hr : reachable Some demo_registry (demo_world, []) (w', ts))
    by exact (schedule_reachable _ _ _ _ _ E).
  assert (Hruns : (fun x => x.1) <$> runs w' = [(demo_uuid, 7%nat)]).
  { apply (f_equal (fmap (fun s => (fun x => x.1) <$> runs s.1))) in E.
    vm_compute in E. injection E as E. exact (eq_sym E). }
  exists w', ts. split; [exact Hr|].
  destruct (runs w') as [|[[i x] req] l] eqn:Er; [discriminate|]. injection Hruns as -> -> _.
  refine (proj1 (only_live_jobs_run Some demo_registry demo_world w' ts demo_uuid 7%nat req _ Hr _)).
  - split; [reflexivity|split; [reflexivity|split; [reflexivity|]]].
    intros i' r' H. simpl in H. rewrite lookup_empty in H. discriminate H.
  - rewrite Er. constructor.
Defined.

Definition demo_row : row :=
  MkRow (lit "momentum") (JObj []) (lit "600000.SH") (lit "2024-01-01") (lit "2024-06-30")
    Running None None 50 (Some 60) None.
Definition running_world : world :=
  MkWorld {[ demo_uuid := demo_row ]} ∅ 2%nat {[ demo_uuid := 1%nat ]} false 1 [] [] ∅ {[ demo_uuid ]}.

Lemma undisturbed_job_settles_witness :
  exists w' es', run Some (replicate 7 demo_input) (job_goroutine demo_registry 1 demo_uuid) running_world
                 = Some (tt, es', w')
                 /\ inflight w' = 0.
Proof.
  destruct (undisturbed_job_settles Some demo_registry (replicate 7 demo_input) 1 demo_uuid
              running_world demo_row 100 (Err (lit "no data"))) as (w' & es' & Hrun & _ & _ & _ & Hi).
  - reflexivity.
  - reflexivity.
  - reflexivity.
  - repeat constructor.
  - exists w', es'. split; [exact Hrun|]. rewrite Hi. reflexivity.
Defined.

Lemma cancelled_job_awaits_cleanup_witness :
  exists w1 es1, run Some (replicate 4 demo_input) (CancelJob Background demo_uuid) running_world
                 = Some (Ok tt, es1, w1)
                 /\ rows w1 = rows running_world.
Proof.
  destruct (cancelled_job_awaits_cleanup Some demo_registry demo_uuid demo_row 1 Background
              running_world (replicate 4 demo_input)) as (w1 & es1 & Hrun & Hrows & _).
  - reflexivity.
  - reflexivity.
  - reflexivity.
  - discriminate.
  - reflexivity.
  - repeat constructor.
  - reflexivity.
  - exists w1, es1. split; [exact Hrun|exact Hrows].
Defined.

Lemma cleanup_repairs_window_witness :
  exists w' es', run Some (replicate 1001 demo_input) (CleanupStaleRunning Background) running_world
                 = Some (Ok 1, es', w').
Proof.
  destruct (cleanup_repairs_window Some Background 100 (replicate 1001 demo_input) running_world)
    as (w' & es' & Hrun & _).
  - reflexivity.
  - apply Forall_replicate. split; reflexivity.
  - rewrite length_replicate. lia.
  - exists w', es'. rewrite Hrun. reflexivity.
Defined.

Definition demo_response : BacktestResponse.t :=
  BacktestResponse.Mk demo_uuid (lit "invalid") (lit "momentum") [] (lit "2024-01-01")
    (lit "2024-06-30") f0 f0 f0 f0 f0 [] f0 0 0 0 f0 f0 [] [] [] [] []
    (replicate 11 (lit "600000.SH")) f0 [InvalidZeroTrades] None.

Lemma sync_result_on_record_witness :
  CreateBacktestJob Some 100 (sync_job demo_response) ∅ = None.
Proof.
  refine (proj2 (sync_result_on_record Some Background 100 (replicate 3 demo_input) demo_response
                   demo_world _ _ _ _ _) _ _).
  - reflexivity.
  - repeat constructor.
  - reflexivity.
  - reflexivity.
  - reflexivity.
  - reflexivity.
  - repeat constructor; discriminate.
Defined.

Lemma job_runs_as_requested_witness :
  exists breq, routed demo_registry demo_uuid
    (MkRow (lit "momentum") (JObj (map_to_list (job_params demo_request))) (lit "600000.SH")
       (lit "2024-01-01") (lit "2024-06-30") Running None None 50 None None) 7 breq
    /\ BacktestRequest.StockPool breq = [lit "600000.SH"].
Proof.
  eexists. split; [exists [], ∅; split; [reflexivity|split; reflexivity]|].
  match goal with |- BacktestRequest.StockPool ?b = _ =>
    assert (H : b = _ /\ _) by
      (eapply (job_runs_as_requested demo_registry demo_request _ demo_uuid
                 (MkRow (lit "momentum") (JObj (map_to_list (job_params demo_request)))
                    (lit "600000.SH") (lit "2024-01-01") (lit "2024-06-30") Running None None 50 None None)
                 7 b); [reflexivity..|exists [], ∅; split; [reflexivity|split; reflexivity]])
  end.
  destruct H as [-> _]. reflexivity.
Defined.
