(* ===== verification/AbnormalTrade.v ===== *)
(** * AbnormalTrade: the six detectors of abnormal trading

    src/pkg/compliance/abnormal_trade.go. Orders and trades of a window are
    searched for frequent cancellation, self trades, wash trades, flipping,
    spoofing and manipulation. The texts of alerts ([Summary], [Note]) are
    left out. Maps are visited in any order ([MapOrder]) and slices sorted by
    [SliceSort]; a map keyed by floats is a list of buckets, in any order
    ([visit_buckets]). [None] stands for a run-time panic. *)

From stdpp Require Import base list strings gmap.
From Stdlib Require Import ZArith Lia.
From S2P Require Import Prelude GoMap GoFloat Domain GoSlice.

Open Scope Z_scope.

(** ** Data *)

Inductive AbnormalCategory :=
| CategoryFrequentCancel | CategorySelfTrade | CategoryWashTrade
| CategoryMatchedFlipping | CategorySpoofing | CategoryManipulation.

#[global] Instance AbnormalCategory_eq_dec : EqDecision AbnormalCategory.
Proof. solve_decision. Defined.

Record OrderRecord := MkOrderRecord {
  or_OrderID : bytes; or_Symbol : bytes; or_Direction : bytes; or_Quantity : float64;
  or_Price : float64; or_FilledQty : float64; or_AvgFillPrice : float64; or_Status : bytes;
  or_SubmittedAt : Time; or_UpdatedAt : Time
}.

Record TradeRecord := MkTradeRecord {
  tr_TradeID : bytes; tr_OrderID : bytes; tr_Symbol : bytes; tr_Direction : bytes;
  tr_Quantity : float64; tr_Price : float64; tr_Fee : float64; tr_TradeTime : Time
}.

Record AlertEvidence := MkEvidence {
  ev_OrderID : bytes; ev_TradeID : bytes; ev_Symbol : bytes; ev_Direction : bytes;
  ev_Quantity : float64; ev_Price : float64; ev_Timestamp : Time; ev_Cancelled : bool
}.

Record AbnormalAlert := MkAlert {
  al_Category : AbnormalCategory; al_AccountID : bytes; al_Symbol : bytes; al_DetectedAt : Time;
  al_WindowFrom : Time; al_WindowTo : Time; al_Critical : bool; al_Evidence : list AlertEvidence
}.

Record FrequentCancelConfig := MkFrequentCancel {
  fc_Window : Z; fc_MinCancelCount : Z; fc_MinCancelRate : float64
}.
Record SelfTradeConfig := MkSelfTrade { sf_Window : Z; sf_MinQuantity : float64 }.
Record WashTradeConfig := MkWashTrade {
  wt_Window : Z; wt_PriceTolerancePct : float64; wt_MinQuantity : float64; wt_MinAccountPair : Z
}.
Record MatchedFlippingConfig := MkMatchedFlipping {
  mf_Window : Z; mf_MinFlips : Z; mf_MinTotalVolume : float64
}.
Record SpoofingConfig := MkSpoofing {
  sp_Window : Z; sp_CancelLatency : Z; sp_MinQuantity : float64; sp_MinCancelCount : Z
}.
Record ManipulationConfig := MkManipulation {
  mn_Window : Z; mn_MinTrades : Z; mn_PriceDeviation : float64; mn_VWAPLookback : Z
}.

Record Thresholds := MkThresholds {
  FrequentCancel : FrequentCancelConfig; SelfTrade : SelfTradeConfig; WashTrade : WashTradeConfig;
  MatchedFlipping : MatchedFlippingConfig; Spoofing : SpoofingConfig; Manipulation : ManipulationConfig
}.

Definition minute : Z := 60000000000.

Definition DefaultThresholds : Thresholds := MkThresholds
  (MkFrequentCancel minute 3 (flit 5 1))
  (MkSelfTrade (5 * minute) (f64_of_Z 100))
  (MkWashTrade (5 * minute) (flit 5 3) (f64_of_Z 1000) 2)
  (MkMatchedFlipping (30 * minute) 3 (f64_of_Z 1000))
  (MkSpoofing minute 500000000 (f64_of_Z 10000) 2)
  (MkManipulation (5 * minute) 3 (flit 2 2) 20).

Definition order_evidence (o : OrderRecord) : AlertEvidence :=
  MkEvidence (or_OrderID o) [] (or_Symbol o) (or_Direction o) (or_Quantity o) (or_Price o)
    (or_SubmittedAt o) true.

Definition trade_evidence (t : TradeRecord) : AlertEvidence :=
  MkEvidence [] (tr_TradeID t) (tr_Symbol t) (tr_Direction t) (tr_Quantity t) (tr_Price t)
    (tr_TradeTime t) false.

(** [time.Time.Sub], saturating. *)
Definition duration (a b : Time) : Z := Z.max min_int64 (Z.min max_int64 (a - b)).

Definition cancelled_status : bytes := lit "cancelled".

Section Detectors.
Context `{!MapOrder, !SliceSort}.

(** ** Frequent cancellation *)

Record cancel_scan := MkScan {
  sc_submitted : Z; sc_cancelled : Z; sc_evidence : list AlertEvidence; sc_from : Time; sc_to : Time
}.

Definition scan_order (windowStart : Time) (s : cancel_scan) (o : OrderRecord) : cancel_scan :=
  if Before (or_SubmittedAt o) windowStart then s
  else
    let cancelled := bool_decide (or_Status o = cancelled_status) in
    MkScan (sc_submitted s + 1)
      (if cancelled then sc_cancelled s + 1 else sc_cancelled s)
      (if cancelled then sc_evidence s ++ [order_evidence o] else sc_evidence s)
      (if IsZero (sc_from s) || Before (or_SubmittedAt o) (sc_from s) then or_SubmittedAt o else sc_from s)
      (if sc_to s <? or_SubmittedAt o then or_SubmittedAt o else sc_to s).

Definition cancel_alert (th : FrequentCancelConfig) (now : Time) (sym : bytes) (rows : list OrderRecord)
    : option AbnormalAlert :=
  let rows := Slice (fun a b => or_SubmittedAt a <? or_SubmittedAt b) rows in
  let s := foldl (scan_order (now - fc_Window th)) (MkScan 0 0 [] 0 0) rows in
  if sc_submitted s =? 0 then None
  else
    let cancelRate := (f64_of_Z (sc_cancelled s) / f64_of_Z (sc_submitted s))%f64 in
    if (fc_MinCancelCount th <=? sc_cancelled s) && (cancelRate >=? fc_MinCancelRate th)%f64
    then Some (MkAlert CategoryFrequentCancel [] sym now (sc_from s) (sc_to s) false (sc_evidence s))
    else None.

Definition frequentCancel (th : FrequentCancelConfig) (orders : list OrderRecord) (now : Time)
    : list AbnormalAlert :=
  omap (fun x => cancel_alert th now x.1 x.2) (range 0 (group_by or_Symbol orders)).

(** ** Self trades *)

(** The trades not older than the window, by symbol. *)
Definition trades_since (windowStart : Time) (trades : list TradeRecord) : gmap bytes (list TradeRecord) :=
  group_by tr_Symbol (filter (fun t => Before (tr_TradeTime t) windowStart = false) trades).

Definition by_trade_time (l : list TradeRecord) : list TradeRecord :=
  Slice (fun a b => tr_TradeTime a <? tr_TradeTime b) l.

(** The first later trade of the other direction and the same quantity. *)
Definition opposite (a b : TradeRecord) : bool :=
  negb (bool_decide (tr_Direction a = tr_Direction b)) && (tr_Quantity a =? tr_Quantity b)%f64.

Fixpoint self_pairs (th : SelfTradeConfig) (accountID : bytes) (now : Time) (sym : bytes)
    (rows : list TradeRecord) : list AbnormalAlert :=
  match rows with
  | [] => []
  | a :: rest =>
      (if (tr_Quantity a <? sf_MinQuantity th)%f64 then []
       else match List.find (opposite a) rest with
            | Some b => [MkAlert CategorySelfTrade accountID sym now (tr_TradeTime a) (tr_TradeTime b) true
                           [trade_evidence a; trade_evidence b]]
            | None => []
            end)
      ++ self_pairs th accountID now sym rest
  end.

Definition selfTrade (th : SelfTradeConfig) (accountID : bytes) (trades : list TradeRecord) (now : Time)
    : list AbnormalAlert :=
  if bool_decide (accountID = []) then []
  else concat (map (fun x => self_pairs th accountID now x.1 (by_trade_time x.2))
                 (range 1 (trades_since (now - sf_Window th) trades))).

(** ** Wash trades *)

(** The key of a bucket; Go compares its float with [==]. *)
Definition wash_key (t : TradeRecord) : bytes * float64 * Z :=
  (tr_Symbol t, tr_Quantity t, f64_to_int64 (tr_Price t * f64_of_Z 1000)%f64).

Definition same_key (a b : bytes * float64 * Z) : bool :=
  bool_decide (a.1.1 = b.1.1) && (a.1.2 =? b.1.2)%f64 && (a.2 =? b.2).

Fixpoint add_to_bucket (t : TradeRecord) (bs : list ((bytes * float64 * Z) * list TradeRecord))
    : list ((bytes * float64 * Z) * list TradeRecord) :=
  match bs with
  | [] => [(wash_key t, [t])]
  | (k, l) :: rest => if same_key k (wash_key t) then (k, l ++ [t]) :: rest
                      else (k, l) :: add_to_bucket t rest
  end.

Definition is_buy (d : bytes) : bool := bool_decide (d = lit "buy" \/ d = lit "long").
Definition is_sell (d : bytes) : bool :=
  bool_decide (d = lit "sell" \/ d = lit "short" \/ d = lit "close").

Definition bucket_alert (th : WashTradeConfig) (now : Time)
    (b : (bytes * float64 * Z) * list TradeRecord) : option AbnormalAlert :=
  let '(k, rows) := b in
  if Z.of_nat (length rows) <? wt_MinAccountPair th then None
  else
    let hasBuy := existsb (fun t => is_buy (tr_Direction t)) rows in
    let hasSell := existsb (fun t => is_sell (tr_Direction t)) rows in
    if negb hasBuy || negb hasSell then None
    else match head rows, last rows with
         | Some a, Some z => Some (MkAlert CategoryWashTrade [] k.1.1 now (tr_TradeTime a) (tr_TradeTime z)
                                     true (map trade_evidence rows))
         | _, _ => None
         end.

(** The order in which the loop visits the buckets. *)
Variable visit_buckets : list ((bytes * float64 * Z) * list TradeRecord) ->
                         list ((bytes * float64 * Z) * list TradeRecord).

Definition washTrade (th : WashTradeConfig) (trades : list TradeRecord) (now : Time)
    : list AbnormalAlert :=
  let inWindow := filter (fun t => Before (tr_TradeTime t) (now - wt_Window th) = false
                                   /\ flt (tr_Quantity t) (wt_MinQuantity th) = false) trades in
  if (length inWindow <? 2)%nat then []
  else
    let groups := foldl (fun bs t => add_to_bucket t bs) [] (by_trade_time inWindow) in
    omap (bucket_alert th now) (visit_buckets groups).

(** ** Matched flipping *)

Definition dirOf (t : TradeRecord) : bytes := if is_buy (tr_Direction t) then lit "buy" else lit "sell".

Fixpoint count_flips (prev : TradeRecord) (l : list TradeRecord) : Z :=
  match l with
  | [] => 0
  | t :: rest => (if bool_decide (dirOf t = dirOf prev) then 0 else 1) + count_flips t rest
  end.

Definition flipping_alert (th : MatchedFlippingConfig) (accountID : bytes) (now : Time) (sym : bytes)
    (rows : list TradeRecord) : option AbnormalAlert :=
  if Z.of_nat (length rows) <? mf_MinFlips th then None
  else
    let rows := by_trade_time rows in
    match rows, last rows with
    | a :: rest, Some z =>
        let flips := count_flips a rest in
        let totalVolume := (foldl (fun v t => v + tr_Quantity t)%f64 f0 rest + tr_Quantity a)%f64 in
        if flips <? mf_MinFlips th then None
        else if (totalVolume <? mf_MinTotalVolume th)%f64 then None
        else Some (MkAlert CategoryMatchedFlipping accountID sym now (tr_TradeTime a) (tr_TradeTime z) false
                     (map trade_evidence rows))
    | _, _ => None
    end.

Definition matchedFlipping (th : MatchedFlippingConfig) (accountID : bytes) (trades : list TradeRecord)
    (now : Time) : list AbnormalAlert :=
  if bool_decide (accountID = []) then []
  else omap (fun x => flipping_alert th accountID now x.1 x.2)
         (range 2 (trades_since (now - mf_Window th) trades)).

(** ** Spoofing *)

Definition fast_cancel (th : SpoofingConfig) (now : Time) (o : OrderRecord) : bool :=
  let latency := duration (or_UpdatedAt o) (or_SubmittedAt o) in
  negb (Before (or_SubmittedAt o) (now - sp_Window th))
  && bool_decide (or_Status o = cancelled_status)
  && negb (or_Quantity o <? sp_MinQuantity th)%f64
  && (0 <? latency) && (latency <=? sp_CancelLatency th).

Definition spoof_alert (th : SpoofingConfig) (now : Time) (sym : bytes) (rows : list OrderRecord)
    : option AbnormalAlert :=
  if Z.of_nat (length rows) <? sp_MinCancelCount th then None
  else
    let evidence := Slice (fun a b => ev_Timestamp a <? ev_Timestamp b) (map order_evidence rows) in
    match head evidence, last evidence with
    | Some a, Some z => Some (MkAlert CategorySpoofing [] sym now (ev_Timestamp a) (ev_Timestamp z)
                                true evidence)
    | _, _ => None
    end.

Definition spoofing (th : SpoofingConfig) (orders : list OrderRecord) (now : Time) : list AbnormalAlert :=
  omap (fun x => spoof_alert th now x.1 x.2)
    (range 3 (group_by or_Symbol (filter (fun o => fast_cancel th now o = true) orders))).

(** ** Manipulation *)

(** [list[:n]] and [list[n:]]; a negative bound panics. *)
Definition vwap_of (baseline : list TradeRecord) : option float64 :=
  let num := foldl (fun v t => v + tr_Price t * tr_Quantity t)%f64 f0 baseline in
  let den := foldl (fun v t => v + tr_Quantity t)%f64 f0 baseline in
  if (den =? f0)%f64 then None else Some (num / den)%f64.

Definition pumped (th : ManipulationConfig) (vwap : float64) (t : TradeRecord) : bool :=
  (tr_Price t >=? vwap * (f1 + mn_PriceDeviation th))%f64.
Definition dumped (th : ManipulationConfig) (vwap : float64) (t : TradeRecord) : bool :=
  negb (pumped th vwap t) && (tr_Price t <=? vwap * (f1 - mn_PriceDeviation th))%f64.

Definition manipulation_alerts (th : ManipulationConfig) (now : Time) (sym : bytes)
    (rows : list TradeRecord) : option (list AbnormalAlert) :=
  if Z.of_nat (length rows) <? mn_MinTrades th then Some []
  else
    let rows := by_trade_time rows in
    let n := if Z.of_nat (length rows) <? mn_VWAPLookback th then Z.of_nat (length rows)
             else mn_VWAPLookback th in
    if n <? 0 then None
    else match vwap_of (take (Z.to_nat n) rows) with
         | None => Some []
         | Some vwap =>
             let tail := drop (Z.to_nat n) rows in
             let report (hits : list TradeRecord) :=
               if mn_MinTrades th <=? Z.of_nat (length hits) then
                 match head rows, last rows with
                 | Some a, Some z => [MkAlert CategoryManipulation [] sym now (tr_TradeTime a) (tr_TradeTime z)
                                        true (map trade_evidence hits)]
                 | _, _ => []
                 end
               else [] in
             Some (report (filter (fun t => pumped th vwap t = true) tail)
                   ++ report (filter (fun t => dumped th vwap t = true) tail))
         end.

Definition manipulation (th : ManipulationConfig) (trades : list TradeRecord) (now : Time)
    : option (list AbnormalAlert) :=
  (fun l => concat l) <$> mapM (fun x => manipulation_alerts th now x.1 x.2)
               (range 4 (trades_since (now - mn_Window th) trades)).

(** ** The orchestrator *)

Inductive Detector :=
| frequentCancelDetector (th : FrequentCancelConfig)
| selfTradeDetector (th : SelfTradeConfig)
| washTradeDetector (th : WashTradeConfig)
| matchedFlippingDetector (th : MatchedFlippingConfig)
| spoofingDetector (th : SpoofingConfig)
| manipulationDetector (th : ManipulationConfig).

Definition Detect (d : Detector) (accountID : bytes) (orders : list OrderRecord)
    (trades : list TradeRecord) (now : Time) : option (list AbnormalAlert) :=
  match d with
  | frequentCancelDetector th => Some (frequentCancel th orders now)
  | selfTradeDetector th => Some (selfTrade th accountID trades now)
  | washTradeDetector th => Some (washTrade th trades now)
  | matchedFlippingDetector th => Some (matchedFlipping th accountID trades now)
  | spoofingDetector th => Some (spoofing th orders now)
  | manipulationDetector th => manipulation th trades now
  end.

Record AbnormalDetector := MkAbnormalDetector { thresholds : Thresholds; detectors : list Detector }.

Definition SetThresholds (t : Thresholds) (d : AbnormalDetector) : AbnormalDetector :=
  MkAbnormalDetector t
    [frequentCancelDetector (FrequentCancel t); selfTradeDetector (SelfTrade t);
     washTradeDetector (WashTrade t); matchedFlippingDetector (MatchedFlipping t);
     spoofingDetector (Spoofing t); manipulationDetector (Manipulation t)].

Definition NewAbnormalDetector : AbnormalDetector :=
  SetThresholds DefaultThresholds (MkAbnormalDetector DefaultThresholds []).

Definition RunAll (d : AbnormalDetector) (accountID : bytes) (orders : list OrderRecord)
    (trades : list TradeRecord) (now : Time) : option (list AbnormalAlert) :=
  (fun l => concat l) <$> mapM (fun det => Detect det accountID orders trades now) (detectors d).

End Detectors.
