(* ===== verification/Divestment.v ===== *)
(** * Divestment: the check of a shareholder's reduction plan

    src/pkg/compliance/divestment.go: the rules per type of shareholder, the
    lock-up periods, the rolling window of past reductions and the quantity
    approved. Holder types and methods are strings, as in the code; reasons
    and warnings are constructors. A rule stored by [SetRule] is the value it
    had then. *)

From stdpp Require Import base list strings gmap.
From Stdlib Require Import ZArith Lia SpecFloat.
From S2P Require Import Prelude GoMap GoFloat Domain GoSlice.

Open Scope Z_scope.

(** ** Data *)

Definition HolderTypeControlling : bytes := lit "controlling".
Definition HolderTypeDirector : bytes := lit "director".
Definition HolderTypeMajor5Pct : bytes := lit "major_5pct".
Definition HolderTypePreIPO : bytes := lit "pre_ipo".
Definition HolderTypePlacement : bytes := lit "placement".
Definition HolderTypeUnset : bytes := [].

Definition MethodAuction : bytes := lit "auction".
Definition MethodBlockTrade : bytes := lit "block".
Definition MethodAgreement : bytes := lit "agreement".
Definition MethodUnset : bytes := [].

Record LockupPeriod := MkLockup {
  lk_StartAt : Time; lk_EndAt : Time; lk_Reason : bytes; lk_Source : bytes; lk_Code : bytes;
  lk_Priority : Z
}.

Definition LockupIsActive (t : Time) (l : LockupPeriod) : bool :=
  negb (Before t (lk_StartAt l)) && negb (lk_EndAt l <? t).

Definition Overlaps (l o : LockupPeriod) : bool :=
  Before (lk_StartAt l) (lk_EndAt o) && Before (lk_StartAt o) (lk_EndAt l).

Record Reduction := MkReduction {
  rd_Symbol : bytes; rd_Method : bytes; rd_Quantity : float64; rd_At : Time; rd_Price : float64
}.

Record ShareholderProfile := MkShareholder {
  sh_UserID : bytes; sh_Symbol : bytes; sh_HolderType : bytes; sh_HoldingsPct : float64;
  sh_HoldingsShare : float64; sh_AcquiredAt : Time; sh_Lockups : list LockupPeriod
}.

Record ReductionPlan := MkPlan {
  pl_Symbol : bytes; pl_Quantity : float64; pl_Method : bytes; pl_At : Time
}.

Record DivestmentRule := MkDivestmentRule {
  dr_HolderType : bytes;
  dr_AuctionWindowDays : Z; dr_AuctionWindowCapPct : float64;
  dr_BlockWindowDays : Z; dr_BlockWindowCapPct : float64;
  dr_AgreementMinPct : float64; dr_DirectorAnnualCapPct : float64;
  dr_PreIPOLockupMonths : Z; dr_PlacementAuctionMonths : Z;
  dr_PlacementStrategicMonths : Z; dr_PlacementControllerMonths : Z
}.

Inductive reason :=
| SymbolsDiffer (profile plan : bytes)
| HolderTypeMissing
| MethodMissing
| QuantityNotPositive
| AboveHoldings (requested held : float64)
| RuleMissing (holder : bytes)
| InLockup (active : list LockupPeriod)
| AgreementTooSmall (minPct thisPct : float64)
| WindowClosed (holder method : bytes)
| AnnualCapExceeded (used proposed : float64)
| CutToWindow (approved requested : float64)
| WithinWindow.

Inductive warning := QuantityCut | BelowFivePct (post : float64) | BelowOnePct (post : float64).

Record DivestmentCheckResult := MkDivestmentResult {
  res_Allowed : bool; res_UserID : bytes; res_Symbol : bytes; res_HolderType : bytes;
  res_Method : bytes; res_CheckedAt : Time; res_RequestedQty : float64; res_ApprovedQty : float64;
  res_WindowStart : Time; res_WindowEnd : Time; res_WindowCapPct : float64;
  res_WindowUsedPct : float64; res_WindowRemainPct : float64; res_HoldPctAfter : float64;
  res_Reasons : list reason; res_Lockups : list LockupPeriod; res_Warnings : list warning
}.

(** ** Rules *)

(** A rule with the window limits most holder types share. *)
Definition windowed (holder : bytes) (annual : float64) (preIPO auction strategic controller : Z)
    : DivestmentRule :=
  MkDivestmentRule holder 90 f1 90 (f64_of_Z 2) (f64_of_Z 5) annual preIPO auction strategic controller.

Definition DefaultDivestmentRules : gmap bytes DivestmentRule :=
  list_to_map
    [ (HolderTypeControlling, windowed HolderTypeControlling f0 36 0 0 18);
      (HolderTypeDirector, windowed HolderTypeDirector (f64_of_Z 25) 0 0 0 0);
      (HolderTypeMajor5Pct, windowed HolderTypeMajor5Pct f0 0 0 0 0);
      (HolderTypePreIPO, MkDivestmentRule HolderTypePreIPO 0 f0 0 f0 f0 f0 36 0 0 0);
      (HolderTypePlacement, windowed HolderTypePlacement f0 0 6 18 18) ].

Inductive rule_error := HolderTypeIsUnset | HolderTypeMismatch (rule key : bytes).

Definition SetRule (t : bytes) (r : option DivestmentRule) (rules : gmap bytes DivestmentRule)
    : res rule_error (gmap bytes DivestmentRule) :=
  if bool_decide (t = HolderTypeUnset) then Err HolderTypeIsUnset
  else match r with
       | None => Ok (delete t rules)
       | Some r => if bool_decide (dr_HolderType r = t) then Ok (<[t := r]> rules)
                   else Err (HolderTypeMismatch (dr_HolderType r) t)
       end.

Definition ResetRules (rules : gmap bytes DivestmentRule) : gmap bytes DivestmentRule :=
  DefaultDivestmentRules.

(** ** Quantities *)

Definition hundred : float64 := f64_of_Z 100.

(** The company's shares, inferred from the holding. *)
Definition totalSharesFromPct (holdingsShare holdingsPct : float64) : float64 :=
  if (holdingsShare <=? f0)%f64 || (holdingsPct <=? f0)%f64 then f0
  else (holdingsShare / (holdingsPct / hundred))%f64.

(** The reductions that count: same symbol and method, in the closed window. *)
Definition counts (plan : ReductionPlan) (winStart winEnd : Time) (r : Reduction) : bool :=
  bool_decide (rd_Symbol r = pl_Symbol plan) && bool_decide (rd_Method r = pl_Method plan)
  && negb (Before (rd_At r) winStart || (winEnd <? rd_At r)).

Definition windowUsedPct (history : list Reduction) (plan : ReductionPlan) (winStart winEnd : Time)
    (holdingsShare holdingsPct : float64) : float64 :=
  let totalShares := totalSharesFromPct holdingsShare holdingsPct in
  if (totalShares <=? f0)%f64 then f0
  else
    let used := foldl (fun u r => if counts plan winStart winEnd r then (u + rd_Quantity r)%f64 else u)
                  f0 history in
    (used / totalShares * hundred)%f64.

Definition round4 (f : float64) : float64 := (Round (f * f64_of_Z 10000) / f64_of_Z 10000)%f64.

(** To whole lots of a hundred shares. *)
Definition to_lots (q : float64) : float64 := (Round (q / hundred) * hundred)%f64.

(** The window's days and its capacity for the method. *)
Definition window_of (rule : DivestmentRule) (method : bytes) : Z * float64 :=
  if bool_decide (method = MethodBlockTrade) then (dr_BlockWindowDays rule, dr_BlockWindowCapPct rule)
  else (dr_AuctionWindowDays rule, dr_AuctionWindowCapPct rule).

(** The request cut to the window's capacity and to the holding. *)
Definition approved_before_lots (profile : ShareholderProfile) (plan : ReductionPlan)
    (remaining : float64) : float64 :=
  let hs := sh_HoldingsShare profile in
  let hp := sh_HoldingsPct profile in
  let approvedByPct := if (hs >? f0)%f64 then (remaining / hundred * (hs / (hp / hundred)))%f64
                       else (remaining / hundred * totalSharesFromPct hs hp)%f64 in
  let approved := pl_Quantity plan in
  let approved := if (approved >? approvedByPct)%f64 then approvedByPct else approved in
  if (hs >? f0)%f64 && (approved >? hs)%f64 then hs else approved.

(** Warnings of falling below the five and the one percent line. *)
Definition line_warnings (holdingsPct post : float64) : list warning :=
  if (holdingsPct >? f0)%f64 then
    (if (post >? f0)%f64 && (post <? f64_of_Z 5)%f64 && (holdingsPct >=? f64_of_Z 5)%f64
     then [BelowFivePct post] else [])
    ++ (if (post >? f0)%f64 && (post <? f1)%f64 && (holdingsPct >=? f1)%f64 then [BelowOnePct post] else [])
  else [].

Section Check.
Context `{!SliceSort}.

(** Higher priority first, then the earlier start. *)
Definition lockup_before (a b : LockupPeriod) : bool :=
  if negb (lk_Priority a =? lk_Priority b) then lk_Priority b <? lk_Priority a
  else Before (lk_StartAt a) (lk_StartAt b).

Definition activeLockupsAt (lockups : list LockupPeriod) (t : Time) : list LockupPeriod :=
  Slice lockup_before (filter (fun l => LockupIsActive t l = true) lockups).

(** The refusals before the window is computed. *)
Definition refusal (rules : gmap bytes DivestmentRule) (profile : ShareholderProfile)
    (plan : ReductionPlan) : res reason (DivestmentRule * Z * float64) :=
  let holder := sh_HolderType profile in
  let hs := sh_HoldingsShare profile in
  if negb (bool_decide (sh_Symbol profile = [])) && negb (bool_decide (pl_Symbol plan = []))
     && negb (bool_decide (sh_Symbol profile = pl_Symbol plan))
  then Err (SymbolsDiffer (sh_Symbol profile) (pl_Symbol plan))
  else if bool_decide (holder = HolderTypeUnset) then Err HolderTypeMissing
  else if bool_decide (pl_Method plan = MethodUnset) then Err MethodMissing
  else if (pl_Quantity plan <=? f0)%f64 then Err QuantityNotPositive
  else if (hs >? f0)%f64 && (pl_Quantity plan >? hs)%f64 then Err (AboveHoldings (pl_Quantity plan) hs)
  else match rules !! holder with
       | None => Err (RuleMissing holder)
       | Some rule =>
           match activeLockupsAt (sh_Lockups profile) (pl_At plan) with
           | (_ :: _) as active => Err (InLockup active)
           | [] =>
               let pctThisTrade := (pl_Quantity plan / hs * sh_HoldingsPct profile)%f64 in
               if bool_decide (pl_Method plan = MethodAgreement) && (sh_HoldingsPct profile >? f0)%f64
                  && (pctThisTrade <? dr_AgreementMinPct rule)%f64
               then Err (AgreementTooSmall (dr_AgreementMinPct rule) pctThisTrade)
               else
                 let '(windowDays, windowCap) := window_of rule (pl_Method plan) in
                 if (windowDays <=? 0) || (windowCap <=? f0)%f64
                 then Err (WindowClosed holder (pl_Method plan))
                 else Ok (rule, windowDays, windowCap)
           end
       end.

(** A director's yearly limit: what is over it, or the limit itself. *)
Definition annual_cap (rule : DivestmentRule) (profile : ShareholderProfile) (plan : ReductionPlan)
    (recent : list Reduction) : res reason float64 :=
  if bool_decide (sh_HolderType profile = HolderTypeDirector) then
    let hs := sh_HoldingsShare profile in
    let hp := sh_HoldingsPct profile in
    let annualUsed := windowUsedPct recent plan (AddDate (-1) 0 0 (pl_At plan)) (pl_At plan) hs hp in
    let total := totalSharesFromPct hs hp in
    let proposedPct := if (total >? f0)%f64 then (pl_Quantity plan / total * hundred)%f64 else f0 in
    if (annualUsed + proposedPct >? dr_DirectorAnnualCapPct rule)%f64
    then Err (AnnualCapExceeded annualUsed proposedPct)
    else Ok (dr_DirectorAnnualCapPct rule)
  else Ok (S754_infinity false).

(** What is left of the window. *)
Definition remaining_pct (windowCap cap usedPct : float64) : float64 :=
  let remaining := MathMin (windowCap - usedPct)%f64 (cap - usedPct)%f64 in
  if (remaining <? f0)%f64 then f0 else remaining.

Definition Check (rules : gmap bytes DivestmentRule) (now : Time) (profile : ShareholderProfile)
    (plan : ReductionPlan) (recent : list Reduction) : DivestmentCheckResult :=
  let result allowed approved wstart wend cap used remain post reasons lockups warnings :=
    MkDivestmentResult allowed (sh_UserID profile) (pl_Symbol plan) (sh_HolderType profile)
      (pl_Method plan) now (pl_Quantity plan) approved wstart wend cap used remain post
      reasons lockups warnings in
  match refusal rules profile plan with
  | Err why => result false f0 0 0 f0 f0 f0 f0 [why]
                 (match why with InLockup active => active | _ => [] end) []
  | Ok (rule, windowDays, windowCap) =>
      let windowStart := AddDate 0 0 (- windowDays) (pl_At plan) in
      let usedPct := windowUsedPct recent plan windowStart (pl_At plan)
                       (sh_HoldingsShare profile) (sh_HoldingsPct profile) in
      match annual_cap rule profile plan recent with
      | Err why => result false f0 windowStart (pl_At plan) windowCap (round4 usedPct) f0 f0 [why] [] []
      | Ok cap =>
          let remaining := remaining_pct windowCap cap usedPct in
          let approved := to_lots (approved_before_lots profile plan remaining) in
          let hp := sh_HoldingsPct profile in
          let post := if (sh_HoldingsShare profile >? f0)%f64
                      then round4 (hp - approved / sh_HoldingsShare profile * hp)%f64 else f0 in
          let cut := (approved <? pl_Quantity plan)%f64 in
          result true approved windowStart (pl_At plan) windowCap (round4 usedPct) (round4 remaining) post
            [if cut then CutToWindow approved (pl_Quantity plan) else WithinWindow] []
            ((if cut then [QuantityCut] else []) ++ line_warnings hp post)
      end
  end.

End Check.
