(* ===== verification/Suitability.v ===== *)
(** * Suitability: who may trade on which board

    src/pkg/compliance/appropriateness.go: the requirements per board, an
    investor's profile and the check of one against the other. Reasons are
    constructors; the display texts are left out. *)

From stdpp Require Import base list strings gmap.
From Stdlib Require Import ZArith Lia.
From S2P Require Import Prelude GoMap GoFloat Domain GoSlice MarketRules.

Open Scope Z_scope.

(** ** Requirements *)

(** A level from 0 (not tested) to 5. *)
Definition RiskLevelUnset : Z := 0.
Definition RiskLevelConservative : Z := 1.
Definition RiskLevelCautious : Z := 2.
Definition RiskLevelSteady : Z := 3.
Definition RiskLevelAggressive : Z := 4.
Definition RiskLevelSpeculative : Z := 5.

(** [Board.String]. *)
Definition board_string (b : Board) : bytes :=
  match b with
  | BoardMainBoardSH => lit "main_sh" | BoardMainBoardSZ => lit "main_sz"
  | BoardChiNext => lit "chinext" | BoardSTAR => lit "star" | BoardBSE => lit "bse"
  | BoardETF => lit "etf" | BoardBond => lit "bond" | BoardIndex => lit "index"
  | BoardFundLOF => lit "lof" | BoardUnknown => lit "unknown"
  | BoardOther s => s
  end.

Record BoardRequirement := MkRequirement {
  rq_Board : Board; rq_AssetThresholdCNY : float64; rq_ExperienceMonths : Z; rq_RiskLevel : Z
}.

Definition DefaultBoardRequirements : list BoardRequirement :=
  [ MkRequirement BoardChiNext (f64_of_Z 100000) 24 RiskLevelSteady;
    MkRequirement BoardSTAR (f64_of_Z 500000) 24 RiskLevelAggressive;
    MkRequirement BoardBSE (f64_of_Z 1000000) 24 RiskLevelAggressive ].

(** The registry: at most one requirement per board. *)
Definition Requirements : Type := Board -> option BoardRequirement.

Definition buildDefaultRegistry : Requirements :=
  fun b => foldl (fun r req => if bool_decide (rq_Board req = b) then Some req else r) None
             DefaultBoardRequirements.

Definition LookupRequirement (registry : Requirements) (board : Board) : option BoardRequirement :=
  registry board.

Inductive requirement_error :=
| BoardEmpty
| AssetThresholdNegative (x : float64)
| ExperienceNegative (n : Z)
| RiskLevelOutOfRange (n : Z).

Definition SetRequirement (board : Board) (req : option BoardRequirement) (registry : Requirements)
    : res requirement_error Requirements :=
  if bool_decide (board_string board = []) then Err BoardEmpty
  else match req with
       | Some r =>
           if (rq_AssetThresholdCNY r <? f0)%f64 then Err (AssetThresholdNegative (rq_AssetThresholdCNY r))
           else if rq_ExperienceMonths r <? 0 then Err (ExperienceNegative (rq_ExperienceMonths r))
           else if (rq_RiskLevel r <? RiskLevelUnset) || (RiskLevelSpeculative <? rq_RiskLevel r)
           then Err (RiskLevelOutOfRange (rq_RiskLevel r))
           else Ok (fun b => if bool_decide (b = board) then Some r else registry b)
       | None => Ok (fun b => if bool_decide (b = board) then None else registry b)
       end.

Definition ResetRegistry (registry : Requirements) : Requirements := buildDefaultRegistry.

(** ** Profiles *)

Record SuitabilityProfile := MkProfile {
  pf_UserID : bytes; pf_AssetDailyAvgCNY : float64; pf_FirstTradeAt : Time; pf_RiskLevel : Z;
  pf_BoardsEnabled : list bytes; pf_RiskTestExpiredAt : Time
}.

Definition ExperienceMonths (p : SuitabilityProfile) (now : Time) : Z :=
  let first := pf_FirstTradeAt p in
  if IsZero first then 0
  else if Before now first then 0
  else
    let years := Year now - Year first in
    let months := Month now - Month first in
    let total := years * 12 + months in
    let total := if Day now <? Day first then total - 1 else total in
    if total <? 0 then 0 else total.

(** No list means every board. *)
Definition IsBoardEnabled (p : SuitabilityProfile) (board : Board) : bool :=
  match pf_BoardsEnabled p with
  | [] => true
  | l => bool_decide (board_string board ∈ l)
  end.

(** ** The check *)

Inductive refusal_reason :=
| RiskTestExpired (at_ : Time)
| RiskLevelTooLow (level required : Z)
| AssetsTooLow (assets required : float64)
| ExperienceTooShort (months required : Z)
| BoardNotEnabled (board : Board).

Record CheckResult := MkCheckResult {
  cr_Allowed : bool; cr_Board : Board; cr_Reasons : list refusal_reason; cr_UserID : bytes;
  cr_ProfileAge : Z; cr_AssetDaily : float64; cr_RiskLevel : Z;
  cr_Required : option BoardRequirement; cr_CheckedAt : Time
}.

Definition reasons_against (p : SuitabilityProfile) (board : Board) (now : Time) (req : BoardRequirement)
    : list refusal_reason :=
  (if negb (IsZero (pf_RiskTestExpiredAt p)) && (pf_RiskTestExpiredAt p <? now)
   then [RiskTestExpired (pf_RiskTestExpiredAt p)] else [])
  ++ (if pf_RiskLevel p <? rq_RiskLevel req then [RiskLevelTooLow (pf_RiskLevel p) (rq_RiskLevel req)] else [])
  ++ (if (pf_AssetDailyAvgCNY p <? rq_AssetThresholdCNY req)%f64
      then [AssetsTooLow (pf_AssetDailyAvgCNY p) (rq_AssetThresholdCNY req)] else [])
  ++ (if ExperienceMonths p now <? rq_ExperienceMonths req
      then [ExperienceTooShort (ExperienceMonths p now) (rq_ExperienceMonths req)] else [])
  ++ (if IsBoardEnabled p board then [] else [BoardNotEnabled board]).

Definition Check (registry : Requirements) (p : SuitabilityProfile) (board : Board) (now : Time)
    : CheckResult :=
  let req := LookupRequirement registry board in
  let result allowed reasons :=
    MkCheckResult allowed board reasons (pf_UserID p) (ExperienceMonths p now)
      (pf_AssetDailyAvgCNY p) (pf_RiskLevel p) req now in
  match req with
  | None => result true []
  | Some r => let reasons := reasons_against p board now r in
              result (match reasons with [] => true | _ => false end) reasons
  end.

Definition CheckSymbol (registry : Requirements) (p : SuitabilityProfile) (symbol : bytes) (now : Time)
    : CheckResult :=
  Check registry p (ClassifySymbol symbol) now.
