(* ===== verification/LargeTrades.v ===== *)
(** * LargeTrades: the daily report of large transactions

    src/pkg/compliance/reporter.go: the reporter's configuration and the
    report built from the trades of a day. Dates and the day's bounds are
    those of UTC. The notes of entries (texts) and the file WriteReport
    produces are left out. *)

From stdpp Require Import base list strings gmap.
From Stdlib Require Import ZArith Lia Ascii.
From S2P Require Import Prelude GoMap GoFloat Domain GoSlice AbnormalTrade.

Open Scope Z_scope.

(** ** Configuration *)

Record LargeTradeConfig := MkLargeTradeConfig {
  lc_SingleThresholdCNY : float64; lc_CumulativeThresholdCNY : float64;
  lc_AccountWhitelist : gmap bytes bool; lc_OutputPath : bytes
}.

Definition reports_path : bytes := lit "compliance/reports".

Definition DefaultLargeTradeConfig : LargeTradeConfig :=
  MkLargeTradeConfig (f64_of_Z 2000000) (f64_of_Z 5000000) ∅ reports_path.

(** A reporter is its configuration; a nil whitelist reads as an empty one. *)
Definition NewLargeTraderReporter (cfg : LargeTradeConfig) : LargeTradeConfig :=
  MkLargeTradeConfig
    (if (lc_SingleThresholdCNY cfg <=? f0)%f64 then f64_of_Z 2000000 else lc_SingleThresholdCNY cfg)
    (if (lc_CumulativeThresholdCNY cfg <=? f0)%f64 then f64_of_Z 5000000 else lc_CumulativeThresholdCNY cfg)
    (lc_AccountWhitelist cfg)
    (if bool_decide (lc_OutputPath cfg = []) then reports_path else lc_OutputPath cfg).

Definition SetAccountWhitelist (whitelist : gmap bytes bool) (r : LargeTradeConfig) : LargeTradeConfig :=
  MkLargeTradeConfig (lc_SingleThresholdCNY r) (lc_CumulativeThresholdCNY r) whitelist (lc_OutputPath r).

Definition whitelisted (r : LargeTradeConfig) (account : bytes) : bool :=
  default false (lc_AccountWhitelist r !! account).

(** ** The report *)

Definition flag_single : bytes := lit "single".
Definition flag_cumulative : bytes := lit "cumulative".
Definition flag_both : bytes := lit "both".

Record LargeTradeEntry := MkLargeTradeEntry {
  le_TradeID : bytes; le_OrderID : bytes; le_AccountID : bytes; le_Symbol : bytes; le_Direction : bytes;
  le_Quantity : float64; le_Price : float64; le_AmountCNY : float64; le_TradeTime : Time; le_Flag : bytes
}.

Record AccountCumulative := MkAccountCumulative {
  ac_AccountID : bytes; ac_TotalAmountCNY : float64; ac_TradeCount : Z;
  ac_FirstTradeAt : Time; ac_LastTradeAt : Time
}.

Record LargeTradeReport := MkLargeTradeReport {
  lr_GeneratedAt : Time; lr_TradingDate : bytes; lr_SingleThreshold : float64;
  lr_CumulativeThreshold : float64; lr_TotalTrades : Z; lr_TotalAmountCNY : float64;
  lr_LargeTrades : list LargeTradeEntry; lr_CumulativeByAccount : list AccountCumulative;
  lr_ExcludedAccounts : list bytes
}.

(** [strings.Index(s, ":")]. *)
Fixpoint colon_index (s : bytes) : option nat :=
  match s with
  | [] => None
  | c :: s => if Ascii.eqb c ":" then Some O else S <$> colon_index s
  end.

Definition accountFromTrade (t : TradeRecord) : bytes :=
  match colon_index (tr_OrderID t) with
  | Some (S _ as idx) => take idx (tr_OrderID t)
  | _ => lit "default-acct-" ++ tr_OrderID t
  end.

Definition amount_of (t : TradeRecord) : float64 := (tr_Price t * tr_Quantity t)%f64.

(** Midnight at the start of the day. *)
Definition day_start (day : Time) : Time := day / day_ns * day_ns.

Definition single_entry (t : TradeRecord) : LargeTradeEntry :=
  MkLargeTradeEntry (tr_TradeID t) (tr_OrderID t) (accountFromTrade t) (tr_Symbol t) (tr_Direction t)
    (tr_Quantity t) (tr_Price t) (amount_of t) (tr_TradeTime t) flag_single.

(** A trade added to its account's totals. *)
Definition add_trade (t : TradeRecord) (cum : option AccountCumulative) : AccountCumulative :=
  let cum := default (MkAccountCumulative (accountFromTrade t) f0 0 (tr_TradeTime t) (tr_TradeTime t)) cum in
  MkAccountCumulative (ac_AccountID cum) (ac_TotalAmountCNY cum + amount_of t)%f64 (ac_TradeCount cum + 1)
    (if Before (tr_TradeTime t) (ac_FirstTradeAt cum) then tr_TradeTime t else ac_FirstTradeAt cum)
    (if ac_LastTradeAt cum <? tr_TradeTime t then tr_TradeTime t else ac_LastTradeAt cum).

Record first_pass := MkPass {
  fp_excluded : gmap bytes bool; fp_accounts : gmap bytes AccountCumulative;
  fp_total : float64; fp_large : list LargeTradeEntry
}.

Definition pass_trade (r : LargeTradeConfig) (dayStart : Time) (s : first_pass) (t : TradeRecord) : first_pass :=
  if Before (tr_TradeTime t) dayStart || negb (Before (tr_TradeTime t) (dayStart + day_ns)) then s
  else
    let total := (fp_total s + amount_of t)%f64 in
    let account := accountFromTrade t in
    if whitelisted r account then MkPass (<[account := true]> (fp_excluded s)) (fp_accounts s) total (fp_large s)
    else MkPass (fp_excluded s) (<[account := add_trade t (fp_accounts s !! account)]> (fp_accounts s)) total
           (if (amount_of t >=? lc_SingleThresholdCNY r)%f64 then fp_large s ++ [single_entry t] else fp_large s).

(** The second pass: an entry of an account over the cumulative threshold. *)
Definition mark (over : gmap bytes float64) (e : LargeTradeEntry) : LargeTradeEntry :=
  match over !! le_AccountID e with
  | Some _ => MkLargeTradeEntry (le_TradeID e) (le_OrderID e) (le_AccountID e) (le_Symbol e) (le_Direction e)
                (le_Quantity e) (le_Price e) (le_AmountCNY e) (le_TradeTime e)
                (if bool_decide (le_Flag e = flag_single) then flag_both else flag_cumulative)
  | None => e
  end.

Definition aggregate_entry (account : bytes) (total : float64) (last : Time) : LargeTradeEntry :=
  MkLargeTradeEntry [] [] account (lit "(aggregate)") (lit "(mixed)") f0 f0 total last flag_cumulative.

Definition add_aggregate (accounts : gmap bytes AccountCumulative) (large : list LargeTradeEntry)
    (x : bytes * float64) : list LargeTradeEntry :=
  if existsb (fun e => bool_decide (le_AccountID e = x.1)) large then large
  else match accounts !! x.1 with
       | Some cum => large ++ [aggregate_entry x.1 x.2 (ac_LastTradeAt cum)]
       | None => large
       end.

Definition over_threshold (r : LargeTradeConfig) (cum : AccountCumulative) : bool :=
  (ac_TotalAmountCNY cum >=? lc_CumulativeThresholdCNY r)%f64.

(** The accounts over the threshold with their totals. *)
Definition cumulative_set (r : LargeTradeConfig) (accounts : gmap bytes AccountCumulative) : gmap bytes float64 :=
  omap (fun cum => if over_threshold r cum then Some (ac_TotalAmountCNY cum) else None) accounts.

Section Report.
Context `{!MapOrder, !SliceSort}.

Definition BuildReport (r : LargeTradeConfig) (generated : Time) (trades : list TradeRecord) (day : Time)
    : LargeTradeReport :=
  let s := foldl (pass_trade r (day_start day)) (MkPass ∅ ∅ f0 []) trades in
  let cumulativeOut := filter (fun cum => over_threshold r cum = true) (map snd (range 0 (fp_accounts s))) in
  let over := cumulative_set r (fp_accounts s) in
  let large := foldl (add_aggregate (fp_accounts s)) (map (mark over) (fp_large s)) (range 1 over) in
  MkLargeTradeReport generated (format_date day) (lc_SingleThresholdCNY r) (lc_CumulativeThresholdCNY r)
    (Z.of_nat (length trades)) (fp_total s)
    (Slice (fun a b => Before (le_TradeTime a) (le_TradeTime b)) large)
    (Slice (fun a b => bytes_ltb (ac_AccountID a) (ac_AccountID b)) cumulativeOut)
    (sortedKeys (fp_excluded s)).

End Report.
