(* ===== verification/ReportProps.v ===== *)
(** * ReportProps: what the daily report of large transactions contains

    The loops of BuildReport against a report described by filters over the
    trades, and the totals that count more than the report covers. *)

From stdpp Require Import base list strings gmap sorting.
From Stdlib Require Import ZArith Lia.
From S2P Require Import Prelude GoMap GoFloat FloatInt ShareLedger Domain GoSlice AbnormalTrade LargeTrades.

Open Scope Z_scope.

(** ** The report, described *)

Section Described.
Variable r : LargeTradeConfig.
Variable day : Time.

(** The trades of the day, and those of accounts that are not exempt. *)
Definition of_day (trades : list TradeRecord) : list TradeRecord :=
  filter (fun t => day_start day <= tr_TradeTime t < day_start day + day_ns) trades.
Definition reported (trades : list TradeRecord) : list TradeRecord :=
  filter (fun t => whitelisted r (accountFromTrade t) = false) (of_day trades).
Definition account_trades (a : bytes) (trades : list TradeRecord) : list TradeRecord :=
  filter (fun t => accountFromTrade t = a) (reported trades).

Definition total_of (l : list TradeRecord) : float64 := foldl (fun s t => s + amount_of t)%f64 f0 l.

(** The latest trade time. *)
Definition latest (l : list TradeRecord) : Time :=
  match l with
  | [] => 0
  | t :: l => foldl (fun m t => Z.max m (tr_TradeTime t)) (tr_TradeTime t) l
  end.

Definition singles (trades : list TradeRecord) : list TradeRecord :=
  filter (fun t => fle (lc_SingleThresholdCNY r) (amount_of t) = true) (reported trades).

(** An account that traded and reached the cumulative threshold. *)
Definition over (trades : list TradeRecord) (a : bytes) : bool :=
  match account_trades a trades with
  | [] => false
  | l => fle (lc_CumulativeThresholdCNY r) (total_of l)
  end.

(** The entry of a large trade. *)
Definition entry_of (trades : list TradeRecord) (t : TradeRecord) : LargeTradeEntry :=
  MkLargeTradeEntry (tr_TradeID t) (tr_OrderID t) (accountFromTrade t) (tr_Symbol t) (tr_Direction t)
    (tr_Quantity t) (tr_Price t) (amount_of t) (tr_TradeTime t)
    (if over trades (accountFromTrade t) then flag_both else flag_single).

(** ** The first pass *)

Definition account_fold (l : list TradeRecord) : option AccountCumulative :=
  foldl (fun c t => Some (add_trade t c)) None l.

Lemma account_fold_spec a l :
  Forall (fun t => accountFromTrade t = a) l ->
  match l with
  | [] => account_fold l = None
  | _ => exists from, account_fold l
           = Some (MkAccountCumulative a (total_of l) (Z.of_nat (length l)) from (latest l))
  end.
Proof.
  unfold account_fold. induction l as [|t l IH] using rev_ind; intros Hf; [done|].
  apply Forall_app in Hf as [Hf Ht]. apply Forall_cons in Ht as [Ht _]. specialize (IH Hf).
  destruct l as [|t0 l].
  - subst a. cbn [app]. exists (tr_TradeTime t). cbn. unfold add_trade, Before. cbn. by rewrite Z.ltb_irrefl.
  - destruct IH as [from IH]. change ((t0 :: l) ++ [t]) with (t0 :: (l ++ [t])).
    cbn [app]. exists (if Before (tr_TradeTime t) from then tr_TradeTime t else from).
    change (t0 :: l ++ [t]) with ((t0 :: l) ++ [t]). rewrite foldl_app, IH. cbn [foldl].
    unfold add_trade. cbn [default from_option id ac_AccountID ac_TotalAmountCNY ac_TradeCount ac_FirstTradeAt ac_LastTradeAt].
    unfold total_of. rewrite foldl_app, length_app. cbn [foldl length].
    do 2 f_equal; [lia|]. cbn [latest app]. rewrite foldl_app. cbn [foldl].
    destruct (_ <? tr_TradeTime t) eqn:E; lia.
Qed.

Lemma pass_spec trades :
  let s := foldl (pass_trade r (day_start day)) (MkPass ∅ ∅ f0 []) trades in
  fp_total s = total_of (of_day trades) /\ fp_large s = map single_entry (singles trades)
  /\ (forall a, fp_accounts s !! a = account_fold (account_trades a trades))
  /\ (forall a, is_Some (fp_excluded s !! a) <->
        exists t, t ∈ of_day trades /\ accountFromTrade t = a /\ whitelisted r a = true).
Proof.
  induction trades as [|t l IH] using rev_ind.
  { split_and!; try done. intros a. cbn. rewrite lookup_empty. split; [by intros []|by intros (t & ?%elem_of_nil & _)]. }
  cbv zeta in *. rewrite foldl_app. cbn [foldl]. set (s := foldl _ _ l) in *. clearbody s.
  destruct IH as (I1 & I2 & I3 & I4).
  unfold singles, account_trades, reported. unfold of_day at 1 2 3 4. rewrite !filter_app.
  unfold pass_trade, Before. destruct (_ || _) eqn:E.
  { rewrite (filter_cons_False (fun t => _ <= tr_TradeTime t < _)) by lia.
    cbn. rewrite !app_nil_r. split_and!; done. }
  rewrite (filter_cons_True (fun t => _ <= tr_TradeTime t < _)) by lia.
  change (filter (fun t => day_start day <= tr_TradeTime t < day_start day + day_ns) []) with (@nil TradeRecord).
  fold (of_day l). cbv zeta. destruct (whitelisted r (accountFromTrade t)) eqn:Ew; cbn [fp_total fp_large fp_accounts fp_excluded].
  - rewrite (filter_cons_False (fun t => whitelisted r _ = false)) by (by rewrite Ew).
    change (filter (fun t => whitelisted r (accountFromTrade t) = false) []) with (@nil TradeRecord).
    rewrite !app_nil_r. fold (reported l).
    split_and!; [by rewrite I1; unfold total_of; rewrite foldl_app|done|done|].
    intros a. destruct (decide (accountFromTrade t = a)) as [<-|Hne].
    + rewrite lookup_insert_eq. split; [intros _|by eauto]. exists t. split_and!; [|done|done].
      apply elem_of_app. right. by apply list_elem_of_singleton.
    + rewrite lookup_insert_ne, I4 by done. apply exist_proper. intros t'. rewrite elem_of_app, list_elem_of_singleton.
      split; [by intros (?&?&?); eauto|]. intros ([?| ->] & ? & ?); [done|done].
  - rewrite (filter_cons_True (fun t => whitelisted r _ = false)) by done.
    change (filter (fun t => whitelisted r (accountFromTrade t) = false) []) with (@nil TradeRecord).
    fold (reported l).
    split_and!; [by rewrite I1; unfold total_of; rewrite foldl_app| | |].
    + rewrite map_app. rewrite filter_cons. fold (singles l). destruct (fle _ _) eqn:Ef.
      * rewrite decide_True by done. by rewrite I2.
      * rewrite decide_False by done. by rewrite I2, app_nil_r.
    + intros a. rewrite filter_app, filter_cons. fold (account_trades a l). destruct (decide (accountFromTrade t = a)) as [<-|Hne].
      * rewrite lookup_insert_eq, I3. unfold account_fold. by rewrite foldl_app.
      * rewrite lookup_insert_ne, I3 by done. by rewrite app_nil_r.
    + intros a. rewrite I4. apply exist_proper. intros t'. rewrite elem_of_app, list_elem_of_singleton.
      split; [by intros (?&?&?); eauto|]. intros ([?| ->] & <- & Hw); [done|]. by rewrite Hw in Ew.
Qed.

End Described.

(** ** The second pass *)

Definition last_of (accounts : gmap bytes AccountCumulative) (a : bytes) : Time :=
  default 0 (ac_LastTradeAt <$> accounts !! a).

Lemma filter_iff_elem {A} (P Q : A -> Prop) `{!forall x, Decision (P x), !forall x, Decision (Q x)} (l : list A) :
  (forall x, x ∈ l -> P x <-> Q x) -> filter P l = filter Q l.
Proof.
  induction l as [|x l IH]; intros Hpq; [done|]. rewrite !filter_cons, IH by (intros; apply Hpq; by right).
  destruct (Hpq x) as [H1 H2]; [by left|]. destruct (decide (P x)), (decide (Q x)); tauto.
Qed.

Lemma aggregates_spec accounts L :
  NoDup (map fst L) -> Forall (fun x => is_Some (accounts !! x.1)) L -> forall large,
  foldl (add_aggregate accounts) large L
  = large ++ map (fun x => aggregate_entry x.1 x.2 (last_of accounts x.1))
               (filter (fun x => ~ x.1 ∈ map le_AccountID large) L).
Proof.
  induction L as [|[a v] L IH]; intros Hnd Hacc large; [by rewrite app_nil_r|].
  cbn [map fst] in Hnd. apply NoDup_cons in Hnd as [Ha Hnd]. apply Forall_cons in Hacc as [[cum Hc] Hacc]. cbn [fst] in Hc.
  cbn [foldl]. rewrite filter_cons. unfold add_aggregate at 2. cbn [fst snd].
  destruct (existsb _ large) eqn:E.
  - apply existsb_exists in E as (e & He & Hea). apply bool_decide_eq_true in Hea.
    rewrite decide_False; [by apply IH|]. intros Hn. apply Hn. rewrite <- Hea.
    apply list_elem_of_fmap_2. by apply list_elem_of_In.
  - assert (Hn : ~ a ∈ map le_AccountID large).
    { intros Hin. apply list_elem_of_fmap in Hin as (e & -> & He). apply not_true_iff_false in E. apply E.
      apply existsb_exists. exists e. split; [by apply list_elem_of_In|by apply bool_decide_eq_true_2]. }
    rewrite decide_True by done. rewrite Hc, IH by done. cbn [map fst snd]. rewrite <- app_assoc. cbn [app].
    do 2 f_equal. { unfold last_of. by rewrite Hc. }
    f_equal. apply filter_iff_elem. intros [b w] Hb. cbn [fst]. rewrite map_app, elem_of_app. cbn [map].
    rewrite list_elem_of_singleton. cbn [le_AccountID aggregate_entry]. split; [tauto|]. intros Hnb [?| ->]; [done|].
    apply Ha. change a with (a, w).1. by apply list_elem_of_fmap_2.
Qed.

Section ExactReport.
Context `{!MapOrder, !SliceSort}.
Variable r : LargeTradeConfig.
Variable day : Time.
Variable trades : list TradeRecord.

Abbreviation pass := (foldl (pass_trade r (day_start day)) (MkPass ∅ ∅ f0 []) trades).

(** What the first pass knows of an account. *)
Lemma account_known a :
  match fp_accounts pass !! a with
  | None => over r day trades a = false
  | Some c => ac_AccountID c = a /\ over_threshold r c = over r day trades a
              /\ ac_TotalAmountCNY c = total_of (account_trades r day a trades)
              /\ ac_LastTradeAt c = latest (account_trades r day a trades)
  end.
Proof.
  destruct (pass_spec r day trades) as (_ & _ & Hacc & _). rewrite Hacc.
  assert (Hall : Forall (fun t => accountFromTrade t = a) (account_trades r day a trades))
    by (apply Forall_forall; intros t Ht; by apply list_elem_of_filter in Ht as []).
  pose proof (account_fold_spec a _ Hall) as Hs. unfold over.
  destruct (account_trades r day a trades) as [|t l]; [by rewrite Hs|].
  destruct Hs as [from ->]. unfold over_threshold. cbn [ac_AccountID ac_TotalAmountCNY ac_LastTradeAt]. done.
Qed.

Lemma cumulative_lookup a :
  cumulative_set r (fp_accounts pass) !! a
  = if over r day trades a then Some (total_of (account_trades r day a trades)) else None.
Proof.
  unfold cumulative_set. rewrite lookup_omap. pose proof (account_known a) as Hk.
  destruct (fp_accounts pass !! a) as [c|]; cbn; [|by rewrite Hk].
  destruct Hk as (_ & -> & -> & _). done.
Qed.

Lemma marked_entries :
  map (mark (cumulative_set r (fp_accounts pass))) (fp_large pass)
  = map (entry_of r day trades) (singles r day trades).
Proof.
  destruct (pass_spec r day trades) as (_ & -> & _). rewrite map_map. apply map_ext. intros t.
  unfold mark. cbn [single_entry le_AccountID]. rewrite cumulative_lookup. unfold entry_of.
  by destruct (over r day trades (accountFromTrade t)).
Qed.

(** C19. The report of large transactions is complete and exact. Its entries are,
    in order of time, the trades of the day of accounts that are not exempt
    and whose amount reaches the single threshold, each once, flagged both
    when the account's amounts of the day reach the cumulative threshold; and
    one aggregate entry, with the account's total and latest trade time, for
    every account that reaches the cumulative threshold without such a trade.
    The accounts listed as cumulative are exactly those that reach it, and
    those listed as excluded exactly the exempt ones that traded that day. *)
Theorem large_report_is_exact generated :
  let rep := BuildReport r generated trades day in
  let large := singles r day trades in
  (exists accs, NoDup accs
     /\ (forall a, a ∈ accs <->
           over r day trades a = true /\ Forall (fun t => accountFromTrade t <> a) large)
     /\ lr_LargeTrades rep ≡ₚ map (entry_of r day trades) large
          ++ map (fun a => aggregate_entry a (total_of (account_trades r day a trades))
                             (latest (account_trades r day a trades))) accs)
  /\ StronglySorted (fun e e' => le_TradeTime e <= le_TradeTime e') (lr_LargeTrades rep)
  /\ (forall a, a ∈ map ac_AccountID (lr_CumulativeByAccount rep) <-> over r day trades a = true)
  /\ (forall a, a ∈ lr_ExcludedAccounts rep <->
        exists t, t ∈ of_day day trades /\ accountFromTrade t = a /\ whitelisted r a = true).
Proof.
  intros rep large. unfold rep, BuildReport.
  cbn [lr_LargeTrades lr_CumulativeByAccount lr_ExcludedAccounts]. rewrite marked_entries.
  set (over' := cumulative_set r (fp_accounts pass)). split_and!.
  - set (L := range 1 over'). exists (map fst (filter (fun x => ~ x.1 ∈ map le_AccountID (map (entry_of r day trades) large)) L)).
    assert (Hnd : NoDup (map fst L)) by (unfold L; rewrite range_perm; apply NoDup_fst_map_to_list).
    assert (HL : forall a v, (a, v) ∈ L <-> over r day trades a = true /\ v = total_of (account_trades r day a trades)).
    { intros a v. unfold L. rewrite range_elem. unfold over'. rewrite cumulative_lookup.
      destruct (over r day trades a); split; [by intros [= <-]|by intros [_ ->]|done|by intros []]. }
    split_and!.
    + eapply sublist_NoDup; [exact Hnd|]. apply fmap_sublist, sublist_filter.
    + intros a. rewrite map_map. rewrite list_elem_of_fmap. split.
      * intros ([b v] & -> & Hb). apply list_elem_of_filter in Hb as [Hn Hb]. apply HL in Hb as [Hb _].
        split; [done|]. apply Forall_forall. intros t Ht Ea. apply Hn. cbn [fst] in *. rewrite <- Ea.
        apply (list_elem_of_fmap_2 (fun x => le_AccountID (entry_of r day trades x)) large t Ht).
      * intros [Ho Hf]. exists (a, total_of (account_trades r day a trades)). split; [done|].
        apply list_elem_of_filter. split; [|by apply HL]. cbn [fst]. intros Hin.
        apply list_elem_of_fmap in Hin as (t & -> & Ht). rewrite Forall_forall in Hf. by apply (Hf t).
    + rewrite Slice_perm, aggregates_spec; [|done|].
      * apply Permutation_app_head. rewrite (map_map fst). apply Permutation_refl'. apply map_ext_in. intros [a v] Hx.
        apply list_elem_of_In, list_elem_of_filter in Hx as [_ Hx]. apply HL in Hx as [Ho ->]. cbn [fst snd].
        f_equal. unfold last_of. pose proof (account_known a) as Hk.
        destruct (fp_accounts pass !! a) as [c|]; [cbn; by destruct Hk as (_ & _ & _ & ->)|by rewrite Hk in Ho].
      * apply Forall_forall. intros [a v] Hx. apply HL in Hx as [Ho _]. cbn [fst].
        pose proof (account_known a) as Hk. destruct (fp_accounts pass !! a); [done|by rewrite Hk in Ho].
  - by apply (Slice_sorted le_TradeTime).
  - intros a. rewrite list_elem_of_fmap. split.
    + intros (c & -> & Hc). apply Slice_elem, list_elem_of_filter in Hc as [Hov Hc].
      apply list_elem_of_fmap in Hc as ([b c'] & -> & Hb). apply range_elem in Hb. cbn [snd] in *.
      pose proof (account_known b) as Hk. rewrite Hb in Hk. destruct Hk as (-> & <- & _). done.
    + intros Ho. pose proof (account_known a) as Hk.
      destruct (fp_accounts pass !! a) as [c|] eqn:Ec; [|by rewrite Hk in Ho].
      destruct Hk as (Ea & Eo & _). exists c. split; [done|]. apply Slice_elem, list_elem_of_filter.
      split; [by rewrite Eo|]. apply list_elem_of_fmap. exists (a, c). split; [done|by apply range_elem].
  - intros a. destruct (pass_spec r day trades) as (_ & _ & _ & Hex). rewrite <- Hex. apply elem_of_sortedKeys_iff.
Qed.

(** The totals of the report count more than it covers: all trades handed in,
    of whatever day, and the amounts of exempt accounts too. *)
Theorem report_totals generated :
  let rep := BuildReport r generated trades day in
  lr_TotalTrades rep = Z.of_nat (length trades) /\ lr_TotalAmountCNY rep = total_of (of_day day trades).
Proof. split; [done|]. exact (proj1 (pass_spec r day trades)). Qed.

End ExactReport.

(** ** A concrete report *)

Module ReportSample.
Definition trade (order : bytes) (qty : Z) (at_ : Time) : TradeRecord :=
  MkTradeRecord [] order (lit "600000.SH") (lit "buy") (f64_of_Z qty) (f64_of_Z 10) f0 at_.
(** One account with a single large trade, one with three smaller ones over
    the cumulative threshold, and one exempt. *)
Definition trades : list TradeRecord :=
  [trade (lit "a:1") 250000 500; trade (lit "b:1") 190000 300; trade (lit "b:2") 190000 200;
   trade (lit "b:3") 190000 100; trade (lit "x:1") 900000 50; trade (lit "a:2") 900000 (day_ns + 5)].
Definition config : LargeTradeConfig := SetAccountWhitelist {[lit "x" := true]} DefaultLargeTradeConfig.
Definition rep : LargeTradeReport := @BuildReport sorted_order merge_slice config 0 trades 7.
End ReportSample.

Example report_sample :
  map (fun e => (le_AccountID e, le_Flag e)) (lr_LargeTrades ReportSample.rep)
  = [(lit "b", flag_cumulative); (lit "a", flag_single)]
  /\ lr_ExcludedAccounts ReportSample.rep = [lit "x"]
  /\ lr_TradingDate ReportSample.rep = lit "0001-01-01".
Proof. vm_compute. repeat split. Qed.

Lemma large_report_is_exact_witness :
  lit "b" ∈ map ac_AccountID (lr_CumulativeByAccount ReportSample.rep).
Proof.
  apply (proj1 (proj2 (proj2 (@large_report_is_exact sorted_order merge_slice ReportSample.config 7
                                ReportSample.trades 0)))). vm_compute. reflexivity.
Defined.
