(* ===== verification/ComplianceProps.v ===== *)
(** * ComplianceProps: what the compliance rules guarantee

    Alerts rest on records of their window, the cancellation detectors fire
    exactly at their thresholds, the suitability check demands exactly its
    requirements, and what the manipulation detector and the divestment check
    get wrong. *)

From stdpp Require Import base list strings gmap sorting.
From Stdlib Require Import ZArith Lia.
From S2P Require Import Prelude GoMap GoFloat FloatInt FloatRound FloatError Domain GoSlice MarketRules.
From S2P Require Import ShareLedger AbnormalTrade Divestment Suitability.

Open Scope Z_scope.

(** ** Sorted slices *)

Lemma sorted_ends {A} (key : A -> Z) l a z x :
  StronglySorted (fun a b => key a <= key b) l -> head l = Some a -> last l = Some z ->
  x ∈ l -> key a <= key x <= key z.
Proof.
  intros Hs Ha Hz Hx. destruct l as [|b l]; [done|]. injection Ha as ->.
  split.
  - apply StronglySorted_inv in Hs as [_ Hf]. apply elem_of_cons in Hx as [->|Hx]; [done|].
    rewrite Forall_forall in Hf. by apply Hf.
  - apply last_Some in Hz as [l' El]. rewrite El in Hs, Hx. clear El.
    apply elem_of_app in Hx as [Hx|Hx]; [|apply list_elem_of_singleton in Hx as ->; done].
    apply StronglySorted_app_1_elem_of with (x1 := x) (x2 := z) in Hs; [done|done|by left].
Qed.

Lemma StronglySorted_sublist {A} (R : relation A) l k :
  sublist l k -> StronglySorted R k -> StronglySorted R l.
Proof.
  induction 1 as [|x l k Hs IH|x l k Hs IH]; intros Hk; [constructor| |].
  - apply StronglySorted_inv in Hk as [Hk Hf]. constructor; [by apply IH|].
    rewrite Forall_forall in Hf |- *. intros y Hy. apply Hf. by eapply elem_of_sublist.
  - apply StronglySorted_inv in Hk as [Hk _]. by apply IH.
Qed.

(** An element of the joined answers comes from one of them. *)
Lemma mapM_concat_elem {A B} (f : A -> option (list B)) l ys b :
  (fun r => concat r) <$> mapM f l = Some ys -> b ∈ ys -> exists x ys', x ∈ l /\ f x = Some ys' /\ b ∈ ys'.
Proof.
  intros Hm Hb. apply fmap_Some in Hm as (ls & Hm & ->).
  apply list_elem_of_In, in_concat in Hb as (y & Hy & Hb). apply list_elem_of_In in Hy, Hb.
  apply mapM_Some in Hm. apply list_elem_of_lookup in Hy as (i & Hi).
  eapply Forall2_lookup_r in Hi as (x & Hx & Hf); [|exact Hm]. exists x, y.
  split_and!; [by eapply list_elem_of_lookup_2|done|done].
Qed.

(** ** Evidence *)

Definition order_ground (orders : list OrderRecord) (since : Time) (sym : bytes) (ev : AlertEvidence) : Prop :=
  exists o, o ∈ orders /\ ev = order_evidence o /\ or_Symbol o = sym /\ since <= or_SubmittedAt o
    /\ or_Status o = cancelled_status.

Definition trade_ground (trades : list TradeRecord) (since : Time) (sym : bytes) (ev : AlertEvidence) : Prop :=
  exists t, t ∈ trades /\ ev = trade_evidence t /\ tr_Symbol t = sym /\ since <= tr_TradeTime t.

(** The window of the detector behind a category. *)
Definition category_window (th : Thresholds) (c : AbnormalCategory) : Z :=
  match c with
  | CategoryFrequentCancel => fc_Window (FrequentCancel th)
  | CategorySelfTrade => sf_Window (SelfTrade th)
  | CategoryWashTrade => wt_Window (WashTrade th)
  | CategoryMatchedFlipping => mf_Window (MatchedFlipping th)
  | CategorySpoofing => sp_Window (Spoofing th)
  | CategoryManipulation => mn_Window (Manipulation th)
  end.

(** An alert whose evidence is records of the input, of its own symbol, not
    older than the detector's window and inside the span it reports. *)
Definition grounded (th : Thresholds) (orders : list OrderRecord) (trades : list TradeRecord) (now : Time)
    (a : AbnormalAlert) : Prop :=
  al_DetectedAt a = now
  /\ Forall (fun ev => let since := now - category_window th (al_Category a) in
       match al_Category a with
       | CategoryFrequentCancel | CategorySpoofing => order_ground orders since (al_Symbol a) ev
       | _ => trade_ground trades since (al_Symbol a) ev
       end
       /\ al_WindowFrom a <= ev_Timestamp ev <= al_WindowTo a) (al_Evidence a).

(** ** Frequent cancellation *)

Section Scan.
Variable since : Time.

Definition recent_order (o : OrderRecord) : Prop := Before (or_SubmittedAt o) since = false.
Definition recent_cancel (o : OrderRecord) : Prop := recent_order o /\ or_Status o = cancelled_status.
#[global] Instance recent_order_dec o : Decision (recent_order o).
Proof. unfold recent_order. apply _. Defined.
#[global] Instance recent_cancel_dec o : Decision (recent_cancel o).
Proof. unfold recent_cancel. apply _. Defined.

Lemma scan_counts l :
  let s := foldl (scan_order since) (MkScan 0 0 [] 0 0) l in
  sc_submitted s = Z.of_nat (length (filter recent_order l))
  /\ sc_cancelled s = Z.of_nat (length (filter recent_cancel l))
  /\ sc_evidence s = order_evidence <$> filter recent_cancel l.
Proof.
  induction l as [|o l IH] using rev_ind; [done|].
  cbv zeta in *. rewrite foldl_app, !filter_app, !length_app. cbn [foldl]. destruct IH as (I1 & I2 & I3).
  unfold scan_order at 1 3 5. destruct (Before (or_SubmittedAt o) since) eqn:E.
  - assert (Hn : ~ recent_order o) by (unfold recent_order; by rewrite E).
    rewrite (filter_cons_False recent_order) by done.
    rewrite (filter_cons_False recent_cancel) by (by intros []).
    cbn. rewrite app_nil_r. split_and!; [lia|lia|done].
  - rewrite (filter_cons_True recent_order) by done. cbn [sc_submitted sc_cancelled sc_evidence].
    case_bool_decide as Ec.
    + rewrite (filter_cons_True recent_cancel) by done. cbn. rewrite fmap_app, I1, I2, I3.
      split_and!; [lia|lia|done].
    + rewrite (filter_cons_False recent_cancel) by (by intros []). cbn. rewrite app_nil_r, I1.
      split_and!; [lia|lia|done].
Qed.

Lemma scan_span l :
  0 < since ->
  let s := foldl (scan_order since) (MkScan 0 0 [] 0 0) l in
  (filter recent_order l = [] -> sc_from s = 0 /\ sc_to s = 0)
  /\ (filter recent_order l <> [] -> 0 < sc_from s)
  /\ Forall (fun o => sc_from s <= or_SubmittedAt o <= sc_to s) (filter recent_order l).
Proof.
  intros Hs. induction l as [|o l IH] using rev_ind; [by repeat constructor|].
  cbv zeta in *. rewrite foldl_app, filter_app. cbn [foldl]. destruct IH as (I1 & I2 & I3).
  set (s := foldl (scan_order since) (MkScan 0 0 [] 0 0) l) in *. clearbody s.
  unfold scan_order. destruct (Before (or_SubmittedAt o) since) eqn:E.
  { rewrite filter_cons_False by (by unfold recent_order; rewrite E). cbn. by rewrite app_nil_r. }
  rewrite filter_cons_True by done. change (filter recent_order []) with (@nil OrderRecord).
  cbn [sc_from sc_to]. unfold Before, IsZero in *. apply Z.ltb_ge in E.
  destruct (decide (filter recent_order l = [])) as [He|Hne].
  - destruct (I1 He) as [-> ->]. rewrite He. cbn [app Z.eqb orb].
    replace (0 <? or_SubmittedAt o) with true by lia. split_and!; [done|lia|].
    constructor; [lia|constructor].
  - specialize (I2 Hne). replace (sc_from s =? 0) with false by lia. cbn [orb].
    assert (Hto : sc_from s <= sc_to s).
    { destruct (filter recent_order l) as [|o' ?]; [done|]. apply Forall_cons in I3 as [I3 _]. lia. }
    split_and!; [by destruct (filter _ l)| |].
    + intros _. destruct (_ <? sc_from s) eqn:E1; lia.
    + apply Forall_app. split; [|constructor; [|constructor]].
      * eapply Forall_impl; [exact I3|]. cbv beta. intros o' Ho.
        destruct (_ <? sc_from s) eqn:E1, (sc_to s <? _) eqn:E2; lia.
      * destruct (_ <? sc_from s) eqn:E1, (sc_to s <? _) eqn:E2; lia.
Qed.
End Scan.

Section Grounded.
Context `{!MapOrder, !SliceSort}.
Variable th : Thresholds.
Variable orders : list OrderRecord.
Variable trades : list TradeRecord.
Variable now : Time.

Abbreviation sound := (grounded th orders trades now).

Lemma frequent_grounded a :
  0 < now - fc_Window (FrequentCancel th) ->
  a ∈ frequentCancel (FrequentCancel th) orders now -> sound a.
Proof.
  intros Hpos. unfold frequentCancel. rewrite list_elem_of_omap. intros ([sym g] & Hg & Ha).
  apply range_elem in Hg. cbn [fst snd] in Ha. unfold cancel_alert in Ha.
  set (l := Slice _ g) in Ha.
  destruct (scan_counts (now - fc_Window (FrequentCancel th)) l) as (_ & _ & Hev).
  destruct (scan_span (now - fc_Window (FrequentCancel th)) l Hpos) as (_ & _ & Hspan).
  set (s := foldl _ _ l) in *. destruct (sc_submitted s =? 0); [done|]. cbv zeta in Ha.
  destruct (_ && _); [|done]. injection Ha as <-. split; [done|].
  cbn [al_Evidence al_Category al_Symbol al_WindowFrom al_WindowTo]. rewrite Hev.
  apply Forall_fmap, Forall_forall. intros o Ho. apply list_elem_of_filter in Ho as [[Hr Hc] Ho].
  rewrite Forall_forall in Hspan. specialize (Hspan o).
  split; [|apply Hspan, list_elem_of_filter; done].
  assert (Hin : o ∈ g) by (by apply Slice_elem in Ho).
  destruct (group_by_elem _ _ _ _ _ Hg Hin) as [Hor Hsym]. exists o. split_and!; try done.
  unfold recent_order, Before in Hr. cbn [category_window]. lia.
Qed.

(** The trades of a window, by symbol. *)
Lemma trades_since_elem since sym g t :
  trades_since since trades !! sym = Some g -> t ∈ g ->
  t ∈ trades /\ tr_Symbol t = sym /\ since <= tr_TradeTime t.
Proof.
  intros Hg Ht. destruct (group_by_elem _ _ _ _ _ Hg Ht) as [Hf Hs].
  apply list_elem_of_filter in Hf as [Hb Hf]. split_and!; try done. unfold Before in Hb. lia.
Qed.

Lemma by_trade_time_sorted l : StronglySorted (fun a b => tr_TradeTime a <= tr_TradeTime b) (by_trade_time l).
Proof. by apply (Slice_sorted tr_TradeTime). Qed.

(** Trades of a group inside the span of the sorted group. *)
Lemma group_evidence since sym g l a z :
  trades_since since trades !! sym = Some g -> (forall t, t ∈ l -> t ∈ g) ->
  head (by_trade_time g) = Some a -> last (by_trade_time g) = Some z ->
  Forall (fun ev => trade_ground trades since sym ev /\ tr_TradeTime a <= ev_Timestamp ev <= tr_TradeTime z)
    (map trade_evidence l).
Proof.
  intros Hg Hl Ha Hz. apply Forall_fmap, Forall_forall. intros t Ht.
  destruct (trades_since_elem _ _ _ _ Hg (Hl t Ht)) as (Hin & Hs & Ht0). split; [by exists t|].
  apply (sorted_ends tr_TradeTime _ _ _ _ (by_trade_time_sorted g) Ha Hz), Slice_elem. by apply Hl.
Qed.

Lemma self_pairs_grounded th' acct sym l a :
  StronglySorted (fun a b => tr_TradeTime a <= tr_TradeTime b) l ->
  (forall t, t ∈ l -> t ∈ trades /\ tr_Symbol t = sym /\ now - sf_Window (SelfTrade th) <= tr_TradeTime t) ->
  a ∈ self_pairs th' acct now sym l -> sound a.
Proof.
  induction l as [|t l IH]; intros Hs Hin Ha; [by apply elem_of_nil in Ha|].
  apply StronglySorted_inv in Hs as [Hs Hle]. cbn [self_pairs] in Ha.
  apply elem_of_app in Ha as [Ha|Ha]; [|apply IH; [done| |done]; intros; apply Hin; by right].
  destruct (flt _ _); [by apply elem_of_nil in Ha|].
  destruct (List.find _ l) as [b|] eqn:E; [|by apply elem_of_nil in Ha].
  apply list_elem_of_singleton in Ha as ->. apply List.find_some in E as [Hb _].
  apply list_elem_of_In in Hb. rewrite Forall_forall in Hle. specialize (Hle b Hb).
  destruct (Hin t) as (T1 & T2 & T3); [by left|]. destruct (Hin b) as (B1 & B2 & B3); [by right|].
  split; [done|]. cbn. repeat constructor; cbn; try lia; [by exists t|by exists b].
Qed.

Lemma self_grounded acct a : a ∈ selfTrade (SelfTrade th) acct trades now -> sound a.
Proof.
  unfold selfTrade. case_bool_decide; [by intros ?%elem_of_nil|].
  rewrite list_elem_of_In, in_concat. intros (l & Hl & Ha). apply in_map_iff in Hl as ([sym g] & <- & Hg).
  apply list_elem_of_In, range_elem in Hg. apply list_elem_of_In in Ha. cbn [fst snd] in Ha.
  eapply self_pairs_grounded; [apply by_trade_time_sorted| |exact Ha].
  intros t Ht. apply Slice_elem in Ht. by eapply trades_since_elem.
Qed.

Lemma flipping_grounded acct a : a ∈ matchedFlipping (MatchedFlipping th) acct trades now -> sound a.
Proof.
  unfold matchedFlipping. case_bool_decide; [by intros ?%elem_of_nil|].
  rewrite list_elem_of_omap. intros ([sym g] & Hg & Ha). apply range_elem in Hg.
  cbn [fst snd] in Ha. unfold flipping_alert in Ha. destruct (_ <? _); [done|]. cbv zeta in Ha.
  destruct (by_trade_time g) as [|t l] eqn:El; [done|]. destruct (last (t :: l)) as [z|] eqn:Ez; [|done].
  destruct (_ <? _); [done|]. destruct (flt _ _); [done|]. injection Ha as <-. split; [done|].
  cbn [al_Evidence al_Category al_Symbol al_WindowFrom al_WindowTo].
  refine (group_evidence _ sym g (t :: l) t z Hg _ _ _); [|by rewrite El|by rewrite El].
  intros t'. rewrite <- El. apply Slice_elem.
Qed.

Lemma spoofing_grounded a : a ∈ spoofing (Spoofing th) orders now -> sound a.
Proof.
  unfold spoofing. rewrite list_elem_of_omap. intros ([sym g] & Hg & Ha). apply range_elem in Hg.
  cbn [fst snd] in Ha. unfold spoof_alert in Ha. destruct (_ <? _); [done|]. cbv zeta in Ha.
  set (l := Slice _ _) in Ha. destruct (head l) as [e1|] eqn:E1; [|done].
  destruct (last l) as [e2|] eqn:E2; [|done]. injection Ha as <-. split; [done|].
  cbn [al_Evidence al_Category al_Symbol al_WindowFrom al_WindowTo]. apply Forall_forall. intros ev Hev.
  split; [|by apply (sorted_ends ev_Timestamp l); [by apply (Slice_sorted ev_Timestamp)| | |]].
  apply Slice_elem, list_elem_of_fmap in Hev as (o & -> & Ho).
  destruct (group_by_elem _ _ _ _ _ Hg Ho) as [Hf Hs]. apply list_elem_of_filter in Hf as [Hf Hin].
  unfold fast_cancel, Before in Hf. do 3 apply andb_prop in Hf as [Hf _].
  apply andb_prop in Hf as [Hf Hc]. apply bool_decide_eq_true in Hc. exists o. split_and!; try done. cbn [category_window]. lia.
Qed.

(** A bucket holds trades of one symbol, in the order they came. *)
Definition bucket_ok (l : list TradeRecord) (b : (bytes * float64 * Z) * list TradeRecord) : Prop :=
  sublist b.2 l /\ Forall (fun t => tr_Symbol t = b.1.1.1) b.2.

Lemma bucket_grows l t b : bucket_ok l b -> bucket_ok (l ++ [t]) b.
Proof. intros [Hs Hf]. split; [by apply sublist_inserts_r|done]. Qed.

Lemma add_to_bucket_ok l t bs : Forall (bucket_ok l) bs -> Forall (bucket_ok (l ++ [t])) (add_to_bucket t bs).
Proof.
  induction bs as [|[k g] bs IH]; intros Hf; cbn [add_to_bucket].
  - constructor; [|constructor]. split; [by apply sublist_inserts_l|by repeat constructor].
  - apply Forall_cons in Hf as [[Hs Hk] Hf]. destruct (same_key k (wash_key t)) eqn:E.
    + constructor; [|eapply Forall_impl; [exact Hf|]; intros b; apply bucket_grows].
      unfold same_key in E. apply andb_prop in E as [E _]. apply andb_prop in E as [E _].
      apply bool_decide_eq_true in E. split; [by apply sublist_app|].
      apply Forall_app. split; [done|]. constructor; [exact (eq_sym E)|constructor].
    + constructor; [by apply bucket_grows|by apply IH].
Qed.

Lemma buckets_ok l : Forall (bucket_ok l) (foldl (fun bs t => add_to_bucket t bs) [] l).
Proof.
  induction l as [|t l IH] using rev_ind; [constructor|]. rewrite foldl_app. by apply add_to_bucket_ok.
Qed.

Lemma wash_grounded visit_buckets a :
  (forall bs, visit_buckets bs ≡ₚ bs) ->
  a ∈ washTrade visit_buckets (WashTrade th) trades now -> sound a.
Proof.
  intros Hv. unfold washTrade. cbv zeta. set (inWindow := filter _ trades).
  destruct (_ <? _)%nat; [by intros ?%elem_of_nil|].
  rewrite list_elem_of_omap. intros ([k g] & Hb & Ha). rewrite Hv in Hb.
  pose proof (buckets_ok (by_trade_time inWindow)) as Hok. rewrite Forall_forall in Hok.
  destruct (Hok _ Hb) as [Hsub Hsym]. cbn [fst snd] in Hsub, Hsym. unfold bucket_alert in Ha.
  destruct (_ <? _); [done|]. cbv zeta in Ha. destruct (_ || _); [done|].
  destruct (head g) as [t1|] eqn:E1; [|done]. destruct (last g) as [t2|] eqn:E2; [|done].
  injection Ha as <-. split; [done|]. cbn [al_Evidence al_Category al_Symbol al_WindowFrom al_WindowTo].
  apply Forall_fmap, Forall_forall. intros t Ht. split.
  - assert (Hin : t ∈ inWindow).
    { apply (Slice_elem (fun a b => tr_TradeTime a <? tr_TradeTime b)).
      by eapply elem_of_sublist. }
    apply list_elem_of_filter in Hin as [[Hr _] Hin]. unfold Before in Hr. rewrite Forall_forall in Hsym.
    exists t. split_and!; [done|done|by apply Hsym|]. cbn [category_window]. lia.
  - refine (sorted_ends tr_TradeTime g t1 t2 t _ E1 E2 Ht).
    eapply StronglySorted_sublist; [exact Hsub|apply by_trade_time_sorted].
Qed.

Lemma manipulation_grounded alerts a :
  manipulation (Manipulation th) trades now = Some alerts -> a ∈ alerts -> sound a.
Proof.
  unfold manipulation. intros Hm Hin.
  destruct (mapM_concat_elem _ _ _ _ Hm Hin) as ([sym g] & l & Hg & Hga & Ha). clear Hm Hin.
  apply range_elem in Hg. cbn [fst snd] in Hga. unfold manipulation_alerts in Hga.
  destruct (_ <? mn_MinTrades _); [injection Hga as <-; by apply elem_of_nil in Ha|].
  cbv zeta in Hga. destruct (_ <? 0); [done|].
  destruct (vwap_of _) as [vwap|]; [|injection Hga as <-; by apply elem_of_nil in Ha].
  set (tail := drop _ _) in Hga. injection Hga as <-.
  assert (Htail : forall t, t ∈ tail -> t ∈ g).
  { intros t Ht. apply (Slice_elem (fun a b => tr_TradeTime a <? tr_TradeTime b)).
    by eapply elem_of_sublist; [|apply sublist_drop]. }
  assert (Hrep : forall P (Hd : forall t, Decision (P t)),
    a ∈ (if mn_MinTrades (Manipulation th) <=? Z.of_nat (length (filter P tail)) then
           match head (by_trade_time g), last (by_trade_time g) with
           | Some t1, Some t2 => [MkAlert CategoryManipulation [] sym now (tr_TradeTime t1) (tr_TradeTime t2)
                                    true (map trade_evidence (filter P tail))]
           | _, _ => []
           end else []) -> sound a).
  { intros P Hd Hin. destruct (mn_MinTrades (Manipulation th) <=? Z.of_nat (length (filter P tail))); [|by apply elem_of_nil in Hin].
    destruct (head (by_trade_time g)) as [t1|] eqn:E1; [|by apply elem_of_nil in Hin].
    destruct (last (by_trade_time g)) as [t2|] eqn:E2; [|by apply elem_of_nil in Hin].
    apply list_elem_of_singleton in Hin as ->. split; [done|].
    refine (group_evidence _ sym g _ t1 t2 Hg _ E1 E2). intros t Ht.
    apply list_elem_of_filter in Ht as [_ Ht]. by apply Htail. }
  apply elem_of_app in Ha as [Ha|Ha]; eapply Hrep; exact Ha.
Qed.

(** C16. Every alert rests on records. Whatever the thresholds, the input and the
    orders in which maps are visited and equal times sorted: the evidence of
    every alert RunAll raises consists of records of the input, all of the
    symbol the alert names, none older than the window of the detector that
    raised it (for frequent cancellation and spoofing: cancelled orders, else
    trades), and all inside the span the alert reports; the alert carries the
    time of the run. *)
Theorem alerts_are_grounded visit_buckets d acct alerts :
  (forall bs, visit_buckets bs ≡ₚ bs) -> 0 < now - fc_Window (FrequentCancel th) ->
  RunAll visit_buckets (SetThresholds th d) acct orders trades now = Some alerts ->
  Forall (grounded th orders trades now) alerts.
Proof.
  intros Hv Hpos Hrun. apply Forall_forall. intros a Ha. unfold RunAll in Hrun.
  destruct (mapM_concat_elem _ _ _ _ Hrun Ha) as (det & l & Hdet & Hl & Hin).
  cbn [detectors SetThresholds] in Hdet. rewrite !elem_of_cons in Hdet.
  destruct Hdet as [->|[->|[->|[->|[->|[->|Hnil]]]]]]; cbn [Detect] in Hl; try (injection Hl as <-).
  - by apply frequent_grounded.
  - by eapply self_grounded.
  - by eapply wash_grounded.
  - by eapply flipping_grounded.
  - by apply spoofing_grounded.
  - by eapply manipulation_grounded.
  - by apply elem_of_nil in Hnil.
Qed.
End Grounded.

(** ** The cancellation detectors *)

(** The orders of a symbol since a time. *)
Definition orders_since (orders : list OrderRecord) (sym : bytes) (since : Time) : list OrderRecord :=
  filter (fun o => or_Symbol o = sym /\ since <= or_SubmittedAt o) orders.
Definition cancelled_of (l : list OrderRecord) : list OrderRecord :=
  filter (fun o => or_Status o = cancelled_status) l.
Definition fast_cancels (th : SpoofingConfig) (now : Time) (orders : list OrderRecord) (sym : bytes)
    : list OrderRecord :=
  filter (fun o => or_Symbol o = sym /\ fast_cancel th now o = true) orders.

Lemma filter_length_ext {A} (P Q : A -> Prop) `{!forall x, Decision (P x), !forall x, Decision (Q x)} l :
  (forall x, P x <-> Q x) -> length (filter P l) = length (filter Q l).
Proof. intros Hpq. f_equal. by apply list_filter_iff. Qed.

Section Exact.
Context `{!MapOrder, !SliceSort}.

(** A symbol has an alert exactly when its group has one. *)
Lemma alert_of_group {A} (k : nat) (m : gmap bytes (list A)) (f : bytes -> list A -> option AbnormalAlert) sym :
  (forall s g a, f s g = Some a -> al_Symbol a = s) ->
  (exists a, a ∈ omap (fun x => f x.1 x.2) (range k m) /\ al_Symbol a = sym)
  <-> exists g, m !! sym = Some g /\ is_Some (f sym g).
Proof.
  intros Hf. split.
  - intros (a & Ha & Hs). apply list_elem_of_omap in Ha as ([s g] & Hg & Ha). cbn [fst snd] in Ha.
    apply range_elem in Hg. pose proof (Hf _ _ _ Ha) as Hs'. rewrite Hs in Hs'. subst s. eauto.
  - intros (g & Hg & a & Ha). exists a. split; [|by eapply Hf]. apply list_elem_of_omap.
    exists (sym, g). split; [by apply range_elem|done].
Qed.

Lemma cancel_alert_iff th now orders sym g :
  g = filter (fun o => or_Symbol o = sym) orders ->
  let recent := orders_since orders sym (now - fc_Window th) in
  is_Some (cancel_alert th now sym g) <->
    recent <> [] /\ fc_MinCancelCount th <= Z.of_nat (length (cancelled_of recent))
    /\ fle (fc_MinCancelRate th)
         (fdiv (f64_of_Z (Z.of_nat (length (cancelled_of recent)))) (f64_of_Z (Z.of_nat (length recent)))) = true.
Proof.
  intros -> recent. unfold cancel_alert. cbv zeta. set (l := Slice _ _).
  destruct (scan_counts (now - fc_Window th) l) as (Hs & Hc & _). cbv zeta in Hs, Hc. rewrite Hs, Hc.
  assert (Hl : l ≡ₚ filter (fun o => or_Symbol o = sym) orders) by apply Slice_perm.
  assert (E1 : length (filter (recent_order (now - fc_Window th)) l) = length recent).
  { rewrite Hl, list_filter_filter. apply filter_length_ext. intros o. unfold recent_order, Before. rewrite Z.ltb_ge. tauto. }
  assert (E2 : length (filter (recent_cancel (now - fc_Window th)) l) = length (cancelled_of recent)).
  { unfold cancelled_of, recent, orders_since. rewrite Hl, !list_filter_filter. apply filter_length_ext.
    intros o. unfold recent_cancel, recent_order, Before. rewrite Z.ltb_ge. tauto. }
  rewrite E1, E2. destruct recent as [|o recent'] eqn:Er.
  { cbn. split; [by intros []|by intros []]. }
  destruct (Z.eqb_spec (Z.of_nat (length (o :: recent'))) 0) as [E0|_]; [cbn in E0; lia|]. destruct (_ && _) eqn:E.
  - apply andb_prop in E as [Ea Eb]. split; [|by eauto]. intros _. split_and!; [done|lia|done].
  - split; [by intros []|]. intros (_ & Ha & Hb). rewrite Hb, andb_true_r in E. lia.
Qed.

Lemma spoof_alert_iff th now sym g :
  g <> [] ->
  is_Some (spoof_alert th now sym g) <-> sp_MinCancelCount th <= Z.of_nat (length g).
Proof.
  intros Hne. unfold spoof_alert. destruct (_ <? _) eqn:E; [split; [by intros []|lia]|].
  split; [lia|]. intros _. cbv zeta. set (ev := Slice _ _).
  assert (Hev : ev <> []).
  { intros He. assert (Hp : ev ≡ₚ map order_evidence g) by apply Slice_perm. rewrite He in Hp.
    apply Permutation_nil_l in Hp. by destruct g. }
  destruct (head ev) as [a|] eqn:Ea; [|by destruct ev].
  destruct (last ev) as [z|] eqn:Ez; [by eauto|]. by apply last_None in Ez.
Qed.

(** The cancellation detectors fire exactly at their thresholds. A symbol
    gets a frequent-cancellation alert exactly when it has orders in the
    window, at least the minimum of them cancelled and the cancelled share at
    least the minimum rate; it gets a spoofing alert exactly when it has large
    orders of the window cancelled within the latency, and at least the
    minimum number of them. Neither depends on the order of the input. *)
Theorem cancel_detectors_are_exact fc sp orders now sym :
  let recent := orders_since orders sym (now - fc_Window fc) in
  let fast := fast_cancels sp now orders sym in
  ((exists a, a ∈ frequentCancel fc orders now /\ al_Symbol a = sym) <->
     recent <> [] /\ fc_MinCancelCount fc <= Z.of_nat (length (cancelled_of recent))
     /\ fle (fc_MinCancelRate fc)
          (fdiv (f64_of_Z (Z.of_nat (length (cancelled_of recent)))) (f64_of_Z (Z.of_nat (length recent)))) = true)
  /\ ((exists a, a ∈ spoofing sp orders now /\ al_Symbol a = sym) <->
        fast <> [] /\ sp_MinCancelCount sp <= Z.of_nat (length fast)).
Proof.
  intros recent fast. split.
  - unfold frequentCancel. rewrite alert_of_group.
    2:{ intros s g a. unfold cancel_alert. cbv zeta. repeat case_match; try done. by intros [= <-]. }
    split.
    + intros (g & Hg & Ha). apply group_by_Some in Hg as [Hg _]. by apply (cancel_alert_iff fc now orders sym g).
    + intros Hc. exists (filter (fun o => or_Symbol o = sym) orders).
      split; [|by apply (cancel_alert_iff fc now orders sym)].
      apply group_by_of. destruct Hc as [Hne _]. intros He. apply Hne. unfold recent, orders_since.
      rewrite (list_filter_iff _ (fun o => now - fc_Window fc <= or_SubmittedAt o /\ or_Symbol o = sym)) by tauto.
      by rewrite <- list_filter_filter, He.
  - unfold spoofing. rewrite alert_of_group.
    2:{ intros s g a. unfold spoof_alert. cbv zeta. repeat case_match; try done. by intros [= <-]. }
    assert (Hf : filter (fun o => or_Symbol o = sym) (filter (fun o => fast_cancel sp now o = true) orders) = fast)
      by apply list_filter_filter.
    split.
    + intros (g & Hg & Ha). apply group_by_Some in Hg as [Hg Hne]. rewrite Hf in Hg. subst g.
      split; [done|]. by apply spoof_alert_iff in Ha.
    + intros [Hne Hc]. exists fast. split; [|by apply spoof_alert_iff].
      rewrite <- Hf. apply group_by_of. by rewrite Hf.
Qed.
End Exact.

(** ** The baseline of the manipulation detector *)

Section Baseline.
Context `{!MapOrder, !SliceSort}.

Lemma filter_le_length {A} (P : A -> Prop) `{!forall x, Decision (P x)} l : (length (filter P l) <= length l)%nat.
Proof. apply sublist_length, sublist_filter. Qed.

Lemma manipulation_alerts_total th now sym g :
  0 <= mn_VWAPLookback th ->
  exists l, manipulation_alerts th now sym g = Some l /\ Forall (fun a => al_Symbol a = sym) l.
Proof.
  intros Hl. unfold manipulation_alerts. destruct (_ <? mn_MinTrades th); [by exists []|]. cbv zeta.
  set (n := if _ <? mn_VWAPLookback th then _ else _). assert (Hn : 0 <= n) by (subst n; destruct (_ <? _); lia).
  replace (n <? 0) with false by lia. destruct (vwap_of _) as [vwap|]; [|by exists []].
  eexists. split; [done|]. apply Forall_app. split; case_match; try done;
    destruct (head _); try done; destruct (last _); try done; by repeat constructor.
Qed.

Lemma manipulation_alerts_short th now sym g :
  0 <= mn_VWAPLookback th -> 1 <= mn_MinTrades th ->
  Z.of_nat (length g) < mn_VWAPLookback th + mn_MinTrades th ->
  manipulation_alerts th now sym g = Some [].
Proof.
  intros Hl Hm Hg. unfold manipulation_alerts. destruct (_ <? mn_MinTrades th); [done|]. cbv zeta.
  set (rows := by_trade_time g). assert (Hlen : length rows = length g) by (apply Permutation_length, Slice_perm).
  set (n := if _ <? mn_VWAPLookback th then _ else _). assert (Hn : 0 <= n) by (subst n; destruct (_ <? _); lia).
  replace (n <? 0) with false by lia. destruct (vwap_of _) as [vwap|]; [|done].
  assert (Htail : Z.of_nat (length (drop (Z.to_nat n) rows)) < mn_MinTrades th).
  { rewrite length_drop, Hlen. subst n. destruct (_ <? mn_VWAPLookback th) eqn:E; lia. }
  assert (Hf : forall P (Hd : forall t, Decision (P t)),
    (mn_MinTrades th <=? Z.of_nat (length (filter P (drop (Z.to_nat n) rows)))) = false).
  { intros P Hd. pose proof (filter_le_length P (drop (Z.to_nat n) rows)). lia. }
  by rewrite !Hf.
Qed.

(** Manipulation of a thinly traded symbol is never seen. The detector
    takes the first trades of its own window as the baseline and tests only
    what follows them: with a symbol's trades in the window fewer than the
    lookback plus the minimum (under the defaults, fewer than 23 in five
    minutes), no alert names it, at whatever prices it traded. The detector
    still answers. *)
Theorem thin_trading_is_not_tested th trades now sym :
  0 <= mn_VWAPLookback th -> 1 <= mn_MinTrades th ->
  Z.of_nat (length (filter (fun t => tr_Symbol t = sym /\ now - mn_Window th <= tr_TradeTime t) trades))
    < mn_VWAPLookback th + mn_MinTrades th ->
  exists alerts, manipulation th trades now = Some alerts /\ Forall (fun a => al_Symbol a <> sym) alerts.
Proof.
  intros Hl Hm Hthin. unfold manipulation.
  destruct (mapM_is_Some_2 (fun x => manipulation_alerts th now x.1 x.2)
              (range 4 (trades_since (now - mn_Window th) trades))) as [ls Hls].
  { apply Forall_forall. intros [s g] _. cbn [fst snd compose].
    destruct (manipulation_alerts_total th now s g Hl) as (l & Ml & _). exists l. exact Ml. }
  rewrite Hls. eexists. split; [done|]. apply Forall_forall. intros a Ha.
  assert (Hcat : (fun r => concat r) <$> mapM (fun x => manipulation_alerts th now x.1 x.2)
              (range 4 (trades_since (now - mn_Window th) trades)) = Some (concat ls)) by (by rewrite Hls).
  destruct (mapM_concat_elem _ _ _ _ Hcat Ha) as ([s g] & l & Hg & Hga & Hin). cbn [fst snd] in Hga.
  apply range_elem, group_by_Some in Hg as [Hg _]. rewrite list_filter_filter in Hg.
  destruct (manipulation_alerts_total th now s g Hl) as (l' & Hl' & Hsym). rewrite Hga in Hl'. injection Hl' as <-.
  rewrite Forall_forall in Hsym. rewrite (Hsym a Hin). intros ->.
  rewrite manipulation_alerts_short in Hga; [injection Hga as <-; by apply elem_of_nil in Hin|done|done|].
  rewrite Hg, (filter_length_ext _ (fun t => tr_Symbol t = sym /\ now - mn_Window th <= tr_TradeTime t)); [done|].
  intros t. unfold Before. by rewrite Z.ltb_ge.
Qed.
End Baseline.

(** ** Suitability *)

(** [n] months from [first] to [now]: the month counts of the calendar differ
    by more, or by exactly [n] and the day of the month is reached. *)
Definition months_passed (first now : Time) (n : Z) : Prop :=
  12 * Year first + Month first + n < 12 * Year now + Month now
  \/ (12 * Year first + Month first + n = 12 * Year now + Month now /\ Day first <= Day now).

Lemma ExperienceMonths_spec p now n :
  n <= ExperienceMonths p now <->
  n <= 0 \/ (pf_FirstTradeAt p <> 0 /\ pf_FirstTradeAt p <= now /\ months_passed (pf_FirstTradeAt p) now n).
Proof.
  unfold ExperienceMonths, months_passed, IsZero, Before. cbv zeta.
  destruct (pf_FirstTradeAt p =? 0) eqn:E0; [lia|]. destruct (now <? pf_FirstTradeAt p) eqn:E1; [lia|].
  destruct (Day now <? Day (pf_FirstTradeAt p)) eqn:E2; destruct (_ <? 0) eqn:E3; lia.
Qed.

(** C31. The suitability check demands exactly its requirements. A symbol may be
    traded exactly when its board has no requirement, or the risk test has
    not expired, the risk level reaches the board's, the assets are not below
    the threshold, the months since the first trade have passed on the
    calendar and the board is among those enabled (or none is listed). A
    refusal carries at least one reason and an approval none. *)
Theorem suitability_exact registry p symbol now :
  let board := ClassifySymbol symbol in
  let r := CheckSymbol registry p symbol now in
  (cr_Allowed r = true <->
     forall req, registry board = Some req ->
       (pf_RiskTestExpiredAt p = 0 \/ now <= pf_RiskTestExpiredAt p)
       /\ rq_RiskLevel req <= pf_RiskLevel p
       /\ flt (pf_AssetDailyAvgCNY p) (rq_AssetThresholdCNY req) = false
       /\ (rq_ExperienceMonths req <= 0
           \/ (pf_FirstTradeAt p <> 0 /\ pf_FirstTradeAt p <= now
               /\ months_passed (pf_FirstTradeAt p) now (rq_ExperienceMonths req)))
       /\ (pf_BoardsEnabled p = [] \/ board_string board ∈ pf_BoardsEnabled p))
  /\ (cr_Allowed r = true <-> cr_Reasons r = []).
Proof.
  intros board r. subst r. unfold CheckSymbol, Check, LookupRequirement. fold board.
  destruct (registry board) as [req|]; [|cbn; split; [|done]; split; [by intros _ req|done]].
  cbn [cr_Allowed cr_Reasons]. set (why := reasons_against p board now req).
  assert (Hwhy : (match why with [] => true | _ => false end) = true <-> why = []) by (by destruct why).
  split; [|done]. rewrite Hwhy. transitivity (reasons_against p board now req = []); [done|]. clear why Hwhy.
  assert (Hb : IsBoardEnabled p board = true <-> pf_BoardsEnabled p = [] \/ board_string board ∈ pf_BoardsEnabled p).
  { unfold IsBoardEnabled. destruct (pf_BoardsEnabled p); [by split; [left|]|].
    rewrite bool_decide_eq_true. split; [by right|by intros []]. }
  unfold reasons_against. rewrite !app_nil. unfold IsZero.
  split.
  - intros (H1 & H2 & H3 & H4 & H5) ? [= <-].
    rewrite <- ExperienceMonths_spec. split_and!.
    + destruct (_ =? 0) eqn:Ez; [left; lia|]. cbn [negb andb] in H1. destruct (_ <? now) eqn:El; [done|right; lia].
    + destruct (pf_RiskLevel p <? _) eqn:El; [done|lia].
    + by destruct (flt _ _).
    + destruct (ExperienceMonths p now <? _) eqn:El; [done|lia].
    + apply Hb. by destruct (IsBoardEnabled p board).
  - intros H. destruct (H req eq_refl) as (H1 & H2 & H3 & H4 & H5). rewrite <- ExperienceMonths_spec in H4.
    apply Hb in H5. rewrite H3, H5. replace (pf_RiskLevel p <? rq_RiskLevel req) with false by lia.
    replace (ExperienceMonths p now <? rq_ExperienceMonths req) with false by lia.
    replace (negb _ && _) with false by (destruct H1; [replace (pf_RiskTestExpiredAt p =? 0) with true by lia; done|
      symmetry; apply andb_false_intro2; lia]). done.
Qed.

(** ** Reductions *)

Section Reductions.
Context `{!SliceSort}.

Lemma no_active_lockup lockups t :
  activeLockupsAt lockups t = [] -> Forall (fun l => t < lk_StartAt l \/ lk_EndAt l < t) lockups.
Proof.
  unfold activeLockupsAt. intros He. apply Forall_forall. intros l Hl.
  destruct (LockupIsActive t l) eqn:Ea.
  - assert (Hin : l ∈ filter (fun l => LockupIsActive t l = true) lockups) by (by apply list_elem_of_filter).
    rewrite <- (Slice_elem lockup_before), He in Hin. by apply elem_of_nil in Hin.
  - unfold LockupIsActive, Before in Ea. apply andb_false_iff in Ea. lia.
Qed.

(** What the checks before the window establish. *)
Record admissible (rules : gmap bytes DivestmentRule) (profile : ShareholderProfile) (plan : ReductionPlan)
    (rule : DivestmentRule) (days : Z) (cap : float64) : Prop := {
  ad_rule : rules !! sh_HolderType profile = Some rule;
  ad_window : window_of rule (pl_Method plan) = (days, cap);
  ad_open : 0 < days /\ fle cap f0 = false;
  ad_lockups : Forall (fun l => pl_At plan < lk_StartAt l \/ lk_EndAt l < pl_At plan) (sh_Lockups profile);
  ad_positive : fle (pl_Quantity plan) f0 = false;
  ad_held : flt f0 (sh_HoldingsShare profile) = true -> flt (sh_HoldingsShare profile) (pl_Quantity plan) = false;
  ad_agreement : pl_Method plan = MethodAgreement -> flt f0 (sh_HoldingsPct profile) = true ->
    flt (pl_Quantity plan / sh_HoldingsShare profile * sh_HoldingsPct profile)%f64 (dr_AgreementMinPct rule) = false
}.

Lemma refusal_Ok rules profile plan rule days cap :
  refusal rules profile plan = Ok (rule, days, cap) -> admissible rules profile plan rule days cap.
Proof.
  unfold refusal. destruct (_ && _ && _); [done|]. destruct (bool_decide _); [done|].
  destruct (bool_decide (_ = MethodUnset)); [done|]. destruct (fle (pl_Quantity plan) f0) eqn:Eq; [done|].
  destruct (flt f0 (sh_HoldingsShare profile) && _) eqn:Eh; [done|].
  destruct (rules !! _) as [rule'|] eqn:Er; [|done].
  destruct (activeLockupsAt _ _) eqn:El; [|done].
  destruct (bool_decide (pl_Method plan = MethodAgreement) && _ && _) eqn:Ea; [done|].
  destruct (window_of rule' (pl_Method plan)) as [days' cap'] eqn:Ew.
  destruct ((days' <=? 0) || _) eqn:Eo; [done|]. intros [= <- <- <-].
  apply orb_false_iff in Eo as [Eo1 Eo2]. constructor; [done|done|split; [lia|done]| |done| |].
  - by apply no_active_lockup.
  - intros Hp. by rewrite Hp in Eh.
  - intros Hm Hp. rewrite bool_decide_eq_true_2, Hp in Ea by done. exact Ea.
Qed.

Lemma flt_not_le x y : flt x y = true -> fle y x = false.
Proof. intros Hlt. apply not_true_iff_false. intros Hl. apply fle_not_gt in Hl. congruence. Qed.

(** The shares of the plan's symbol sold by the plan's method from [since] to
    the plan's day, both included. *)
Definition reduced (recent : list Reduction) (plan : ReductionPlan) (since : Time) : float64 :=
  foldl fadd f0 (rd_Quantity <$> filter (fun r =>
    rd_Symbol r = pl_Symbol plan /\ rd_Method r = pl_Method plan /\ since <= rd_At r <= pl_At plan) recent).

Lemma windowUsedPct_reduced recent plan since hs hp :
  flt f0 hs = true -> flt f0 hp = true -> flt f0 (hs / (hp / hundred))%f64 = true ->
  windowUsedPct recent plan since (pl_At plan) hs hp
  = (reduced recent plan since / (hs / (hp / hundred)) * hundred)%f64.
Proof.
  intros Hs Hp Ht. unfold windowUsedPct, totalSharesFromPct.
  rewrite (flt_not_le _ _ Hs), (flt_not_le _ _ Hp). cbn [orb]. rewrite (flt_not_le _ _ Ht).
  do 2 f_equal. unfold reduced. generalize f0 as acc.
  induction recent as [|r recent IH]; intros acc; [done|]. cbn [foldl]. rewrite filter_cons, IH. unfold counts, Before.
  destruct (decide _) as [(H1 & H2 & H3)|Hno].
  - rewrite !bool_decide_eq_true_2 by done. replace (rd_At r <? since) with false by lia.
    by replace (pl_At plan <? rd_At r) with false by lia.
  - case_bool_decide as H1; [|done]. case_bool_decide as H2; [|done]. cbn [andb].
    destruct (rd_At r <? since) eqn:E1; [done|]. destruct (pl_At plan <? rd_At r) eqn:E2; [done|].
    destruct Hno. split_and!; [done|done|lia|lia].
Qed.

(** What the window leaves, in percent of the company: its capacity less
    what was sold in it, and for a director not more than the yearly limit
    less the same; never below zero. *)
Definition left_pct (profile : ShareholderProfile) (rule : DivestmentRule) (cap used : float64) : float64 :=
  let left := if bool_decide (sh_HolderType profile = HolderTypeDirector)
              then MathMin (cap - used)%f64 (dr_DirectorAnnualCapPct rule - used)%f64 else (cap - used)%f64 in
  if flt left f0 then f0 else left.

Lemma no_annual_limit cap used : MathMin (cap - used)%f64 (SpecFloat.S754_infinity false - used)%f64 = (cap - used)%f64.
Proof.
  assert (Hm : forall x, MathMin x (SpecFloat.S754_infinity false) = x) by (intros [[]|[]| |[]]; reflexivity).
  destruct used as [|[]| |]; try (apply Hm); destruct cap as [[]|[]| |[]]; reflexivity.
Qed.

(** The request, or what the window leaves, or the holding: the least. *)
Record cut_to_limits (profile : ShareholderProfile) (plan : ReductionPlan) (room q : float64) : Prop := {
  cl_request : flt (pl_Quantity plan) q = false;
  cl_held : flt (sh_HoldingsShare profile) q = false;
  cl_room : flt room q = false;
  cl_least : q = pl_Quantity plan \/ q = room \/ q = sh_HoldingsShare profile
}.

Lemma approved_cut profile plan left :
  let hs := sh_HoldingsShare profile in
  flt f0 hs = true ->
  cut_to_limits profile plan (left / hundred * (hs / (sh_HoldingsPct profile / hundred)))%f64
    (approved_before_lots profile plan left).
Proof.
  intros hs Hs. unfold approved_before_lots. fold hs. rewrite Hs. cbn [andb].
  set (room := (left / hundred * _)%f64). set (q := if flt room (pl_Quantity plan) then room else pl_Quantity plan).
  assert (Hq : flt (pl_Quantity plan) q = false /\ flt room q = false /\ (q = pl_Quantity plan \/ q = room)).
  { subst q. destruct (flt room _) eqn:E; split_and!; auto using flt_irrefl, flt_asym. }
  clearbody q. destruct Hq as (H1 & H2 & H3). destruct (flt hs q) eqn:E.
  - assert (Hlt : forall x, flt x q = false -> flt x hs = false).
    { intros x Hx. apply not_true_iff_false. intros Hxs. apply not_true_iff_false in Hx. apply Hx.
      apply (flt_le_trans _ hs); [by apply (flt_not_nan hs)|done|by apply flt_asym]. }
    constructor; fold hs; auto using flt_irrefl.
  - constructor; fold hs; auto. destruct H3; auto.
Qed.


(** To the nearest lot, up or down. *)
Lemma to_lots_near q :
  0 < q < 2 ^ 49 -> exists z, to_lots (f64_of_Z q) = f64_of_Z (100 * z) /\ 2 * Z.abs (100 * z - q) <= 100.
Proof.
  intros Hq. unfold to_lots, hundred. pose proof ulp1_pos as Hu.
  assert (Wq : whole_range q) by (unfold whole_range; lia).
  assert (Wh : whole_range 100) by (unfold whole_range; lia).
  pose proof (fmag_whole q Wq) as Mq. pose proof (fmag_whole 100 Wh) as Mh. fold ulp1 in Mq, Mh.
  assert (HP : 2 ^ 53 <= 2 ^ 900) by (apply Z.pow_le_mono_r; lia).
  destruct (fdiv_near (f64_of_Z q) (f64_of_Z 100)) as (Vy & Fy & Py & Ey);
    try (by apply fvalid_of_Z); try (by apply ffinite_whole); rewrite ?Mq, ?Mh; try (apply Z.mul_pos_pos; lia).
  { assert (100 <= q * 2 ^ 900) by nia. nia. }
  { assert (q <= 100 * 2 ^ 900) by nia. nia. }
  rewrite Mq, Mh in Ey. set (Y := fmag (f64_of_Z q / f64_of_Z 100)%f64) in *.
  assert (Ey' : Z.abs (100 * Y - q * ulp1) * 2 ^ 52 <= q * ulp1).
  { apply (Z.mul_le_mono_pos_r _ _ ulp1); [done|].
    replace (Y * (100 * ulp1) - q * ulp1 * ulp1) with ((100 * Y - q * ulp1) * ulp1) in Ey by ring.
    rewrite Z.abs_mul, (Z.abs_eq ulp1) in Ey by lia. lia. }
  clear Ey HP. assert (Hqu : q * ulp1 <= 2 ^ 49 * ulp1) by (apply Z.mul_le_mono_nonneg_r; lia).
  assert (Hsm : 8 * Z.abs (100 * Y - q * ulp1) <= ulp1) by lia.
  destruct (Round_near _ Vy Fy) as (z & Hz & Hzr & Hzy); [fold Y; lia|]. fold Y in Hzy. exists z. rewrite Hz.
  assert (Hfin : 2 * Z.abs (100 * z - q) <= 100).
  { assert (2 * Z.abs ((100 * z - q) * ulp1) <= 101 * ulp1 - 1) as Hb
      by (replace ((100 * z - q) * ulp1) with (100 * (z * ulp1 - Y) + (100 * Y - q * ulp1)) by ring; lia).
    rewrite Z.abs_mul, (Z.abs_eq ulp1) in Hb by lia. nia. }
  split; [|done]. destruct (Z.eq_dec z 0) as [->|Hz0]; [reflexivity|].
  rewrite fmul_whole by (unfold whole_range; lia). f_equal. lia.
Qed.

(** More may be approved than was asked for, and than is held. Approved
    quantities are rounded to the nearest lot instead of down: when a
    request for [q] shares that fits the window ends in more than fifty odd
    shares, the approved quantity is the next whole lot above it; of a
    holder who asks to sell all of it, that is more than the holding. *)
Theorem reduction_is_rounded_up rules now profile plan recent rule days cap annual q :
  refusal rules profile plan = Ok (rule, days, cap) -> annual_cap rule profile plan recent = Ok annual ->
  let used := windowUsedPct recent plan (pl_At plan - days * day_ns) (pl_At plan)
                (sh_HoldingsShare profile) (sh_HoldingsPct profile) in
  approved_before_lots profile plan (remaining_pct cap annual used) = pl_Quantity plan ->
  pl_Quantity plan = f64_of_Z q -> 0 < q < 2 ^ 49 -> 50 < q mod 100 ->
  let r := Divestment.Check rules now profile plan recent in
  res_Allowed r = true /\ res_ApprovedQty r = f64_of_Z (100 * (q / 100 + 1))
  /\ flt (res_RequestedQty r) (res_ApprovedQty r) = true
  /\ (sh_HoldingsShare profile = pl_Quantity plan -> flt (sh_HoldingsShare profile) (res_ApprovedQty r) = true).
Proof.
  intros Hr Ha used Hfit Hq Hqr Hodd r.
  assert (Happ : res_Allowed r = true /\ res_RequestedQty r = f64_of_Z q /\ res_ApprovedQty r = to_lots (f64_of_Z q)).
  { subst r. unfold Divestment.Check. rewrite Hr, Ha. cbv zeta. rewrite AddDate_days.
    replace (pl_At plan + - days * day_ns) with (pl_At plan - days * day_ns) by lia. fold used.
    cbn [res_Allowed res_RequestedQty res_ApprovedQty]. rewrite Hfit, Hq. done. }
  destruct Happ as (H1 & H2 & H3). destruct (to_lots_near q Hqr) as (z & Hz & Hnear).
  assert (z = q / 100 + 1) as -> by (Z.div_mod_to_equations; lia).
  assert (flt (f64_of_Z q) (f64_of_Z (100 * (q / 100 + 1))) = true) as Hlt.
  { rewrite flt_whole by (unfold whole_range; Z.div_mod_to_equations; lia). Z.div_mod_to_equations. lia. }
  rewrite H1, H2, H3, Hz. split_and!; [done|done|done|]. intros ->. by rewrite Hq.
Qed.
End Reductions.

(** Under the default rules a holder from before the listing is always
    refused, also after every lock-up has ended. *)
Theorem pre_ipo_holders_are_refused `{!SliceSort} now profile plan recent :
  sh_HolderType profile = HolderTypePreIPO ->
  res_Allowed (Divestment.Check DefaultDivestmentRules now profile plan recent) = false.
Proof.
  intros Ht. unfold Divestment.Check. destruct (refusal _ profile plan) as [[[rule days] cap]|why] eqn:Er; [|done].
  apply refusal_Ok in Er as [Hrule Hw [Ho _] _ _ _ _]. rewrite Ht in Hrule.
  assert (Some rule = Some (MkDivestmentRule HolderTypePreIPO 0 f0 0 f0 f0 f0 36 0 0 0)) as [= ->]
    by (rewrite <- Hrule; vm_compute; reflexivity).
  unfold window_of in Hw. case_bool_decide; injection Hw as <- _; cbn in Ho; lia.
Qed.

(** ** Concrete cases *)

Module ComplianceSample.
Definition now : Time := 1000 * minute.
Definition sym : bytes := lit "600000.SH".
Definition order (i : Z) (status : bytes) : OrderRecord :=
  MkOrderRecord [] sym (lit "buy") (f64_of_Z 20000) (f64_of_Z 10) f0 f0 status
    (now - i * 1000000000) (now - i * 1000000000 + 200000000).
Definition orders : list OrderRecord :=
  [order 1 cancelled_status; order 30 (lit "filled"); order 9 cancelled_status; order 4 cancelled_status;
   order 300 cancelled_status].
Definition trade (i price : Z) (dir : bytes) : TradeRecord :=
  MkTradeRecord [] [] sym dir (f64_of_Z 2000) (f64_of_Z price) f0 (now - i * 1000000000).
Definition trades : list TradeRecord := [trade 3 10 (lit "buy"); trade 50 10 (lit "sell"); trade 7 20 (lit "buy")].
Definition alerts : list AbnormalAlert :=
  default [] (@RunAll sorted_order merge_slice (fun bs => bs) NewAbnormalDetector (lit "acc") orders trades now).

Definition plan (method : bytes) (q : Z) : ReductionPlan := MkPlan sym (f64_of_Z q) method now.
Definition holder (type : bytes) (shares : Z) : ShareholderProfile :=
  MkShareholder [] sym type (f64_of_Z 10) (f64_of_Z shares) 0 [MkLockup 0 (now - 1) [] [] [] 0].
End ComplianceSample.

Import ComplianceSample.

Lemma alerts_are_grounded_witness :
  length alerts = 4%nat /\ Forall (grounded DefaultThresholds orders trades now) alerts.
Proof.
  split; [vm_compute; reflexivity|].
  apply (@alerts_are_grounded sorted_order merge_slice DefaultThresholds orders trades now
           (fun bs => bs) (MkAbnormalDetector DefaultThresholds []) (lit "acc")).
  - reflexivity.
  - vm_compute; reflexivity.
  - vm_compute; reflexivity.
Defined.

Lemma cancel_detectors_are_exact_witness :
  exists a, a ∈ @spoofing sorted_order merge_slice (Spoofing DefaultThresholds) orders now /\ al_Symbol a = sym.
Proof.
  apply (@cancel_detectors_are_exact sorted_order merge_slice (FrequentCancel DefaultThresholds)
           (Spoofing DefaultThresholds) orders now sym). split; vm_compute; discriminate.
Defined.

Lemma thin_trading_is_not_tested_witness :
  exists l, @manipulation sorted_order merge_slice (Manipulation DefaultThresholds) trades now = Some l
    /\ Forall (fun a => al_Symbol a <> sym) l.
Proof.
  apply (@thin_trading_is_not_tested sorted_order merge_slice (Manipulation DefaultThresholds) trades now sym);
    vm_compute; (reflexivity || discriminate).
Defined.


(** A director who sold twenty percent of the company in auctions this year
    may still sell a block of six percent: only auctions count against an
    auction, and only blocks against a block. *)
Example mixed_methods_pass_the_yearly_limit :
  let sold method := [MkReduction sym method (f64_of_Z 2000000) (now - 200 * day_ns) f0] in
  let check recent := res_Allowed (@Divestment.Check merge_slice DefaultDivestmentRules 0
    (holder HolderTypeDirector 1000000) (plan MethodBlockTrade 600000) recent) in
  totalSharesFromPct (f64_of_Z 1000000) (f64_of_Z 10) = f64_of_Z 10000000
  /\ check (sold MethodBlockTrade) = false /\ check (sold MethodAuction) = true.
Proof. vm_compute. repeat split. Qed.

Lemma reduction_is_rounded_up_witness :
  let r := @Divestment.Check merge_slice DefaultDivestmentRules 0 (holder HolderTypeMajor5Pct 5060)
             (plan MethodAuction 460) [] in
  res_ApprovedQty r = f64_of_Z 500 /\ flt (res_RequestedQty r) (res_ApprovedQty r) = true.
Proof.
  pose proof (@reduction_is_rounded_up merge_slice DefaultDivestmentRules 0 (holder HolderTypeMajor5Pct 5060)
    (plan MethodAuction 460) [] (windowed HolderTypeMajor5Pct f0 0 0 0 0) 90 f1 (SpecFloat.S754_infinity false) 460)
    as H. destruct H as (_ & H1 & H2 & _); try (vm_compute; reflexivity).
  - split; vm_compute; reflexivity.
  - split; [exact H1|exact H2].
Defined.

(** An agreement transfer must move five percent of the shares, and is then
    cut to the one percent of the auction window. *)
Example agreement_transfer_is_cut :
  let r := @Divestment.Check merge_slice DefaultDivestmentRules 0 (holder HolderTypeMajor5Pct 1000000)
             (plan MethodAgreement 600000) [] in
  dr_AgreementMinPct (windowed HolderTypeMajor5Pct f0 0 0 0 0) = f64_of_Z 5
  /\ res_Allowed r = true /\ res_ApprovedQty r = f64_of_Z 100000.
Proof. vm_compute. repeat split. Qed.
