(* ===== verification/Reconciliation.v ===== *)
(** * Reconciliation: the local books against the broker's

    src/pkg/live/reconciliation/reconciliation.go: the comparison of two
    snapshots of an account, the bounded history of reports and the worker
    that fetches, compares, stores and alerts. The two fetches of a cycle run
    in parallel and share nothing, so they are two answers. Notes (texts),
    logging and the report files are left out; what the persister and the
    dispatcher are handed is part of a cycle's outcome. *)

From stdpp Require Import base list strings gmap.
From Stdlib Require Import ZArith Lia.
From S2P Require Import Prelude GoMap GoFloat Domain GoSlice.

Open Scope Z_scope.

(** ** Configuration and snapshots *)

Definition second_ns : Z := 1000000000.

Record ReconciliationConfig := MkReconConfig {
  rc_Interval : Z; rc_CashTolerance : float64; rc_QuantityTolerance : float64; rc_MarketValueTol : float64;
  rc_FeeTolerance : float64; rc_ReportPath : bytes; rc_HistoryLimit : Z; rc_Enabled : bool
}.

Definition DefaultReconciliationConfig : ReconciliationConfig :=
  MkReconConfig (15 * 60 * second_ns) (flit 1 2) f0 (flit 5 3) (flit 1 2)
    (lit "compliance/reconciliation") 100 true.

Record PositionSnap := MkPositionSnap {
  ps_Symbol : bytes; ps_Quantity : float64; ps_AvgCost : float64; ps_MarketValue : float64
}.

Record CashSnap := MkCashSnap { cs_TotalCNY : float64; cs_Available : float64; cs_Frozen : float64 }.

Record FeeSnap := MkFeeSnap {
  fs_Commission : float64; fs_StampTax : float64; fs_Transfer : float64; fs_Other : float64
}.

Record AccountSnapshot := MkAccountSnapshot {
  as_AccountID : bytes; as_ReconciliationID : bytes; as_AsOf : Time; as_Cash : CashSnap;
  as_Positions : gmap bytes PositionSnap; as_Fees : FeeSnap
}.

Record LocalSnapshot := MkLocalSnapshot {
  ls_AccountID : bytes; ls_AsOf : Time; ls_Cash : CashSnap; ls_Positions : gmap bytes PositionSnap;
  ls_Fees : FeeSnap; ls_TodayPnL : float64
}.

(** ** Discrepancies *)

Inductive DiscrepancySeverity := SeverityCritical | SeverityWarning | SeverityInfo.
#[global] Instance DiscrepancySeverity_eq_dec : EqDecision DiscrepancySeverity.
Proof. solve_decision. Defined.

Inductive DiscrepancyKind :=
| KindCash | KindQuantity | KindMarketValue | KindFee | KindMissingLocal | KindMissingBroker.
#[global] Instance DiscrepancyKind_eq_dec : EqDecision DiscrepancyKind.
Proof. solve_decision. Defined.

(** The strings behind the kinds, by which discrepancies are sorted. *)
Definition kind_string (k : DiscrepancyKind) : bytes :=
  match k with
  | KindCash => lit "cash" | KindQuantity => lit "quantity" | KindMarketValue => lit "market_value"
  | KindFee => lit "fee" | KindMissingLocal => lit "missing_local" | KindMissingBroker => lit "missing_broker"
  end.

Record Discrepancy := MkDiscrepancy {
  d_Kind : DiscrepancyKind; d_Severity : DiscrepancySeverity; d_Symbol : bytes; d_Field : bytes;
  d_LocalVal : float64; d_BrokerVal : float64; d_Delta : float64; d_Tolerance : float64; d_DetectedAt : Time
}.

Record ReconciliationReport := MkReconReport {
  rr_GeneratedAt : Time; rr_AccountID : bytes; rr_LocalAsOf : Time; rr_BrokerAsOf : Time;
  rr_BridgeReconcID : bytes; rr_Local : LocalSnapshot; rr_Broker : AccountSnapshot;
  rr_Discrepancies : list Discrepancy; rr_CriticalCount : Z; rr_WarningCount : Z; rr_InfoCount : Z;
  rr_Healthy : bool
}.

Definition absFloat (f : float64) : float64 := if (f <? f0)%f64 then fneg f else f.

Definition unionSymbols (a b : gmap bytes PositionSnap) : list bytes := sortedKeys (a ∪ b).

Definition rankSeverity (s : DiscrepancySeverity) : Z :=
  match s with SeverityCritical => 3 | SeverityWarning => 2 | SeverityInfo => 1 end.

Definition severityForCash (absDelta tol : float64) : DiscrepancySeverity :=
  if (absDelta >? f64_of_Z 100)%f64 then SeverityCritical
  else if (absDelta >? tol)%f64 then SeverityWarning else SeverityInfo.

Definition severityForQty (absDelta : float64) : DiscrepancySeverity :=
  if (absDelta >? f64_of_Z 1000)%f64 then SeverityCritical
  else if (absDelta >? f0)%f64 then SeverityWarning else SeverityInfo.

Definition severityForMV (rel tol : float64) : DiscrepancySeverity :=
  if (rel >? f64_of_Z 5 * tol)%f64 then SeverityCritical
  else if (rel >? f64_of_Z 2 * tol)%f64 then SeverityWarning else SeverityInfo.

Definition severityForFee (absDelta tol : float64) : DiscrepancySeverity :=
  if (absDelta >? f64_of_Z 10 * tol)%f64 then SeverityCritical
  else if (absDelta >? tol)%f64 then SeverityWarning else SeverityInfo.

Definition allInfoOnly (discs : list Discrepancy) : bool :=
  forallb (fun d => bool_decide (d_Severity d = SeverityInfo)) discs.

(** ** The comparison *)

(** The distance of the two times, in an int64 of nanoseconds. *)
Definition as_of_drift (local broker : Time) : Z :=
  let d := Z.max min_int64 (Z.min max_int64 (local - broker)) in
  if d <? 0 then wrap64 (- d) else d.

(** [Duration.Seconds] and [Time.Unix]. *)
Definition seconds (d : Z) : float64 :=
  (f64_of_Z (Z.quot d second_ns) + f64_of_Z (Z.rem d second_ns) / f64_of_Z second_ns)%f64.
Definition unix_seconds (t : Time) : Z := t / second_ns - 62135596800.

Section Reconcile.
Variable cfg : ReconciliationConfig.
Variable now : Time.

Definition drift_check (local : LocalSnapshot) (broker : AccountSnapshot) : list Discrepancy :=
  let drift := as_of_drift (ls_AsOf local) (as_AsOf broker) in
  if 60 * second_ns <? drift
  then [MkDiscrepancy KindCash SeverityInfo [] (lit "as_of_drift_seconds")
          (f64_of_Z (unix_seconds (ls_AsOf local))) (f64_of_Z (unix_seconds (as_AsOf broker)))
          (seconds drift) (f64_of_Z 60) now]
  else [].

Definition cash_check (local : LocalSnapshot) (broker : AccountSnapshot) : list Discrepancy :=
  let l := cs_TotalCNY (ls_Cash local) in
  let b := cs_TotalCNY (as_Cash broker) in
  let cashDelta := (l - b)%f64 in
  if (absFloat cashDelta >? rc_CashTolerance cfg)%f64
  then [MkDiscrepancy KindCash (severityForCash (absFloat cashDelta) (rc_CashTolerance cfg)) []
          (lit "total_cny") l b cashDelta (rc_CashTolerance cfg) now]
  else [].

(** The deviation of two market values relative to the larger. *)
Definition mv_deviation (lp bp : PositionSnap) : float64 :=
  let mvDelta := (ps_MarketValue lp - ps_MarketValue bp)%f64 in
  let base := if (ps_MarketValue lp <? ps_MarketValue bp)%f64 then ps_MarketValue bp else ps_MarketValue lp in
  if (base >? f0)%f64 then (absFloat mvDelta / base)%f64 else f0.

Definition market_value_check (sym : bytes) (lp bp : PositionSnap) : list Discrepancy :=
  let rel := mv_deviation lp bp in
  if (rel >? rc_MarketValueTol cfg)%f64
  then [MkDiscrepancy KindMarketValue (severityForMV rel (rc_MarketValueTol cfg)) sym (lit "market_value")
          (ps_MarketValue lp) (ps_MarketValue bp) (ps_MarketValue lp - ps_MarketValue bp)%f64
          (rc_MarketValueTol cfg) now]
  else [].

Definition position_check (local broker : gmap bytes PositionSnap) (sym : bytes) : list Discrepancy :=
  match local !! sym, broker !! sym with
  | None, bp =>
      let q := default f0 (ps_Quantity <$> bp) in
      [MkDiscrepancy KindMissingLocal SeverityCritical sym [] f0 q (fneg q) (rc_QuantityTolerance cfg) now]
  | Some lp, None =>
      [MkDiscrepancy KindMissingBroker SeverityCritical sym [] (ps_Quantity lp) f0 (ps_Quantity lp)
         (rc_QuantityTolerance cfg) now]
  | Some lp, Some bp =>
      let qtyDelta := (ps_Quantity lp - ps_Quantity bp)%f64 in
      let quantity severity :=
        [MkDiscrepancy KindQuantity severity sym (lit "quantity") (ps_Quantity lp) (ps_Quantity bp) qtyDelta
           (rc_QuantityTolerance cfg) now] in
      (if (absFloat qtyDelta >? rc_QuantityTolerance cfg)%f64 then quantity (severityForQty (absFloat qtyDelta))
       else if (absFloat qtyDelta >? f0)%f64 then quantity SeverityInfo
       else [])
      ++ (if (absFloat qtyDelta <=? rc_QuantityTolerance cfg)%f64 then market_value_check sym lp bp else [])
  end.

Definition fee_check (field : bytes) (l b : float64) : list Discrepancy :=
  let d := (l - b)%f64 in
  if (absFloat d >? rc_FeeTolerance cfg)%f64
  then [MkDiscrepancy KindFee (severityForFee (absFloat d) (rc_FeeTolerance cfg)) [] field l b d
          (rc_FeeTolerance cfg) now]
  else [].

Definition fee_checks (l b : FeeSnap) : list Discrepancy :=
  fee_check (lit "commission") (fs_Commission l) (fs_Commission b)
  ++ fee_check (lit "stamp_tax") (fs_StampTax l) (fs_StampTax b)
  ++ fee_check (lit "transfer") (fs_Transfer l) (fs_Transfer b)
  ++ fee_check (lit "other") (fs_Other l) (fs_Other b).

(** The order of display. *)
Definition disc_before (a b : Discrepancy) : bool :=
  if negb (rankSeverity (d_Severity a) =? rankSeverity (d_Severity b))
  then rankSeverity (d_Severity b) <? rankSeverity (d_Severity a)
  else if negb (bool_decide (d_Kind a = d_Kind b)) then bytes_ltb (kind_string (d_Kind a)) (kind_string (d_Kind b))
  else bytes_ltb (d_Symbol a) (d_Symbol b).

Definition Reconcile (local : LocalSnapshot) (broker : AccountSnapshot) : list Discrepancy :=
  SliceStable disc_before
    (drift_check local broker ++ cash_check local broker
     ++ concat (map (position_check (ls_Positions local) (as_Positions broker))
                  (unionSymbols (ls_Positions local) (as_Positions broker)))
     ++ fee_checks (ls_Fees local) (as_Fees broker)).

End Reconcile.

(** ** The history: a ring buffer *)

Section History.
Context {A : Type}.

Record HistoryBuffer := MkHistory { hb_entries : list A; hb_idx : Z; hb_full : bool; hb_cap : Z }.

(** The slots of a new buffer hold zero values. *)
Definition NewHistoryBuffer (zero : A) (c : Z) : HistoryBuffer :=
  let c := if c <=? 0 then 1 else c in
  MkHistory (replicate (Z.to_nat c) zero) 0 false c.

Definition HistoryAppend (r : A) (h : HistoryBuffer) : HistoryBuffer :=
  let idx := (hb_idx h + 1) mod hb_cap h in
  MkHistory (<[Z.to_nat (hb_idx h) := r]> (hb_entries h)) idx
    (if idx =? 0 then true else hb_full h) (hb_cap h).

Definition HistorySnapshot (h : HistoryBuffer) : list A :=
  if negb (hb_full h) && (hb_idx h =? 0) then []
  else
    let n := if hb_full h then hb_cap h else hb_idx h in
    omap (fun i => let pos := (hb_idx h - 1 - i + hb_cap h * 2) mod hb_cap h in hb_entries h !! Z.to_nat pos)
      (seqZ 0 n).

Definition HistoryLatest (h : HistoryBuffer) : option A :=
  if negb (hb_full h) && (hb_idx h =? 0) then None
  else
    let pos := hb_idx h - 1 in
    let pos := if pos <? 0 then hb_cap h - 1 else pos in
    hb_entries h !! Z.to_nat pos.

Definition HistoryLen (h : HistoryBuffer) : Z := if hb_full h then hb_cap h else hb_idx h.

End History.
Arguments HistoryBuffer : clear implicits.

(** ** The worker *)

(** What the local side and the broker answer to a call. *)
Record Sources {E : Type} := MkSources {
  SnapshotLocal : nat -> bytes -> Time -> res E (option LocalSnapshot);
  QuerySettlement : bytes -> Time -> res E (option AccountSnapshot)
}.
Arguments Sources : clear implicits.

Inductive cycle_error {E : Type} :=
| AccountRequired
| LocalFailed (e : E)
| BrokerFailed (e : E)
| NilSnapshot.
Arguments cycle_error : clear implicits.

(** What a cycle did: the report handed to the persister and kept in the
    history, and what was handed to the dispatcher. *)
Record cycle := MkCycle {
  cy_persisted : list ReconciliationReport;
  cy_dispatched : list (bytes * list Discrepancy);
  cy_history : HistoryBuffer ReconciliationReport
}.

Definition count_severity (s : DiscrepancySeverity) (discs : list Discrepancy) : Z :=
  foldl (fun n d => if bool_decide (d_Severity d = s) then n + 1 else n) 0 discs.

(** The comparison reads the clock again, at [compared]. *)
Definition build_report (cfg : ReconciliationConfig) (now compared : Time) (accountID : bytes)
    (local : LocalSnapshot) (broker : AccountSnapshot) : ReconciliationReport :=
  let discs := Reconcile cfg compared local broker in
  MkReconReport now accountID (ls_AsOf local) (as_AsOf broker) (as_ReconciliationID broker) local broker discs
    (count_severity SeverityCritical discs) (count_severity SeverityWarning discs)
    (count_severity SeverityInfo discs)
    (match discs with [] => true | _ => allInfoOnly discs end).

(** The account of the first local answer, when none is given. *)
Definition account_for {E} (src : Sources E) (now : Time) (accountID : bytes) : bytes :=
  if bool_decide (accountID = [])
  then match SnapshotLocal src 0 [] now with Ok (Some probe) => ls_AccountID probe | _ => [] end
  else accountID.

Definition ReconcileOnce {E} (cfg : ReconciliationConfig) (src : Sources E) (dispatcher : bool) (now compared : Time)
    (accountID : bytes) (h : HistoryBuffer ReconciliationReport)
    : res (cycle_error E) ReconciliationReport * cycle :=
  let accountID := account_for src now accountID in
  let failed e := (Err e, MkCycle [] [] h) in
  if bool_decide (accountID = []) then failed AccountRequired
  else match SnapshotLocal src 1 accountID now, QuerySettlement src accountID now with
       | Err e, _ => failed (LocalFailed e)
       | _, Err e => failed (BrokerFailed e)
       | Ok (Some local), Ok (Some broker) =>
           let rep := build_report cfg now compared accountID local broker in
           let alerts := if dispatcher && negb (length (rr_Discrepancies rep) =? 0)%nat
                         then [(accountID, rr_Discrepancies rep)] else [] in
           (Ok rep, MkCycle [rep] alerts (HistoryAppend rep h))
       | _, _ => failed NilSnapshot
       end.

(** The configuration and the history a worker starts with. *)
Definition worker_config (cfg : ReconciliationConfig) : ReconciliationConfig :=
  MkReconConfig (if rc_Interval cfg <=? 0 then 15 * 60 * second_ns else rc_Interval cfg)
    (rc_CashTolerance cfg) (rc_QuantityTolerance cfg) (rc_MarketValueTol cfg) (rc_FeeTolerance cfg)
    (rc_ReportPath cfg) (if rc_HistoryLimit cfg <=? 0 then 100 else rc_HistoryLimit cfg) (rc_Enabled cfg).

(** A tick: the two clock readings and what the sources answer then. *)
Definition on_tick {E} (cfg : ReconciliationConfig) (dispatcher : bool)
    (s : list (bytes * list Discrepancy) * HistoryBuffer ReconciliationReport) (t : Time * Time * Sources E)
    : list (bytes * list Discrepancy) * HistoryBuffer ReconciliationReport :=
  let '(_, c) := ReconcileOnce cfg t.2 dispatcher t.1.1 t.1.2 [] s.2 in
  (s.1 ++ cy_dispatched c, cy_history c).

(** [Start] until its context ends, with both sources present. *)
Definition Start {E} (cfg : ReconciliationConfig) (dispatcher : bool) (ticks : list (Time * Time * Sources E))
    (h : HistoryBuffer ReconciliationReport)
    : list (bytes * list Discrepancy) * HistoryBuffer ReconciliationReport :=
  if negb (rc_Enabled cfg) then ([], h) else foldl (on_tick cfg dispatcher) ([], h) ticks.
