(* ===== verification/ReconProps.v ===== *)
(** * ReconProps: what the reconciliation guarantees

    A healthy report means agreeing books, the history keeps the newest
    reports, and every discrepancy of a cycle is handed on. *)

From stdpp Require Import base list strings gmap sorting.
From Stdlib Require Import ZArith Lia SpecFloat.
From S2P Require Import Prelude GoMap GoFloat FloatInt FloatRound ShareLedger Domain GoSlice ExecCost Reconciliation.

Open Scope Z_scope.

(** ** The ring buffer *)

Lemma pred_mod n c :
  0 < c -> (if n mod c - 1 <? 0 then c - 1 else n mod c - 1) = (n - 1) mod c.
Proof.
  intros Hc. pose proof (Z.mod_pos_bound n c Hc). pose proof (Z.div_mod n c ltac:(lia)).
  destruct (_ <? 0) eqn:E; [apply (Z.mod_unique_pos _ _ (n / c - 1))|apply (Z.mod_unique_pos _ _ (n / c))]; lia.
Qed.

Section Ring.
Context {A : Type}.

(** The buffer after writing [log], oldest first: the slot of a recent
    position holds what was written then. *)
Record holds (h : HistoryBuffer A) (log : list A) : Prop := {
  ho_cap : 0 < hb_cap h;
  ho_len : length (hb_entries h) = Z.to_nat (hb_cap h);
  ho_idx : hb_idx h = Z.of_nat (length log) mod hb_cap h;
  ho_full : hb_full h = (hb_cap h <=? Z.of_nat (length log));
  ho_slots : forall j, Z.of_nat (length log) - hb_cap h <= j < Z.of_nat (length log) -> 0 <= j ->
    hb_entries h !! Z.to_nat (j mod hb_cap h) = log !! Z.to_nat j
}.

Lemma new_holds (zero : A) c : holds (NewHistoryBuffer zero c) [].
Proof.
  unfold NewHistoryBuffer. assert (0 < if c <=? 0 then 1 else c) by (destruct (c <=? 0) eqn:E; lia).
  set (k := if c <=? 0 then 1 else c) in *. constructor; cbn.
  - done.
  - apply length_replicate.
  - by rewrite Z.mod_0_l by lia.
  - symmetry. apply Z.leb_gt. lia.
  - intros; lia.
Qed.

Lemma append_holds (r : A) h log : holds h log -> holds (HistoryAppend r h) (log ++ [r]).
Proof.
  intros [Hc Hl Hi Hf Hs]. set (n := Z.of_nat (length log)) in *.
  assert (Hn : Z.of_nat (length (log ++ [r])) = n + 1) by (rewrite length_app; cbn; lia).
  pose proof (Z.mod_pos_bound n (hb_cap h) Hc) as Hb. pose proof (Z.div_mod n (hb_cap h) ltac:(lia)) as Hd.
  constructor; unfold HistoryAppend; cbn [hb_cap hb_entries hb_idx hb_full]; rewrite ?Hn.
  - done.
  - by rewrite length_insert.
  - rewrite Hi. by rewrite Zplus_mod_idemp_l.
  - rewrite Hf, Hi, Zplus_mod_idemp_l. destruct (Z.eqb_spec ((n + 1) mod hb_cap h) 0) as [E|E].
    + symmetry. apply Z.leb_le. apply Z.mod_divide in E as [q Hq]; [|lia].
      assert (0 < q) by (apply (Z.mul_pos_cancel_r _ (hb_cap h)); lia). nia.
    + destruct (Z.leb_spec (hb_cap h) n) as [Hle|Hlt]; symmetry; [apply Z.leb_le; lia|].
      apply Z.leb_gt. destruct (Z.eq_dec (hb_cap h) (n + 1)) as [Hq|]; [|lia].
      exfalso. apply E. rewrite Hq. apply Z.mod_same. lia.
  - intros j Hj Hj0. destruct (Z.eq_dec j n) as [->|Hne].
    + rewrite Hi, list_lookup_insert_eq by lia. unfold n. rewrite Nat2Z.id, lookup_app_r, Nat.sub_diag by lia. done.
    + rewrite lookup_app_l by lia. rewrite list_lookup_insert_ne; [apply Hs; lia|].
      rewrite Hi. pose proof (Z.mod_pos_bound j (hb_cap h) Hc). pose proof (Z.div_mod j (hb_cap h) ltac:(lia)).
      intros E. apply Z2Nat.inj in E; [|lia|lia]. assert (n - j = hb_cap h * (n / hb_cap h - j / hb_cap h)) as Hk by lia.
      set (k := n / hb_cap h - j / hb_cap h) in Hk. destruct (Z.le_gt_cases k 0); nia.
Qed.

Lemma omap_seqZ (f : Z -> option A) L : forall a,
  (forall i, (i < length L)%nat -> f (a + Z.of_nat i) = L !! i) -> omap f (seqZ a (Z.of_nat (length L))) = L.
Proof.
  induction L as [|x L IH]; intros a Hf; [done|].
  rewrite seqZ_cons by (cbn; lia). cbn [omap list_omap].
  replace (f a) with (Some x) by (rewrite <- (Z.add_0_r a); symmetry; apply (Hf 0%nat); cbn; lia).
  f_equal. replace (Z.pred (Z.of_nat (length (x :: L)))) with (Z.of_nat (length L)) by (cbn; lia).
  apply IH. intros i Hi. change (L !! i) with ((x :: L) !! S i). rewrite <- (Hf (S i)) by (cbn; lia). f_equal. lia.
Qed.

Lemma snapshot_holds h log :
  holds h log -> HistorySnapshot h = take (Z.to_nat (hb_cap h)) (reverse log).
Proof.
  intros [Hc Hl Hi Hf Hs]. set (n := Z.of_nat (length log)) in *. unfold HistorySnapshot.
  assert (Hlen : Z.of_nat (length (take (Z.to_nat (hb_cap h)) (reverse log))) = Z.min (hb_cap h) n)
    by (rewrite length_take, length_reverse; lia).
  destruct (negb (hb_full h) && (hb_idx h =? 0)) eqn:E.
  - rewrite Hf, Hi in E. assert (n = 0) as Hn0.
    { apply andb_prop in E as [E1 E2]. assert (n < hb_cap h) by lia. rewrite Z.mod_small in E2 by lia. lia. }
    destruct log; [|cbn in n; lia]. by destruct (Z.to_nat (hb_cap h)).
  - assert ((if hb_full h then hb_cap h else hb_idx h) = Z.min (hb_cap h) n) as ->.
    { rewrite Hf, Hi. destruct (hb_cap h <=? n) eqn:E'; [lia|]. rewrite Z.mod_small by lia. lia. }
    rewrite <- Hlen. apply omap_seqZ. intros i Hi'. cbv zeta. rewrite Z.add_0_l.
    replace ((hb_idx h - 1 - Z.of_nat i + hb_cap h * 2) mod hb_cap h)
      with ((n - 1 - Z.of_nat i) mod hb_cap h).
    2:{ pose proof (Z.div_mod n (hb_cap h) ltac:(lia)). rewrite Hi.
        replace (n mod hb_cap h - 1 - Z.of_nat i + hb_cap h * 2)
          with (n - 1 - Z.of_nat i + (2 - n / hb_cap h) * hb_cap h) by lia. by rewrite Z.mod_add by lia. }
    rewrite Hs by lia. rewrite lookup_take_lt by (rewrite length_take in Hi'; lia).
    rewrite reverse_lookup by (rewrite length_take, length_reverse in Hi'; lia). f_equal. lia.
Qed.

Lemma ring_state (zero : A) c log :
  let h := foldl (fun h r => HistoryAppend r h) (NewHistoryBuffer zero c) log in
  holds h log /\ hb_cap h = Z.max 1 c.
Proof.
  cbv zeta. induction log as [|r log IH] using rev_ind.
  - split; [apply new_holds|]. cbn. destruct (c <=? 0) eqn:E; lia.
  - rewrite foldl_app. cbn [foldl]. destruct IH as [I1 I2]. split; [by apply append_holds|done].
Qed.

(** C28. The history is the newest reports. A buffer of capacity [c] (one, when
    [c] is not positive) after any sequence of appends holds the last [c]
    values, newest first; its length is the number of values kept and Latest
    is the last value appended. *)
Theorem history_keeps_newest (zero : A) c log :
  let h := foldl (fun h r => HistoryAppend r h) (NewHistoryBuffer zero c) log in
  let kept := take (Z.to_nat (Z.max 1 c)) (reverse log) in
  HistorySnapshot h = kept /\ HistoryLen h = Z.of_nat (length kept) /\ HistoryLatest h = head (reverse log).
Proof.
  intros h kept. destruct (ring_state zero c log) as [Hh Hcap]. fold h in Hh, Hcap.
  clearbody h. split; [unfold kept; rewrite <- Hcap; by apply snapshot_holds|].
  destruct Hh as [Hc Hl Hi Hf Hs]. set (n := Z.of_nat (length log)) in *. split.
  - unfold HistoryLen, kept. rewrite length_take, length_reverse, Hf, Hi.
    destruct (hb_cap h <=? n) eqn:E; [lia|]. rewrite Z.mod_small by lia. lia.
  - unfold HistoryLatest. destruct (negb (hb_full h) && (hb_idx h =? 0)) eqn:E.
    + rewrite Hf, Hi in E. apply andb_prop in E as [E1 E2]. rewrite Z.mod_small in E2 by lia.
      destruct log; [done|cbn in n; lia].
    + assert (Hn : 0 < n).
      { destruct (decide (0 < n)) as [|Hn]; [done|]. replace n with 0 in * by lia.
        rewrite Hf, Hi, Z.mod_0_l in E by lia. cbn in E. lia. }
      cbv zeta. rewrite head_lookup, reverse_lookup by lia.
      replace (length log - 1)%nat with (Z.to_nat (n - 1)) by lia. rewrite <- Hs by lia. f_equal. f_equal.
      rewrite Hi. by apply pred_mod.
Qed.
End Ring.

(** ** The comparison *)

Lemma above_nonneg tol x : fle f0 tol = true -> flt tol x = true -> flt f0 x = true.
Proof.
  intros Ht Hx. destruct (flt_not_nan _ _ Hx) as [Nt Nx]. apply not_false_iff_true. intros Hn.
  apply not_true_iff_false in Hn. apply not_true_iff_false in Hn.
  rewrite (fle_trans_nan x f0 tol) in Hx; try done. by apply fle_not_gt.
Qed.

Lemma fneg_negative n : - 2 ^ 53 < n < 0 -> fneg (f64_of_Z n) = f64_of_Z (- n).
Proof.
  intros Hn. destruct n as [|p|p]; [lia|lia|]. rewrite f64_of_Z_neg by lia.
  change (- Zneg p) with (Zpos p). by rewrite f64_of_Z_pos by lia.
Qed.

(** A number is comparable to everything but a NaN. *)
Lemma unordered_nan x y : flt f0 x = true -> flt x y = false -> feq x y = false -> flt y x = false -> y = S754_nan.
Proof.
  intros H0 H1 H2 H3. destruct (is_nan y) eqn:Ny; [by destruct y|]. exfalso.
  destruct (flt_not_nan _ _ H0) as [_ Nx]. pose proof (fnot_gt_le y x Ny Nx) as Hle. rewrite H1 in Hle.
  specialize (Hle eq_refl). rewrite fle_lt_or_eq, H3, feq_comm, H2 in Hle. done.
Qed.

Section Books.
Variable cfg : ReconciliationConfig.
Variable now : Time.

Abbreviation info := (fun d => d_Severity d = SeverityInfo).

Lemma allInfo_iff discs : allInfoOnly discs = true <-> Forall info discs.
Proof.
  unfold allInfoOnly. induction discs as [|d l IH]; [by split|].
  cbn [forallb]. rewrite andb_true_iff, IH, bool_decide_eq_true, Forall_cons. done.
Qed.

(** A deviation of the market value the report calls healthy. *)
Definition mv_tolerated (lp bp : PositionSnap) : Prop :=
  let rel := mv_deviation lp bp in
  flt (rc_MarketValueTol cfg) rel = true ->
  flt (f64_of_Z 5 * rc_MarketValueTol cfg)%f64 rel = false /\ flt (f64_of_Z 2 * rc_MarketValueTol cfg)%f64 rel = false.

(** Two market values, the larger of them positive, differ by at most twice
    the tolerance, relative to the larger (or not by more than the tolerance,
    should that be negative); values none of which is positive are not
    compared. *)
Definition mv_agrees (l b : float64) : Prop :=
  let small r := flt (rc_MarketValueTol cfg) r = true ->
    flt (f64_of_Z 5 * rc_MarketValueTol cfg)%f64 r = false /\ flt (f64_of_Z 2 * rc_MarketValueTol cfg)%f64 r = false in
  (fle l b = true -> flt f0 b = true -> small (absFloat (l - b) / b)%f64)
  /\ (flt b l = true -> flt f0 l = true -> small (absFloat (l - b) / l)%f64).

Lemma mv_tolerated_spec lp bp :
  fle f0 (rc_MarketValueTol cfg) = true -> mv_tolerated lp bp <-> mv_agrees (ps_MarketValue lp) (ps_MarketValue bp).
Proof.
  intros Ht. unfold mv_tolerated, mv_agrees, mv_deviation. cbv zeta.
  generalize (ps_MarketValue lp) (ps_MarketValue bp). intros l b.
  assert (H0 : flt (rc_MarketValueTol cfg) f0 = false) by (by apply fle_not_gt).
  assert (Hno : forall P Q : Prop, (false = true -> P -> Q) <-> True) by (by intros P Q; split).
  assert (Hyes : forall P : Prop, (true = true -> P) <-> P) by (intros P; split; auto).
  assert (Hout : forall P : Prop, (false = true -> P) <-> True) by (by intros P; split).
  destruct (flt l b) eqn:Elt.
  - rewrite (flt_asym _ _ Elt), (flt_fle _ _ Elt), Hno, Hyes.
    destruct (flt f0 b); rewrite ?H0, ?Hyes, ?Hout; tauto.
  - rewrite fle_lt_or_eq, Elt. cbn [orb]. destruct (flt f0 l) eqn:El.
    + destruct (feq l b) eqn:Eq.
      * assert (b = l) as -> by (apply feq_same; [by rewrite feq_comm|done]).
        rewrite El, flt_irrefl, Hno, !Hyes. tauto.
      * rewrite Hno. destruct (flt b l) eqn:Egt; [rewrite !Hyes; tauto|].
        assert (Hn : b = S754_nan) by (by apply (unordered_nan l)). subst b.
        assert (En : flt (rc_MarketValueTol cfg) (absFloat (l - S754_nan) / l)%f64 = false)
          by (destruct l as [|[]| |[]]; by destruct (rc_MarketValueTol cfg) as [|[]| |[]]).
        rewrite En, Hout, Hno. tauto.
    + rewrite H0, Hout. split; [intros _|done]. split; [|by intros _].
      intros Eq Hb. exfalso. assert (l = b) by (by apply feq_same). congruence.
Qed.

Definition fee_agrees (l b : float64) : Prop := flt (rc_FeeTolerance cfg) (absFloat (l - b)%f64) = false.

(** The two books agree up to the tolerances. *)
Record books_agree (local : LocalSnapshot) (broker : AccountSnapshot) : Prop := {
  ba_cash : flt (rc_CashTolerance cfg) (absFloat (cs_TotalCNY (ls_Cash local) - cs_TotalCNY (as_Cash broker))%f64) = false;
  ba_symbols : forall sym, is_Some (ls_Positions local !! sym) <-> is_Some (as_Positions broker !! sym);
  ba_positions : forall sym lp bp, ls_Positions local !! sym = Some lp -> as_Positions broker !! sym = Some bp ->
    let d := absFloat (ps_Quantity lp - ps_Quantity bp)%f64 in
    flt (rc_QuantityTolerance cfg) d = false
    /\ (fle d (rc_QuantityTolerance cfg) = true -> mv_agrees (ps_MarketValue lp) (ps_MarketValue bp));
  ba_commission : fee_agrees (fs_Commission (ls_Fees local)) (fs_Commission (as_Fees broker));
  ba_stamp : fee_agrees (fs_StampTax (ls_Fees local)) (fs_StampTax (as_Fees broker));
  ba_transfer : fee_agrees (fs_Transfer (ls_Fees local)) (fs_Transfer (as_Fees broker));
  ba_other : fee_agrees (fs_Other (ls_Fees local)) (fs_Other (as_Fees broker))
}.

(** One discrepancy under a condition. *)
Lemma flagged_info (b : bool) d :
  (b = true -> d_Severity d <> SeverityInfo) -> Forall info (if b then [d] else []) <-> b = false.
Proof.
  intros Hd. destruct b; [|by split]. split; [|done].
  intros [Hi _]%Forall_cons. by destruct (Hd eq_refl).
Qed.

Lemma cash_info local broker :
  Forall info (cash_check cfg now local broker)
  <-> flt (rc_CashTolerance cfg) (absFloat (cs_TotalCNY (ls_Cash local) - cs_TotalCNY (as_Cash broker))%f64) = false.
Proof.
  apply flagged_info. cbn [d_Severity]. unfold severityForCash. intros ->. by destruct (flt _ _).
Qed.

Lemma fee_info field l b : Forall info (fee_check cfg now field l b) <-> fee_agrees l b.
Proof. apply flagged_info. cbn [d_Severity]. unfold severityForFee. intros ->. by destruct (flt _ _). Qed.

Lemma mv_info sym lp bp : Forall info (market_value_check cfg now sym lp bp) <-> mv_tolerated lp bp.
Proof.
  unfold market_value_check, mv_tolerated. cbv zeta. destruct (flt (rc_MarketValueTol cfg) _); [|by split].
  rewrite Forall_singleton. cbn [d_Severity]. unfold severityForMV.
  destruct (flt (f64_of_Z 5 * _)%f64 _); [split; [done|by intros []]|].
  destruct (flt (f64_of_Z 2 * _)%f64 _); [split; [done|by intros []]|]. by split.
Qed.

Lemma position_info local broker sym :
  fle f0 (rc_QuantityTolerance cfg) = true ->
  is_Some (local !! sym) \/ is_Some (broker !! sym) ->
  Forall info (position_check cfg now local broker sym) <->
  exists lp bp, local !! sym = Some lp /\ broker !! sym = Some bp
    /\ let d := absFloat (ps_Quantity lp - ps_Quantity bp)%f64 in
       flt (rc_QuantityTolerance cfg) d = false /\ (fle d (rc_QuantityTolerance cfg) = true -> mv_tolerated lp bp).
Proof.
  intros Ht Hin. unfold position_check. destruct (local !! sym) as [lp|].
  2:{ split; [by intros [? _]%Forall_cons|by intros (? & ? & ? & _)]. }
  destruct (broker !! sym) as [bp|].
  2:{ split; [by intros [? _]%Forall_cons|by intros (? & ? & _ & ? & _)]. }
  cbv zeta. set (d := absFloat _). rewrite Forall_app.
  transitivity (flt (rc_QuantityTolerance cfg) d = false
                /\ (fle d (rc_QuantityTolerance cfg) = true -> mv_tolerated lp bp)).
  2:{ split; [intros ?; by exists lp, bp|]. by intros (? & ? & [= <-] & [= <-] & ?). }
  f_equiv.
  - destruct (flt (rc_QuantityTolerance cfg) d) eqn:E; [|split; [done|]; intros _; destruct (flt f0 d); repeat constructor].
    split; [|done]. intros [Hi _]%Forall_cons. cbn [d_Severity] in Hi. unfold severityForQty in Hi.
    rewrite (above_nonneg _ _ Ht E) in Hi. by destruct (flt (f64_of_Z 1000) d).
  - destruct (fle d _); [|by split]. rewrite mv_info. tauto.
Qed.

Lemma union_elem (a b : gmap bytes PositionSnap) sym :
  sym ∈ unionSymbols a b <-> is_Some (a !! sym) \/ is_Some (b !! sym).
Proof.
  unfold unionSymbols. rewrite elem_of_sortedKeys_iff, lookup_union_is_Some. done.
Qed.

Lemma healthy_info generated account local broker :
  rr_Healthy (build_report cfg generated now account local broker) = true
  <-> Forall info (drift_check now local broker ++ cash_check cfg now local broker
     ++ concat (map (position_check cfg now (ls_Positions local) (as_Positions broker))
                  (unionSymbols (ls_Positions local) (as_Positions broker)))
     ++ fee_checks cfg now (ls_Fees local) (as_Fees broker)).
Proof.
  cbn [rr_Healthy build_report]. transitivity (Forall info (Reconcile cfg now local broker)).
  - rewrite <- allInfo_iff. by destruct (Reconcile cfg now local broker).
  - unfold Reconcile. by rewrite SliceStable_perm.
Qed.

(** C20. A report is healthy exactly when the books agree: with tolerances for
    quantities and market values that are not negative, the report of a cycle
    is healthy if and only if the cash difference and the four fee
    differences are within their tolerances, both sides hold the same
    symbols, and every position agrees in quantity and, when the larger of
    its two market values is positive, in these up to twice the tolerance
    relative to the larger; market values none of which is positive, as of
    short positions, are not compared. With tolerance zero and whole shares,
    a healthy report means equal holdings. *)
Theorem healthy_iff_books_agree generated account local broker :
  fle f0 (rc_QuantityTolerance cfg) = true -> fle f0 (rc_MarketValueTol cfg) = true ->
  let healthy := rr_Healthy (build_report cfg generated now account local broker) in
  (healthy = true <-> books_agree local broker)
  /\ (healthy = true -> rc_QuantityTolerance cfg = f0 ->
      forall sym lp q q', ls_Positions local !! sym = Some lp -> ps_Quantity lp = f64_of_Z q ->
      (forall bp, as_Positions broker !! sym = Some bp -> ps_Quantity bp = f64_of_Z q') ->
      0 <= q < 2 ^ 52 -> 0 <= q' < 2 ^ 52 -> q = q').
Proof.
  intros Ht Hmv healthy.
  assert (Hiff : healthy = true <-> books_agree local broker).
  { unfold healthy. rewrite healthy_info, !Forall_app. unfold fee_checks.
    rewrite !Forall_app, cash_info, !fee_info, Forall_concat, Forall_map. split.
    - intros (_ & Hc & Hp & H1 & H2 & H3 & H4). rewrite Forall_forall in Hp.
      assert (Hp' : forall sym, is_Some (ls_Positions local !! sym) \/ is_Some (as_Positions broker !! sym) -> _)
        by (intros sym Hin; exact (proj1 (position_info _ _ sym Ht Hin) (Hp sym (proj2 (union_elem _ _ sym) Hin)))).
      constructor; try done.
      + intros sym. split; intros Hs; [destruct (Hp' sym (or_introl Hs)) as (? & ? & _ & ? & _)
          |destruct (Hp' sym (or_intror Hs)) as (? & ? & ? & _)]; by eauto.
      + intros sym lp bp Hl Hb. destruct (Hp' sym) as (lp' & bp' & Hl' & Hb' & Hd); [left; by eauto|]. simplify_eq.
        destruct Hd as [Hd1 Hd2]. split; [done|]. intros Hle. by apply mv_tolerated_spec, Hd2.
    - intros [Hc Hs Hp H1 H2 H3 H4]. split_and!; try done.
      + unfold drift_check. cbv zeta. destruct (_ <? _); by repeat constructor.
      + apply Forall_forall. intros sym Hin. rewrite union_elem in Hin. apply position_info; [done|done|].
        assert (is_Some (ls_Positions local !! sym)) as [lp Hl] by (destruct Hin; [done|by apply Hs]).
        assert (is_Some (as_Positions broker !! sym)) as [bp Hb] by (apply Hs; by eauto).
        exists lp, bp. split_and!; [done|done|]. destruct (Hp sym lp bp Hl Hb) as [Hd1 Hd2].
        split; [done|]. intros Hle. by apply mv_tolerated_spec, Hd2. }
  split; [done|]. intros Hh Ez sym lp q q' Hl Hq Hq' Rq Rq'. apply Hiff in Hh as [_ Hs Hp _ _ _ _].
  destruct (proj1 (Hs sym) ltac:(by eauto)) as [bp Hb]. destruct (Hp sym lp bp Hl Hb) as [Hd _].
  rewrite Ez, Hq, (Hq' bp Hb), fsub_whole in Hd by (unfold whole_range; lia). unfold absFloat in Hd.
  change f0 with (f64_of_Z 0) in Hd. rewrite flt_whole in Hd by (unfold whole_range; lia).
  destruct (q - q' <? 0) eqn:E; [|rewrite flt_whole in Hd by (unfold whole_range; lia); lia].
  rewrite fneg_negative, flt_whole in Hd by (unfold whole_range; lia). lia.
Qed.
End Books.

(** ** The worker *)

(** A report's counts, order and verdict fit its discrepancies. *)
Definition report_consistent (r : ReconciliationReport) : Prop :=
  rr_CriticalCount r + rr_WarningCount r + rr_InfoCount r = Z.of_nat (length (rr_Discrepancies r))
  /\ (rr_Healthy r = true <-> rr_CriticalCount r = 0 /\ rr_WarningCount r = 0)
  /\ StronglySorted (fun a b => rankSeverity (d_Severity b) <= rankSeverity (d_Severity a)) (rr_Discrepancies r).

Lemma count_severity_filter s discs :
  count_severity s discs = Z.of_nat (length (filter (fun d => d_Severity d = s) discs)).
Proof.
  unfold count_severity. induction discs as [|d l IH] using rev_ind; [done|].
  rewrite foldl_app, filter_app, length_app, filter_cons. cbn [foldl]. rewrite IH.
  case_bool_decide; [rewrite decide_True by done|rewrite decide_False by done]; cbn; lia.
Qed.

Lemma counts_add_up discs :
  count_severity SeverityCritical discs + count_severity SeverityWarning discs + count_severity SeverityInfo discs
    = Z.of_nat (length discs)
  /\ (Forall (fun d => d_Severity d = SeverityInfo) discs
      <-> count_severity SeverityCritical discs = 0 /\ count_severity SeverityWarning discs = 0).
Proof.
  rewrite !count_severity_filter. induction discs as [|d l [I1 I2]]; [done|].
  rewrite Forall_cons, !filter_cons.
  destruct (d_Severity d); repeat ((rewrite decide_True by done) || (rewrite decide_False by done)); cbn [length];
    (split; [lia|]).
  - split; [by intros []|lia].
  - split; [by intros []|lia].
  - rewrite I2. tauto.
Qed.

Lemma severity_transitive :
  Transitive (fun a b : Discrepancy => rankSeverity (d_Severity b) <= rankSeverity (d_Severity a)).
Proof. intros a b c. lia. Qed.

Lemma build_consistent cfg generated now account local broker :
  report_consistent (build_report cfg generated now account local broker).
Proof.
  unfold report_consistent, build_report. cbn [rr_CriticalCount rr_WarningCount rr_InfoCount rr_Discrepancies rr_Healthy].
  set (discs := Reconcile cfg now local broker). destruct (counts_add_up discs) as [H1 H2]. split_and!; [done| |].
  - rewrite <- H2, <- allInfo_iff. by destruct discs.
  - apply SliceStable_sorted; [apply severity_transitive|].
    intros a b. unfold disc_before. destruct (Z.eqb_spec (rankSeverity (d_Severity a)) (rankSeverity (d_Severity b))) as [E|E]; cbn [negb].
    + match goal with |- if ?c then _ else _ => destruct c end; lia.
    + destruct (_ <? _) eqn:El; lia.
Qed.

Section Worker.
Context {E : Type}.
Variable cfg : ReconciliationConfig.
Variable dispatcher : bool.

(** The report of a tick, when both sides answer for a known account. *)
Definition report_at (t : Time * Time * Sources E) : option ReconciliationReport :=
  let '(now, compared, src) := t in
  let account := account_for src now [] in
  if bool_decide (account = []) then None
  else match SnapshotLocal src 1 account now, QuerySettlement src account now with
       | Ok (Some local), Ok (Some broker) => Some (build_report cfg now compared account local broker)
       | _, _ => None
       end.

(** The alert of a report. *)
Definition alert_of (r : ReconciliationReport) : option (bytes * list Discrepancy) :=
  match rr_Discrepancies r with [] => None | discs => Some (rr_AccountID r, discs) end.

Lemma on_tick_spec s t :
  on_tick cfg dispatcher s t
  = match report_at t with
    | Some r => (s.1 ++ (if dispatcher then option_list (alert_of r) else []), HistoryAppend r s.2)
    | None => s
    end.
Proof.
  destruct t as [[now compared] src], s as [out h]. unfold on_tick, ReconcileOnce, report_at. cbn [fst snd].
  case_bool_decide; [cbn; by rewrite app_nil_r|].
  set (account := account_for src now []).
  destruct (SnapshotLocal src 1 account now) as [[local|]|]; destruct (QuerySettlement src account now) as [[broker|]|];
    cbn [cy_dispatched cy_history]; rewrite ?app_nil_r; try done.
  f_equal. f_equal. unfold alert_of. destruct dispatcher; [|done]. cbn [andb rr_AccountID build_report].
  by destruct (rr_Discrepancies _).
Qed.

(** C29. Nothing found is lost. While the worker runs, its history holds the
    newest reports of the cycles whose two sides answered, newest first and
    at most the history limit; with a dispatcher every one of those cycles
    that found a discrepancy was handed on, once, with all of them, in order
    of the ticks, and nothing else was; a failed cycle leaves no trace. The
    counts of each report add up, critical discrepancies come first and the
    report is healthy exactly when it has neither critical ones nor warnings. *)
Theorem worker_hands_on_every_finding zero ticks :
  rc_Enabled cfg = true ->
  let reports := omap report_at ticks in
  let '(alerts, h) := Start cfg dispatcher ticks (NewHistoryBuffer zero (rc_HistoryLimit cfg)) in
  HistorySnapshot h = take (Z.to_nat (Z.max 1 (rc_HistoryLimit cfg))) (reverse reports)
  /\ alerts = (if dispatcher then omap alert_of reports else [])
  /\ Forall report_consistent reports.
Proof.
  intros Hen reports. unfold Start. rewrite Hen. cbn [negb].
  assert (Hrun : forall out h, foldl (on_tick cfg dispatcher) (out, h) ticks
    = (out ++ (if dispatcher then omap alert_of reports else []), foldl (fun h r => HistoryAppend r h) h reports)).
  { unfold reports. clear reports. induction ticks as [|t ticks IH]; intros out h.
    - cbn. destruct dispatcher; by rewrite app_nil_r.
    - cbn [foldl omap list_omap]. rewrite on_tick_spec. destruct (report_at t) as [r|]; [|apply IH].
      rewrite IH. cbn [fst snd foldl omap list_omap]. f_equal. destruct dispatcher; [|by rewrite !app_nil_r].
      rewrite <- app_assoc. f_equal. by destruct (alert_of r). }
  rewrite Hrun. destruct (ring_state zero (rc_HistoryLimit cfg) reports) as [Hh Hcap].
  split_and!; [rewrite <- Hcap; by apply snapshot_holds|done|].
  apply Forall_forall. intros r Hr. apply list_elem_of_omap in Hr as ([[now compared] src] & _ & Hr). unfold report_at in Hr.
  case_bool_decide; [done|]. set (account := account_for src now []) in Hr.
  destruct (SnapshotLocal src 1 account now) as [[local|]|]; try done.
  destruct (QuerySettlement src account now) as [[broker|]|]; try done.
  injection Hr as <-. apply build_consistent.
Qed.
End Worker.

(** ** Concrete cases *)

Module ReconSample.
Definition sym : bytes := lit "600000.SH".
Definition fees : FeeSnap := MkFeeSnap f0 f0 f0 f0.
Definition cash : CashSnap := MkCashSnap (f64_of_Z 5000) f0 f0.
Definition local : LocalSnapshot :=
  MkLocalSnapshot (lit "acc") 0 cash {[sym := MkPositionSnap sym (f64_of_Z 100000) f0 (f64_of_Z 1000000)]} fees f0.
Definition broker (q mv : Z) : AccountSnapshot :=
  MkAccountSnapshot (lit "acc") [] 0 cash {[sym := MkPositionSnap sym (f64_of_Z q) f0 (f64_of_Z mv)]} fees.
Definition source (q mv : Z) : Sources unit :=
  MkSources unit (fun _ _ _ => Ok (Some local)) (fun _ _ => Ok (Some (broker q mv))).
Definition failing : Sources unit := MkSources unit (fun _ _ _ => Ok (Some local)) (fun _ _ => Err tt).
Definition ticks : list (Time * Time * Sources unit) :=
  [(1, 1, source 100000 1000000); (2, 2, failing); (3, 3, source 99900 1000000)].
Definition zero : ReconciliationReport := build_report DefaultReconciliationConfig 0 0 [] local (broker 0 0).
Definition started := Start DefaultReconciliationConfig true ticks (NewHistoryBuffer zero 100).
End ReconSample.

(** A market value off by 0.9 percent, above the tolerance of 0.5 percent, is
    recorded as information only and the report is healthy. *)
Example market_value_deviation_is_healthy :
  let r := build_report DefaultReconciliationConfig 0 0 (lit "acc") ReconSample.local
             (ReconSample.broker 100000 1009000) in
  rr_Healthy r = true /\ map (fun d => (d_Kind d, d_Severity d)) (rr_Discrepancies r)
                         = [(KindMarketValue, SeverityInfo)].
Proof. vm_compute. split; reflexivity. Qed.

Lemma healthy_iff_books_agree_witness :
  books_agree DefaultReconciliationConfig ReconSample.local (ReconSample.broker 100000 1000000)
  /\ ~ books_agree DefaultReconciliationConfig ReconSample.local (ReconSample.broker 99900 1000000).
Proof.
  pose proof (fun q mv => proj1 (healthy_iff_books_agree DefaultReconciliationConfig 0 0 (lit "acc")
    ReconSample.local (ReconSample.broker q mv) ltac:(vm_compute; reflexivity) ltac:(vm_compute; reflexivity))) as H.
  split; [apply H; vm_compute; reflexivity|]. intros Hb. apply H in Hb. vm_compute in Hb. discriminate.
Defined.

Lemma history_keeps_newest_witness :
  HistorySnapshot (foldl (fun h r => HistoryAppend r h) (NewHistoryBuffer 0 2) [1; 2; 3]) = [3; 2].
Proof. exact (proj1 (history_keeps_newest 0 2 [1; 2; 3])). Defined.

Lemma worker_hands_on_every_finding_witness :
  length (HistorySnapshot ReconSample.started.2) = 2%nat /\ map fst ReconSample.started.1 = [lit "acc"].
Proof.
  pose proof (worker_hands_on_every_finding DefaultReconciliationConfig true ReconSample.zero ReconSample.ticks
                eq_refl) as H.
  cbv zeta in H. unfold ReconSample.started. change (rc_HistoryLimit DefaultReconciliationConfig) with 100 in H.
  destruct (Start DefaultReconciliationConfig true ReconSample.ticks (NewHistoryBuffer ReconSample.zero 100)) as [out h].
  destruct H as (H1 & H2 & _). cbn [fst snd]. rewrite H1, H2. split; vm_compute; reflexivity.
Defined.
