(* ===== verification/CorpAction.v ===== *)
(** * CorpAction: corporate actions and their engine

    src/pkg/domain/corporate_action.go: the five kinds of corporate action
    with what each does to a position, and the engine that applies those
    whose ex-date has come, once each. Descriptions are left out; dates are
    those of UTC. *)

From stdpp Require Import base list strings gmap.
From Stdlib Require Import ZArith Lia.
From S2P Require Import Prelude GoMap GoFloat Domain GoSlice.

Open Scope Z_scope.

(** ** Actions *)

Inductive ActionType := ActionCashDividend | ActionBonusShare | ActionSplit | ActionRightsIssue | ActionPlacement.

Definition action_type_string (t : ActionType) : bytes :=
  match t with
  | ActionCashDividend => lit "cash_dividend" | ActionBonusShare => lit "bonus_share"
  | ActionSplit => lit "split" | ActionRightsIssue => lit "rights_issue" | ActionPlacement => lit "placement"
  end.

(** What distinguishes the five structs. *)
Inductive Terms :=
| CashDividend (cashPerShare : float64)
| BonusShare (bonusPer10 : float64)
| CorporateActionSplit (splitRatio : float64)
| RightsIssue (rightsPer10 rightsPricePerShare : float64)
| Placement (newShares pricePerShare : float64).

(** The dates and symbol they share. *)
Record CorporateAction := MkAction {
  ca_Symbol : bytes; ca_ExDate : Time; ca_RecordDate : Time; ca_PayDate : Time; ca_Terms : Terms
}.

Definition ca_Type (a : CorporateAction) : ActionType :=
  match ca_Terms a with
  | CashDividend _ => ActionCashDividend | BonusShare _ => ActionBonusShare
  | CorporateActionSplit _ => ActionSplit | RightsIssue _ _ => ActionRightsIssue
  | Placement _ _ => ActionPlacement
  end.

(** A position with more shares, its cost and its marks brought up to date. *)
Definition remark (hadPrice : bool) (p : Position.t) : Position.t :=
  if hadPrice then
    let marketValue := (Position.Quantity p * Position.CurrentPrice p)%f64 in
    Position.set_marks (Position.CurrentPrice p) marketValue
      (marketValue - Position.AvgCost p * Position.Quantity p)%f64 p
  else p.

Definition scale_position (ratio : float64) (pos : Position.t) : Position.t :=
  let p := Position.set_Quantity (Position.Quantity pos * ratio)%f64 pos in
  let p := if (Position.AvgCost pos >? f0)%f64
           then Position.set_AvgCost (Position.AvgCost pos / ratio)%f64 p else p in
  remark (Position.CurrentPrice pos >? f0)%f64 p.

Definition ten : float64 := f64_of_Z 10.

Definition ApplyDividend (cashPerShare : float64) (pos : Position.t) : Position.t * float64 :=
  if (Position.Quantity pos <=? f0)%f64 || (cashPerShare <=? f0)%f64 then (pos, f0)
  else (pos, (Position.Quantity pos * cashPerShare)%f64).

Definition ApplyBonus (bonusPer10 : float64) (pos : Position.t) : Position.t * float64 :=
  if (Position.Quantity pos <=? f0)%f64 || (bonusPer10 <=? f0)%f64 then (pos, f0)
  else (scale_position (f1 + bonusPer10 / ten)%f64 pos, f0).

Definition ApplySplit (splitRatio : float64) (pos : Position.t) : Position.t * float64 :=
  if (Position.Quantity pos <=? f0)%f64 || (splitRatio <=? f0)%f64 then (pos, f0)
  else (scale_position splitRatio pos, f0).

(** The method of the interface; rights not paid for and placements leave the
    position. *)
Definition Apply (a : CorporateAction) (pos : Position.t) : Position.t * float64 :=
  match ca_Terms a with
  | CashDividend cashPerShare => ApplyDividend cashPerShare pos
  | BonusShare bonusPer10 => ApplyBonus bonusPer10 pos
  | CorporateActionSplit splitRatio => ApplySplit splitRatio pos
  | RightsIssue _ _ => (pos, f0)
  | Placement _ _ => (pos, f0)
  end.

(** A rights issue the holder pays for. *)
Definition ApplyPaid (rightsPer10 price : float64) (pos : Position.t) : Position.t * float64 :=
  if (Position.Quantity pos <=? f0)%f64 || (rightsPer10 <=? f0)%f64 || (price <=? f0)%f64 then (pos, f0)
  else
    let ratio := (rightsPer10 / ten)%f64 in
    let newShares := (Position.Quantity pos * ratio)%f64 in
    let cost := (newShares * price)%f64 in
    let q := (Position.Quantity pos + newShares)%f64 in
    let p := Position.set_Quantity q pos in
    let p := if (q >? f0)%f64
             then Position.set_AvgCost ((Position.AvgCost pos * Position.Quantity pos + cost) / q)%f64 p else p in
    (remark (Position.CurrentPrice pos >? f0)%f64 p, fneg cost).

Definition ExRefPrice (rightsPer10 price prevClose : float64) : float64 :=
  if (rightsPer10 <=? f0)%f64 || (prevClose <=? f0)%f64 then prevClose
  else
    let ratio := (rightsPer10 / ten)%f64 in
    ((prevClose + price * ratio) / (f1 + ratio))%f64.

(** ** The engine *)

Definition actionKey (a : CorporateAction) : bytes :=
  ca_Symbol a ++ lit ":" ++ format_date (ca_ExDate a) ++ lit ":" ++ action_type_string (ca_Type a).

Definition actionApplyOrder (t : ActionType) : Z :=
  match t with
  | ActionSplit => 0 | ActionBonusShare => 1 | ActionRightsIssue => 2 | ActionCashDividend => 3
  | ActionPlacement => 4
  end.

(** The engine's log of applied keys; a missing log reads as an empty one. *)
Definition NewActionEngine : gmap bytes bool := ∅.
Definition MarkApplied (a : CorporateAction) (log : gmap bytes bool) : gmap bytes bool :=
  <[actionKey a := true]> log.
Definition IsApplied (a : CorporateAction) (log : gmap bytes bool) : bool := default false (log !! actionKey a).

Inductive SkipReason := no_position | ex_date_in_future | already_applied.

(** One action's outcome: skipped, or the position it was given, the position
    it left and the cash. *)
Inductive ApplyResult :=
| Skipped (why : SkipReason)
| Applied (old new : Position.t) (cashDelta : float64).

Record ApplyOutcome := MkOutcome { oc_Action : CorporateAction; oc_Result : ApplyResult }.

Record apply_state := MkApply {
  ap_positions : list Position.t; ap_cash : float64; ap_log : gmap bytes bool; ap_outcomes : list ApplyOutcome
}.

Definition action_before (a b : CorporateAction) : bool :=
  if negb (ca_ExDate a =? ca_ExDate b) then Before (ca_ExDate a) (ca_ExDate b)
  else actionApplyOrder (ca_Type a) <? actionApplyOrder (ca_Type b).

(** The index of a symbol's position; the last of several. *)
Definition posBySymbol (positions : list Position.t) : gmap bytes nat :=
  foldl (fun m x => <[Position.Symbol x.2 := x.1]> m) ∅ (imap pair positions).

Definition apply_one (asOf : Time) (positions : list Position.t) (index : gmap bytes nat)
    (s : apply_state) (act : CorporateAction) : apply_state :=
  let skip log why := MkApply (ap_positions s) (ap_cash s) log (ap_outcomes s ++ [MkOutcome act (Skipped why)]) in
  match index !! ca_Symbol act with
  | None => skip (MarkApplied act (ap_log s)) no_position
  | Some idx =>
      if asOf <? ca_ExDate act then skip (ap_log s) ex_date_in_future
      else if IsApplied act (ap_log s) then skip (ap_log s) already_applied
      else match ap_positions s !! idx, positions !! idx with
           | Some pos, Some old =>
               let '(new, cashDelta) := Apply act pos in
               MkApply (<[idx := new]> (ap_positions s)) (ap_cash s + cashDelta)%f64 (MarkApplied act (ap_log s))
                 (ap_outcomes s ++ [MkOutcome act (Applied old new cashDelta)])
           | _, _ => s (* no index of the map is out of range *)
           end
  end.

Section Engine.
Context `{!SliceSort}.

Definition ApplyAll (asOf : Time) (positions : list Position.t) (actions : list CorporateAction)
    (log : gmap bytes bool) : apply_state :=
  foldl (apply_one asOf positions (posBySymbol positions)) (MkApply positions f0 log [])
    (Slice action_before actions).

End Engine.
