(* ===== verification/CorpProps.v ===== *)
(** * CorpProps: what the corporate-action engine guarantees

    An action is applied at most once over any history of calls, shares
    change before cash is paid, and two ways in which shares or actions are
    lost. *)

From stdpp Require Import base list strings gmap sorting.
From Stdlib Require Import ZArith Lia.
From S2P Require Import Prelude GoMap GoFloat FloatInt ShareLedger Domain GoSlice CorpAction.

Open Scope Z_scope.

(** ** Applied once *)

(** The keys of the applied actions, in order. *)
Definition applied_keys (outs : list ApplyOutcome) : list bytes :=
  omap (fun o => match oc_Result o with Applied _ _ _ => Some (actionKey (oc_Action o)) | Skipped _ => None end) outs.

Lemma IsApplied_iff a log : IsApplied a log = true <-> log !! actionKey a = Some true.
Proof. unfold IsApplied. destruct (log !! actionKey a) as [[]|]; cbn; split; congruence. Qed.

(** A log that only grows, and outcomes whose keys were free before. *)
Record once (log0 : gmap bytes bool) (log : gmap bytes bool) (outs : list ApplyOutcome) : Prop := {
  on_grows : forall k, log0 !! k = Some true -> log !! k = Some true;
  on_nodup : NoDup (applied_keys outs);
  on_fresh : forall k, k ∈ applied_keys outs -> log0 !! k <> Some true;
  on_logged : forall k, k ∈ applied_keys outs -> log !! k = Some true
}.

Lemma once_nil log : once log log [].
Proof. constructor; [done|constructor|..]; intros k Hk; by apply elem_of_nil in Hk. Qed.

Lemma mark_grows act log k : log !! k = Some true -> MarkApplied act log !! k = Some true.
Proof.
  unfold MarkApplied. destruct (decide (actionKey act = k)) as [<-|]; [by rewrite lookup_insert_eq|].
  by rewrite lookup_insert_ne.
Qed.

Lemma once_skip log0 log log' outs act why :
  (forall k, log !! k = Some true -> log' !! k = Some true) ->
  once log0 log outs -> once log0 log' (outs ++ [MkOutcome act (Skipped why)]).
Proof.
  intros Hg [H1 H2 H3 H4]. unfold applied_keys in *.
  assert (E : applied_keys (outs ++ [MkOutcome act (Skipped why)]) = applied_keys outs)
    by (unfold applied_keys; by rewrite omap_app, app_nil_r).
  constructor; unfold applied_keys in *; rewrite ?E; auto.
Qed.

Lemma once_step log0 asOf positions index s act :
  once log0 (ap_log s) (ap_outcomes s) ->
  let s' := apply_one asOf positions index s act in once log0 (ap_log s') (ap_outcomes s').
Proof.
  intros Ho. cbv zeta. unfold apply_one. destruct (index !! _) as [idx|].
  2:{ apply once_skip with (ap_log s); [|done]. intros k. apply mark_grows. }
  destruct (asOf <? _); [by apply once_skip with (ap_log s)|].
  destruct (IsApplied act (ap_log s)) eqn:Ea; [by apply once_skip with (ap_log s)|].
  destruct (ap_positions s !! idx); [|done]. destruct (positions !! idx); [|done].
  destruct (Apply act _) as [new cash]. cbn [ap_log ap_outcomes]. destruct Ho as [H1 H2 H3 H4].
  apply not_true_iff_false in Ea. rewrite IsApplied_iff in Ea.
  assert (E : forall o n c, applied_keys (ap_outcomes s ++ [MkOutcome act (Applied o n c)])
              = applied_keys (ap_outcomes s) ++ [actionKey act]) by (intros; unfold applied_keys; by rewrite omap_app).
  constructor.
  - intros k Hk. apply mark_grows. auto.
  - rewrite E. apply NoDup_app. split; [done|]. split; [|apply NoDup_singleton].
    intros k Hk Hk'. apply list_elem_of_singleton in Hk' as ->. auto.
  - intros k. rewrite E, elem_of_app, list_elem_of_singleton. intros [Hk| ->]; auto.
  - intros k. rewrite E, elem_of_app, list_elem_of_singleton. intros [Hk| ->]; [apply mark_grows; auto|].
    unfold MarkApplied. by rewrite lookup_insert_eq.
Qed.

Section Once.
Context `{!SliceSort}.

Lemma once_apply log0 asOf positions actions log outs :
  once log0 log outs ->
  let s := ApplyAll asOf positions actions log in once log0 (ap_log s) (outs ++ ap_outcomes s).
Proof.
  intros Ho. cbv zeta. unfold ApplyAll.
  assert (Hgen : forall l s, once log0 (ap_log s) (outs ++ ap_outcomes s) ->
    once log0 (ap_log (foldl (apply_one asOf positions (posBySymbol positions)) s l))
      (outs ++ ap_outcomes (foldl (apply_one asOf positions (posBySymbol positions)) s l))).
  { intros l. induction l as [|a l IH]; intros s Hs; [done|]. cbn [foldl]. apply IH.
    pose proof (once_step log0 asOf positions (posBySymbol positions)
      (MkApply (ap_positions s) (ap_cash s) (ap_log s) (outs ++ ap_outcomes s)) a Hs) as Hst.
    unfold apply_one in *. cbn [ap_log ap_outcomes ap_positions ap_cash] in Hst.
    repeat case_match; cbn [ap_log ap_outcomes] in *; by rewrite ?app_assoc. }
  apply Hgen. cbn [ap_log ap_outcomes]. by rewrite app_nil_r.
Qed.

(** A history of calls on one engine. *)
Definition call : Type := Time * list Position.t * list CorporateAction.
Definition run_calls (log : gmap bytes bool) (calls : list call) : gmap bytes bool * list ApplyOutcome :=
  foldl (fun s c => let r := ApplyAll c.1.1 c.1.2 c.2 s.1 in (ap_log r, s.2 ++ ap_outcomes r)) (log, []) calls.

Lemma run_once log calls : once log (run_calls log calls).1 (run_calls log calls).2.
Proof.
  unfold run_calls. assert (Hgen : forall s, once log s.1 s.2 ->
    let s' := foldl (fun s c => let r := ApplyAll c.1.1 c.1.2 c.2 s.1 in (ap_log r, s.2 ++ ap_outcomes r)) s calls in
    once log s'.1 s'.2).
  { induction calls as [|c l IH]; intros s Hs; [done|]. cbn [foldl]. apply IH. by apply once_apply. }
  apply (Hgen (log, [])). apply once_nil.
Qed.

(** C21. An action is applied at most once. Over any history of calls on one
    engine, with whatever dates, positions and lists of actions, no key of
    symbol, ex-date and type is applied twice, none that the log held at the
    start is applied at all, and every applied one is in the log at the end. *)
Theorem actions_apply_once log calls :
  let '(log', outs) := run_calls log calls in
  NoDup (applied_keys outs)
  /\ Forall (fun k => log !! k <> Some true /\ log' !! k = Some true) (applied_keys outs).
Proof.
  pose proof (run_once log calls) as [_ H2 H3 H4]. destruct (run_calls log calls) as [log' outs]. cbn [fst snd] in *.
  split; [done|]. apply Forall_forall. intros k Hk. auto.
Qed.

(** ** Actions lost *)

Lemma unheld_index positions sym :
  Forall (fun p => Position.Symbol p <> sym) positions -> posBySymbol positions !! sym = None.
Proof.
  intros Hf. unfold posBySymbol.
  assert (Hgen : forall l (m : gmap bytes nat), Forall (fun x : nat * Position.t => Position.Symbol x.2 <> sym) l -> m !! sym = None ->
    foldl (fun m x => <[Position.Symbol x.2 := x.1]> m) m l !! sym = None).
  { induction l as [|x l IH]; intros m Hl Hm; [done|]. apply Forall_cons in Hl as [Hx Hl]. cbn [foldl].
    apply IH; [done|]. by rewrite lookup_insert_ne. }
  apply Hgen; [|done]. apply Forall_forall. intros [i p] Hin. apply elem_of_lookup_imap in Hin as (j & y & [= -> ->] & Hj).
  rewrite Forall_forall in Hf. apply Hf. by eapply list_elem_of_lookup_2.
Qed.

Lemma unheld_marked asOf positions actions act log :
  act ∈ actions -> Forall (fun p => Position.Symbol p <> ca_Symbol act) positions ->
  ap_log (ApplyAll asOf positions actions log) !! actionKey act = Some true.
Proof.
  intros Hin Hun. unfold ApplyAll. apply (Slice_elem action_before) in Hin.
  apply list_elem_of_split in Hin as (l1 & l2 & ->). rewrite foldl_app. cbn [foldl].
  set (s := foldl _ _ l1).
  assert (Hgen : forall l s, ap_log s !! actionKey act = Some true ->
    ap_log (foldl (apply_one asOf positions (posBySymbol positions)) s l) !! actionKey act = Some true).
  { induction l as [|a l IH]; intros s0 Hs; [done|]. cbn [foldl]. apply IH. unfold apply_one.
    repeat case_match; cbn [ap_log]; try done; by apply mark_grows. }
  apply Hgen. unfold apply_one. rewrite (unheld_index _ _ Hun). cbn [ap_log]. unfold MarkApplied.
  by rewrite lookup_insert_eq.
Qed.

(** An action seen before the stock is held is lost. A call while the symbol
    is not held marks the action as applied, also when its ex-date is still
    to come; whatever is bought afterwards, no later call on the engine ever
    applies it. *)
Theorem unheld_action_is_lost asOf positions actions act log calls :
  act ∈ actions -> Forall (fun p => Position.Symbol p <> ca_Symbol act) positions ->
  actionKey act ∉ applied_keys (run_calls (ap_log (ApplyAll asOf positions actions log)) calls).2.
Proof.
  intros Hin Hun Hk. pose proof (unheld_marked asOf positions actions act log Hin Hun) as Hm.
  destruct (run_once (ap_log (ApplyAll asOf positions actions log)) calls) as [_ _ H3 _]. by apply (H3 _ Hk).
Qed.

End Once.

(** ** Order within a day *)

Definition action_key (a : CorporateAction) : Z := ca_ExDate a * 5 + actionApplyOrder (ca_Type a).

Lemma action_before_key a b : action_before a b = (action_key a <? action_key b).
Proof.
  unfold action_before, action_key, Before.
  assert (Hb : forall t, 0 <= actionApplyOrder t <= 4) by (by intros []).
  pose proof (Hb (ca_Type a)). pose proof (Hb (ca_Type b)).
  destruct (Z.eqb_spec (ca_ExDate a) (ca_ExDate b)) as [E|E]; cbn [negb]; apply eq_true_iff_eq; rewrite !Z.ltb_lt; lia.
Qed.

Lemma keys_differ a b : ca_Symbol a = ca_Symbol b -> ca_ExDate a = ca_ExDate b ->
  action_type_string (ca_Type a) <> action_type_string (ca_Type b) -> actionKey a <> actionKey b.
Proof.
  unfold actionKey. intros -> -> Hne He. apply app_inv_head in He. apply app_inv_head in He.
  apply app_inv_head in He. by apply app_inv_head in He.
Qed.

(** The position applied alone. *)
Lemma apply_held asOf p q cash log outs act :
  Position.Symbol p = ca_Symbol act -> ca_ExDate act <= asOf -> IsApplied act log = false ->
  apply_one asOf [p] (posBySymbol [p]) (MkApply [q] cash log outs) act
  = let '(new, delta) := Apply act q in
    MkApply [new] (cash + delta)%f64 (MarkApplied act log) (outs ++ [MkOutcome act (Applied p new delta)]).
Proof.
  intros Hs He Ha. unfold apply_one.
  assert (posBySymbol [p] !! ca_Symbol act = Some 0%nat) as ->
    by (unfold posBySymbol; cbn; by rewrite Hs, lookup_insert_eq).
  replace (asOf <? ca_ExDate act) with false by lia. cbn [ap_log]. rewrite Ha.
  cbn [ap_positions ap_cash ap_outcomes lookup list_lookup insert list_insert]. by destruct (Apply act q).
Qed.

(** Cash is paid on the new shares. When a split and a cash dividend of a
    held stock fall on one ex-date, the dividend is computed on the shares
    after the split, in whatever order the two are handed in. *)
Theorem dividend_is_paid_on_new_shares `{!SliceSort} asOf p actions sp dv ratio cash log :
  let q := Position.Quantity p in
  actions ≡ₚ [sp; dv] -> ca_Terms sp = CorporateActionSplit ratio -> ca_Terms dv = CashDividend cash ->
  ca_Symbol sp = Position.Symbol p -> ca_Symbol dv = Position.Symbol p ->
  ca_ExDate sp = ca_ExDate dv -> ca_ExDate dv <= asOf ->
  IsApplied sp log = false -> IsApplied dv log = false ->
  fle q f0 = false -> fle ratio f0 = false -> fle cash f0 = false -> fle (q * ratio)%f64 f0 = false ->
  let s := ApplyAll asOf [p] actions log in
  map Position.Quantity (ap_positions s) = [(q * ratio)%f64] /\ ap_cash s = (f0 + q * ratio * cash)%f64.
Proof.
  intros q Hp Hsp Hdv Ss Sd Hex Hd As Ad Hq Hr Hc Hqr. cbv zeta.
  assert (Ts : ca_Type sp = ActionSplit) by (unfold ca_Type; by rewrite Hsp).
  assert (Td : ca_Type dv = ActionCashDividend) by (unfold ca_Type; by rewrite Hdv).
  assert (Hsort : Slice action_before actions = [sp; dv]).
  { pose proof (Slice_sorted action_key action_before actions action_before_key) as Hs.
    assert (Hperm : [sp; dv] ≡ₚ Slice action_before actions) by (by rewrite Slice_perm).
    apply Permutation_length_2_inv in Hperm as [->| E]; [done|]. exfalso. rewrite E in Hs.
    apply StronglySorted_inv in Hs as [_ Hs]. apply Forall_cons in Hs as [Hs _]. unfold action_key in Hs.
    rewrite Ts, Td in Hs. cbn in Hs. lia. }
  unfold ApplyAll. rewrite Hsort. cbn [foldl]. rewrite apply_held by (done || lia).
  assert (exists p', Apply sp p = (p', f0) /\ Position.Quantity p' = (q * ratio)%f64) as (p' & -> & Hp').
  { unfold Apply, ApplySplit, ApplyDividend. rewrite Hsp. fold q. rewrite Hq, Hr. cbn [orb]. eexists. split; [done|].
    unfold scale_position, remark. destruct (flt f0 (Position.AvgCost p)); by destruct (flt f0 (Position.CurrentPrice p)). }
  rewrite apply_held; [|done|done|].
  - unfold Apply, ApplySplit, ApplyDividend. rewrite Hdv, Hp', Hqr, Hc. cbn [orb ap_positions ap_cash map]. by rewrite Hp'.
  - unfold IsApplied, MarkApplied in *. rewrite lookup_insert_ne; [done|]. apply keys_differ; [by rewrite Ss, Sd|done|].
    rewrite Ts, Td. by vm_compute.
Qed.

(** Shares from a split cannot be sold. A split of whole shares multiplies
    the quantity and leaves the buckets of the settlement rule as they were:
    of a position whose shares are all in the two buckets, the new shares
    are in neither. *)
Theorem split_shares_are_stranded a q r today yesterday pos :
  ca_Terms a = CorporateActionSplit (f64_of_Z r) -> Position.Quantity pos = f64_of_Z q ->
  Position.QuantityToday pos = f64_of_Z today -> Position.QuantityYesterday pos = f64_of_Z yesterday ->
  today + yesterday = q -> 0 < q -> 1 < r -> q * r < 2 ^ 53 ->
  let new := (Apply a pos).1 in
  Position.Quantity new = f64_of_Z (q * r)
  /\ Position.QuantityToday new = f64_of_Z today /\ Position.QuantityYesterday new = f64_of_Z yesterday
  /\ today + yesterday < q * r.
Proof.
  intros Ht Hq H1 H2 Hs Hq0 Hr Hlt. assert (whole_range q /\ whole_range r /\ whole_range (q * r)) as (W1 & W2 & W3)
    by (unfold whole_range; nia).
  unfold Apply, ApplySplit, ApplyDividend. rewrite Ht, Hq. change f0 with (f64_of_Z 0). rewrite !fle_whole by (done || (unfold whole_range; lia)).
  replace (q <=? 0) with false by lia. replace (r <=? 0) with false by lia. cbn [orb fst].
  assert (Position.Quantity (scale_position (f64_of_Z r) pos) = (Position.Quantity pos * f64_of_Z r)%f64
    /\ Position.QuantityToday (scale_position (f64_of_Z r) pos) = Position.QuantityToday pos
    /\ Position.QuantityYesterday (scale_position (f64_of_Z r) pos) = Position.QuantityYesterday pos) as (-> & -> & ->)
    by (unfold scale_position, remark; destruct (flt f0 (Position.AvgCost pos)); by destruct (flt f0 (Position.CurrentPrice pos))).
  rewrite Hq, fmul_whole by (done || lia). split_and!; [done|done|done|nia].
Qed.

(** ** Concrete cases *)

Module CorpSample.
Definition sym : bytes := lit "600000.SH".
Definition pos : Position.t := Position.Mk sym (f64_of_Z 1000) (f64_of_Z 10) (f64_of_Z 12) f0 f0 f0 f0 0 0 f0 (f64_of_Z 1000).
Definition split : CorporateAction := MkAction sym (10 * day_ns) 0 0 (CorporateActionSplit (f64_of_Z 2)).
Definition dividend : CorporateAction := MkAction sym (10 * day_ns) 0 0 (CashDividend (f64_of_Z 3)).
End CorpSample.

Lemma actions_apply_once_witness :
  applied_keys (@run_calls merge_slice ∅ [(11 * day_ns, [CorpSample.pos], [CorpSample.dividend; CorpSample.split]);
                                          (12 * day_ns, [CorpSample.pos], [CorpSample.dividend; CorpSample.split])]).2
  = [actionKey CorpSample.split; actionKey CorpSample.dividend]
  /\ NoDup [actionKey CorpSample.split; actionKey CorpSample.dividend].
Proof.
  pose proof (@actions_apply_once merge_slice ∅
    [(11 * day_ns, [CorpSample.pos], [CorpSample.dividend; CorpSample.split]);
     (12 * day_ns, [CorpSample.pos], [CorpSample.dividend; CorpSample.split])]) as H.
  destruct (@run_calls merge_slice ∅ _) as [log' outs] eqn:E. destruct H as [H _]. cbn [snd].
  assert (applied_keys outs = [actionKey CorpSample.split; actionKey CorpSample.dividend]) as Ek
    by (replace outs with (log', outs).2 by reflexivity; rewrite <- E; vm_compute; reflexivity).
  rewrite Ek in H. split; [exact Ek|exact H].
Defined.

Lemma unheld_action_is_lost_witness :
  actionKey CorpSample.dividend
  ∉ applied_keys (@run_calls merge_slice (ap_log (@ApplyAll merge_slice 0 [] [CorpSample.dividend] ∅))
                   [(11 * day_ns, [CorpSample.pos], [CorpSample.dividend])]).2.
Proof.
  apply (@unheld_action_is_lost merge_slice 0 [] [CorpSample.dividend] CorpSample.dividend ∅);
    [by left|constructor].
Defined.

Lemma dividend_is_paid_on_new_shares_witness :
  ap_cash (@ApplyAll merge_slice (11 * day_ns) [CorpSample.pos] [CorpSample.dividend; CorpSample.split] ∅)
  = f64_of_Z 6000.
Proof.
  etransitivity; [refine (proj2 (@dividend_is_paid_on_new_shares merge_slice (11 * day_ns) CorpSample.pos
    [CorpSample.dividend; CorpSample.split] CorpSample.split CorpSample.dividend (f64_of_Z 2) (f64_of_Z 3) ∅
    _ _ _ _ _ _ _ _ _ _ _ _ _))|]; try (vm_compute; reflexivity).
  - apply perm_swap.
  - vm_compute. discriminate.
Defined.

Lemma split_shares_are_stranded_witness :
  Position.QuantityYesterday (Apply CorpSample.split CorpSample.pos).1 = f64_of_Z 1000
  /\ Position.Quantity (Apply CorpSample.split CorpSample.pos).1 = f64_of_Z 2000.
Proof.
  destruct (split_shares_are_stranded CorpSample.split 1000 2 0 1000 CorpSample.pos) as (H1 & _ & H2 & _);
    try reflexivity. split; [exact H2|exact H1].
Defined.
