(* ===== verification/Auction.v ===== *)
(** * Auction: the A-share call auction

    src/pkg/backtest/auction/auction.go: the trading sessions of a day and the
    matcher of a call auction, which clears at the price that trades the most
    shares and shares the volume out. A time is the local clock of the
    exchange, as the package asks of its callers. *)

From stdpp Require Import base list strings gmap.
From Stdlib Require Import ZArith Lia SpecFloat.
From S2P Require Import Prelude GoMap GoFloat Domain GoSlice.

Open Scope Z_scope.

(** ** Sessions *)

Inductive TradingSession :=
| SessionPreOpen | SessionPreOpenFreeze | SessionOpeningMatch | SessionMorningContinuous
| SessionLunch | SessionAfternoonContinuous | SessionClosingCall | SessionClosed.

#[global] Instance TradingSession_eq_dec : EqDecision TradingSession.
Proof. solve_decision. Defined.

(** [t.Weekday()]: Sunday is 0; 0001-01-01 was a Monday. *)
Definition Weekday (t : Time) : Z := (t / day_ns + 1) mod 7.

(** [h*60 + m] of [t.Clock()]. *)
Definition minutes_of (t : Time) : Z :=
  let sec := t mod day_ns / 1000000000 in
  sec / 3600 * 60 + sec mod 3600 / 60.

Definition SessionAt (t : Time) : TradingSession :=
  if (Weekday t =? 6) || (Weekday t =? 0) then SessionClosed
  else
    let minutes := minutes_of t in
    if minutes <? 9 * 60 + 15 then SessionClosed
    else if minutes <? 9 * 60 + 20 then SessionPreOpen
    else if minutes <? 9 * 60 + 25 then SessionPreOpenFreeze
    else if minutes <? 9 * 60 + 30 then SessionOpeningMatch
    else if minutes <? 11 * 60 + 30 then SessionMorningContinuous
    else if minutes <? 13 * 60 then SessionLunch
    else if minutes <? 14 * 60 + 57 then SessionAfternoonContinuous
    else if minutes <? 15 * 60 then SessionClosingCall
    else SessionClosed.

Definition SessionWindow (s : TradingSession) : Z * Z :=
  match s with
  | SessionPreOpen => (9 * 60 + 15, 9 * 60 + 20)
  | SessionPreOpenFreeze => (9 * 60 + 20, 9 * 60 + 25)
  | SessionOpeningMatch => (9 * 60 + 25, 9 * 60 + 30)
  | SessionMorningContinuous => (9 * 60 + 30, 11 * 60 + 30)
  | SessionLunch => (11 * 60 + 30, 13 * 60)
  | SessionAfternoonContinuous => (13 * 60, 14 * 60 + 57)
  | SessionClosingCall => (14 * 60 + 57, 15 * 60)
  | SessionClosed => (0, 0)
  end.

(** ** Orders and results *)

(** The side is that of the list an order is handed in; its symbol, direction
    and time are not read. *)
Record CallAuctionOrder := MkCall {
  co_ID : bytes; co_Quantity : float64; co_LimitPrice : float64
}.

Inductive NoMatchReason := one_side_empty | no_price_levels | no_overlap.

Record ClearingResult := MkClearing {
  ClearingPrice : float64; MatchedVolume : float64; BuyFillRatio : float64; SellFillRatio : float64;
  Fills : gmap bytes float64; NoMatch : option NoMatchReason
}.

Record CallAuctionMatcher := MkMatcher { PriceTick : float64; AnchorPrice : float64 }.

Definition NewCallAuctionMatcher : CallAuctionMatcher := MkMatcher (flit 1 2) f0.
Definition WithAnchor (prevClose : float64) (m : CallAuctionMatcher) : CallAuctionMatcher :=
  MkMatcher (PriceTick m) prevClose.

Definition unmatched (why : NoMatchReason) : ClearingResult := MkClearing f0 f0 f0 f0 ∅ (Some why).

(** ** Candidate prices *)

(** A set keyed by float64: equal keys are one, and a NaN equals none. *)
Definition add_key (s : list float64) (k : float64) : list float64 := if existsb (feq k) s then s else s ++ [k].

Definition auctionRound4 (x : float64) : float64 := (Round (x * f64_of_Z 10000) / f64_of_Z 10000)%f64.

Definition tick_of (m : CallAuctionMatcher) : float64 :=
  if (PriceTick m <=? f0)%f64 then flit 1 2 else PriceTick m.

Definition buy_levels (tick : float64) (s : list float64) (o : CallAuctionOrder) : list float64 :=
  if (co_LimitPrice o >? f0)%f64 then add_key (add_key s (co_LimitPrice o)) (co_LimitPrice o + tick)%f64 else s.
Definition sell_levels (tick : float64) (s : list float64) (o : CallAuctionOrder) : list float64 :=
  if (co_LimitPrice o >? f0)%f64 then add_key (add_key s (co_LimitPrice o)) (co_LimitPrice o - tick)%f64 else s.

Definition candidateSet (m : CallAuctionMatcher) (buys sells : list CallAuctionOrder) : list float64 :=
  let s := foldl (buy_levels (tick_of m)) [] buys in
  let s := foldl (sell_levels (tick_of m)) s sells in
  if (AnchorPrice m >? f0)%f64 then add_key s (AnchorPrice m) else s.

(** ** Volume at a price *)

Definition buy_at (p : float64) (o : CallAuctionOrder) : bool :=
  (co_LimitPrice o =? f0)%f64 || (co_LimitPrice o >=? p)%f64.
Definition sell_at (p : float64) (o : CallAuctionOrder) : bool :=
  (co_LimitPrice o =? f0)%f64 || (co_LimitPrice o <=? p)%f64.

(** The sum of the quantities an order list has for a price. *)
Definition cum (at_price : CallAuctionOrder -> bool) (l : list CallAuctionOrder) : float64 :=
  foldl (fun acc o => if at_price o then (acc + co_Quantity o)%f64 else acc) f0 l.

Definition matchable (buys sells : list CallAuctionOrder) (p : float64) : float64 :=
  MathMin (cum (buy_at p) buys) (cum (sell_at p) sells).

(** [best] after one more scored price. *)
Definition pick (anchor : float64) (best s : float64 * float64) : float64 * float64 :=
  if (s.2 >? best.2)%f64 then s
  else if (s.2 =? best.2)%f64 && (s.2 >? f0)%f64 then
    let distNew := Abs (s.1 - anchor)%f64 in
    let distBest := Abs (best.1 - anchor)%f64 in
    if (distNew <? distBest)%f64 then s
    else if (distNew =? distBest)%f64 && (s.1 <? best.1)%f64 then s else best
  else best.

(** ** Sharing the volume out *)

(** Market orders in full as long as the volume lasts. *)
Definition fill_market (st : gmap bytes float64 * float64) (o : CallAuctionOrder) : gmap bytes float64 * float64 :=
  let fill := MathMin (co_Quantity o) st.2 in
  (<[co_ID o := fill]> st.1, (st.2 - fill)%f64).

(** Limit orders by the ratio as long as it lasts. *)
Definition fill_limit (ratio : float64) (st : gmap bytes float64 * float64) (o : CallAuctionOrder)
    : gmap bytes float64 * float64 :=
  let raw := (co_Quantity o * ratio)%f64 in
  let fill := MathMin (co_Quantity o) (MathMin raw st.2) in
  (<[co_ID o := fill]> st.1, (st.2 - fill)%f64).

Definition is_market (o : CallAuctionOrder) : bool := (co_LimitPrice o =? f0)%f64.
Definition is_limit (o : CallAuctionOrder) : bool := negb (is_market o).

Definition side_ratio (total matched : float64) : float64 :=
  if (total >? f0)%f64 && (total >? matched)%f64 then (matched / total)%f64 else f1.

(** One side: its market orders, then its limit orders. *)
Definition fill_side (ratio matched : float64) (eligible : list CallAuctionOrder) (fills : gmap bytes float64)
    : gmap bytes float64 :=
  (foldl (fill_limit ratio) (foldl fill_market (fills, matched) (List.filter is_market eligible))
    (List.filter is_limit eligible)).1.

Definition allocateFills (buys sells : list CallAuctionOrder) (price matched : float64) : gmap bytes float64 :=
  let eligibleBuys := List.filter (buy_at price) buys in
  let eligibleSells := List.filter (sell_at price) sells in
  let totalBuyDemand := (cum is_market eligibleBuys + cum is_limit eligibleBuys)%f64 in
  let sellTotal := cum (fun _ => true) eligibleSells in
  let fills := fill_side (side_ratio totalBuyDemand matched) matched eligibleBuys ∅ in
  fill_side (side_ratio sellTotal matched) matched eligibleSells fills.

(** ** The matcher *)

Definition float_less (a b : float64) : bool := (a <? b)%f64 || (is_nan a && negb (is_nan b)).

Section Matcher.
(** The order in which [range] visits the set, and [sort.Float64s]. *)
Context `{!SliceSort}.
Context (visit_prices : list float64 -> list float64).

Definition candidates (m : CallAuctionMatcher) (buys sells : list CallAuctionOrder) : list float64 :=
  Slice float_less (map auctionRound4 (visit_prices (candidateSet m buys sells))).

Definition scored (m : CallAuctionMatcher) (buys sells : list CallAuctionOrder) : list (float64 * float64) :=
  map (fun p => (p, matchable buys sells p)) (candidates m buys sells).

Definition Match (m : CallAuctionMatcher) (buys sells : list CallAuctionOrder) : ClearingResult :=
  if (length buys =? 0)%nat || (length sells =? 0)%nat then unmatched one_side_empty
  else match scored m buys sells with
  | [] => unmatched no_price_levels
  | first :: rest =>
      let best := foldl (pick (AnchorPrice m)) first rest in
      if (best.2 <=? f0)%f64 then unmatched no_overlap
      else MkClearing best.1 best.2 f0 f0 (allocateFills buys sells best.1 best.2) None
  end.

End Matcher.

(** ** Questions to a result *)

Definition FillRatio (r : ClearingResult) (orderID : bytes) (totalQty : float64) : float64 :=
  if (totalQty <=? f0)%f64 then f0
  else match Fills r !! orderID with None => f0 | Some filled => (filled / totalQty)%f64 end.

Definition IsFullyFilled (r : ClearingResult) (orderID : bytes) (orderQty : float64) : bool :=
  if (orderQty <=? f0)%f64 then false
  else match Fills r !! orderID with
       | None => false
       | Some filled => (filled >=? orderQty - flit 1 6)%f64
       end.
