(* ===== verification/AuctionProps.v ===== *)
(** * AuctionProps: what the call auction promises

    The clearing price trades at least as many shares as any other price, the
    side with fewer shares is filled in full and nobody trades past a limit
    or a quantity. Quantities are whole shares, so the sums are exact. *)

From stdpp Require Import base list strings gmap.
From Stdlib Require Import ZArith Lia SpecFloat.
From S2P Require Import Prelude GoMap GoFloat FloatInt FloatRound ShareLedger Domain GoSlice Auction FloatError TrackerProps.

Open Scope Z_scope.

(** ** Sessions *)

(** On a weekday the session of a time is the one whose window has its minute. *)
Lemma session_windows_exact t s :
  Weekday t <> 6 -> Weekday t <> 0 -> s <> SessionClosed ->
  SessionAt t = s <-> (SessionWindow s).1 <= minutes_of t < (SessionWindow s).2.
Proof.
  intros H6 H0 Hs. unfold SessionAt. destruct (Weekday t =? 6) eqn:E6; bool_to_prop; [done|].
  destruct (Weekday t =? 0) eqn:E0; bool_to_prop; [done|]. cbn [orb]. cbv zeta. generalize (minutes_of t) as n. intros n.
  destruct s; try done; cbn [SessionWindow fst snd]; repeat case_match; bool_to_prop; split; intros; try done; lia.
Qed.

(** ** Whole shares *)

Definition qty (o : CallAuctionOrder) : Z := f64_to_int64 (co_Quantity o).
Definition whole_order (o : CallAuctionOrder) : Prop := co_Quantity o = f64_of_Z (qty o) /\ 0 < qty o < 2 ^ 53.

Fixpoint zcum (P : CallAuctionOrder -> bool) (l : list CallAuctionOrder) : Z :=
  match l with [] => 0 | o :: l' => (if P o then qty o else 0) + zcum P l' end.

(** A side of a book: whole orders whose sum a float64 represents. *)
Definition whole_book (l : list CallAuctionOrder) : Prop :=
  Forall whole_order l /\ zcum (fun _ => true) l < 2 ^ 53.

Lemma zcum_mono P Q l : Forall whole_order l -> (forall o, o ∈ l -> P o = true -> Q o = true) -> 0 <= zcum P l <= zcum Q l.
Proof.
  induction 1 as [|o l [_ Hq] Hl IH]; intros HPQ; cbn; [lia|].
  assert (0 <= zcum P l <= zcum Q l) by (apply IH; intros; apply HPQ; [by right|done]).
  pose proof (HPQ o ltac:(by left)) as Ho. destruct (P o), (Q o); try lia.
Qed.

Lemma zcum_filter P Q l : zcum Q (List.filter P l) = zcum (fun o => P o && Q o) l.
Proof. induction l as [|o l IH]; [done|]. cbn. destruct (P o); cbn; lia. Qed.

Lemma zcum_ext P Q l : (forall o, P o = Q o) -> zcum P l = zcum Q l.
Proof. intros H. induction l as [|o l IH]; [done|]. cbn. rewrite H. lia. Qed.

Lemma zcum_split P Q l : zcum (fun o => P o && Q o) l + zcum (fun o => P o && negb (Q o)) l = zcum P l.
Proof. induction l as [|o l IH]; [done|]. cbn. destruct (P o), (Q o); cbn; lia. Qed.

Lemma cum_whole_from (P : CallAuctionOrder -> bool) l a :
  Forall whole_order l -> 0 <= a -> a + zcum (fun _ => true) l < 2 ^ 53 ->
  foldl (fun (acc : float64) o => if P o then (acc + co_Quantity o)%f64 else acc) (f64_of_Z a) l = f64_of_Z (a + zcum P l).
Proof.
  intros Hl. revert a. induction Hl as [|o l [Hq H0] Hl IH]; intros a Ha Hlt; cbn in *; [f_equal; lia|].
  pose proof (zcum_mono (fun _ => true) (fun _ => true) l Hl ltac:(done)).
  destruct (P o); [|apply IH; lia]. rewrite Hq, fadd_whole by whole. rewrite IH by lia. f_equal. lia.
Qed.

Lemma cum_whole P l : whole_book l -> cum P l = f64_of_Z (zcum P l).
Proof. intros [Hl Hlt]. exact (cum_whole_from P l 0 Hl ltac:(lia) Hlt). Qed.

Lemma zcum_range P l : whole_book l -> 0 <= zcum P l < 2 ^ 53.
Proof. intros [Hl Hlt]. pose proof (zcum_mono P (fun _ => true) l Hl ltac:(done)). lia. Qed.

Lemma whole_book_filter P l : whole_book l -> whole_book (List.filter P l).
Proof.
  intros [Hl Hlt]. split.
  - rewrite Forall_forall in Hl |- *. intros o Ho. apply Hl. apply list_elem_of_In, filter_In in Ho as [Ho _].
    by apply list_elem_of_In.
  - rewrite zcum_filter. pose proof (zcum_mono (fun o => P o && true) (fun _ => true) l Hl ltac:(done)). lia.
Qed.

(** ** Signs *)

(** A number that is not negative. *)
Definition nn (x : float64) : Prop := fvalid x = true /\ fle f0 x = true.

Lemma nn_not_nan x : nn x -> is_nan x = false.
Proof. intros [_ H]. by destruct x. Qed.

Lemma nn_whole z : 0 <= z < 2 ^ 53 -> nn (f64_of_Z z).
Proof.
  intros Hz. split; [apply fvalid_of_Z|]. change f0 with (f64_of_Z 0). rewrite fle_whole by whole. lia.
Qed.

Lemma MathMin_fmin x y : nn x -> nn y -> MathMin x y = fmin x y.
Proof.
  intros [_ Hx] [_ Hy]. unfold MathMin, fmin.
  destruct x as [sx|[]| |[] mx ex], y as [sy|[]| |[] my ey]; try discriminate; try done; cbn [is_inf is_nan signbit andb orb].
  destruct (feq (S754_finite false mx ex) f0) eqn:E; [by cbn in E|]. cbn [andb].
  destruct (flt _ _); [done|]. by destruct (flt _ _).
Qed.

Lemma nn_MathMin x y : nn x -> nn y ->
  nn (MathMin x y) /\ fle (MathMin x y) x = true /\ fle (MathMin x y) y = true.
Proof.
  intros Hx Hy. rewrite MathMin_fmin by done. pose proof (nn_not_nan x Hx) as Nx. pose proof (nn_not_nan y Hy) as Ny.
  assert (Hrefl : forall z, is_nan z = false -> fle z z = true) by (intros; apply fnot_gt_le; auto using flt_irrefl).
  unfold fmin. rewrite Nx, Ny. destruct (x <? y)%f64 eqn:E1; [split_and!; auto using flt_fle|].
  destruct (y <? x)%f64 eqn:E2; [split_and!; auto using flt_fle|].
  case_match; split_and!; auto using fnot_gt_le.
Qed.

Lemma fsub_nan_free x y : nn x -> nn y -> is_inf y = false -> is_nan (x - y)%f64 = false.
Proof.
  intros [Vx Hx] [Vy Hy] Hi. destruct x as [sx|[]| |[] mx ex], y as [sy|[]| |[] my ey]; try discriminate; try done.
  all: try (unfold fsub, SFsub; by destruct sx, sy).
  unfold fsub, SFsub, binary_normalize. destruct (_ - _); [done|..];
    (match goal with |- is_nan (binary_round _ _ ?s ?p ?e) = _ =>
       destruct (round_enc s p e) as (m' & e' & m2 & _ & _ & _ & _ & Hr & ->) end;
     unfold enc; destruct m2; [done| |by destruct Hr; lia]; by destruct (_ =? _), (_ <=? _)).
Qed.

(** What is left after a fill that fits. *)
Lemma nn_fsub x y : nn x -> nn y -> fle y x = true -> is_inf y = false -> nn (x - y)%f64.
Proof.
  intros Hx Hy Hle Hi. pose proof (fsub_nan_free x y Hx Hy Hi) as Hn. destruct Hx as [Vx _], Hy as [Vy _].
  split; [by apply fvalid_sub|]. apply fnot_gt_le; [done|done|].
  apply fsub_not_negative; [done|done|]. by apply fle_not_gt.
Qed.

Lemma side_ratio_pos total matched :
  0 <= total < 2 ^ 53 -> 0 < matched < 2 ^ 53 ->
  let r := side_ratio (f64_of_Z total) (f64_of_Z matched) in fvalid r = true /\ flt f0 r = true.
Proof.
  intros Ht Hm. unfold side_ratio. cbv zeta. destruct (_ && _) eqn:E; [|done]. apply andb_prop in E as [E1 E2].
  change f0 with (f64_of_Z 0) in *. rewrite flt_whole in E1, E2 by whole. bool_to_prop.
  destruct (fdiv_near (f64_of_Z matched) (f64_of_Z total)) as (V & F & P & _);
    try apply fvalid_of_Z; try (apply ffinite_whole; whole); rewrite ?fmag_whole by whole; try lia.
  split; [done|]. apply flt_fmag; try done.
Qed.

(** ** Filling one side *)

(** The order of an identifier got a part of what it asked for. *)
Definition part_of (fills : gmap bytes float64) (o : CallAuctionOrder) : Prop :=
  exists q, fills !! co_ID o = Some q /\ fle f0 q = true /\ fle q (co_Quantity o) = true.

(** A filling step: it writes a part of the order and leaves what remains. *)
Record fair (step : gmap bytes float64 * float64 -> CallAuctionOrder -> gmap bytes float64 * float64) : Prop := {
  fair_rem st o : whole_order o -> nn st.2 -> nn (step st o).2;
  fair_part st o : whole_order o -> nn st.2 -> part_of (step st o).1 o;
  fair_other st o id : id <> co_ID o -> (step st o).1 !! id = st.1 !! id
}.

Lemma fold_fair step l : fair step -> forall st,
  Forall whole_order l -> NoDup (map co_ID l) -> nn st.2 ->
  let st' := foldl step st l in
  nn st'.2 /\ Forall (part_of st'.1) l /\ (forall id, id ∉ map co_ID l -> st'.1 !! id = st.1 !! id).
Proof.
  intros Hf. induction l as [|o l IH]; intros st Hl Hnd Hn; cbn [foldl map] in *; [split_and!; auto|].
  apply Forall_cons in Hl as [Ho Hl]. apply NoDup_cons in Hnd as [Hid Hnd].
  destruct (IH (step st o) Hl Hnd ltac:(by apply fair_rem)) as (H1 & H2 & H3). split_and!; [done| |].
  - constructor; [|done]. destruct (fair_part _ Hf st o Ho Hn) as (q & Hq & Hb). exists q. by rewrite H3.
  - intros id Hin. rewrite not_elem_of_cons in Hin. destruct Hin as [Hne Hin]. rewrite H3 by done. by apply fair_other.
Qed.

Lemma fair_step fill :
  (forall st o, whole_order o -> nn st.2 ->
     nn (fill st o) /\ fle (fill st o) (co_Quantity o) = true /\ fle (fill st o) st.2 = true) ->
  fair (fun st o => (<[co_ID o := fill st o]> st.1, (st.2 - fill st o)%f64)).
Proof.
  intros Hf. constructor; cbn.
  - intros st o Ho Hn. destruct (Hf st o Ho Hn) as (F & Fq & Fr). apply nn_fsub; [done..|].
    destruct Ho as [Hq Hp]. rewrite Hq in Fq. pose proof (ffinite_whole (qty o) ltac:(whole)) as Ff.
    destruct F as [_ F0]. destruct (fill st o) as [|[]| |[]]; try done. by destruct (f64_of_Z (qty o)) as [|[]| |[]].
  - intros st o Ho Hn. destruct (Hf st o Ho Hn) as ([_ F0] & Fq & _). exists (fill st o).
    by rewrite lookup_insert_eq.
  - intros st o id Hne. by rewrite lookup_insert_ne.
Qed.

Lemma fair_market : fair fill_market.
Proof.
  apply (fair_step (fun st o => MathMin (co_Quantity o) st.2)). intros st o [-> Hq] Hn.
  apply nn_MathMin; [apply nn_whole; lia|done].
Qed.

Lemma fair_limit ratio : fvalid ratio = true -> flt f0 ratio = true -> fair (fill_limit ratio).
Proof.
  intros Vr Hr.
  apply (fair_step (fun st o => MathMin (co_Quantity o) (MathMin (co_Quantity o * ratio)%f64 st.2))).
  intros st o [-> Hq] Hn. set (q := f64_of_Z (qty o)). assert (Nq : nn q) by (apply nn_whole; lia).
  assert (Nr : nn (q * ratio)%f64).
  { split; [apply fvalid_mul; [apply fvalid_of_Z|done]|]. apply fmul_pos_nonneg; try done; [apply fvalid_of_Z|].
    change f0 with (f64_of_Z 0). unfold q. rewrite flt_whole by whole. lia. }
  destruct (nn_MathMin (q * ratio)%f64 st.2 Nr Hn) as (N1 & _ & L1).
  destruct (nn_MathMin q (MathMin (q * ratio)%f64 st.2) Nq N1) as (N2 & L2 & L3). split_and!; [done|done|].
  apply fnot_gt_le; [by apply nn_not_nan..|].
  apply (fle_trans_nan _ (MathMin (q * ratio)%f64 st.2) _); auto using nn_not_nan, fle_not_gt.
Qed.

(** The two kinds of one side partition it. *)
Lemma market_limit_perm l : List.filter is_market l ++ List.filter is_limit l ≡ₚ l.
Proof.
  induction l as [|o l IH]; [done|]. cbn. unfold is_limit at 1. destruct (is_market o); cbn.
  - by constructor.
  - rewrite <- Permutation_middle. by constructor.
Qed.

Lemma fill_side_fair ratio matched l fills :
  Forall whole_order l -> NoDup (map co_ID l) -> nn matched -> fvalid ratio = true -> flt f0 ratio = true ->
  let fills' := fill_side ratio matched l fills in
  Forall (part_of fills') l /\ (forall id, id ∉ map co_ID l -> fills' !! id = fills !! id).
Proof.
  intros Hl Hnd Hn Vr Hr. pose proof (market_limit_perm l) as Hp. rewrite <- Hp in Hl, Hnd.
  cbv zeta. unfold fill_side. set (lm := List.filter is_market l) in *. set (ll := List.filter is_limit l) in *.
  rewrite map_app, NoDup_app in Hnd. destruct Hnd as (Nm & Hdis & Nl). apply Forall_app in Hl as [Wm Wl].
  destruct (fold_fair _ lm fair_market (fills, matched) Wm Nm Hn) as (H1 & H2 & H3).
  destruct (fold_fair _ ll (fair_limit ratio Vr Hr) _ Wl Nl H1) as (H4 & H5 & H6). split.
  - rewrite <- Hp. apply Forall_app. split; [|done]. rewrite Forall_forall in H2 |- *. intros o Ho.
    destruct (H2 o Ho) as (q & Hq & Hb). exists q. rewrite H6; [done|].
    apply Hdis. by apply list_elem_of_fmap_2.
  - intros id Hid. rewrite <- Hp, map_app, not_elem_of_app in Hid. destruct Hid as [I1 I2]. by rewrite H6, H3.
Qed.

(** ** Filling a side in full *)

Definition fills_all (step : gmap bytes float64 * float64 -> CallAuctionOrder -> gmap bytes float64 * float64) : Prop :=
  forall fills rem o, whole_order o -> qty o <= rem < 2 ^ 53 ->
  step (fills, f64_of_Z rem) o = (<[co_ID o := co_Quantity o]> fills, f64_of_Z (rem - qty o)).

Lemma market_fills_all : fills_all fill_market.
Proof.
  intros fills rem o [Hq Hp] Hr. unfold fill_market. cbn [fst snd].
  rewrite MathMin_fmin by (rewrite ?Hq; apply nn_whole; lia). rewrite Hq, fmin_whole by whole.
  rewrite Z.min_l, fsub_whole by whole. done.
Qed.

Lemma limit_fills_all : fills_all (fill_limit f1).
Proof.
  intros fills rem o [Hq Hp] Hr. unfold fill_limit. cbn [fst snd]. rewrite Hq. change f1 with (f64_of_Z 1).
  rewrite fmul_whole, Z.mul_1_r by whole. assert (Hn : forall z, 0 < z < 2 ^ 53 -> nn (f64_of_Z z)) by (intros; apply nn_whole; lia).
  rewrite (MathMin_fmin _ (f64_of_Z rem)), fmin_whole, Z.min_l by ((apply Hn; lia) || whole).
  rewrite MathMin_fmin, fmin_whole, Z.min_id by ((apply Hn; lia) || whole). rewrite fsub_whole by whole. done.
Qed.

Lemma fold_fills_all step l : fills_all step -> forall fills rem,
  Forall whole_order l -> NoDup (map co_ID l) -> zcum (fun _ => true) l <= rem < 2 ^ 53 ->
  exists fills', foldl step (fills, f64_of_Z rem) l = (fills', f64_of_Z (rem - zcum (fun _ => true) l))
  /\ Forall (fun o => fills' !! co_ID o = Some (co_Quantity o)) l
  /\ (forall id, id ∉ map co_ID l -> fills' !! id = fills !! id).
Proof.
  intros Hf. induction l as [|o l IH]; intros fills rem Hl Hnd Hr; cbn [foldl map zcum] in *.
  { exists fills. split_and!; [do 2 f_equal; lia|done..]. }
  apply Forall_cons in Hl as [Ho Hl]. apply NoDup_cons in Hnd as [Hid Hnd].
  pose proof (zcum_mono (fun _ => true) (fun _ => true) l Hl ltac:(done)).
  rewrite Hf by (done || lia).
  destruct (IH (<[co_ID o := co_Quantity o]> fills) (rem - qty o) Hl Hnd ltac:(destruct Ho; lia)) as (fills' & -> & H1 & H2).
  exists fills'. split_and!; [do 2 f_equal; lia| |].
  - constructor; [|done]. by rewrite H2, lookup_insert_eq.
  - intros id Hin. rewrite not_elem_of_cons in Hin. destruct Hin as [Hne Hin]. by rewrite H2, lookup_insert_ne.
Qed.

Lemma fill_side_all l fills :
  whole_book l -> NoDup (map co_ID l) ->
  Forall (fun o => fill_side f1 (f64_of_Z (zcum (fun _ => true) l)) l fills !! co_ID o = Some (co_Quantity o)) l.
Proof.
  intros Hb Hnd. pose proof (market_limit_perm l) as Hp. destruct Hb as [Hl Hlt].
  assert (Hsum : zcum (fun _ => true) (List.filter is_market l) + zcum (fun _ => true) (List.filter is_limit l)
                 = zcum (fun _ => true) l).
  { rewrite !zcum_filter, <- (zcum_split (fun _ => true) is_market l). unfold is_limit.
    f_equal; apply zcum_ext; intros o; by destruct (is_market o). }
  rewrite <- Hp in Hl, Hnd. unfold fill_side. set (lm := List.filter is_market l) in *. set (ll := List.filter is_limit l) in *.
  rewrite map_app, NoDup_app in Hnd. destruct Hnd as (Nm & Hdis & Nl). apply Forall_app in Hl as [Wm Wl].
  pose proof (zcum_mono (fun _ => true) (fun _ => true) lm Wm ltac:(done)).
  pose proof (zcum_mono (fun _ => true) (fun _ => true) ll Wl ltac:(done)).
  destruct (fold_fills_all _ lm market_fills_all fills (zcum (fun _ => true) l) Wm Nm ltac:(lia)) as (f & -> & H1 & H2).
  destruct (fold_fills_all _ ll limit_fills_all f (zcum (fun _ => true) l - zcum (fun _ => true) lm) Wl Nl ltac:(lia))
    as (g & -> & H3 & H4).
  cbn [fst]. rewrite <- Hp. apply Forall_app. split; [|done]. rewrite Forall_forall in H1 |- *. intros o Ho.
  rewrite H4 by (apply Hdis; by apply list_elem_of_fmap_2). by apply H1.
Qed.

(** ** The matcher *)

Definition zmatch (buys sells : list CallAuctionOrder) (p : float64) : Z :=
  Z.min (zcum (buy_at p) buys) (zcum (sell_at p) sells).

Lemma matchable_whole buys sells p : whole_book buys -> whole_book sells ->
  matchable buys sells p = f64_of_Z (zmatch buys sells p) /\ 0 <= zmatch buys sells p < 2 ^ 53.
Proof.
  intros Hb Hs. pose proof (zcum_range (buy_at p) buys Hb). pose proof (zcum_range (sell_at p) sells Hs).
  unfold matchable, zmatch. rewrite !cum_whole by done.
  rewrite MathMin_fmin by (by apply nn_whole). rewrite fmin_whole by whole. split; [done|lia].
Qed.

Section Clearing.
Context `{!SliceSort} (visit_prices : list float64 -> list float64).
Context (visit_prices_perm : forall l, visit_prices l ≡ₚ l).
Context (m : CallAuctionMatcher) (buys sells : list CallAuctionOrder).

Lemma candidates_elem p : p ∈ candidates visit_prices m buys sells <-> p ∈ map auctionRound4 (candidateSet m buys sells).
Proof. unfold candidates. by rewrite Slice_elem, visit_prices_perm. Qed.

(** The running choice is one of the scored prices. *)
Lemma pick_elem anchor first rest : foldl (pick anchor) first rest ∈ first :: rest.
Proof.
  revert first. induction rest as [|s rest IH]; intros first; cbn [foldl]; [by left|].
  assert (Hc : pick anchor first s = s \/ pick anchor first s = first) by (unfold pick; repeat case_match; auto).
  pose proof (IH (pick anchor first s)) as Hin. destruct Hc as [E|E]; rewrite E in *; set_solver.
Qed.

(** A clearing: the price is a candidate, the volume is what trades at it. *)
Lemma Match_cleared :
  let r := Match visit_prices m buys sells in
  NoMatch r = None ->
  ClearingPrice r ∈ candidates visit_prices m buys sells
  /\ MatchedVolume r = matchable buys sells (ClearingPrice r) /\ fle (MatchedVolume r) f0 = false
  /\ Fills r = allocateFills buys sells (ClearingPrice r) (MatchedVolume r).
Proof.
  cbv zeta. unfold Match. destruct (_ || _); [done|]. destruct (scored _ _ _ _) as [|first rest] eqn:E; [done|].
  set (best := foldl _ _ _). destruct (fle best.2 f0) eqn:Ef; [done|]. intros _. cbn.
  assert (Hin : best ∈ scored visit_prices m buys sells) by (rewrite E; apply pick_elem).
  unfold scored in Hin. apply list_elem_of_fmap in Hin as (p & Hp & Hin). rewrite Hp. cbn. split_and!; try done.
  rewrite Hp in Ef. done.
Qed.

Context (buys_whole : whole_book buys) (sells_whole : whole_book sells).
Context (ids : NoDup (map co_ID (buys ++ sells))).

Lemma cleared_volume :
  let r := Match visit_prices m buys sells in
  NoMatch r = None ->
  exists v, MatchedVolume r = f64_of_Z v /\ 0 < v < 2 ^ 53 /\ v = zmatch buys sells (ClearingPrice r).
Proof.
  intros r Hr. destruct (Match_cleared Hr) as (_ & Hv & Hpos & _). fold r in Hv, Hpos.
  destruct (matchable_whole buys sells (ClearingPrice r) buys_whole sells_whole) as [E Hz].
  exists (zmatch buys sells (ClearingPrice r)). rewrite Hv, E in *. split_and!; [done| |lia|done].
  change f0 with (f64_of_Z 0) in Hpos. rewrite fle_whole in Hpos by whole. lia.
Qed.

(** The two sides of a fill, with their totals in whole shares. *)
Lemma side_totals p :
  let eb := List.filter (buy_at p) buys in let es := List.filter (sell_at p) sells in
  (cum is_market eb + cum is_limit eb)%f64 = f64_of_Z (zcum (buy_at p) buys)
  /\ cum (fun _ => true) es = f64_of_Z (zcum (sell_at p) sells)
  /\ zcum (fun _ => true) eb = zcum (buy_at p) buys /\ zcum (fun _ => true) es = zcum (sell_at p) sells.
Proof.
  cbv zeta. pose proof (whole_book_filter (buy_at p) buys buys_whole) as Wb.
  pose proof (whole_book_filter (sell_at p) sells sells_whole) as Ws.
  assert (Hall : forall P l, zcum (fun _ => true) (List.filter P l) = zcum P l).
  { intros P l. rewrite zcum_filter. apply zcum_ext. intros o. apply andb_true_r. }
  assert (Hsum : zcum is_market (List.filter (buy_at p) buys) + zcum is_limit (List.filter (buy_at p) buys) = zcum (buy_at p) buys)
    by (rewrite !zcum_filter; apply zcum_split).
  pose proof (zcum_range is_market _ Wb). pose proof (zcum_range is_limit _ Wb). pose proof (zcum_range (buy_at p) buys buys_whole).
  split_and!; [|rewrite cum_whole by done; by rewrite Hall|apply Hall..].
  rewrite !cum_whole by done. rewrite fadd_whole by whole. by rewrite Hsum.
Qed.

Lemma sublist_eligible P (l : list CallAuctionOrder) o : o ∈ List.filter P l <-> o ∈ l /\ P o = true.
Proof. by rewrite !list_elem_of_In, filter_In. Qed.

Lemma NoDup_eligible P (l : list CallAuctionOrder) : NoDup (map co_ID l) -> NoDup (map co_ID (List.filter P l)).
Proof.
  induction l as [|o l IH]; cbn; [done|]. rewrite NoDup_cons. intros [Hid Hnd]. destruct (P o); [|by apply IH].
  cbn. apply NoDup_cons. split; [|by apply IH]. intros Hin. apply Hid.
  apply list_elem_of_fmap in Hin as (x & -> & Hx). apply sublist_eligible in Hx as [Hx _]. by apply list_elem_of_fmap_2.
Qed.

(** The allocation at a price that trades something. *)
Lemma allocate_spec p :
  0 < zmatch buys sells p ->
  let fills := allocateFills buys sells p (f64_of_Z (zmatch buys sells p)) in
  let eb := List.filter (buy_at p) buys in let es := List.filter (sell_at p) sells in
  Forall (part_of fills) (eb ++ es)
  /\ (forall id, id ∉ map co_ID (eb ++ es) -> fills !! id = None)
  /\ (zcum (buy_at p) buys <= zcum (sell_at p) sells -> Forall (fun o => fills !! co_ID o = Some (co_Quantity o)) eb)
  /\ (zcum (sell_at p) sells <= zcum (buy_at p) buys -> Forall (fun o => fills !! co_ID o = Some (co_Quantity o)) es).
Proof.
  intros Hz. cbv zeta. destruct (side_totals p) as (Tb & Ts & Zb & Zs). cbv zeta in Tb, Ts, Zb, Zs.
  unfold allocateFills. cbv zeta. rewrite Tb, Ts.
  set (eb := List.filter (buy_at p) buys) in *. set (es := List.filter (sell_at p) sells) in *.
  assert (Wb : whole_book eb) by (by apply whole_book_filter). assert (Ws : whole_book es) by (by apply whole_book_filter).
  assert (Nb : NoDup (map co_ID eb) /\ NoDup (map co_ID es) /\ forall o, o ∈ eb -> co_ID o ∉ map co_ID es).
  { rewrite map_app, NoDup_app in ids. destruct ids as (N1 & Hd & N2). split_and!; [by apply NoDup_eligible..|].
    intros o Ho Hin. apply list_elem_of_fmap in Hin as (x & Ex & Hx). apply sublist_eligible in Ho as [Ho _], Hx as [Hx _].
    apply (Hd (co_ID o)); [by apply list_elem_of_fmap_2|rewrite Ex; by apply list_elem_of_fmap_2]. }
  destruct Nb as (Nb & Ns & Hd).
  pose proof (zcum_range (buy_at p) buys buys_whole) as Rb. pose proof (zcum_range (sell_at p) sells sells_whole) as Rs.
  assert (Rz : 0 < zmatch buys sells p < 2 ^ 53) by (unfold zmatch in *; lia). set (z := zmatch buys sells p) in *.
  set (rb := side_ratio (f64_of_Z (zcum (buy_at p) buys)) (f64_of_Z z)) in *. destruct (side_ratio_pos (zcum (buy_at p) buys) z Rb Rz) as [Vb Pb]. fold rb in Vb, Pb.
  set (fb := fill_side rb (f64_of_Z z) eb ∅). set (rs := side_ratio (f64_of_Z (zcum (sell_at p) sells)) (f64_of_Z z)) in *.
  destruct (side_ratio_pos (zcum (sell_at p) sells) z Rs Rz) as [Vs Ps]. fold rs in Vs, Ps.
  assert (Hnz : nn (f64_of_Z z)) by (apply nn_whole; lia).
  destruct (fill_side_fair rb (f64_of_Z z) eb ∅ (proj1 Wb) Nb Hnz Vb Pb) as [F1 O1]. fold fb in F1, O1.
  destruct (fill_side_fair rs (f64_of_Z z) es fb (proj1 Ws) Ns Hnz Vs Ps) as [F2 O2].
  assert (Keep : forall o, o ∈ eb -> fill_side rs (f64_of_Z z) es fb !! co_ID o = fb !! co_ID o)
    by (intros o Ho; apply O2; by apply Hd).
  assert (Hone : forall t, t = z -> side_ratio (f64_of_Z t) (f64_of_Z z) = f1).
  { intros t ->. unfold side_ratio. by rewrite flt_irrefl, andb_false_r. }
  split_and!.
  - apply Forall_app. split; [|done]. rewrite Forall_forall in F1 |- *. intros o Ho.
    destruct (F1 o Ho) as (q & Hq & Hb). exists q. by rewrite Keep.
  - intros id Hid. rewrite map_app, not_elem_of_app in Hid. destruct Hid as [I1 I2]. by rewrite O2, O1.
  - intros Hle. assert (E : zcum (buy_at p) buys = z) by (subst z; unfold zmatch; lia).
    pose proof (fill_side_all eb ∅ Wb Nb) as Ha. rewrite Forall_forall in Ha |- *. intros o Ho. rewrite Keep by done.
    specialize (Ha o Ho). unfold fb, rb. rewrite Hone by done. by rewrite Zb, E in Ha.
  - intros Hle. assert (E : zcum (sell_at p) sells = z) by (subst z; unfold zmatch; lia).
    pose proof (fill_side_all es fb Ws Ns) as Ha. unfold rs. rewrite Hone by done. by rewrite Zs, E in Ha.
Qed.

(** C27. Fills of a call auction. When an auction of whole shares clears, only
    orders whose limit admits the clearing price get shares, each between
    none and what it asked for, and the side that brings fewer shares at that
    price is filled in full, market and limit orders alike. *)
Theorem short_side_fills_in_full :
  let r := Match visit_prices m buys sells in
  let p := ClearingPrice r in
  NoMatch r = None ->
  (forall id q, Fills r !! id = Some q ->
     exists o, (o ∈ buys /\ buy_at p o = true \/ o ∈ sells /\ sell_at p o = true)
       /\ co_ID o = id /\ fle f0 q = true /\ fle q (co_Quantity o) = true)
  /\ (fle (cum (buy_at p) buys) (cum (sell_at p) sells) = true ->
      forall o, o ∈ buys -> buy_at p o = true -> Fills r !! co_ID o = Some (co_Quantity o))
  /\ (fle (cum (sell_at p) sells) (cum (buy_at p) buys) = true ->
      forall o, o ∈ sells -> sell_at p o = true -> Fills r !! co_ID o = Some (co_Quantity o)).
Proof.
  cbv zeta. intros Hr. destruct (Match_cleared Hr) as (_ & _ & _ & ->). destruct (cleared_volume Hr) as (v & -> & Hv & Ev).
  set (p := ClearingPrice _) in *. rewrite !cum_whole by done. subst v.
  pose proof (zcum_range (buy_at p) buys buys_whole). pose proof (zcum_range (sell_at p) sells sells_whole).
  destruct (allocate_spec p ltac:(lia)) as (Hpart & Hnone & Hbuy & Hsell). rewrite Forall_forall in Hpart.
  rewrite !fle_whole by whole. split_and!.
  - intros id q Hq. destruct (decide (id ∈ map co_ID (List.filter (buy_at p) buys ++ List.filter (sell_at p) sells))) as [Hin|Hin].
    2:{ by rewrite Hnone in Hq. }
    apply list_elem_of_fmap in Hin as (o & -> & Ho). destruct (Hpart o Ho) as (q' & Hq' & Hb).
    rewrite Hq in Hq'. injection Hq' as <-. exists o. split; [|by split].
    apply elem_of_app in Ho as [Ho|Ho]; apply sublist_eligible in Ho; auto.
  - intros Hle o Ho Hat. apply Z.leb_le in Hle. specialize (Hbuy Hle). rewrite Forall_forall in Hbuy. apply Hbuy. by apply sublist_eligible.
  - intros Hle o Ho Hat. apply Z.leb_le in Hle. specialize (Hsell Hle). rewrite Forall_forall in Hsell. apply Hsell. by apply sublist_eligible.
Qed.

End Clearing.

(** ** The clearing price *)

Lemma feq_pos_eq x y : flt f0 x = true -> feq x y = true -> x = y.
Proof.
  destruct x as [|[]| |[] mx ex], y as [|[]| |[] my ey]; try done. intros _. unfold feq, SFeqb, SFcompare.
  destruct (Z.compare_spec ex ey) as [->|?|?]; try done.
  destruct (Pos.compare_cont Eq mx my) eqn:E; try done. change (Pos.compare mx my = Eq) in E. by apply Pos.compare_eq in E as ->.
Qed.

Lemma add_key_in s k : flt f0 k = true -> k ∈ add_key s k.
Proof.
  intros Hk. unfold add_key. destruct (existsb _ s) eqn:E; [|set_solver].
  apply existsb_exists in E as (x & Hx & Heq). apply (feq_pos_eq k x Hk) in Heq as ->. by apply list_elem_of_In.
Qed.

Lemma add_key_sub s k x : x ∈ s -> x ∈ add_key s k.
Proof. intros. unfold add_key. destruct (existsb _ s); set_solver. Qed.

Lemma levels_keep (f : list float64 -> CallAuctionOrder -> list float64) l :
  (forall s o x, x ∈ s -> x ∈ f s o) -> (forall s o, flt f0 (co_LimitPrice o) = true -> co_LimitPrice o ∈ f s o) ->
  forall s, (forall x, x ∈ s -> x ∈ foldl f s l)
  /\ (forall o, o ∈ l -> flt f0 (co_LimitPrice o) = true -> co_LimitPrice o ∈ foldl f s l).
Proof.
  intros Hk Hi. induction l as [|o l IH]; intros s; cbn [foldl]; [split; [done|set_solver]|].
  destruct (IH (f s o)) as [H1 H2]. split; [auto|]. intros o' [->|Ho']%elem_of_cons Hp; auto.
Qed.

Lemma buy_levels_keep tick l s :
  (forall x, x ∈ s -> x ∈ foldl (buy_levels tick) s l)
  /\ (forall o, o ∈ l -> flt f0 (co_LimitPrice o) = true -> co_LimitPrice o ∈ foldl (buy_levels tick) s l).
Proof.
  apply levels_keep; unfold buy_levels; intros s' o; [intros x Hx; case_match; auto using add_key_sub|].
  intros E. rewrite E. apply add_key_sub. by apply add_key_in.
Qed.

Lemma sell_levels_keep tick l s :
  (forall x, x ∈ s -> x ∈ foldl (sell_levels tick) s l)
  /\ (forall o, o ∈ l -> flt f0 (co_LimitPrice o) = true -> co_LimitPrice o ∈ foldl (sell_levels tick) s l).
Proof.
  apply levels_keep; unfold sell_levels; intros s' o; [intros x Hx; case_match; auto using add_key_sub|].
  intros E. rewrite E. apply add_key_sub. by apply add_key_in.
Qed.

(** Every limit price is a candidate. *)
Lemma limits_are_levels m buys sells o :
  o ∈ buys ++ sells -> flt f0 (co_LimitPrice o) = true -> co_LimitPrice o ∈ candidateSet m buys sells.
Proof.
  intros Ho Hp. unfold candidateSet. cbv zeta.
  assert (Hin : co_LimitPrice o ∈ foldl (sell_levels (tick_of m)) (foldl (buy_levels (tick_of m)) [] buys) sells).
  { apply elem_of_app in Ho as [Ho|Ho]; [apply (proj1 (sell_levels_keep _ _ _)); by apply (proj2 (buy_levels_keep _ _ _))|by apply (proj2 (sell_levels_keep _ _ _))]. }
  case_match; auto using add_key_sub.
Qed.

(** A limit of the four-decimal grid, or none. *)
Definition on_grid (o : CallAuctionOrder) : Prop :=
  feq (co_LimitPrice o) f0 = true
  \/ flt f0 (co_LimitPrice o) = true /\ auctionRound4 (co_LimitPrice o) = co_LimitPrice o.

Lemma fle_trans x y z : fle x y = true -> fle y z = true -> fle x z = true.
Proof.
  intros H1 H2. assert (is_nan x = false /\ is_nan y = false /\ is_nan z = false) as (Nx & Ny & Nz)
    by (destruct x, y, z; done).
  apply fnot_gt_le; [done..|]. apply (fle_trans_nan x y z); auto using fle_not_gt.
Qed.

(** Of the orders a test accepts, one whose limit is extreme. *)
Lemma extreme_order (R : float64 -> float64 -> bool) (P : CallAuctionOrder -> bool) (l : list CallAuctionOrder) :
  (forall x y z, R x y = true -> R y z = true -> R x z = true) ->
  (forall x y, is_nan x = false -> is_nan y = false -> R x y = true \/ R y x = true) ->
  (forall o, P o = true -> is_nan (co_LimitPrice o) = false) ->
  (forall o, o ∈ l -> P o = false)
  \/ exists c, c ∈ l /\ P c = true /\ forall o, o ∈ l -> P o = true -> R (co_LimitPrice o) (co_LimitPrice c) = true.
Proof.
  intros Htr Htot Hnan. induction l as [|x l IH]; [left; set_solver|].
  assert (Hrefl : forall o, P o = true -> R (co_LimitPrice o) (co_LimitPrice o) = true).
  { intros o Ho. destruct (Htot (co_LimitPrice o) (co_LimitPrice o)); auto. }
  destruct (P x) eqn:Px; destruct IH as [Hnone|(c & Hc & Pc & Hmax)].
  - right. exists x. split_and!; [by left|done|]. intros o [->|Ho]%elem_of_cons Po; [by apply Hrefl|].
    rewrite Hnone in Po by done. done.
  - right. destruct (Htot (co_LimitPrice x) (co_LimitPrice c)) as [Hr|Hr]; auto.
    + exists c. split_and!; [by right|done|]. intros o [->|Ho]%elem_of_cons Po; auto.
    + exists x. split_and!; [by left|done|]. intros o [->|Ho]%elem_of_cons Po; [by apply Hrefl|]. eauto.
  - left. intros o [->|Ho]%elem_of_cons; auto.
  - right. exists c. split_and!; [by right|done|]. intros o [->|Ho]%elem_of_cons Po; [congruence|auto].
Qed.

(** No price trades more than one of the limits does. *)
Lemma some_limit_is_best buys sells p :
  whole_book buys -> whole_book sells ->
  (forall c, zmatch buys sells p <= zmatch buys sells c)
  \/ exists o, o ∈ buys ++ sells /\ feq (co_LimitPrice o) f0 = false
       /\ zmatch buys sells p <= zmatch buys sells (co_LimitPrice o).
Proof.
  intros [Wb _] [Ws _]. set (isl o := negb (feq (co_LimitPrice o) f0)).
  assert (Hmono : forall (c : float64), (forall o, o ∈ buys -> buy_at p o = true -> buy_at c o = true) ->
    (forall o, o ∈ sells -> sell_at p o = true -> sell_at c o = true) -> zmatch buys sells p <= zmatch buys sells c).
  { intros c H1 H2. unfold zmatch. pose proof (zcum_mono (buy_at p) (buy_at c) buys Wb H1).
    pose proof (zcum_mono (sell_at p) (sell_at c) sells Ws H2). lia. }
  assert (Hnan : forall x y, fle x y = true -> is_nan x = false /\ is_nan y = false) by (intros x y; by destruct x, y).
  assert (Htot : forall x y, is_nan x = false -> is_nan y = false -> fle x y = true \/ fle y x = true).
  { intros x y Nx Ny. destruct (flt y x) eqn:E; [right; by apply flt_fle|left; by apply fnot_gt_le]. }
  destruct (extreme_order fle (fun o => isl o && fle (co_LimitPrice o) p) sells fle_trans Htot) as [Hs|(c & Hc & Pc & Hmax)].
  { intros o Ho. apply andb_prop in Ho as [_ Ho]. by apply Hnan in Ho as []. }
  - destruct (extreme_order (fun x y => fle y x) (fun o => isl o && fle p (co_LimitPrice o)) buys) as [Hb|(c & Hc & Pc & Hmin)].
    { intros x y z H1 H2. by apply (fle_trans z y x). }
    { intros x y Nx Ny. by apply Htot. }
    { intros o Ho. apply andb_prop in Ho as [_ Ho]. by apply Hnan in Ho as []. }
    + left. intros c. apply Hmono; intros o Ho; unfold buy_at, sell_at.
      * specialize (Hb o Ho). unfold isl in Hb. destruct (feq (co_LimitPrice o) f0); [done|]. cbn in *. congruence.
      * specialize (Hs o Ho). unfold isl in Hs. destruct (feq (co_LimitPrice o) f0); [done|]. cbn in *. congruence.
    + right. exists c. unfold isl in Pc. apply andb_prop in Pc as [Pc1 Pc2]. apply negb_true_iff in Pc1.
      split_and!; [set_solver|done|]. apply Hmono; intros o Ho; unfold buy_at, sell_at.
      * specialize (Hmin o Ho). unfold isl in Hmin. destruct (feq (co_LimitPrice o) f0); [done|]. cbn in *. auto.
      * specialize (Hs o Ho). unfold isl in Hs. destruct (feq (co_LimitPrice o) f0); [done|]. cbn in *. congruence.
  - right. exists c. unfold isl in Pc. apply andb_prop in Pc as [Pc1 Pc2]. apply negb_true_iff in Pc1.
    split_and!; [set_solver|done|]. apply Hmono; intros o Ho; unfold buy_at, sell_at.
    + destruct (feq (co_LimitPrice o) f0); [done|]. cbn. intros Hp. by apply (fle_trans _ p).
    + specialize (Hmax o Ho). unfold isl in Hmax. destruct (feq (co_LimitPrice o) f0); [done|]. cbn in *. auto.
Qed.

(** ** The choice among candidates *)

Definition dist (anchor p : float64) : float64 := Abs (p - anchor)%f64.

(** [x] does not beat [b]: it trades no more and, when it trades as much, is
    no nearer to the anchor and, when as near, no lower. *)
Definition not_better (anchor : float64) (vol : float64 -> Z) (x b : float64) : Prop :=
  vol x <= vol b
  /\ (vol x = vol b -> 0 < vol b ->
      flt (dist anchor x) (dist anchor b) = false
      /\ (flt (dist anchor b) (dist anchor x) = false -> flt x b = false)).

Lemma not_better_refl anchor vol y : not_better anchor vol y y.
Proof. split; [lia|]. intros _ _. by rewrite !flt_irrefl. Qed.

Lemma dist_nan anchor p : is_nan (p - anchor)%f64 = false -> is_nan (dist anchor p) = false /\ is_nan p = false.
Proof.
  intros H. split; [unfold dist; by destruct (p - anchor)%f64|]. by destruct p.
Qed.

Lemma feq_flt x y : is_nan x = false -> is_nan y = false -> feq x y = negb (flt x y) && negb (flt y x).
Proof.
  intros Nx Ny. pose proof (fle_lt_or_eq x y) as H. destruct (flt y x) eqn:E2.
  - rewrite andb_false_r. pose proof (flt_asym y x E2) as E1. rewrite E1 in H. cbn in H. rewrite <- H.
    destruct (fle x y) eqn:E; [|done]. apply fle_not_gt in E. congruence.
  - rewrite (fnot_gt_le x y Nx Ny E2) in H. destruct (flt x y) eqn:E1; cbn in *; [|done].
    unfold flt, feq, SFltb, SFeqb in *. destruct (SFcompare x y) as [[]|]; done.
Qed.

Section Choice.
Context (anchor : float64) (vol : float64 -> Z).
Context (vol_range : forall p, 0 <= vol p < 2 ^ 53).
Let score p := (p, f64_of_Z (vol p)).
Let good p := is_nan (p - anchor)%f64 = false.

(** One comparison: the winner is beaten neither by the loser nor by what the
    former best was not beaten by. *)
Lemma pick_step b s :
  good b -> good s ->
  exists w, pick anchor (score b) (score s) = score w /\ (w = b \/ w = s)
  /\ not_better anchor vol s w /\ not_better anchor vol b w
  /\ (forall x, good x -> not_better anchor vol x b -> not_better anchor vol x w).
Proof.
  intros Gb Gs. apply dist_nan in Gb as [Db Nb], Gs as [Ds Ns]. pose proof (vol_range b). pose proof (vol_range s).
  unfold pick, score. cbn [fst snd]. change f0 with (f64_of_Z 0). rewrite !flt_whole, feq_whole by whole.
  fold (dist anchor s) (dist anchor b). rewrite feq_flt by done.
  set (ds := dist anchor s) in *. set (db := dist anchor b) in *.
  assert (Hrefl : forall y, not_better anchor vol y y) by apply not_better_refl.
  destruct (vol b <? vol s) eqn:E1; bool_to_prop.
  { exists s. split_and!; [done|by right|done| |]; [split; lia|]. intros x _ [Hx _]. split; lia. }
  destruct ((vol s =? vol b) && (0 <? vol s)) eqn:E2.
  2:{ exists b. split_and!; [done|by left| |done|done]. split; [lia|]. intros E E'. rewrite E in E2.
      rewrite Z.eqb_refl in E2. cbn in E2. bool_to_prop. lia. }
  apply andb_prop in E2 as [E2 E3]. bool_to_prop.
  destruct (flt ds db) eqn:E4.
  { exists s. split_and!; [done|by right|done| |].
    - split; [lia|]. intros _ _. fold ds db. split; [by apply flt_asym|congruence].
    - intros x [Dx Nx]%dist_nan [Hx1 Hx2]. split; [lia|]. intros E E'. destruct (Hx2 ltac:(lia) ltac:(lia)) as [A _].
      fold ds db in A |- *. pose proof (flt_le_trans ds db _ Dx E4 A). split; [by apply flt_asym|congruence]. }
  cbn [negb andb]. destruct (flt db ds) eqn:E5; cbn [negb andb].
  { exists b. split_and!; [done|by left| |done|done]. split; [lia|]. intros _ _. fold ds db. split; [done|congruence]. }
  destruct (flt s b) eqn:E6.
  - exists s. split_and!; [done|by right|done| |].
    + split; [lia|]. intros _ _. fold ds db. split; [done|]. intros _. by apply flt_asym.
    + intros x [Dx Nx]%dist_nan [Hx1 Hx2]. split; [lia|]. intros E E'. destruct (Hx2 ltac:(lia) ltac:(lia)) as [A B].
      fold ds db in A, B |- *. split; [by apply (fle_trans_nan ds db)|]. intros C.
      apply flt_asym, (flt_le_trans s b); [done|done|]. apply B. by apply (fle_trans_nan _ ds db).
  - exists b. split_and!; [done|by left| |done|done]. split; [lia|]. intros _ _. fold ds db. done.
Qed.

Lemma pick_best rest : forall seen b,
  Forall good rest -> Forall good seen -> b ∈ seen -> Forall (fun x => not_better anchor vol x b) seen ->
  exists w, foldl (pick anchor) (score b) (map score rest) = score w /\ w ∈ seen ++ rest
  /\ Forall (fun x => not_better anchor vol x w) (seen ++ rest).
Proof.
  induction rest as [|s rest IH]; intros seen b Hr Hg Hb Hn; cbn [foldl map].
  { exists b. by rewrite app_nil_r. }
  apply Forall_cons in Hr as [Gs Hr]. rewrite Forall_forall in Hg, Hn.
  destruct (pick_step b s (Hg b Hb) Gs) as (w & -> & Hw & N1 & N2 & Hkeep).
  replace (seen ++ s :: rest) with ((seen ++ [s]) ++ rest) by (by rewrite <- app_assoc).
  apply IH; [done| |destruct Hw as [->| ->]; set_solver|].
  - apply Forall_app. split; [by rewrite Forall_forall|by constructor].
  - apply Forall_app. split; [|by constructor]. rewrite Forall_forall. auto.
Qed.
End Choice.

(** A price that beats all candidates beats all prices. *)
Lemma best_candidate_is_best m buys sells w :
  whole_book buys -> whole_book sells -> Forall on_grid (buys ++ sells) ->
  (forall c, c ∈ map auctionRound4 (candidateSet m buys sells) -> zmatch buys sells c <= zmatch buys sells w) ->
  forall p, zmatch buys sells p <= zmatch buys sells w.
Proof.
  intros Wb Ws Hgrid Hw p. destruct (some_limit_is_best buys sells p Wb Ws) as [H|(o & Ho & Hl & Hle)]; [apply H|].
  rewrite Forall_forall in Hgrid. destruct (Hgrid o Ho) as [?|[Hp Hr]]; [congruence|].
  etrans; [exact Hle|]. apply Hw. rewrite <- Hr. by apply list_elem_of_fmap_2, limits_are_levels.
Qed.

(** The auction has a price to try unless every order is a market order and
    there is no anchor. *)
Lemma market_levels tick side l s :
  side = buy_levels tick \/ side = sell_levels tick -> Forall (fun o => is_market o = true) l -> foldl side s l = s.
Proof.
  intros Hside. revert s. induction l as [|o l IH]; intros s Hl; [done|]. apply Forall_cons in Hl as [Ho Hl].
  cbn [foldl]. rewrite <- (IH s Hl) at 2. f_equal. unfold is_market in Ho.
  assert (Hn : flt f0 (co_LimitPrice o) = false)
    by (by destruct (co_LimitPrice o) as [[]|[]| |[]]).
  destruct Hside as [->| ->]; unfold buy_levels, sell_levels; by rewrite Hn.
Qed.

Lemma candidateSet_empty m buys sells :
  Forall on_grid (buys ++ sells) ->
  candidateSet m buys sells = []
  <-> Forall (fun o => is_market o = true) (buys ++ sells) /\ flt f0 (AnchorPrice m) = false.
Proof.
  intros Hgrid. split.
  - intros E. assert (Hanchor : flt f0 (AnchorPrice m) = false).
    { unfold candidateSet in E. destruct (flt f0 (AnchorPrice m)); [|done]. unfold add_key in E.
      destruct (existsb _ _) eqn:Ex; [by rewrite E in Ex|]. by destruct (foldl _ _ sells). }
    split; [|done]. apply Forall_forall. intros o Ho. rewrite Forall_forall in Hgrid.
    destruct (Hgrid o Ho) as [?|[Hp _]]; [done|]. exfalso.
    apply (not_elem_of_nil (co_LimitPrice o)). rewrite <- E. by apply limits_are_levels.
  - intros [Hm Ha]. apply Forall_app in Hm as [Hb Hs]. unfold candidateSet. rewrite Ha.
    rewrite (market_levels (tick_of m)); [|by right|done]. by apply (market_levels (tick_of m)); [left|].
Qed.

(** C22. The max-volume rule. Over orders of whole shares whose limits lie on
    the four-decimal grid, and candidate prices with a distance to the anchor
    that is a number, the auction answers that there are no price levels
    exactly when both sides have orders, all of them market orders, and there
    is no anchor to price them. Otherwise no price at all trades more shares
    than the auction matches: when it matches nothing, nothing crosses. The
    clearing price is a candidate that trades exactly the matched volume and,
    among the candidates that trade as much, none is nearer to the anchor,
    nor as near and lower. *)
Theorem clearing_maximises_volume `{!SliceSort} visit_prices m buys sells :
  (forall l, visit_prices l ≡ₚ l) ->
  whole_book buys -> whole_book sells -> Forall on_grid (buys ++ sells) ->
  let cs := candidates visit_prices m buys sells in
  Forall (fun c => is_nan (c - AnchorPrice m)%f64 = false) cs ->
  let r := Match visit_prices m buys sells in
  let p := ClearingPrice r in
  (NoMatch r = Some no_price_levels
     <-> buys <> [] /\ sells <> [] /\ Forall (fun o => is_market o = true) (buys ++ sells)
         /\ flt f0 (AnchorPrice m) = false)
  /\ (NoMatch r <> Some no_price_levels -> forall p', fle (matchable buys sells p') (MatchedVolume r) = true)
  /\ (NoMatch r = None ->
      p ∈ cs /\ MatchedVolume r = matchable buys sells p
      /\ forall c, c ∈ cs -> feq (matchable buys sells c) (MatchedVolume r) = true ->
           flt (dist (AnchorPrice m) c) (dist (AnchorPrice m) p) = false
           /\ (flt (dist (AnchorPrice m) p) (dist (AnchorPrice m) c) = false -> flt c p = false)).
Proof.
  intros Hvis Wb Ws Hgrid cs Hgood. cbv zeta. subst cs.
  assert (Hvol : forall p, 0 <= zmatch buys sells p < 2 ^ 53) by (intros p; by apply matchable_whole).
  assert (Hm : forall p, matchable buys sells p = f64_of_Z (zmatch buys sells p)) by (intros p; by apply matchable_whole).
  assert (Hcs : forall p, p ∈ candidates visit_prices m buys sells <-> p ∈ map auctionRound4 (candidateSet m buys sells))
    by (by apply candidates_elem).
  pose proof (candidateSet_empty m buys sells Hgrid) as Hempty.
  unfold Match. destruct ((length buys =? 0)%nat || (length sells =? 0)%nat) eqn:El.
  { assert (Hside : buys = [] \/ sells = []).
    { apply orb_true_iff in El as [El|El]; apply Nat.eqb_eq, length_zero_iff_nil in El; tauto. }
    cbn [NoMatch MatchedVolume unmatched]. split; [split; [done|naive_solver]|]. split; [|done].
    intros _ p'. rewrite Hm. change f0 with (f64_of_Z 0). pose proof (Hvol p').
    rewrite fle_whole by whole. apply Z.leb_le. unfold zmatch. destruct Hside as [->| ->]; cbn [zcum]; lia. }
  assert (Hb : buys <> []) by (by intros ->). assert (Hs : sells <> []) by (intros ->; by rewrite orb_true_r in El).
  unfold scored. rewrite (map_ext _ (fun p => (p, f64_of_Z (zmatch buys sells p)))) by (intros p; by rewrite Hm).
  destruct (candidates visit_prices m buys sells) as [|first rest] eqn:Ec.
  { cbn [map NoMatch unmatched]. split; [|done]. split; [|done]. intros _. split; [done|]. split; [done|]. apply Hempty.
    destruct (candidateSet m buys sells) as [|c ?]; [done|]. exfalso. apply (not_elem_of_nil (auctionRound4 c)). rewrite Hcs. by left. }
  assert (Hlevels : ~ (buys <> [] /\ sells <> [] /\ Forall (fun o => is_market o = true) (buys ++ sells)
                       /\ flt f0 (AnchorPrice m) = false)).
  { intros (_ & _ & H3 & H4). rewrite (proj2 Hempty (conj H3 H4)) in Hcs.
    apply (not_elem_of_nil first). apply Hcs. by left. }
  apply Forall_cons in Hgood as [G1 Hg]. cbn [map].
  destruct (pick_best (AnchorPrice m) (zmatch buys sells) Hvol rest [first] first Hg) as (w & Ew & Hw & Hbest);
    [by constructor|by left|by constructor; [apply not_better_refl|]|].
  cbn [app] in *. rewrite Forall_forall in Hbest. cbv zeta in Ew. rewrite Ew. cbn [fst snd].
  assert (Hall : forall p', zmatch buys sells p' <= zmatch buys sells w).
  { apply (best_candidate_is_best m); [done..|]. intros c Hc. apply Hbest. by apply Hcs. }
  pose proof (Hvol w). change f0 with (f64_of_Z 0). rewrite fle_whole by whole. case_match; bool_to_prop.
  - cbn [MatchedVolume NoMatch unmatched]. split; [by split; [|intros Hl; by apply Hlevels in Hl]|].
    split; [|done]. intros _ p'. pose proof (Hall p'). pose proof (Hvol p').
    rewrite Hm. change f0 with (f64_of_Z 0). rewrite fle_whole by whole. lia.
  - cbn [MatchedVolume ClearingPrice NoMatch]. split; [by split; [|intros Hl; by apply Hlevels in Hl]|]. split.
    + intros _ p'. pose proof (Hall p'). pose proof (Hvol p'). rewrite Hm, fle_whole by whole. lia.
    + intros _. split_and!; [done|by rewrite Hm|]. intros c Hc. pose proof (Hvol c). rewrite Hm, feq_whole by whole.
      intros Heq. bool_to_prop. apply (Hbest c Hc); lia.
Qed.

(** ** Concrete books *)

Module AuctionSample.
Definition order (id : string) (q limit k : Z) : CallAuctionOrder := MkCall (lit id) (f64_of_Z q) (flit limit k).
Definition buys : list CallAuctionOrder := [order "b1" 100 1001 2; order "b2" 200 1000 2].
Definition sells : list CallAuctionOrder := [order "s1" 150 999 2; order "s2" 100 1002 2].
Definition matcher : CallAuctionMatcher := WithAnchor (flit 1000 2) NewCallAuctionMatcher.
Definition run : list CallAuctionOrder -> list CallAuctionOrder -> ClearingResult :=
  @Match merge_slice (fun l => l) matcher.
End AuctionSample.
Import AuctionSample.

Lemma short_side_fills_in_full_witness :
  ClearingPrice (run buys sells) = flit 1000 2 /\ Fills (run buys sells) !! lit "s1" = Some (f64_of_Z 150).
Proof.
  split; [vm_compute; reflexivity|].
  refine (proj2 (proj2 (@short_side_fills_in_full merge_slice (fun l => l) (fun l => reflexivity l) matcher buys sells _ _ _ _)) _ (order "s1" 150 999 2) _ _).
  - split; [|vm_compute; reflexivity]. repeat constructor; vm_compute; reflexivity.
  - split; [|vm_compute; reflexivity]. repeat constructor; vm_compute; reflexivity.
  - apply (bool_decide_unpack _). vm_compute. exact I.
  - vm_compute. reflexivity.
  - vm_compute. reflexivity.
  - by left.
  - vm_compute. reflexivity.
Defined.

Lemma clearing_maximises_volume_witness :
  MatchedVolume (run buys sells) = f64_of_Z 150
  /\ fle (matchable buys sells (flit 1001 2)) (MatchedVolume (run buys sells)) = true.
Proof.
  split; [vm_compute; reflexivity|].
  refine (proj1 (proj2 (@clearing_maximises_volume merge_slice (fun l => l) matcher buys sells _ _ _ _ _)) _ (flit 1001 2)).
  - intros l. reflexivity.
  - split; [|vm_compute; reflexivity]. repeat constructor; vm_compute; reflexivity.
  - split; [|vm_compute; reflexivity]. repeat constructor; vm_compute; reflexivity.
  - repeat constructor; right; split; vm_compute; reflexivity.
  - apply Forall_forall. intros c Hc. vm_compute in Hc. repeat (apply elem_of_cons in Hc as [->|Hc]; [vm_compute; reflexivity|]).
    by apply not_elem_of_nil in Hc.
  - intros E. vm_compute in E. discriminate E.
Defined.

(** Limits off the grid: two orders at 10.00004 cross and do not trade, since
    every candidate is rounded to four decimals. *)
Example crossing_orders_left_unmatched :
  let b := order "b" 100 1000004 5 in let s := order "s" 100 1000004 5 in
  matchable [b] [s] (co_LimitPrice b) = f64_of_Z 100 /\ NoMatch (run [b] [s]) = Some no_overlap.
Proof. split; vm_compute; reflexivity. Qed.

(** Two equal limit orders beside a market order: the ratio is that of the
    whole demand, so the first takes half of its shares and nothing is left
    for the second. *)
Example equal_orders_fill_unequally :
  let r := run [order "m" 100 0 0; order "b1" 100 1001 2; order "b2" 100 1001 2] [order "s" 150 1000 2] in
  Fills r !! lit "b1" = Some (f64_of_Z 50) /\ Fills r !! lit "b2" = Some f0.
Proof. split; vm_compute; reflexivity. Qed.

(** Market orders on both sides and no anchor: they cross at every price, and
    the auction has none to clear at. *)
Example market_orders_have_no_price :
  let b := order "b" 100 0 0 in let s := order "s" 100 0 0 in
  matchable [b] [s] (flit 1000 2) = f64_of_Z 100
  /\ NoMatch (@Match merge_slice (fun l => l) NewCallAuctionMatcher [b] [s]) = Some no_price_levels.
Proof. split; vm_compute; reflexivity. Qed.
