(* ===== verification/PaperSession.v ===== *)
(** * PaperSession: replaying stored bars through a trader

    src/pkg/live/bar_replay_feed.go, paper_session.go and paper_exec_algo.go,
    and the bridge of src/pkg/backtest/execution/live_bridge.go: a replay loads
    the bars of a period once, hands them to the clock in the order of dates,
    and for each trading day asks the strategy for signals, sends them to the
    trader, whole or in slices, and rolls the settlement.

    The trader, the strategy and the market-data provider are parameters: the
    trader is a class with the paper trader (MockTrader) as an instance, the
    strategy is one of the two shapes the source tells apart, and the provider
    is what it answers. The context is never cancelled; logging is left out. *)

From stdpp Require Import base list strings gmap sorting.
From Stdlib Require Import ZArith Lia Ascii.
From S2P Require Import Prelude GoMap GoFloat Domain GoSlice EventBus ExecCost MockTrader.
From S2P Require Import ExecSchedule ExecDispatch BacktestEngine.

Open Scope Z_scope.

(** ** Bars and quotes (bar_replay_feed.go) *)

(** [marketdata.Quote]. *)
Record FeedQuote := MkFeedQuote {
  q_Symbol : bytes; q_Timestamp : Time; q_Open : float64; q_High : float64; q_Low : float64;
  q_Close : float64; q_Volume : Z; q_Bid : float64; q_Ask : float64
}.

(** A bar is its own quote: no ticks are made up, and the spread is zero. *)
Definition barToQuote (bar : OHLCV.t) : FeedQuote :=
  MkFeedQuote (OHLCV.Symbol bar) (OHLCV.Date bar) (OHLCV.Open bar) (OHLCV.High bar) (OHLCV.Low bar)
    (OHLCV.Close bar) (f64_to_int64 (OHLCV.Volume bar)) (OHLCV.Close bar) (OHLCV.Close bar).

Definition quoteToOHLCV (q : FeedQuote) : OHLCV.t :=
  OHLCV.Mk (q_Symbol q) (q_Timestamp q) (q_Open q) (q_High q) (q_Low q) (q_Close q) (f64_of_Z (q_Volume q)).

(** [quoteToBar] of paper_exec_algo.go is the same conversion. *)
Definition quoteToBar (q : FeedQuote) : OHLCV.t :=
  OHLCV.Mk (q_Symbol q) (q_Timestamp q) (q_Open q) (q_High q) (q_Low q) (q_Close q) (f64_of_Z (q_Volume q)).

(** What the paper trader reads of a quote. *)
Definition trader_quote (q : FeedQuote) : Quote.t :=
  Quote.Mk (q_Open q) (q_High q) (q_Low q) (q_Close q) (q_Volume q).

Inductive replay_error :=
| NoSymbolsToReplay
| BulkLoadFailed
| ClockAdvanceFailed (symbol : bytes) (date : Time) (e : Clock.clock_error).

Section Feed.
Context {C : Type} `{!Clock.Clock C}.

Record BarReplayFeed := MkFeed {
  bf_clk : C; subscribed : gset bytes; snapshots : gmap bytes FeedQuote
}.

Definition NewBarReplayFeed (clk : C) : BarReplayFeed := MkFeed clk ∅ ∅.

Definition FeedSubscribe (symbols : list bytes) (f : BarReplayFeed) : BarReplayFeed :=
  MkFeed (bf_clk f) (subscribed f ∪ list_to_set symbols) (snapshots f).
Definition FeedUnsubscribe (symbols : list bytes) (f : BarReplayFeed) : BarReplayFeed :=
  MkFeed (bf_clk f) (subscribed f ∖ list_to_set symbols) (snapshots f).
Definition FeedGetQuote (symbol : bytes) (f : BarReplayFeed) : option FeedQuote := snapshots f !! symbol.

(** The bars of the requested symbols, with the symbol filled in. *)
Definition with_symbol (sym : bytes) (bar : OHLCV.t) : OHLCV.t :=
  if bool_decide (OHLCV.Symbol bar = [])
  then OHLCV.Mk sym (OHLCV.Date bar) (OHLCV.Open bar) (OHLCV.High bar) (OHLCV.Low bar) (OHLCV.Close bar) (OHLCV.Volume bar)
  else bar.

Definition flatten_bars (symbols : list bytes) (all : gmap bytes (list OHLCV.t)) : list OHLCV.t :=
  symbols ≫= fun sym => map (with_symbol sym) (default [] (all !! sym)).

Definition bar_before (a b : OHLCV.t) : bool :=
  if negb (OHLCV.Date a =? OHLCV.Date b) then Before (OHLCV.Date a) (OHLCV.Date b)
  else bytes_ltb (OHLCV.Symbol a) (OHLCV.Symbol b).

(** Each bar moves the clock, becomes the snapshot and goes to the callback,
    which here never fails. *)
Fixpoint replay_bars {S : Type} (cb : FeedQuote -> S -> S) (items : list OHLCV.t) (f : BarReplayFeed) (s : S)
    : res replay_error S * BarReplayFeed :=
  match items with
  | [] => (Ok s, f)
  | bar :: rest =>
      match Clock.Advance (OHLCV.Date bar) (bf_clk f) with
      | (Err e, clk) =>
          (Err (ClockAdvanceFailed (OHLCV.Symbol bar) (OHLCV.Date bar) e), MkFeed clk (subscribed f) (snapshots f))
      | (Ok _, clk) =>
          let q := barToQuote bar in
          replay_bars cb rest (MkFeed clk (subscribed f) (<[q_Symbol q := q]> (snapshots f))) (cb q s)
      end
  end.

Definition FeedReplay {S : Type} (bulk : option (gmap bytes (list OHLCV.t))) (symbols : list bytes)
    (cb : FeedQuote -> S -> S) (f : BarReplayFeed) (s : S) : res replay_error S * BarReplayFeed :=
  match symbols with
  | [] => (Err NoSymbolsToReplay, f)
  | _ =>
      match bulk with
      | None => (Err BulkLoadFailed, f)
      | Some all => replay_bars cb (SliceStable bar_before (flatten_bars symbols all)) f s
      end
  end.

End Feed.
Arguments BarReplayFeed : clear implicits.

(** ** The trader and the strategy *)

(** What a session calls of its trader. A trader that does not price from the
    session's bars, or has no settlement to roll, ignores the last two. *)
Class SessionTrader (T E : Type) := {
  TraderSubmit : bytes -> Direction -> OrderType -> float64 -> float64 -> T -> res E (option OrderResult.t) * T;
  TraderGetPositions : T -> res E (list PositionInfo.t);
  TraderGetAccount : T -> res E (option AccountInfo.t);
  TraderSetBars : (bytes -> option Quote.t) -> T -> T;
  TraderAdvanceDay : T -> T
}.

(** A strategy that takes bars one by one, or one that takes the window. *)
Inductive Strategy (X SE : Type) :=
| Streaming (OnBar : OHLCV.t -> X -> res SE unit * X) (Signals : X -> list StrategySignal * X)
| Batch (GenerateSignals : gmap bytes (list OHLCV.t) -> Portfolio.t -> X -> res SE (list StrategySignal) * X).
Arguments Streaming {_ _}.
Arguments Batch {_ _}.

(** ** Signals and quantities (paper_session.go) *)

Definition signalQuantity (strength : float64) : float64 :=
  let hundred := f64_of_Z 100 in
  if (strength >? f0)%f64 then
    let scaled := if (strength * f64_of_Z 10 >? f1)%f64 then (strength * f64_of_Z 10)%f64 else f1 in
    let quantity := (hundred * scaled)%f64 in
    if (quantity >? f64_of_Z 10000)%f64 then f64_of_Z 10000 else quantity
  else hundred.

Definition to_domain_signal (defaultDate : Time) (sg : StrategySignal) : list DomainSignal :=
  if bool_decide (ss_Action sg = lit "hold") then []
  else
    let mk dir :=
      let sigDate := match ss_Date sg with
                     | Some t => if negb (IsZero t) then t else defaultDate
                     | None => defaultDate
                     end in
      let limitPrice := if (ss_LimitPrice sg =? f0)%f64 then ss_Price sg else ss_LimitPrice sg in
      let orderType := if bool_decide (ss_OrderType sg = OrderTypeOther []) then OrderTypeMarket else ss_OrderType sg in
      [MkDomainSignal (ss_Symbol sg) sigDate dir (ss_Strength sg) (ss_Strength sg) limitPrice orderType
         (ss_ExecAlgo sg) (ss_ExecSlices sg) (ss_ExecProfile sg)] in
    if bool_decide (ss_Direction sg = DirectionOther []) || bool_decide (ss_Direction sg = DirectionHold) then
      if bool_decide (ss_Action sg = lit "buy") then mk DirectionLong
      else if bool_decide (ss_Action sg = lit "sell") then mk DirectionClose
      else []
    else mk (ss_Direction sg).

Definition toDomainSignals (signals : list StrategySignal) (defaultDate : Time) : list DomainSignal :=
  signals ≫= to_domain_signal defaultDate.

(** ** Day keys *)

Definition dayKey (t : Time) : bytes := format_date t.

Definition digit_value (c : ascii) : option Z :=
  let n := byteZ c - 48 in if (0 <=? n) && (n <=? 9) then Some n else None.

Fixpoint digits_value (acc : Z) (l : bytes) : option Z :=
  match l with [] => Some acc | c :: l' => d ← digit_value c; digits_value (10 * acc + d) l' end.

(** [time.Parse("2006-01-02", key)]; a string that is no date gives the zero
    time. *)
Definition parseDayKey (key : bytes) : Time :=
  match key with
  | [y1; y2; y3; y4; s1; m1; m2; s2; d1; d2] =>
      match digits_value 0 [y1; y2; y3; y4], digits_value 0 [m1; m2], digits_value 0 [d1; d2] with
      | Some y, Some m, Some d =>
          let date := (y, m, d) in
          if bool_decide ([s1; s2] = lit "--") && (1 <=? m) && (m <=? 12) && bool_decide (date_of (day_of date) = date)
          then day_of date * day_ns else 0
      | _, _, _ => 0
      end
  | _ => 0
  end.

Definition dayKeysFromCalendar (days : list Time) : list bytes :=
  merge_sort bytes_le (foldl (fun keys d => if bool_decide (dayKey d ∈ keys) then keys else keys ++ [dayKey d]) [] days).

Definition quotesFromBars (bars : gmap bytes OHLCV.t) : gmap bytes FeedQuote := barToQuote <$> bars.

(** ** The session *)

Record PaperFill := MkPaperFill {
  pf_Date : Time; pf_Symbol : bytes; pf_Side : Direction; pf_Qty : float64; pf_Price : float64; pf_Fee : float64
}.

Inductive session_error (SE : Type) :=
| NoSymbols
| AlreadyRun
| CalendarFailed
| ReplayFailed (e : replay_error)
| SignalsFailed (key : bytes) (e : SE)
| ParentRejected (key symbol algo : bytes) (e : attach_error).
Arguments NoSymbols {_}. Arguments AlreadyRun {_}. Arguments CalendarFailed {_}.
Arguments ReplayFailed {_}. Arguments SignalsFailed {_}. Arguments ParentRejected {_}.

Section Session.
Context {T E X SE : Type} `{!SessionTrader T E}.
Context (strat : Strategy X SE).

(** What the loop of days carries: the trader, the strategy, the bars of the
    day, the parents of algorithmic orders, the window of past bars, the fills
    and what the collector was handed. *)
Record session_state := MkRunState {
  rs_trader : T; rs_strat : X; currentBars : gmap bytes FeedQuote; rs_algo : Dispatcher;
  rs_window : gmap bytes (list OHLCV.t); rs_fills : list PaperFill; rs_collected : list (Time * list DomainSignal)
}.

Definition set_trader (t : T) (s : session_state) : session_state :=
  MkRunState t (rs_strat s) (currentBars s) (rs_algo s) (rs_window s) (rs_fills s) (rs_collected s).
Definition set_strat (x : X) (s : session_state) : session_state :=
  MkRunState (rs_trader s) x (currentBars s) (rs_algo s) (rs_window s) (rs_fills s) (rs_collected s).
Definition set_session_algo (d : Dispatcher) (s : session_state) : session_state :=
  MkRunState (rs_trader s) (rs_strat s) (currentBars s) d (rs_window s) (rs_fills s) (rs_collected s).
Definition add_fill (f : option PaperFill) (s : session_state) : session_state :=
  MkRunState (rs_trader s) (rs_strat s) (currentBars s) (rs_algo s) (rs_window s)
    (rs_fills s ++ option_list f) (rs_collected s).
Definition collect (d : Time) (signals : list DomainSignal) (s : session_state) : session_state :=
  MkRunState (rs_trader s) (rs_strat s) (currentBars s) (rs_algo s) (rs_window s) (rs_fills s)
    (rs_collected s ++ [(d, signals)]).

Definition portfolioSnapshot (t : T) : Portfolio.t :=
  let '(cash, total) := match TraderGetAccount t with
                        | Ok (Some a) => (AccountInfo.Cash a, AccountInfo.TotalAssets a)
                        | _ => (f0, f0)
                        end in
  let held := match TraderGetPositions t with
              | Ok ps => foldl (fun m p =>
                  <[PositionInfo.Symbol p :=
                      Position.Mk (PositionInfo.Symbol p) (PositionInfo.Quantity p) (PositionInfo.AvgCost p)
                        (PositionInfo.CurrentPrice p) (PositionInfo.MarketValue p) (PositionInfo.UnrealizedPnL p)
                        f0 f0 0 0 f0 f0]> m) ∅ ps
              | Err _ => ∅
              end in
  Portfolio.Mk cash held total f0 0.

(** Bars one by one, up to the first the strategy refuses. *)
Fixpoint feed_bars (OnBar : OHLCV.t -> X -> res SE unit * X) (bars : list OHLCV.t) (x : X) : res SE unit * X :=
  match bars with
  | [] => (Ok tt, x)
  | b :: rest => match OnBar b x with (Err e, x) => (Err e, x) | (Ok _, x) => feed_bars OnBar rest x end
  end.

Definition generateSignals (todays : gmap bytes OHLCV.t) (s : session_state) : res SE (list StrategySignal) * session_state :=
  match strat with
  | Streaming OnBar Signals =>
      match feed_bars OnBar (omap (fun sym => todays !! sym) (sortedKeys todays)) (rs_strat s) with
      | (Err e, x) => (Err e, set_strat x s)
      | (Ok _, x) => let '(out, x) := Signals x in (Ok out, set_strat x s)
      end
  | Batch GenerateSignals =>
      let '(out, x) := GenerateSignals (rs_window s) (portfolioSnapshot (rs_trader s)) (rs_strat s) in
      (out, set_strat x s)
  end.

(** The price of an order: its limit, or the close when it has none. *)
Definition order_price (symbol : bytes) (orderType : OrderType) (limit : float64) (s : session_state) : float64 :=
  if bool_decide (orderType = OrderTypeLimit) then
    if (limit <=? f0)%f64 then match currentBars s !! symbol with Some q => q_Close q | None => limit end
    else limit
  else f0.

Definition paper_fill_of (d : Time) (symbol : bytes) (r : OrderResult.t) : PaperFill :=
  let fillPrice := if (OrderResult.FillPrice r <=? f0)%f64 then OrderResult.Price r else OrderResult.FillPrice r in
  MkPaperFill d symbol (OrderResult.Direction r) (OrderResult.FilledQty r) fillPrice (OrderResult.Fee r).

Definition executeSignal (d : Time) (sig : DomainSignal) (s : session_state) : res E (option PaperFill) * session_state :=
  let orderType := if bool_decide (ds_OrderType sig = OrderTypeOther []) then OrderTypeMarket else ds_OrderType sig in
  let price := order_price (ds_Symbol sig) orderType (ds_LimitPrice sig) s in
  match TraderSubmit (ds_Symbol sig) (ds_Direction sig) orderType (signalQuantity (ds_Strength sig)) price (rs_trader s) with
  | (Err e, t) => (Err e, set_trader t s)
  | (Ok None, t) => (Ok None, set_trader t s)
  | (Ok (Some r), t) => (Ok (Some (paper_fill_of d (ds_Symbol sig) r)), set_trader t s)
  end.

(** ** Algorithmic orders (paper_exec_algo.go) *)

Definition session_parent_id (date : Time) (symbol : bytes) (dir : Direction) : bytes :=
  lit "EA-" ++ format_day date ++ lit "-" ++ symbol ++ lit "-" ++ direction_string dir.

Definition attach_spec (sig : DomainSignal) (d : Time) : AttachSpec :=
  let '(n, end_) := ResolveExecWindow d (ds_ExecSlices sig) (ds_ExecProfile sig) in
  let orderType := if bool_decide (ds_OrderType sig = OrderTypeOther []) then OrderTypeMarket else ds_OrderType sig in
  MkAttachSpec (session_parent_id d (ds_Symbol sig) (ds_Direction sig)) [] (ds_Symbol sig) (ds_Direction sig)
    (signalQuantity (ds_Strength sig)) (ds_LimitPrice sig) (ds_ExecAlgo sig) n (ds_ExecProfile sig) orderType d end_.

Definition attachExecAlgo (sig : DomainSignal) (d : Time) (s : session_state) : res attach_error unit * session_state :=
  match Attach (attach_spec sig d) (rs_algo s) with
  | (Err e, dp) => (Err e, set_session_algo dp s)
  | (Ok _, dp) => (Ok tt, set_session_algo dp s)
  end.

Definition paperReconcileTolerance : float64 := flit 1 6.

Definition cancelParentsForSymbol (symbol : bytes) (s : session_state) : session_state :=
  if (Len (rs_algo s) =? 0)%nat then s
  else set_session_algo (snd (CancelSymbol symbol (lit "external_position_change") (rs_algo s))) s.

Definition reconcile_parent (held : gmap bytes float64) (s : session_state) (p : ParentProgress) : session_state :=
  let h := default f0 (held !! pp_Symbol p) in
  match pp_Side p with
  | DirectionLong =>
      if (h <? pp_Filled p - paperReconcileTolerance)%f64 then cancelParentsForSymbol (pp_Symbol p) s else s
  | DirectionShort =>
      if (h >? fneg (pp_Filled p) + paperReconcileTolerance)%f64 then cancelParentsForSymbol (pp_Symbol p) s else s
  | _ => s
  end.

Definition reconcileExternalPositionChanges (s : session_state) : session_state :=
  if (Len (rs_algo s) =? 0)%nat then s
  else match TraderGetPositions (rs_trader s) with
       | Err _ => s
       | Ok positions =>
           let held := foldl (fun m p => <[PositionInfo.Symbol p := PositionInfo.Quantity p]> m) ∅ positions in
           foldl (reconcile_parent held) s (ActiveParents (rs_algo s))
       end.

Definition submitExecAlgoChild (d : Time) (s : session_state) (dc : DueChild) : session_state :=
  let c := dc_child dc in
  let price := order_price (ChildOrder.Symbol c) (dc_OrderType dc) (ChildOrder.LimitPrice c) s in
  match TraderSubmit (ChildOrder.Symbol c) (ChildOrder.Side c) (dc_OrderType dc) (ChildOrder.Qty c) price (rs_trader s) with
  | (Err _, t) => set_trader t s
  | (Ok None, t) => set_trader t s
  | (Ok (Some r), t) =>
      let s := set_trader t s in
      match DispatchFill (Fill.Mk (ChildOrder.OrderID c) (ChildOrder.Symbol c) (ChildOrder.Side c)
                            (OrderResult.FilledQty r) (OrderResult.FillPrice r) d) (rs_algo s) with
      | (Err _, dp) => set_session_algo dp s
      | (Ok _, dp) => add_fill (Some (paper_fill_of d (ChildOrder.Symbol c) r)) (set_session_algo dp s)
      end
  end.

Definition dispatch_symbol (d : Time) (s : session_state) (sym : bytes) : session_state :=
  match currentBars s !! sym with
  | None => s
  | Some q =>
      let '(due, _, dp) := DispatchBar (quoteToBar q) (rs_algo s) in
      foldl (submitExecAlgoChild d) (set_session_algo dp s) due
  end.

Definition dispatchExecAlgoChildren (d : Time) (s : session_state) : session_state :=
  if (Len (rs_algo s) =? 0)%nat then s
  else
    let s := reconcileExternalPositionChanges s in
    if (Len (rs_algo s) =? 0)%nat then s
    else foldl (dispatch_symbol d) s (Symbols (rs_algo s)).

(** The unfinished parents are reported, their slices are never sent. *)
Definition finalizeSession (s : session_state) : list ParentProgress := Unfinished (rs_algo s).

(** ** One day *)

(** The signals of a day, up to the first algorithmic order that cannot be
    attached; a refused order is skipped. *)
Fixpoint match_signals (key : bytes) (d : Time) (signals : list DomainSignal) (s : session_state)
    : res (session_error SE) unit * session_state :=
  match signals with
  | [] => (Ok tt, s)
  | sig :: rest =>
      if negb (bool_decide (ds_ExecAlgo sig = [])) then
        match attachExecAlgo sig d s with
        | (Err e, s) => (Err (ParentRejected key (ds_Symbol sig) (ds_ExecAlgo sig) e), s)
        | (Ok _, s) => match_signals key d rest s
        end
      else match executeSignal d sig s with
           | (Err _, s) => match_signals key d rest s
           | (Ok f, s) => match_signals key d rest (add_fill f s)
           end
  end.

(** The window grows by the day's bars, and the trader prices from them. *)
Definition open_day (todays : gmap bytes OHLCV.t) (s : session_state) : session_state :=
  let window := foldl (fun w sym => match todays !! sym with
                                    | Some b => <[sym := default [] (w !! sym) ++ [b]]> w
                                    | None => w
                                    end) (rs_window s) (sortedKeys todays) in
  let bars := quotesFromBars todays in
  MkRunState (TraderSetBars (fun sym => trader_quote <$> bars !! sym) (rs_trader s)) (rs_strat s) bars (rs_algo s)
    window (rs_fills s) (rs_collected s).

(** The closure the trader is given before the first day. *)
Definition wire_bars (s : session_state) : session_state :=
  set_trader (TraderSetBars (fun sym => trader_quote <$> currentBars s !! sym) (rs_trader s)) s.

Definition session_day (barsByDay : gmap bytes (gmap bytes OHLCV.t)) (key : bytes) (s : session_state)
    : res (session_error SE) unit * session_state :=
  let d := parseDayKey key in
  let todays := default ∅ (barsByDay !! key) in
  let s := open_day todays s in
  match generateSignals todays s with
  | (Err e, s) => (Err (SignalsFailed key e), s)
  | (Ok stratSignals, s) =>
      let domainSignals := toDomainSignals stratSignals d in
      match match_signals key d domainSignals (collect d domainSignals s) with
      | (Err e, s) => (Err e, s)
      | (Ok _, s) =>
          let s := dispatchExecAlgoChildren d s in
          (Ok tt, set_trader (TraderAdvanceDay (rs_trader s)) s)
      end
  end.

Fixpoint session_days (barsByDay : gmap bytes (gmap bytes OHLCV.t)) (keys : list bytes) (s : session_state)
    : res (session_error SE) unit * session_state :=
  match keys with
  | [] => (Ok tt, s)
  | key :: rest =>
      match session_day barsByDay key s with
      | (Err e, s) => (Err e, s)
      | (Ok _, s) => session_days barsByDay rest s
      end
  end.

(** ** The run *)

Definition file_bar (q : FeedQuote) (m : gmap bytes (gmap bytes OHLCV.t)) : gmap bytes (gmap bytes OHLCV.t) :=
  let key := dayKey (q_Timestamp q) in
  <[key := <[q_Symbol q := quoteToOHLCV q]> (default ∅ (m !! key))]> m.

Definition fill_before (a b : PaperFill) : bool :=
  if negb (pf_Date a =? pf_Date b) then Before (pf_Date a) (pf_Date b) else bytes_ltb (pf_Symbol a) (pf_Symbol b).

Context {C : Type} `{!Clock.Clock C}.

Record PaperSession := MkSession {
  ps_feed : BarReplayFeed C; ps_run : session_state; ps_used : bool
}.

Definition NewPaperSession (feed : BarReplayFeed C) (t : T) (x : X) : PaperSession :=
  MkSession feed (MkRunState t x ∅ NewDispatcher ∅ [] []) false.

Definition Run (calendar : option (list Time)) (bulk : option (gmap bytes (list OHLCV.t))) (symbols : list bytes)
    (ps : PaperSession) : res (session_error SE) (list PaperFill) * PaperSession :=
  match symbols with
  | [] => (Err NoSymbols, ps)
  | _ =>
      if ps_used ps then (Err AlreadyRun, ps)
      else
        match calendar with
        | None => (Err CalendarFailed, MkSession (ps_feed ps) (ps_run ps) true)
        | Some days =>
            match FeedReplay bulk symbols file_bar (ps_feed ps) ∅ with
            | (Err e, feed) => (Err (ReplayFailed e), MkSession feed (ps_run ps) true)
            | (Ok barsByDay, feed) =>
                let dayKeys := match dayKeysFromCalendar days with
                               | [] => sortedKeys barsByDay
                               | keys => keys
                               end in
                match session_days barsByDay dayKeys (wire_bars (ps_run ps)) with
                | (Err e, s) => (Err e, MkSession feed s true)
                | (Ok _, s) => (Ok (SliceStable fill_before (rs_fills s)), MkSession feed s true)
                end
            end
        end
  end.

End Session.
Arguments session_state : clear implicits.
Arguments PaperSession : clear implicits.

(** ** The bridge (live_bridge.go) *)

Inductive bridge_outcome (E : Type) :=
| NoTrader
| BadPrice
| Refused (e : E)
| NilResult                 (** the result is dereferenced for the log *)
| Executed (r : OrderResult.t).
Arguments NoTrader {_}. Arguments BadPrice {_}. Arguments Refused {_}. Arguments NilResult {_}. Arguments Executed {_}.

Section Bridge.
Context {T E : Type} `{!SessionTrader T E}.

Definition bridgeQuantity (strength : float64) : float64 :=
  let quantity := f64_of_Z 100 in
  if (strength >? f0)%f64 then
    let scaled := if (strength * f64_of_Z 10 >? f1)%f64 then (strength * f64_of_Z 10)%f64 else f1 in
    let quantity := (f64_of_Z 100 * scaled)%f64 in
    if (quantity >? f64_of_Z 10000)%f64 then f64_of_Z 10000 else quantity
  else quantity.

Definition BridgeExecuteSignal (signal : DomainSignal) (currentPrice : float64) (trader : option T)
    : bridge_outcome E * option T :=
  match trader with
  | None => (NoTrader, None)
  | Some t =>
      if (currentPrice <=? f0)%f64 then (BadPrice, trader)
      else
        let orderType := if bool_decide (ds_OrderType signal = OrderTypeOther []) then OrderTypeMarket else ds_OrderType signal in
        let price := if bool_decide (orderType = OrderTypeLimit)
                     then (if (ds_LimitPrice signal <=? f0)%f64 then currentPrice else ds_LimitPrice signal)
                     else f0 in
        match TraderSubmit (ds_Symbol signal) (ds_Direction signal) orderType
                (bridgeQuantity (ds_Strength signal)) price t with
        | (Err e, t) => (Refused e, Some t)
        | (Ok None, t) => (NilResult, Some t)
        | (Ok (Some r), t) => (Executed r, Some t)
        end
  end.

(** A batch: signals without a price are skipped, refusals too, and the last
    result of a symbol stays. *)
Fixpoint bridge_signals (signals : list DomainSignal) (prices : gmap bytes float64)
    (results : gmap bytes OrderResult.t) (trader : option T) : option (gmap bytes OrderResult.t) * option T :=
  match signals with
  | [] => (Some results, trader)
  | signal :: rest =>
      match prices !! ds_Symbol signal with
      | None => bridge_signals rest prices results trader
      | Some price =>
          if (price <=? f0)%f64 then bridge_signals rest prices results trader
          else match BridgeExecuteSignal signal price trader with
               | (Executed r, t) => bridge_signals rest prices (<[ds_Symbol signal := r]> results) t
               | (NilResult, t) => (None, t)
               | (_, t) => bridge_signals rest prices results t
               end
      end
  end.

Definition BridgeExecuteSignals (signals : list DomainSignal) (prices : gmap bytes float64) (trader : option T)
    : option (gmap bytes OrderResult.t) * option T :=
  match trader with
  | None => (Some ∅, None)
  | Some _ => bridge_signals signals prices ∅ trader
  end.
End Bridge.

(** ** The paper trader as the session's trader *)

Section Mock.
Context {S : Type} (Save : OrderRecord.t -> S -> bool * S) (newID : MockTrader S -> bytes) (clock : Time).

Definition Mock_SessionTrader `{!MapOrder} : SessionTrader (MockTrader S) trader_error := {|
  TraderSubmit := fun sym dir ot qty price m =>
    match SubmitOrder Save (newID m) clock sym dir ot qty price m with
    | (Err e, m) => (Err e, m)
    | (Ok r, m) => (Ok (Some r), m)
    end;
  TraderGetPositions := fun m => Ok (MockTrader.GetPositions (map fst (range 0 (MockTrader.positions m))) m);
  TraderGetAccount := fun m => Ok (Some (GetAccount (map fst (range 1 (MockTrader.positions m))) clock m));
  TraderSetBars := fun f m => SetCurrentBarProvider (Some f) m;
  TraderAdvanceDay := AdvanceDay
|}.
End Mock.
