(* ===== verification/SessionProps.v ===== *)
(** * SessionProps: what a paper replay promises

    A replay never looks ahead, runs once, returns its fills in order, and
    asks for the same orders as the back-test and the live bridge. *)

From stdpp Require Import base list strings gmap sorting.
From Stdlib Require Import ZArith Lia Ascii.
From S2P Require Import Prelude GoMap GoFloat Domain GoSlice MarketRules EventBus ExecCost Tracker MockTrader.
From S2P Require Import ExecSchedule ExecDispatch BacktestEngine PaperSession.

Open Scope Z_scope.

(** ** The same signals and the same parents as the back-test *)

Lemma to_domain_signal_convert d sg : to_domain_signal d sg = option_list (convert_signal d sg).
Proof.
  unfold to_domain_signal, convert_signal, resolveDirection. case_bool_decide; [done|].
  assert (Hd : match ss_Date sg with Some t => if negb (IsZero t) then t else d | None => d end
             = match ss_Date sg with Some t => if IsZero t then d else t | None => d end)
    by (destruct (ss_Date sg) as [t|]; [by destruct (IsZero t)|done]).
  rewrite Hd. destruct (bool_decide (ss_Direction sg = DirectionOther [])) eqn:E1;
    [|destruct (bool_decide (ss_Direction sg = DirectionHold)) eqn:E2]; cbn [orb].
  - apply bool_decide_eq_true in E1. rewrite (bool_decide_false (ss_Direction sg <> DirectionOther [] /\ ss_Direction sg <> DirectionHold)) by (by intros [? ?]). repeat case_bool_decide; done.
  - apply bool_decide_eq_true in E2. rewrite (bool_decide_false (ss_Direction sg <> DirectionOther [] /\ ss_Direction sg <> DirectionHold)) by (by intros [? ?]). repeat case_bool_decide; done.
  - apply bool_decide_eq_false in E1, E2. by rewrite (bool_decide_true (ss_Direction sg <> DirectionOther [] /\ ss_Direction sg <> DirectionHold)).
Qed.

Lemma bind_option_list {A B} (f : A -> option B) l : (l ≫= fun x => option_list (f x)) = omap f l.
Proof. induction l as [|x l IH]; [done|]. cbn. rewrite IH. by destruct (f x). Qed.

Lemma toDomainSignals_convert signals d : toDomainSignals signals d = convertStrategySignals signals d.
Proof.
  unfold toDomainSignals, convertStrategySignals. rewrite <- bind_option_list.
  induction signals as [|sg l IH]; [done|]. cbn. by rewrite IH, to_domain_signal_convert.
Qed.

(** *** Dispatchers up to the run they belong to

    The back-test labels its parents and their slices with the id of the
    run, a fresh one for every run; the paper session leaves the label
    empty. [anon] takes the labels off. *)
Definition anon_child (c : ChildOrder.t) : ChildOrder.t :=
  ChildOrder.Mk (ChildOrder.OrderID c) (ChildOrder.ParentID c) [] (ChildOrder.Symbol c) (ChildOrder.Side c)
    (ChildOrder.Qty c) (ChildOrder.LimitPrice c) (ChildOrder.SubmitAt c).
Definition anon_parent (p : ParentOrder.t) : ParentOrder.t :=
  ParentOrder.Mk (ParentOrder.OrderID p) [] (ParentOrder.Symbol p) (ParentOrder.Side p) (ParentOrder.Qty p)
    (ParentOrder.LimitPrice p) (ParentOrder.Style p) (ParentOrder.StartAt p) (ParentOrder.EndAt p).
Definition anon_state (s : planState) : planState :=
  MkPlanState (anon_parent (ps_parent s)) (anon_child <$> ps_plan s) (ps_childIDs s) (ps_nextIdx s)
    (anon_child <$> ps_due s) (ps_filled s) (ps_total s) (ps_done s).
Definition anon_algo (a : algo) : algo :=
  match a with
  | AlgoTWAP a => AlgoTWAP (MkTWAP (twap_slices a) (anon_state (twap_st a)))
  | AlgoVWAP a => AlgoVWAP (MkVWAP (vwap_slices a) (vwap_profile a) (vwap_degraded a) (anon_state (vwap_st a)))
  end.
Definition anon_spec (spec : AttachSpec) : AttachSpec :=
  MkAttachSpec (as_ParentID spec) [] (as_Symbol spec) (as_Side spec) (as_Qty spec) (as_LimitPrice spec)
    (as_Style spec) (as_Slices spec) (as_Profile spec) (as_OrderType spec) (as_StartAt spec) (as_EndAt spec).
Definition anon_run (r : parentRun) : parentRun :=
  MkRun (anon_spec (pr_spec r)) (anon_algo (pr_algo r)) (anon_child <$> pr_plan r) (pr_filled r) (pr_submitted r)
    (pr_cancelled r) (pr_cancelReason r).
Definition anon (d : Dispatcher) : Dispatcher := MkDispatcher (anon_run <$> parents d) (childIdx d).

Lemma anon_plan parent qtys times : buildPlan (anon_parent parent) qtys times = anon_child <$> buildPlan parent qtys times.
Proof. unfold buildPlan. rewrite fmap_imap. apply imap_ext. by intros i [q t]. Qed.

Lemma anon_ids plan : map ChildOrder.OrderID (anon_child <$> plan) = map ChildOrder.OrderID plan.
Proof. induction plan as [|c plan IH]; [done|]. cbn. by rewrite IH. Qed.

Lemma anon_total acc plan :
  foldl (fun acc c => acc + ChildOrder.Qty c)%f64 acc (anon_child <$> plan)
  = foldl (fun acc c => acc + ChildOrder.Qty c)%f64 acc plan.
Proof. revert acc. induction plan as [|c plan IH]; intros acc; [done|]. cbn. apply IH. Qed.

Lemma anon_reset parent plan : reset (anon_parent parent) (anon_child <$> plan) = anon_state (reset parent plan).
Proof. unfold reset, plan_total, anon_state. cbn. by rewrite anon_ids, anon_total. Qed.

Lemma anon_sum pid i sum plan : sum_positive pid i sum (anon_child <$> plan) = sum_positive pid i sum plan.
Proof.
  revert i sum. induction plan as [|c plan IH]; intros i sum; [done|]. cbn. by destruct (fle _ _).
Qed.

Lemma anon_index (pid : bytes) (plan : list ChildOrder.t) (idx : gmap bytes bytes) :
  foldl (fun idx c => <[ChildOrder.OrderID c := pid]> idx) idx (anon_child <$> plan)
  = foldl (fun idx c => <[ChildOrder.OrderID c := pid]> idx) idx plan.
Proof. revert idx. induction plan as [|c plan IH]; intros idx; [done|]. apply IH. Qed.

(** A schedule, label apart, does not depend on the label. *)
Lemma anon_schedule parent (a : algo) :
  anon_algo a = a ->
  Schedule (anon_parent parent) a
  = (match (Schedule parent a).1 with Ok plan => Ok (anon_child <$> plan) | Err e => Err e end,
     anon_algo (Schedule parent a).2).
Proof.
  intros Ha. destruct a as [[n st]|[n profile dg st]]; cbn [anon_algo twap_slices twap_st vwap_slices vwap_profile
    vwap_degraded vwap_st] in Ha; injection Ha as Ha; cbn [Schedule algo_algorithm algo_lift TWAP_algorithm VWAP_algorithm].
  - unfold TWAP_Schedule. change (validateParent (anon_parent parent)) with (validateParent parent).
    destruct (validateParent parent); cbn [fst snd anon_algo twap_slices twap_st]; [|by rewrite Ha].
    rewrite anon_plan, anon_reset. done.
  - unfold VWAP_Schedule. change (validateParent (anon_parent parent)) with (validateParent parent).
    destruct (validateParent parent); [|cbn [fst snd anon_algo vwap_slices vwap_profile vwap_degraded vwap_st]; by rewrite Ha].
    change (VWAP_slices (MkVWAP n profile dg st) (anon_parent parent)) with (VWAP_slices (MkVWAP n profile dg st) parent).
    destruct (vwapWeights _ _) as [weights degraded]. rewrite anon_plan, anon_reset. done.
Qed.

Lemma newAlgo_anon spec a : newAlgo spec = Some a -> anon_algo a = a.
Proof. unfold newAlgo. intros H. repeat case_match; simplify_eq; done. Qed.

(** Attaching, label apart, does not depend on labels. *)
Lemma anon_attach spec d :
  Attach (anon_spec spec) (anon d)
  = (match (Attach spec d).1 with Ok plan => Ok (anon_child <$> plan) | Err e => Err e end, anon (Attach spec d).2).
Proof.
  unfold Attach. cbn [as_ParentID anon_spec]. destruct (decide (as_ParentID spec = [])); [done|].
  change (newAlgo (anon_spec spec)) with (newAlgo spec). destruct (newAlgo spec) as [a|] eqn:En; [|done].
  change (parent_of (anon_spec spec)) with (anon_parent (parent_of spec)).
  rewrite anon_schedule by (by eapply newAlgo_anon).
  destruct (Schedule (parent_of spec) a) as [[plan|e] a']; cbn [fst snd]; [|done].
  rewrite (decide_ext (anon_child <$> plan = []) (plan = [])) by (by destruct plan).
  destruct (decide (plan = [])); [done|]. rewrite anon_sum.
  destruct (sum_positive _ _ _ _) as [sum|]; [|done]. cbn [anon parents childIdx]. rewrite lookup_fmap.
  destruct (parents d !! as_ParentID spec); [done|]. cbn [fmap option_fmap option_map].
  unfold first_clash. rewrite anon_ids. cbn [childIdx].
  destruct (List.find _ _); [done|]. cbn [as_Qty anon_spec].
  destruct (flt _ _); [done|]. cbn [fst snd]. unfold anon. cbn [parents childIdx].
  rewrite fmap_insert, anon_index. done.
Qed.


(** ** The bridge *)

(** The replay sends what the bridge sends. For a signal without an
    execution algorithm, a session whose bar closes at a positive price and a
    bridge given that price submit the same order: the trader ends in the same
    state and the fill is the one of the result the bridge returns. *)
Theorem session_sends_the_bridge_order {T E X : Type} `{!SessionTrader T E} d sig (s : session_state T X) q :
  currentBars s !! ds_Symbol sig = Some q -> fle (q_Close q) f0 = false ->
  let '(paper, s') := executeSignal d sig s in
  let '(bridge, t') := BridgeExecuteSignal sig (q_Close q) (Some (rs_trader s)) in
  t' = Some (rs_trader s')
  /\ match bridge with
     | Executed r => paper = Ok (Some (paper_fill_of d (ds_Symbol sig) r))
     | Refused e => paper = Err e
     | NilResult => paper = Ok None
     | NoTrader | BadPrice => False
     end.
Proof.
  intros Hq Hp. unfold executeSignal, BridgeExecuteSignal, order_price. rewrite Hq, Hp.
  change (bridgeQuantity (ds_Strength sig)) with (signalQuantity (ds_Strength sig)).
  set (ot := if bool_decide (ds_OrderType sig = OrderTypeOther []) then OrderTypeMarket else ds_OrderType sig).
  destruct (TraderSubmit _ _ _ _ _ _) as [[[r|]|e] t]; done.
Qed.

(** ** Stable sorting and filtering *)

(** A comparison that is a strict weak order. *)
Record weak_order {A} (less : A -> A -> bool) : Prop := {
  wo_asym a b : less a b = true -> less b a = false;
  wo_trans a b c : less a b = false -> less b c = false -> less a c = false
}.

Lemma stable_sorted {A} (less : A -> A -> bool) l :
  weak_order less -> StronglySorted (fun a b => less b a = false) (SliceStable less l).
Proof.
  intros [Ha Ht]. refine (@SliceStable_sorted A less _ _ l _).
  - intros a b c H1 H2. by apply (Ht c b a).
  - intros a b. destruct (less a b) eqn:E; [by apply Ha|done].
Qed.

Lemma insert_stable_filter {A} (less : A -> A -> bool) (P : A -> bool) x l :
  weak_order less -> StronglySorted (fun a b => less b a = false) l ->
  List.filter P (insert_stable less x l) = if P x then insert_stable less x (List.filter P l) else List.filter P l.
Proof.
  intros Hw. induction 1 as [|y l Hs IH Hy]; cbn [insert_stable List.filter]; [done|].
  destruct (less y x) eqn:E; cbn [List.filter].
  - rewrite IH. destruct (P x), (P y); cbn [insert_stable]; rewrite ?E; done.
  - destruct (P x); [|done]. destruct (P y); cbn [insert_stable]; [by rewrite E|].
    destruct (List.filter P l) as [|z l'] eqn:Ef; [done|]. cbn [insert_stable].
    assert (Hz : z ∈ l) by (apply list_elem_of_In, (filter_In P); rewrite Ef; by left).
    rewrite Forall_forall in Hy. by rewrite (wo_trans _ Hw z y x (Hy z Hz) E).
Qed.

Lemma SliceStable_filter {A} (less : A -> A -> bool) (P : A -> bool) l :
  weak_order less -> List.filter P (SliceStable less l) = SliceStable less (List.filter P l).
Proof.
  intros Hw. induction l as [|x l IH]; [done|]. cbn [SliceStable foldr List.filter]. fold (SliceStable less l).
  rewrite insert_stable_filter by (done || by apply stable_sorted). rewrite IH. by destruct (P x).
Qed.

(** Dates, then symbols. *)
Lemma dated_order {A} (date : A -> Time) (sym : A -> bytes) :
  weak_order (fun a b => if negb (date a =? date b) then Before (date a) (date b) else bytes_ltb (sym a) (sym b)).
Proof.
  unfold Before, bytes_ltb. constructor.
  - intros a b. destruct (Z.eqb_spec (date a) (date b)) as [E|E]; destruct (Z.eqb_spec (date b) (date a)) as [E'|E'];
      cbn [negb]; try lia. rewrite negb_true_iff, negb_false_iff. intros H.
    destruct (bytes_le_total (sym a) (sym b)) as [Ht|Ht]; [done|]. unfold bytes_le in Ht. congruence.
  - intros a b c. destruct (Z.eqb_spec (date a) (date b)) as [E|E]; destruct (Z.eqb_spec (date b) (date c)) as [E'|E'];
      destruct (Z.eqb_spec (date a) (date c)) as [E''|E'']; cbn [negb]; try lia.
    rewrite !negb_false_iff. intros H1 H2. by apply (transitivity (R := bytes_le) (y := sym b)).
Qed.

(** ** Bars up to a day *)

Definition upto (k : bytes) (t : Time) : bool := bytes_leb (dayKey t) k.

Section Replaying.
Context {C : Type} `{!Clock.Clock C}.

Lemma replay_bars_fold {S : Type} (cb : FeedQuote -> S -> S) items (f : BarReplayFeed C) s s' f' :
  replay_bars cb items f s = (Ok s', f') -> s' = foldl (fun s b => cb (barToQuote b) s) s items.
Proof.
  revert f s. induction items as [|b items IH]; intros f s; cbn [replay_bars foldl]; [by intros [= -> _]|].
  destruct (Clock.Advance _ _) as [[u|e] clk]; [|done]. apply IH.
Qed.

(** The bars of the days up to [k] are filed from the bars up to [k]. *)
Lemma filed_upto (k : bytes) (items : list OHLCV.t) (m m' : gmap bytes (gmap bytes OHLCV.t)) :
  (forall key, bytes_leb key k = true -> m !! key = m' !! key) ->
  forall key, bytes_leb key k = true ->
  foldl (fun s b => file_bar (barToQuote b) s) m items !! key
  = foldl (fun s b => file_bar (barToQuote b) s) m' (List.filter (fun b => upto k (OHLCV.Date b)) items) !! key.
Proof.
  revert m m'. induction items as [|b items IH]; intros m m' Hm key Hk; cbn [foldl List.filter]; [by apply Hm|].
  unfold upto at 1. destruct (bytes_leb (dayKey (OHLCV.Date b)) k) eqn:E; cbn [foldl]; apply IH; try done.
  - intros key' Hk'. unfold file_bar. cbn [q_Timestamp q_Symbol barToQuote].
    destruct (decide (key' = dayKey (OHLCV.Date b))) as [->|Hne]; [by rewrite !lookup_insert_eq, Hm|].
    rewrite !lookup_insert_ne by done. by apply Hm.
  - intros key' Hk'. unfold file_bar. cbn [q_Timestamp barToQuote]. rewrite lookup_insert_ne; [by apply Hm|].
    intros <-. congruence.
Qed.

Lemma flatten_upto (k : bytes) (symbols : list bytes) (all1 all2 : gmap bytes (list OHLCV.t)) :
  (forall sym, sym ∈ symbols ->
     List.filter (fun b => upto k (OHLCV.Date b)) (default [] (all1 !! sym))
     = List.filter (fun b => upto k (OHLCV.Date b)) (default [] (all2 !! sym))) ->
  List.filter (fun b => upto k (OHLCV.Date b)) (flatten_bars symbols all1)
  = List.filter (fun b => upto k (OHLCV.Date b)) (flatten_bars symbols all2).
Proof.
  assert (Hmap : forall sym l, List.filter (fun b => upto k (OHLCV.Date b)) (map (with_symbol sym) l)
                 = map (with_symbol sym) (List.filter (fun b => upto k (OHLCV.Date b)) l)).
  { intros sym l. induction l as [|b l IH]; [done|]. cbn [map List.filter]. rewrite IH.
    assert (OHLCV.Date (with_symbol sym b) = OHLCV.Date b) as -> by (unfold with_symbol; by case_bool_decide).
    by destruct (upto k (OHLCV.Date b)). }
  intros Hag. unfold flatten_bars. induction symbols as [|sym l IH]; [done|]. cbn. rewrite !List.filter_app, !Hmap.
  f_equal; [f_equal; apply Hag; by left|]. apply IH. intros sym' Hs. apply Hag. by right.
Qed.

(** Two replays of data that agree up to [k] file the same days up to [k]. *)
Lemma replays_agree (k : bytes) (symbols : list bytes) (all1 all2 : gmap bytes (list OHLCV.t)) (f1 f2 : BarReplayFeed C) m1 m2 f1' f2' :
  (forall sym, sym ∈ symbols ->
     List.filter (fun b => upto k (OHLCV.Date b)) (default [] (all1 !! sym))
     = List.filter (fun b => upto k (OHLCV.Date b)) (default [] (all2 !! sym))) ->
  FeedReplay (Some all1) symbols file_bar f1 ∅ = (Ok m1, f1') -> FeedReplay (Some all2) symbols file_bar f2 ∅ = (Ok m2, f2') ->
  forall key, bytes_leb key k = true -> m1 !! key = m2 !! key.
Proof.
  intros Hall H1 H2 key Hk. unfold FeedReplay in H1, H2. destruct symbols as [|s0 symbols']; [done|].
  apply replay_bars_fold in H1 as ->. apply replay_bars_fold in H2 as ->.
  etrans; [by apply (filed_upto k _ ∅ ∅)|]. symmetry. etrans; [by apply (filed_upto k _ ∅ ∅)|].
  rewrite !SliceStable_filter by apply (dated_order OHLCV.Date OHLCV.Symbol).
  by rewrite (flatten_upto k _ all1 all2 Hall).
Qed.
End Replaying.

(** ** Day keys *)

Lemma digit_value_digit n : digit_value (digit n) = Some (n mod 10).
Proof.
  unfold digit_value, digit, byteZ. pose proof (Z.mod_pos_bound n 10 ltac:(lia)).
  rewrite N_ascii_embedding by lia. rewrite Z2N.id by lia.
  replace (48 + n mod 10 - 48) with (n mod 10) by lia.
  by destruct ((0 <=? n mod 10) && (n mod 10 <=? 9)) eqn:E; [|bool_to_prop; lia].
Qed.

Lemma digits_value_cons acc n l : digits_value acc (digit n :: l) = digits_value (10 * acc + n mod 10) l.
Proof. cbn [digits_value]. by rewrite digit_value_digit. Qed.

Lemma two_digits n : 0 <= n < 100 -> digits_value 0 [digit (n / 10); digit n] = Some n.
Proof. intros Hn. rewrite !digits_value_cons. cbn [digits_value]. f_equal. Z.div_mod_to_equations. lia. Qed.

Lemma four_digits n : 0 <= n < 10000 ->
  digits_value 0 [digit (n / 1000); digit (n / 100); digit (n / 10); digit n] = Some n.
Proof. intros Hn. rewrite !digits_value_cons. cbn [digits_value]. f_equal. Z.div_mod_to_equations. lia. Qed.

(** The key of a day names its midnight. *)
Lemma parse_dayKey t : 0 <= Year t <= 9999 -> parseDayKey (dayKey t) = t / day_ns * day_ns.
Proof.
  unfold Year, dayKey, format_date, civil. pose proof (date_of_spec (t / day_ns)) as Hs.
  destruct (date_of (t / day_ns)) as [[y m] d] eqn:E. destruct Hs as (Hm & Hd & Hn). cbn [fst]. intros Hy.
  change (lit "-") with ["-"%char]. cbn [app]. unfold parseDayKey.
  rewrite four_digits, !two_digits by lia. cbv zeta. rewrite Hn, E, bool_decide_true by done.
  rewrite (bool_decide_true ((y, m, d) = (y, m, d))) by done.
  replace (1 <=? m) with true by lia. by replace (m <=? 12) with true by lia.
Qed.

Lemma dayKey_midnight t : dayKey (t / day_ns * day_ns) = dayKey t.
Proof. unfold dayKey, format_date, civil. by rewrite Z.div_mul. Qed.

Lemma dayKey_parse t : 0 <= Year t <= 9999 -> dayKey (parseDayKey (dayKey t)) = dayKey t.
Proof. intros Hy. by rewrite parse_dayKey, dayKey_midnight. Qed.

Lemma calendar_keys days key : key ∈ dayKeysFromCalendar days -> exists t, t ∈ days /\ key = dayKey t.
Proof.
  unfold dayKeysFromCalendar. rewrite merge_sort_Permutation.
  induction days as [|t days IH] using rev_ind; [by intros ?%not_elem_of_nil|]. rewrite foldl_app. cbn [foldl].
  intros Hk. case_bool_decide; [|apply elem_of_app in Hk as [Hk|Hk]].
  - destruct (IH Hk) as (t' & Ht & ->). exists t'. split; [set_solver|done].
  - destruct (IH Hk) as (t' & Ht & ->). exists t'. split; [set_solver|done].
  - apply list_elem_of_singleton in Hk as ->. exists t. split; [set_solver|done].
Qed.

Lemma calendar_not_empty days : days <> [] -> dayKeysFromCalendar days <> [].
Proof.
  intros Hne Hk. apply (f_equal length) in Hk. unfold dayKeysFromCalendar in Hk. rewrite merge_sort_Permutation in Hk.
  destruct days as [|t days] using rev_ind; [done|]. rewrite foldl_app in Hk. cbn [foldl] in Hk.
  case_bool_decide as Hd; [|by rewrite length_app, Nat.add_comm in Hk]. by destruct (foldl _ _ _); [apply not_elem_of_nil in Hd|].
Qed.

Lemma calendar_sorted days : StronglySorted bytes_le (dayKeysFromCalendar days).
Proof. apply (StronglySorted_merge_sort bytes_le). Qed.

(** The keys up to [k] come first. *)
Lemma keys_split k (keys : list bytes) :
  StronglySorted bytes_le keys ->
  exists pre post, keys = pre ++ post /\ Forall (fun x => bytes_leb x k = true) pre /\ Forall (fun x => bytes_leb x k = false) post.
Proof.
  induction 1 as [|x keys Hs (pre & post & -> & H1 & H2) Hx]; [by exists [], []|].
  destruct (bytes_leb x k) eqn:E; [exists (x :: pre), post; split_and!; [done|by constructor|done]|].
  exists [], (x :: pre ++ post). split_and!; [done|done|]. constructor; [done|].
  rewrite Forall_forall in Hx |- *. intros y Hy. apply not_true_iff_false. intros Hyk.
  assert (bytes_le x k) as Hxk by (by apply (transitivity (R := bytes_le) (y := y)); [apply Hx|]).
  unfold bytes_le in Hxk. congruence.
Qed.

(** ** Fills of a day *)

Section Days.
Context {T E X SE : Type} `{!SessionTrader T E} (strat : Strategy X SE).

(** The fills only grow, by fills of the day [d]. *)
Definition grows (P : PaperFill -> Prop) (s s' : session_state T X) : Prop :=
  exists new, rs_fills s' = rs_fills s ++ new /\ Forall P new.

#[local] Instance grows_refl P : Reflexive (grows P).
Proof. intros s. exists []. by rewrite app_nil_r. Qed.
#[local] Instance grows_trans P : Transitive (grows P).
Proof.
  intros s1 s2 s3 (n1 & E1 & F1) (n2 & E2 & F2). exists (n1 ++ n2). rewrite E2, E1, <- app_assoc. split; [done|].
  by apply Forall_app.
Qed.

Lemma grows_same P s s' : rs_fills s' = rs_fills s -> grows P s s'.
Proof. intros Hf. exists []. by rewrite app_nil_r. Qed.

Lemma grows_add d s (f : option PaperFill) :
  (forall x, f = Some x -> pf_Date x = d) -> grows (fun x => pf_Date x = d) s (add_fill f s).
Proof. intros Hf. exists (option_list f). split; [done|]. destruct f; cbn; [|done]. constructor; [by apply Hf|done]. Qed.

Lemma foldl_grows {A} P (f : session_state T X -> A -> session_state T X) l :
  (forall s a, grows P s (f s a)) -> forall s, grows P s (foldl f s l).
Proof.
  intros Hf. induction l as [|a l IH]; intros s; cbn [foldl]; [reflexivity|]. transitivity (f s a); [apply Hf|apply IH].
Qed.

Lemma child_grows d s dc : grows (fun x => pf_Date x = d) s (submitExecAlgoChild d s dc).
Proof.
  unfold submitExecAlgoChild. destruct (TraderSubmit _ _ _ _ _ _) as [[[r|]|e] t]; try by apply grows_same.
  destruct (DispatchFill _ _) as [[u|e] dp]; [|by apply grows_same].
  etransitivity; [|apply grows_add; by intros x [= <-]]. by apply grows_same.
Qed.

Lemma reconcile_grows P (s : session_state T X) : grows P s (reconcileExternalPositionChanges s).
Proof.
  unfold reconcileExternalPositionChanges. case_match; [reflexivity|].
  destruct (TraderGetPositions _) as [ps|e]; [|reflexivity]. apply foldl_grows. intros s' p. apply grows_same.
  unfold reconcile_parent, cancelParentsForSymbol. by repeat case_match.
Qed.

Lemma dispatch_grows d (s : session_state T X) : grows (fun x => pf_Date x = d) s (dispatchExecAlgoChildren d s).
Proof.
  unfold dispatchExecAlgoChildren. case_match; [reflexivity|]. transitivity (reconcileExternalPositionChanges s); [apply reconcile_grows|].
  case_match; [reflexivity|]. apply foldl_grows. intros s' sym. unfold dispatch_symbol.
  destruct (currentBars s' !! sym) as [q|]; [|reflexivity]. destruct (DispatchBar _ _) as [[due errs] dp].
  etransitivity; [|apply foldl_grows, child_grows]. by apply grows_same.
Qed.

Lemma match_grows key d signals (s : session_state T X) : grows (fun x => pf_Date x = d) s (match_signals (SE := SE) key d signals s).2.
Proof.
  revert s. induction signals as [|sig l IH]; intros s; cbn [match_signals]; [reflexivity|]. case_match.
  - unfold attachExecAlgo. destruct (Attach _ _) as [[p|e] dp]; cbn [snd]; [|by apply grows_same].
    etransitivity; [|apply IH]. by apply grows_same.
  - unfold executeSignal. destruct (TraderSubmit _ _ _ _ _ _) as [[[r|]|e] t]; (etransitivity; [|apply IH]).
    + etransitivity; [|apply grows_add; by intros x [= <-]]. by apply grows_same.
    + etransitivity; [|by apply grows_add]. by apply grows_same.
    + by apply grows_same.
Qed.

Lemma day_grows bars key (s : session_state T X) : grows (fun x => pf_Date x = parseDayKey key) s (session_day strat bars key s).2.
Proof.
  unfold session_day. set (todays := default ∅ (bars !! key)). transitivity (open_day todays s); [by apply grows_same|].
  assert (Hg : rs_fills (generateSignals strat todays (open_day todays s)).2 = rs_fills (open_day todays s)).
  { unfold generateSignals. destruct strat as [OnBar Signals|Gen].
    - destruct (feed_bars _ _ _) as [[u|e] x]; [|done]. by destruct (Signals x).
    - by destruct (Gen _ _ _). }
  destruct (generateSignals _ _ _) as [[sigs|e] s1]; cbn [snd] in Hg |- *; [|by apply grows_same].
  transitivity s1; [by apply grows_same|]. set (ds := toDomainSignals _ _).
  pose proof (match_grows key (parseDayKey key) ds (collect (parseDayKey key) ds s1)) as Hm.
  destruct (match_signals _ _ _ _) as [[u|e] s2]; cbn [snd] in Hm |- *;
    (etransitivity; [by apply (grows_same _ _ (collect (parseDayKey key) ds s1))|]); [|done].
  etransitivity; [exact Hm|]. etransitivity; [apply dispatch_grows|]. by apply grows_same.
Qed.

Lemma days_grow bars keys (s : session_state T X) :
  grows (fun x => exists key, key ∈ keys /\ pf_Date x = parseDayKey key) s (session_days strat bars keys s).2.
Proof.
  revert s. induction keys as [|key keys IH]; intros s; cbn [session_days]; [reflexivity|].
  pose proof (day_grows bars key s) as (n1 & E1 & F1). destruct (session_day _ _ _ _) as [[u|e] s1]; cbn [snd] in *.
  - destruct (IH s1) as (n2 & E2 & F2). exists (n1 ++ n2). rewrite E2, E1, <- app_assoc. split; [done|]. apply Forall_app.
    split; eapply Forall_impl; [exact F1| |exact F2|]; cbn.
    + intros x Hx. exists key. split; [by left|done].
    + intros x (k & Hk & Hx). exists k. split; [by right|done].
  - exists n1. split; [done|]. eapply Forall_impl; [exact F1|]. cbn. intros x Hx. exists key. split; [by left|done].
Qed.

Lemma session_days_app bars pre post (s : session_state T X) :
  session_days strat bars (pre ++ post) s
  = match session_days strat bars pre s with (Ok _, s') => session_days strat bars post s' | (Err e, s') => (Err e, s') end.
Proof.
  revert s. induction pre as [|k pre IH]; intros s; cbn [app session_days]; [done|].
  destruct (session_day _ _ _ _) as [[u|e] s1]; [apply IH|done].
Qed.

Lemma session_days_ext bars1 bars2 keys (s : session_state T X) :
  Forall (fun key => bars1 !! key = bars2 !! key) keys -> session_days strat bars1 keys s = session_days strat bars2 keys s.
Proof.
  intros Hk. revert s. induction Hk as [|key keys Hk Hks IH]; intros s; cbn [session_days]; [done|].
  assert (session_day strat bars1 key s = session_day strat bars2 key s) as -> by (unfold session_day; by rewrite Hk).
  destruct (session_day _ _ _ _) as [[u|e] s1]; [apply IH|done].
Qed.

End Days.

(** ** The run *)

Section Runs.
Context {T E X SE C : Type} `{!SessionTrader T E} `{!Clock.Clock C} (strat : Strategy X SE).

Definition kept (k : bytes) (fills : list PaperFill) : list PaperFill := List.filter (fun f => upto k (pf_Date f)) fills.

Lemma filter_all_false {A} (P : A -> bool) l : Forall (fun x => P x = false) l -> List.filter P l = [].
Proof. induction 1 as [|x l Hx Hl IH]; [done|]. cbn. by rewrite Hx. Qed.

(** After the keys up to [k] the fills up to [k] do not change. *)
Lemma later_days_add_nothing k bars post (s : session_state T X) :
  Forall (fun key => bytes_leb key k = false) post -> Forall (fun key => dayKey (parseDayKey key) = key) post ->
  kept k (rs_fills (session_days strat bars post s).2) = kept k (rs_fills s).
Proof.
  intros Hk Hp. destruct (days_grow strat bars post s) as (new & -> & Hn). unfold kept. rewrite List.filter_app.
  rewrite (filter_all_false _ new), app_nil_r; [done|]. rewrite Forall_forall in Hn |- *.
  rewrite Forall_forall in Hk. rewrite Forall_forall in Hp. intros f Hf.
  destruct (Hn f Hf) as (key & Hin & Hd). unfold upto. rewrite Hd, (Hp key Hin). by apply Hk.
Qed.

(** C7. No look-ahead. Two replays of one session over one calendar, with
    market data that agrees on every bar up to a day and differs afterwards in
    any way, return the same fills up to that day, whatever the trader and the
    strategy do with what they are given. *)
Theorem replay_sees_no_future days all1 all2 symbols k (ps ps1 ps2 : PaperSession T X C) fills1 fills2 :
  days <> [] -> Forall (fun t => 0 <= Year t <= 9999) days ->
  (forall sym, sym ∈ symbols ->
     List.filter (fun b => upto k (OHLCV.Date b)) (default [] (all1 !! sym))
     = List.filter (fun b => upto k (OHLCV.Date b)) (default [] (all2 !! sym))) ->
  Run strat (Some days) (Some all1) symbols ps = (Ok fills1, ps1) ->
  Run strat (Some days) (Some all2) symbols ps = (Ok fills2, ps2) ->
  kept k fills1 = kept k fills2.
Proof.
  intros Hne Hyear Hall H1 H2. unfold Run in H1, H2. destruct symbols as [|sym0 syms]; [done|].
  set (symbols := sym0 :: syms) in *. destruct (ps_used ps); [done|].
  destruct (FeedReplay (Some all1) _ _ _ _) as [[m1|e] f1] eqn:R1; [|done].
  destruct (FeedReplay (Some all2) _ _ _ _) as [[m2|e] f2] eqn:R2; [|done].
  pose proof (replays_agree k symbols all1 all2 _ _ m1 m2 f1 f2 Hall R1 R2) as Hm.
  destruct (dayKeysFromCalendar days) as [|k0 keys0] eqn:Ek.
  { by apply calendar_not_empty in Ek. }
  rewrite <- Ek in H1, H2. destruct (keys_split k _ (calendar_sorted days)) as (pre & post & Esplit & Hpre & Hpost).
  assert (Hround : Forall (fun key => dayKey (parseDayKey key) = key) post).
  { rewrite Forall_forall in Hyear. apply Forall_forall. intros key Hin. destruct (calendar_keys days key) as (t & Ht & ->).
    - rewrite Esplit. set_solver.
    - by apply dayKey_parse, Hyear. }
  rewrite Esplit, session_days_app in H1, H2.
  rewrite (session_days_ext strat m1 m2 pre) in H1 by (eapply Forall_impl; [exact Hpre|]; intros key; apply Hm).
  destruct (session_days strat m2 pre (wire_bars (ps_run ps))) as [[u|e] s]; [|done].
  pose proof (later_days_add_nothing k m1 post s Hpost Hround) as L1.
  pose proof (later_days_add_nothing k m2 post s Hpost Hround) as L2.
  destruct (session_days strat m1 post s) as [[u1|e] s1]; [|done]. destruct (session_days strat m2 post s) as [[u2|e] s2]; [|done].
  injection H1 as <- _. injection H2 as <- _. cbn [snd] in L1, L2. unfold kept in *.
  rewrite !SliceStable_filter by apply (dated_order pf_Date pf_Symbol). by rewrite L1, L2.
Qed.

(** A session replays once. Whatever its first run does, a second one is
    refused and touches neither the trader nor the clock; and fills that a run
    returns are in the order of dates, and of symbols within a date. *)
Theorem session_runs_once cal1 cal2 bulk1 bulk2 symbols1 symbols2 (ps : PaperSession T X C) :
  symbols1 <> [] -> symbols2 <> [] ->
  let '(r1, ps1) := Run strat cal1 bulk1 symbols1 ps in
  Run strat cal2 bulk2 symbols2 ps1 = (Err AlreadyRun, ps1)
  /\ forall fills, r1 = Ok fills -> StronglySorted (fun a b => fill_before b a = false) fills.
Proof.
  intros N1 N2. destruct (Run strat cal1 bulk1 symbols1 ps) as [r1 ps1] eqn:R1.
  assert (ps_used ps1 = true /\ forall fills, r1 = Ok fills -> exists l, fills = SliceStable fill_before l) as [Hu Hf].
  { unfold Run in R1. destruct symbols1; [done|]. destruct (ps_used ps) eqn:Eu; [by injection R1 as <- <-|].
    repeat case_match; injection R1 as <- <-; (split; [done|]); intros fills Hfs; try discriminate; injection Hfs as <-; eauto. }
  split.
  - unfold Run. rewrite Hu. by destruct symbols2.
  - intros fills Hr. destruct (Hf fills Hr) as [l ->]. apply stable_sorted, (dated_order pf_Date pf_Symbol).
Qed.

End Runs.

(** ** A concrete replay *)

Module SessionSample.
Definition day1 : Time := day_of (2024, 1, 2) * day_ns.
Definition day2 : Time := day_of (2024, 1, 3) * day_ns.
Definition sym : bytes := lit "600000.SH".
Definition bar (t : Time) (p : Z) : OHLCV.t :=
  OHLCV.Mk sym t (f64_of_Z p) (f64_of_Z p) (f64_of_Z p) (f64_of_Z p) (f64_of_Z 1000000).
Definition data (p1 p2 : Z) : gmap bytes (list OHLCV.t) := {[ sym := [bar day1 p1; bar day2 p2] ]}.
Definition buy (algo : bytes) : StrategySignal :=
  MkStrategySignal sym (lit "buy") (flit 5 1) f0 None (DirectionOther []) (OrderTypeOther []) f0 algo 2 [].
(** Buys at every bar. *)
Definition strat : Strategy (list StrategySignal) unit :=
  Streaming (fun _ x => (Ok tt, x ++ [buy []])) (fun x => (x, [])).
#[export] Instance trader : SessionTrader (MockTrader unit) trader_error :=
  @Mock_SessionTrader unit (fun _ s => (true, s)) (fun m => [digit (Z.of_nat (size (orders m)))]) 0 sorted_order.
Definition account : MockTrader unit :=
  NewMockTrader (MkConfig f0 f0 f0 f0 f0 f0 [] f0 f0) None None.
Definition session : PaperSession (MockTrader unit) (list StrategySignal) Clock.VirtualClock :=
  NewPaperSession (NewBarReplayFeed (Clock.NewVirtualClock day1)) account [].
Definition run (p1 p2 : Z) := Run strat (Some [day1; day2]) (Some (data p1 p2)) [sym] session.
Definition fills_of (p1 p2 : Z) : list PaperFill := match (run p1 p2).1 with Ok f => f | Err _ => [] end.
Definition sliced : DomainSignal :=
  MkDomainSignal sym day1 DirectionLong (flit 5 1) (flit 5 1) f0 OrderTypeMarket (lit "twap") 2 [].
Definition fresh_run : BacktestState :=
  MkState (lit "run-1") (NewTracker (f64_of_Z 1000000) f0 f0 DefaultTradingConfig) ∅ NewDispatcher newExecAlgoRunDiag.
End SessionSample.
Import SessionSample.

Lemma replay_sees_no_future_witness :
  length (fills_of 10 11) = 2%nat /\ fills_of 10 11 <> fills_of 10 99
  /\ kept (dayKey day1) (fills_of 10 11) = kept (dayKey day1) (fills_of 10 99).
Proof.
  split; [vm_compute; reflexivity|]. split; [intros E; vm_compute in E; discriminate E|].
  refine (replay_sees_no_future strat [day1; day2] (data 10 11) (data 10 99) [sym] (dayKey day1) session
            (run 10 11).2 (run 10 99).2 _ _ _ _ _ _ _).
  - discriminate.
  - repeat constructor; vm_compute; discriminate.
  - intros s Hs. apply list_elem_of_singleton in Hs as ->. vm_compute. reflexivity.
  - vm_compute. reflexivity.
  - vm_compute. reflexivity.
Defined.

Lemma session_runs_once_witness :
  (Run strat (Some [day1]) (Some (data 10 11)) [sym] (run 10 11).2).1 = Err AlreadyRun.
Proof.
  pose proof (session_runs_once strat (Some [day1; day2]) (Some [day1]) (Some (data 10 11)) (Some (data 10 11)) [sym] [sym]
                session ltac:(discriminate) ltac:(discriminate)) as H.
  change (Run strat (Some [day1; day2]) (Some (data 10 11)) [sym] session) with (run 10 11) in H.
  destruct (run 10 11) as [r1 ps1]. destruct H as [H _]. cbn [snd]. rewrite H. reflexivity.
Defined.


Lemma session_sends_the_bridge_order_witness :
  let s := open_day {[ sym := bar day1 10 ]} (ps_run session) in
  let sig := MkDomainSignal sym day1 DirectionLong (flit 5 1) (flit 5 1) f0 OrderTypeLimit [] 0 [] in
  (BridgeExecuteSignal sig (f64_of_Z 10) (Some (rs_trader s))).2 = Some (rs_trader (executeSignal day1 sig s).2)
  /\ cash (rs_trader (executeSignal day1 sig s).2) <> cash account.
Proof.
  intros s sig. split; [|intros E; vm_compute in E; discriminate E].
  pose proof (session_sends_the_bridge_order day1 sig s (barToQuote (bar day1 10))) as H.
  change (q_Close (barToQuote (bar day1 10))) with (f64_of_Z 10) in H.
  assert (E : currentBars s !! ds_Symbol sig = Some (barToQuote (bar day1 10))) by (vm_compute; reflexivity).
  specialize (H E ltac:(vm_compute; reflexivity)).
  destruct (executeSignal day1 sig s) as [paper s'], (BridgeExecuteSignal sig (f64_of_Z 10) (Some (rs_trader s))) as [b t'].
  exact (proj1 H).
Defined.
