(* ===== verification/Metrics.v ===== *)
(** * Metrics: the figures of a finished run

    src/pkg/backtest/metrics/performance.go: returns, Sharpe, Sortino and
    Calmar ratios, drawdown, value at risk and the statistics of closed
    trades, and the result they are gathered in. The power function and the
    order of map iteration and of the sort are parameters. *)

From stdpp Require Import base list strings gmap sorting.
From Stdlib Require Import ZArith Lia SpecFloat.
From S2P Require Import Prelude GoMap GoFloat Domain GoSlice RiskManager BacktestEngine Auction.

Open Scope Z_scope.

(** ** Returns and drawdown *)

Fixpoint CalculateReturns (values : list PortfolioValue.t) : list float64 :=
  match values with
  | prev :: ((curr :: _) as rest) =>
      let prevValue := PortfolioValue.TotalValue prev in
      let currValue := PortfolioValue.TotalValue curr in
      if (prevValue >? f0)%f64 then ((currValue - prevValue) / prevValue)%f64 :: CalculateReturns rest
      else CalculateReturns rest
  | _ => []
  end.

(** The running peak, the largest drawdown so far and its date. *)
Definition drawdown_step (st : float64 * float64 * Time) (pv : PortfolioValue.t) : float64 * float64 * Time :=
  let '(peak, maxDrawdown, date) := st in
  let peak := if (PortfolioValue.TotalValue pv >? peak)%f64 then PortfolioValue.TotalValue pv else peak in
  let drawdown := ((peak - PortfolioValue.TotalValue pv) / peak)%f64 in
  if (drawdown >? maxDrawdown)%f64 then (peak, drawdown, PortfolioValue.Date pv) else (peak, maxDrawdown, date).

Definition CalculateMaxDrawdown (values : list PortfolioValue.t) : float64 * Time :=
  match values with
  | [] => (f0, 0)
  | first :: _ =>
      let '(_, maxDrawdown, date) :=
        foldl drawdown_step (PortfolioValue.TotalValue first, f0, PortfolioValue.Date first) values in
      (fneg maxDrawdown, date)
  end.

(** ** Ratios *)

Definition f252 : float64 := f64_of_Z 252.

Definition CalculateSharpeRatio (returns : list float64) (riskFreeRate : float64) : float64 :=
  if (length returns <? 2)%nat then f0
  else
    let stdDev := SampleStdDev returns in
    if (stdDev =? f0)%f64 then f0
    else ((Mean returns - riskFreeRate / f252) / stdDev * Sqrt f252)%f64.

Definition filterNegative (values : list float64) : list float64 := List.filter (fun v => (v <? f0)%f64) values.

(** [math.MaxFloat64]. *)
Definition MaxFloat64 : float64 := S754_finite false (2 ^ 53 - 1) 971.

Definition CalculateSortinoRatio (returns : list float64) (riskFreeRate : float64) : float64 :=
  if (length returns <? 2)%nat then f0
  else
    match filterNegative returns with
    | [] => MaxFloat64
    | downsideReturns =>
        let downsideDev := SampleStdDev downsideReturns in
        if (downsideDev =? f0)%f64 then f0
        else ((Mean returns - riskFreeRate / f252) / downsideDev * Sqrt f252)%f64
    end.

Definition CalculateCalmarRatio (annualReturn maxDrawdown : float64) : float64 :=
  if (maxDrawdown =? f0)%f64 then f0 else (annualReturn / maxDrawdown)%f64.

Definition metric_volatility (returns : list float64) : float64 :=
  if (length returns <? 2)%nat then f0 else (SampleStdDev returns * Sqrt f252)%f64.

(** Years between two dates: hours over 24 * 365.25. *)
Definition years_between (from to_ : Time) : float64 := (hours_between to_ from / f64_of_Z 8766)%f64.

Section Annual.
Context `{!GoMath}.

Definition calculateAnnualizedReturn (values : list PortfolioValue.t) : float64 :=
  if (length values <? 2)%nat then f0
  else match head values, last values with
       | Some first, Some final =>
           let startValue := PortfolioValue.TotalValue first in
           if (startValue <=? f0)%f64 then f0
           else
             let years := years_between (PortfolioValue.Date first) (PortfolioValue.Date final) in
             if (years <? flit 1 2)%f64 then f0
             else (Pow (PortfolioValue.TotalValue final / startValue) (f1 / years) - f1)%f64
       | _, _ => f0
       end.
End Annual.

(** ** Value at risk *)

Section Tail.
Context `{!SliceSort}.

(** The index of the tail's end. *)
Definition tail_index (n : nat) (confidence : float64) : Z :=
  let idx := f64_to_int64 (f64_of_Z (Z.of_nat n) * (f1 - confidence))%f64 in
  if Z.of_nat n <=? idx then Z.of_nat n - 1 else idx.

Definition metric_VaR (returns : list float64) (confidence : float64) : float64 :=
  let sorted := Slice float_less returns in
  default f0 (sorted !! Z.to_nat (tail_index (length sorted) confidence)).

Definition metric_CVaR (returns : list float64) (confidence : float64) : float64 :=
  let sorted := Slice float_less returns in
  let idx := tail_index (length sorted) confidence in
  if (length returns =? 0)%nat then f0
  else if idx =? 0 then default f0 (sorted !! 0%nat)
  else (foldl fadd f0 (take (Z.to_nat (idx + 1)) sorted) / f64_of_Z (idx + 1))%f64.
End Tail.

(** ** Closed trades *)

(** The open position of a symbol while its trades are read. *)
Record open_leg := MkLeg { lg_Price : float64; lg_Time : Time; lg_Qty : float64; lg_Dir : option Direction }.
Definition no_leg : open_leg := MkLeg f0 0 f0 None.

Record tally := MkTally { ty_win : Z; ty_lose : Z; ty_days : float64; ty_count : Z }.
Definition no_tally : tally := MkTally 0 0 f0 0.

(** An exit with its profit, before the closing commission. *)
Definition count_exit (pnl : float64) (trade : Trade.t) (leg : open_leg) (t : tally) : tally :=
  let holdingDays := (hours_between (Trade.Timestamp trade) (lg_Time leg) / f64_of_Z 24)%f64 in
  let won := (pnl - Trade.Commission trade >? f0)%f64 in
  MkTally (if won then ty_win t + 1 else ty_win t) (if won then ty_lose t else ty_lose t + 1)
    (ty_days t + holdingDays)%f64 (ty_count t + 1).

Definition metric_abs (x : float64) : float64 := if (x <? f0)%f64 then fneg x else x.

Definition fresh_leg (trade : Trade.t) (qty : float64) (dir : Direction) : open_leg :=
  MkLeg (Trade.Price trade) (Trade.Timestamp trade) qty (Some dir).

Definition read_trade (st : open_leg * tally) (trade : Trade.t) : open_leg * tally :=
  let '(leg, t) := st in
  let q := Trade.Quantity trade in
  match Trade.Direction trade with
  | DirectionLong =>
      if (lg_Qty leg =? f0)%f64 then (fresh_leg trade q DirectionLong, t)
      else if bool_decide (lg_Dir leg = Some DirectionLong) then
        let newQty := (lg_Qty leg + q)%f64 in
        (MkLeg ((lg_Price leg * lg_Qty leg + Trade.Price trade * q) / newQty)%f64 (lg_Time leg) newQty (lg_Dir leg), t)
      else
        let t := if (lg_Qty leg <? f0)%f64
                 then count_exit ((lg_Price leg - Trade.Price trade) * metric_abs (lg_Qty leg))%f64 trade leg t else t in
        (fresh_leg trade q DirectionLong, t)
  | DirectionShort =>
      if (lg_Qty leg =? f0)%f64 then (fresh_leg trade (fneg q) DirectionShort, t)
      else if bool_decide (lg_Dir leg = Some DirectionShort) then
        let newQty := (lg_Qty leg - q)%f64 in
        (MkLeg ((lg_Price leg * metric_abs (lg_Qty leg) + Trade.Price trade * q) / metric_abs newQty)%f64 (lg_Time leg)
           newQty (lg_Dir leg), t)
      else
        let t := if (lg_Qty leg >? f0)%f64
                 then count_exit ((Trade.Price trade - lg_Price leg) * lg_Qty leg)%f64 trade leg t else t in
        (fresh_leg trade (fneg q) DirectionShort, t)
  | DirectionClose =>
      let '(qty, t) :=
        if (lg_Qty leg >? f0)%f64 then
          let closed := fmin q (lg_Qty leg) in
          ((lg_Qty leg - closed)%f64, count_exit ((Trade.Price trade - lg_Price leg) * closed)%f64 trade leg t)
        else if (lg_Qty leg <? f0)%f64 then
          let closed := fmin q (metric_abs (lg_Qty leg)) in
          ((lg_Qty leg + closed)%f64, count_exit ((lg_Price leg - Trade.Price trade) * closed)%f64 trade leg t)
        else (lg_Qty leg, t) in
      if (metric_abs qty <? flit 1 8)%f64 then (MkLeg f0 (lg_Time leg) f0 None, t)
      else (MkLeg (lg_Price leg) (lg_Time leg) qty (lg_Dir leg), t)
  | _ => (leg, t)
  end.

(** The trades of one symbol. *)
Definition read_symbol (t : tally) (trades : list Trade.t) : tally := (foldl read_trade (no_leg, t) trades).2.

Record TradeStats := MkStats {
  WinRate : float64; TotalTrades : Z; WinTrades : Z; LoseTrades : Z; AvgHoldingDays : float64
}.

Section Trades.
Context `{!MapOrder}.

Definition calculateTradeMetrics (trades : list Trade.t) : TradeStats :=
  match trades with
  | [] => MkStats f0 0 0 0 f0
  | _ =>
      let t := foldl (fun t kv => read_symbol t kv.2) no_tally (range 0 (group_by Trade.Symbol trades)) in
      let total := ty_win t + ty_lose t in
      let winRate := if 0 <? total then (f64_of_Z (ty_win t * 100) / f64_of_Z total)%f64 else f0 in
      let avg := if 0 <? ty_count t then (ty_days t / f64_of_Z (ty_count t))%f64 else f0 in
      MkStats (winRate / f64_of_Z 100)%f64 total (ty_win t) (ty_lose t) avg
  end.
End Trades.

(** ** The results *)

Record RiskMetrics := MkRiskMetrics {
  rm_Volatility : float64; rm_Sharpe : float64; rm_Sortino : float64; rm_MaxDrawdown : float64;
  rm_MaxDrawdownDate : Time; rm_VaR95 : float64; rm_CVaR95 : float64
}.

Definition CalculateMetrics `{!SliceSort} (values : list PortfolioValue.t) (riskFreeRate : float64) : RiskMetrics :=
  let zero := MkRiskMetrics f0 f0 f0 f0 0 f0 f0 in
  if (length values <? 2)%nat then zero
  else
    let returns := CalculateReturns values in
    match returns with
    | [] => zero
    | _ =>
        let '(maxDD, maxDDDate) := CalculateMaxDrawdown values in
        MkRiskMetrics (metric_volatility returns) (CalculateSharpeRatio returns riskFreeRate)
          (CalculateSortinoRatio returns riskFreeRate) maxDD maxDDDate
          (metric_VaR returns (flit 95 2)) (metric_CVaR returns (flit 95 2))
    end.

Section Result.
Context `{!GoMath} `{!MapOrder}.

(** [CalculateTradeMetrics]: the statistics and the Calmar ratio. *)
Definition CalculateTradeMetrics (trades : list Trade.t) (values : list PortfolioValue.t) : TradeStats * float64 :=
  match trades with
  | [] => (MkStats f0 0 0 0 f0, f0)
  | _ =>
      (calculateTradeMetrics trades,
       CalculateCalmarRatio (calculateAnnualizedReturn values) (Abs (CalculateMaxDrawdown values).1))
  end.

Record RunResult := MkRunResult {
  br_TotalReturn : float64; br_AnnualReturn : float64; br_Sharpe : float64; br_Sortino : float64;
  br_MaxDrawdown : float64; br_MaxDrawdownDate : Time; br_Stats : TradeStats; br_Calmar : float64;
  br_Values : list PortfolioValue.t; br_Trades : list Trade.t
}.

(** The dates of the run are copied and left out. *)
Definition GenerateBacktestResult (values : list PortfolioValue.t) (trades : list Trade.t) (riskFreeRate : float64)
    : RunResult :=
  match head values, last values with
  | Some first, Some final =>
      let startValue := PortfolioValue.TotalValue first in
      let totalReturn := if (startValue >? f0)%f64
                         then ((PortfolioValue.TotalValue final - startValue) / startValue)%f64 else f0 in
      let years := years_between (PortfolioValue.Date first) (PortfolioValue.Date final) in
      let annualReturn := if (years >? f0)%f64 && (startValue >? f0)%f64
                          then (Pow (f1 + totalReturn) (f1 / years) - f1)%f64 else totalReturn in
      let returns := CalculateReturns values in
      let '(maxDD, maxDDDate) := CalculateMaxDrawdown values in
      MkRunResult totalReturn annualReturn (CalculateSharpeRatio returns riskFreeRate)
        (CalculateSortinoRatio returns riskFreeRate) maxDD maxDDDate (calculateTradeMetrics trades)
        (CalculateCalmarRatio annualReturn (Abs maxDD)) values trades
  | _, _ => MkRunResult f0 f0 f0 f0 f0 0 (MkStats f0 0 0 0 f0) f0 [] []
  end.
End Result.
