(* ===== verification/MetricProps.v ===== *)
(** * MetricProps: what the figures of a run mean

    The drawdown is the worst loss from a running peak; the trade counts do
    not depend on the order in which the symbols are visited; and the day the
    engine records twice shows up as a return of zero. *)

From stdpp Require Import base list strings gmap sorting.
From Stdlib Require Import ZArith Lia SpecFloat.
From S2P Require Import Prelude GoMap GoFloat FloatInt FloatRound Domain GoSlice RiskManager BacktestEngine Auction Metrics.

Open Scope Z_scope.

(** ** Drawdown *)

Abbreviation worth := PortfolioValue.TotalValue.

(** [peak] is the highest of the values. *)
Definition is_peak (peak : float64) (l : list PortfolioValue.t) : Prop :=
  (exists pv, pv ∈ l /\ worth pv = peak) /\ Forall (fun pv => flt peak (worth pv) = false) l.

Definition fall (peak : float64) (pv : PortfolioValue.t) : float64 := ((peak - worth pv) / peak)%f64.

(** The running state of the loop over the values seen so far. *)
Record worst_so_far (seen : list PortfolioValue.t) (st : float64 * float64 * Time) : Prop := {
  ws_peak : is_peak st.1.1 seen;
  ws_floor : fle f0 st.1.2 = true;
  ws_max : forall pre pv post, seen = pre ++ pv :: post ->
             exists peak, is_peak peak (pre ++ [pv]) /\ flt st.1.2 (fall peak pv) = false;
  ws_at : st.1.2 = f0 \/ exists pre pv post peak,
             seen = pre ++ pv :: post /\ is_peak peak (pre ++ [pv]) /\ st.1.2 = fall peak pv /\ st.2 = PortfolioValue.Date pv
}.

Lemma flt_nan_value x y : is_nan y = true -> flt x y = false.
Proof. destruct x, y; done. Qed.

Lemma peak_step peak pv seen :
  is_nan (worth pv) = false -> Forall (fun x => is_nan (worth x) = false) seen -> is_peak peak seen ->
  is_peak (if flt peak (worth pv) then worth pv else peak) (seen ++ [pv]).
Proof.
  intros Hn Hs [(x & Hx & Hw) Hall]. assert (Np : is_nan peak = false) by (rewrite Forall_forall in Hs; rewrite <- Hw; by apply Hs).
  destruct (flt peak (worth pv)) eqn:E; split.
  - exists pv. split; [set_solver|done].
  - apply Forall_app. split; [|constructor; [apply flt_irrefl|done]]. rewrite Forall_forall in Hall, Hs |- *. intros y Hy.
    apply (fle_trans_nan (worth y) peak (worth pv)); [by apply Hs|done..|by apply Hall|by apply flt_asym].
  - exists x. split; [set_solver|done].
  - apply Forall_app. split; [done|]. by constructor.
Qed.

(** A split of a longer list ends before its last element or at it. *)
Lemma split_snoc {A} (seen : list A) x pre y post :
  seen ++ [x] = pre ++ y :: post -> (post = [] /\ pre = seen /\ y = x) \/ exists post', post = post' ++ [x] /\ seen = pre ++ y :: post'.
Proof.
  intros H. destruct post as [|z post] using rev_ind.
  - apply app_inj_tail in H as [-> ->]. by left.
  - right. exists post. replace (pre ++ y :: post ++ [z]) with ((pre ++ y :: post) ++ [z]) in H by (by rewrite <- app_assoc).
    apply app_inj_tail in H as [-> ->]. done.
Qed.

Lemma drawdown_step_worst seen st pv :
  is_nan (worth pv) = false -> Forall (fun x => is_nan (worth x) = false) seen ->
  worst_so_far seen st -> worst_so_far (seen ++ [pv]) (drawdown_step st pv).
Proof.
  intros Hn Hs [H1 H2 H3 H4]. destruct st as [[peak dd] date]. cbn [fst snd] in *. unfold drawdown_step.
  pose proof (peak_step peak pv seen Hn Hs H1) as Hp. set (peak' := if flt peak (worth pv) then worth pv else peak) in *.
  fold (fall peak' pv). assert (Nd : is_nan dd = false) by (by destruct dd).
  destruct (flt dd (fall peak' pv)) eqn:E; constructor; cbn [fst snd]; try done.
  - destruct (flt_not_nan _ _ E) as [_ Nf]. apply fnot_gt_le; [done..|].
    apply (fle_trans_nan f0 dd); [done..|by apply fle_not_gt|by apply flt_asym].
  - intros pre y post Hy. apply split_snoc in Hy as [(-> & -> & ->)|(post' & -> & ->)].
    + exists peak'. split; [done|]. apply flt_irrefl.
    + destruct (H3 pre y post' eq_refl) as (pk & Hpk & Hf). exists pk. split; [done|].
      destruct (is_nan (fall pk y)) eqn:Ny; [by apply flt_nan_value|]. destruct (flt_not_nan _ _ E) as [_ Nf].
      apply (fle_trans_nan (fall pk y) dd); [done..|]. by apply flt_asym.
  - right. exists seen, pv, [], peak'. done.
  - intros pre y post Hy. apply split_snoc in Hy as [(-> & -> & ->)|(post' & -> & ->)]; [by exists peak'|eauto].
  - destruct H4 as [H4|(pre & y & post & pk & -> & Hpk & Hf & Hd)]; [by left|].
    right. exists pre, y, (post ++ [pv]), pk. split_and!; [by rewrite <- app_assoc|done..].
Qed.

Lemma drawdown_fold_worst l : forall seen st,
  Forall (fun x => is_nan (worth x) = false) (seen ++ l) -> worst_so_far seen st ->
  worst_so_far (seen ++ l) (foldl drawdown_step st l).
Proof.
  induction l as [|pv l IH]; intros seen st Hs Hw; cbn [foldl]; [by rewrite app_nil_r|].
  replace (seen ++ pv :: l) with ((seen ++ [pv]) ++ l) in * by (by rewrite <- app_assoc). apply IH; [done|].
  apply Forall_app in Hs as [Hs _]. apply Forall_app in Hs as [Hs Hp]. apply Forall_cons in Hp as [Hp _].
  by apply drawdown_step_worst.
Qed.

Lemma fsub_self x : ffinite x = true -> (x - x)%f64 = f0.
Proof.
  destruct x as [s| | |s m e]; try done; [by destruct s|]. intros _. unfold fsub, SFsub.
  rewrite Z.min_id. destruct (shl_align m e e) as [m' e']. cbn [fst]. by rewrite Z.sub_diag.
Qed.

(** C34. The maximum drawdown is the worst fall from a peak. For values that
    are positive and finite it is the negative of a number that no day's fall
    from the highest value up to that day exceeds; unless it is zero, it is
    the fall of the day it is dated with. *)
Theorem drawdown_is_worst_fall values :
  values <> [] -> Forall (fun pv => flt f0 (worth pv) = true /\ ffinite (worth pv) = true) values ->
  exists worst, (CalculateMaxDrawdown values).1 = fneg worst /\ fle f0 worst = true
  /\ (forall pre pv post, values = pre ++ pv :: post ->
        exists peak, is_peak peak (pre ++ [pv]) /\ flt worst (fall peak pv) = false)
  /\ (worst = f0 \/ exists pre pv post peak, values = pre ++ pv :: post /\ is_peak peak (pre ++ [pv])
        /\ worst = fall peak pv /\ (CalculateMaxDrawdown values).2 = PortfolioValue.Date pv).
Proof.
  intros Hne Hv. destruct values as [|first rest]; [done|]. unfold CalculateMaxDrawdown.
  assert (Hnan : Forall (fun x => is_nan (worth x) = false) (first :: rest)).
  { eapply Forall_impl; [exact Hv|]. intros x [_ Hx]. by destruct (worth x). }
  cbn [foldl]. pose proof Hv as Hv'. apply Forall_cons in Hv' as [[Hp Hf] _].
  assert (Hstart : drawdown_step (worth first, f0, PortfolioValue.Date first) first = (worth first, f0, PortfolioValue.Date first)).
  { unfold drawdown_step. rewrite flt_irrefl, fsub_self by done.
    assert ((f0 / worth first)%f64 = f0) as -> by (destruct (worth first) as [|[]| |[]]; done). done. }
  rewrite Hstart. pose proof (drawdown_fold_worst rest [first] (worth first, f0, PortfolioValue.Date first) Hnan) as Hw.
  destruct Hw as [_ W2 W3 W4].
  { constructor; cbn [fst snd]; [|done| |by left].
    - split; [exists first; split; [by left|done]|]. constructor; [apply flt_irrefl|done].
    - intros pre pv post E. assert (pre = [] /\ pv = first) as [-> ->] by (destruct pre as [|? []]; cbn in E; [by injection E as -> _|done|done]).
      exists (worth first). split.
      + split; [exists first; split; [by left|done]|]. constructor; [apply flt_irrefl|done].
      + unfold fall. rewrite fsub_self by done. destruct (worth first) as [|[]| |[]]; done. }
  destruct (foldl drawdown_step _ rest) as [[pk dd] date]. cbn [fst snd app] in *. by exists dd.
Qed.

(** ** The day that is recorded twice *)

(** The last day counts twice. The engine records the last trading day a
    second time, after it has closed what is held; when that left the value as
    it was, the returns are those without the copy and a return of zero, which
    enters the mean and the deviation of every ratio. *)
Theorem copied_day_adds_zero_return values last copy :
  flt f0 (worth last) = true -> ffinite (worth last) = true -> worth copy = worth last ->
  CalculateReturns (values ++ [last; copy]) = CalculateReturns (values ++ [last]) ++ [f0].
Proof.
  intros Hp Hf Hc. induction values as [|x values IH]; cbn [app].
  - cbn [CalculateReturns]. rewrite Hp, Hc, fsub_self by done. cbn [app]. f_equal. destruct (worth last) as [|[]| |[]]; done.
  - destruct values as [|y values']; cbn [app] in *; cbn [CalculateReturns] in *;
      (destruct (flt f0 (worth x)); [cbn [app]; f_equal|]; exact IH).
Qed.

(** ** Trade counts *)

(** Equal triples of integers. *)
Ltac triple := repeat (apply (f_equal2 pair)); lia.

(** Wins, losses and exits, component-wise. *)
Definition ints (t : tally) : Z * Z * Z := (ty_win t, ty_lose t, ty_count t).
Definition add3 (a b : Z * Z * Z) : Z * Z * Z := (a.1.1 + b.1.1, a.1.2 + b.1.2, a.2 + b.2).

(** Reading a trade moves the position and adds to the counts whatever the
    counts were. *)
Lemma read_trade_adds leg tr : exists leg' d, forall t, exists t', read_trade (leg, t) tr = (leg', t') /\ ints t' = add3 (ints t) d.
Proof.
  assert (Hstay : forall l : open_leg, exists leg' d, forall t, exists t', (l, t) = (leg', t') /\ ints t' = add3 (ints t) d).
  { intros l. exists l, (0, 0, 0). intros t. exists t. split; [done|]. unfold add3, ints. cbn. triple. }
  assert (Hexit : forall (l : open_leg) pnl, exists leg' d, forall t, exists t', (l, count_exit pnl tr leg t) = (leg', t') /\ ints t' = add3 (ints t) d).
  { intros l pnl. exists l, (ints (count_exit pnl tr leg no_tally)). intros t. eexists. split; [done|].
    unfold count_exit, ints, add3. cbn. destruct (flt _ _); cbn; triple. }
  unfold read_trade. destruct (Trade.Direction tr); try apply Hstay.
  - destruct (feq _ _); [apply Hstay|]. case_bool_decide; [apply Hstay|]. destruct (flt _ _); [apply Hexit|apply Hstay].
  - destruct (feq _ _); [apply Hstay|]. case_bool_decide; [apply Hstay|]. destruct (flt _ _); [apply Hexit|apply Hstay].
  - destruct (flt f0 (lg_Qty leg)); [|destruct (flt (lg_Qty leg) f0)];
      (destruct (flt (metric_abs _) _); apply Hexit || apply Hstay).
Qed.

Lemma read_symbol_adds trades t : ints (read_symbol t trades) = add3 (ints t) (ints (read_symbol no_tally trades)).
Proof.
  unfold read_symbol. assert (Hgen : forall leg t1 t2,
    exists d, ints (foldl read_trade (leg, t1) trades).2 = add3 (ints t1) d /\ ints (foldl read_trade (leg, t2) trades).2 = add3 (ints t2) d).
  { induction trades as [|tr trades IH]; intros leg t1 t2; cbn [foldl].
    - exists (0, 0, 0). unfold add3, ints. cbn. split; triple.
    - destruct (read_trade_adds leg tr) as (leg' & d & Hd). destruct (Hd t1) as (t1' & -> & E1), (Hd t2) as (t2' & -> & E2).
      destruct (IH leg' t1' t2') as (d' & -> & ->). exists (add3 d d'). rewrite E1, E2. unfold add3. cbn.
      split; triple. }
  destruct (Hgen no_leg t no_tally) as (d & -> & ->). unfold add3, ints. cbn. triple.
Qed.

Lemma read_symbols_perm (l1 l2 : list (bytes * list Trade.t)) t :
  l1 ≡ₚ l2 -> ints (foldl (fun t (kv : bytes * list Trade.t) => read_symbol t kv.2) t l1) = ints (foldl (fun t (kv : bytes * list Trade.t) => read_symbol t kv.2) t l2).
Proof.
  intros Hp. assert (Hsum : forall (l : list (bytes * list Trade.t)) t, ints (foldl (fun t (kv : bytes * list Trade.t) => read_symbol t kv.2) t l)
    = add3 (ints t) (foldr (fun (kv : bytes * list Trade.t) acc => add3 (ints (read_symbol no_tally kv.2)) acc) (0, 0, 0) l)).
  { induction l as [|kv l IH]; intros t'; cbn [foldl foldr].
    - unfold add3, ints. cbn. triple.
    - rewrite IH, read_symbol_adds. unfold add3. cbn. triple. }
  rewrite !Hsum. f_equal. induction Hp as [|x l l' Hp IH|x y l|l l' l'' _ IH1 _ IH2]; cbn [foldr]; [done|by rewrite IH| |congruence].
  unfold add3. cbn. triple.
Qed.

(** Trade counts are determinate. The trades of a run are read symbol by
    symbol in the order of a map, which differs between runs: the numbers of
    closed, won and lost trades and the win rate do not depend on it. *)
Theorem trade_counts_ignore_map_order (o1 o2 : MapOrder) trades :
  let s1 := @calculateTradeMetrics o1 trades in let s2 := @calculateTradeMetrics o2 trades in
  TotalTrades s1 = TotalTrades s2 /\ WinTrades s1 = WinTrades s2 /\ LoseTrades s1 = LoseTrades s2 /\ WinRate s1 = WinRate s2
  /\ TotalTrades s1 = WinTrades s1 + LoseTrades s1.
Proof.
  cbv zeta. unfold calculateTradeMetrics. destruct trades as [|tr trades]; [done|].
  set (m := group_by Trade.Symbol (tr :: trades)).
  assert (Hp : @range o1 _ 0 m ≡ₚ @range o2 _ 0 m).
  { transitivity (map_to_list m); [|symmetry]; apply range_perm. }
  pose proof (read_symbols_perm _ _ no_tally Hp) as Hi.
  destruct (foldl _ no_tally (@range o1 _ 0 m)) as [w1 l1 d1 c1], (foldl _ no_tally (@range o2 _ 0 m)) as [w2 l2 d2 c2].
  unfold ints in Hi. cbn in Hi. injection Hi as -> -> ->. cbn. done.
Qed.

(** ** Concrete values *)

Definition day_value (d v : Z) : PortfolioValue.t := PortfolioValue.Mk (d * day_ns) (f64_of_Z v) f0 f0.
Definition three_days : list PortfolioValue.t := [day_value 1 100; day_value 2 120; day_value 3 90].

Lemma drawdown_is_worst_fall_witness :
  CalculateMaxDrawdown three_days = (fneg (flit 25 2), 3 * day_ns)
  /\ exists worst, (CalculateMaxDrawdown three_days).1 = fneg worst /\ fle f0 worst = true.
Proof.
  split; [vm_compute; reflexivity|].
  destruct (drawdown_is_worst_fall three_days) as (worst & H1 & H2 & _).
  - discriminate.
  - repeat constructor.
  - exists worst. split; [exact H1|exact H2].
Defined.

Lemma copied_day_adds_zero_return_witness :
  CalculateReturns (three_days ++ [day_value 4 90; day_value 4 90]) = CalculateReturns (three_days ++ [day_value 4 90]) ++ [f0].
Proof.
  apply (copied_day_adds_zero_return three_days (day_value 4 90) (day_value 4 90)); vm_compute; reflexivity.
Defined.
