(* ===== verification/MarketBars.v ===== *)
(** * MarketBars: bars of several frequencies and when they become visible

    src/pkg/domain/market (frequency.go, visibility.go), and of
    src/pkg/marketdata the aggregation of minute bars (aggregate.go) and the
    routing of a request to a table (router.go). The rows of the two tables
    are what the database answers. *)

From stdpp Require Import base list strings gmap.
From Stdlib Require Import ZArith Lia.
From S2P Require Import Prelude GoMap GoFloat Domain GoSlice.

Open Scope Z_scope.

(** ** Frequencies and visibility *)

Inductive Frequency := Freq1m | Freq15m | Freq1d | FreqOther (s : bytes).

#[global] Instance Frequency_eq_dec : EqDecision Frequency.
Proof. solve_decision. Defined.

Definition FreqValid (f : Frequency) : bool :=
  match f with Freq1m | Freq15m | Freq1d => true | FreqOther _ => false end.

Definition ParseFrequency (s : bytes) : option Frequency :=
  if bool_decide (s = lit "1m") then Some Freq1m
  else if bool_decide (s = lit "15m") then Some Freq15m
  else if bool_decide (s = lit "1d") then Some Freq1d
  else None.

Definition IsIntraday (f : Frequency) : bool := match f with Freq1m | Freq15m => true | _ => false end.

Definition IntradayMinutes (f : Frequency) : option Z := match f with Freq1m => Some 1 | Freq15m => Some 15 | _ => None end.

Definition minute_ns : Z := 60000000000.
(** UTC+8. *)
Definition shanghai_offset : Z := 480 * minute_ns.

(** [market.OHLCV] without the trading days, which only the daily table fills
    and nothing here reads, and the limit flags, which stay at their zero values. *)
Record MarketBar := MkMarketBar {
  mb_Symbol : bytes; mb_Date : Time; mb_Open : float64; mb_High : float64; mb_Low : float64; mb_Close : float64;
  mb_Volume : float64; mb_Turnover : float64; mb_Frequency : Frequency; mb_VisibleAt : Time
}.

(** 15:00 in Shanghai of the calendar date of a UTC time. *)
Definition DailyVisibleAt (tradeDate : Time) : Time := tradeDate / day_ns * day_ns + 15 * 60 * minute_ns - shanghai_offset.

Definition IntradayVisibleAt (barStart : Time) (minutes : Z) : Time := barStart + minutes * minute_ns.

Definition VisibleBy (b : MarketBar) (asOf : Time) : bool := negb (IsZero (mb_VisibleAt b)) && (mb_VisibleAt b <=? asOf).

(** ** Sessions and buckets (aggregate.go) *)

Definition auctionOpenMin : Z := 9 * 60 + 15.
Definition morningOpenMin : Z := 9 * 60 + 30.
Definition morningCloseMin : Z := 11 * 60 + 30.
Definition afternoonOpenMin : Z := 13 * 60.
Definition afternoonCloseMin : Z := 15 * 60.
Definition bucketMinutes : Z := 15.

(** The Shanghai clock: the day, the minute of the day and what is past it. *)
Definition local_day (ts : Time) : Z := (ts + shanghai_offset) / day_ns.
Definition local_minute (ts : Time) : Z := (ts + shanghai_offset) mod day_ns / minute_ns.
Definition on_minute (ts : Time) : bool := (ts + shanghai_offset) mod minute_ns =? 0.

Inductive session_fault := BeforeOpen | InLunchBreak | AfterClose.

Definition checkInSession (ts : Time) : res session_fault unit :=
  let hm := local_minute ts in
  if hm <? auctionOpenMin then Err BeforeOpen
  else if hm <? morningCloseMin then Ok tt
  else if hm =? morningCloseMin then if on_minute ts then Ok tt else Err InLunchBreak
  else if hm <? afternoonOpenMin then Err InLunchBreak
  else if hm <? afternoonCloseMin then Ok tt
  else if hm =? afternoonCloseMin then if on_minute ts then Ok tt else Err AfterClose
  else Err AfterClose.

Definition bucket_minute (hm : Z) : Z :=
  if hm <? morningOpenMin then morningOpenMin
  else if hm <? morningCloseMin then morningOpenMin + Z.quot (hm - morningOpenMin) bucketMinutes * bucketMinutes
  else if hm =? morningCloseMin then morningCloseMin - bucketMinutes
  else if hm <? afternoonCloseMin then afternoonOpenMin + Z.quot (hm - afternoonOpenMin) bucketMinutes * bucketMinutes
  else afternoonCloseMin - bucketMinutes.

Definition bucketStart15m (ts : Time) : res session_fault Time :=
  let? _ := checkInSession ts in
  Ok (local_day ts * day_ns - shanghai_offset + bucket_minute (local_minute ts) * minute_ns).

Definition bucketStartDaily (ts : Time) : res session_fault Time :=
  let? _ := checkInSession ts in Ok (local_day ts * day_ns).

(** ** Aggregation *)

Inductive aggregate_error :=
| BadTarget (f : Frequency)
| NotOneMinute (i : nat)
| OutOfSession (ts : Time) (e : session_fault)
| SpanTooLong (span : Z)
| QueryFailed
| UnsupportedFrequency (f : Frequency).

Record acc := MkAcc {
  ac_open : float64; ac_close : float64; ac_high : float64; ac_low : float64; ac_volume : float64; ac_turnover : float64
}.

Definition acc_of (b : MarketBar) : acc :=
  MkAcc (mb_Open b) (mb_Close b) (mb_High b) (mb_Low b) (mb_Volume b) (mb_Turnover b).

Definition acc_add (a : acc) (b : MarketBar) : acc :=
  MkAcc (ac_open a) (mb_Close b) (if (mb_High b >? ac_high a)%f64 then mb_High b else ac_high a)
    (if (mb_Low b <? ac_low a)%f64 then mb_Low b else ac_low a)
    (ac_volume a + mb_Volume b)%f64 (ac_turnover a + mb_Turnover b)%f64.

Abbreviation bucketKey := (bytes * Time)%type.

Definition bar_start (target : Frequency) (ts : Time) : res session_fault Time :=
  if bool_decide (target = Freq15m) then bucketStart15m ts else bucketStartDaily ts.

(** The buckets and their keys in the order of the first bar. *)
Definition add_bar (target : Frequency) (st : res aggregate_error (gmap bucketKey acc * list bucketKey)) (b : MarketBar)
    : res aggregate_error (gmap bucketKey acc * list bucketKey) :=
  match st with
  | Err e => Err e
  | Ok (buckets, keys) =>
      match bar_start target (mb_Date b) with
      | Err e => Err (OutOfSession (mb_Date b) e)
      | Ok start =>
          let k := (mb_Symbol b, start) in
          match buckets !! k with
          | None => Ok (<[k := acc_of b]> buckets, keys ++ [k])
          | Some a => Ok (<[k := acc_add a b]> buckets, keys)
          end
      end
  end.

Definition minute_before (a b : MarketBar) : bool :=
  if negb (bool_decide (mb_Symbol a = mb_Symbol b)) then bytes_ltb (mb_Symbol a) (mb_Symbol b)
  else Before (mb_Date a) (mb_Date b).

Definition bucket_bar (target : Frequency) (k : bucketKey) (a : acc) : MarketBar :=
  let visible := if bool_decide (target = Freq15m) then IntradayVisibleAt k.2 bucketMinutes else DailyVisibleAt k.2 in
  MkMarketBar k.1 k.2 (ac_open a) (ac_high a) (ac_low a) (ac_close a) (ac_volume a) (ac_turnover a) target visible.

(** The first bar that is not declared as a minute bar. *)
Fixpoint first_undeclared (i : nat) (bars : list MarketBar) : option nat :=
  match bars with
  | [] => None
  | b :: rest => if bool_decide (mb_Frequency b = Freq1m) then first_undeclared (S i) rest else Some i
  end.

Section Aggregation.
Context `{!SliceSort}.

Definition Aggregate (bars : list MarketBar) (target : Frequency) : res aggregate_error (list MarketBar) :=
  if negb (bool_decide (target = Freq15m)) && negb (bool_decide (target = Freq1d)) then Err (BadTarget target)
  else match first_undeclared 0 bars with
  | Some i => Err (NotOneMinute i)
  | None =>
      match foldl (add_bar target) (Ok (∅, [])) (SliceStable minute_before bars) with
      | Err e => Err e
      | Ok (buckets, keys) =>
          Ok (Slice minute_before (omap (fun k => bucket_bar target k <$> buckets !! k) keys))
      end
  end.

(** ** Routing (router.go) *)

Definition maxIntradaySpan : Z := 366 * day_ns.

(** [end.Sub(start)] saturates at the range of a duration. *)
Definition checkIntradaySpan (start end_ : Time) : res aggregate_error unit :=
  let span := Z.max min_int64 (Z.min max_int64 (end_ - start)) in
  if span <=? maxIntradaySpan then Ok tt else Err (SpanTooLong span).

Definition loadDaily (rows : option (list MarketBar)) : res aggregate_error (list MarketBar) :=
  match rows with
  | None => Err QueryFailed
  | Some rs => Ok (map (fun o => MkMarketBar (mb_Symbol o) (mb_Date o) (mb_Open o) (mb_High o) (mb_Low o) (mb_Close o)
                                   (mb_Volume o) (mb_Turnover o) Freq1d (DailyVisibleAt (mb_Date o))) rs)
  end.

(** A row of the minute table: the volume is an integer and the amount may be NULL. *)
Record MinuteRow := MkMinuteRow {
  mr_Symbol : bytes; mr_Ts : Time; mr_Open : float64; mr_High : float64; mr_Low : float64; mr_Close : float64;
  mr_volume : Z; mr_amount : option float64
}.

Definition minute_row (o : MinuteRow) : MarketBar :=
  MkMarketBar (mr_Symbol o) (mr_Ts o) (mr_Open o) (mr_High o) (mr_Low o) (mr_Close o)
    (f64_of_Z (mr_volume o)) (default f0 (mr_amount o)) Freq1m (IntradayVisibleAt (mr_Ts o) 1).

Definition loadMinute (start end_ : Time) (rows : option (list MinuteRow)) : res aggregate_error (list MarketBar) :=
  let? _ := checkIntradaySpan start end_ in
  match rows with None => Err QueryFailed | Some rs => Ok (map minute_row rs) end.

(** The rows the two tables answer are arguments. *)
Definition Bars (freq : Frequency) (start end_ : Time)
    (daily : option (list MarketBar)) (minute : option (list MinuteRow))
    : res aggregate_error (list MarketBar) :=
  match freq with
  | Freq1d => loadDaily daily
  | Freq1m => loadMinute start end_ minute
  | Freq15m => let? minutes := loadMinute start end_ minute in Aggregate minutes Freq15m
  | f => Err (UnsupportedFrequency f)
  end.

End Aggregation.
