(* ===== verification/BarProps.v ===== *)
(** * BarProps: what aggregated bars hold and when they may be seen

    An aggregated bar sums up exactly the minute bars of its bucket; which of
    them it shows before their time. *)

From stdpp Require Import base list strings gmap sorting.
From Stdlib Require Import ZArith Lia.
From S2P Require Import Prelude GoMap GoFloat Domain GoSlice MarketBars.

Open Scope Z_scope.

(** ** Buckets *)

Definition in_bucket (target : Frequency) (k : bucketKey) (b : MarketBar) : bool :=
  match bar_start target (mb_Date b) with Ok s => bool_decide (k = (mb_Symbol b, s)) | Err _ => false end.

(** The bars of a bucket, in their order. *)
Definition group (target : Frequency) (k : bucketKey) (l : list MarketBar) : list MarketBar :=
  List.filter (in_bucket target k) l.

(** Open of the first, close of the last, extremes, sums. *)
Definition summary (g : list MarketBar) : option acc :=
  match g with [] => None | b :: rest => Some (foldl acc_add (acc_of b) rest) end.

Definition in_session (target : Frequency) (b : MarketBar) : Prop := exists s, bar_start target (mb_Date b) = Ok s.

Lemma summary_snoc g b : summary (g ++ [b]) = Some (match summary g with None => acc_of b | Some a => acc_add a b end).
Proof. destruct g as [|x g]; [done|]. cbn [app summary]. by rewrite foldl_app. Qed.

Lemma summary_none g : summary g = None <-> g = [].
Proof. by destruct g. Qed.

Lemma group_snoc target k l b s :
  bar_start target (mb_Date b) = Ok s ->
  group target k (l ++ [b]) = group target k l ++ (if decide (k = (mb_Symbol b, s)) then [b] else []).
Proof.
  intros Hs. unfold group. rewrite List.filter_app. f_equal. cbn [List.filter]. unfold in_bucket. rewrite Hs.
  by destruct (decide (k = (mb_Symbol b, s))); case_bool_decide.
Qed.

Lemma fold_buckets target l :
  Forall (in_session target) l ->
  exists buckets keys, foldl (add_bar target) (Ok (∅, [])) l = Ok (buckets, keys)
  /\ (forall k, buckets !! k = summary (group target k l)) /\ NoDup keys /\ (forall k, k ∈ keys <-> group target k l <> []).
Proof.
  induction l as [|b l IH] using rev_ind; intros Hs.
  { exists ∅, []. split_and!; [done|intros k; by rewrite lookup_empty|constructor|]. intros k. split; [by intros ?%not_elem_of_nil|done]. }
  apply Forall_app in Hs as [Hl Hb]. apply Forall_cons in Hb as [[s Hb] _].
  destruct (IH Hl) as (buckets & keys & E & Hbk & Hnd & Hk). rewrite foldl_app, E. cbn [foldl add_bar]. rewrite Hb.
  set (kb := (mb_Symbol b, s)). rewrite Hbk. destruct (summary (group target kb l)) as [a|] eqn:Ea.
  - exists (<[kb := acc_add a b]> buckets), keys. split_and!; [done| |done|].
    + intros k. rewrite (group_snoc target k l b s Hb). destruct (decide (k = kb)) as [->|Hne].
      * rewrite lookup_insert_eq, decide_True, summary_snoc, Ea by done. done.
      * rewrite lookup_insert_ne, decide_False, app_nil_r by done. apply Hbk.
    + intros k. rewrite Hk, (group_snoc target k l b s Hb). destruct (decide (k = kb)) as [->|Hne].
      * rewrite decide_True by done. split; [by destruct (group target kb l)|]. intros _ Hg. apply summary_none in Hg. congruence.
      * by rewrite decide_False, app_nil_r.
  - exists (<[kb := acc_of b]> buckets), (keys ++ [kb]). apply summary_none in Ea. split_and!; [done| | |].
    + intros k. rewrite (group_snoc target k l b s Hb). destruct (decide (k = kb)) as [->|Hne].
      * by rewrite lookup_insert_eq, decide_True, Ea.
      * rewrite lookup_insert_ne, decide_False, app_nil_r by done. apply Hbk.
    + apply NoDup_app. split_and!; [done| |apply NoDup_singleton]. intros k Hin ->%list_elem_of_singleton. by apply Hk in Hin.
    + intros k. rewrite elem_of_app, Hk, list_elem_of_singleton, (group_snoc target k l b s Hb).
      destruct (decide (k = kb)) as [->|Hne].
      * rewrite decide_True, Ea by done. split; [done|by right].
      * rewrite decide_False, app_nil_r by done. split; [by intros [?|?]|by left].
Qed.

(** A bar outside the sessions stops the loop. *)
Lemma fold_fault target l : forall st, (exists e, st = Err e) \/ ~ Forall (in_session target) l ->
  exists e, foldl (add_bar target) st l = Err e.
Proof.
  induction l as [|b l IH]; intros st Hc; cbn [foldl].
  - destruct Hc as [?|Hc]; [done|]. by destruct Hc.
  - apply IH. destruct Hc as [[e ->]|Hc]; [left; by exists e|]. destruct st as [[buckets keys]|e]; [|left; by exists e].
    cbn [add_bar]. destruct (bar_start target (mb_Date b)) as [s|e] eqn:E; [right|left; by eexists].
    intros Hl. apply Hc. constructor; [by exists s|done].
Qed.

Lemma first_undeclared_none i bars : first_undeclared i bars = None <-> Forall (fun b => mb_Frequency b = Freq1m) bars.
Proof.
  revert i. induction bars as [|b bars IH]; intros i; cbn [first_undeclared]; [done|]. rewrite Forall_cons.
  case_bool_decide; [rewrite IH|]; naive_solver.
Qed.

(** The buckets of the code, and what it makes of them. *)
Lemma aggregate_buckets `{!SliceSort} bars target :
  target = Freq15m \/ target = Freq1d ->
  let sorted := SliceStable minute_before bars in
  ((exists out, Aggregate bars target = Ok out)
     <-> Forall (fun b => mb_Frequency b = Freq1m) bars /\ Forall (in_session target) bars)
  /\ forall out, Aggregate bars target = Ok out ->
     NoDup (map (fun b => (mb_Symbol b, mb_Date b)) out)
     /\ forall bar, bar ∈ out <-> exists k a, summary (group target k sorted) = Some a /\ bar = bucket_bar target k a.
Proof.
  intros Ht sorted. unfold Aggregate. fold sorted.
  replace (negb (bool_decide (target = Freq15m)) && negb (bool_decide (target = Freq1d))) with false
    by (destruct Ht as [->| ->]; done).
  assert (Hperm : Forall (in_session target) sorted <-> Forall (in_session target) bars)
    by (unfold sorted; by rewrite SliceStable_perm).
  pose proof (first_undeclared_none 0 bars) as Hf. destruct (first_undeclared 0 bars) as [i|].
  { split; [|done]. split; [by intros [? ?]|]. intros [H1 _]. by apply Hf in H1. }
  assert (Hdec : Forall (in_session target) sorted \/ ~ Forall (in_session target) sorted).
  { assert (Decision (Forall (in_session target) sorted)) as [?|?]; [|by left|by right].
    apply Forall_dec. intros b. unfold in_session. destruct (bar_start target (mb_Date b)); [left; eauto|right; by intros [? ?]]. }
  destruct Hdec as [Hin|Hout].
  - destruct (fold_buckets target sorted Hin) as (buckets & keys & -> & Hb & Hnd & Hk). split; [split; [split; [by apply Hf|by apply Hperm]|eauto]|].
    intros out [= <-]. assert (Helem : forall bar, bar ∈ omap (fun k => bucket_bar target k <$> buckets !! k) keys
      <-> exists k a, summary (group target k sorted) = Some a /\ bar = bucket_bar target k a).
    { intros bar. rewrite list_elem_of_omap. split.
      - intros (k & _ & Hbar). rewrite Hb in Hbar. destruct (summary _) as [a|] eqn:Ea; [|done]. injection Hbar as <-. eauto.
      - intros (k & a & Ha & ->). exists k. rewrite Hb, Ha. split; [|done]. apply Hk. intros Hg. by rewrite Hg in Ha. }
    split; [|intros bar; by rewrite Slice_elem].
    rewrite Slice_perm. replace (map _ (omap _ keys)) with keys; [done|].
    clear -Hb Hk. assert (Hall : forall k, k ∈ keys -> is_Some (buckets !! k)).
    { intros k Hin. apply Hk in Hin. rewrite Hb. destruct (group target k sorted); [done|]. by eexists. }
    clear Hb Hk. induction keys as [|k keys IH]; [done|]. cbn. destruct (Hall k ltac:(by left)) as [a ->]. cbn.
    rewrite <- IH by (intros; apply Hall; by right). by destruct k.
  - destruct (fold_fault target sorted (Ok (∅, [])) (or_intror Hout)) as [e ->]. split; [|done].
    split; [by intros [? ?]|]. intros [_ H2]. by apply Hperm in H2.
Qed.

(** ** The specification: sessions, quarters of an hour and summaries *)

(** The time of day in Shanghai, in nanoseconds, and a time of day. *)
Definition clock (ts : Time) : Z := (ts + shanghai_offset) mod day_ns.
Definition at_time (h m : Z) : Z := (h * 60 + m) * minute_ns.

(** The opening auction and the morning, and the afternoon with the closing
    auction, their ends included. *)
Definition trading_time (x : Z) : Prop :=
  at_time 9 15 <= x <= at_time 11 30 \/ at_time 13 0 <= x <= at_time 15 0.

(** The sixteen quarters of an hour of a day, and the one a time belongs to:
    the last that has begun, or the first for the opening auction. *)
Definition quarters : list Z :=
  [at_time 9 30; at_time 9 45; at_time 10 0; at_time 10 15; at_time 10 30; at_time 10 45; at_time 11 0; at_time 11 15;
   at_time 13 0; at_time 13 15; at_time 13 30; at_time 13 45; at_time 14 0; at_time 14 15; at_time 14 30; at_time 14 45].
Definition quarter (x : Z) : Z := foldl (fun q s => if s <=? x then s else q) (at_time 9 30) quarters.

(** The start of the bucket of a print: its quarter of an hour, or midnight
    UTC of its day in Shanghai. *)
Definition bucket_of (target : Frequency) (ts : Time) : Time :=
  if decide (target = Freq15m) then ts - clock ts + quarter (clock ts) else ts + shanghai_offset - clock ts.

(** The minute bars of a bucket, in order. *)
Definition members (target : Frequency) (bars : list MarketBar) (bar : MarketBar) : list MarketBar :=
  filter (fun b => mb_Symbol b = mb_Symbol bar /\ bucket_of target (mb_Date b) = mb_Date bar) bars.

(** A bar sums up minute bars: the open of the first, the close of the last,
    a high none exceeds and a low none undercuts, both of one of them, and
    the sums of the volumes and the turnovers. *)
Record sums_up (bar : MarketBar) (g : list MarketBar) : Prop := {
  su_open : exists b, head g = Some b /\ mb_Open bar = mb_Open b;
  su_close : exists b, last g = Some b /\ mb_Close bar = mb_Close b;
  su_high : (exists b, b ∈ g /\ mb_High bar = mb_High b)
            /\ forall b, b ∈ g -> flt (mb_High bar) (mb_High b) = false;
  su_low : (exists b, b ∈ g /\ mb_Low bar = mb_Low b)
           /\ forall b, b ∈ g -> flt (mb_Low b) (mb_Low bar) = false;
  su_volume : exists v vs, map mb_Volume g = v :: vs /\ mb_Volume bar = foldl fadd v vs;
  su_turnover : exists v vs, map mb_Turnover g = v :: vs /\ mb_Turnover bar = foldl fadd v vs
}.

(** ** The code meets it *)

Lemma clock_minutes ts :
  clock ts = local_minute ts * minute_ns + (ts + shanghai_offset) mod minute_ns
  /\ 0 <= (ts + shanghai_offset) mod minute_ns < minute_ns /\ 0 <= clock ts < day_ns
  /\ ts + shanghai_offset = local_day ts * day_ns + clock ts.
Proof.
  unfold clock, local_minute, local_day, shanghai_offset, day_ns, minute_ns.
  remember (ts + 480 * 60000000000) as x eqn:Hx. Z.div_mod_to_equations. lia.
Qed.

Lemma session_spec ts : checkInSession ts = Ok tt <-> trading_time (clock ts).
Proof.
  destruct (clock_minutes ts) as (Hc & Hr & _). unfold checkInSession, on_minute. cbv zeta.
  unfold trading_time, at_time, auctionOpenMin, morningCloseMin, afternoonOpenMin, afternoonCloseMin, minute_ns in *.
  revert Hc Hr. generalize (local_minute ts) (clock ts) ((ts + shanghai_offset) mod 60000000000). intros hm x r Hc Hr.
  repeat case_match; split; intros; try done; try lia.
Qed.

(** Down the quarters of an hour from the last. *)
Ltac walk :=
  repeat match goal with |- context [if ?s <=? ?x then _ else _] => destruct (Z.leb_spec s x); [|] end.

Lemma quarter_spec ts : trading_time (clock ts) -> bucket_minute (local_minute ts) * minute_ns = quarter (clock ts).
Proof.
  destruct (clock_minutes ts) as (Hc & Hr & _). unfold trading_time, quarter, quarters, bucket_minute, at_time.
  unfold morningOpenMin, morningCloseMin, afternoonOpenMin, afternoonCloseMin, bucketMinutes, minute_ns in *.
  revert Hc Hr. generalize (local_minute ts) (clock ts) ((ts + shanghai_offset) mod 60000000000). intros hm x r Hc Hr Ht.
  cbn [foldl]. destruct Ht as [Ht|Ht].
  - destruct (Z.ltb_spec hm (9 * 60 + 30)); [walk; lia|]. destruct (Z.ltb_spec hm (11 * 60 + 30));
      [|rewrite (proj2 (Z.eqb_eq hm (11 * 60 + 30))) by lia; walk; lia].
    rewrite Z.quot_div_nonneg by lia. walk; Z.div_mod_to_equations; lia.
  - rewrite (proj2 (Z.ltb_ge hm (9 * 60 + 30))), (proj2 (Z.ltb_ge hm (11 * 60 + 30))), (proj2 (Z.eqb_neq hm (11 * 60 + 30))) by lia.
    destruct (Z.ltb_spec hm (15 * 60)); [|walk; lia].
    rewrite Z.quot_div_nonneg by lia. walk; Z.div_mod_to_equations; lia.
Qed.

Lemma bar_start_spec target ts s :
  target = Freq15m \/ target = Freq1d ->
  bar_start target ts = Ok s <-> trading_time (clock ts) /\ s = bucket_of target ts.
Proof.
  intros Ht. rewrite <- session_spec. unfold bar_start, bucketStart15m, bucketStartDaily, bucket_of.
  destruct (clock_minutes ts) as (_ & _ & _ & Hd).
  pose proof (quarter_spec ts) as Hq. rewrite <- session_spec in Hq.
  destruct Ht as [->| ->]; case_bool_decide; case_decide; try done;
    (destruct (checkInSession ts) as [[]|e]; cbn [res_bind]; [|naive_solver]);
    [rewrite <- Hq by done|]; (split; [intros [= <-]; split; [done|lia]|intros [_ ->]; f_equal; lia]).
Qed.

Lemma summary_sums_up g a target k :
  summary g = Some a -> sums_up (bucket_bar target k a) g.
Proof.
  revert a. induction g as [|b g IH] using rev_ind; intros a; [discriminate|]. rewrite summary_snoc.
  destruct (summary g) as [a0|] eqn:Ea; intros [= <-].
  - destruct (IH _ eq_refl) as [So Sc [[bh [Hbh Eh]] Sh] [[bl [Hbl El]] Sl] (v & vs & Ev & Sv) (u & us & Eu & Su)].
    cbn in Eh, Sh, El, Sl, Sv, Su. destruct So as (b0 & Hb0 & So). constructor; cbn.
    + exists b0. split; [by destruct g|done].
    + exists b. by rewrite last_snoc.
    + destruct (flt (ac_high a0) (mb_High b)) eqn:E; split.
      * exists b. split; [set_solver|done].
      * intros x [Hx| ->%list_elem_of_singleton]%elem_of_app; [|apply flt_irrefl].
        specialize (Sh x Hx). apply not_true_iff_false. intros Hlt. apply not_true_iff_false in Sh. apply Sh.
        apply (flt_le_trans _ (mb_High b)); [by apply flt_not_nan in Hlt as [_ ?]|done|by apply flt_asym].
      * exists bh. split; [set_solver|done].
      * intros x [Hx| ->%list_elem_of_singleton]%elem_of_app; [by apply Sh|done].
    + destruct (flt (mb_Low b) (ac_low a0)) eqn:E; split.
      * exists b. split; [set_solver|done].
      * intros x [Hx| ->%list_elem_of_singleton]%elem_of_app; [|apply flt_irrefl].
        specialize (Sl x Hx). apply not_true_iff_false. intros Hlt. apply not_true_iff_false in Sl. apply Sl.
        apply (flt_le_trans _ (mb_Low b)); [by apply flt_not_nan in E as [_ ?]|done|by apply flt_asym].
      * exists bl. split; [set_solver|done].
      * intros x [Hx| ->%list_elem_of_singleton]%elem_of_app; [by apply Sl|done].
    + exists v, (vs ++ [mb_Volume b]). rewrite map_app, Ev, foldl_app. cbn. by rewrite Sv.
    + exists u, (us ++ [mb_Turnover b]). rewrite map_app, Eu, foldl_app. cbn. by rewrite Su.
  - apply summary_none in Ea as ->. constructor; cbn; try (by eexists); try (by eexists _, []).
    + split; [exists b; split; [by left|done]|]. intros x ->%list_elem_of_singleton. apply flt_irrefl.
    + split; [exists b; split; [by left|done]|]. intros x ->%list_elem_of_singleton. apply flt_irrefl.
Qed.

(** Symbols, then times. *)
Definition minute_le (a b : MarketBar) : Prop :=
  bytes_le (mb_Symbol a) (mb_Symbol b) /\ (mb_Symbol a = mb_Symbol b -> mb_Date a <= mb_Date b).

#[global] Instance minute_le_trans : Transitive minute_le.
Proof.
  intros a b c [H1 H2] [H3 H4]. split; [by etrans|]. intros E. rewrite E in H1.
  pose proof (anti_symm bytes_le _ _ H1 H3) as E'. rewrite <- E' in H4. rewrite <- E', E in H2. specialize (H2 eq_refl). specialize (H4 eq_refl). lia.
Qed.

Lemma minutes_sorted bars : StronglySorted minute_le (SliceStable minute_before bars).
Proof.
  apply SliceStable_sorted; [apply _|]. intros a b. unfold minute_before, minute_le, bytes_ltb, Before.
  case_bool_decide as E; cbn [negb].
  - rewrite E. assert (Hr : bytes_le (mb_Symbol b) (mb_Symbol b)) by (by destruct (bytes_le_total (mb_Symbol b) (mb_Symbol b))).
    destruct (Z.ltb_spec (mb_Date a) (mb_Date b)); (split; [done|]; intros _; lia).
  - destruct (bytes_leb (mb_Symbol b) (mb_Symbol a)) eqn:Eb; cbn [negb].
    + split; [done|]. intros E'. by rewrite E' in E.
    + destruct (bytes_le_total (mb_Symbol a) (mb_Symbol b)) as [Hl|Hl]; [|unfold bytes_le in Hl; congruence].
      split; [done|]. intros E'. by rewrite E' in E.
Qed.

Lemma group_members target k l :
  target = Freq15m \/ target = Freq1d -> Forall (fun b => trading_time (clock (mb_Date b))) l ->
  group target k l = filter (fun b => mb_Symbol b = k.1 /\ bucket_of target (mb_Date b) = k.2) l.
Proof.
  intros Ht. induction 1 as [|b l Hb Hl IH]; [done|]. unfold group in *. cbn [List.filter]. rewrite IH.
  rewrite filter_cons. unfold in_bucket.
  rewrite (proj2 (bar_start_spec target (mb_Date b) _ Ht) (conj Hb eq_refl)). destruct k as [ks kt]. cbn.
  case_bool_decide as E; case_decide as E'; try done; exfalso; naive_solver congruence.
Qed.

(** C36. Aggregation is exact. It succeeds exactly when every bar is declared
    as a minute bar and its time of day in Shanghai is from 9:15 to 11:30 or
    from 13:00 to 15:00. There is then one bar for each symbol and quarter of
    an hour (or day) with minute bars, and none for others; it has the open of
    the first, the close of the last, the highest high, the lowest low and the
    sums of the volumes and turnovers of the minute bars of the symbol in it,
    in the order of their times. *)
Theorem aggregation_is_exact `{!SliceSort} bars target :
  target = Freq15m \/ target = Freq1d ->
  ((exists out, Aggregate bars target = Ok out)
     <-> Forall (fun b => mb_Frequency b = Freq1m /\ trading_time (clock (mb_Date b))) bars)
  /\ forall out, Aggregate bars target = Ok out ->
     NoDup (map (fun b => (mb_Symbol b, mb_Date b)) out)
     /\ (forall b, b ∈ bars -> exists bar, bar ∈ out /\ mb_Symbol bar = mb_Symbol b
                                         /\ mb_Date bar = bucket_of target (mb_Date b))
     /\ forall bar, bar ∈ out -> exists g, g ≡ₚ members target bars bar
          /\ StronglySorted (fun a b => mb_Date a <= mb_Date b) g /\ sums_up bar g.
Proof.
  intros Ht. destruct (aggregate_buckets bars target Ht) as [Hok Hout].
  assert (Hsess : Forall (in_session target) bars <-> Forall (fun b => trading_time (clock (mb_Date b))) bars).
  { apply Forall_iff. intros b. unfold in_session. setoid_rewrite (bar_start_spec target _ _ Ht). naive_solver. }
  rewrite Hsess in Hok. split; [by rewrite Hok, Forall_and|]. intros out Ha.
  destruct (proj1 Hok (ex_intro _ out Ha)) as [_ Htr]. destruct (Hout out Ha) as [Hnd Hbars].
  assert (Htr' : Forall (fun b => trading_time (clock (mb_Date b))) (SliceStable minute_before bars))
    by (by rewrite SliceStable_perm).
  split; [exact Hnd|]. split.
  - intros b Hb. pose (k := (mb_Symbol b, bucket_of target (mb_Date b))).
    destruct (summary (group target k (SliceStable minute_before bars))) as [a|] eqn:Ea.
    + exists (bucket_bar target k a). split; [apply Hbars; by exists k, a|done].
    + exfalso. apply summary_none in Ea. rewrite group_members in Ea by done.
      apply (filter_nil_not_elem_of _ _ b Ea); [done|]. by rewrite SliceStable_perm.
  - intros bar Hbar. apply Hbars in Hbar as (k & a & Ha' & ->).
    exists (group target k (SliceStable minute_before bars)). split; [|split; [|by apply summary_sums_up]].
    + rewrite group_members by done. unfold members. cbn. by rewrite SliceStable_perm.
    + rewrite group_members by done.
      pose proof (StronglySorted_filter _ (fun b => mb_Symbol b = k.1 /\ bucket_of target (mb_Date b) = k.2) _ (minutes_sorted bars)) as Hs.
      assert (Hall : Forall (fun b => mb_Symbol b = k.1)
                (filter (fun b => mb_Symbol b = k.1 /\ bucket_of target (mb_Date b) = k.2) (SliceStable minute_before bars))).
      { apply Forall_forall. intros b [[? _] _]%list_elem_of_filter. done. }
      revert Hs Hall. generalize (filter (fun b => mb_Symbol b = k.1 /\ bucket_of target (mb_Date b) = k.2) (SliceStable minute_before bars)).
      clear. intros g. induction 1 as [|x g Hg IH Hx]; intros Hall; constructor; apply Forall_cons in Hall as [Ex Hall].
      * by apply IH.
      * rewrite Forall_forall in Hx, Hall. apply Forall_forall. intros y Hy. apply (Hx y Hy). rewrite Ex. symmetry. by apply Hall.
Qed.

(** ** Visibility *)

(** The print of the close, which the aggregation puts in the bucket that
    ends with it: 15:00, and for a quarter of an hour also 11:30. *)
Definition closing_print (target : Frequency) (ts : Time) : Prop :=
  clock ts = at_time 15 0 \/ target = Freq15m /\ clock ts = at_time 11 30.

(** A print of the last minute of its bucket, not on the minute, so that the
    minute it is visible after ends behind the bucket. *)
Definition late_print (target : Frequency) (ts : Time) : Prop :=
  if decide (target = Freq15m)
  then quarter (clock ts) + 14 * minute_ns < clock ts < quarter (clock ts) + 15 * minute_ns
  else at_time 14 59 < clock ts < at_time 15 0.

Lemma aggregated_bar `{!SliceSort} bars target out bar :
  Aggregate bars target = Ok out -> bar ∈ out -> exists a, bar = bucket_bar target (mb_Symbol bar, mb_Date bar) a.
Proof.
  unfold Aggregate. intros Ha Hin. destruct (_ && _); [done|]. destruct (first_undeclared _ _); [done|].
  destruct (foldl _ _ _) as [[buckets keys]|]; [|done]. injection Ha as <-. rewrite Slice_elem in Hin.
  apply list_elem_of_omap in Hin as ([sym s] & _ & Hb). destruct (buckets !! _) as [a|]; [|done].
  injection Hb as <-. by exists a.
Qed.

(** The times past the last minute of their quarter of an hour. *)
Lemma quarter_end x : trading_time x -> quarter x + 14 * minute_ns < x ->
  x < quarter x + 15 * minute_ns \/ x = at_time 15 0 \/ x = at_time 11 30.
Proof.
  unfold trading_time, quarter, quarters, at_time, minute_ns. intros Ht.
  cbn [foldl]. walk; lia.
Qed.

Lemma quarter_close x : x = at_time 15 0 \/ x = at_time 11 30 -> quarter x + 14 * minute_ns < x.
Proof. intros [->| ->]; vm_compute; reflexivity. Qed.

(** C30. Which prints leak. A minute row is visible a minute after its start.
    A bar aggregated from rows is visible before a row of its bucket exactly
    when the row is a closing print (15:00, or 11:30 for a quarter of an
    hour), which the bucket that ends with it holds, or a print of the last
    minute of the bucket that is not on the minute. For rows on the minute
    only the closing prints are seen early. *)
Theorem prints_that_leak `{!SliceSort} rows target out bar row :
  target = Freq15m \/ target = Freq1d ->
  Aggregate (map minute_row rows) target = Ok out -> bar ∈ out -> row ∈ rows ->
  mr_Symbol row = mb_Symbol bar -> bucket_of target (mr_Ts row) = mb_Date bar ->
  (mb_VisibleAt bar < mb_VisibleAt (minute_row row)
     <-> closing_print target (mr_Ts row) \/ late_print target (mr_Ts row))
  /\ (on_minute (mr_Ts row) = true -> mb_VisibleAt bar < mb_VisibleAt (minute_row row) ->
      closing_print target (mr_Ts row)).
Proof.
  intros Ht Ha Hin Hrow _ Hb. destruct (aggregated_bar _ _ _ _ Ha Hin) as [a Hbar].
  assert (Htr : trading_time (clock (mr_Ts row))).
  { destruct (aggregate_buckets (map minute_row rows) target Ht) as [Hok _]. destruct (proj1 Hok (ex_intro _ out Ha)) as [_ Hs].
    rewrite Forall_forall in Hs. destruct (Hs (minute_row row)) as [s Es]; [apply list_elem_of_fmap; eauto|].
    by apply (bar_start_spec _ _ _ Ht) in Es as [? _]. }
  assert (Hv : mb_VisibleAt bar = mb_VisibleAt (bucket_bar target (mb_Symbol bar, mb_Date bar) a)) by (by rewrite <- Hbar).
  rewrite Hv, <- Hb. clear Hv Hbar Ha Hin Hrow Hb. destruct (clock_minutes (mr_Ts row)) as (Hc & Hr & _ & Hd).
  unfold bucket_bar, minute_row, IntradayVisibleAt, closing_print, late_print, bucket_of, on_minute, DailyVisibleAt.
  cbn [mb_VisibleAt fst snd]. unfold bucketMinutes.
  destruct Ht as [->| ->]; case_bool_decide; case_decide; try done.
  - pose proof (quarter_end _ Htr) as Hq. pose proof (quarter_close (clock (mr_Ts row))) as Hq'.
    assert (Hleak : mr_Ts row - clock (mr_Ts row) + quarter (clock (mr_Ts row)) + 15 * minute_ns < mr_Ts row + 1 * minute_ns
                    <-> quarter (clock (mr_Ts row)) + 14 * minute_ns < clock (mr_Ts row)) by lia.
    rewrite Hleak. split.
    + split; [intros Hlt; destruct (Hq Hlt) as [?|[?|?]]; tauto|]. intros [[?|[_ ?]]|?]; [apply Hq'; tauto..|lia].
    + intros Hm%Z.eqb_eq Hlt. destruct (Hq Hlt) as [Hlate|[?|?]]; [exfalso|tauto|tauto].
      revert Hlate Hlt. rewrite <- quarter_spec by done. rewrite Hc, Hm. unfold minute_ns. lia.
  - replace (mr_Ts row + shanghai_offset - clock (mr_Ts row)) with (local_day (mr_Ts row) * day_ns) by lia.
    rewrite Z.div_mul by done. unfold trading_time, at_time, minute_ns in *.
    split; [split; [intros Hlt; lia|intros [[?|[? _]]|?]; [lia|done|lia]]|]. intros Hm%Z.eqb_eq Hlt. left. lia.
Qed.

(** ** Witnesses *)

(** Prints of 9:20, 9:31, 9:44:30 and 15:00 on one day. *)
Definition print_at (ns : Z) (price : Z) : MinuteRow :=
  let p := flit price 0 in
  MkMinuteRow (lit "600000.SH") (20000 * day_ns + ns - shanghai_offset) p p p p 100 (Some p).

Definition four_prints : list MinuteRow :=
  [print_at (at_time 15 0) 12; print_at (at_time 9 20) 10; print_at (at_time 9 31) 11;
   print_at (at_time 9 44 + 30000000000) 9].

Lemma aggregation_is_exact_witness :
  exists out, @Aggregate merge_slice (map minute_row four_prints) Freq15m = Ok out
    /\ forall bar, bar ∈ out -> exists g, sums_up bar g.
Proof.
  destruct (@aggregation_is_exact merge_slice (map minute_row four_prints) Freq15m (or_introl eq_refl)) as [Hok Hout].
  assert (He : exists out, @Aggregate merge_slice (map minute_row four_prints) Freq15m = Ok out).
  { apply Hok. repeat (apply Forall_cons; split; [split; [reflexivity|]|]); [..|apply Forall_nil; exact I].
    - right. vm_compute. split; discriminate.
    - left. vm_compute. split; discriminate.
    - left. vm_compute. split; discriminate.
    - left. vm_compute. split; discriminate. }
  destruct He as [out Ho]. exists out. split; [exact Ho|]. intros bar Hb.
  destruct (Hout out Ho) as (_ & _ & H3). destruct (H3 bar Hb) as (g & _ & _ & Hg). by exists g.
Defined.

Definition daily_bar : MarketBar := bucket_bar Freq1d (lit "600000.SH", 20000 * day_ns)
  (MkAcc (flit 10 0) (flit 12 0) (flit 12 0) (flit 9 0) (flit 400 0) (flit 42 0)).

Lemma prints_that_leak_witness :
  mb_VisibleAt daily_bar < mb_VisibleAt (minute_row (print_at (at_time 15 0) 12)).
Proof.
  refine (proj2 (proj1 (@prints_that_leak merge_slice four_prints Freq1d [daily_bar] daily_bar
                          (print_at (at_time 15 0) 12) _ _ _ _ _ _)) _).
  - by right.
  - vm_compute. reflexivity.
  - by left.
  - by left.
  - reflexivity.
  - vm_compute. reflexivity.
  - left. left. vm_compute. reflexivity.
Defined.
